(* ===== verification/_CoqProject ===== *)
-Q . S2P
Prelude.v
Cstring.v
Ulib.v
Pfloat.v
Grep.v
EnvVar.v
Sh.v
Runcmd.v
Uprogs.v
Progs.v
Eeco.v
Cal.v
CalProps.v
Spinlock.v
Kalloc.v
Vm.v
VmProps.v
Pipe.v
Buf.v
Ide.v
Bio.v
Log.v
Txn.v
Fs.v
FsProps.v
Balloc.v
Inode.v
InodeProps.v
DirProps.v
Itrunc.v
File.v
FileProps.v
Mkfs.v
MkfsProps.v
Tedit.v
TeditProps.v
Snake.v
Rtc.v
Proc.v
Sched.v
Switch.v
Exec.v
Syscall.v
Umalloc.v
Console.v
ConsoleProps.v
Dump.v
Kbd.v
Intr.v
Mp.v
Trap.v
Seg.v
Main.v
Kernel.v
Boot.v
