(* ===== verification/Prelude.v ===== *)
(** * A verification development of the xv6 kernel and its user library

    The program is a small Unix-like kernel for x86 machines with the user
    library, the shell and the tools that come with it (src/xv6/). This
    library models its parts as executable definitions and proves the
    theorems that make them correct. This file holds what all parts share: the
    outcomes of a run, the state and error monad [M] with its weakest
    preconditions [wp], layers of state, machine integers, little endian words
    in byte lists and general lemmas.

    ** The parts and the files

    The disk stack, from the bottom: [Buf.v] has the disk buffers of buf.h, the
    interface [BlockDev] of a disk driver and its first instance, the memory
    disk of memide.c; [Ide.v] is the driver of ide.c with its queue and
    interrupts, the second instance; [Bio.v] is the buffer cache of bio.c over
    any [BlockDev]; [Log.v] is the redo log of log.c; [Txn.v] has transactions
    over the log with the crash theorems; [Fs.v] is fs.c on top of the log,
    with properties in [FsProps.v] (path names, on-disk inodes, the inode
    cache), [Balloc.v] (the block allocator), [Inode.v] (the map of a file's
    blocks and [bmap]), [InodeProps.v] (reading and writing the contents of a
    file), [DirProps.v] (directories as maps from names to inode numbers),
    [Itrunc.v] (freeing a file) and, above the file table, [FileProps.v]
    ([filewrite]).

    Memory: [Kalloc.v] is the page allocator of kalloc.c, which keeps its free
    list in the free pages; [Vm.v] and [VmProps.v] are the page tables of vm.c
    in pages of that allocator.

    Processes and system calls: [Spinlock.v] (spinlock.c), [Pipe.v] (pipe.c),
    [File.v] (file.c and pipealloc), [Proc.v] (the process table of proc.c),
    [Sched.v] (its scheduler on any number of processors), [Switch.v] (the locks and the
    interrupt flag around a context switch: sched, yield, sleep, forkret), [Exec.v]
    (exec.c), [Syscall.v] (syscall.c, sysfile.c and the process calls of sysproc.c),
    [Trap.v] (trap.c and the calls of sysproc.c that need the clock),
    [EnvVar.v] (the environment variables of sysproc.c), [Kernel.v] (the table
    of all system calls over the joint state). [Console.v] is
    console.c with the system calls that go to it: the screen memory, the ring
    of typed characters with its editing and history; [ConsoleProps.v] has its
    properties, [Dump.v] has the messages of the kernel on it (procdump of proc.c,
    panic), and [Kbd.v] is the keyboard of kbd.c in front of it.

    Machine: [Boot.v] is the boot loader of bootmain.c, [Mp.v] reads the
    multiprocessor tables as mp.c does, [Intr.v] has the interrupt controllers,
    the timer and the serial port (picirq.c, ioapic.c, lapic.c, timer.c,
    uart.c), [Rtc.v] the real-time clock (cmostime of lapic.c). [Seg.v] has the
    segments, the task state and the registers of a processor (mmu.h, x86.h,
    seginit, switchkvm and switchuvm of vm.c, idtinit of trap.c) with the rules
    by which the processor uses them, and [Main.v] the start of the other
    processors (startothers, mpenter, mpmain and entrypgdir of main.c).

    Libraries and programs: [Cstring.v] (string.c), [Ulib.v] (ulib.c and
    printf.c), [Pfloat.v] (printFloat of printf.c), [Umalloc.v] (umalloc.c), [Grep.v] (grep.c), [Sh.v] and
    [Runcmd.v] (the parser of sh.c and the execution of its commands),
    [Uprogs.v] (the functions of wc.c, cat.c, echo.c, ls.c), [Progs.v] (main of
    cat.c, wc.c, grep.c, rm.c, mkdir.c, ln.c, kill.c, date.c, hlight.c, docedt.c,
    init.c and zombie.c over the interface [Os] of the system calls, with its
    laws [OsLaws] and an implementation in memory), [Eeco.v] (eeco.c), [Cal.v]
    and [CalProps.v] (the calculator of cal.c), [Tedit.v] and [TeditProps.v] (the
    text editor of tedit.c), [Snake.v] (the game of snake.c), [Mkfs.v] and
    [MkfsProps.v] (mkfs.c, the program of the host that makes the file system).

    ** How C is modelled

    A function that changes state is a function of type [M S A] from the state
    to an outcome. [Ok] is a return with a value. [Err] is one of: [Panic], a
    call of panic with its message; [Sleep], a call of sleep that gives up the
    processor, with the channel; [Undef], an access out of an object, which is
    undefined in C; [NoFuel], the end of the fuel of a loop that is not
    structural. A theorem that code returns excludes all four. A pointer to an
    element of a static array is its index, and a pointer into a flat memory is
    an address; a null pointer is [None] where the function returns an option.
    Integers are in [Z]; [u32], [s32] and their likes write the wrap-around
    where the code can reach it. A part that uses another has its state inside
    its own ([Layer]), and [lift] runs an operation of the lower part.

    The kernel's operations are modelled as they run between the acquisition
    and the release of the lock that protects them, so that locks that are
    taken and released inside one function do not appear. Where interleaving
    is the point it is a step relation: the processors on one lock in
    [Spinlock.v], the threads on one pipe in [Pipe.v], the processes in exit,
    wait, sleep and kill in [Proc.v], the processors that schedule them in
    [Sched.v], requests and interrupts in [Ide.v], the processors that start in
    [Main.v]. A thread that spins for a lock in [Switch.v] has the turns of the
    others as an argument.

    ** Fuel

    Loops over arrays and lists are structural. Where a loop follows pointers
    its fuel is the number of objects (one more than [NBUF] for the cache, the
    number of buffers for the IDE queue); loops over a range have the number of
    pages, blocks or bytes of it. The shell's parser has four calls for each
    character, because a level of parentheses is four calls deep. Loops that
    poll a device or read a register until it is stable have the fuel as an
    argument, and their theorems ask that it covers the time the device takes.
    The theorems about all these functions show that they return, so the fuel is
    enough.

    ** What the theorems show

    - Crash safety: a transaction is atomic for every prefix of the sector
      writes that reach the disk, however often recovery is interrupted
      ([Txn.v]); it rests on the refinement of the cache to the disk
      ([Bio.v]), which is proved against [BlockDev], and on the drivers that
      implement it ([Buf.v], [Ide.v]).
    - Files: inside a transaction [writei] changes the contents of one file and
      nothing else, [readi] returns them, [dirlink] adds one name to a
      directory, [iput] of the last reference gives back exactly the blocks of
      the file ([InodeProps.v], [DirProps.v], [Itrunc.v]); [filewrite], a loop
      of transactions over all of this, stores the bytes and never fills the
      log ([FileProps.v]).
    - Allocators: the page allocator hands out each page once ([Kalloc.v]); the
      block allocator takes the lowest clear bit and changes nothing else
      ([Balloc.v]); [mappages] changes the view of a page directory on its
      range only ([VmProps.v]); the inode cache has one entry for each inode;
      malloc returns fresh blocks and keeps the others, and free joins
      neighbours in a sorted list ([Umalloc.v]).
    - The console, in the modes of the shell and with the cursor at the end of
      the line: output is that of a reference terminal, but for the two bytes
      that the driver takes for the left and right arrow; typing without Tab and
      arrow keys is that of a reference line editor, and a reader takes whole
      lines ([ConsoleProps.v]);
      the keyboard decoder implements its reference for every sequence of keys,
      and a line that is typed arrives at the readers ([Kbd.v]).
    - Interrupts and time: exactly the enabled interrupts come through
      ([Intr.v]); the alarm of a process is periodic in the clock ticks that
      interrupt it in user mode, and sleep lasts exactly its number of ticks
      ([Trap.v]); the date is right across the calendar ([Rtc.v]); a table of
      up to eight processors with entries of known types is read in full, and
      what happens otherwise is stated as well ([Mp.v]); whatever a
      program does, an interrupt enters the kernel at its vector on the stack of
      the process, and the program can raise no vector but that of system calls
      ([Seg.v]); every other processor is started once, on a stack of its own,
      for every speed of the processors ([Main.v]).
    - From the disk to a running system: the image that mkfs makes holds its
      files under their names, unless the entries of the root directory fill its
      blocks exactly ([MkfsProps.v]), and the boot loader brings every
      segment of the kernel into memory ([Boot.v]).
    - Programs: the shell gives every program of a command its descriptors and
      no others ([Runcmd.v]); the editor saves what it loads, if the lines are
      short enough, and inserts a typed character at the cursor ([TeditProps.v]); the game keeps its state well formed
      ([Snake.v]); wc counts whatever the pieces of its input are ([Uprogs.v]);
      cat, wc and rm do their work on any system that keeps the laws of its calls
      ([Progs.v]); the calculator agrees with the rules of arithmetic where only
      the first and the last term of a sum are products ([CalProps.v]); eeco
      replaces escape sequences between quotes ([Eeco.v]).
    - Concurrency: mutual exclusion of the lock and nesting of pushcli and
      popcli; a pipe is a queue and loses no wakeup while nobody is killed;
      a parent in wait does not miss the exit of a child; with any number of
      processors each running process is on one of them, and every process that
      is runnable when a processor starts a pass over the table is chosen in it
      by one of them; a thread that gave up the processor goes on with the
      interrupt flag and the lock it had ([Switch.v]).
    - The boundary to user programs: argument functions stay in the process,
      and reference counts of files agree with the descriptors.
    - Round trips and equivalences: on-disk inodes, decimal numbers, path
      names, the matcher of grep against a denotational reading of patterns,
      the shell's parser against a printer of its grammar.
    - Errors of the code that modelling showed are stated as well, some as parts
      of the theorems above (a block of the log handed out by balloc, an error of
      the drive that is lost, a root directory one block too long, a table that
      mpinit never leaves, a newline after 80 characters in the editor), the
      others about concrete runs: a pipe reader left asleep, a variable
      overwritten while it is read, a line lost by grep, a request of malloc
      that wraps around, a store outside of the screen memory, long lines in the
      editor, an argument that echo drops, an alarm that never comes, a sum that
      the calculator groups wrongly, quotes that eeco does not close, zeros that
      printFloat leaves out.

    ** What is not modelled

    The assembly code, the switch of stacks in swtch included: [Switch.v] takes
    what happens between a switch and the return to the thread as an argument.
    The body of main in main.c, which calls the initialisation of the parts in
    their order, and consoleinit and its likes, which set up locks and tables that
    are constants here; debug, which is never called. Floating point arithmetic
    is a class of operations in [Cal.v] and [Pfloat.v]: the theorem about the
    calculator holds for any arithmetic, that about printFloat is for exact
    fractions. In cal.c initStack returns nothing and three pointers are never
    set: these values are a class in [Cal.v], and the theorem says what happens
    when they are good and when the stack is not returned. The debugging
    messages of the editor. The test programs: usertests.c, forktest.c,
    stressfs.c, alarm.c. *)

From stdpp Require Export base tactics functions list numbers strings fin_sets gmap.
From Stdlib Require Export ZArith Lia.

#[global] Open Scope Z_scope.

(** ** Outcomes of a run of C code

    A run either returns ([Ok]) or stops ([Err]): in a call to [panic], in a
    call to [sleep] that suspends the thread, in undefined behaviour of C (an
    index out of the array, a null pointer), or because the fuel of a loop
    that is not structural is used up. *)
Inductive stop : Type :=
| Panic (msg : string)
| Sleep (chan : string) (id : nat)
| Undef
| NoFuel.

Inductive res (S A : Type) : Type :=
| Ok (a : A) (s : S)
| Err (e : stop) (s : S).
Arguments Ok {S A} a s.
Arguments Err {S A} e s.

#[export] Instance stop_eq_dec : EqDecision stop.
Proof. solve_decision. Defined.

(** The state and error monad of the development. *)
Definition M (S A : Type) : Type := S → res S A.

#[export] Instance M_ret S : MRet (M S) := λ A a s, Ok a s.
#[export] Instance M_bind S : MBind (M S) := λ A B f m s,
  match m s with
  | Ok a s' => f a s'
  | Err e s' => Err e s'
  end.

Definition stopM {S A} (e : stop) : M S A := λ s, Err e s.
Definition panic {S A} (msg : string) : M S A := stopM (Panic msg).
Definition undef {S A} : M S A := stopM Undef.
Definition getM {S} : M S S := λ s, Ok s s.
Definition putM {S} (s' : S) : M S unit := λ _, Ok tt s'.
Definition gets {S A} (f : S → A) : M S A := λ s, Ok (f s) s.
Definition modify {S} (f : S → S) : M S unit := λ s, Ok tt (f s).

(** [deref o] reads through a pointer that may be out of its object. *)
Definition deref {S A} (o : option A) : M S A :=
  match o with Some a => mret a | None => undef end.

(** A loop over a list of indices, in order. *)
Fixpoint forM {S A} (l : list A) (body : A → M S unit) : M S unit :=
  match l with
  | [] => mret tt
  | x :: l' => body x ;; forM l' body
  end.

(** ** Weakest preconditions: [wp m Q s] says that [m], started in [s],
    returns (no panic, no sleep, no undefined behaviour) in [Q]. *)
Definition wp {S A} (m : M S A) (Q : A → S → Prop) (s : S) : Prop :=
  match m s with Ok a s' => Q a s' | Err _ _ => False end.

Lemma wp_ret {S A} (a : A) Q (s : S) : Q a s → wp (mret a) Q s.
Proof. done. Qed.

Lemma wp_bind {S A B} (m : M S A) (f : A → M S B) Q (s : S) :
  wp m (λ a s', wp (f a) Q s') s → wp (m ≫= f) Q s.
Proof. unfold wp, mbind, M_bind. by destruct (m s). Qed.

Lemma wp_get {S} (Q : S → S → Prop) s : Q s s → wp getM Q s.
Proof. done. Qed.
Lemma wp_bind_inv {S A B} (m : M S A) (f : A → M S B) Q (s : S) :
  wp (m ≫= f) Q s → wp m (λ a s', wp (f a) Q s') s.
Proof. unfold wp, mbind, M_bind. by destruct (m s). Qed.

Lemma wp_mono {S A} (m : M S A) (Q Q' : A → S → Prop) s :
  wp m Q s → (∀ a s', Q a s' → Q' a s') → wp m Q' s.
Proof. unfold wp. destruct (m s); naive_solver. Qed.

Lemma wp_gets {S A} (f : S → A) Q (s : S) : Q (f s) s → wp (gets f) Q s.
Proof. done. Qed.

Lemma wp_modify {S} (f : S → S) Q (s : S) : Q tt (f s) → wp (modify f) Q s.
Proof. done. Qed.

Lemma wp_deref {S A} (o : option A) a Q (s : S) :
  o = Some a → Q a s → wp (deref o) Q s.
Proof. by intros ->. Qed.

Lemma wp_Ok {S A} (m : M S A) Q (s : S) :
  wp m Q s ↔ ∃ a s', m s = Ok a s' ∧ Q a s'.
Proof.
  unfold wp. split.
  - destruct (m s); naive_solver.
  - by intros (a&s'&->&?).
Qed.

(** A loop keeps an invariant indexed by the elements still to come. *)
Lemma wp_forM {S A} (l : list A) (body : A → M S unit) (I : list A → S → Prop) s :
  I l s →
  (∀ x l' s', I (x :: l') s' → wp (body x) (λ _ s'', I l' s'') s') →
  wp (forM l body) (λ _ s', I [] s') s.
Proof.
  revert s. induction l as [|x l IH]; intros s HI Hstep; [done|].
  simpl. apply wp_bind. eapply wp_mono; [by apply Hstep|]. auto.
Qed.

(** ** Layers: the state of a lower layer inside the state of a higher one. *)
Class Layer (S T : Type) := {
  low : T → S;
  set_low : S → T → T;
  low_set : ∀ s t, low (set_low s t) = s;
  set_set_low : ∀ s s' t, set_low s (set_low s' t) = set_low s t;
}.

Definition lift {S T} `{!Layer S T} {A} (m : M S A) : M T A := λ t,
  match m (low t) with
  | Ok a s => Ok a (set_low s t)
  | Err e s => Err e (set_low s t)
  end.

Lemma wp_lift {S T} `{!Layer S T} {A} (m : M S A) (Q : A → T → Prop) t :
  wp m (λ a s, Q a (set_low s t)) (low t) → wp (lift m) Q t.
Proof. unfold wp, lift. by destruct (m (low t)). Qed.

(** ** Machine integers: a w-bit integer is a [Z] with its wrap-around. *)
Definition u8 (z : Z) : Z := z `mod` 2 ^ 8.
Definition u16 (z : Z) : Z := z `mod` 2 ^ 16.
Definition u32 (z : Z) : Z := z `mod` 2 ^ 32.
Definition s8 (z : Z) : Z := (z + 2 ^ 7) `mod` 2 ^ 8 - 2 ^ 7.
Definition s16 (z : Z) : Z := (z + 2 ^ 15) `mod` 2 ^ 16 - 2 ^ 15.
Definition s32 (z : Z) : Z := (z + 2 ^ 31) `mod` 2 ^ 32 - 2 ^ 31.

Lemma u32_small z : 0 ≤ z < 2 ^ 32 → u32 z = z.
Proof. apply Z.mod_small. Qed.
Lemma u32_bound z : 0 ≤ u32 z < 2 ^ 32.
Proof. by apply Z.mod_pos_bound. Qed.
Lemma s32_small z : - 2 ^ 31 ≤ z < 2 ^ 31 → s32 z = z.
Proof. intros. unfold s32. rewrite Z.mod_small; lia. Qed.
Lemma s16_small z : - 2 ^ 15 ≤ z < 2 ^ 15 → s16 z = z.
Proof. intros. unfold s16. rewrite Z.mod_small; lia. Qed.
Lemma u16_small z : 0 ≤ z < 2 ^ 16 → u16 z = z.
Proof. apply Z.mod_small. Qed.

(** Little-endian byte strings. *)
Fixpoint le_split (n : nat) (z : Z) : list Z :=
  match n with
  | O => []
  | S n' => z `mod` 256 :: le_split n' (z `div` 256)
  end.

Fixpoint le_join (l : list Z) : Z :=
  match l with
  | [] => 0
  | b :: l' => b + 256 * le_join l'
  end.

Definition is_byte (b : Z) : Prop := 0 ≤ b < 256.

Lemma length_le_split n z : length (le_split n z) = n.
Proof. revert z; induction n; intros; simpl; auto. Qed.

Lemma le_split_bytes n z : Forall is_byte (le_split n z).
Proof.
  revert z; induction n as [|n IH]; intros z; constructor; auto.
  by apply Z.mod_pos_bound.
Qed.

Lemma le_join_split n z : le_join (le_split n z) = z `mod` 256 ^ Z.of_nat n.
Proof.
  revert z. induction n as [|n IH]; intros z.
  - simpl. by rewrite Z.mod_1_r.
  - simpl le_join. rewrite IH, Nat2Z.inj_succ, Z.pow_succ_r by lia.
    by rewrite Z.rem_mul_r by (try apply Z.pow_pos_nonneg; lia).
Qed.

Lemma le_join_bound l : Forall is_byte l → 0 ≤ le_join l < 256 ^ Z.of_nat (length l).
Proof.
  induction 1 as [|b l Hb Hl IH]; [simpl; lia|].
  simpl le_join. simpl length. rewrite Nat2Z.inj_succ, Z.pow_succ_r by lia.
  unfold is_byte in Hb. lia.
Qed.

Lemma le_split_join l : Forall is_byte l → le_split (length l) (le_join l) = l.
Proof.
  induction 1 as [|b l Hb Hl IH]; [done|]. simpl.
  unfold is_byte in Hb. rewrite (Z.mul_comm 256). f_equal.
  - rewrite Z.mod_add by lia. by apply Z.mod_small.
  - rewrite Z.div_add by lia. by rewrite (Z.div_small b).
Qed.

(** ** Updates of arrays, field by field *)
Lemma lookup_alter_if {A} (f : A → A) i (l : list A) j :
  alter f i l !! j = if decide (i = j) then f <$> l !! j else l !! j.
Proof.
  case_decide; subst; [apply list_lookup_alter_eq|by apply list_lookup_alter_ne].
Qed.

Lemma alter_insert {A} (f : A → A) i (l : list A) x :
  l !! i = Some x → alter f i l = <[i := f x]> l.
Proof.
  intros Hx. apply list_eq. intros j. rewrite lookup_alter_if.
  destruct (decide (i = j)) as [<-|].
  - by rewrite Hx, list_lookup_insert_eq by eauto using lookup_lt_Some.
  - by rewrite list_lookup_insert_ne.
Qed.

Lemma fmap_alter_keep {A B} (g : A → B) (f : A → A) i (l : list A) j :
  (∀ x, g (f x) = g x) → g <$> alter f i l !! j = g <$> l !! j.
Proof.
  intros Hg. rewrite lookup_alter_if. case_decide; [|done].
  destruct (l !! j); simpl; [by rewrite Hg|done].
Qed.

Lemma fmap_alter_set {A B} (g : A → B) (f : A → A) y i (l : list A) j :
  (∀ x, g (f x) = y) → (i < length l)%nat →
  g <$> alter f i l !! j = if decide (i = j) then Some y else g <$> l !! j.
Proof.
  intros Hg Hi. rewrite lookup_alter_if. case_decide; [|done]. subst.
  apply lookup_lt_is_Some in Hi as [x ->]. simpl. by rewrite Hg.
Qed.

Lemma lookup_total_eq `{Inhabited A} (l l' : list A) i j : l !! i = l' !! j → l !!! i = l' !!! j.
Proof. intros E. by rewrite !list_lookup_total_alt, E. Qed.

Lemma size_union_le `{Countable K} (X Y : gset K) : (size (X ∪ Y) ≤ size X + size Y)%nat.
Proof.
  rewrite size_union_alt. apply Nat.add_le_mono_l, subseteq_size. set_solver.
Qed.

(** ** Byte ranges of a buffer: [slice] reads one, [splice] overwrites one
    (what [memmove] and stores through a cast pointer do). *)
Definition slice {A} (off n : nat) (l : list A) : list A := take n (drop off l).
Definition splice {A} (off : nat) (src l : list A) : list A :=
  take off l ++ src ++ drop (off + length src) l.

Lemma length_slice {A} off n (l : list A) :
  (off + n ≤ length l)%nat → length (slice off n l) = n.
Proof. intros. unfold slice. rewrite length_take, length_drop. lia. Qed.

Lemma length_splice {A} off (src l : list A) :
  (off + length src ≤ length l)%nat → length (splice off src l) = length l.
Proof.
  intros. unfold splice. rewrite !length_app, length_take, length_drop. lia.
Qed.

Lemma lookup_splice {A} off (src l : list A) i :
  (off + length src ≤ length l)%nat →
  splice off src l !! i =
    if decide (off ≤ i < off + length src)%nat then src !! (i - off)%nat else l !! i.
Proof.
  intros H. unfold splice.
  destruct (decide (i < off)%nat) as [Hi|Hi].
  - rewrite lookup_app_l, lookup_take_lt by (rewrite ?length_take; lia).
    by rewrite decide_False by lia.
  - rewrite lookup_app_r by (rewrite length_take; lia).
    rewrite length_take, Nat.min_l by lia.
    destruct (decide (i < off + length src)%nat) as [Hi'|Hi'].
    + by rewrite lookup_app_l, decide_True by lia.
    + rewrite lookup_app_r, lookup_drop, decide_False by lia. f_equal. lia.
Qed.

Lemma lookup_slice {A} off n (l : list A) i :
  slice off n l !! i = if decide (i < n)%nat then l !! (off + i)%nat else None.
Proof.
  unfold slice. case_decide.
  - by rewrite lookup_take_lt, lookup_drop.
  - rewrite lookup_take_ge by lia. done.
Qed.

(** Reading back what was written, and what was not touched. *)
Lemma slice_splice {A} off (src l : list A) :
  (off + length src ≤ length l)%nat → slice off (length src) (splice off src l) = src.
Proof.
  intros H. apply list_eq. intros i. rewrite lookup_slice.
  case_decide as Hi.
  - rewrite lookup_splice, decide_True by lia. f_equal. lia.
  - symmetry. apply lookup_ge_None. lia.
Qed.

Lemma slice_splice_ne {A} off n off' (src l : list A) :
  (off' + length src ≤ length l)%nat →
  (off + n ≤ off' ∨ off' + length src ≤ off)%nat →
  slice off n (splice off' src l) = slice off n l.
Proof.
  intros H Hd. apply list_eq. intros i. rewrite !lookup_slice.
  case_decide; [|done]. rewrite lookup_splice, decide_False by lia. done.
Qed.

Lemma Forall_slice {A} (P : A → Prop) off n l : Forall P l → Forall P (slice off n l).
Proof. intros. by apply Forall_take, Forall_drop. Qed.

Lemma Forall_splice {A} (P : A → Prop) off src l :
  Forall P src → Forall P l → Forall P (splice off src l).
Proof.
  intros. unfold splice. rewrite !Forall_app.
  auto using Forall_take, Forall_drop.
Qed.

(** 32- and 16-bit fields of a buffer, as loads and stores through [uint*],
    [int*], [short*] and [ushort*] pointers into [data]. *)
Definition get_u32 (off : nat) (l : list Z) : Z := le_join (slice off 4 l).
Definition get_s32 (off : nat) (l : list Z) : Z := s32 (get_u32 off l).
Definition get_u16 (off : nat) (l : list Z) : Z := le_join (slice off 2 l).
Definition get_s16 (off : nat) (l : list Z) : Z := s16 (get_u16 off l).
Definition put_32 (off : nat) (z : Z) (l : list Z) : list Z := splice off (le_split 4 z) l.
Definition put_16 (off : nat) (z : Z) (l : list Z) : list Z := splice off (le_split 2 z) l.

Lemma length_put_32 off z l : (off + 4 ≤ length l)%nat → length (put_32 off z l) = length l.
Proof. intros. apply length_splice. by rewrite length_le_split. Qed.
Lemma length_put_16 off z l : (off + 2 ≤ length l)%nat → length (put_16 off z l) = length l.
Proof. intros. apply length_splice. by rewrite length_le_split. Qed.

Lemma get_put_u32 off z l : (off + 4 ≤ length l)%nat → get_u32 off (put_32 off z l) = u32 z.
Proof.
  intros. unfold get_u32, put_32.
  replace 4%nat with (length (le_split 4 z)) at 1 by apply length_le_split.
  rewrite slice_splice by by rewrite length_le_split.
  by rewrite le_join_split.
Qed.

Lemma get_put_u16 off z l : (off + 2 ≤ length l)%nat → get_u16 off (put_16 off z l) = u16 z.
Proof.
  intros. unfold get_u16, put_16.
  replace 2%nat with (length (le_split 2 z)) at 1 by apply length_le_split.
  rewrite slice_splice by by rewrite length_le_split.
  by rewrite le_join_split.
Qed.

Lemma get_put_u32_ne off off' z l :
  (off' + 4 ≤ length l)%nat → (off + 4 ≤ off' ∨ off' + 4 ≤ off)%nat →
  get_u32 off (put_32 off' z l) = get_u32 off l.
Proof.
  intros. unfold get_u32, put_32.
  rewrite slice_splice_ne; rewrite ?length_le_split; lia || done.
Qed.

(** Reading a field of one width after a store to another place. *)
Lemma get_u32_put_16_ne off off' z l :
  (off' + 2 ≤ length l)%nat → (off + 4 ≤ off' ∨ off' + 2 ≤ off)%nat →
  get_u32 off (put_16 off' z l) = get_u32 off l.
Proof.
  intros. unfold get_u32, put_16.
  rewrite slice_splice_ne; rewrite ?length_le_split; lia || done.
Qed.
Lemma get_u16_put_32_ne off off' z l :
  (off' + 4 ≤ length l)%nat → (off + 2 ≤ off' ∨ off' + 4 ≤ off)%nat →
  get_u16 off (put_32 off' z l) = get_u16 off l.
Proof.
  intros. unfold get_u16, put_32.
  rewrite slice_splice_ne; rewrite ?length_le_split; lia || done.
Qed.
Lemma get_u16_put_16_ne off off' z l :
  (off' + 2 ≤ length l)%nat → (off + 2 ≤ off' ∨ off' + 2 ≤ off)%nat →
  get_u16 off (put_16 off' z l) = get_u16 off l.
Proof.
  intros. unfold get_u16, put_16.
  rewrite slice_splice_ne; rewrite ?length_le_split; lia || done.
Qed.

(** Lengths of buffers after stores, and side conditions on them. *)
Ltac blen :=
  repeat first [rewrite length_put_32 by blen | rewrite length_put_16 by blen];
  lia.

Create Rewrite HintDb bytes.
#[export] Hint Rewrite get_put_u32 get_put_u16 get_put_u32_ne get_u32_put_16_ne get_u16_put_32_ne
  get_u16_put_16_ne using blen : bytes.

#[export] Instance Forall_is_byte_dec l : Decision (Forall is_byte l).
Proof. apply _. Defined.

(** Automation: [wp_step] peels one monadic step. *)
Ltac wp_step :=
  lazymatch goal with
  | |- wp (_ ≫= _) _ _ => apply wp_bind
  | |- wp (mret _) _ _ => apply wp_ret
  | |- wp (gets _) _ _ => apply wp_gets
  | |- wp (modify _) _ _ => apply wp_modify
  | |- wp (deref _) _ _ => eapply wp_deref; [eassumption|]
  | |- wp (lift _) _ _ => apply wp_lift
  | |- wp (if ?b then _ else _) _ _ => let E := fresh "E" in destruct b eqn:E
  end.
Ltac wp_steps := repeat (wp_step; simpl).

(** Resolve [decide]s whose outcome is known. *)
Ltac decs :=
  repeat first [rewrite decide_True by (done || congruence || lia)
               |rewrite decide_False by (done || congruence || lia)].
