(* ===== verification/Cstring.v ===== *)
(** * Memory and string routines of the kernel (string.c, stosb and stosl of x86.h)

    Routines that write take a flat memory, a list of bytes indexed by address,
    so that overlapping arguments are the real thing; an access out of the
    memory is undefined behaviour. Routines that only read take the bytes that
    start at each pointer. *)

From S2P Require Import Prelude.

Abbreviation mem := (list Z).

Definition load (a : nat) : M mem Z := λ m, match m !! a with Some c => Ok c m | None => Err Undef m end.
Definition store (a : nat) (c : Z) : M mem unit := λ m,
  if (a <? length m)%nat then Ok tt (<[a := c]> m) else Err Undef m.

(** x86.h: [rep stosb] and [rep stosl] store [cnt] bytes or words upwards. *)
Fixpoint stosb (addr : nat) (data : Z) (cnt : nat) : M mem unit :=
  match cnt with
  | O => mret tt
  | S cnt' => store addr (u8 data);; stosb (S addr) data cnt'
  end.

Fixpoint stosl (addr : nat) (data : Z) (cnt : nat) : M mem unit :=
  match cnt with
  | O => mret tt
  | S cnt' =>
      store addr (u8 data);;
      store (addr + 1) (u8 (Z.shiftr data 8));;
      store (addr + 2) (u8 (Z.shiftr data 16));;
      store (addr + 3) (u8 (Z.shiftr data 24));;
      stosl (addr + 4) data cnt'
  end.

Definition memset (dst : nat) (c : Z) (n : nat) : M mem nat :=
  (if (dst mod 4 =? 0)%nat && (n mod 4 =? 0)%nat then
     let c := Z.land c 255 in
     stosl dst (Z.lor (Z.lor (Z.lor (Z.shiftl c 24) (Z.shiftl c 16)) (Z.shiftl c 8)) c) (n / 4)
   else stosb dst c n);;
  mret dst.

(** The bytes at [s1] and [s2] are the lists [l1] and [l2]; [None] is a read
    beyond an object. *)
Fixpoint memcmp (l1 l2 : list Z) (n : nat) {struct n} : option Z :=
  match n with
  | O => Some 0
  | S n' =>
      match l1, l2 with
      | c1 :: l1', c2 :: l2' => if negb (c1 =? c2) then Some (c1 - c2) else memcmp l1' l2' n'
      | _, _ => None
      end
  end.

(** The two loops of [memmove]: [*--d = *--s] and [*d++ = *s++]. *)
Fixpoint move_down (d s n : nat) : M mem unit :=
  match n with
  | O => mret tt
  | S n' => c ← load (s + n'); store (d + n') c;; move_down d s n'
  end.

Fixpoint move_up (d s n : nat) : M mem unit :=
  match n with
  | O => mret tt
  | S n' => c ← load s; store d c;; move_up (S d) (S s) n'
  end.

Definition memmove (dst src n : nat) : M mem nat :=
  (if (src <? dst)%nat && (dst <? src + n)%nat then move_down dst src n else move_up dst src n);;
  mret dst.

Definition memcpy (dst src n : nat) : M mem nat := memmove dst src n.

Fixpoint strncmp (p q : list Z) (n : nat) {struct n} : option Z :=
  match n with
  | O => Some 0
  | S n' =>
      match p, q with
      | cp :: p', cq :: q' =>
          if negb (cp =? 0) && (cp =? cq) then strncmp p' q' n' else Some (u8 cp - u8 cq)
      | _, _ => None
      end
  end.

Fixpoint zero_up (s n : nat) : M mem unit :=
  match n with
  | O => mret tt
  | S n' => store s 0;; zero_up (S s) n'
  end.

(** The first loop of [strncpy], which goes on to the second. *)
Fixpoint strncpy_loop (s t n : nat) : M mem unit :=
  match n with
  | O => mret tt
  | S n' => c ← load t; store s c;; if negb (c =? 0) then strncpy_loop (S s) (S t) n' else zero_up (S s) n'
  end.

Definition strncpy (s t : nat) (n : Z) : M mem nat := strncpy_loop s t (Z.to_nat n);; mret s.

(** [n] is the number of bytes that may be copied before the terminator. *)
Fixpoint safestrcpy_loop (s t n : nat) : M mem unit :=
  match n with
  | O => store s 0
  | S n' => c ← load t; store s c;; if negb (c =? 0) then safestrcpy_loop (S s) (S t) n' else store (S s) 0
  end.

Definition safestrcpy (s t : nat) (n : Z) : M mem nat :=
  if n <=? 0 then mret s else safestrcpy_loop s t (Z.to_nat (n - 1));; mret s.

Fixpoint strlen (s : list Z) : option Z :=
  match s with
  | [] => None
  | c :: s' => if negb (c =? 0) then Z.succ <$> strlen s' else Some 0
  end.

(** ** Loads and stores *)
Lemma wp_load a c Q (m : mem) : m !! a = Some c → Q c m → wp (load a) Q m.
Proof. intros Hc HQ. unfold wp, load. by rewrite Hc. Qed.
Lemma wp_store a c Q (m : mem) : (a < length m)%nat → Q tt (<[a := c]> m) → wp (store a c) Q m.
Proof. intros Ha HQ. unfold wp, store. by rewrite (proj2 (Nat.ltb_lt _ _) Ha). Qed.

(** A specification by a memory that is known byte by byte. *)
Lemma wp_mem_eq {A} (p : M mem A) (a : A) m m' :
  wp p (λ r m1, r = a ∧ m1 = m') m → p m = Ok a m'.
Proof. unfold wp. by destruct (p m) as [? ?|]; [intros [-> ->]|]. Qed.

Lemma splice_nil {A} off (l : list A) : splice off [] l = l.
Proof. unfold splice. simpl. rewrite Nat.add_0_r. apply take_drop. Qed.

Lemma splice_cons {A} off c (src l : list A) :
  (off + S (length src) ≤ length l)%nat → splice (S off) src (<[off := c]> l) = splice off (c :: src) l.
Proof.
  intros Hl. apply list_eq. intros i. rewrite !lookup_splice by (rewrite ?length_insert; simpl; lia).
  simpl length. destruct (decide (i = off)) as [->|Hi].
  - rewrite decide_False, decide_True, list_lookup_insert_eq, Nat.sub_diag by lia. done.
  - rewrite list_lookup_insert_ne by done. destruct (decide (S off ≤ i < S off + length src)%nat).
    + rewrite decide_True by lia. replace (i - off)%nat with (S (i - S off)) by lia. done.
    + by rewrite decide_False by lia.
Qed.

Lemma splice_snoc {A} off c (src l : list A) :
  (off + S (length src) ≤ length l)%nat →
  splice off src (<[(off + length src)%nat := c]> l) = splice off (src ++ [c]) l.
Proof.
  intros Hl. apply list_eq. intros i.
  rewrite !lookup_splice by (rewrite ?length_insert, ?length_app; simpl; lia).
  rewrite length_app. simpl length. destruct (decide (i = off + length src)%nat) as [->|Hi].
  - rewrite decide_False, decide_True, list_lookup_insert_eq by lia.
    by rewrite lookup_app_r, Nat.add_comm, Nat.add_sub, Nat.sub_diag by lia.
  - rewrite list_lookup_insert_ne by done. destruct (decide (off ≤ i < off + length src)%nat).
    + rewrite decide_True by lia. by rewrite lookup_app_l by lia.
    + by rewrite decide_False by lia.
Qed.

(** ** The loops write the bytes they should *)
Lemma move_up_spec n : ∀ d s m,
  (d + n ≤ length m)%nat → (s + n ≤ length m)%nat → (d ≤ s ∨ s + n ≤ d)%nat →
  wp (move_up d s n) (λ _ m', m' = splice d (slice s n m) m) m.
Proof.
  induction n as [|n IH]; intros d s m Hd Hs Hov; simpl.
  { apply wp_ret. symmetry. apply splice_nil. }
  destruct (lookup_lt_is_Some_2 m s) as [c Hc]; [lia|].
  apply wp_bind. eapply wp_load; [done|]. apply wp_bind, wp_store; [lia|].
  eapply wp_mono; [apply IH; rewrite ?length_insert; lia|]. intros _ m' ->.
  assert (slice s (S n) m = c :: slice (S s) n m) as ->.
  { unfold slice. by rewrite (drop_S _ _ _ Hc). }
  assert (slice (S s) n (<[d := c]> m) = slice (S s) n m) as ->.
  { apply list_eq. intros i. rewrite !lookup_slice. case_decide; [|done].
    apply list_lookup_insert_ne. lia. }
  apply splice_cons. rewrite length_slice; lia.
Qed.

Lemma slice_snoc {A} off n (l : list A) c :
  l !! (off + n)%nat = Some c → slice off (S n) l = slice off n l ++ [c].
Proof. intros Hc. unfold slice. apply take_S_r. by rewrite lookup_drop. Qed.

Lemma move_down_spec n : ∀ d s m,
  (d + n ≤ length m)%nat → (s + n ≤ length m)%nat → (s ≤ d)%nat →
  wp (move_down d s n) (λ _ m', m' = splice d (slice s n m) m) m.
Proof.
  induction n as [|n IH]; intros d s m Hd Hs Hov; simpl.
  { apply wp_ret. symmetry. apply splice_nil. }
  destruct (lookup_lt_is_Some_2 m (s + n)) as [c Hc]; [lia|].
  apply wp_bind. eapply wp_load; [done|]. apply wp_bind, wp_store; [lia|].
  eapply wp_mono; [apply IH; rewrite ?length_insert; lia|]. intros _ m' ->.
  rewrite (slice_snoc _ _ _ _ Hc).
  assert (slice s n (<[(d + n)%nat := c]> m) = slice s n m) as ->.
  { apply list_eq. intros i. rewrite !lookup_slice. case_decide; [|done].
    apply list_lookup_insert_ne. lia. }
  assert (Hl : length (slice s n m) = n) by (apply length_slice; lia).
  rewrite <-Hl at 2. apply splice_snoc. lia.
Qed.

Lemma stosb_spec n : ∀ a c m,
  (a + n ≤ length m)%nat → wp (stosb a c n) (λ _ m', m' = splice a (replicate n (u8 c)) m) m.
Proof.
  induction n as [|n IH]; intros a c m Ha; simpl.
  { apply wp_ret. symmetry. apply splice_nil. }
  apply wp_bind, wp_store; [lia|]. eapply wp_mono; [apply IH; rewrite length_insert; lia|].
  intros _ m' ->. apply splice_cons. rewrite length_replicate. lia.
Qed.

(** The word of a byte repeated four times. *)
Lemma rep_word c k : 0 ≤ c < 256 → k = 0 ∨ k = 8 ∨ k = 16 ∨ k = 24 →
  u8 (Z.shiftr (Z.lor (Z.lor (Z.lor (Z.shiftl c 24) (Z.shiftl c 16)) (Z.shiftl c 8)) c) k) = c.
Proof.
  intros Hc Hk. assert (Hbit : ∀ i, 8 ≤ i → Z.testbit c i = false).
  { intros i Hi. destruct (decide (c = 0)) as [->|]; [apply Z.bits_0|].
    apply Z.bits_above_log2; [lia|]. assert (Z.log2 c < 8) by (apply Z.log2_lt_pow2; lia). lia. }
  unfold u8. rewrite <-Z.land_ones by lia. apply Z.bits_inj'. intros i Hi.
  rewrite Z.land_spec, Z.shiftr_spec, !Z.lor_spec by lia.
  destruct (decide (i < 8)).
  - rewrite Z.ones_spec_low, andb_true_r by lia.
    destruct Hk as [->|[->|[->| ->]]]; rewrite ?Z.add_0_r, !Z.shiftl_spec by lia.
    + rewrite !(Z.testbit_neg_r c (i - _)) by lia. done.
    + rewrite (Z.testbit_neg_r c (i + 8 - 24)), (Z.testbit_neg_r c (i + 8 - 16)), (Hbit (i + 8)) by lia.
      rewrite orb_false_r. simpl. f_equal. lia.
    + rewrite (Z.testbit_neg_r c (i + 16 - 24)), (Hbit (i + 16)), (Hbit (i + 16 - 8)) by lia.
      rewrite !orb_false_r. simpl. f_equal. lia.
    + rewrite (Hbit (i + 24)), (Hbit (i + 24 - 8)), (Hbit (i + 24 - 16)) by lia.
      rewrite !orb_false_r. f_equal. lia.
  - rewrite Z.ones_spec_high, andb_false_r by lia. symmetry. apply Hbit. lia.
Qed.

Lemma replicate_splice4 a (x : Z) n m :
  (a + 4 * S n ≤ length m)%nat →
  splice (a + 4) (replicate (4 * n) x) (<[(a+3)%nat := x]> (<[(a+2)%nat := x]> (<[(a+1)%nat := x]> (<[a := x]> m))))
  = splice a (replicate (4 * S n) x) m.
Proof.
  intros Ha. replace (4 * S n)%nat with (4 + 4 * n)%nat by lia. rewrite replicate_add. simpl (replicate 4 x).
  set (r := replicate (4 * n) x). assert (Hr : length r = (4 * n)%nat) by apply length_replicate.
  simpl ([_; _; _; _] ++ r).
  replace (a + 4)%nat with (S (a + 3)) by lia.
  rewrite splice_cons by (rewrite ?length_insert; lia). replace (a + 3)%nat with (S (a + 2)) by lia.
  rewrite splice_cons by (rewrite ?length_insert; simpl; lia). replace (a + 2)%nat with (S (a + 1)) by lia.
  rewrite splice_cons by (rewrite ?length_insert; simpl; lia). replace (a + 1)%nat with (S a) by lia.
  apply splice_cons. simpl. lia.
Qed.

Lemma stosl_spec n c w : ∀ a m,
  (∀ k, k = 0 ∨ k = 8 ∨ k = 16 ∨ k = 24 → u8 (Z.shiftr w k) = c) →
  (a + 4 * n ≤ length m)%nat → wp (stosl a w n) (λ _ m', m' = splice a (replicate (4 * n) c) m) m.
Proof.
  induction n as [|n IH]; intros a m Hw Ha; simpl stosl.
  { apply wp_ret. symmetry. apply splice_nil. }
  rewrite <-(Z.shiftr_0_r w) at 1. rewrite !Hw by auto.
  do 4 (apply wp_bind, wp_store; [rewrite ?length_insert; lia|]).
  eapply wp_mono; [apply IH; [done|]; rewrite !length_insert; lia|].
  intros _ m' ->. apply replicate_splice4. lia.
Qed.

(** ** Strings *)

(** The bytes [p] start with the string [l] and its terminator. *)
Definition is_str (p l : list Z) : Prop := (∃ r, p = l ++ 0 :: r) ∧ 0 ∉ l.

(** The same, in memory at address [a]. *)
Definition cstr (m : mem) (a : nat) (l : list Z) : Prop := is_str (drop a m) l.

Lemma is_str_cons p c l : is_str p (c :: l) ↔ ∃ p', p = c :: p' ∧ c ≠ 0 ∧ is_str p' l.
Proof.
  split.
  - intros [[r ->] Hc]. apply not_elem_of_cons in Hc as [??].
    exists (l ++ 0 :: r). split_and!; [done|done|]. by split; [exists r|].
  - intros (p' & -> & Hc & [[r ->] Hn]). split; [by exists r|]. apply not_elem_of_cons. done.
Qed.

Lemma cstr_nil m a : cstr m a [] → m !! a = Some 0.
Proof. intros [[r Hr] _]. rewrite <-(Nat.add_0_r a), <-lookup_drop, Hr. done. Qed.

Lemma cstr_cons m a c l : cstr m a (c :: l) → m !! a = Some c ∧ c ≠ 0 ∧ cstr m (S a) l.
Proof.
  unfold cstr. rewrite is_str_cons. intros (p' & Hp & Hc & Hl).
  split; [by rewrite <-(Nat.add_0_r a), <-lookup_drop, Hp|]. split; [done|].
  replace (S a) with (a + 1)%nat by lia. rewrite <-drop_drop, Hp. done.
Qed.

(** A store that misses the string keeps it. *)
Lemma cstr_insert m a l i c :
  (i < a ∨ a + length l < i)%nat → cstr m a l → cstr (<[i := c]> m) a l.
Proof.
  intros Hi [[r Hr] Hn]. split; [|done]. destruct Hi as [Hi|Hi].
  - exists r. by rewrite drop_insert_lt by lia.
  - exists (<[(i - a - S (length l))%nat := c]> r).
    rewrite drop_insert_ge, Hr by lia.
    rewrite insert_app_r_alt by lia. f_equal.
    replace (i - a - length l)%nat with (S (i - a - S (length l))) by lia. done.
Qed.

Lemma zero_up_spec n : ∀ s m,
  (s + n ≤ length m)%nat → wp (zero_up s n) (λ _ m', m' = splice s (replicate n 0) m) m.
Proof.
  induction n as [|n IH]; intros s m Hs; simpl.
  { apply wp_ret. symmetry. apply splice_nil. }
  apply wp_bind, wp_store; [lia|]. eapply wp_mono; [apply IH; rewrite length_insert; lia|].
  intros _ m' ->. apply splice_cons. rewrite length_replicate. lia.
Qed.

Lemma strncpy_loop_spec n : ∀ s t m l,
  cstr m t l → (s + n ≤ length m)%nat → (s + n ≤ t ∨ t + length l < s)%nat →
  wp (strncpy_loop s t n) (λ _ m', m' = splice s (take n (l ++ replicate n 0)) m) m.
Proof.
  induction n as [|n IH]; intros s t m l Hl Hs Hd; simpl strncpy_loop.
  { apply wp_ret. rewrite take_0. symmetry. apply splice_nil. }
  destruct l as [|c l].
  - apply cstr_nil in Hl. apply wp_bind. eapply wp_load; [done|].
    apply wp_bind, wp_store; [lia|]. simpl.
    eapply wp_mono; [apply zero_up_spec; rewrite length_insert; lia|]. intros _ m' ->.
    rewrite (take_ge (replicate n 0)) by (rewrite length_replicate; lia).
    apply splice_cons. rewrite length_replicate. lia.
  - apply cstr_cons in Hl as (Hc & Hc0 & Hl). simpl in Hd.
    apply wp_bind. eapply wp_load; [done|]. apply wp_bind, wp_store; [lia|].
    rewrite (proj2 (Z.eqb_neq _ _) Hc0). simpl.
    eapply wp_mono; [apply (IH _ _ _ l); [apply cstr_insert; [lia|done]|rewrite length_insert; lia|lia]|].
    intros _ m' ->.
    replace (take n (l ++ 0 :: replicate n 0)) with (take n (l ++ replicate n 0)).
    + apply splice_cons. rewrite length_take, length_app, length_replicate. lia.
    + change (0 :: replicate n 0) with (replicate (S n) 0). rewrite replicate_S_end, app_assoc.
      rewrite (take_app_le (l ++ replicate n 0)); [done|]. rewrite length_app, length_replicate. lia.
Qed.

Lemma safestrcpy_loop_spec n : ∀ s t m l,
  cstr m t l → (s + n < length m)%nat → (s + n < t ∨ t + length l < s)%nat →
  wp (safestrcpy_loop s t n) (λ _ m', ∃ pad,
    m' = splice s (take n l ++ 0 :: pad) m ∧ (length (take n l ++ 0%Z :: pad) ≤ S n)%nat) m.
Proof.
  induction n as [|n IH]; intros s t m l Hl Hs Hd; simpl safestrcpy_loop.
  { apply wp_store; [lia|]. exists []. rewrite take_0. simpl. split; [|lia].
    rewrite <-splice_cons by (simpl; lia). by rewrite splice_nil. }
  destruct l as [|c l].
  - apply cstr_nil in Hl. apply wp_bind. eapply wp_load; [done|]. apply wp_bind, wp_store; [lia|]. simpl.
    apply wp_store; [rewrite length_insert; lia|]. exists [0]. simpl. split; [|lia].
    rewrite <-splice_cons by (simpl; lia). rewrite <-splice_cons by (simpl; rewrite length_insert; lia).
    by rewrite splice_nil.
  - apply cstr_cons in Hl as (Hc & Hc0 & Hl). simpl in Hd.
    apply wp_bind. eapply wp_load; [done|]. apply wp_bind, wp_store; [lia|].
    rewrite (proj2 (Z.eqb_neq _ _) Hc0). simpl.
    eapply wp_mono; [apply (IH _ _ _ l); [apply cstr_insert; [lia|done]|rewrite length_insert; lia|lia]|].
    intros _ m' (pad & -> & Hpad). exists pad. split; [|simpl; lia].
    simpl. apply splice_cons. lia.
Qed.

Lemma strncmp_spec n : ∀ p q l1 l2,
  is_str p l1 → is_str q l2 → Forall is_byte l1 → Forall is_byte l2 →
  ∃ r, strncmp p q n = Some r ∧ (r = 0 ↔ take n l1 = take n l2).
Proof.
  induction n as [|n IH]; intros p q l1 l2 Hp Hq H1 H2; [exists 0; split; [done|split; by rewrite !take_0]|].
  destruct l1 as [|c1 l1], l2 as [|c2 l2].
  - destruct Hp as [[r ->] _], Hq as [[r' ->] _]. exists 0. by split; [|split].
  - destruct Hp as [[r ->] _]. apply is_str_cons in Hq as (q' & -> & Hc & _).
    apply Forall_cons in H2 as [H2 _]. unfold is_byte in H2. simpl. eexists. split; [done|].
    unfold u8. rewrite Z.mod_0_l, Z.mod_small by lia. split; [intros ?; exfalso; lia|done].
  - destruct Hq as [[r ->] _]. apply is_str_cons in Hp as (p' & -> & Hc & _).
    apply Forall_cons in H1 as [H1 _]. unfold is_byte in H1. simpl.
    rewrite (proj2 (Z.eqb_neq _ _) Hc). simpl. eexists. split; [done|].
    unfold u8. rewrite Z.mod_0_l, Z.mod_small by lia. split; [intros ?; exfalso; lia|done].
  - apply is_str_cons in Hp as (p' & -> & Hc1 & Hp). apply is_str_cons in Hq as (q' & -> & Hc2 & Hq).
    apply Forall_cons in H1 as [Hb1 H1]. apply Forall_cons in H2 as [Hb2 H2]. simpl.
    rewrite (proj2 (Z.eqb_neq _ _) Hc1). simpl. destruct (Z.eqb_spec c1 c2) as [->|Hne].
    + destruct (IH p' q' l1 l2 Hp Hq H1 H2) as (r & -> & Hr). exists r. split; [done|].
      rewrite Hr. split; [by intros ->|by intros [= ->]].
    + eexists. split; [done|]. unfold u8, is_byte in *. rewrite !Z.mod_small by lia.
      split; [intros ?; exfalso; lia|]. intros [= ? _]. lia.
Qed.

(** [memmove] copies correctly even where source and destination overlap:
    afterwards the destination holds what the source held before the call, and
    nothing else changed. *)
Theorem memmove_correct dst src n m :
  (dst + n ≤ length m)%nat → (src + n ≤ length m)%nat →
  memmove dst src n m = Ok dst (splice dst (slice src n m) m).
Proof.
  intros Hd Hs. apply wp_mem_eq. apply wp_bind.
  destruct ((src <? dst)%nat && (dst <? src + n)%nat) eqn:E.
  - apply andb_true_iff in E as [E _]. apply Nat.ltb_lt in E.
    eapply wp_mono; [apply move_down_spec; lia|]. intros _ m' ->. by apply wp_ret.
  - apply andb_false_iff in E. rewrite !Nat.ltb_ge in E.
    eapply wp_mono; [apply move_up_spec; lia|]. intros _ m' ->. by apply wp_ret.
Qed.

Lemma memmove_correct_witness :
  memmove 1 0 3 [10; 20; 30; 40; 50] = Ok 1%nat [10; 10; 20; 30; 50].
Proof. apply (memmove_correct 1 0 3 [10; 20; 30; 40; 50]); simpl; lia. Defined.

(** [memset] stores the low byte of [c] in [n] bytes, whether it takes the
    word-wise path for aligned arguments or the byte-wise one. *)
Theorem memset_correct dst c n m :
  (dst + n ≤ length m)%nat → memset dst c n m = Ok dst (splice dst (replicate n (u8 c)) m).
Proof.
  intros Hd. apply wp_mem_eq. apply wp_bind.
  destruct ((dst mod 4 =? 0)%nat && (n mod 4 =? 0)%nat) eqn:E.
  - apply andb_true_iff in E as [_ E]. apply Nat.eqb_eq in E.
    assert (n = 4 * (n / 4))%nat as Hn by (by apply Nat.Div0.div_exact).
    assert (Z.land c 255 = u8 c) as -> by apply (Z.land_ones c 8 ltac:(lia)).
    eapply wp_mono; [apply (stosl_spec _ (u8 c)); [|lia]|].
    + intros k Hk. apply rep_word; [|done]. unfold u8. pose proof (Z.mod_pos_bound c (2 ^ 8)). lia.
    + intros _ m' ->. apply wp_ret. by rewrite <-Hn.
  - eapply wp_mono; [by apply stosb_spec|]. intros _ m' ->. by apply wp_ret.
Qed.

Lemma memset_correct_witness :
  memset 4 (-1) 4 (replicate 9 0) = Ok 4%nat [0; 0; 0; 0; 255; 255; 255; 255; 0].
Proof. apply (memset_correct 4 (-1) 4 (replicate 9 0)). simpl. lia. Defined.

(** [safestrcpy] always leaves a terminated string: the first [n - 1] bytes
    of the source, then a zero; it writes at most [n] bytes. *)
Theorem safestrcpy_correct s t n m l :
  cstr m t l → 0 < n → (s + Z.to_nat n ≤ length m)%nat →
  (s + Z.to_nat n ≤ t ∨ t + length l < s)%nat →
  ∃ pad, let w := take (Z.to_nat n - 1) l ++ 0 :: pad in
    safestrcpy s t n m = Ok s (splice s w m) ∧ (length w ≤ Z.to_nat n)%nat.
Proof.
  intros Hl Hn Hs Hd.
  assert (wp (safestrcpy s t n) (λ r m', ∃ pad, (r = s ∧ m' = splice s (take (Z.to_nat n - 1) l ++ 0 :: pad) m) ∧
    (length (take (Z.to_nat n - 1) l ++ 0%Z :: pad) ≤ Z.to_nat n)%nat) m) as Hwp.
  { unfold safestrcpy. rewrite (proj2 (Z.leb_gt _ _) Hn). apply wp_bind.
    eapply wp_mono; [apply (safestrcpy_loop_spec _ _ _ _ l); [done|lia|lia]|].
    intros _ m' (pad & -> & Hpad). apply wp_ret. exists pad.
    replace (Z.to_nat (n - 1)) with (Z.to_nat n - 1)%nat in * by lia. split; [done|lia]. }
  apply wp_Ok in Hwp as (r & m' & Hr & pad & [-> ->] & Hpad). exists pad. done.
Qed.

Lemma safestrcpy_correct_witness :
  ∃ pad, safestrcpy 4 0 3 [65; 66; 67; 0; 9; 9; 9; 9] = Ok 4%nat (splice 4 ([65; 66] ++ 0 :: pad) [65; 66; 67; 0; 9; 9; 9; 9]).
Proof.
  destruct (safestrcpy_correct 4 0 3 [65; 66; 67; 0; 9; 9; 9; 9] [65; 66; 67]) as (pad & H & _).
  - split; [by exists [9; 9; 9; 9]|]. intros H. set_solver by lia.
  - lia.
  - simpl. lia.
  - simpl. lia.
  - exists pad. exact H.
Defined.
