(* ===== verification/Ulib.v ===== *)
(** * The user library (ulib.c, printf.c)

    Routines that write memory use the flat memory of Cstring.v; routines that
    print return the bytes they pass to [write], in order. *)

From S2P Require Import Prelude Cstring.

(** ** ulib.c *)
Fixpoint strcpy_loop (fuel s t : nat) : M (list Z) unit :=
  match fuel with
  | O => stopM NoFuel
  | S fuel' => c ← Cstring.load t; Cstring.store s c;;
      if negb (c =? 0) then strcpy_loop fuel' (S s) (S t) else mret tt
  end.

(** The loop ends at a zero byte or at the end of the memory. *)
Definition strcpy (s t : nat) : M (list Z) nat := λ m,
  (strcpy_loop (S (length m)) s t;; mret s) m.

Fixpoint strcmp (p q : list Z) : option Z :=
  match p, q with
  | cp :: p', cq :: q' =>
      if negb (cp =? 0) && (cp =? cq) then strcmp p' q' else Some (u8 cp - u8 cq)
  | _, _ => None
  end.

Fixpoint strlen (s : list Z) : option Z :=
  match s with
  | [] => None
  | c :: s' => if negb (c =? 0) then Z.succ <$> strlen s' else Some 0
  end.

Definition memset (dst : nat) (c : Z) (n : nat) : M (list Z) nat := Cstring.stosb dst c n;; mret dst.

(** The bytes from the first [c] on, [Some None] when there is none before the
    terminator. *)
Fixpoint strchr (s : list Z) (c : Z) : option (option (list Z)) :=
  match s with
  | [] => None
  | x :: s' => if x =? 0 then Some None else if x =? c then Some (Some s) else strchr s' c
  end.

(** [gets]: the input is the list of bytes that [read(0, &c, 1)] will return,
    followed by end of file. Returns the buffer and the rest of the input. *)
Fixpoint gets_loop (n : nat) (input : list Z) : list Z * list Z :=
  match n, input with
  | S n', c :: input' =>
      if (c =? 10) || (c =? 13) then ([c], input')
      else let '(b, r) := gets_loop n' input' in (c :: b, r)
  | _, _ => ([], input)
  end.

Definition gets (max : Z) (input : list Z) : list Z * list Z :=
  let '(b, r) := gets_loop (Z.to_nat (max - 1)) input in (b ++ [0], r).

(** [stat] over the system calls it makes. *)
Definition stat {S st : Type} (open : list Z → Z → M S Z) (fstat : Z → M S (Z * st)) (close : Z → M S Z)
    (n : list Z) : M S (Z * option st) :=
  fd ← open n 0;
  if fd <? 0 then mret (-1, None) else
  '(r, st) ← fstat fd;
  close fd;;
  mret (r, Some st).

Fixpoint atoi_loop (s : list Z) (n : Z) : Z :=
  match s with
  | c :: s' => if (48 <=? c) && (c <=? 57) then atoi_loop s' (s32 (n * 10 + c - 48)) else n
  | [] => n
  end.
Definition atoi (s : list Z) : Z := atoi_loop s 0.

(** Unlike the kernel's, this [memmove] always copies upwards. *)
Definition memmove (vdst vsrc : nat) (n : Z) : M (list Z) nat :=
  Cstring.move_up vdst vsrc (Z.to_nat n);; mret vdst.

(** ** printf.c *)
Definition digits : list Z := [48; 49; 50; 51; 52; 53; 54; 55; 56; 57; 65; 66; 67; 68; 69; 70].

(** The do-while loop; [x] has 32 bits, so 32 rounds are enough for any base
    from 2 on. *)
Fixpoint printint_loop (fuel : nat) (x base : Z) (buf : list Z) : option (list Z) :=
  match fuel with
  | O => None
  | S fuel' =>
      d ← digits !! Z.to_nat (x `mod` base);
      let buf := buf ++ [d] in
      if (16 <? length buf)%nat then None else
      let x := x `div` base in
      if negb (x =? 0) then printint_loop fuel' x base buf else Some buf
  end.

(** The bytes printed, most significant first; [None] when [buf[16]] would
    overflow. *)
Definition printint (xx base : Z) (sgn : bool) : option (list Z) :=
  let neg := sgn && (xx <? 0) in
  let x := u32 (if neg then - xx else xx) in
  buf ← printint_loop 32 x base [];
  let buf := if neg then buf ++ [45] else buf in
  if (16 <? length buf)%nat then None else Some (reverse buf).

Section printf.
(** The string at an address, and the printing of a [double] given by its two
    words. *)
Context (str : Z → option (list Z)) (printFloat : Z → Z → option (list Z)).

Definition null_str : list Z := [40; 110; 117; 108; 108; 41].

(** [state] is 0 or '%' (37); [ap] is the rest of the argument words. *)
Fixpoint printf_loop (fmt : list Z) (state : Z) (ap : list Z) : option (list Z) :=
  match fmt with
  | [] => None
  | c :: fmt' =>
      if c =? 0 then Some [] else
      if state =? 0 then
        if c =? 37 then printf_loop fmt' 37 ap
        else o ← printf_loop fmt' 0 ap; Some (c :: o)
      else
        if c =? 100 then
          a ← head ap; o1 ← printint (s32 a) 10 true; o ← printf_loop fmt' 0 (tail ap); Some (o1 ++ o)
        else if (c =? 120) || (c =? 112) then
          a ← head ap; o1 ← printint (s32 a) 16 false; o ← printf_loop fmt' 0 (tail ap); Some (o1 ++ o)
        else if c =? 115 then
          a ← head ap; o1 ← (if a =? 0 then Some null_str else str a);
          o ← printf_loop fmt' 0 (tail ap); Some (o1 ++ o)
        else if c =? 99 then
          a ← head ap; o ← printf_loop fmt' 0 (tail ap); Some (u8 a :: o)
        else if c =? 102 then
          a ← ap !! 0%nat; b ← ap !! 1%nat; o1 ← printFloat a b;
          o ← printf_loop fmt' 0 (drop 2 ap); Some (o1 ++ o)
        else if c =? 37 then
          o ← printf_loop fmt' 0 ap; Some (c :: o)
        else
          o ← printf_loop fmt' 0 ap; Some (37 :: c :: o)
  end.

Definition printf (fmt : list Z) (ap : list Z) : option (list Z) := printf_loop fmt 0 ap.
End printf.

(** ** Numbers *)

(** The value of a list of digits, least significant first. *)
Fixpoint value (base : Z) (l : list Z) : Z :=
  match l with [] => 0 | d :: l' => d + base * value base l' end.

Definition digit_of (d : Z) : Z := digits !!! Z.to_nat d.

Fixpoint digits_le (fuel : nat) (base x : Z) : list Z :=
  match fuel with
  | O => []
  | S fuel' => x `mod` base :: (if x `div` base =? 0 then [] else digits_le fuel' base (x `div` base))
  end.

Lemma digits_le_value base fuel : ∀ x,
  2 ≤ base → 0 ≤ x < 2 ^ Z.of_nat fuel → value base (digits_le fuel base x) = x.
Proof.
  induction fuel as [|fuel IH]; intros x Hb Hx; simpl; [simpl in Hx; lia|].
  rewrite Nat2Z.inj_succ, Z.pow_succ_r in Hx by lia.
  pose proof (Z.div_mod x base ltac:(lia)). destruct (Z.eqb_spec (x `div` base) 0) as [E|E]; simpl; [lia|].
  rewrite IH; [lia|done|]. split; [apply Z.div_pos; lia|].
  apply Z.div_lt_upper_bound; [lia|]. nia.
Qed.

Lemma digits_le_bound base fuel : ∀ x,
  2 ≤ base → Forall (λ d, 0 ≤ d < base) (digits_le fuel base x).
Proof.
  induction fuel as [|fuel IH]; intros x Hb; simpl; constructor.
  - apply Z.mod_pos_bound. lia.
  - case_match; [constructor|auto].
Qed.

Lemma digits_le_len base k : ∀ fuel x,
  2 ≤ base → 0 ≤ x < base ^ Z.of_nat k → (0 < k)%nat → (length (digits_le fuel base x) ≤ k)%nat.
Proof.
  induction k as [|k IH]; intros fuel x Hb Hx Hk; [lia|].
  destruct fuel as [|fuel]; simpl; [lia|]. rewrite Nat2Z.inj_succ, Z.pow_succ_r in Hx by lia.
  destruct (Z.eqb_spec (x `div` base) 0) as [E|E]; simpl; [lia|].
  apply le_n_S. destruct k as [|k].
  - exfalso. apply E. apply Z.div_small. simpl in Hx. lia.
  - apply IH; [done| |lia]. split; [apply Z.div_pos; lia|]. apply Z.div_lt_upper_bound; lia.
Qed.

Lemma digits_lookup d : 0 ≤ d < 16 → digits !! Z.to_nat d = Some (digit_of d).
Proof. intros Hd. apply list_lookup_lookup_total_lt. simpl. lia. Qed.

Lemma printint_loop_spec base fuel : ∀ x buf,
  2 ≤ base ≤ 16 → 0 ≤ x < 2 ^ Z.of_nat fuel → (0 < fuel)%nat →
  (length buf + length (digits_le fuel base x) ≤ 16)%nat →
  printint_loop fuel x base buf = Some (buf ++ (digit_of <$> digits_le fuel base x)).
Proof.
  induction fuel as [|fuel IH]; intros x buf Hb Hx Hf Hlen; [lia|]. simpl printint_loop.
  pose proof (Z.mod_pos_bound x base ltac:(lia)) as Hm.
  rewrite digits_lookup by lia. simpl in Hlen |- *. rewrite length_app. simpl.
  rewrite (proj2 (Nat.ltb_ge _ _)) by (destruct (_ =? 0); simpl in Hlen; lia).
  destruct (Z.eqb_spec (x `div` base) 0) as [E|E]; simpl; [done|].
  assert (0 ≤ x `div` base < 2 ^ Z.of_nat fuel) as Hx'.
  { rewrite Nat2Z.inj_succ, Z.pow_succ_r in Hx by lia. split; [apply Z.div_pos; lia|].
    apply Z.div_lt_upper_bound; nia. }
  rewrite IH; try done.
  - by rewrite <-app_assoc.
  - destruct fuel; [|lia]. simpl in Hx'. lia.
  - rewrite length_app. simpl in *. lia.
Qed.

Lemma printint_run xx base sgn :
  base = 10 ∨ base = 16 → - 2 ^ 31 ≤ xx < 2 ^ 31 →
  let neg := sgn && (xx <? 0) in
  let l := digits_le 32 base (u32 (if neg then - xx else xx)) in
  printint xx base sgn = Some ((if neg then [45] else []) ++ reverse (digit_of <$> l)) ∧
  (length l ≤ 10)%nat ∧ Forall (λ d, 0 ≤ d < base) l ∧ value base l = u32 (if neg then - xx else xx).
Proof.
  intros Hb Hx neg l. pose proof (u32_bound (if neg then - xx else xx)) as Hu.
  assert (length l ≤ 10)%nat as Hlen.
  { apply digits_le_len; [lia| |lia]. assert (2 ^ 32 ≤ base ^ Z.of_nat 10) by (destruct Hb; subst; lia). lia. }
  split_and!; [|done|apply digits_le_bound; lia|apply digits_le_value; lia].
  assert (printint_loop 32 (u32 (if neg then - xx else xx)) base [] = Some (digit_of <$> l)) as Hr.
  { apply (printint_loop_spec base 32 _ []); [lia|exact Hu|lia|]. fold l. rewrite length_nil. lia. }
  unfold printint. fold neg. rewrite Hr. clearbody l. clear Hr.
  destruct neg; cbn [mbind option_bind]; rewrite ?length_app, length_fmap; simpl length.
  - rewrite (proj2 (Nat.ltb_ge _ _)) by lia. by rewrite reverse_app.
  - rewrite (proj2 (Nat.ltb_ge _ _)) by lia. done.
Qed.

Lemma digit_of_dec d : 0 ≤ d < 10 → digit_of d = 48 + d.
Proof.
  intros Hd. assert (d = 0 ∨ d = 1 ∨ d = 2 ∨ d = 3 ∨ d = 4 ∨ d = 5 ∨ d = 6 ∨ d = 7 ∨ d = 8 ∨ d = 9) as H by lia.
  by repeat destruct H as [->|H]; [..|subst].
Qed.

Lemma value_nonneg base l : 0 ≤ base → Forall (λ d, 0 ≤ d < base) l → 0 ≤ value base l.
Proof. intros Hb. induction 1; simpl; nia. Qed.

(** One more digit at the least significant end. *)
Lemma atoi_loop_app l : ∀ n r,
  Forall (λ c, 48 ≤ c ≤ 57) l →
  atoi_loop (l ++ r) n = atoi_loop r (foldl (λ n c, s32 (n * 10 + c - 48)) n l).
Proof.
  induction l as [|c l IH]; intros n r Hl; simpl; [done|].
  apply Forall_cons in Hl as [Hc Hl]. rewrite (proj2 (Z.leb_le 48 c)), (proj2 (Z.leb_le c 57)) by lia.
  simpl. by apply IH.
Qed.

Lemma foldl_value l :
  Forall (λ d, 0 ≤ d < 10) l → value 10 l < 2 ^ 31 →
  foldl (λ n c, s32 (n * 10 + c - 48)) 0 (reverse (digit_of <$> l)) = value 10 l.
Proof.
  induction l as [|d l IH]; intros Hl Hb; [done|].
  apply Forall_cons in Hl as [Hd Hl]. cbn [value] in *. pose proof (value_nonneg 10 l ltac:(lia) Hl).
  rewrite fmap_cons, reverse_cons, foldl_app, IH by (done || lia). simpl.
  rewrite digit_of_dec, s32_small by lia. lia.
Qed.

(** [printint], which prints every %d and %x, prints the digits of its
    argument for every 32-bit value, never overflows its 16-byte buffer, and
    prints a minus sign exactly for negative signed arguments. *)
Theorem printint_correct xx base sgn :
  base = 10 ∨ base = 16 → - 2 ^ 31 ≤ xx < 2 ^ 31 →
  ∃ l, printint xx base sgn =
      Some ((if sgn && (xx <? 0) then [45] else []) ++ reverse (digit_of <$> l)) ∧
    Forall (λ d, 0 ≤ d < base) l ∧ (length l ≤ 10)%nat ∧
    value base l = if sgn then Z.abs xx else u32 xx.
Proof.
  intros Hb Hx. destruct (printint_run xx base sgn Hb Hx) as (Hp & Hlen & Hd & Hv).
  eexists. split_and!; [exact Hp|exact Hd|exact Hlen|]. rewrite Hv. destruct sgn; simpl; [|done].
  destruct (Z.ltb_spec xx 0); rewrite u32_small; lia.
Qed.

Lemma printint_correct_witness :
  ∃ l, printint (-2147483648) 10 true = Some ([45] ++ reverse (digit_of <$> l)) ∧ value 10 l = 2147483648.
Proof.
  destruct (printint_correct (-2147483648) 10 true) as (l & Hp & _ & _ & Hv); [by left|lia|].
  exists l. exact (conj Hp Hv).
Defined.

(** [atoi] reads back what [printint] prints of a number that is not
    negative. *)
Theorem atoi_printint xx r :
  0 ≤ xx < 2 ^ 31 → ∃ o, printint xx 10 true = Some o ∧ atoi (o ++ 0 :: r) = xx.
Proof.
  intros Hx. destruct (printint_run xx 10 true) as (Hp & Hlen & Hd & Hv); [by left|lia|].
  rewrite (proj2 (Z.ltb_ge xx 0)), andb_false_r, u32_small in * by lia.
  revert Hp Hlen Hd Hv. generalize (digits_le 32 10 xx). intros l Hp Hlen Hd Hv.
  eexists. split; [exact Hp|]. unfold atoi. simpl app. rewrite atoi_loop_app.
  - simpl. rewrite foldl_value; [exact Hv|done|]. rewrite Hv. simpl. lia.
  - rewrite Forall_reverse. apply Forall_fmap. eapply Forall_impl; [exact Hd|].
    intros d Hd'. simpl in Hd'. change (48 ≤ digit_of d ≤ 57). rewrite digit_of_dec by done. lia.
Qed.

Lemma atoi_printint_witness : ∃ o, printint 1024 10 true = Some o ∧ atoi (o ++ [0]) = 1024.
Proof. apply (atoi_printint 1024 []). lia. Defined.

(** The user library's [memmove] does not keep its contract on overlapping
    arguments: it copies upwards over bytes that it still has to read. *)
Theorem memmove_overlap :
  memmove 1 0 3 [10; 20; 30; 40; 50] = Ok 1%nat [10; 10; 10; 10; 50] ∧
  Cstring.memmove 1 0 3 [10; 20; 30; 40; 50] = Ok 1%nat [10; 10; 20; 30; 50].
Proof. split; vm_compute; reflexivity. Qed.
