(* ===== verification/Pfloat.v ===== *)
(** * Printing floating point numbers (printFloat of printf.c)

    The arithmetic of double is a class of operations; with exact fractions the
    digits that printFloat prints are known. *)

From Stdlib Require Import QArith Qround Lqa.
From S2P Require Import Prelude Ulib.

(** The operations that printFloat uses. The conversion to int is undefined
    outside its range. *)
Class Double := {
  D : Type;
  d_ltz : D → bool;
  d_opp : D → D;
  d_add : D → D → D;
  d_sub : D → D → D;
  d_mul : D → D → D;
  d_of_int : Z → D;
  d_trunc : D → option Z;
  (** 0.000005. *)
  d_half : D;
}.

Definition int_range (z : Z) : bool := (- 2 ^ 31 <=? z) && (z <? 2 ^ 31).

Definition printFloat `{Double} (con : D) : option (list Z) :=
  let '(sgn, toPrint) := if d_ltz con then ([45], d_opp con) else ([], con) in
  part ← d_trunc toPrint;
  a ← printint part 10 true;
  let toPrint := d_mul (d_add toPrint d_half) (d_of_int 100000) in
  if int_range (100000 * part) then
    part ← d_trunc (d_sub toPrint (d_of_int (100000 * part)));
    b ← printint part 10 true;
    Some (sgn ++ a ++ [46] ++ b)
  else None.

(** Exact fractions; the conversion rounds towards zero. *)
Definition q_trunc (x : Q) : option Z :=
  let z := Z.quot (Qnum x) (Zpos (Qden x)) in if int_range z then Some z else None.
#[export] Instance exact : Double := {|
  D := Q; d_ltz x := Qnum x <? 0; d_opp := Qopp; d_add := Qplus; d_sub := Qminus; d_mul := Qmult;
  d_of_int := inject_Z; d_trunc := q_trunc; d_half := 5 # 1000000;
|}.

Lemma q_trunc_floor x : (0 <= x)%Q → (x < inject_Z (2 ^ 31))%Q → q_trunc x = Some (Qfloor x).
Proof.
  intros H0 H1. assert (0 <= Qnum x) as Hn by (unfold Qle in H0; simpl in H0; lia).
  unfold q_trunc. destruct x as [n d]. simpl in *. rewrite Z.quot_div_nonneg by lia.
  unfold Qlt in H1. cbn [Qnum Qden inject_Z] in H1. rewrite Z.mul_1_r in H1.
  assert (0 <= n / Zpos d < 2 ^ 31) by (split; [apply Z.div_pos; lia|apply Z.div_lt_upper_bound; lia]).
  unfold int_range. rewrite (proj2 (Z.leb_le _ _)), (proj2 (Z.ltb_lt _ _)) by lia. done.
Qed.

Lemma printint_some z : - 2 ^ 31 ≤ z < 2 ^ 31 → ∃ l, printint z 10 true = Some l.
Proof. intros Hz. destruct (printint_run z 10 true ltac:(by left) Hz) as [-> _]. by eexists. Qed.

(** With exact arithmetic a number below 21474 is printed as its integer part and
    its fraction in hundred thousandths, rounded to the nearest: together they
    are at most 0.000005 away from the number. *)
Theorem printFloat_rounds (x : Q) : (0 <= x)%Q → (x < inject_Z 21474)%Q →
  ∃ n r a b, printFloat (H := exact) x = Some (a ++ [46] ++ b) ∧ printint n 10 true = Some a ∧ printint r 10 true = Some b ∧
    n = Qfloor x ∧ 0 ≤ r ≤ 100000 ∧
    (x - (5 # 1000000) <= inject_Z n + inject_Z r / 100000)%Q ∧ (inject_Z n + inject_Z r / 100000 <= x + (5 # 1000000))%Q.
Proof.
  intros H0 H1. set (n := Qfloor x). pose proof (Qfloor_le x) as Hn1. pose proof (Qlt_floor x) as Hn2. fold n in Hn1, Hn2.
  rewrite inject_Z_plus in Hn2.
  assert (Hn : 0 ≤ n < 21474).
  { split; [change 0 with (Qfloor 0); by apply Qfloor_resp_le|]. apply (Qle_lt_trans _ _ _ Hn1) in H1. by rewrite <-Zlt_Qlt in H1. }
  set (y := ((x + (5 # 1000000)) * inject_Z 100000 - inject_Z (100000 * n))%Q).
  assert (Hy : (y == (x + (5 # 1000000) - inject_Z n) * 100000)%Q).
  { unfold y. rewrite inject_Z_mult. change (inject_Z 100000) with (100000 # 1). ring. }
  set (r := Qfloor y). pose proof (Qfloor_le y) as Hr1. pose proof (Qlt_floor y) as Hr2. fold r in Hr1, Hr2. rewrite inject_Z_plus in Hr2.
  assert (Hy0 : (0 <= y)%Q) by (rewrite Hy; lra). change (inject_Z 1) with 1%Q in *.
  assert (Hr : 0 ≤ r ≤ 100000).
  { split; [change 0 with (Qfloor 0); by apply Qfloor_resp_le|]. cut (r < 100001); [lia|]. rewrite Zlt_Qlt.
    apply (Qle_lt_trans _ y); [done|]. rewrite Hy. change (inject_Z 100001) with (100001 # 1). lra. }
  destruct (printint_some n) as [a Ha]; [lia|]. destruct (printint_some r) as [b Hb]; [lia|].
  exists n, r, a, b. split_and!; try done; try lia.
  - unfold printFloat. cbn [d_ltz exact D d_trunc d_add d_half d_mul d_of_int d_sub].
    rewrite (proj2 (Z.ltb_ge _ _)) by (unfold Qle in H0; simpl in H0; lia).
    rewrite (q_trunc_floor x) by (done || (apply (Qlt_trans _ _ _ H1); by rewrite <-Zlt_Qlt)). fold n.
    cbn [mbind option_bind]. rewrite Ha. cbn [mbind option_bind].
    unfold int_range at 1. rewrite (proj2 (Z.leb_le _ _)), (proj2 (Z.ltb_lt _ _)) by lia. cbn [andb]. fold y.
    rewrite q_trunc_floor; [fold r; cbn [mbind option_bind]; by rewrite Hb|done|].
    rewrite Hy. change (inject_Z (2 ^ 31)) with (2147483648 # 1). lra.
  - unfold Qdiv. change (/ 100000)%Q with (1 # 100000). rewrite Hy in Hr2. lra.
  - unfold Qdiv. change (/ 100000)%Q with (1 # 100000). rewrite Hy in Hr1. lra.
Qed.

(** The fraction has no zeros in front, and may be rounded up to 100000: 0.05 is
    printed as 0.5000 and 0.999996 as 0.100000. *)
Lemma printFloat_zeros :
  printFloat (H := exact) (5 # 100) = Some [48; 46; 53; 48; 48; 48] ∧
  printFloat (H := exact) (999996 # 1000000) = Some [48; 46; 49; 48; 48; 48; 48; 48].
Proof. by vm_compute. Qed.
