(* ===== verification/Grep.v ===== *)
(** * grep (grep.c)

    The Kernighan and Pike matcher, on byte strings with their terminators
    ([None] is a read beyond a string), and the buffer loop of [grep]. The
    matcher is proved equivalent to a denotational reading of patterns. *)

From S2P Require Import Prelude Cstring Ulib.

(** [matchstar], given [matchhere(re, -)] for the rest [re] of the pattern. *)
Definition matchstar (mh : list Z → option bool) (c : Z) : list Z → option bool :=
  fix star (text : list Z) : option bool :=
    match mh text with
    | None => None
    | Some true => Some true
    | Some false =>
        match text with
        | [] => None
        | t :: text' => if negb (t =? 0) && ((t =? c) || (c =? 46)) then star text' else Some false
        end
    end.

Fixpoint matchhere (re : list Z) (text : list Z) {struct re} : option bool :=
  match re with
  | [] => None
  | r0 :: re1 =>
      if r0 =? 0 then Some true else
      match re1 with
      | [] => None
      | r1 :: re2 =>
          if r1 =? 42 then matchstar (matchhere re2) r0 text else
          match text with
          | [] => None
          | t :: text' =>
              if (r0 =? 36) && (r1 =? 0) then Some (t =? 0) else
              if negb (t =? 0) && ((r0 =? 46) || (r0 =? t)) then matchhere re1 text' else Some false
          end
      end
  end.

(** The do-while loop of [match]. *)
Fixpoint match_loop (re text : list Z) {struct text} : option bool :=
  match matchhere re text with
  | None => None
  | Some true => Some true
  | Some false =>
      match text with
      | [] => None
      | t :: text' => if negb (t =? 0) then match_loop re text' else Some false
      end
  end.

Definition match_ (re text : list Z) : option bool :=
  match re with
  | [] => None
  | r0 :: re1 => if r0 =? 94 then matchhere re1 text else match_loop re text
  end.

(** ** The loop of [grep]

    [buf] has 1024 bytes; [reads] are the results of successive calls of
    [read], each no longer than the room left. Returns what is written to
    standard output. *)
Definition GBUF : nat := 1024.

(** The inner loop: the lines of [buf] from [p] on. [None] is a read beyond the
    buffer. Returns the new buffer, the new [p] and the output. *)
Fixpoint grep_lines (fuel : nat) (pattern buf : list Z) (p : nat) : option (list Z * nat * list Z) :=
  match fuel with
  | O => None
  | S fuel' =>
      match strchr (drop p buf) 10 with
      | None => None
      | Some None => Some (buf, p, [])
      | Some (Some rest) =>
          let q := (length buf - length rest)%nat in
          let buf := <[q := 0]> buf in
          m ← match_ pattern (drop p buf);
          let buf := if m : bool then <[q := 10]> buf else buf in
          let out := if m : bool then slice p (q + 1 - p) buf else [] in
          r ← grep_lines fuel' pattern buf (q + 1);
          let '(buf', p', out') := r in Some (buf', p', out ++ out')
      end
  end.

Fixpoint grep_loop (pattern buf : list Z) (m : nat) (reads : list (list Z)) : option (list Z) :=
  match reads with
  | [] => Some []
  | rd :: reads' =>
      if (length rd =? 0)%nat then Some [] else
      if (length buf - m <? length rd)%nat then None else
      let buf := splice m rd buf in
      let m := (m + length rd)%nat in
      r ← grep_lines (S (length buf)) pattern buf 0;
      let '(buf, p, out) := r in
      let m := if (p =? 0)%nat then O else m in
      let '(buf, m) := if (0 <? m)%nat then (splice 0 (slice p (m - p) buf) buf, (m - p)%nat) else (buf, m) in
      out' ← grep_loop pattern buf m reads';
      Some (out ++ out')
  end.

Definition grep (pattern : list Z) (reads : list (list Z)) : option (list Z) :=
  grep_loop pattern (replicate GBUF 0) 0 reads.

(** ** What a pattern means *)
Inductive item := One (c : Z) | Star (c : Z).

(** A pattern without '^': its items, and whether it ends in '$'. *)
Fixpoint parse (re : list Z) : list item * bool :=
  match re with
  | [] => ([], false)
  | c :: re1 =>
      match re1 with
      | [] => if c =? 36 then ([], true) else ([One c], false)
      | r1 :: re2 =>
          if r1 =? 42 then let '(l, d) := parse re2 in (Star c :: l, d)
          else let '(l, d) := parse re1 in (One c :: l, d)
      end
  end.

Definition atom (c t : Z) : Prop := c = 46 ∨ c = t.

Inductive den : list item → list Z → Prop :=
| den_nil : den [] []
| den_one c l t s : atom c t → den l s → den (One c :: l) (t :: s)
| den_star0 c l s : den l s → den (Star c :: l) s
| den_star1 c l t s : atom c t → den (Star c :: l) s → den (Star c :: l) (t :: s).

(** The pattern matches at the beginning of [text]. *)
Definition matches_here (re text : list Z) : Prop :=
  ∃ s1 s2, text = s1 ++ s2 ∧ den (parse re).1 s1 ∧ ((parse re).2 = true → s2 = []).

(** The pattern, '^' included, matches somewhere in [text]. *)
Definition matches (re text : list Z) : Prop :=
  match re with
  | c :: re1 => if c =? 94 then matches_here re1 text
                else ∃ s1 s2, text = s1 ++ s2 ∧ matches_here re s2
  | [] => True
  end.

(** ** Correctness of the matcher *)
Definition here (p : list item * bool) (text : list Z) : Prop :=
  ∃ s1 s2, text = s1 ++ s2 ∧ den p.1 s1 ∧ (p.2 = true → s2 = []).

Lemma here_nil (d : bool) text : here ([], d) text ↔ (d = true → text = []).
Proof.
  split.
  - intros (s1 & s2 & -> & Hd & Hs) E. inversion Hd; subst. simpl. auto.
  - intros H. exists [], text. split_and!; [done|constructor|done].
Qed.

Lemma here_one c l (d : bool) text :
  here (One c :: l, d) text ↔ ∃ t text', text = t :: text' ∧ atom c t ∧ here (l, d) text'.
Proof.
  split.
  - intros (s1 & s2 & -> & Hd & Hs). inversion Hd as [|? ? t s Ha Hd'| |]; subst.
    exists t, (s ++ s2). split_and!; [done|done|]. by exists s, s2.
  - intros (t & text' & -> & Ha & s1 & s2 & -> & Hd & Hs). exists (t :: s1), s2.
    split_and!; [done|by constructor|done].
Qed.

Lemma here_star c l (d : bool) text :
  here (Star c :: l, d) text ↔
  here (l, d) text ∨ ∃ t text', text = t :: text' ∧ atom c t ∧ here (Star c :: l, d) text'.
Proof.
  split.
  - intros (s1 & s2 & -> & Hd & Hs). inversion Hd as [| |? ? ? Hd'|? ? t s Ha Hd']; subst.
    + left. by exists s1, s2.
    + right. exists t, (s ++ s2). split_and!; [done|done|]. by exists s, s2.
  - intros [(s1 & s2 & -> & Hd & Hs)|(t & text' & -> & Ha & s1 & s2 & -> & Hd & Hs)].
    + exists s1, s2. split_and!; [done|by constructor|done].
    + exists (t :: s1), s2. split_and!; [done|by constructor|done].
Qed.

Lemma matchstar_spec mh c p r2 text :
  (∀ text, 0 ∉ text → ∃ b, mh (text ++ 0 :: r2) = Some b ∧ (b = true ↔ here p text)) → 0 ∉ text →
  ∃ b, matchstar mh c (text ++ 0 :: r2) = Some b ∧ (b = true ↔ here (Star c :: p.1, p.2) text).
Proof.
  intros Hmh. destruct p as [l d]. induction text as [|t text IH]; intros Ht; simpl.
  - destruct (Hmh [] Ht) as (b & Hb & Hiff). simpl in Hb. rewrite Hb. exists b.
    split; [by destruct b|]. rewrite here_star, Hiff. naive_solver.
  - apply not_elem_of_cons in Ht as [H0 Ht]. destruct (Hmh (t :: text)) as (b & Hb & Hiff); [set_solver|].
    simpl in Hb. rewrite Hb. destruct b; [exists true; rewrite here_star; naive_solver|].
    rewrite (proj2 (Z.eqb_neq t 0)) by done. simpl.
    destruct ((t =? c) || (c =? 46)) eqn:E.
    + destruct (IH Ht) as (b & Hs & Hi). simpl in Hs, Hi. exists b. split; [exact Hs|].
      rewrite Hi, (here_star _ _ _ (t :: text)), <-Hiff.
      apply orb_true_iff in E. rewrite !Z.eqb_eq in E. unfold atom. split.
      * intros H. right. exists t, text. split_and!; [done| |done]. destruct E as [->| ->]; auto.
      * intros [?|(? & ? & [= <- <-] & _ & ?)]; done.
    + exists false. split; [done|]. rewrite here_star, <-Hiff. split; [done|].
      apply orb_false_iff in E. rewrite !Z.eqb_neq in E.
      intros [?|(? & ? & [= <- <-] & [?|?] & _)]; [done|naive_solver|naive_solver].
Qed.

Lemma matchhere_spec n : ∀ re text r1 r2,
  (length re ≤ n)%nat → 0 ∉ re → 0 ∉ text →
  ∃ b, matchhere (re ++ 0 :: r1) (text ++ 0 :: r2) = Some b ∧ (b = true ↔ here (parse re) text).
Proof.
  induction n as [|n IH]; intros re text r1 r2 Hn Hre Ht.
  { destruct re; [|simpl in Hn; lia]. exists true. split; [done|]. simpl. rewrite here_nil. done. }
  destruct re as [|c re1].
  { exists true. split; [done|]. simpl. rewrite here_nil. done. }
  apply not_elem_of_cons in Hre as [Hc Hre1]. simpl in Hn.
  assert (Hstep : ∀ r1' re2', re1 ++ 0 :: r1 = r1' :: re2' → r1' ≠ 42 → (c = 36 → r1' ≠ 0) →
    parse (c :: re1) = (One c :: (parse re1).1, (parse re1).2) →
    ∃ b, matchhere ((c :: re1) ++ 0 :: r1) (text ++ 0 :: r2) = Some b ∧ (b = true ↔ here (parse (c :: re1)) text)).
  { intros r1' re2' E H42 H36 Hp. simpl matchhere. rewrite (proj2 (Z.eqb_neq c 0)) by done. rewrite E.
    rewrite (proj2 (Z.eqb_neq r1' 42)) by done. rewrite <-E, Hp. setoid_rewrite here_one.
    assert ((c =? 36) && (r1' =? 0) = false) as Hd.
    { destruct (Z.eqb_spec c 36) as [->|]; [|done]. by apply Z.eqb_neq, H36. }
    destruct text as [|t text]; simpl; rewrite Hd; simpl.
    { exists false. split; [done|]. split; [done|]. intros (?&?&?&_). done. }
    apply not_elem_of_cons in Ht as [Ht0 Ht]. rewrite (proj2 (Z.eqb_neq t 0)) by done. simpl.
    destruct ((c =? 46) || (c =? t)) eqn:Ea.
    - destruct (IH re1 text r1 r2) as (b & Hb & Hiff); [lia|done|done|]. exists b. split; [exact Hb|].
      rewrite Hiff. destruct (parse re1) as [l d]. simpl. apply orb_true_iff in Ea. rewrite !Z.eqb_eq in Ea.
      unfold atom. split; [|by intros (? & ? & [= <- <-] & _ & ?)].
      intros H. exists t, text. done.
    - exists false. split; [done|]. split; [done|]. apply orb_false_iff in Ea. rewrite !Z.eqb_neq in Ea.
      intros (? & ? & [= <- <-] & [?|?] & _); naive_solver. }
  destruct re1 as [|r1' re2].
  - destruct (Z.eqb_spec c 36) as [->|H36].
    + simpl. setoid_rewrite here_nil. destruct text as [|t text]; simpl.
      * exists true. done.
      * apply not_elem_of_cons in Ht as [Ht0 _]. rewrite (proj2 (Z.eqb_neq t 0)) by done.
        exists false. split; [done|]. split; [done|]. intros H. by specialize (H eq_refl).
    + apply (Hstep 0 r1); [done|done|done|]. simpl. by rewrite (proj2 (Z.eqb_neq c 36)).
  - apply not_elem_of_cons in Hre1 as [Hr1 Hre2]. destruct (Z.eqb_spec r1' 42) as [->|H42].
    + simpl. rewrite (proj2 (Z.eqb_neq c 0)) by done.
      destruct (matchstar_spec (matchhere (re2 ++ 0 :: r1)) c (parse re2) r2 text) as (b & Hb & Hiff); [|done|].
      { intros text' Ht'. apply IH; [simpl in Hn; lia|done|done]. }
      exists b. split; [exact Hb|]. rewrite Hiff. by destruct (parse re2).
    + apply (Hstep r1' (re2 ++ 0 :: r1)); [done|done|done|].
      transitivity (let '(l, d) := parse (r1' :: re2) in (One c :: l, d)); [|by destruct (parse (r1' :: re2))].
      cbn [parse]. by rewrite (proj2 (Z.eqb_neq r1' 42)).
Qed.

Lemma match_loop_spec re r1 r2 text :
  0 ∉ re → 0 ∉ text →
  ∃ b, match_loop (re ++ 0 :: r1) (text ++ 0 :: r2) = Some b ∧
    (b = true ↔ ∃ s1 s2, text = s1 ++ s2 ∧ here (parse re) s2).
Proof.
  intros Hre. induction text as [|t text IH]; intros Ht;
    destruct (matchhere_spec _ re _ r1 r2 (le_n _) Hre Ht) as (b & Hb & Hiff); simpl in Hb |- *.
  - rewrite Hb. exists b. split; [by destruct b|]. rewrite Hiff. split.
    + intros H. by exists [], [].
    + intros (s1 & s2 & E & H). symmetry in E. apply app_eq_nil in E as [-> ->]. done.
  - rewrite Hb. destruct b.
    + exists true. split; [done|]. split; [|done]. intros _. exists [], (t :: text). split; [done|]. by apply Hiff.
    + apply not_elem_of_cons in Ht as [Ht0 Ht]. rewrite (proj2 (Z.eqb_neq t 0)) by done. simpl.
      destruct (IH Ht) as (b & Hb' & Hiff'). exists b. split; [done|]. rewrite Hiff'. split.
      * intros (s1 & s2 & -> & H). by exists (t :: s1), s2.
      * intros ([|x s1] & s2 & E & H); simpl in E.
        -- subst s2. apply Hiff in H. done.
        -- injection E as -> ->. by exists s1, s2.
Qed.

(** C33: the matcher of grep decides the meaning of patterns. For every pattern
    and text, [match] terminates within them and returns 1 exactly when the
    pattern, read as a sequence of characters, dots and starred characters
    with the optional anchors '^' and '$', matches a part of the text. *)
Theorem match_correct re text r1 r2 :
  0 ∉ re → 0 ∉ text →
  ∃ b, match_ (re ++ 0 :: r1) (text ++ 0 :: r2) = Some b ∧ (b = true ↔ matches re text).
Proof.
  intros Hre Ht. destruct re as [|c re].
  - destruct (match_loop_spec [] r1 r2 text Hre Ht) as (b & Hb & Hiff). exists b. split; [exact Hb|].
    rewrite Hiff. split; [done|]. intros _. exists text, []. rewrite app_nil_r. split; [done|].
    simpl. by apply here_nil.
  - simpl. destruct (Z.eqb_spec c 94) as [->|Hc].
    + apply not_elem_of_cons in Hre as [_ Hre]. by eapply matchhere_spec.
    + destruct (match_loop_spec (c :: re) r1 r2 text Hre Ht) as (b & Hb & Hiff). eauto.
Qed.

(** "^a.*z$" on "abz" *)
Lemma match_correct_witness :
  ∃ b, match_ [94; 97; 46; 42; 122; 36; 0] [97; 98; 122; 0] = Some b ∧
    (b = true ↔ matches [94; 97; 46; 42; 122; 36] [97; 98; 122]).
Proof. apply (match_correct [94; 97; 46; 42; 122; 36] [97; 98; 122] [] []); set_solver by lia. Defined.

(** [grep] drops the beginning of a line that a short read splits: with input
    "foo\n" in one read the line is printed, with "fo" and "o\n" it is not. *)
Theorem grep_loses_split_lines :
  grep [102; 111; 111; 0] [[102; 111; 111; 10]] = Some [102; 111; 111; 10] ∧
  grep [102; 111; 111; 0] [[102; 111]; [111; 10]] = Some [].
Proof. split; vm_compute; reflexivity. Qed.
