(* ===== verification/EnvVar.v ===== *)
(** * Environment variables kept by the kernel (sysproc.c: find, changeEnVar,
    sys_set, sys_get; envar.h)

    The table is one object that every call reads and writes in place, so that
    a variable whose new value refers to itself is modelled as it happens. The
    debugging output of [changeEnVar] is left out. *)

From S2P Require Import Prelude.

Definition NAME_LIMIT : nat := 30.
Definition CONTENT_LIMIT : nat := 1000.
Definition VAR_LIMIT : nat := 100.

(** [struct enVariable] and [struct enVars]. *)
Record enVariable := mkVar {
  v_name : list Z;
  v_value : list Z;
  v_nameLength : Z;
  v_size : Z;
}.

Record enVars := mkVars {
  contents : list enVariable;
  varNum : Z;
  initiated : bool;
}.

Definition zero_var : enVariable :=
  mkVar (replicate NAME_LIMIT 0) (replicate CONTENT_LIMIT 0) 0 0.
#[global] Arguments zero_var : simpl never.
Definition enVars0 : enVars := mkVars (replicate VAR_LIMIT zero_var) 0 false.

Definition getv (i : nat) : M enVars enVariable := λ s,
  match contents s !! i with Some v => Ok v s | None => Err Undef s end.
Definition updv (i : nat) (f : enVariable → enVariable) : M enVars unit := λ s,
  match contents s !! i with
  | Some v => Ok tt (mkVars (<[i := f v]> (contents s)) (varNum s) (initiated s))
  | None => Err Undef s
  end.

Definition vset_value (k : nat) (c : Z) (v : enVariable) : enVariable :=
  mkVar (v_name v) (<[k := c]> (v_value v)) (v_nameLength v) (v_size v).
Definition vset_name (k : nat) (c : Z) (v : enVariable) : enVariable :=
  mkVar (<[k := c]> (v_name v)) (v_value v) (v_nameLength v) (v_size v).
Definition vset_size (n : Z) (v : enVariable) : enVariable :=
  mkVar (v_name v) (v_value v) (v_nameLength v) n.
Definition vset_nameLength (n : Z) (v : enVariable) : enVariable :=
  mkVar (v_name v) (v_value v) n (v_size v).

(** The inner loop of [find]: do the first [length] bytes agree? *)
Fixpoint same_name (length : nat) (a b : list Z) : option bool :=
  match length with
  | O => Some true
  | S n =>
      match a, b with
      | x :: a', y :: b' => if negb (x =? y) then Some false else same_name n a' b'
      | _, _ => None
      end
  end.

(** [find]: [k] is the index of the first element of [l]; -1 when not found. *)
Fixpoint find_loop (l : list enVariable) (k : Z) (name : list Z) (length : Z) : option Z :=
  match l with
  | [] => Some (-1)
  | v :: l' =>
      if v_nameLength v =? length then
        b ← same_name (Z.to_nat length) (v_name v) name;
        if b : bool then Some k else find_loop l' (k + 1) name length
      else find_loop l' (k + 1) name length
  end.

Definition find (name : list Z) (length : Z) : M enVars Z :=
  s ← getM;
  deref (find_loop (take (Z.to_nat (varNum s)) (contents s)) 0 name length).

(** The search for the closing brace, [for(j=i+1; con[j]!='}'; j++)]: the bytes
    before it and those after it; [None] when there is none. *)
Fixpoint to_brace (con : list Z) : option (list Z * list Z) :=
  match con with
  | [] => None
  | c :: con' => if c =? 125 then Some ([], con') else
      r ← to_brace con'; Some (c :: r.1, r.2)
  end.

(** Copying variable [found] into the value of [pos]; reads and writes the
    table byte by byte. Returns [fillPos], or -1 when the value is full. *)
Fixpoint copy_var (n : nat) (found pos j : nat) (fillPos : Z) : M enVars Z :=
  match n with
  | O => mret fillPos
  | S n' =>
      if fillPos <? Z.of_nat CONTENT_LIMIT - 1 then
        v ← getv found;
        c ← deref (v_value v !! j);
        updv pos (vset_value (Z.to_nat fillPos) c);;
        copy_var n' found pos (S j) (fillPos + 1)
      else mret (-1)
  end.

(** The loop of [changeEnVar]: the bytes [con] are left. *)
Fixpoint changeEnVar_loop (fuel : nat) (con : list Z) (pos : nat) (fillPos : Z) : M enVars Z :=
  match fuel with
  | O => stopM NoFuel
  | S fuel' =>
      match con with
      | [] => undef
      | c :: con' =>
          if c =? 0 then
            updv pos (vset_value (Z.to_nat fillPos) 0);;
            updv pos (vset_size fillPos);;
            mret 0
          else if (c =? 36) && bool_decide (head con' = Some 123) then
            r ← deref (to_brace con');
            (* the name starts after the opening brace *)
            foundVar ← find (tail con') (Z.of_nat (length r.1) - 1);
            if foundVar =? -1 then mret (-1) else
            v ← getv (Z.to_nat foundVar);
            f ← copy_var (Z.to_nat (v_size v)) (Z.to_nat foundVar) pos 0 fillPos;
            if f =? -1 then mret (-1) else
            changeEnVar_loop fuel' r.2 pos f
          else if fillPos <? Z.of_nat CONTENT_LIMIT - 1 then
            updv pos (vset_value (Z.to_nat fillPos) c);;
            changeEnVar_loop fuel' con' pos (fillPos + 1)
          else mret (-1)
      end
  end.

Definition changeEnVar (con : list Z) (pos : nat) : M enVars Z :=
  changeEnVar_loop (S (length con)) con pos 0.

(** The position of the first '=' among the first [n] bytes, else [n]. *)
Fixpoint equal_pos (n : nat) (con : list Z) : nat :=
  match n, con with
  | S n', c :: con' => if c =? 61 then O else S (equal_pos n' con')
  | _, _ => O
  end.

Definition set_varNum (n : Z) : M enVars unit := modify (λ s, mkVars (contents s) n (initiated s)).

(** [sys_set] on the string [con], of length [length], that [argstr] found; the
    list holds the bytes of memory from the string on. *)
Definition sys_set (con : list Z) (length : nat) : M enVars Z :=
  s ← getM;
  (if negb (initiated s) then putM (mkVars (contents s) 0 true) else mret tt);;
  let equalPos := equal_pos length con in
  if (NAME_LIMIT - 1 <=? equalPos)%nat then mret (-1) else
  i ← find con (Z.of_nat equalPos);
  if i =? -1 then
    n ← gets varNum;
    if n =? Z.of_nat VAR_LIMIT then mret (-1) else
    let i := Z.to_nat n in
    forM (seq 0 equalPos) (λ j, c ← deref (con !! j); updv i (vset_name j c));;
    updv i (vset_name equalPos 0);;
    updv i (vset_nameLength (Z.of_nat equalPos));;
    changeEnVar (drop (equalPos + 1) con) i;;
    n' ← gets varNum;
    set_varNum (n' + 1);;
    mret 0
  else
    changeEnVar (drop (equalPos + 1) con) (Z.to_nat i);;
    mret 0.

(** [sys_get]: the return value and the bytes stored at [content]. *)
Definition sys_get (name : list Z) (length : nat) : M enVars (Z * list Z) :=
  i ← find name (Z.of_nat length);
  if negb (i =? -1) then
    v ← getv (Z.to_nat i);
    mret (0, take (Z.to_nat (v_size v)) (v_value v) ++ [0])
  else mret (-1, []).

(** ** What the table means *)

(** The name and the value of an entry, as strings. *)
Definition var_name (v : enVariable) : list Z := take (Z.to_nat (v_nameLength v)) (v_name v).
Definition var_value (v : enVariable) : list Z := take (Z.to_nat (v_size v)) (v_value v).

Definition var_ok (v : enVariable) : Prop :=
  length (v_name v) = NAME_LIMIT ∧ length (v_value v) = CONTENT_LIMIT ∧
  0 ≤ v_nameLength v < Z.of_nat NAME_LIMIT ∧ 0 ≤ v_size v < Z.of_nat CONTENT_LIMIT.

(** A table in order: well-formed entries with different names. *)
Definition env_ok (s : enVars) : Prop :=
  length (contents s) = VAR_LIMIT ∧ 0 ≤ varNum s ≤ Z.of_nat VAR_LIMIT ∧
  Forall var_ok (contents s) ∧ NoDup (var_name <$> take (Z.to_nat (varNum s)) (contents s)).

(** The variable of a name. *)
Definition lookup_var (s : enVars) (name : list Z) : option (list Z) :=
  var_value <$> List.find (λ v, bool_decide (var_name v = name)) (take (Z.to_nat (varNum s)) (contents s)).

(** ** [find] *)
Lemma same_name_spec n : ∀ a b,
  (n ≤ length a)%nat → (n ≤ length b)%nat → same_name n a b = Some (bool_decide (take n a = take n b)).
Proof.
  induction n as [|n IH]; intros [|x a] [|y b] Ha Hb; simpl in *; try lia; try done.
  destruct (Z.eqb_spec x y) as [->|Hne]; simpl.
  - rewrite IH by lia. f_equal. apply bool_decide_ext. split; [by intros ->|by intros [= ->]].
  - rewrite bool_decide_false; [done|]. by intros [= ? _].
Qed.

Lemma find_loop_spec name n l : ∀ k,
  Forall var_ok l → (n ≤ length name)%nat →
  ∃ r, find_loop l k name (Z.of_nat n) = Some r ∧
    ((r = -1 ∧ ∀ v, v ∈ l → var_name v ≠ take n name) ∨
     ∃ i v, r = k + Z.of_nat i ∧ l !! i = Some v ∧ var_name v = take n name).
Proof.
  induction l as [|v l IH]; intros k Hl Hn; simpl.
  { exists (-1). split; [done|]. left. split; [done|set_solver]. }
  apply Forall_cons in Hl as [(Hvn & _ & Hvl & _) Hl].
  assert (Hrec : var_name v ≠ take n name → ∃ r, find_loop l (k + 1) name (Z.of_nat n) = Some r ∧
    ((r = -1 ∧ ∀ v0, v0 ∈ v :: l → var_name v0 ≠ take n name) ∨
     ∃ i v0, r = k + Z.of_nat i ∧ (v :: l) !! i = Some v0 ∧ var_name v0 = take n name)).
  { intros Hne. destruct (IH (k + 1) Hl Hn) as (r & Hr & Hcase). exists r. split; [done|].
    destruct Hcase as [[-> Hall]|(i & v0 & -> & Hi & Hv)]; [left; set_solver|].
    right. exists (S i), v0. split_and!; [lia|done|done]. }
  destruct (Z.eqb_spec (v_nameLength v) (Z.of_nat n)) as [E|E].
  - rewrite Nat2Z.id, same_name_spec by lia. simpl. unfold var_name in *. rewrite E, Nat2Z.id in Hrec.
    case_bool_decide as Hb; [|auto]. exists k. split; [done|]. right. exists 0%nat, v.
    rewrite E, Nat2Z.id. split_and!; [lia|done|done].
  - apply Hrec. unfold var_name. intros H%(f_equal length). rewrite !length_take in H. lia.
Qed.

(** ** Writing a value in place *)

(** The table with the first bytes of the value of [pos] overwritten by [p]. *)
Definition fill (pos : nat) (p : list Z) (s : enVars) : enVars :=
  mkVars (alter (λ v, mkVar (v_name v) (splice 0 p (v_value v)) (v_nameLength v) (v_size v)) pos (contents s))
    (varNum s) (initiated s).

Lemma fill_nil pos s : fill pos [] s = s.
Proof.
  destruct s as [l n b]. unfold fill. simpl. f_equal. apply list_eq. intros i. rewrite lookup_alter_if.
  case_decide; [|done]. destruct (l !! i) as [v|]; [|done]. simpl. by destruct v.
Qed.

Lemma splice0_snoc (p l : list Z) c :
  (length p < length l)%nat → <[length p := c]> (splice 0 p l) = splice 0 (p ++ [c]) l.
Proof.
  intros Hl. apply list_eq. intros i.
  destruct (decide (i = length p)) as [->|Hi].
  - rewrite list_lookup_insert_eq by (rewrite length_splice; lia).
    rewrite lookup_splice by (rewrite length_app; simpl; lia).
    rewrite decide_True by (rewrite length_app; simpl; lia).
    by rewrite Nat.sub_0_r, lookup_app_r, Nat.sub_diag by lia.
  - rewrite list_lookup_insert_ne by done. rewrite !lookup_splice by (rewrite ?length_app; simpl; lia).
    rewrite length_app. simpl. destruct (decide (i < length p)%nat).
    + rewrite !decide_True by lia. by rewrite lookup_app_l by lia.
    + by rewrite !decide_False by lia.
Qed.

Lemma updv_fill pos p c s v :
  contents s !! pos = Some v → length (v_value v) = CONTENT_LIMIT → (length p < CONTENT_LIMIT)%nat →
  updv pos (vset_value (Z.to_nat (Z.of_nat (length p))) c) (fill pos p s) = Ok tt (fill pos (p ++ [c]) s).
Proof.
  intros Hv Hl Hp. unfold updv, fill. simpl. rewrite lookup_alter_if, decide_True, Hv by done. simpl.
  do 2 f_equal. apply list_eq. intros i. destruct (decide (pos = i)) as [<-|Hi].
  - rewrite list_lookup_insert_eq by (rewrite length_alter; by eapply lookup_lt_Some).
    rewrite lookup_alter_if, decide_True, Hv by done. simpl. unfold vset_value. simpl.
    by rewrite Nat2Z.id, splice0_snoc by lia.
  - by rewrite list_lookup_insert_ne, !lookup_alter_if, !decide_False by done.
Qed.

Lemma copy_var_spec found pos s v w n : ∀ j p,
  found ≠ pos → contents s !! found = Some w → contents s !! pos = Some v →
  length (v_value v) = CONTENT_LIMIT → length (v_value w) = CONTENT_LIMIT →
  (length p + n < CONTENT_LIMIT)%nat → (j + n ≤ CONTENT_LIMIT)%nat →
  copy_var n found pos j (Z.of_nat (length p)) (fill pos p s) =
    Ok (Z.of_nat (length p + n)) (fill pos (p ++ slice j n (v_value w)) s).
Proof.
  induction n as [|n IH]; intros j p Hne Hw Hv Hlv Hlw Hp Hj; simpl.
  { unfold slice. rewrite take_0, app_nil_r, Nat.add_0_r. done. }
  rewrite (proj2 (Z.ltb_lt _ _)) by lia. unfold mbind at 1, M_bind at 1. unfold getv. simpl.
  rewrite lookup_alter_if, decide_False, Hw by done. unfold mbind at 1, M_bind at 1.
  destruct (lookup_lt_is_Some_2 (v_value w) j) as [c Hc]; [lia|]. rewrite Hc. simpl.
  unfold mbind at 1, M_bind at 1. rewrite (updv_fill pos p c s v) by (done || lia).
  replace (Z.of_nat (length p) + 1) with (Z.of_nat (length (p ++ [c]))) by (rewrite length_app; simpl; lia).
  rewrite IH by (rewrite ?length_app; simpl; done || lia).
  assert (slice j (S n) (v_value w) = c :: slice (S j) n (v_value w)) as ->
    by (unfold slice; by rewrite (drop_S _ _ _ Hc)).
  rewrite length_app, <-app_assoc. simpl. f_equal. lia.
Qed.

(** What the new value should be: every ${name} replaced by the value of the
    variable [name], the rest copied. *)
Fixpoint expand (fuel : nat) (env : list Z → option (list Z)) (con : list Z) : option (list Z) :=
  match fuel with
  | O => None
  | S fuel' =>
      match con with
      | [] => None
      | c :: con' =>
          if c =? 0 then Some []
          else if (c =? 36) && bool_decide (head con' = Some 123) then
            r ← to_brace con'; v ← env (tail r.1); rest ← expand fuel' env r.2; Some (v ++ rest)
          else rest ← expand fuel' env con'; Some (c :: rest)
      end
  end.

(** The variables other than entry [pos]. *)
Definition other_vars (s : enVars) (pos : nat) (name : list Z) : option (list Z) :=
  match contents s !! pos with
  | Some v => if (pos <? Z.to_nat (varNum s))%nat && bool_decide (var_name v = name) then None
              else lookup_var s name
  | None => None
  end.

Lemma list_find_lookup {A} (P : A → bool) l x :
  List.find P l = Some x → ∃ i, l !! i = Some x ∧ P x = true.
Proof.
  intros [Hin HP]%List.find_some. apply list_elem_of_In, list_elem_of_lookup in Hin as [i Hi]. eauto.
Qed.

Lemma lookup_var_Some s name val :
  lookup_var s name = Some val → ∃ i v, (i < Z.to_nat (varNum s))%nat ∧ contents s !! i = Some v ∧
    var_name v = name ∧ var_value v = val.
Proof.
  intros (v & Hv & ->)%fmap_Some. apply list_find_lookup in Hv as (i & Hi & Hb).
  apply bool_decide_eq_true in Hb. apply lookup_take_Some in Hi as [Hi Hlt]. by exists i, v.
Qed.

Lemma fill_lookup pos p s i v' :
  contents (fill pos p s) !! i = Some v' →
  ∃ v, contents s !! i = Some v ∧ var_name v' = var_name v ∧ v_nameLength v' = v_nameLength v ∧ v_size v' = v_size v ∧
    v_name v' = v_name v ∧ (i ≠ pos → v' = v) ∧ (i = pos → v_value v' = splice 0 p (v_value v)).
Proof.
  unfold fill. simpl. rewrite lookup_alter_if. case_decide as E.
  - intros (v & Hv & ->)%fmap_Some. exists v. split_and!; try done.
  - intros Hv. exists v'. split_and!; done.
Qed.

Lemma fill_ok pos p s : env_ok s → (length p ≤ CONTENT_LIMIT)%nat → Forall var_ok (contents (fill pos p s)).
Proof.
  intros (_ & _ & Hok & _) Hp. apply Forall_lookup. intros i v' Hi.
  destruct (fill_lookup _ _ _ _ _ Hi) as (v & Hv & _ & Hn & Hs & Hnm & Hne & Heq).
  rewrite Forall_lookup in Hok. destruct (Hok i v Hv) as (H1 & H2 & H3 & H4). unfold var_ok.
  rewrite Hn, Hs, Hnm. split; [done|]. split; [|done]. destruct (decide (i = pos)) as [E|E].
  - rewrite Heq by done. rewrite length_splice; [done|]. simpl. lia.
  - by rewrite Hne.
Qed.

Lemma to_brace_split con r : to_brace con = Some r → con = r.1 ++ 125 :: r.2.
Proof.
  revert r. induction con as [|c con IH]; intros r; simpl; [done|].
  destruct (Z.eqb_spec c 125) as [->|]; [by intros [= <-]|].
  intros (r' & Hr & [= <-])%bind_Some. simpl. by rewrite (IH _ Hr) at 1.
Qed.

(** [find] of a name that another entry has finds that entry. *)
Lemma find_other pos p s v con n name val :
  env_ok s → (length p ≤ CONTENT_LIMIT)%nat → contents s !! pos = Some v →
  (n ≤ length con)%nat → take n con = name → other_vars s pos name = Some val →
  ∃ i w, find con (Z.of_nat n) (fill pos p s) = Ok (Z.of_nat i) (fill pos p s) ∧ i ≠ pos ∧
    contents s !! i = Some w ∧ var_value w = val.
Proof.
  intros Hok Hp Hpos Hn Hname Ho. unfold other_vars in Ho. rewrite Hpos in Ho.
  destruct ((pos <? Z.to_nat (varNum s))%nat && bool_decide (var_name v = name)) eqn:E; [done|].
  apply lookup_var_Some in Ho as (i & w & Hi & Hw & Hwn & Hwv).
  assert (Hne : i ≠ pos).
  { intros ->. rewrite (proj2 (Nat.ltb_lt _ _) Hi) in E. simpl in E. apply bool_decide_eq_false in E. congruence. }
  exists i, w. unfold find, mbind, M_bind, getM.
  change (varNum (fill pos p s)) with (varNum s).
  destruct (find_loop_spec con n (take (Z.to_nat (varNum s)) (contents (fill pos p s))) 0) as (r & Hr & Hcase);
    [by apply Forall_take, fill_ok|done|].
  assert (contents (fill pos p s) !! i = Some w) as Hiw.
  { unfold fill. simpl. by rewrite lookup_alter_if, decide_False. }
  rewrite Hr.
  assert (r = Z.of_nat i) as ->; [|done].
  destruct Hcase as [[_ Hall]|(j & u & -> & Hj & Hu)].
  - exfalso. apply (Hall w); [|congruence]. apply list_elem_of_lookup. exists i. by rewrite lookup_take_lt.
  - rewrite Hname in Hu. apply lookup_take_Some in Hj as [Hj Hlt].
    destruct (fill_lookup _ _ _ _ _ Hj) as (u0 & Hu0 & Hun & _). destruct Hok as (_ & _ & _ & Hnd).
    rewrite NoDup_alt in Hnd. rewrite Z.add_0_l. f_equal.
    apply (Hnd j i name); rewrite list_lookup_fmap, lookup_take_lt by done.
    + rewrite Hu0. simpl. congruence.
    + rewrite Hw. simpl. congruence.
Qed.

(** The table after a successful [changeEnVar]. *)
Definition set_value (pos : nat) (w : list Z) (s : enVars) : enVars :=
  mkVars (alter (vset_size (Z.of_nat (length w))) pos (contents (fill pos (w ++ [0]) s))) (varNum s) (initiated s).

Lemma changeEnVar_spec pos s v fuel : ∀ con p w,
  env_ok s → contents s !! pos = Some v →
  expand fuel (other_vars s pos) con = Some w → (length p + length w < CONTENT_LIMIT)%nat →
  changeEnVar_loop fuel con pos (Z.of_nat (length p)) (fill pos p s) = Ok 0 (set_value pos (p ++ w) s).
Proof.
  induction fuel as [|fuel IH]; intros con p w Hok Hpos; simpl; [done|].
  assert (Hvl : var_ok v) by (destruct Hok as (_ & _ & Hall & _); rewrite Forall_lookup in Hall; eauto).
  pose proof Hvl as (_ & Hval & _ & _).
  destruct con as [|c con]; [done|]. destruct (c =? 0) eqn:E0.
  - intros [= <-] Hlen. simpl in Hlen. rewrite Nat.add_0_r in Hlen. unfold mbind, M_bind.
    rewrite (updv_fill pos p 0 s v) by (done || lia). unfold updv.
    assert (is_Some (contents (fill pos (p ++ [0]) s) !! pos)) as [x Hx].
    { unfold fill. simpl. rewrite lookup_alter_if, decide_True, Hpos by done. by eexists. }
    rewrite Hx. rewrite app_nil_r. unfold set_value. f_equal. f_equal. symmetry. by apply alter_insert.
  - destruct ((c =? 36) && bool_decide (head con = Some 123)) eqn:Ed.
    + intros (r & Hr & (val & Hval' & (rest & Hrest & [= <-])%bind_Some)%bind_Some)%bind_Some Hlen.
      rewrite length_app in Hlen. pose proof (to_brace_split _ _ Hr) as Hcon.
      apply andb_true_iff in Ed as [_ Ed]. apply bool_decide_eq_true in Ed.
      assert (∃ nm, r.1 = 123 :: nm) as [nm Hnm].
      { destruct r as [[|x nm] r2]; simpl in *; rewrite Hcon in Ed; simpl in Ed; [congruence|]. exists nm. congruence. }
      rewrite Hnm in *. simpl in Hval'. rewrite Hr. unfold mbind, M_bind. simpl.
      assert (tail con = nm ++ 125 :: r.2) as Ht by by rewrite Hcon.
      replace (Z.of_nat (length r.1) - 1) with (Z.of_nat (length nm)) by (rewrite Hnm; simpl; lia).
      destruct (find_other pos p s v (tail con) (length nm) nm val) as (i & u & Hf & Hne & Hu & Huv); try done.
      { lia. }
      { rewrite Ht, length_app. lia. }
      { by rewrite Ht, take_app_length. }
      rewrite Hf. rewrite (proj2 (Z.eqb_neq _ _)) by lia. unfold getv. rewrite Nat2Z.id.
      assert (contents (fill pos p s) !! i = Some u) as Hiu.
      { unfold fill. simpl. by rewrite lookup_alter_if, decide_False. }
      rewrite Hiu.
      assert (var_ok u) as (_ & Hul & _ & Hus).
      { destruct Hok as (_ & _ & Hall & _). rewrite Forall_lookup in Hall. eauto. }
      assert (length val = Z.to_nat (v_size u)) as Hlv by (rewrite <-Huv; unfold var_value; rewrite length_take; lia).
      rewrite (copy_var_spec i pos s v u) by (done || lia).
      rewrite (proj2 (Z.eqb_neq _ _)) by lia.
      assert (slice 0 (Z.to_nat (v_size u)) (v_value u) = val) as -> by exact Huv.
      replace (length p + Z.to_nat (v_size u))%nat with (length (p ++ val)) by (rewrite length_app; lia).
      rewrite (IH r.2 (p ++ val) rest) by (try done; rewrite length_app; lia). by rewrite <-app_assoc.
    + intros (rest & Hrest & [= <-])%bind_Some Hlen. simpl in Hlen.
      rewrite (proj2 (Z.ltb_lt _ _)) by lia. unfold mbind, M_bind.
      rewrite (updv_fill pos p c s v) by (done || lia).
      replace (Z.of_nat (length p) + 1) with (Z.of_nat (length (p ++ [c]))) by (rewrite length_app; simpl; lia).
      rewrite (IH con (p ++ [c]) rest) by (try done; rewrite length_app; simpl; lia). by rewrite <-app_assoc.
Qed.

(** ** [sys_set] *)
Lemma expand_ext fuel env env' : (∀ n, env n = env' n) → ∀ con, expand fuel env con = expand fuel env' con.
Proof.
  intros He. induction fuel as [|fuel IH]; intros con; simpl; [done|]. destruct con as [|c con]; [done|].
  case_match; [done|]. case_match.
  - destruct (to_brace con) as [r|]; [|done]. simpl. rewrite He. destruct (env' _); [|done]. simpl. by rewrite IH.
  - by rewrite IH.
Qed.

(** Writing the name of a new variable. *)
Definition fill_name (pos : nat) (p : list Z) (s : enVars) : enVars :=
  mkVars (alter (λ v, mkVar (splice 0 p (v_name v)) (v_value v) (v_nameLength v) (v_size v)) pos (contents s))
    (varNum s) (initiated s).

Lemma fill_name_nil pos s : fill_name pos [] s = s.
Proof.
  destruct s as [l n b]. unfold fill_name. simpl. f_equal. apply list_eq. intros i. rewrite lookup_alter_if.
  case_decide; [|done]. destruct (l !! i) as [v|]; [|done]. simpl. by destruct v.
Qed.

Lemma updv_fill_name pos p c s v :
  contents s !! pos = Some v → length (v_name v) = NAME_LIMIT → (length p < NAME_LIMIT)%nat →
  updv pos (vset_name (length p) c) (fill_name pos p s) = Ok tt (fill_name pos (p ++ [c]) s).
Proof.
  intros Hv Hl Hp. unfold updv, fill_name. simpl. rewrite lookup_alter_if, decide_True, Hv by done. simpl.
  do 2 f_equal. apply list_eq. intros i. destruct (decide (pos = i)) as [<-|Hi].
  - rewrite list_lookup_insert_eq by (rewrite length_alter; by eapply lookup_lt_Some).
    rewrite lookup_alter_if, decide_True, Hv by done. simpl. unfold vset_name. simpl.
    by rewrite splice0_snoc by lia.
  - by rewrite list_lookup_insert_ne, !lookup_alter_if, !decide_False by done.
Qed.

Lemma name_loop pos s v con : ∀ q p,
  contents s !! pos = Some v → length (v_name v) = NAME_LIMIT → (length p + length q ≤ NAME_LIMIT)%nat →
  (p ++ q) `prefix_of` con →
  forM (seq (length p) (length q)) (λ j, c ← deref (con !! j); updv pos (vset_name j c)) (fill_name pos p s)
  = Ok tt (fill_name pos (p ++ q) s).
Proof.
  induction q as [|c q IH]; intros p Hv Hl Hp Hpre; simpl; [by rewrite app_nil_r|]. simpl in Hp.
  assert (con !! length p = Some c) as Hc.
  { destruct Hpre as [k ->]. rewrite <-app_assoc, lookup_app_r, Nat.sub_diag by lia. done. }
  rewrite Hc. unfold mbind, M_bind. simpl. rewrite (updv_fill_name pos p c s v) by (done || lia).
  specialize (IH (p ++ [c])). rewrite length_app, <-app_assoc in IH. simpl in IH.
  replace (S (length p)) with (length p + 1)%nat by lia. apply IH; [done|done|lia|done].
Qed.

Lemma equal_pos_spec name l n :
  61 ∉ name → (length name < n)%nat → equal_pos n (name ++ 61 :: l) = length name.
Proof.
  revert n. induction name as [|c name IH]; intros n Hn Hlt; destruct n as [|n]; simpl in *; try lia.
  apply not_elem_of_cons in Hn as [Hc Hn]. rewrite (proj2 (Z.eqb_neq c 61)) by done. f_equal. apply IH; [done|lia].
Qed.

(** Entries after the value of [pos] was set. *)
Lemma set_value_lookup pos w s i v' :
  env_ok s → (length w < CONTENT_LIMIT)%nat → contents (set_value pos w s) !! i = Some v' →
  ∃ v, contents s !! i = Some v ∧ var_name v' = var_name v ∧ var_ok v' ∧
    var_value v' = if decide (i = pos) then w else var_value v.
Proof.
  intros Hok Hw. unfold set_value. simpl. rewrite lookup_alter_if. destruct Hok as (_ & _ & Hall & _).
  rewrite Forall_lookup in Hall. rewrite lookup_alter_if. case_decide as E.
  - subst i. intros Hv'. destruct (contents s !! pos) as [v|] eqn:Hv; [|done].
    simpl in Hv'. injection Hv' as <-. destruct (Hall _ _ Hv) as (H1 & H2 & H3 & H4).
    exists v. split; [done|]. split; [done|]. rewrite decide_True by done. unfold var_ok, var_value. simpl. split.
    + rewrite length_splice by (rewrite length_app; simpl; lia). split_and!; try done; lia.
    + rewrite Nat2Z.id. unfold splice. simpl. rewrite <-app_assoc. by rewrite take_app_length.
  - intros Hv. exists v'. rewrite decide_False by congruence. split; [done|]. split; [done|]. split; [eauto|done].
Qed.

Lemma set_value_fields pos w s :
  varNum (set_value pos w s) = varNum s ∧ length (contents (set_value pos w s)) = length (contents s) ∧
  var_name <$> contents (set_value pos w s) = var_name <$> contents s.
Proof.
  split; [done|]. split; [unfold set_value; simpl; by rewrite !length_alter|].
  apply list_eq. intros i. rewrite !list_lookup_fmap. unfold set_value. simpl.
  rewrite lookup_alter_if. case_decide; [subst|]; rewrite lookup_alter_if; case_decide; try done.
  by destruct (contents s !! i).
Qed.

Lemma set_value_ok pos w s : env_ok s → (length w < CONTENT_LIMIT)%nat → env_ok (set_value pos w s).
Proof.
  intros Hok Hw. destruct (set_value_fields pos w s) as (Hn & Hl & Hnames). pose proof Hok as (H1 & H2 & H3 & H4).
  unfold env_ok. rewrite Hn, Hl, fmap_take, Hnames, <-fmap_take. split_and!; try done; try lia.
  apply Forall_lookup. intros i v Hi. by destruct (set_value_lookup _ _ _ _ _ Hok Hw Hi) as (_ & _ & _ & ? & _).
Qed.

Lemma lookup_var_unique s i v :
  env_ok s → (i < Z.to_nat (varNum s))%nat → contents s !! i = Some v → lookup_var s (var_name v) = Some (var_value v).
Proof.
  intros (_ & _ & _ & Hnd) Hi Hv. unfold lookup_var.
  destruct (List.find _ _) as [u|] eqn:E.
  - apply list_find_lookup in E as (j & Hj & Hu). apply bool_decide_eq_true in Hu. simpl. do 2 f_equal.
    rewrite NoDup_alt in Hnd. assert (j = i) as ->.
    { apply (Hnd j i (var_name v)); rewrite list_lookup_fmap; [by rewrite Hj; simpl; rewrite Hu|].
      by rewrite lookup_take_lt, Hv. }
    rewrite lookup_take_lt in Hj by done. congruence.
  - exfalso. assert (v ∈ take (Z.to_nat (varNum s)) (contents s)) as Hin%list_elem_of_In.
    { apply list_elem_of_lookup. exists i. by rewrite lookup_take_lt. }
    pose proof (List.find_none _ _ E v Hin) as Hf. by apply bool_decide_eq_false in Hf.
Qed.

(** [find] of a name. *)
Lemma find_name s con name :
  env_ok s → name `prefix_of` con →
  ∃ r, find con (Z.of_nat (length name)) s = Ok r s ∧
    ((r = -1 ∧ lookup_var s name = None ∧
        ∀ v, v ∈ take (Z.to_nat (varNum s)) (contents s) → var_name v ≠ name) ∨
     ∃ i v, r = Z.of_nat i ∧ (i < Z.to_nat (varNum s))%nat ∧ contents s !! i = Some v ∧ var_name v = name).
Proof.
  intros Hok [k Hk]. pose proof Hok as (_ & _ & Hall & _).
  destruct (find_loop_spec con (length name) (take (Z.to_nat (varNum s)) (contents s)) 0) as (r & Hr & Hcase).
  { by apply Forall_take. }
  { rewrite Hk, length_app. lia. }
  exists r. unfold find, mbind, M_bind, getM. rewrite Hr. split; [done|].
  rewrite Hk, take_app_length in Hcase. destruct Hcase as [[-> Hno]|(i & v & -> & Hi & Hv)].
  - left. split_and!; [done| |done]. unfold lookup_var. destruct (List.find _ _) as [u|] eqn:E; [|done].
    apply list_find_lookup in E as (j & Hj & Hu). apply bool_decide_eq_true in Hu. exfalso.
    eapply Hno; [by eapply list_elem_of_lookup_2|done].
  - right. apply lookup_take_Some in Hi as [Hi Hlt]. exists i, v. split_and!; [lia|done..].
Qed.

(** Any lookup after the value of entry [pos] was set. *)
Lemma lookup_set_value s pos v w name :
  env_ok s → (length w < CONTENT_LIMIT)%nat → (pos < Z.to_nat (varNum s))%nat → contents s !! pos = Some v →
  lookup_var (set_value pos w s) name = if decide (name = var_name v) then Some w else lookup_var s name.
Proof.
  intros Hok Hw Hpos Hv. pose proof (set_value_ok pos w s Hok Hw) as Hok'.
  pose proof (set_value_fields pos w s) as (Hn & Hl & Hnames).
  assert (Hent : ∀ i u, contents s !! i = Some u → ∃ u', contents (set_value pos w s) !! i = Some u' ∧
    var_name u' = var_name u ∧ var_value u' = if decide (i = pos) then w else var_value u).
  { intros i u Hu. destruct (lookup_lt_is_Some_2 (contents (set_value pos w s)) i) as [u' Hu'].
    { rewrite Hl. by eapply lookup_lt_Some. }
    destruct (set_value_lookup _ _ _ _ _ Hok Hw Hu') as (u0 & Hu0 & H1 & _ & H2).
    assert (u0 = u) as -> by congruence. eauto. }
  case_decide as E.
  - subst name. destruct (Hent pos v Hv) as (u' & Hu' & Hun & Huv). rewrite decide_True in Huv by done.
    rewrite <-Hun, (lookup_var_unique _ pos u'), Huv; done.
  - destruct (lookup_var s name) as [val|] eqn:El.
    + apply lookup_var_Some in El as (i & u & Hi & Hu & <- & <-). destruct (Hent i u Hu) as (u' & Hu' & Hun & Huv).
      rewrite decide_False in Huv by congruence. by rewrite <-Hun, (lookup_var_unique _ i u'), Huv.
    + destruct (lookup_var (set_value pos w s) name) as [val|] eqn:El'; [|done]. exfalso.
      apply lookup_var_Some in El' as (i & u' & Hi & Hu' & <- & _).
      destruct (set_value_lookup _ _ _ _ _ Hok Hw Hu') as (u & Hu & Hun & _).
      rewrite Hun, (lookup_var_unique _ i u) in El; done.
Qed.

(** A new entry named, not yet counted. *)
Definition set_name (pos : nat) (name : list Z) (s : enVars) : enVars :=
  mkVars (alter (vset_nameLength (Z.of_nat (length name))) pos (contents (fill_name pos (name ++ [0]) s)))
    (varNum s) (initiated s).

Lemma set_name_lookup pos name s i :
  contents (set_name pos name s) !! i = if decide (i = pos)
    then (λ v, mkVar (splice 0 (name ++ [0]) (v_name v)) (v_value v) (Z.of_nat (length name)) (v_size v)) <$> contents s !! i
    else contents s !! i.
Proof.
  unfold set_name. simpl. rewrite lookup_alter_if, lookup_alter_if.
  destruct (decide (pos = i)); destruct (decide (i = pos)); try congruence. by destruct (contents s !! i).
Qed.

Lemma set_name_ok s v name :
  env_ok s → let pos := Z.to_nat (varNum s) in contents s !! pos = Some v → (length name < NAME_LIMIT)%nat →
  env_ok (set_name pos name s) ∧
  (∃ v', contents (set_name pos name s) !! pos = Some v' ∧ var_name v' = name) ∧
  take pos (contents (set_name pos name s)) = take pos (contents s).
Proof.
  intros (H1 & H2 & H3 & H4) pos Hv Hn.
  assert (take pos (contents (set_name pos name s)) = take pos (contents s)) as Htake.
  { apply list_eq. intros i. destruct (decide (i < pos)%nat).
    - rewrite !lookup_take_lt, set_name_lookup, decide_False by lia. done.
    - rewrite !lookup_take_ge by lia. done. }
  rewrite Forall_lookup in H3. destruct (H3 pos v Hv) as (Hv1 & Hv2 & Hv3 & Hv4).
  split; [|split; [|done]].
  - unfold env_ok. simpl varNum. fold pos. rewrite Htake. split; [by unfold set_name; simpl; rewrite !length_alter|].
    split; [done|]. split; [|done]. apply Forall_lookup. intros i x. rewrite set_name_lookup. case_decide.
    + subst i. rewrite Hv. intros [= <-]. unfold var_ok. simpl.
      rewrite length_splice by (rewrite length_app; simpl; lia). split_and!; try done; lia.
    + apply H3.
  - rewrite set_name_lookup, decide_True, Hv by done. eexists. split; [done|]. unfold var_name. simpl.
    rewrite Nat2Z.id. unfold splice. simpl. rewrite <-app_assoc. apply take_app_length.
Qed.

(** The variables other than [name]. *)
Definition env_without (s : enVars) (name n : list Z) : option (list Z) :=
  if bool_decide (n = name) then None else lookup_var s n.

Lemma sys_get_spec s name r w :
  env_ok s → lookup_var s name = Some w →
  sys_get (name ++ r) (length name) s = Ok (0, w ++ [0]) s.
Proof.
  intros Hok Hl. destruct (find_name s (name ++ r) name Hok) as (x & Hf & Hcase); [by eexists|].
  unfold sys_get, mbind, M_bind. rewrite Hf. destruct Hcase as [(-> & Hn & _)|(i & v & -> & Hi & Hv & Hvn)]; [congruence|].
  rewrite (proj2 (Z.eqb_neq _ _)) by lia. simpl. unfold getv. rewrite Nat2Z.id, Hv.
  rewrite <-Hvn, (lookup_var_unique s i v) in Hl by done. injection Hl as <-. done.
Qed.

(** [sys_set] of a name that has an entry. *)
Lemma sys_set_old s con len name i v val w :
  env_ok s → (length name < len)%nat → initiated s = true → 61 ∉ name → (length name < NAME_LIMIT - 1)%nat →
  con = name ++ 61 :: val → (i < Z.to_nat (varNum s))%nat → contents s !! i = Some v → var_name v = name →
  expand (S (length val)) (env_without s name) val = Some w → (length w < CONTENT_LIMIT)%nat →
  sys_set con len s = Ok 0 (set_value i w s).
Proof.
  intros Hok Hlen0 Hi0 Hn61 Hnl -> Hi Hv Hvn Hex Hw.
  unfold sys_set. rewrite equal_pos_spec by (done || lia). unfold mbind, M_bind, mret, M_ret, getM. rewrite Hi0. cbv beta iota delta [negb].
  rewrite (proj2 (Nat.leb_gt _ _)) by lia.
  destruct (find_name s (name ++ 61 :: val) name Hok) as (r & Hf & Hcase); [by eexists|]. rewrite Hf.
  destruct Hcase as [(_ & _ & Hno)|(j & u & -> & Hj & Hu & Hun)].
  { exfalso. eapply Hno; [|exact Hvn]. apply list_elem_of_lookup. exists i. by rewrite lookup_take_lt. }
  assert (j = i) as ->.
  { destruct Hok as (_ & _ & _ & Hnd). rewrite NoDup_alt in Hnd.
    apply (Hnd j i name); rewrite list_lookup_fmap, lookup_take_lt by done; [rewrite Hu|rewrite Hv]; simpl; congruence. }
  rewrite (proj2 (Z.eqb_neq _ _)) by lia. rewrite Nat2Z.id.
  replace (drop (length name + 1) (name ++ 61 :: val)) with val.
  2: { by rewrite drop_app_ge, Nat.add_comm, Nat.add_sub by lia. }
  unfold changeEnVar. pose proof (changeEnVar_spec i s v (S (length val)) val [] w Hok Hv) as Hc.
  rewrite fill_nil in Hc. change (Z.of_nat (length (@nil Z))) with 0 in Hc. rewrite Hc; [done| |simpl; lia].
  rewrite <-Hex. apply expand_ext. intros n. unfold other_vars, env_without. rewrite Hv, (proj2 (Nat.ltb_lt _ _) Hi).
  simpl. rewrite Hvn. by rewrite (bool_decide_ext (name = n) (n = name)).
Qed.

(** [sys_set] of a new name. *)
Lemma sys_set_new s con len name val w :
  env_ok s → (length name < len)%nat → initiated s = true → 61 ∉ name → (length name < NAME_LIMIT - 1)%nat →
  con = name ++ 61 :: val → lookup_var s name = None → varNum s < Z.of_nat VAR_LIMIT →
  expand (S (length val)) (env_without s name) val = Some w → (length w < CONTENT_LIMIT)%nat →
  let pos := Z.to_nat (varNum s) in
  let s1 := set_value pos w (set_name pos name s) in
  sys_set con len s = Ok 0 (mkVars (contents s1) (varNum s + 1) true).
Proof.
  intros Hok Hlen0 Hi0 Hn61 Hnl -> Hnone Hroom Hex Hw pos s1.
  pose proof Hok as (Hlen & Hvn & Hall & _).
  destruct (lookup_lt_is_Some_2 (contents s) pos) as [v Hv]; [unfold pos; lia|].
  assert (var_ok v) as (Hvl & _) by (rewrite Forall_lookup in Hall; eauto).
  destruct (set_name_ok s v name Hok Hv) as (Hok1 & (v' & Hv' & Hv'n) & Htake); [lia|]. fold pos in Hok1, Hv', Htake.
  unfold sys_set. rewrite equal_pos_spec by (done || lia). unfold mbind, M_bind, mret, M_ret, getM. rewrite Hi0. cbv beta iota delta [negb].
  rewrite (proj2 (Nat.leb_gt _ _)) by lia.
  destruct (find_name s (name ++ 61 :: val) name Hok) as (r & Hf & Hcase); [by eexists|]. rewrite Hf.
  destruct Hcase as [(-> & _)|(j & u & _ & Hj & Hu & Hun)].
  2: { rewrite <-Hun, (lookup_var_unique s j u) in Hnone; done. }
  rewrite Z.eqb_refl. unfold gets. rewrite (proj2 (Z.eqb_neq _ _)) by lia. fold pos.
  pose proof (name_loop pos s v (name ++ 61 :: val) name [] Hv Hvl) as Hloop. simpl in Hloop.
  rewrite fill_name_nil in Hloop. unfold mbind, M_bind in Hloop. rewrite Hloop by (lia || by eexists).
  rewrite (updv_fill_name pos name 0 s v) by (done || lia).
  assert (updv pos (vset_nameLength (Z.of_nat (length name))) (fill_name pos (name ++ [0]) s) = Ok tt (set_name pos name s)) as ->.
  { unfold updv. assert (is_Some (contents (fill_name pos (name ++ [0]) s) !! pos)) as [x Hx].
    { unfold fill_name. simpl. rewrite lookup_alter_if, decide_True, Hv by done. by eexists. }
    rewrite Hx. unfold set_name. do 2 f_equal. symmetry. by apply alter_insert. }
  replace (drop (length name + 1) (name ++ 61 :: val)) with val.
  2: { by rewrite drop_app_ge, Nat.add_comm, Nat.add_sub by lia. }
  pose proof (changeEnVar_spec pos (set_name pos name s) v' (S (length val)) val [] w Hok1 Hv') as Hc.
  rewrite fill_nil in Hc. change (Z.of_nat (length (@nil Z))) with 0 in Hc.
  unfold changeEnVar. rewrite Hc; [|rewrite <-Hex; apply expand_ext|simpl; lia].
  - unfold set_varNum, modify. simpl. by rewrite Hi0.
  - intros n. unfold other_vars, env_without. rewrite Hv'. simpl varNum.
    rewrite (proj2 (Nat.ltb_ge _ _)) by (unfold pos; lia). simpl.
    assert (lookup_var (set_name pos name s) n = lookup_var s n) as ->.
    { unfold lookup_var. simpl varNum. fold pos. by rewrite Htake. }
    case_bool_decide; [by subst|done].
Qed.

(** Counting a new entry. *)
Lemma count_new s v name :
  env_ok s → initiated s = true → varNum s < Z.of_nat VAR_LIMIT → (length name < NAME_LIMIT)%nat → lookup_var s name = None →
  let pos := Z.to_nat (varNum s) in contents s !! pos = Some v →
  let s2 := mkVars (contents (set_name pos name s)) (varNum s + 1) true in
  env_ok s2 ∧ (∃ v', contents s2 !! pos = Some v' ∧ var_name v' = name) ∧
  ∀ n, n ≠ name → lookup_var s2 n = lookup_var s n.
Proof.
  intros Hok Hi Hroom Hn Hnone pos Hv s2.
  destruct (set_name_ok s v name Hok Hv Hn) as ((H1 & H2 & H3 & H4) & (v' & Hv' & Hv'n) & Htake).
  fold pos in H1, H2, H3, H4, Hv', Htake.
  assert (Htk : take (Z.to_nat (varNum s + 1)) (contents s2) = take pos (contents s) ++ [v']).
  { replace (Z.to_nat (varNum s + 1)) with (S pos) by (unfold pos; destruct Hok as (_ & ? & _); lia).
    cbn [contents s2]. rewrite (take_S_r _ _ v') by done. by rewrite Htake. }
  split; [|split].
  - unfold env_ok. cbn [varNum s2]. rewrite Htk. split; [done|]. split; [destruct Hok as (_ & ? & _); lia|].
    split; [done|]. rewrite fmap_app. simpl. apply NoDup_app. split_and!; [by destruct Hok as (_&_&_&?)| |apply NoDup_singleton].
    intros x Hx ->%list_elem_of_singleton. apply list_elem_of_fmap in Hx as (u & Hu & Hin).
    apply list_elem_of_lookup in Hin as [j Hj]. apply lookup_take_Some in Hj as [Hj Hlt].
    rewrite <-Hv'n, Hu, (lookup_var_unique s j u) in Hnone; done.
  - exists v'. done.
  - intros n Hne. unfold lookup_var. cbn [varNum s2]. rewrite Htk. fold pos. clear Htk Htake H4.
    induction (take pos (contents s)) as [|u l IH]; simpl.
    + rewrite bool_decide_false by congruence. done.
    + case_bool_decide; [done|]. apply IH.
Qed.

(** environment variables behave as a map with expansion. [sys_set] of
    "name=text" makes [name] stand for the text with every ${x} replaced by
    the value of [x], for any other defined variable [x]; [sys_get] returns it
    afterwards, every other variable keeps its value, and the table stays well
    formed: no overflow of a name or a value, no name twice. *)
Theorem env_set_get s name val len w r :
  env_ok s → initiated s = true → (length name < len)%nat → 61 ∉ name → (length name < NAME_LIMIT - 1)%nat →
  lookup_var s name ≠ None ∨ varNum s < Z.of_nat VAR_LIMIT →
  expand (S (length val)) (env_without s name) val = Some w → (length w < CONTENT_LIMIT)%nat →
  ∃ s', sys_set (name ++ 61 :: val) len s = Ok 0 s' ∧ env_ok s' ∧
    sys_get (name ++ r) (length name) s' = Ok (0, w ++ [0]) s' ∧
    ∀ n, n ≠ name → lookup_var s' n = lookup_var s n.
Proof.
  intros Hok Hinit Hlen H61 Hnl Hroom Hex Hw.
  destruct (lookup_var s name) as [w0|] eqn:El.
  - apply lookup_var_Some in El as (i & v & Hi & Hv & Hvn & _).
    exists (set_value i w s). pose proof (set_value_ok i w s Hok Hw) as Hok'.
    split; [by eapply sys_set_old|]. split; [done|]. split.
    + apply sys_get_spec; [done|]. by rewrite (lookup_set_value s i v) , decide_True.
    + intros n Hn. by rewrite (lookup_set_value s i v), decide_False by congruence.
  - destruct Hroom as [?|Hroom]; [done|]. pose proof Hok as (Hcl & Hvn & _).
    destruct (lookup_lt_is_Some_2 (contents s) (Z.to_nat (varNum s))) as [v Hv]; [lia|].
    destruct (count_new s v name Hok Hinit Hroom ltac:(lia) El Hv) as (Hok2 & (v' & Hv' & Hv'n) & Hother).
    set (pos := Z.to_nat (varNum s)) in *. set (s2 := mkVars (contents (set_name pos name s)) (varNum s + 1) true) in *.
    exists (set_value pos w s2). split; [by erewrite sys_set_new|]. split; [by apply set_value_ok|].
    assert (Hpos : (pos < Z.to_nat (varNum s2))%nat) by (simpl; unfold pos; lia). split.
    + apply sys_get_spec; [by apply set_value_ok|]. by rewrite (lookup_set_value s2 pos v'), decide_True.
    + intros n Hn. rewrite (lookup_set_value s2 pos v'), decide_False by congruence. by apply Hother.
Qed.

Definition env1 : enVars := mkVars (replicate VAR_LIMIT zero_var) 0 true.

Lemma env1_ok : env_ok env1.
Proof.
  split; [done|]. split; [simpl; lia|]. split; [|constructor].
  apply Forall_replicate. split_and!; try done; simpl; lia.
Qed.

(** "A=xy" *)
Lemma env_set_get_witness :
  ∃ s', sys_set [65; 61; 120; 121; 0] 4 env1 = Ok 0 s' ∧ sys_get [65; 0] 1 s' = Ok (0, [120; 121; 0]) s'.
Proof.
  destruct (env_set_get env1 [65] [120; 121; 0] 4 [120; 121] [0]) as (s' & H1 & _ & H2 & _).
  - exact env1_ok.
  - reflexivity.
  - simpl. lia.
  - set_solver by lia.
  - apply Nat.ltb_lt. reflexivity.
  - right. reflexivity.
  - vm_compute. reflexivity.
  - apply Nat.ltb_lt. reflexivity.
  - exists s'. exact (conj H1 H2).
Defined.

(** A value that refers to its own variable is read while it is overwritten:
    after "X=bc", setting "X=a${X}" gives "aaa", not "abc". *)
Theorem env_self_reference :
  ∃ s1 s2, sys_set [88; 61; 98; 99; 0] 4 env1 = Ok 0 s1 ∧
    sys_set [88; 61; 97; 36; 123; 88; 125; 0] 7 s1 = Ok 0 s2 ∧
    sys_get [88; 0] 1 s2 = Ok (0, [97; 97; 97; 0]) s2.
Proof. eexists _, _. split; [vm_compute; reflexivity|]. split; vm_compute; reflexivity. Qed.

(** [sys_set] reports success even when the value refers to a variable that
    does not exist: the new variable is counted, with an empty value. *)
Theorem env_unknown_reference :
  ∃ s1, sys_set [89; 61; 36; 123; 90; 125; 0] 6 env1 = Ok 0 s1 ∧ varNum s1 = 1 ∧
    sys_get [89; 0] 1 s1 = Ok (0, [0]) s1.
Proof. eexists. split; [vm_compute; reflexivity|]. split; vm_compute; reflexivity. Qed.
