(* ===== verification/Sh.v ===== *)
(** * The shell's parser (sh.c)

    The command line is the array [buf] with its terminator at index [es], and
    a pointer into it is an index. The state of the parser is the variable that
    [ps] points to. A call of [panic] prints its message and ends the shell. *)

From S2P Require Import Prelude.

Definition MAXARGS : nat := 10.
#[global] Arguments MAXARGS : simpl never.
(** O_RDONLY and O_WRONLY|O_CREATE of fcntl.h. *)
Definition RD_MODE : Z := 0.
Definition WR_MODE : Z := Z.lor 1 0x200.

(** [struct cmd] and its variants; a string is its start and its end. *)
Inductive cmd :=
| EXEC (args : list (nat * nat))
| REDIR (c : cmd) (file : nat) (efile : nat) (mode fd : Z)
| PIPE (left right : cmd)
| LIST (left right : cmd)
| BACK (c : cmd).

(** The functions that allocate the commands; malloc does not fail here. *)
Definition execcmd : cmd := EXEC [].
Definition redircmd (subcmd : cmd) (file efile : nat) (mode fd : Z) : cmd := REDIR subcmd file efile mode fd.
Definition pipecmd (left right : cmd) : cmd := PIPE left right.
Definition listcmd (left right : cmd) : cmd := LIST left right.
Definition backcmd (subcmd : cmd) : cmd := BACK subcmd.

(** [strchr(set, c)] for a character [c] of the line: the terminator of the set
    is not a member of it. *)
Definition in_set (set : list Z) (c : Z) : bool := existsb (Z.eqb c) set.
#[global] Arguments in_set : simpl never.
Definition whitespace : list Z := [32; 9; 13; 10; 11].
(** The characters < | > & ; ( ) *)
Definition symbols : list Z := [60; 124; 62; 38; 59; 40; 41].

Section parser.
Context (buf : list Z) (es : nat).

Definition rd {S} (s : nat) : M S Z := deref (buf !! s).

(** [while(s < es && strchr(whitespace, *s)) s++]; [n] is [es - s]. *)
Fixpoint skip_ws (n s : nat) : nat :=
  match n with
  | O => s
  | S n' =>
      match buf !! s with
      | Some c => if in_set whitespace c then skip_ws n' (S s) else s
      | None => s
      end
  end.
(** The loop over the characters of a word. *)
Fixpoint skip_word (n s : nat) : nat :=
  match n with
  | O => s
  | S n' =>
      match buf !! s with
      | Some c => if negb (in_set whitespace c) && negb (in_set symbols c) then skip_word n' (S s) else s
      | None => s
      end
  end.

(** Returns the kind of the token and its bounds; 97 is 'a', 43 is '+'. *)
Definition gettoken : M nat (Z * nat * nat) :=
  s ← getM;
  let s := skip_ws (es - s) s in
  let q := s in
  c ← rd s;
  r ← (if c =? 0 then mret (0, s)
       else if in_set [124; 40; 41; 59; 38; 60] c then mret (c, S s)
       else if c =? 62 then
         c' ← rd (S s);
         mret (if c' =? 62 then (43, S (S s)) else (c, S s))
       else mret (97, skip_word (es - s) s));
  let eq := r.2 in
  putM (skip_ws (es - eq) eq);;
  mret (r.1, q, eq).

Definition peek (toks : list Z) : M nat bool :=
  s ← getM;
  let s := skip_ws (es - s) s in
  putM s;;
  c ← rd s;
  mret (negb (c =? 0) && in_set toks c).

(** The loop of [parseredirs]; every round consumes a token. *)
Fixpoint parseredirs_loop (n : nat) (c : cmd) : M nat cmd :=
  p ← peek [60; 62];
  if negb p then mret c else
  match n with
  | O => stopM NoFuel
  | S n' =>
      tok ← gettoken;
      f ← gettoken;
      if negb (f.1.1 =? 97) then panic "missing file for redirection" else
      let '(q, eq) := (f.1.2, f.2) in
      parseredirs_loop n'
        (if tok.1.1 =? 60 then redircmd c q eq RD_MODE 0
         else if tok.1.1 =? 62 then redircmd c q eq WR_MODE 1
         else if tok.1.1 =? 43 then redircmd c q eq WR_MODE 1
         else c)
  end.
Definition parseredirs (c : cmd) : M nat cmd := s ← getM; parseredirs_loop (es - s) c.

(** [cmd] of [parseexec] points to the command below the redirections of
    [ret]. *)
Fixpoint add_arg (a : nat * nat) (ret : cmd) : cmd :=
  match ret with
  | EXEC args => EXEC (args ++ [a])
  | REDIR c f e m fd => REDIR (add_arg a c) f e m fd
  | _ => ret
  end.

(** The loop of [parseexec]. *)
Fixpoint parseargs (n : nat) (argc : nat) (ret : cmd) : M nat cmd :=
  p ← peek [124; 41; 38; 59];
  if (p : bool) then mret ret else
  tok ← gettoken;
  if tok.1.1 =? 0 then mret ret else
  if negb (tok.1.1 =? 97) then panic "syntax" else
  if (MAXARGS <=? S argc)%nat then panic "too many args" else
  ret ← parseredirs (add_arg (tok.1.2, tok.2) ret);
  match n with
  | O => stopM NoFuel
  | S n' => parseargs n' (S argc) ret
  end.

(** The loop of [parseline] over the & signs. *)
Fixpoint parsebacks (n : nat) (c : cmd) : M nat cmd :=
  p ← peek [38];
  if negb p then mret c else
  match n with
  | O => stopM NoFuel
  | S n' => gettoken;; parsebacks n' (backcmd c)
  end.

(** The nested calls; [n] bounds their depth. *)
Fixpoint parseline (n : nat) : M nat cmd :=
  match n with
  | O => stopM NoFuel
  | S n' =>
      c ← parsepipe n';
      s ← getM;
      c ← parsebacks (es - s) c;
      p ← peek [59];
      if negb p then mret c else
      gettoken;;
      r ← parseline n';
      mret (listcmd c r)
  end
with parsepipe (n : nat) : M nat cmd :=
  match n with
  | O => stopM NoFuel
  | S n' =>
      c ← parseexec n';
      p ← peek [124];
      if negb p then mret c else
      gettoken;;
      r ← parsepipe n';
      mret (pipecmd c r)
  end
with parseexec (n : nat) : M nat cmd :=
  match n with
  | O => stopM NoFuel
  | S n' =>
      p ← peek [40];
      if (p : bool) then parseblock n' else
      ret ← parseredirs execcmd;
      s ← getM;
      parseargs (es - s) 0 ret
  end
with parseblock (n : nat) : M nat cmd :=
  match n with
  | O => stopM NoFuel
  | S n' =>
      p ← peek [40];
      if negb p then panic "parseblock" else
      gettoken;;
      c ← parseline n';
      p ← peek [41];
      if negb p then panic "syntax - missing )" else
      gettoken;;
      parseredirs c
  end.

(** [parsecmd], up to [nulterminate]. A nesting level of parentheses takes four
    calls. *)
Definition parse_top : M nat cmd :=
  c ← parseline (4 * es + 4);
  peek [];;
  s ← getM;
  if negb (s =? es)%nat then panic "syntax" else mret c.

End parser.

(** The ends of the strings of a command, where [nulterminate] stores a
    terminator, in order. *)
Fixpoint ends (c : cmd) : list nat :=
  match c with
  | EXEC args => map snd args
  | REDIR c _ efile _ _ => ends c ++ [efile]
  | PIPE l r => ends l ++ ends r
  | LIST l r => ends l ++ ends r
  | BACK c => ends c
  end.
Definition nulterminate (c : cmd) (buf : list Z) : option (list Z) :=
  foldl (λ b e, b ← b; if (e <? length b)%nat then Some (<[e := 0]> b) else None) (Some buf) (ends c).

(** The string at the start of [s], with its length for [es]. *)
Definition parsecmd (s : list Z) : res nat (cmd * list Z) :=
  let es := (length s - 1)%nat in
  match parse_top s es 0%nat with
  | Ok c p => match nulterminate c s with Some b => Ok (c, b) p | None => Err Undef p end
  | Err e p => Err e p
  end.

(** A member of a list given by its elements. *)
Ltac elem_cases H :=
  repeat (apply elem_of_cons in H as [->|H]); [..|by apply elem_of_nil in H].

(** ** Safety of the parser *)

(** [safe m Q s]: [m] returns in [Q] or ends in a call of [panic]; it does not
    leave the line and does not run out of fuel. *)
Definition safe {S A} (m : M S A) (Q : A → S → Prop) (s : S) : Prop :=
  match m s with Ok a s' => Q a s' | Err (Panic _) _ => True | Err _ _ => False end.

Lemma safe_ret {S A} (a : A) Q (s : S) : Q a s → safe (mret a) Q s.
Proof. done. Qed.
Lemma safe_bind {S A B} (m : M S A) (f : A → M S B) Q (s : S) :
  safe m (λ a s', safe (f a) Q s') s → safe (m ≫= f) Q s.
Proof. unfold safe, mbind, M_bind. by destruct (m s). Qed.
Lemma safe_mono {S A} (m : M S A) (Q Q' : A → S → Prop) s :
  safe m Q s → (∀ a s', Q a s' → Q' a s') → safe m Q' s.
Proof. unfold safe. destruct (m s) as [|[]]; naive_solver. Qed.
Lemma safe_panic {S A} msg (Q : A → S → Prop) s : safe (panic msg) Q s.
Proof. done. Qed.
Lemma safe_get {S} (Q : S → S → Prop) s : Q s s → safe getM Q s.
Proof. done. Qed.
Create HintDb safe.
#[export] Hint Resolve safe_ret safe_panic safe_get : safe.

(** A character of a word. *)
Definition wordc (c : Z) : bool := negb (in_set whitespace c) && negb (in_set symbols c) && negb (c =? 0).

Section safety.
Context (buf : list Z) (es : nat).
Hypothesis Hend : buf !! es = Some 0.
Hypothesis Hline : ∀ i, (i < es)%nat → ∃ c, buf !! i = Some c ∧ c ≠ 0.

Definition char_at (P : Z → bool) (i : nat) : Prop := ∃ c, buf !! i = Some c ∧ P c = true.

(** A word: a maximal run of word characters to the right. *)
Definition word_at (q eq : nat) : Prop :=
  (q < eq <= es)%nat ∧ (∀ i, (q <= i < eq)%nat → char_at wordc i) ∧ ¬ char_at wordc eq.

(** Every string of a command is a word of the line. *)
Fixpoint cmd_ok (c : cmd) : Prop :=
  match c with
  | EXEC args => Forall (λ a, word_at a.1 a.2) args
  | REDIR c f e _ _ => cmd_ok c ∧ word_at f e
  | PIPE l r | LIST l r => cmd_ok l ∧ cmd_ok r
  | BACK c => cmd_ok c
  end.

Lemma skip_ws_spec n : ∀ s, (n = es - s → s <= es →
  s <= skip_ws buf n s <= es ∧ ¬ char_at (in_set whitespace) (skip_ws buf n s))%nat.
Proof.
  induction n as [|n IH]; intros s Hn Hs; simpl.
  - assert (s = es) as -> by lia. split; [lia|]. intros (c & Hc & Hw). rewrite Hend in Hc. by simplify_eq.
  - destruct (Hline s) as (c & Hc & _); [lia|]. rewrite Hc. destruct (in_set whitespace c) eqn:Hw.
    + destruct (IH (S s)) as [? ?]; [lia..|]. split; [lia|done].
    + split; [lia|]. intros (c' & Hc' & ?). congruence.
Qed.

Lemma skip_ws_id n s c : buf !! s = Some c → in_set whitespace c = false → skip_ws buf n s = s.
Proof. intros Hc Hw. destruct n; simpl; [done|]. by rewrite Hc, Hw. Qed.

Lemma skip_word_spec n : ∀ s, (n = es - s → s <= es →
  s <= skip_word buf n s <= es ∧ (∀ i, s <= i < skip_word buf n s → char_at wordc i) ∧
  ¬ char_at wordc (skip_word buf n s))%nat.
Proof.
  assert (Hes : ¬ char_at wordc es).
  { intros (c & Hc & Hw). rewrite Hend in Hc. by simplify_eq. }
  induction n as [|n IH]; intros s Hn Hs; simpl.
  - assert (s = es) as -> by lia. split; [lia|]. split; [lia|done].
  - destruct (Hline s) as (c & Hc & H0); [lia|]. rewrite Hc. destruct (_ && _) eqn:Hw.
    + destruct (IH (S s)) as (? & Hin & ?); [lia..|]. split; [lia|]. split; [|done]. intros i Hi.
      destruct (decide (i = s)) as [->|]; [|apply Hin; lia]. exists c. split; [done|].
      unfold wordc. by rewrite Hw, (proj2 (Z.eqb_neq c 0)).
    + split; [lia|]. split; [lia|]. intros (c' & Hc' & Hw'). rewrite Hc in Hc'. simplify_eq.
      unfold wordc in Hw'. by rewrite Hw in Hw'.
Qed.

Lemma safe_rd s (Q : Z → nat → Prop) s0 :
  (s <= es)%nat → (∀ c, buf !! s = Some c → (c = 0 ∧ s = es) ∨ (c ≠ 0 ∧ (s < es)%nat) → Q c s0) → safe (rd buf s) Q s0.
Proof.
  intros Hs HQ. unfold rd. destruct (decide (s = es)) as [->|Hne].
  - rewrite Hend. apply HQ; [done|by left].
  - destruct (Hline s) as (c & Hc & H0); [lia|]. rewrite Hc. apply HQ; [done|]. right. split; [done|lia].
Qed.

(** What a token is: the terminator, a word, or symbols. *)
Definition token_ok (s : nat) (t : Z * nat * nat) (s' : nat) : Prop :=
  let '(tok, q, eq) := t in
  (s <= q <= eq)%nat ∧ (eq <= s' <= es)%nat ∧ (tok = 0 → q = es) ∧ (tok ≠ 0 → (s < s')%nat) ∧ (tok = 97 → word_at q eq).

Lemma gettoken_safe s : (s <= es)%nat → safe (gettoken buf es) (token_ok s) s.
Proof.
  intros Hs. unfold gettoken. apply safe_bind, safe_get.
  destruct (skip_ws_spec (es - s) s) as [Hq Hnw]; [lia..|].
  set (q := skip_ws buf (es - s) s) in *.
  apply safe_bind, safe_rd; [lia|]. intros c Hc Hcase.
  assert (Hfin : ∀ tok eq, (q <= eq <= es)%nat → (tok = 0 → q = es) → (tok ≠ 0 → (q < eq)%nat) → (tok = 97 → word_at q eq) →
    safe (r ← mret (tok, eq); putM (skip_ws buf (es - r.2) r.2);; mret (r.1, q, r.2)) (token_ok s) q).
  { intros tok eq Heq H1 H2 H3. apply safe_bind, safe_ret, safe_bind. simpl. unfold safe. simpl.
    destruct (skip_ws_spec (es - eq) eq) as [? _]; [lia..|].
    split; [lia|]. split; [lia|]. split; [done|]. split; [intros ?%H2; lia|done]. }
  unfold safe in Hfin |- *. simpl in Hfin |- *. unfold mbind, M_bind in *.
  destruct (Z.eqb_spec c 0) as [->|H0].
  { apply (Hfin 0 q); lia. }
  destruct Hcase as [[? _]|[_ Hlt]]; [done|].
  destruct (in_set [124; 40; 41; 59; 38; 60] c) eqn:Hsym.
  { apply (Hfin c (S q)); try lia. intros ->. by vm_compute in Hsym. }
  destruct (Z.eqb_spec c 62) as [->|H62].
  { pose proof (safe_rd (S q) (λ c' s', s' = s ∧ (c' = 62 → (S q < es)%nat)) s) as Hr.
    unfold safe in Hr. destruct (rd buf (S q) s) as [c' s'|e s'].
    - destruct Hr as [-> Hr]; [lia|intros c1 _ [[? ?]|[? ?]]; split; done || lia|].
      destruct (Z.eqb_spec c' 62) as [->|]; [specialize (Hr eq_refl); apply (Hfin 43 (S (S q))); lia|].
      apply (Hfin 62 (S q)); lia.
    - destruct e; try done; (apply Hr; [lia|]); intros c1 _ [[? ?]|[? ?]]; split; done || lia. }
  destruct (skip_word_spec (es - q) q) as (Hw1 & Hw2 & Hw3); [lia..|].
  assert (Hwc : char_at wordc q).
  { exists c. split; [done|]. unfold wordc. rewrite (proj2 (Z.eqb_neq c 0)), andb_true_r by done.
    apply andb_true_iff. split; apply negb_true_iff.
    - destruct (in_set whitespace c) eqn:E; [|done]. destruct Hnw. by exists c.
    - destruct (in_set symbols c) eqn:E; [|done]. exfalso. unfold in_set, symbols in E, Hsym. simpl in E, Hsym.
      rewrite !orb_true_iff, !Z.eqb_eq in E. rewrite !orb_false_iff, !Z.eqb_neq in Hsym. lia. }
  assert (Hpos : (q < skip_word buf (es - q) q)%nat).
  { destruct (decide (skip_word buf (es - q) q = q)) as [E|]; [|lia]. by rewrite E in Hw3. }
  apply (Hfin 97 (skip_word buf (es - q) q)); try lia. intros _. split; [lia|]. split; [done|done].
Qed.

Lemma peek_safe toks s (Q : bool → nat → Prop) :
  (s <= es)%nat → (∀ b s', (s <= s' <= es)%nat → (b = true → (s' < es)%nat ∧
    ∃ c, buf !! s' = Some c ∧ c ≠ 0 ∧ in_set toks c = true ∧ in_set whitespace c = false) → Q b s') →
  safe (peek buf es toks) Q s.
Proof.
  intros Hs HQ. unfold peek. apply safe_bind, safe_get.
  destruct (skip_ws_spec (es - s) s) as [Hq Hnw]; [lia..|].
  apply safe_bind. unfold safe at 1. simpl. apply safe_bind, safe_rd; [lia|]. intros c Hc Hcase.
  apply safe_ret, HQ; [lia|]. intros Hb. apply andb_true_iff in Hb as [H0 Hin].
  apply negb_true_iff, Z.eqb_neq in H0. destruct Hcase as [[? _]|[_ ?]]; [done|]. split; [done|].
  exists c. split_and!; [done..|]. destruct (in_set whitespace c) eqn:E; [|done]. destruct Hnw. by exists c.
Qed.

(** After a successful [peek] a token is consumed. *)
Lemma gettoken_after_peek toks s :
  (s < es)%nat → (∃ c, buf !! s = Some c ∧ c ≠ 0 ∧ in_set toks c = true ∧ in_set whitespace c = false) →
  safe (gettoken buf es) (λ t s', token_ok s t s' ∧ (s < s')%nat) s.
Proof.
  intros Hs (c & Hc & H0 & _ & Hw). pose proof (gettoken_safe s ltac:(lia)) as Hg.
  unfold safe in *. destruct (gettoken buf es s) as [[[tok q] eq] s'|] eqn:E; [|done].
  split; [done|]. destruct Hg as (_ & _ & Ht0 & Ht1 & _). apply Ht1. intros ->.
  unfold gettoken, mbind, M_bind, mret, M_ret, getM, rd in E. rewrite (skip_ws_id _ s c Hc Hw), Hc in E. simpl in E.
  rewrite (proj2 (Z.eqb_neq c 0)) in E by done.
  destruct (in_set [124; 40; 41; 59; 38; 60] c); [simpl in E; by simplify_eq|].
  destruct (Z.eqb_spec c 62) as [->|].
  - unfold deref in E. destruct (buf !! S s) as [c'|]; [|done]. simpl in E. by destruct (c' =? 62).
  - by simpl in E.
Qed.

Lemma cmd_ok_redir c q eq m fd : cmd_ok c → word_at q eq → cmd_ok (REDIR c q eq m fd).
Proof. done. Qed.

(** What every parsing function promises: it goes on from where it was, inside
    the line, and the strings of its command are words. *)
Definition parses (s : nat) (c : cmd) (s' : nat) : Prop := (s <= s' <= es)%nat ∧ cmd_ok c.

Lemma parseredirs_loop_safe n : ∀ c s, (es - s <= n)%nat → (s <= es)%nat → cmd_ok c →
  safe (parseredirs_loop buf es n c) (parses s) s.
Proof.
  induction n as [|n IH]; intros c s Hn Hs Hc; cbn [parseredirs_loop]; apply safe_bind, peek_safe; [done| |done|];
    intros b s1 Hs1 Hb; (destruct b; [destruct (Hb eq_refl) as [Hlt Hch]|apply safe_ret; split; [lia|done]]); simpl; [lia|].
  apply safe_bind. eapply safe_mono; [by eapply gettoken_after_peek|]. intros [[tok q0] eq0] s2 [(_ & Hs2 & _) Hlt2].
  apply safe_bind. eapply safe_mono; [apply gettoken_safe; lia|]. intros [[t2 q] eq] s3 (Hq & Hs3 & _ & Hpos & Hword).
  simpl. destruct (Z.eqb_spec t2 97) as [->|]; simpl; [|apply safe_panic].
  eapply safe_mono; [apply IH; [lia|lia|]|].
  - specialize (Hword eq_refl). repeat case_match; try done; by apply cmd_ok_redir.
  - intros c' s4 [? ?]. split; [lia|done].
Qed.

Lemma parseredirs_safe c s : (s <= es)%nat → cmd_ok c → safe (parseredirs buf es c) (parses s) s.
Proof. intros. unfold parseredirs. apply safe_bind, safe_get. by apply parseredirs_loop_safe. Qed.

Lemma add_arg_ok a c : cmd_ok c → word_at a.1 a.2 → cmd_ok (add_arg a c).
Proof.
  intros Hc Ha. induction c; simpl in *; try done; [|by destruct Hc; auto].
  apply Forall_app. split; [done|by apply Forall_singleton].
Qed.

Lemma parseargs_safe n : ∀ argc ret s, (es - s <= n)%nat → (s <= es)%nat → cmd_ok ret →
  safe (parseargs buf es n argc ret) (parses s) s.
Proof.
  induction n as [|n IH]; intros argc ret s Hn Hs Hret; cbn [parseargs]; apply safe_bind, peek_safe; [done| |done|];
    intros b s1 Hs1 _; (destruct b; [apply safe_ret; split; [lia|done]|]);
    apply safe_bind; (eapply safe_mono; [apply gettoken_safe; lia|]); intros [[tok q] eq] s2 (Hq & Hs2 & _ & Hpos & Hword); cbn [fst snd];
    (destruct (Z.eqb_spec tok 0) as [->|Htok]; [apply safe_ret; split; [lia|done]|]);
    (destruct (Z.eqb_spec tok 97) as [->|]; cbn [negb]; [|apply safe_panic]);
    specialize (Hpos ltac:(done)); specialize (Hword eq_refl); [lia|].
  destruct (MAXARGS <=? S argc)%nat; [apply safe_panic|].
  apply safe_bind. eapply safe_mono; [apply parseredirs_safe; [lia|by apply add_arg_ok]|].
  intros ret' s3 [Hs3 Hret']. eapply safe_mono; [apply IH; [lia|lia|done]|].
  intros c' s4 [? ?]. split; [lia|done].
Qed.

Lemma parsebacks_safe n : ∀ c s, (es - s <= n)%nat → (s <= es)%nat → cmd_ok c →
  safe (parsebacks buf es n c) (parses s) s.
Proof.
  induction n as [|n IH]; intros c s Hn Hs Hc; cbn [parsebacks]; apply safe_bind, peek_safe; [done| |done|];
    intros b s1 Hs1 Hb; (destruct b; [destruct (Hb eq_refl) as [Hlt Hch]|apply safe_ret; split; [lia|done]]); simpl; [lia|].
  apply safe_bind. eapply safe_mono; [by eapply gettoken_after_peek|]. intros [[tok q0] eq0] s2 [(_ & Hs2 & _) Hlt2].
  eapply safe_mono; [apply IH; [lia|lia|done]|]. intros c' s4 [? ?]. split; [lia|done].
Qed.

(** Optional tails: a token seen by [peek], then more of the line. *)
Lemma tail_safe toks c s0 s (f : M nat cmd) (g : cmd → cmd → cmd) :
  (s0 <= s <= es)%nat → cmd_ok c → (∀ r, cmd_ok r → cmd_ok (g c r)) →
  (∀ s', (s < s' <= es)%nat → safe f (parses s') s') →
  safe (p ← peek buf es toks; if negb p then mret c else gettoken buf es;; r ← f; mret (g c r)) (parses s0) s.
Proof.
  intros Hs Hc Hg Hf. apply safe_bind, peek_safe; [lia|]. intros b s1 Hs1 Hb.
  destruct b; simpl; [destruct (Hb eq_refl) as [Hlt Hch]|apply safe_ret; split; [lia|done]].
  apply safe_bind. eapply safe_mono; [by eapply gettoken_after_peek|]. intros [[tok q0] eq0] s2 [(_ & Hs2 & _) Hlt2].
  apply safe_bind. eapply safe_mono; [apply Hf; lia|]. intros r s3 [? Hr]. apply safe_ret. split; [lia|auto].
Qed.

Lemma parse_safe n : ∀ s, (s <= es)%nat →
  ((4 * (es - s) + 4 <= n)%nat → safe (parseline buf es n) (parses s) s) ∧
  ((4 * (es - s) + 3 <= n)%nat → safe (parsepipe buf es n) (parses s) s) ∧
  ((4 * (es - s) + 2 <= n)%nat → safe (parseexec buf es n) (parses s) s) ∧
  ((4 * (es - s) + 1 <= n)%nat → safe (parseblock buf es n) (parses s) s).
Proof.
  induction n as [|n IH]; intros s Hs; [split_and!; lia|]. split; [|split; [|split]]; intros Hn.
  - cbn [parseline]. apply safe_bind. eapply safe_mono; [apply IH; lia|]. intros c s1 [Hs1 Hc].
    apply safe_bind, safe_get. apply safe_bind. eapply safe_mono; [apply parsebacks_safe; [lia|lia|done]|].
    intros c' s2 [Hs2 Hc']. apply (tail_safe _ _ _ _ _ LIST); [lia|done|done|]. intros s' Hs'. apply IH; lia.
  - cbn [parsepipe]. apply safe_bind. eapply safe_mono; [apply IH; lia|]. intros c s1 [Hs1 Hc].
    apply (tail_safe _ _ _ _ _ PIPE); [lia|done|done|]. intros s' Hs'. apply IH; lia.
  - cbn [parseexec]. apply safe_bind, peek_safe; [done|]. intros b s1 Hs1 Hb. destruct b.
    + eapply safe_mono; [apply IH; lia|]. intros c s2 [? ?]. split; [lia|done].
    + apply safe_bind. eapply safe_mono; [apply parseredirs_safe; [lia|by simpl]|]. intros ret s2 [Hs2 Hret].
      apply safe_bind, safe_get. eapply safe_mono; [apply parseargs_safe; [lia|lia|done]|].
      intros c s3 [? ?]. split; [lia|done].
  - cbn [parseblock]. apply safe_bind, peek_safe; [done|]. intros b s1 Hs1 Hb.
    destruct b; simpl; [destruct (Hb eq_refl) as [Hlt Hch]|apply safe_panic].
    apply safe_bind. eapply safe_mono; [by eapply gettoken_after_peek|]. intros [[tok q0] eq0] s2 [(_ & Hs2 & _) Hlt2].
    apply safe_bind. eapply safe_mono; [apply IH; lia|]. intros c s3 [Hs3 Hc].
    apply safe_bind, peek_safe; [lia|]. intros b s4 Hs4 Hb4.
    destruct b; simpl; [destruct (Hb4 eq_refl) as [Hlt4 Hch4]|apply safe_panic].
    apply safe_bind. eapply safe_mono; [by eapply gettoken_after_peek|]. intros [[tok1 q1] eq1] s5 [(_ & Hs5 & _) Hlt5].
    eapply safe_mono; [apply parseredirs_safe; [lia|done]|]. intros c' s6 [? ?]. split; [lia|done].
Qed.

Lemma parse_top_safe : safe (parse_top buf es) (λ c s, s = es ∧ cmd_ok c) 0%nat.
Proof.
  unfold parse_top. apply safe_bind. eapply safe_mono; [apply parse_safe; lia|]. intros c s1 [Hs1 Hc].
  apply safe_bind, peek_safe; [lia|]. intros b s2 Hs2 _. apply safe_bind, safe_get.
  destruct (Nat.eqb_spec s2 es); simpl; [by apply safe_ret|apply safe_panic].
Qed.

(** ** Terminating the words *)

(** The words of a command. *)
Fixpoint words (c : cmd) : list (nat * nat) :=
  match c with
  | EXEC args => args
  | REDIR c f e _ _ => words c ++ [(f, e)]
  | PIPE l r | LIST l r => words l ++ words r
  | BACK c => words c
  end.

Lemma words_ends c : ends c = map snd (words c).
Proof. induction c; simpl; rewrite ?map_app; simpl; congruence. Qed.
Lemma words_ok c : cmd_ok c ↔ Forall (λ a, word_at a.1 a.2) (words c).
Proof.
  induction c; simpl; rewrite ?Forall_app, ?Forall_singleton; tauto.
Qed.

(** Storing terminators behind words leaves every character of a word. *)
Lemma nulterminate_run l : ∀ b,
  Forall (λ e, (e <= es)%nat ∧ ¬ char_at wordc e) l → length b = length buf →
  (∀ i, char_at wordc i → b !! i = buf !! i) →
  ∃ b', foldl (λ b e, b ← b; if (e <? length b)%nat then Some (<[e := 0]> b) else None) (Some b) l = Some b' ∧
    length b' = length buf ∧ (∀ i, char_at wordc i → b' !! i = buf !! i) ∧
    ∀ e, e ∈ l ∨ b !! e = Some 0 → b' !! e = Some 0.
Proof.
  induction l as [|e l IH]; intros b Hl Hlen Hkeep; simpl; [exists b; set_solver|].
  apply Forall_cons in Hl as [[He Hnw] Hl]. apply lookup_lt_Some in Hend as Hlt.
  destruct (Nat.ltb_spec e (length b)); [|lia].
  destruct (IH (<[e := 0]> b) Hl) as (b' & Hrun & Hlen' & Hkeep' & Hz).
  - by rewrite length_insert.
  - intros i Hi. rewrite list_lookup_insert_ne; [auto|]. by intros ->.
  - exists b'. split; [done|]. split; [done|]. split; [done|].
    intros x [[->|Hx]%elem_of_cons|Hx]; apply Hz; [right|by left|right].
    + by apply list_lookup_insert_eq.
    + destruct (decide (e = x)) as [->|]; [by apply list_lookup_insert_eq|by rewrite list_lookup_insert_ne].
Qed.
End safety.

(** The line ends with its terminator and has no other. *)
Lemma line_end line : 0 ∉ line →
  (line ++ [0]) !! length line = Some 0 ∧ ∀ i, (i < length line)%nat → ∃ c, (line ++ [0]) !! i = Some c ∧ c ≠ 0.
Proof.
  intros Hline. split; [by rewrite list_lookup_middle|].
  intros i Hi. rewrite lookup_app_l by done. destruct (lookup_lt_is_Some_2 line i Hi) as [c Hc].
  exists c. split; [done|]. intros ->. apply Hline. by eapply list_elem_of_lookup_2.
Qed.

(** What [parsecmd] does after a successful parse. *)
Lemma parse_top_done line c p :
  0 ∉ line → parse_top (line ++ [0]) (length line) 0%nat = Ok c p →
  p = length line ∧ Forall (λ a, word_at (line ++ [0]) (length line) a.1 a.2) (words c) ∧
  ∃ b, nulterminate c (line ++ [0]) = Some b ∧ length b = S (length line) ∧
    (∀ i, char_at (line ++ [0]) wordc i → b !! i = (line ++ [0]) !! i) ∧ ∀ a, a ∈ words c → b !! a.2 = Some 0.
Proof.
  intros Hline Hp. destruct (line_end line Hline) as [Hend Hin].
  pose proof (parse_top_safe _ _ Hend Hin) as Hs. unfold safe in Hs. rewrite Hp in Hs. destruct Hs as [-> Hok].
  apply words_ok in Hok. split; [done|]. split; [done|]. unfold nulterminate. rewrite words_ends.
  destruct (nulterminate_run (line ++ [0]) (length line) Hend Hin (map snd (words c)) (line ++ [0]))
    as (b & Hb & Hlen & Hkeep & Hz); [|done|done|].
  { apply Forall_fmap. eapply Forall_impl; [exact Hok|]. intros [q eq] (Hr & _ & Hn). simpl in *. split; [lia|done]. }
  exists b. split; [done|]. split; [by rewrite Hlen, length_app; simpl; lia|]. split; [done|].
  intros a Ha. apply Hz. left. apply list_elem_of_fmap. by exists a.
Qed.

(** C38: The parser of the shell terminates and stays inside the line, for
    every command line: it either calls [panic] or returns a command, having
    consumed the whole line. In the second case every string of the command is
    a maximal run of word characters of the line, and after [nulterminate] each
    of them is a C string with exactly these characters. *)
Theorem parsecmd_safe line :
  0 ∉ line →
  match parsecmd (line ++ [0]) with
  | Ok (c, b) p =>
      p = length line ∧ length b = S (length line) ∧
      ∀ q eq, (q, eq) ∈ words c →
        (q < eq <= length line)%nat ∧ b !! eq = Some 0 ∧
        (∀ i, (q <= i < eq)%nat → ∃ x, line !! i = Some x ∧ wordc x = true ∧ b !! i = Some x) ∧
        (∀ x, line !! eq = Some x → wordc x = false)
  | Err (Panic _) _ => True
  | Err _ _ => False
  end.
Proof.
  intros Hline. unfold parsecmd. rewrite length_app. simpl.
  replace (length line + 1 - 1)%nat with (length line) by lia.
  destruct (line_end line Hline) as [Hend Hin].
  pose proof (parse_top_safe _ _ Hend Hin) as Hs. unfold safe in Hs.
  destruct (parse_top (line ++ [0]) (length line) 0%nat) as [c p|[] p] eqn:Hp; try done. clear Hs.
  destruct (parse_top_done _ _ _ Hline Hp) as (-> & Hok & b & -> & Hlen & Hkeep & Hz).
  split; [done|]. split; [done|]. intros q eq Hw.
  rewrite Forall_forall in Hok. destruct (Hok _ Hw) as (Hr & Hwd & Hne). simpl in *. split; [lia|].
  split; [by apply (Hz (q, eq))|]. split.
  - intros i Hi. destruct (Hwd i Hi) as (x & Hx & Hwx). exists x. rewrite Hkeep by (by exists x). rewrite Hx.
    rewrite lookup_app_l in Hx by lia. done.
  - intros x Hx. destruct (wordc x) eqn:E; [|done]. destruct Hne. exists x. split; [|done].
    rewrite lookup_app_l by (by eapply lookup_lt_Some). done.
Qed.

(** "ls (a>b)&" *)
Lemma parsecmd_safe_witness :
  match parsecmd ([108; 115; 32; 97; 62; 98; 38] ++ [0]) with
  | Ok (c, b) p => p = 7%nat ∧ length b = 8%nat
  | Err (Panic _) _ => True
  | Err _ _ => False
  end.
Proof.
  assert (H : 0 ∉ [108; 115; 32; 97; 62; 98; 38]) by set_solver by lia.
  pose proof (parsecmd_safe [108; 115; 32; 97; 62; 98; 38] H) as P.
  destruct (parsecmd ([108; 115; 32; 97; 62; 98; 38] ++ [0])) as [[c b] p|[] p]; try exact P.
  destruct P as (H1 & H2 & _). split; [exact H1|exact H2].
Defined.

(** ** What command lines mean

    The grammar of command lines, printed with a space after every token, and
    the command that a line stands for, with its strings. *)
Inductive acmd :=
| AExec (args : list (list Z))
| ARedir (c : acmd) (file : list Z) (mode fd : Z)
| APipe (l r : acmd)
| AList (l r : acmd)
| ABack (c : acmd).

Inductive redir := RIn (w : list Z) | ROut (w : list Z) | RApp (w : list Z).
Inductive sline :=
| Last (p : spipe) (bg : nat)
| Seq (p : spipe) (bg : nat) (l : sline)
with spipe :=
| One (e : sexec)
| Pipe (e : sexec) (p : spipe)
with sexec :=
| Simple (pre : list redir) (args : list (list Z * list redir))
| Block (l : sline) (rs : list redir).

Scheme sline_rec' := Induction for sline Sort Prop
with spipe_rec' := Induction for spipe Sort Prop
with sexec_rec' := Induction for sexec Sort Prop.
Combined Scheme syntax_ind from sline_rec', spipe_rec', sexec_rec'.

Definition tok (t : list Z) : list Z := t ++ [32].
Definition show_redir (r : redir) : list Z :=
  match r with
  | RIn w => tok [60] ++ tok w
  | ROut w => tok [62] ++ tok w
  | RApp w => tok [62; 62] ++ tok w
  end.
Definition show_redirs (rs : list redir) : list Z := concat (map show_redir rs).
Definition show_arg (a : list Z * list redir) : list Z := tok a.1 ++ show_redirs a.2.
Definition show_bg (bg : nat) : list Z := concat (replicate bg (tok [38])).
Fixpoint show_line (l : sline) : list Z :=
  match l with
  | Last p bg => show_pipe p ++ show_bg bg
  | Seq p bg l => show_pipe p ++ show_bg bg ++ tok [59] ++ show_line l
  end
with show_pipe (p : spipe) : list Z :=
  match p with
  | One e => show_exec e
  | Pipe e p => show_exec e ++ tok [124] ++ show_pipe p
  end
with show_exec (e : sexec) : list Z :=
  match e with
  | Simple pre args => show_redirs pre ++ concat (map show_arg args)
  | Block l rs => tok [40] ++ show_line l ++ tok [41] ++ show_redirs rs
  end.

Definition wrap (c : acmd) (r : redir) : acmd :=
  match r with
  | RIn w => ARedir c w RD_MODE 0
  | ROut w => ARedir c w WR_MODE 1
  | RApp w => ARedir c w WR_MODE 1
  end.
Fixpoint aadd (w : list Z) (c : acmd) : acmd :=
  match c with
  | AExec args => AExec (args ++ [w])
  | ARedir c f m fd => ARedir (aadd w c) f m fd
  | _ => c
  end.
Fixpoint mean_line (l : sline) : acmd :=
  match l with
  | Last p bg => Nat.iter bg ABack (mean_pipe p)
  | Seq p bg l => AList (Nat.iter bg ABack (mean_pipe p)) (mean_line l)
  end
with mean_pipe (p : spipe) : acmd :=
  match p with
  | One e => mean_exec e
  | Pipe e p => APipe (mean_exec e) (mean_pipe p)
  end
with mean_exec (e : sexec) : acmd :=
  match e with
  | Simple pre args => foldl (λ c a, foldl wrap (aadd a.1 c) a.2) (foldl wrap (AExec []) pre) args
  | Block l rs => foldl wrap (mean_line l) rs
  end.

(** Words are not empty, consist of word characters, and a simple command has
    fewer than [MAXARGS] of them. *)
Definition word_ok (w : list Z) : Prop := w ≠ [] ∧ Forall (λ c, wordc c = true) w.
Definition redir_ok (r : redir) : Prop := match r with RIn w | ROut w | RApp w => word_ok w end.
Fixpoint line_ok (l : sline) : Prop :=
  match l with
  | Last p _ => pipe_ok p
  | Seq p _ l => pipe_ok p ∧ line_ok l
  end
with pipe_ok (p : spipe) : Prop :=
  match p with
  | One e => exec_ok e
  | Pipe e p => exec_ok e ∧ pipe_ok p
  end
with exec_ok (e : sexec) : Prop :=
  match e with
  | Simple pre args => Forall redir_ok pre ∧ Forall (λ a, word_ok a.1 ∧ Forall redir_ok a.2) args ∧ (length args < MAXARGS)%nat
  | Block l rs => line_ok l ∧ Forall redir_ok rs
  end.

(** The command with its strings read from the line. *)
Fixpoint abs (buf : list Z) (c : cmd) : acmd :=
  match c with
  | EXEC args => AExec (map (λ a, slice a.1 (a.2 - a.1) buf) args)
  | REDIR c f e m fd => ARedir (abs buf c) (slice f (e - f) buf) m fd
  | PIPE l r => APipe (abs buf l) (abs buf r)
  | LIST l r => AList (abs buf l) (abs buf r)
  | BACK c => ABack (abs buf c)
  end.

(** The depth of calls a line needs. *)
Fixpoint cost_line (l : sline) : nat :=
  match l with
  | Last p _ => S (cost_pipe p)
  | Seq p _ l => S (max (cost_pipe p) (cost_line l))
  end
with cost_pipe (p : spipe) : nat :=
  match p with
  | One e => S (cost_exec e)
  | Pipe e p => S (max (cost_exec e) (cost_pipe p))
  end
with cost_exec (e : sexec) : nat :=
  match e with
  | Simple _ _ => 1
  | Block l _ => S (S (cost_line l))
  end.

(** The equations of the mutual recursion. *)
Lemma parseline_S buf es n : parseline buf es (S n) =
  (c ← parsepipe buf es n; s ← getM; c ← parsebacks buf es (es - s) c; p ← peek buf es [59];
   if negb p then mret c else gettoken buf es;; r ← parseline buf es n; mret (LIST c r)).
Proof. done. Qed.
Lemma parsepipe_S buf es n : parsepipe buf es (S n) =
  (c ← parseexec buf es n; p ← peek buf es [124];
   if negb p then mret c else gettoken buf es;; r ← parsepipe buf es n; mret (PIPE c r)).
Proof. done. Qed.
Lemma parseexec_S buf es n : parseexec buf es (S n) =
  (p ← peek buf es [40];
   if (p : bool) then parseblock buf es n else
   ret ← parseredirs buf es (EXEC []); s ← getM; parseargs buf es (es - s) 0 ret).
Proof. done. Qed.
Lemma parseblock_S buf es n : parseblock buf es (S n) =
  (p ← peek buf es [40];
   if negb p then panic "parseblock" else
   gettoken buf es;; c ← parseline buf es n; p ← peek buf es [41];
   if negb p then panic "syntax - missing )" else gettoken buf es;; parseredirs buf es c).
Proof. done. Qed.

Section roundtrip.
Context (buf : list Z).
#[local] Abbreviation es := (length buf - 1)%nat.

(** What is left of the line at [s]; it begins with no white space. *)
Definition here (s : nat) (l : list Z) : Prop := drop s buf = l ∧ ∃ c l', l = c :: l' ∧ in_set whitespace c = false.

Lemma here_lookup s c l : drop s buf = c :: l → buf !! s = Some c.
Proof. intros H. rewrite <-(Nat.add_0_r s), <-lookup_drop, H. done. Qed.
Lemma here_drop s t l : drop s buf = t ++ l → drop (s + length t) buf = l.
Proof. intros H. by rewrite <-drop_drop, H, drop_app_length. Qed.
Lemma here_len s l : drop s buf = l → l ≠ [] → (s + length l = length buf)%nat.
Proof.
  intros <- Hne. rewrite length_drop. assert (s < length buf)%nat; [|lia].
  apply not_ge. intros Hge. apply Hne. by apply drop_ge.
Qed.
Lemma here_slice s t l : drop s buf = t ++ l → slice s (length t) buf = t.
Proof. intros H. unfold slice. by rewrite H, take_app_length. Qed.

Lemma peek_here toks s c l : here s (c :: l) → peek buf es toks s = Ok (negb (c =? 0) && in_set toks c) s.
Proof.
  intros [Hd (? & ? & [= <- <-] & Hw)]. unfold peek, mbind, M_bind, getM, putM, rd.
  pose proof (here_lookup _ _ _ Hd) as Hc. by rewrite (skip_ws_id buf _ s c Hc Hw), Hc.
Qed.

(** One space and then the next token. *)
Lemma skip_space s l : drop s buf = 32 :: l → here (S s) l → (s < es)%nat → skip_ws buf (es - s) s = S s.
Proof.
  intros Hd [Hd' (c & l' & -> & Hw)] Hlt. destruct (es - s)%nat as [|n] eqn:E; [lia|]. simpl.
  rewrite (here_lookup _ _ _ Hd). simpl. apply (skip_ws_id _ _ _ c); [by eapply here_lookup|done].
Qed.

Lemma skip_word_here n w : ∀ s l, drop s buf = w ++ 32 :: l → Forall (λ c, wordc c = true) w → (length w <= n)%nat →
  skip_word buf (S n) s = (s + length w)%nat.
Proof.
  revert n. induction w as [|c w IH]; intros n s l Hd Hw Hn; simpl in Hd; cbn [skip_word]; rewrite (here_lookup _ _ _ Hd).
  - simpl. lia.
  - apply Forall_cons in Hw as [Hc Hw]. unfold wordc in Hc. apply andb_true_iff in Hc as [Hc _]. rewrite Hc.
    destruct n as [|n]; [simpl in Hn; lia|]. rewrite (IH n (S s) l); [simpl; lia| |done|simpl in Hn; lia].
    change (S s) with (1 + s)%nat. rewrite Nat.add_comm. apply (here_drop s [c]). by rewrite Hd.
Qed.

Lemma gettoken_word s w l :
  drop s buf = tok w ++ l → here (s + length w + 1) l → word_ok w →
  gettoken buf es s = Ok (97, s, (s + length w)%nat) (s + length w + 1)%nat ∧ slice s (length w) buf = w.
Proof.
  intros Hd Hh [Hne Hw]. unfold tok in Hd. rewrite <-app_assoc in Hd. simpl in Hd.
  split; [|by eapply here_slice].
  assert (Hl : (s + length w + 1 + length l = length buf)%nat).
  { apply here_len in Hd; [rewrite length_app in Hd; simpl in Hd; lia|by destruct w]. }
  destruct Hh as [Hdl (c0 & l0 & -> & Hw0)]. simpl in Hl.
  destruct w as [|c w]; [done|]. apply Forall_cons in Hw as [Hc Hw'].
  pose proof (here_lookup _ _ _ Hd) as Hcs.
  pose proof Hc as Hc'. unfold wordc in Hc'. apply andb_true_iff in Hc' as [Hc' H0].
  apply andb_true_iff in Hc' as [Hws Hsy]. apply negb_true_iff in Hws, Hsy, H0.
  unfold gettoken, mbind, M_bind, mret, M_ret, getM, putM, rd. rewrite (skip_ws_id _ _ s c Hcs Hws), Hcs. simpl. rewrite H0.
  assert (in_set [124; 40; 41; 59; 38; 60] c = false ∧ (c =? 62) = false) as [-> ->].
  { unfold in_set, symbols in *. simpl in *. rewrite !orb_false_iff in *. tauto. }
  simpl. assert (Hsk : skip_word buf (es - s) s = (s + length (c :: w))%nat).
  { destruct (es - s)%nat as [|n] eqn:E; [simpl in *; lia|].
    eapply skip_word_here; [exact Hd|by constructor|simpl in *; lia]. }
  rewrite Hsk, (skip_space _ (c0 :: l0)); [|by eapply here_drop| |simpl in *; lia].
  - f_equal. simpl. lia.
  - replace (S (s + length (c :: w))) with (s + length (c :: w) + 1)%nat by lia. split; [done|eauto].
Qed.

Lemma gettoken_sym s c l :
  drop s buf = tok [c] ++ l → here (s + 2) l → in_set symbols c = true →
  gettoken buf es s = Ok (c, s, S s) (s + 2)%nat.
Proof.
  intros Hd Hh Hsym. simpl in Hd. destruct Hh as [Hdl (c0 & l0 & -> & Hw0)].
  assert (Hl : (s + 2 + S (length l0) = length buf)%nat) by (apply here_len in Hd; [simpl in Hd; lia|done]).
  pose proof (here_lookup _ _ _ Hd) as Hcs.
  assert (Hd1 : drop (S s) buf = 32 :: c0 :: l0) by (rewrite <-Nat.add_1_r; by apply (here_drop s [c])).
  assert (Hc : c ∈ symbols).
  { unfold in_set in Hsym. apply existsb_exists in Hsym as (x & Hx & ->%Z.eqb_eq). by apply list_elem_of_In. }
  assert (Hsp : skip_ws buf (es - S s) (S s) = (s + 2)%nat).
  { rewrite (skip_space _ (c0 :: l0)); [lia|done| |lia]. replace (S (S s)) with (s + 2)%nat by lia. split; [done|eauto]. }
  unfold gettoken, mbind, M_bind, mret, M_ret, getM, putM, rd.
  unfold symbols in Hc. assert (Hws : in_set whitespace c = false).
  { elem_cases Hc; done. }
  rewrite (skip_ws_id _ _ s c Hcs Hws), Hcs. repeat (apply elem_of_cons in Hc as [->|Hc]; [simpl; rewrite ?(here_lookup _ _ _ Hd1); simpl; by rewrite Hsp|]).
  by apply elem_of_nil in Hc.
Qed.

Lemma gettoken_app s l :
  drop s buf = tok [62; 62] ++ l → here (s + 3) l → gettoken buf es s = Ok (43, s, S (S s)) (s + 3)%nat.
Proof.
  intros Hd Hh. simpl in Hd. destruct Hh as [Hdl (c0 & l0 & -> & Hw0)].
  assert (Hl : (s + 3 + S (length l0) = length buf)%nat) by (apply here_len in Hd; [simpl in Hd; lia|done]).
  pose proof (here_lookup _ _ _ Hd) as Hcs.
  assert (Hd1 : drop (S s) buf = 62 :: 32 :: c0 :: l0) by (rewrite <-Nat.add_1_r; by apply (here_drop s [62])).
  assert (Hd2 : drop (S (S s)) buf = 32 :: c0 :: l0).
  { replace (S (S s)) with (s + 2)%nat by lia. by apply (here_drop s [62; 62]). }
  unfold gettoken, mbind, M_bind, mret, M_ret, getM, putM, rd.
  rewrite (skip_ws_id _ _ s 62 Hcs), Hcs by done. simpl. rewrite (here_lookup _ _ _ Hd1). simpl.
  rewrite (skip_space _ (c0 :: l0)); [f_equal; lia|done| |lia].
  replace (S (S (S s))) with (s + 3)%nat by lia. split; [done|eauto].
Qed.

(** The first character of a text satisfies [P] and is no white space. *)
Definition first (P : Z → bool) (t : list Z) : Prop := ∃ c l, t = c :: l ∧ P c = true ∧ in_set whitespace c = false.

Lemma first_mono (P P' : Z → bool) t : (∀ c, P c = true → P' c = true) → first P t → first P' t.
Proof. intros H (c & l & -> & ? & ?). exists c, l. auto. Qed.
Lemma first_here P s t : drop s buf = t → first P t → here s t.
Proof. intros Hd (c & l & -> & _ & Hw). split; [done|eauto]. Qed.
Lemma first_sym c l : in_set symbols c = true → first (Z.eqb c) (tok [c] ++ l).
Proof.
  intros Hs. exists c, (32 :: l). split; [done|]. split; [apply Z.eqb_refl|].
  unfold in_set, symbols, whitespace in *. simpl in *. rewrite !orb_true_iff, !Z.eqb_eq in Hs.
  rewrite !orb_false_iff, !Z.eqb_neq. lia.
Qed.
Lemma first_word w l : word_ok w → first wordc (tok w ++ l).
Proof.
  intros [Hne Hw]. destruct w as [|c w]; [done|]. apply Forall_cons in Hw as [Hc _].
  exists c, (w ++ [32] ++ l). unfold tok. split; [simpl; by rewrite <-app_assoc|]. split; [done|].
  unfold wordc in Hc. rewrite !andb_true_iff, !negb_true_iff in Hc. tauto.
Qed.

Lemma peek_first toks P s t : drop s buf = t → first P t → (∀ c, P c = true → negb (c =? 0) && in_set toks c = false) →
  peek buf es toks s = Ok false s.
Proof. intros Hd Hf HP. pose proof (first_here _ _ _ Hd Hf). destruct Hf as (c & l & -> & Hc & _). erewrite peek_here by done. by rewrite HP. Qed.

(** Characters that are neither a redirection nor an opening parenthesis. *)
Definition noredir (c : Z) : bool := negb (in_set [60; 62] c).
Definition wordc_sep (ks : list Z) (c : Z) : bool := wordc c || in_set ks c.

Lemma wordc_cases ks c : wordc_sep ks c = true → wordc c = true ∨ c ∈ ks.
Proof.
  intros [?|H]%orb_true_iff; [by left|right]. unfold in_set in H.
  apply existsb_exists in H as (x & Hx & ->%Z.eqb_eq). by apply list_elem_of_In.
Qed.

Lemma wordc_not c d : wordc c = true → in_set symbols d || (d =? 0) = true → c ≠ d.
Proof.
  intros Hc Hd ->. unfold wordc in Hc. rewrite !andb_true_iff, !negb_true_iff in Hc.
  apply orb_true_iff in Hd. destruct Hd, Hc as [[_ ?] ?]; congruence.
Qed.

Lemma redir_run r (c0 : cmd) s k n :
  redir_ok r → drop s buf = show_redir r ++ k → first (λ _, true) k →
  ∃ c1 s', parseredirs_loop buf es (S n) c0 s = parseredirs_loop buf es n c1 s' ∧ abs buf c1 = wrap (abs buf c0) r ∧ drop s' buf = k.
Proof.
  intros Hr Hd Hk.
  assert (Hgen : ∀ o t w, drop s buf = tok o ++ tok w ++ k → word_ok w → first (in_set [60; 62]) (tok o ++ tok w ++ k) →
    gettoken buf es s = Ok (t, s, (s + length o)%nat) (s + length o + 1)%nat →
    ∃ q eq s', slice q (eq - q) buf = w ∧ drop s' buf = k ∧
      parseredirs_loop buf es (S n) c0 s = parseredirs_loop buf es n
        (if t =? 60 then REDIR c0 q eq RD_MODE 0 else if t =? 62 then REDIR c0 q eq WR_MODE 1
         else if t =? 43 then REDIR c0 q eq WR_MODE 1 else c0) s').
  { intros o t w Hdo Hw Hf Hg. pose proof (here_drop _ _ _ Hdo) as Hd2. unfold tok in Hd2 at 1.
    rewrite length_app in Hd2. simpl in Hd2. rewrite Nat.add_assoc in Hd2.
    set (s1 := (s + length o + 1)%nat) in *.
    assert (Hd3 : drop (s1 + length w + 1) buf = k).
    { apply here_drop in Hd2. unfold tok in Hd2. rewrite length_app in Hd2. simpl in Hd2. by rewrite Nat.add_assoc in Hd2. }
    destruct (gettoken_word s1 w k Hd2 (first_here _ _ _ Hd3 Hk) Hw) as [Hg2 Hsl].
    exists s1, (s1 + length w)%nat, (s1 + length w + 1)%nat.
    split; [by replace (s1 + length w - s1)%nat with (length w) by lia|]. split; [done|].
    cbn [parseredirs_loop]. unfold mbind, M_bind.
    pose proof (first_here _ _ _ Hdo Hf) as Hh. destruct Hf as (c & l & E & Hc & _). rewrite E in Hh.
    erewrite peek_here by done. assert (c ≠ 0) as H0 by (intros ->; by vm_compute in Hc).
    rewrite Hc, (proj2 (Z.eqb_neq c 0)) by done. simpl. rewrite Hg. fold s1. by rewrite Hg2. }
  assert (Hsym : ∀ c l, c ∈ [60; 62] → first (in_set [60; 62]) (c :: l)).
  { intros c l Hc. exists c, l. split; [done|]. elem_cases Hc; done. }
  destruct r as [w|w|w]; simpl in Hr, Hd; rewrite <-?app_assoc in Hd.
  - destruct (Hgen [60] 60 w Hd Hr) as (q & eq & s' & Hsl & Hd' & Hrun); [apply Hsym; set_solver| |].
    { rewrite (gettoken_sym s 60 (tok w ++ k)); [f_equal; [f_equal; simpl; lia|simpl; lia]|done| |done]. eapply first_here; [|by apply first_word].
      by apply (here_drop s (tok [60])). }
    eexists _, s'. rewrite Hrun. split; [done|]. simpl. by rewrite Hsl.
  - destruct (Hgen [62] 62 w Hd Hr) as (q & eq & s' & Hsl & Hd' & Hrun); [apply Hsym; set_solver| |].
    { rewrite (gettoken_sym s 62 (tok w ++ k)); [f_equal; [f_equal; simpl; lia|simpl; lia]|done| |done]. eapply first_here; [|by apply first_word].
      by apply (here_drop s (tok [62])). }
    eexists _, s'. rewrite Hrun. split; [done|]. simpl. by rewrite Hsl.
  - destruct (Hgen [62; 62] 43 w Hd Hr) as (q & eq & s' & Hsl & Hd' & Hrun); [apply Hsym; set_solver| |].
    { replace (s + length [62; 62] + 1)%nat with (s + 3)%nat by (simpl; lia).
      rewrite (gettoken_app s (tok w ++ k)); [f_equal; [f_equal; simpl; lia|simpl; lia]|done|]. eapply first_here; [|by apply first_word].
      by apply (here_drop s (tok [62; 62])). }
    eexists _, s'. rewrite Hrun. split; [done|]. simpl. by rewrite Hsl.
Qed.

Lemma first_redirs rs k : first (λ _, true) k → first (λ _, true) (show_redirs rs ++ k).
Proof.
  intros Hk. destruct rs as [|r rs]; [done|].
  assert (H : ∀ c l, in_set symbols c = true → c ∈ [60; 62] → first (λ _, true) (c :: l)).
  { intros c l _ Hc. exists c, l. split; [done|]. split; [done|]. elem_cases Hc; done. }
  destruct r; apply H; set_solver.
Qed.

Lemma redirs_run rs : ∀ n c0 s k,
  Forall redir_ok rs → drop s buf = show_redirs rs ++ k → first noredir k → (length rs <= n)%nat →
  ∃ c s', parseredirs_loop buf es n c0 s = Ok c s' ∧ abs buf c = foldl wrap (abs buf c0) rs ∧ drop s' buf = k.
Proof.
  induction rs as [|r rs IH]; intros n c0 s k Hrs Hd Hk Hn.
  - exists c0, s. split; [|done]. destruct n; cbn [parseredirs_loop]; unfold mbind, M_bind;
      (erewrite (peek_first _ _ _ _ Hd Hk); [done|]); intros c Hc; apply negb_true_iff in Hc; by rewrite Hc, andb_false_r.
  - apply Forall_cons in Hrs as [Hr Hrs]. unfold show_redirs in Hd. simpl in Hd. rewrite <-app_assoc in Hd.
    destruct n as [|n]; [simpl in Hn; lia|].
    destruct (redir_run r c0 s _ n Hr Hd) as (c1 & s1 & Hrun & Habs & Hd1).
    { apply first_redirs. by eapply first_mono; [|exact Hk]. }
    destruct (IH n c1 s1 k Hrs Hd1 Hk) as (c & s' & Hrun' & Habs' & Hd'); [simpl in Hn; lia|].
    exists c, s'. rewrite Hrun, Hrun', Habs', Habs. done.
Qed.

(** The fuel of the loops is the rest of the line. *)
Lemma redirs_short rs s k : drop s buf = show_redirs rs ++ k → first (λ _, true) k → (length rs <= es - s)%nat.
Proof.
  intros Hd (c & l & -> & _). apply here_len in Hd; [|by destruct (show_redirs rs)].
  rewrite length_app in Hd. simpl in Hd.
  assert (length rs <= length (show_redirs rs))%nat; [|lia].
  clear. induction rs as [|r rs IH]; [done|]. unfold show_redirs. simpl. rewrite length_app. fold (show_redirs rs).
  destruct r; simpl; lia.
Qed.

Lemma parseredirs_run rs c0 s k :
  Forall redir_ok rs → drop s buf = show_redirs rs ++ k → first noredir k →
  ∃ c s', parseredirs buf es c0 s = Ok c s' ∧ abs buf c = foldl wrap (abs buf c0) rs ∧ drop s' buf = k.
Proof.
  intros Hrs Hd Hk. unfold parseredirs, mbind, M_bind, getM.
  apply redirs_run; [done..|]. eapply redirs_short; [exact Hd|]. by eapply first_mono; [|exact Hk].
Qed.

Lemma abs_add_arg q eq ret : abs buf (add_arg (q, eq) ret) = aadd (slice q (eq - q) buf) (abs buf ret).
Proof. induction ret; simpl; rewrite ?map_app; simpl; congruence. Qed.

(** What may follow a simple command. *)
Definition stops : list Z := [0; 41; 38; 59; 124].
Lemma stops_noredir c : wordc_sep stops c = true → noredir c = true.
Proof.
  intros [Hw|Hc]%wordc_cases; unfold noredir; apply negb_true_iff.
  - unfold in_set. simpl. rewrite !orb_false_iff, !Z.eqb_neq. split_and!; [by eapply wordc_not|by eapply wordc_not|done].
  - elem_cases Hc; done.
Qed.

Lemma first_args args k : Forall (λ a, word_ok a.1 ∧ Forall redir_ok a.2) args → first (in_set stops) k →
  first (wordc_sep stops) (concat (map show_arg args) ++ k).
Proof.
  intros Hargs Hk. destruct args as [|a args].
  - eapply first_mono; [|exact Hk]. intros c Hc. unfold wordc_sep. by rewrite Hc, orb_true_r.
  - apply Forall_cons in Hargs as [[Hw _] _]. simpl. unfold show_arg. rewrite <-!app_assoc.
    eapply first_mono; [|by apply first_word]. intros c Hc. unfold wordc_sep. by rewrite Hc.
Qed.

Lemma gettoken_end s l : drop s buf = 0 :: l → gettoken buf es s = Ok (0, s, s) s.
Proof.
  intros Hd. pose proof (here_lookup _ _ _ Hd) as Hc. unfold gettoken, mbind, M_bind, mret, M_ret, getM, putM, rd.
  rewrite !(skip_ws_id buf _ s 0 Hc), Hc by done. simpl. by rewrite (skip_ws_id buf _ s 0 Hc).
Qed.

Lemma args_run args : ∀ n argc ret s k,
  Forall (λ a, word_ok a.1 ∧ Forall redir_ok a.2) args → drop s buf = concat (map show_arg args) ++ k →
  first (in_set stops) k → (length args <= n)%nat → (argc + length args < MAXARGS)%nat →
  ∃ c s', parseargs buf es n argc ret s = Ok c s' ∧
    abs buf c = foldl (λ c a, foldl wrap (aadd a.1 c) a.2) (abs buf ret) args ∧ drop s' buf = k.
Proof.
  induction args as [|[w rs] args IH]; intros n argc ret s k Hargs Hd Hk Hn Hmax.
  - exists ret, s. split; [|done]. simpl in Hd. pose proof (first_here _ _ _ Hd Hk) as Hh.
    destruct Hk as (c & l & -> & Hc & _). destruct n; cbn [parseargs]; unfold mbind, M_bind;
    erewrite peek_here by done; unfold in_set in Hc; apply existsb_exists in Hc as (x & Hx%list_elem_of_In & ->%Z.eqb_eq);
    unfold stops in Hx; elem_cases Hx; simpl; try done; by erewrite gettoken_end.
  - apply Forall_cons in Hargs as [[Hw Hrs] Hargs]. simpl in Hw, Hrs. simpl in Hd. unfold show_arg in Hd at 1.
    simpl in Hd. rewrite <-!app_assoc in Hd.
    pose proof (first_args args k Hargs Hk) as Hf.
    assert (Hf' : first noredir (concat (map show_arg args) ++ k)) by (eapply first_mono; [apply stops_noredir|done]).
    assert (Hf'' : first (λ _, true) (show_redirs rs ++ concat (map show_arg args) ++ k)).
    { apply first_redirs. by eapply first_mono; [|exact Hf]. }
    assert (Hd1 : drop (s + length w + 1) buf = show_redirs rs ++ concat (map show_arg args) ++ k).
    { apply here_drop in Hd. unfold tok in Hd at 1. rewrite length_app in Hd. simpl in Hd. by rewrite Nat.add_assoc in Hd. }
    destruct (gettoken_word s w _ Hd (first_here _ _ _ Hd1 Hf'') Hw) as [Hg Hsl].
    destruct (parseredirs_run rs (add_arg (s, (s + length w)%nat) ret) _ _ Hrs Hd1 Hf') as (c1 & s1 & Hrun1 & Habs1 & Hd2).
    destruct n as [|n]; [simpl in Hn; lia|].
    destruct (IH n (S argc) c1 s1 k Hargs Hd2 Hk) as (c & s' & Hrun & Habs & Hd'); [simpl in *; lia..|].
    exists c, s'. split; [|split; [|done]].
    + cbn [parseargs]. unfold mbind, M_bind. erewrite (peek_first _ wordc _ _ Hd); [|by apply first_word|].
      * rewrite Hg. cbn [fst snd]. simpl (97 =? 0). simpl (97 =? 97). cbn [negb].
        destruct (Nat.leb_spec MAXARGS (S argc)); [simpl in Hmax; lia|]. by rewrite Hrun1.
      * intros x Hx. unfold in_set. simpl. rewrite andb_false_iff, !orb_false_iff, !Z.eqb_neq. right.
        split_and!; try done; by eapply wordc_not.
    + rewrite Habs, Habs1, abs_add_arg. simpl. by replace (s + length w - s)%nat with (length w) by lia; rewrite Hsl.
Qed.

Lemma abs_backs bg c : abs buf (Nat.iter bg BACK c) = Nat.iter bg ABack (abs buf c).
Proof. induction bg; simpl; congruence. Qed.

Lemma backs_run bg : ∀ n c0 s k,
  drop s buf = show_bg bg ++ k → first (λ c, negb (c =? 38)) k → (bg <= n)%nat →
  ∃ s', parsebacks buf es n c0 s = Ok (Nat.iter bg BACK c0) s' ∧ drop s' buf = k.
Proof.
  induction bg as [|bg IH]; intros n c0 s k Hd Hk Hn.
  - exists s. split; [|done]. destruct n; cbn [parsebacks]; unfold mbind, M_bind;
      (erewrite (peek_first _ _ _ _ Hd Hk); [done|]); intros c Hc; apply negb_true_iff in Hc;
      unfold in_set; simpl; by rewrite Hc, andb_false_r.
  - destruct n as [|n]; [lia|]. unfold show_bg in Hd. simpl in Hd. fold (show_bg bg) in Hd.
    change (38 :: 32 :: show_bg bg ++ k) with (tok [38] ++ show_bg bg ++ k) in Hd.
    assert (Hf : first (λ _, true) (show_bg bg ++ k)).
    { destruct bg; [by eapply first_mono; [|exact Hk]|]. simpl. by eexists _, _. }
    assert (Hd1 : drop (s + 2) buf = show_bg bg ++ k) by (by apply (here_drop s (tok [38]))).
    destruct (IH n (BACK c0) (s + 2)%nat k Hd1 Hk) as (s' & Hrun & Hd'); [lia|].
    exists s'. split; [|done]. cbn [parsebacks]. unfold mbind, M_bind.
    erewrite peek_here by (eapply first_here; [exact Hd|by apply first_sym]). simpl.
    erewrite gettoken_sym; [|exact Hd|by eapply first_here|done]. unfold backcmd. rewrite Hrun. f_equal.
    clear. induction bg as [|bg IH]; [done|]. simpl in *. by rewrite IH.
Qed.

Lemma first_any P t : first P t → first (λ _, true) t.
Proof. by apply first_mono. Qed.
Lemma first_tok c l : in_set symbols c = true → first (λ _, true) (tok [c] ++ l).
Proof. intros. by eapply first_any, first_sym. Qed.
Lemma first_simple pre args k : Forall (λ a, word_ok a.1 ∧ Forall redir_ok a.2) args → first (in_set stops) k →
  first (λ c, negb (c =? 40)) (show_redirs pre ++ concat (map show_arg args) ++ k).
Proof.
  intros Ha Hk. destruct pre as [|[] pre]; [|by eexists _, _..].
  eapply first_mono; [|by apply first_args]. intros c [Hw|Hc]%wordc_cases; apply negb_true_iff, Z.eqb_neq.
  - by eapply wordc_not.
  - unfold stops in Hc. by elem_cases Hc.
Qed.
Lemma first_bg bg k : first (in_set [0; 41; 59]) k → first (in_set [0; 41; 38; 59]) (show_bg bg ++ k).
Proof.
  intros Hk. destruct bg; [|by eexists _, _]. eapply first_mono; [|exact Hk]. intros c Hc.
  unfold in_set in *. simpl in *. rewrite !orb_true_iff in *. tauto.
Qed.
Lemma first_weaken ks ks' t : ks ⊆ ks' → first (in_set ks) t → first (in_set ks') t.
Proof.
  intros Hs. apply first_mono. intros c. unfold in_set. rewrite !existsb_exists. intros (x & Hx & E).
  exists x. split; [|done]. apply list_elem_of_In, Hs. by apply list_elem_of_In.
Qed.
Lemma first_in t c l ks : drop t buf = tok [c] ++ l → in_set symbols c = true → in_set ks c = true → peek buf es ks t = Ok true t.
Proof.
  intros Hd Hs Hk. pose proof (first_here _ _ _ Hd (first_sym c l Hs)) as Hh. simpl in Hh. rewrite (peek_here _ _ _ _ Hh).
  rewrite Hk, andb_true_r. destruct (Z.eqb_spec c 0) as [->|]; [by vm_compute in Hs|done].
Qed.
Lemma first_out t k ks ks' : drop t buf = k → first (in_set ks') k →
  forallb (λ c, (c =? 0) || negb (in_set ks c)) ks' = true → peek buf es ks t = Ok false t.
Proof.
  intros Hd Hf Hb. eapply peek_first; [exact Hd|exact Hf|]. intros c Hc. rewrite forallb_forall in Hb.
  unfold in_set in Hc. apply existsb_exists in Hc as (x & Hx & ->%Z.eqb_eq). specialize (Hb _ Hx).
  destruct (x =? 0); [done|]. simpl in *. by apply negb_true_iff.
Qed.

(** The fuel of a loop is enough for its text. *)
Lemma text_short s t k n : drop s buf = t ++ k → first (λ _, true) k → (n <= length t)%nat → (n <= es - s)%nat.
Proof.
  intros Hd (c & l & -> & _) Hn. apply here_len in Hd; [|by destruct t]. rewrite length_app in Hd. simpl in Hd. lia.
Qed.
Lemma args_short (args : list (list Z * list redir)) : (length args <= length (concat (map show_arg args)))%nat.
Proof. induction args as [|a args IH]; [done|]. simpl. unfold show_arg at 1, tok. rewrite !length_app. simpl. lia. Qed.
Lemma bg_short bg : (bg <= length (show_bg bg))%nat.
Proof. induction bg as [|bg IH]; [done|]. unfold show_bg in *. simpl. lia. Qed.

(** Texts that begin with no white space before such a text. *)
Definition starts (t : list Z) : Prop := ∀ k, first (in_set stops) k → first (λ _, true) (t ++ k).
Lemma starts_syntax :
  (∀ l, line_ok l → starts (show_line l)) ∧ (∀ p, pipe_ok p → starts (show_pipe p)) ∧ (∀ e, exec_ok e → starts (show_exec e)).
Proof.
  assert (Hb : ∀ bg k, first (in_set stops) k → first (in_set stops) (show_bg bg ++ k)).
  { intros [|bg] k Hk; [done|]. by eexists _, _. }
  apply syntax_ind; unfold starts; simpl.
  - intros p IH bg Hp k Hk. rewrite <-app_assoc. by apply IH, Hb.
  - intros p IH bg l _ [Hp _] k Hk. rewrite <-!app_assoc. apply IH, Hb; [done|]. by eexists _, _.
  - auto.
  - intros e IH p _ [He _] k Hk. rewrite <-!app_assoc. apply IH; [done|]. by eexists _, _.
  - intros pre args (_ & Ha & _) k Hk. rewrite <-app_assoc. by eapply first_any, first_simple.
  - intros l _ rs _ k _. by eexists _, _.
Qed.

(** The parsing function [f] reads the text [t] before a text that begins with
    a character of [ks], and its command means [a]. *)
Definition reads (f : nat → M nat cmd) (cost : nat) (ks : list Z) (t : list Z) (a : acmd) : Prop :=
  ∀ n s k, (cost <= n)%nat → drop s buf = t ++ k → first (in_set ks) k →
    ∃ c s', f n s = Ok c s' ∧ abs buf c = a ∧ drop s' buf = k.

Lemma exec_simple_reads pre args : exec_ok (Simple pre args) →
  reads (parseexec buf es) 1 stops (show_exec (Simple pre args)) (mean_exec (Simple pre args)).
Proof.
  intros (Hpre & Ha & Hmax) [|n] s k Hn Hd Hk; [lia|]. simpl in Hd. rewrite <-app_assoc in Hd.
  assert (Hf : first noredir (concat (map show_arg args) ++ k)).
  { eapply first_mono; [apply stops_noredir|by apply first_args]. }
  destruct (parseredirs_run pre (EXEC []) s _ Hpre Hd Hf) as (c1 & s1 & Hrun1 & Habs1 & Hd1).
  destruct (args_run args (es - s1) 0 c1 s1 k Ha Hd1 Hk) as (c & s' & Hrun & Habs & Hd'); [|done|].
  { eapply text_short; [exact Hd1|by eapply first_any|apply args_short]. }
  exists c, s'. split; [|split; [|done]].
  - rewrite parseexec_S. unfold mbind, M_bind. erewrite (peek_first _ _ _ _ Hd); [|by apply first_simple|].
    + by rewrite Hrun1.
    + intros x Hx%negb_true_iff. unfold in_set. simpl. by rewrite Hx, andb_false_r.
  - by rewrite Habs, Habs1.
Qed.

(** Consuming the symbol [c]. *)
Lemma symbol_run s c l : drop s buf = tok [c] ++ l → in_set symbols c = true → first (λ _, true) l →
  ∃ t, gettoken buf es s = Ok t (s + 2)%nat ∧ drop (s + 2) buf = l.
Proof.
  intros Hd Hs Hf. assert (Hd1 : drop (s + 2) buf = l) by (by apply (here_drop s (tok [c]))).
  exists (c, s, S s). split; [|done]. eapply gettoken_sym; [exact Hd|by eapply first_here|done].
Qed.

Lemma exec_block_reads l rs : line_ok l → Forall redir_ok rs →
  reads (parseline buf es) (cost_line l) [0; 41] (show_line l) (mean_line l) →
  reads (parseexec buf es) (cost_exec (Block l rs)) stops (show_exec (Block l rs)) (mean_exec (Block l rs)).
Proof.
  intros Hl Hrs IH n s k Hn Hd Hk. cbn [cost_exec] in Hn. destruct n as [|[|n]]; [lia..|].
  cbn [show_exec] in Hd. rewrite <-!app_assoc in Hd.
  destruct (symbol_run _ _ _ Hd) as (t1 & Hg1 & Hd1); [done| |].
  { apply (proj1 starts_syntax); [done|]. by eexists _, _. }
  destruct (IH n _ _ ltac:(lia) Hd1) as (c1 & s1 & Hrun1 & Habs1 & Hd2); [by eexists _, _|].
  destruct (symbol_run _ _ _ Hd2) as (t2 & Hg2 & Hd3); [done|by eapply first_redirs, first_any|].
  destruct (parseredirs_run rs c1 _ _ Hrs Hd3) as (c & s' & Hrun & Habs & Hd').
  { eapply first_mono; [|exact Hk]. intros x Hx. apply stops_noredir. unfold wordc_sep. by rewrite Hx, orb_true_r. }
  exists c, s'. split; [|split; [|done]].
  - rewrite parseexec_S, parseblock_S. unfold mbind, M_bind.
    rewrite (first_in _ _ _ _ Hd) by done. rewrite (first_in _ _ _ _ Hd) by done. cbn [negb]. rewrite Hg1, Hrun1.
    rewrite (first_in _ _ _ _ Hd2) by done. cbn [negb]. by rewrite Hg2.
  - by rewrite Habs, Habs1.
Qed.

Lemma pipe_reads e p : exec_ok e → pipe_ok p →
  reads (parseexec buf es) (cost_exec e) stops (show_exec e) (mean_exec e) →
  reads (parsepipe buf es) (cost_pipe p) [0; 41; 38; 59] (show_pipe p) (mean_pipe p) →
  reads (parsepipe buf es) (cost_pipe (Pipe e p)) [0; 41; 38; 59] (show_pipe (Pipe e p)) (mean_pipe (Pipe e p)).
Proof.
  intros He Hp IHe IHp [|n] s k Hn Hd Hk; cbn [cost_pipe] in Hn; [lia|].
  cbn [show_pipe] in Hd. rewrite <-!app_assoc in Hd.
  destruct (IHe n _ _ ltac:(lia) Hd) as (c1 & s1 & Hrun1 & Habs1 & Hd1); [by eexists _, _|].
  destruct (symbol_run _ _ _ Hd1) as (t & Hg & Hd2); [done| |].
  { apply (proj1 (proj2 starts_syntax)); [done|]. eapply first_weaken; [|exact Hk]. set_solver. }
  destruct (IHp n _ _ ltac:(lia) Hd2 Hk) as (c2 & s2 & Hrun2 & Habs2 & Hd3).
  exists (PIPE c1 c2), s2. split; [|split; [simpl; congruence|done]].
  rewrite parsepipe_S. unfold mbind, M_bind. rewrite Hrun1, (first_in _ _ _ _ Hd1) by done. cbn [negb].
  by rewrite Hg, Hrun2.
Qed.

Lemma one_reads e : exec_ok e →
  reads (parseexec buf es) (cost_exec e) stops (show_exec e) (mean_exec e) →
  reads (parsepipe buf es) (cost_pipe (One e)) [0; 41; 38; 59] (show_pipe (One e)) (mean_pipe (One e)).
Proof.
  intros He IH [|n] s k Hn Hd Hk; cbn [cost_pipe] in Hn; [lia|].
  destruct (IH n _ _ ltac:(lia) Hd) as (c & s' & Hrun & Habs & Hd').
  { eapply first_weaken; [|exact Hk]. set_solver. }
  exists c, s'. split; [|done]. rewrite parsepipe_S. unfold mbind, M_bind.
  by rewrite Hrun, (first_out _ _ _ _ Hd' Hk).
Qed.

(** A pipeline with its & signs. *)
Lemma backs_read p bg n s k : pipe_ok p →
  reads (parsepipe buf es) (cost_pipe p) [0; 41; 38; 59] (show_pipe p) (mean_pipe p) →
  (cost_pipe p <= n)%nat → drop s buf = show_pipe p ++ show_bg bg ++ k → first (in_set [0; 41; 59]) k →
  ∃ c s0 s', parsepipe buf es n s = Ok c s0 ∧ parsebacks buf es (es - s0) c s0 = Ok (Nat.iter bg BACK c) s' ∧
    abs buf (Nat.iter bg BACK c) = Nat.iter bg ABack (mean_pipe p) ∧ drop s' buf = k.
Proof.
  intros Hp IH Hn Hd Hk. destruct (IH n _ _ Hn Hd (first_bg bg k Hk)) as (c & s0 & Hrun & Habs & Hd0).
  destruct (backs_run bg (es - s0) c s0 k Hd0) as (s' & Hrun' & Hd').
  { eapply first_mono; [|exact Hk]. intros x Hx. apply negb_true_iff, Z.eqb_neq. intros ->. by vm_compute in Hx. }
  { eapply text_short; [exact Hd0|by eapply first_any|apply bg_short]. }
  exists c, s0, s'. split; [done|]. split; [done|]. split; [|done]. by rewrite abs_backs, Habs.
Qed.

Lemma parse_reads :
  (∀ l, line_ok l → reads (parseline buf es) (cost_line l) [0; 41] (show_line l) (mean_line l)) ∧
  (∀ p, pipe_ok p → reads (parsepipe buf es) (cost_pipe p) [0; 41; 38; 59] (show_pipe p) (mean_pipe p)) ∧
  (∀ e, exec_ok e → reads (parseexec buf es) (cost_exec e) stops (show_exec e) (mean_exec e)).
Proof.
  apply syntax_ind.
  - intros p IH bg Hp [|n] s k Hn Hd Hk; cbn [cost_line] in Hn; [lia|].
    cbn [show_line] in Hd. rewrite <-app_assoc in Hd.
    destruct (backs_read p bg n s k Hp (IH Hp)) as (c & s0 & s' & Hrun & Hbk & Habs & Hd'); [lia|done| |].
    { eapply first_weaken; [|exact Hk]. set_solver. }
    eexists _, s'. split; [|done]. rewrite parseline_S. unfold mbind, M_bind, getM.
    by rewrite Hrun, Hbk, (first_out _ _ _ _ Hd' Hk).
  - intros p IHp bg l IHl [Hp Hl] [|n] s k Hn Hd Hk; cbn [cost_line] in Hn; [lia|].
    cbn [show_line] in Hd. rewrite <-!app_assoc in Hd.
    destruct (backs_read p bg n s _ Hp (IHp Hp) ltac:(lia) Hd) as (c & s0 & s1 & Hrun & Hbk & Habs & Hd1); [by eexists _, _|].
    destruct (symbol_run _ _ _ Hd1) as (t & Hg & Hd2); [done| |].
    { apply (proj1 starts_syntax); [done|]. eapply first_weaken; [|exact Hk]. set_solver. }
    destruct (IHl Hl n _ _ ltac:(lia) Hd2 Hk) as (c2 & s' & Hrun2 & Habs2 & Hd').
    exists (LIST (Nat.iter bg BACK c) c2), s'. split; [|split; [cbn [abs mean_line]; congruence|done]].
    rewrite parseline_S. unfold mbind, M_bind, getM.
    rewrite Hrun, Hbk, (first_in _ _ _ _ Hd1) by done. cbn [negb]. by rewrite Hg, Hrun2.
  - intros e IH He. apply one_reads; auto.
  - intros e IHe p IHp [He Hp]. apply pipe_reads; auto.
  - intros pre args H. by apply exec_simple_reads.
  - intros l IH rs [Hl Hrs]. apply exec_block_reads; auto.
Qed.
End roundtrip.

Lemma cost_bound :
  (∀ l, (cost_line l <= 4 * length (show_line l) + 3)%nat) ∧ (∀ p, (cost_pipe p <= 4 * length (show_pipe p) + 2)%nat) ∧
  (∀ e, (cost_exec e <= 4 * length (show_exec e) + 1)%nat).
Proof.
  apply syntax_ind; intros; cbn [cost_line cost_pipe cost_exec show_line show_pipe show_exec];
    unfold tok; rewrite ?length_app; cbn [length]; lia.
Qed.

(** Storing the terminators changes no word. *)
Lemma slice_eq (l b : list Z) q n : length l = length b → (∀ i, (q <= i < q + n)%nat → b !! i = l !! i) → slice q n b = slice q n l.
Proof.
  intros Hlen H. unfold slice. apply list_eq. intros i. destruct (decide (i < n)%nat).
  - rewrite !lookup_take_lt, !lookup_drop by done. apply H. lia.
  - rewrite !lookup_take_ge by lia. done.
Qed.
Lemma abs_keep (l b : list Z) e c : length l = length b →
  (∀ i, char_at l wordc i → b !! i = l !! i) → Forall (λ a, word_at l e a.1 a.2) (words c) → abs b c = abs l c.
Proof.
  intros Hlen Hk.
  assert (Hw : ∀ q eq, word_at l e q eq → slice q (eq - q) b = slice q (eq - q) l).
  { intros q eq (Hq & Hin & _). apply slice_eq; [done|]. intros i Hi. apply Hk, Hin. lia. }
  induction c; simpl; rewrite ?Forall_app; intros; destruct_and?; f_equal; auto.
  - apply map_ext_Forall. eapply Forall_impl; [done|]. simpl. intros a Ha. by apply Hw.
  - apply Hw. by eapply (proj1 (Forall_singleton _ _)) in H1.
Qed.

(** A text of the grammar has no terminator. *)
Lemma word_no_nul w : word_ok w → 0 ∉ tok w.
Proof.
  intros [_ Hw] [H|H]%elem_of_app; [|set_solver by lia]. rewrite Forall_forall in Hw. by apply Hw in H.
Qed.
Lemma redirs_no_nul rs : Forall redir_ok rs → 0 ∉ show_redirs rs.
Proof.
  unfold show_redirs. induction 1 as [|r rs Hr _ IH]; simpl; [set_solver|]. rewrite elem_of_app. intros [H|H]; [|done].
  destruct r; simpl in *; apply word_no_nul in Hr; set_solver by lia.
Qed.
Lemma args_no_nul (args : list (list Z * list redir)) :
  Forall (λ a, word_ok a.1 ∧ Forall redir_ok a.2) args → 0 ∉ concat (map show_arg args).
Proof.
  induction 1 as [|a args [Hw Hr] _ IH]; simpl; [set_solver|]. unfold show_arg. rewrite !elem_of_app.
  apply word_no_nul in Hw. apply redirs_no_nul in Hr. tauto.
Qed.
Lemma no_nul :
  (∀ l, line_ok l → 0 ∉ show_line l) ∧ (∀ p, pipe_ok p → 0 ∉ show_pipe p) ∧ (∀ e, exec_ok e → 0 ∉ show_exec e).
Proof.
  assert (Hb : ∀ bg, 0 ∉ show_bg bg).
  { unfold show_bg. induction bg; simpl; set_solver by lia. }
  assert (Ht : ∀ c, c ≠ 0 → 0 ∉ tok [c]) by (unfold tok; set_solver by lia).
  apply syntax_ind; cbn [line_ok pipe_ok exec_ok show_line show_pipe show_exec]; intros; destruct_and?;
    rewrite ?not_elem_of_app; repeat split; auto using redirs_no_nul, args_no_nul; by apply Ht.
Qed.

(** C39: Printing a command line of the shell's grammar and parsing it gives
    back the command the line stands for: pipelines, lists, background
    commands, blocks and redirections nest as the grammar says, and every
    string of the command is, in the line with the terminators stored, the word
    that was printed. *)
Theorem parse_show_roundtrip l :
  line_ok l →
  ∃ c b p, parsecmd (show_line l ++ [0]) = Ok (c, b) p ∧ abs b c = mean_line l.
Proof.
  intros Hl. pose proof (proj1 no_nul l Hl) as Hnul. set (buf := show_line l ++ [0]).
  assert (Hlen : length buf = S (length (show_line l))) by (unfold buf; rewrite length_app; simpl; lia).
  destruct (proj1 (parse_reads buf) l Hl (4 * (length buf - 1) + 4)%nat 0%nat [0]) as (c & s' & Hrun & Habs & Hd').
  { pose proof (proj1 cost_bound l). lia. }
  { done. }
  { by eexists _, _. }
  assert (Hs' : s' = (length buf - 1)%nat).
  { pose proof (here_len _ _ _ Hd') as Hl'. simpl in Hl'. specialize (Hl' ltac:(done)). lia. }
  assert (Htop : parse_top buf (length buf - 1) 0%nat = Ok c s').
  { unfold parse_top, mbind, M_bind. rewrite Hrun. rewrite (peek_here buf [] s' 0 []) by (split; [done|by eexists _, _]).
    unfold getM. by rewrite Hs', Nat.eqb_refl. }
  assert (Hn : (length buf - 1)%nat = length (show_line l)) by lia.
  rewrite Hn in Htop. destruct (parse_top_done _ _ _ Hnul Htop) as (_ & Hok & b & Hb & Hlb & Hkeep & _).
  exists c, b, s'. unfold parsecmd. fold buf in Hb, Hok, Hkeep |- *. rewrite Hn, Htop, Hb. split; [done|].
  rewrite <-Habs. eapply abs_keep; [lia|done|done].
Qed.

(** "( a < b ; c ) | d & " *)
Lemma parse_show_roundtrip_witness :
  ∃ c b p, parsecmd ([40; 32; 97; 32; 60; 32; 98; 32; 59; 32; 99; 32; 41; 32; 124; 32; 100; 32; 38; 32] ++ [0]) = Ok (c, b) p ∧
    abs b c = ABack (APipe (AList (ARedir (AExec [[97]]) [98] 0 0) (AExec [[99]])) (AExec [[100]])).
Proof.
  apply (parse_show_roundtrip
    (Last (Pipe (Block (Seq (One (Simple [] [([97], [RIn [98]])])) 0 (Last (One (Simple [] [([99], [])])) 0)) [])
                (One (Simple [] [([100], [])]))) 1)).
  simpl. unfold word_ok, MAXARGS.
  repeat first [split | done | lia | apply Forall_cons | apply Forall_nil].
Defined.
