(* ===== verification/Runcmd.v ===== *)
(** * The execution of commands by the shell (runcmd, getcmd and main of sh.c)

    A process of the shell is its table of file descriptors. A system call works
    on the table as the kernel does: open, dup and pipe take the lowest free
    descriptors. The world that the processes share has the number of pipes made
    so far, the number of processes that can still be forked, and what happened:
    the programs that were started, with their descriptors, and the messages.
    fork copies the table, so that the order in which parent and child go on
    does not matter for it; the model runs the child first. Whether open and exec
    succeed are parameters. A program that is started takes the place of the
    process; when exec fails it returns, and the process prints two messages and
    exits. *)

From S2P Require Import Prelude Ulib Sh.

(** ** Descriptors *)
Inductive desc :=
| Std (n : nat)
| File (name : nat) (mode : Z)
| PipeR (k : nat)
| PipeW (k : nat).

#[export] Instance desc_eq_dec : EqDecision desc.
Proof. solve_decision. Defined.

Abbreviation fdt := (list (option desc)).

Inductive event :=
| Exec (args : list (nat * nat)) (t : fdt)
(** exec returned: argv[1], and "exec ... failed" with argv[0], are printed to
    descriptor 2 of the table. *)
| ExecFailed (args : list (nat * nat)) (t : fdt)
| Said (msg : string).

Record world := mkWorld { pipes : nat; forks : nat; events : list event }.

Definition say (e : event) (w : world) : world := mkWorld (pipes w) (forks w) (events w ++ [e]).

(** The lowest free descriptor. *)
Fixpoint fd_free (t : fdt) : option nat :=
  match t with
  | [] => None
  | None :: _ => Some O
  | Some _ :: t' => S <$> fd_free t'
  end.

Definition fd_take (d : desc) (t : fdt) : option (nat * fdt) :=
  match fd_free t with
  | Some i => Some (i, <[i := Some d]> t)
  | None => None
  end.

Definition fd_close (i : nat) (t : fdt) : fdt := <[i := None]> t.
(** dup; on failure nothing happens, as the shell does not look at its result. *)
Definition fd_dup (i : nat) (t : fdt) : fdt :=
  match mjoin (t !! i) with
  | Some d => match fd_take d t with Some (_, t') => t' | None => t end
  | None => t
  end.

(** pipe: the two descriptors and the new table. *)
Definition fd_pipe (t : fdt) (w : world) : option (nat * nat * fdt * world) :=
  match fd_take (PipeR (pipes w)) t with
  | Some (p0, t1) =>
      match fd_take (PipeW (pipes w)) t1 with
      | Some (p1, t2) => Some (p0, p1, t2, mkWorld (S (pipes w)) (forks w) (events w))
      | None => None
      end
  | None => None
  end.

(** fork1: [None] when fork fails, and the process says so and exits. *)
Definition fork1 (w : world) : option world :=
  match forks w with
  | O => None
  | S n => Some (mkWorld (pipes w) n (events w))
  end.

Section runcmd.
(** Whether open of a file and exec of a program succeed. *)
Context (can_open : nat → Z → bool) (can_exec : list (nat * nat) → bool).

Definition exec_event (args : list (nat * nat)) (t : fdt) : event :=
  if can_exec args then Exec args t else ExecFailed args t.

(** The whole of a process that calls [runcmd], with its children. *)
Fixpoint runcmd (c : cmd) (t : fdt) (w : world) : world :=
  match c with
  | EXEC args =>
      match args with
      | [] => w
      | _ => say (exec_event args t) w
      end
  | REDIR c' file _ mode fd =>
      let t := fd_close (Z.to_nat fd) t in
      if can_open file mode then
        match fd_take (File file mode) t with
        | Some (_, t') => runcmd c' t' w
        | None => say (Said "open failed") w
        end
      else say (Said "open failed") w
  | LIST l r =>
      match fork1 w with
      | None => say (Said "fork") w
      | Some w => runcmd r t (runcmd l t w)
      end
  | PIPE l r =>
      match fd_pipe t w with
      | None => say (Said "pipe") w
      | Some (p0, p1, t, w) =>
          match fork1 w with
          | None => say (Said "fork") w
          | Some w =>
              let w := runcmd l (fd_close p1 (fd_close p0 (fd_dup p1 (fd_close 1 t)))) w in
              match fork1 w with
              | None => say (Said "fork") w
              | Some w => runcmd r (fd_close p1 (fd_close p0 (fd_dup p0 (fd_close 0 t)))) w
              end
          end
      end
  | BACK c' =>
      match fork1 w with
      | None => say (Said "fork") w
      | Some w => runcmd c' t w
      end
  end.

(** ** main *)

(** [getcmd]: the buffer of 100 bytes with the next line of the input; [None] at
    its end. *)
Definition getcmd (input : list Z) : option (list Z * list Z) :=
  let '(b, rest) := Ulib.gets 100 input in
  if b !!! 0%nat =? 0 then None else Some (b ++ replicate (100 - length b) 0, rest).

(** The string at the beginning of a buffer. *)
Fixpoint cstr (b : list Z) : list Z :=
  match b with
  | [] => []
  | c :: b' => if c =? 0 then [] else c :: cstr b'
  end.

(** [buf[strlen(buf)-1] = 0]: the last character of the string is cut off. *)
Definition chop (b : list Z) : list Z := <[(length (cstr b) - 1)%nat := 0]> b.

(** What the shell does with a line. *)
Inductive action :=
| ReturnToParent
| Chdir (path : list Z)
| SetVar (s : list Z)
| Run (c : cmd) (buf : list Z)
| Fail (e : stop).

Definition shell_line (b : list Z) : action :=
  if (b !!! 0%nat =? 99) && (b !!! 1%nat =? 100) && (b !!! 2%nat =? 32) then
    let b := chop b in
    if (b !!! 3%nat =? 46) && (b !!! 4%nat =? 46) then ReturnToParent else Chdir (cstr (drop 3 b))
  else
    let s := cstr (chop b) in
    if bool_decide (61 ∈ s) then SetVar s
    else
      match parsecmd (s ++ [0]) with
      | Ok (c, buf) _ => Run c buf
      | Err e _ => Fail e
      end.

(** The console is opened until there are three descriptors. *)
Fixpoint sh_open (n : nat) (con : desc) (t : fdt) : fdt :=
  match n with
  | O => t
  | S n' =>
      match fd_take con t with
      | None => t
      | Some (fd, t') => if (3 <=? fd)%nat then fd_close fd t' else sh_open n' con t'
      end
  end.

(** The lines that [main] gets, one after the other, and what it does with each;
    the loop ends where the input does. *)
Fixpoint sh_lines (n : nat) (input : list Z) : list action :=
  match n with
  | O => []
  | S n' =>
      match getcmd input with
      | None => []
      | Some (b, rest) => shell_line b :: sh_lines n' rest
      end
  end.
(** [con]: the console; there are at most as many lines as characters. *)
Definition sh_main (con : desc) (t : fdt) (input : list Z) : fdt * list action :=
  (sh_open 4 con t, sh_lines (length input) input).

Lemma getcmd_line l rest : Forall (λ c, c ≠ 0 ∧ c ≠ 10 ∧ c ≠ 13) l → (length l < 99)%nat →
  getcmd (l ++ [10] ++ rest) = Some (l ++ [10] ++ replicate (99 - length l) 0, rest).
Proof.
  intros Hl Hn. unfold getcmd, Ulib.gets.
  assert (∀ n, (length l < n)%nat → Ulib.gets_loop n (l ++ [10] ++ rest) = (l ++ [10], rest)) as Hg.
  { clear Hn. induction l as [|c l IH]; intros [|n] Hn; simpl in *; try lia; [done|].
    apply Forall_cons in Hl as [(_ & H1 & H2) Hl]. rewrite (proj2 (Z.eqb_neq c 10)), (proj2 (Z.eqb_neq c 13)) by done. simpl.
    by rewrite IH by (done || lia). }
  rewrite Hg by (change (Z.to_nat (100 - 1)) with 99%nat; lia).
  assert ((((l ++ [10]) ++ [0]) !!! 0%nat =? 0) = false) as ->.
  { destruct l as [|c l]; [done|]. apply Forall_cons in Hl as [[H0 _] _]. by apply Z.eqb_neq. }
  rewrite !length_app. simpl. f_equal. f_equal. rewrite <-!app_assoc. simpl. do 2 f_equal.
  replace (99 - length l)%nat with (S (100 - (length l + 1 + 1)))%nat by lia. done.
Qed.

(** The shell has its three descriptors, whatever it was started with, and takes
    the lines of its input one by one, each without those before it. *)
Lemma sh_main_lines con t ls : (4 ≤ length t)%nat → t !! 3%nat = Some None →
  Forall (λ l, Forall (λ c, c ≠ 0 ∧ c ≠ 10 ∧ c ≠ 13) l ∧ (length l < 99)%nat) ls →
  ∃ t', sh_main con t (ls ≫= λ l, l ++ [10]) = (t', (λ l, shell_line (l ++ [10] ++ replicate (99 - length l) 0)) <$> ls) ∧
    (∀ i, (i < 3)%nat → ∃ d, t' !! i = Some (Some d)) ∧ ∀ i, (3 ≤ i)%nat → t' !! i = t !! i.
Proof.
  intros Ht H3 Hls. eexists. split; [unfold sh_main; f_equal; clear Ht H3|].
  - assert (∀ n, (length ls ≤ n)%nat → sh_lines n (ls ≫= λ l, l ++ [10]) = (λ l, shell_line (l ++ [10] ++ replicate (99 - length l) 0)) <$> ls) as H.
    { induction Hls as [|l ls [Hl Hn] _ IH]; intros n Hlen; [by destruct n|]. destruct n as [|n]; simpl in *; [lia|].
      rewrite <-app_assoc, getcmd_line by done. f_equal. apply IH. lia. }
    apply H. clear. induction ls as [|l ls IH]; [done|]. cbn [mbind list_bind length] in *. rewrite !length_app. simpl length. lia.
  - destruct t as [|[d0|] [|[d1|] [|[d2|] [|[d3|] t]]]]; simpl in *; try lia; try done;
      (split; [intros [|[|[|i]]] Hi; [by eexists..|lia]|intros [|[|[|[|i]]]] Hi; [lia..|done|done]]).
Qed.

(** ** What the descriptors of the programs are

    The reference reading of a command: a program reads from [i] and writes to
    [o]; a pipe connects the two sides, a redirection replaces one end. The
    result is the list of programs with their ends and the number of pipes. *)
Fixpoint plumb (c : cmd) (i o : desc) (n : nat) : list (list (nat * nat) * desc * desc) * nat :=
  match c with
  | EXEC args => (match args with [] => [] | _ => [(args, i, o)] end, n)
  | REDIR c' file _ mode fd => if fd =? 0 then plumb c' (File file mode) o n else plumb c' i (File file mode) n
  | LIST l r => let '(a, n) := plumb l i o n in let '(b, n) := plumb r i o n in (a ++ b, n)
  | PIPE l r => let '(a, m) := plumb l i (PipeW n) (S n) in let '(b, m) := plumb r (PipeR n) o m in (a ++ b, m)
  | BACK c' => plumb c' i o n
  end.

(** The forks that the command takes. *)
Fixpoint nforks (c : cmd) : nat :=
  match c with
  | EXEC _ => 0
  | REDIR c' _ _ _ _ => nforks c'
  | LIST l r => 1 + nforks l + nforks r
  | PIPE l r => 2 + nforks l + nforks r
  | BACK c' => 1 + nforks c'
  end.

(** Redirections of descriptors 0 and 1 whose files can be opened. *)
Fixpoint redirs_ok (c : cmd) : Prop :=
  match c with
  | EXEC _ => True
  | REDIR c' file _ mode fd => (fd = 0 ∨ fd = 1) ∧ can_open file mode = true ∧ redirs_ok c'
  | LIST l r | PIPE l r => redirs_ok l ∧ redirs_ok r
  | BACK c' => redirs_ok c'
  end.

(** A table of sixteen descriptors with input, output and error, and nothing
    else open. *)
Definition std (i o : desc) : fdt := [Some i; Some o; Some (Std 2)] ++ replicate 13 None.

Definition execs (l : list (list (nat * nat) * desc * desc)) : list event :=
  (λ x, exec_event x.1.1 (std x.1.2 x.2)) <$> l.

Lemma runcmd_std c : ∀ i o w, redirs_ok c → (nforks c <= forks w)%nat →
  let '(l, n) := plumb c i o (pipes w) in
  runcmd c (std i o) w = mkWorld n (forks w - nforks c) (events w ++ execs l).
Proof.
  induction c as [args|c IH file efile mode fd|l IHl r IHr|l IHl r IHr|c IH]; intros i o w Hok Hf; cbn [plumb runcmd nforks redirs_ok] in *.
  - rewrite Nat.sub_0_r. destruct args; [|done]. destruct w. cbn. by rewrite app_nil_r.
  - destruct Hok as ([->| ->] & -> & Hok); cbn -[runcmd plumb].
    + apply (IH (File file mode) o w Hok Hf).
    + apply (IH i (File file mode) w Hok Hf).
  - destruct Hok as [Hl Hr]. unfold fork1. destruct w as [np nf ev]. cbn [forks pipes events] in *.
    destruct nf as [|nf]; [lia|]. cbn -[runcmd plumb]. 
    specialize (IHl i (PipeW np) (mkWorld (S np) nf ev) Hl ltac:(cbn; lia)). cbn [pipes forks events] in IHl.
    destruct (plumb l i (PipeW np) (S np)) as [a m] eqn:Ea.
    change [Some i; Some (PipeW np); Some (Std 2); None; None; None; None; None; None; None; None; None; None; None; None; None] with (std i (PipeW np)).
    rewrite IHl. cbn [forks pipes events].
    destruct (nf - nforks l)%nat as [|k] eqn:Ek; [lia|].
    specialize (IHr (PipeR np) o (mkWorld m k (ev ++ execs a)) Hr ltac:(cbn; lia)). cbn [pipes forks events] in IHr.
    destruct (plumb r (PipeR np) o m) as [b m'] eqn:Eb.
    change [Some (PipeR np); Some o; Some (Std 2); None; None; None; None; None; None; None; None; None; None; None; None; None] with (std (PipeR np) o).
    rewrite IHr. unfold execs. rewrite fmap_app, (assoc_L (++)). f_equal. lia.
  - destruct Hok as [Hl Hr]. unfold fork1. destruct w as [np nf ev]. cbn [forks pipes events] in *.
    destruct nf as [|nf]; [lia|]. 
    specialize (IHl i o (mkWorld np nf ev) Hl ltac:(cbn; lia)). cbn [pipes forks events] in IHl.
    destruct (plumb l i o np) as [a m]. rewrite IHl.
    specialize (IHr i o (mkWorld m (nf - nforks l) (ev ++ execs a)) Hr ltac:(cbn; lia)). cbn [pipes forks events] in IHr.
    destruct (plumb r i o m) as [b m']. rewrite IHr. unfold execs. rewrite fmap_app, (assoc_L (++)). f_equal. lia.
  - unfold fork1. destruct w as [np nf ev]. cbn [forks pipes events] in *. destruct nf as [|nf]; [lia|].
    specialize (IH i o (mkWorld np nf ev) Hok ltac:(cbn; lia)). cbn [pipes forks events] in IH.
    destruct (plumb c i o np) as [a m]. rewrite IH. f_equal.
Qed.

(** C18: [runcmd], in a process with only descriptors 0, 1 and 2 open and with
    enough processes left, and with redirections of descriptors 0 and 1 whose
    files can be opened, calls exec for exactly the programs of the command. The
    process of each has the input and the output that the reference reading of
    pipes and redirections gives it, and no other descriptor: no end of a pipe is
    left open in a program that does not use it. A program that exec cannot start
    leaves its two messages, and the others are started all the same. *)
Theorem runcmd_plumbing c i o w :
  redirs_ok c → (nforks c <= forks w)%nat →
  events (runcmd c (std i o) w) = events w ++ execs (plumb c i o (pipes w)).1.
Proof. intros Hok Hf. pose proof (runcmd_std c i o w Hok Hf) as H. destruct (plumb c i o (pipes w)) as [l n]. by rewrite H. Qed.

End runcmd.

(** "a < f | b > g", where there is no program a. *)
Lemma runcmd_plumbing_witness :
  let c := PIPE (REDIR (EXEC [(0, 1)%nat]) 4 5 0 0) (REDIR (EXEC [(8, 9)%nat]) 12 13 1 1) in
  events (runcmd (λ _ _, true) (λ args, bool_decide (args = [(8, 9)%nat])) c (std (Std 0) (Std 1)) (mkWorld 0 2 [])) =
    [ExecFailed [(0, 1)%nat] (std (File 4 0) (PipeW 0)); Exec [(8, 9)%nat] (std (PipeR 0) (File 12 1))].
Proof.
  intros c. rewrite (runcmd_plumbing (λ _ _, true) (λ args, bool_decide (args = [(8, 9)%nat])) c (Std 0) (Std 1) (mkWorld 0 2 [])); [reflexivity| |].
  - cbn. auto.
  - cbn. lia.
Defined.
