(* ===== verification/Uprogs.v ===== *)
(** * Small user programs (wc.c, cat.c, echo.c, ls.c)

    The answers of the system calls are arguments: the results of read as the
    pieces of the input in their order, the variables of get, what open and stat
    find. The result of a program is what it prints. Strings are lists of bytes
    without their terminator. *)

From S2P Require Import Prelude Cstring Ulib.

(** ** wc *)

(** The characters that separate words: blank, return, tab, newline and vertical
    tab, as a string. *)
Definition wc_space : list Z := [32; 13; 9; 10; 11; 0].
(** [strchr] finds no terminator, so that a zero byte is part of a word. *)
Definition is_space (c : Z) : bool := match Ulib.strchr wc_space c with Some (Some _) => true | _ => false end.

Record wcst := mkWc { wc_l : Z; wc_w : Z; wc_c : Z; inword : bool }.

Definition wc_char (s : wcst) (c : Z) : wcst :=
  let l := if c =? 10 then s32 (wc_l s + 1) else wc_l s in
  let n := s32 (wc_c s + 1) in
  if is_space c then mkWc l (wc_w s) n false
  else if negb (inword s) then mkWc l (s32 (wc_w s + 1)) n true
  else mkWc l (wc_w s) n (inword s).

(** The reads return the pieces and then 0, or a negative number when [err]. *)
Definition wc_loop (reads : list (list Z)) : wcst := foldl (foldl wc_char) (mkWc 0 0 0 false) reads.

Definition wc (reads : list (list Z)) (err : bool) (name : list Z) : option (list Z) :=
  if err then None
  else
    let s := wc_loop reads in
    a ← printint (wc_l s) 10 true;
    b ← printint (wc_w s) 10 true;
    c ← printint (wc_c s) 10 true;
    Some (a ++ [32] ++ b ++ [32] ++ c ++ [32] ++ name ++ [10]).

(** The reference: a word starts where a character that is no separator follows
    a separator or the beginning. *)
Fixpoint words (prev : bool) (l : list Z) : nat :=
  match l with
  | [] => 0
  | c :: l' => (if is_space c then 0 else if prev then 1 else 0) + words (is_space c) l'
  end.
Definition newlines (l : list Z) : nat := length (filter (λ c, c = 10) l).

Lemma newlines_cons c l : newlines (c :: l) = ((if (c =? 10)%Z then 1 else 0) + newlines l)%nat.
Proof. unfold newlines. rewrite filter_cons. by destruct (Z.eqb_spec c 10); case_decide. Qed.

Lemma wc_spec l : ∀ s, 0 ≤ wc_l s → 0 ≤ wc_w s → 0 ≤ wc_c s →
  wc_l s + Z.of_nat (length l) < 2 ^ 31 → wc_w s + Z.of_nat (length l) < 2 ^ 31 → wc_c s + Z.of_nat (length l) < 2 ^ 31 →
  foldl wc_char s l = mkWc (wc_l s + Z.of_nat (newlines l)) (wc_w s + Z.of_nat (words (negb (inword s)) l)) (wc_c s + Z.of_nat (length l))
    (match last l with Some c => negb (is_space c) | None => inword s end).
Proof.
  induction l as [|c l IH]; intros s H1 H2 H3 B1 B2 B3; cbn [foldl].
  - destruct s. cbn. by rewrite !Z.add_0_r.
  - cbn [length] in *. assert (Et : wc_char s c = mkWc (if c =? 10 then wc_l s + 1 else wc_l s)
      (if is_space c then wc_w s else if negb (inword s) then wc_w s + 1 else wc_w s) (wc_c s + 1) (negb (is_space c))).
    { unfold wc_char. rewrite !s32_small by lia. destruct (is_space c); [done|]. by destruct s as [? ? ? []]. }
    rewrite Et, IH; cbn [wc_l wc_w wc_c inword]; try (repeat case_match; lia). rewrite newlines_cons, negb_involutive. cbn [words].
    replace (last (c :: l)) with (Some (default c (last l))) by (rewrite last_cons; by destruct (last l)).
    f_equal; [destruct (c =? 10); lia|destruct (is_space c), (negb (inword s)); lia|lia|by destruct (last l)].
Qed.

Lemma foldl_concat {A B} (f : A → B → A) ls : ∀ a, foldl (foldl f) a ls = foldl f a (concat ls).
Proof. induction ls as [|l ls IH]; intros a; [done|]. cbn [foldl concat]. by rewrite IH, foldl_app. Qed.

(** [wc] counts lines, words and characters of the whole input, however read
    cuts it into pieces, also in the middle of a word: it prints the number of
    newlines, the number of places where a word starts and the length of the
    input, when that is below 2^31. *)
Theorem wc_correct reads name :
  let l := concat reads in
  Z.of_nat (length l) < 2 ^ 31 →
  wc reads false name =
    (a ← printint (Z.of_nat (newlines l)) 10 true; b ← printint (Z.of_nat (words true l)) 10 true; c ← printint (Z.of_nat (length l)) 10 true;
     Some (a ++ [32] ++ b ++ [32] ++ c ++ [32] ++ name ++ [10])).
Proof.
  intros l Hl. subst l. unfold wc, wc_loop. rewrite foldl_concat, wc_spec by (cbn [wc_l wc_w wc_c]; lia). cbn [wc_l wc_w wc_c inword negb]. by rewrite !Z.add_0_l.
Qed.

(** "a bc", cut in the word, and a newline. *)
Lemma wc_correct_witness :
  Z.of_nat (length (concat [[97; 32; 98]; [99; 10]])) < 2 ^ 31 ∧
  wc [[97; 32; 98]; [99; 10]] false [102] = Some [49; 32; 50; 32; 53; 32; 102; 10].
Proof.
  assert (H : Z.of_nat (length (concat [[97; 32; 98]; [99; 10]])) < 2 ^ 31) by (vm_compute; reflexivity).
  split; [exact H|]. rewrite (wc_correct [[97; 32; 98]; [99; 10]] [102] H). vm_compute. reflexivity.
Defined.

(** ** cat *)

(** [cat]: what is written, and whether a read failed. *)
Definition cat (reads : list (list Z)) (err : bool) : list Z * bool := (foldl (λ out b, out ++ b) [] reads, err).

Lemma cat_copies reads err : (cat reads err).1 = concat reads.
Proof.
  unfold cat. cbn [fst]. change (concat reads) with ([] ++ concat reads). generalize (@nil Z) as out.
  induction reads as [|b reads IH]; intros out; cbn; [by rewrite app_nil_r|]. by rewrite IH, <-(assoc_L (++)).
Qed.

(** ** echo *)
Definition ENAME_LIMIT : nat := 30.

Definition legalSym (t : Z) : bool :=
  ((48 <=? t) && (t <=? 57)) || ((97 <=? t) && (t <=? 122)) || ((65 <=? t) && (t <=? 90)) || (t =? 95).

(** The first position from [pos] on, of [n] to come, where [stop] holds. *)
Fixpoint scan_to (stop : Z → bool) (s : list Z) (n pos : nat) : nat :=
  match n with
  | O => pos
  | S n' => if stop (s !!! pos) then pos else scan_to stop s n' (S pos)
  end.

(** The name after the next dollar sign: its start and its end. *)
Definition findVar (s : list Z) (cur : nat) : option (nat * nat) :=
  let len := length s in
  let startPos := scan_to (λ c, c =? 36) s (len - cur) cur in
  if (startPos <? len)%nat then
    let startPos := S startPos in
    Some (startPos, scan_to (λ c, negb (legalSym c)) s (len - startPos) startPos)
  else None.

Section echo.
(** The variables: [get] returns the value of a name. *)
Context (getv : list Z → option (list Z)).

(** The loop over an argument, with the variables [start] and [current], which
    keep their values from one argument to the next. *)
Fixpoint echo_arg (fuel : nat) (s : list Z) (start current : nat) (out : list Z) : option (list Z * nat * nat) :=
  match fuel with
  | O => None
  | S fuel' =>
      if negb (current <? length s)%nat then Some (out, start, current) else
      let current := start in
      match findVar s current with
      | Some (start, fin) =>
          let '(out, current) :=
            if (current =? start)%nat then (out, current)
            else (out ++ slice current (start - 1 - current) s, Nat.max current (start - 1)) in
          if (ENAME_LIMIT - 1 <=? fin - start)%nat then echo_arg fuel' s start current out
          else
            let v := match getv (slice start (fin - start) s) with Some v => v | None => [] end in
            echo_arg fuel' s fin current (out ++ v)
      | None => echo_arg fuel' s start (Nat.max current (length s)) (out ++ drop current s)
      end
  end.

(** The arguments after the name of the program. *)
Fixpoint echo_args (args : list (list Z)) (start current : nat) (out : list Z) : option (list Z) :=
  match args with
  | [] => Some out
  | s :: args' =>
      '(out, start, current) ← echo_arg (length s + 3) s start current out;
      echo_args args' start current (out ++ match args' with [] => [10] | _ => [32] end)
  end.
Definition echo (args : list (list Z)) : option (list Z) := echo_args args 0 0 [].

(** The reference: a text with its variables replaced. A name of 29 characters
    or more stays as it is, without the dollar sign. *)
Fixpoint span_name (l : list Z) : list Z * list Z :=
  match l with
  | [] => ([], [])
  | c :: l' => if legalSym c then let '(a, r) := span_name l' in (c :: a, r) else ([], l)
  end.
Fixpoint expand (n : nat) (l : list Z) : list Z :=
  match n, l with
  | O, _ | _, [] => []
  | S n', c :: l' =>
      if c =? 36 then
        let '(name, rest) := span_name l' in
        (if (29 <=? length name)%nat then name else default [] (getv name)) ++ expand n' rest
      else c :: expand n' l'
  end.

Lemma span_name_app l : let '(a, r) := span_name l in l = a ++ r ∧ Forall legalSym a ∧ match r with c :: _ => legalSym c = false | [] => True end.
Proof.
  induction l as [|c l IH]; cbn [span_name]; [done|]. destruct (legalSym c) eqn:E; [|by split_and!]. destruct (span_name l) as [a r].
  destruct IH as (-> & Ha & Hr). split_and!; [done|constructor; [by rewrite E|done]|done].
Qed.

Lemma expand_fuel n : ∀ m l, (length l <= n)%nat → (length l <= m)%nat → expand n l = expand m l.
Proof.
  induction n as [|n IH]; intros m l Hn Hm; [by destruct l, m; cbn in *; try lia|]. destruct m as [|m]; [by destruct l; cbn in *; try lia|].
  destruct l as [|c l]; [done|]. cbn [length] in *. cbn [expand]. pose proof (span_name_app l) as Hs. destruct (span_name l) as [a r].
  destruct Hs as (-> & _ & _). rewrite length_app in *. destruct (c =? 36); f_equal; apply IH; rewrite ?length_app; lia.
Qed.

Definition expand_all (l : list Z) : list Z := expand (length l) l.

Lemma expand_all_cons c l : expand_all (c :: l) =
  if c =? 36 then (if (29 <=? length (span_name l).1)%nat then (span_name l).1 else default [] (getv (span_name l).1)) ++ expand_all (span_name l).2
  else c :: expand_all l.
Proof.
  unfold expand_all at 1. cbn [length expand]. pose proof (span_name_app l) as Hs. destruct (span_name l) as [a r]. destruct Hs as (-> & _ & _).
  cbn [fst snd]. unfold expand_all. destruct (c =? 36); [|done]. f_equal. apply expand_fuel; rewrite ?length_app; lia.
Qed.

(** The length of the part before the first character that stops. *)
Fixpoint plen (stop : Z → bool) (l : list Z) : nat :=
  match l with [] => O | c :: l' => if stop c then O else S (plen stop l') end.

Lemma plen_le stop l : (plen stop l <= length l)%nat.
Proof. induction l as [|c l IH]; cbn; [lia|]. destruct (stop c); lia. Qed.

Lemma scan_to_plen stop s n : ∀ pos, (pos + n = length s)%nat → scan_to stop s n pos = (pos + plen stop (drop pos s))%nat.
Proof.
  induction n as [|n IH]; intros pos Hp; cbn [scan_to].
  - rewrite drop_ge by lia. cbn. lia.
  - assert (Hl : s !! pos = Some (s !!! pos)) by (apply list_lookup_lookup_total_lt; lia). rewrite (drop_S _ _ _ Hl). cbn [plen].
    destruct (stop (s !!! pos)); [lia|]. rewrite IH by lia. lia.
Qed.

Lemma span_plen l : span_name l = (take (plen (λ c, negb (legalSym c)) l) l, drop (plen (λ c, negb (legalSym c)) l) l).
Proof. induction l as [|c l IH]; [done|]. cbn [span_name plen]. destruct (legalSym c); [|done]. rewrite IH. done. Qed.

(** Characters up to a dollar sign are copied. *)
Lemma expand_plain k : ∀ l, (k <= plen (λ c, (c =? 36)%Z) l)%nat → expand_all l = take k l ++ expand_all (drop k l).
Proof.
  induction k as [|k IH]; intros [|c l] Hk; try done. cbn [plen] in Hk. destruct (c =? 36) eqn:E; [lia|].
  rewrite expand_all_cons, E. cbn [take drop app]. f_equal. apply IH. lia.
Qed.

Lemma legal_plain l : (plen (λ c, negb (legalSym c)) l <= plen (λ c, (c =? 36)%Z) l)%nat.
Proof.
  induction l as [|c l IH]; [done|]. cbn [plen]. destruct (Z.eqb_spec c 36) as [-> |]; [cbn; lia|]. destruct (negb (legalSym c)); lia.
Qed.

Lemma plen_stop stop l : (plen stop l < length l)%nat → ∃ c r, drop (plen stop l) l = c :: r ∧ stop c = true.
Proof.
  induction l as [|c l IH]; cbn [plen length]; [lia|]. destruct (stop c) eqn:E; intros H; [by exists c, l|]. cbn [drop]. apply IH. lia.
Qed.

Lemma echo_arg_spec fuel : ∀ s start current out, (current < length s)%nat → (start <= length s)%nat → (length s - start + 2 <= fuel)%nat →
  ∃ st, echo_arg fuel s start current out = Some (out ++ expand_all (drop start s), st, length s) ∧ (st <= length s)%nat.
Proof.
  induction fuel as [|fuel IH]; intros s start current out Hc Hs Hf; [lia|]. cbn [echo_arg].
  rewrite (proj2 (Nat.ltb_lt current (length s)) Hc). cbn [negb]. unfold findVar.
  rewrite scan_to_plen by lia. set (k := plen (λ c, (c =? 36)%Z) (drop start s)). assert (Hk : (k <= length s - start)%nat).
  { unfold k. etrans; [apply plen_le|]. rewrite length_drop. lia. }
  destruct (Nat.ltb_spec (start + k) (length s)) as [Hlt|Hge].
  - destruct (plen_stop (λ c, (c =? 36)%Z) (drop start s)) as (c & r & Hd & Hcs); [fold k; rewrite length_drop; lia|]. fold k in Hd.
    rewrite drop_drop in Hd. apply Z.eqb_eq in Hcs as ->. assert (Hr : drop (S (start + k)) s = r).
    { change (S (start + k)) with (1 + (start + k))%nat. rewrite Nat.add_comm, <-drop_drop, Hd. done. }
    rewrite scan_to_plen by lia. rewrite Hr. set (q := plen (λ c, negb (legalSym c)) r).
    assert (Hq : (q <= length s - S (start + k))%nat). { unfold q. etrans; [apply plen_le|]. rewrite <-Hr, length_drop. lia. }
    assert (Eex : ∀ v, expand_all (drop (start + k) s) = v → expand_all (drop start s) = take k (drop start s) ++ v).
    { intros v <-. rewrite (expand_plain k (drop start s)) by done. by rewrite drop_drop. }
    destruct (Nat.eqb_spec start (S (start + k))); [lia|].
    replace (S (start + k) - 1 - start)%nat with k by lia. replace (Nat.max start (S (start + k) - 1)) with (start + k)%nat by lia.
    replace (S (start + k) + q - S (start + k))%nat with q by lia.
    assert (Eq : length (take q r) = q) by (rewrite length_take, <-Hr, length_drop; lia).
    rewrite (Eex _ ltac:(rewrite Hd, expand_all_cons, Z.eqb_refl, span_plen; cbn [fst snd]; fold q; reflexivity)). rewrite Eq.
    change (ENAME_LIMIT - 1)%nat with 29%nat. unfold slice. rewrite Hr. destruct (Nat.leb_spec 29 q).
    + destruct (IH s (S (start + k)) (start + k)%nat (out ++ take k (drop start s)) Hlt ltac:(lia) ltac:(lia)) as (st & -> & Hst).
      exists st. split; [|done]. rewrite Hr. rewrite (expand_plain q r) by apply legal_plain. by rewrite <-!(assoc_L (++)).
    + destruct (IH s (S (start + k) + q)%nat (start + k)%nat ((out ++ take k (drop start s)) ++ match getv (take q r) with Some v => v | None => [] end)
        Hlt ltac:(lia) ltac:(lia)) as (st & -> & Hst).
      exists st. split; [|done]. rewrite <-Hr, drop_drop, <-!(assoc_L (++)). by destruct (getv _).
  - destruct fuel as [|fuel]; [lia|]. exists start. split; [|done]. cbn [echo_arg].
    rewrite (proj2 (Nat.ltb_ge (Nat.max start (length s)) (length s))) by lia. cbn [negb]. replace (Nat.max start (length s)) with (length s) by lia.
    rewrite (expand_plain (length s - start) (drop start s)) by (fold k; lia). rewrite drop_drop, take_ge, (drop_ge s (start + (length s - start))) by (rewrite ?length_drop; lia).
    by rewrite app_nil_r.
Qed.

End echo.

(** [echo] of one argument terminates and prints it with every variable
    replaced by its value, or by nothing when there is none, and a line end. *)
Theorem echo_expands getv s : s ≠ [] → echo getv [s] = Some (expand_all getv s ++ [10]).
Proof.
  intros Hs. unfold echo. cbn [echo_args]. destruct (echo_arg_spec getv (length s + 3) s 0 0 []) as (st & -> & _).
  - destruct s; [done|]. cbn. lia.
  - lia.
  - lia.
  - done.
Qed.

(** "a$x." *)
Lemma echo_expands_witness : echo (λ n, if bool_decide (n = [120]) then Some [49; 50] else None) [[97; 36; 120; 46]] = Some [97; 49; 50; 46; 10].
Proof.
  rewrite (echo_expands (λ n, if bool_decide (n = [120]) then Some [49; 50] else None) [97; 36; 120; 46]); [|discriminate]. vm_compute. reflexivity.
Defined.

(** The positions are not reset between arguments: an argument that is not
    longer than the one before it is not printed. *)
Lemma echo_drops_argument getv s t : s ≠ [] → (length t <= length s)%nat → echo getv [s; t] = Some (expand_all getv s ++ [32; 10]).
Proof.
  intros Hs Ht. unfold echo. cbn [echo_args]. destruct (echo_arg_spec getv (length s + 3) s 0 0 []) as (st & -> & _).
  - destruct s; [done|]. cbn. lia.
  - lia.
  - lia.
  - cbn [mbind option_bind]. rewrite Nat.add_comm. cbn [Nat.add echo_arg]. rewrite (proj2 (Nat.ltb_ge (length s) (length t)) Ht). cbn.
    by rewrite <-(assoc_L (++)).
Qed.

(** ** ls *)
Definition LDIRSIZ : nat := 14.

(** The part of a path after its last slash: [p] runs down from the terminator. *)
Fixpoint last_slash (path : list Z) (p : nat) : nat :=
  match p with
  | O => O
  | S p' => if path !!! p' =? 47 then p else last_slash path p'
  end.

(** The name, padded with blanks to the size of a directory entry. *)
Definition fmtname (path : list Z) : list Z :=
  let p := drop (last_slash path (length path)) path in
  if (LDIRSIZ <=? length p)%nat then p else p ++ replicate (LDIRSIZ - length p) 32.

Record lstat := mkStat { st_type : Z; st_ino : Z; st_size : Z }.

(** A line of the listing. *)
Definition ls_line (name : list Z) (st : lstat) : list Z :=
  let num n := default [] (printint n 10 true) in
  name ++ [32] ++ num (st_type st) ++ [32] ++ num (st_ino st) ++ [32] ++ num (st_size st) ++ [10].

Definition ascii (s : string) : list Z := (λ a, Z.of_nat (Ascii.nat_of_ascii a)) <$> String.list_ascii_of_string s.
Fixpoint upto_nul (l : list Z) : list Z :=
  match l with [] => [] | c :: l' => if c =? 0 then [] else c :: upto_nul l' end.

Section ls.
(** What open, stat and the reads of a directory answer. *)
Context (can_open : list Z → bool) (stat_of : list Z → option lstat) (entries : list Z → list (Z * list Z)).

(** One entry; a free one is skipped. The buffer has the path and a slash. *)
Definition ls_entry (path : list Z) (de : Z * list Z) : list (Z * list Z) :=
  if de.1 =? 0 then [] else
  let buf := path ++ [47] ++ upto_nul (take LDIRSIZ de.2) in
  match stat_of buf with
  | None => [(1, ascii "ls: cannot stat " ++ buf ++ [10])]
  | Some st => [(1, ls_line (fmtname buf) st)]
  end.

(** What is printed on which descriptor. *)
Definition ls (path : list Z) : list (Z * list Z) :=
  if negb (can_open path) then [(2, ascii "ls: cannot open " ++ path ++ [10])] else
  match stat_of path with
  | None => [(2, ascii "ls: cannot stat " ++ path ++ [10])]
  | Some st =>
      if st_type st =? 2 then [(1, ls_line (fmtname path) st)]
      else if st_type st =? 1 then
        if (512 <? length path + 1 + LDIRSIZ + 1)%nat then [(1, ascii "ls: path too long" ++ [10])]
        else entries path ≫= ls_entry path
      else []
  end.

(** [argv] without the name of the program; 46 is a dot. *)
Definition ls_main (argv : list (list Z)) : list (Z * list Z) :=
  match argv with [] => ls [46] | _ => argv ≫= ls end.

Lemma last_slash_after a b : 47 ∉ b → last_slash (a ++ 47 :: b) (length (a ++ 47 :: b)) = S (length a).
Proof.
  intros Hb. rewrite length_app. cbn [length]. 
  assert (H : ∀ k, (k <= length b)%nat → last_slash (a ++ 47 :: b) (length a + S k) = S (length a)).
  { induction k as [|k IH]; intros Hk; rewrite Nat.add_succ_r; cbn [last_slash].
    - rewrite Nat.add_0_r, list_lookup_total_middle by done. done.
    - rewrite (lookup_total_app_r a) by lia. replace (length a + S k - length a)%nat with (S k) by lia. change ((47 :: b) !!! S k) with (b !!! k).
      destruct (Z.eqb_spec (b !!! k) 47) as [E|E]; [|by apply IH; lia].
      exfalso. apply Hb. rewrite <-E. apply list_elem_of_lookup_total_2. lia. }
  by apply H.
Qed.

(** The name of an entry under a path is the entry's, padded. *)
Lemma fmtname_entry path name : 47 ∉ name → fmtname (path ++ [47] ++ name) =
  if (LDIRSIZ <=? length name)%nat then name else name ++ replicate (LDIRSIZ - length name) 32.
Proof.
  intros Hn. unfold fmtname. cbn [app]. rewrite last_slash_after by done.
  replace (drop (S (length path)) (path ++ 47 :: name)) with name; [done|].
  rewrite (cons_middle 47 path name), (assoc_L (++)), drop_app_length'; [done|]. rewrite length_app. cbn. lia.
Qed.

(** A directory is listed with one line for each entry in use, in order, under
    its own name. *)
Lemma ls_lists path st : can_open path = true → stat_of path = Some st → st_type st = 1 → (length path <= 496)%nat →
  (∀ de, de ∈ entries path → de.1 ≠ 0 → (47 ∉ upto_nul (take LDIRSIZ de.2)) ∧ is_Some (stat_of (path ++ [47] ++ upto_nul (take LDIRSIZ de.2)))) →
  ls path = (λ de, let name := upto_nul (take LDIRSIZ de.2) in
      (1, ls_line (if (LDIRSIZ <=? length name)%nat then name else name ++ replicate (LDIRSIZ - length name) 32)
            (default (mkStat 0 0 0) (stat_of (path ++ [47] ++ name))))) <$> filter (λ de, de.1 ≠ 0) (entries path).
Proof.
  intros Ho Hst Hty Hlen Hall. unfold ls. rewrite Ho, Hst, Hty. cbn [negb Z.eqb Pos.eqb].
  destruct (Nat.ltb_spec 512 (length path + 1 + LDIRSIZ + 1)); [unfold LDIRSIZ in *; lia|].
  induction (entries path) as [|de es IH]; [done|]. cbn [mbind list_bind]. rewrite filter_cons.
  rewrite IH by (intros de' Hde'; apply Hall; by right). unfold ls_entry at 1. destruct (Z.eqb_spec de.1 0) as [E|E]; case_decide; try done.
  destruct (Hall de ltac:(by left) E) as [Hn [s' Hs']]. rewrite Hs', fmtname_entry by done. cbn [fmap list_fmap]. cbv zeta. rewrite Hs'. done.
Qed.

End ls.
