(* ===== verification/Progs.v ===== *)
(** * The programs and the system calls (main of cat.c, wc.c, grep.c, rm.c, mkdir.c,
      ln.c, kill.c, date.c, hlight.c, init.c, zombie.c)

    A program works on an operating system, whatever it is: [Os] has the system
    calls, and [OsLaws] what they promise about files, descriptors and output.
    The programs are proved against this interface, and [MemOs] is an
    implementation of it. A function that may call exit returns false then; main
    ends with exit in any case. *)

From S2P Require Import Prelude Cstring Ulib Grep Uprogs.

Class Os := {
  os : Type;
  o_open : list Z → Z → M os Z;
  (** The result, and the bytes that are stored. *)
  o_read : Z → Z → M os (Z * list Z);
  o_write : Z → list Z → M os Z;
  o_close : Z → M os Z;
  o_unlink : list Z → M os Z;
  o_mkdir : list Z → M os Z;
  o_link : list Z → list Z → M os Z;
  o_kill : Z → M os Z;
  o_fork : M os Z;
  o_wait : M os Z;
  (** It returns only when it fails. *)
  o_exec : list Z → list (list Z) → M os Z;
  o_mknod : list Z → Z → Z → M os Z;
  o_dup : Z → M os Z;
  o_sleep : Z → M os Z;
  (** The result and the date: year, month, day, hour, minute, second. *)
  o_date : M os (Z * list Z);
  o_hlight : Z → M os Z;
}.

Section programs.
Context `{OS : Os}.

(** [printf] writes one character at a time. *)
Definition puts (fd : Z) (s : list Z) : M os unit := forM s (λ c, o_write fd [c];; mret tt).
Definition num (n : Z) : list Z := default [] (printint n 10 true).

(** [for(i = 1; i < argc; i++)] over the arguments, until the body says stop. *)
Fixpoint each (args : list (list Z)) (body : list Z → M os bool) : M os bool :=
  match args with
  | [] => mret true
  | a :: args' => go ← body a; if (go : bool) then each args' body else mret false
  end.

(** ** cat, wc, grep *)

Fixpoint cat_fd (fuel : nat) (fd : Z) : M os bool :=
  match fuel with
  | O => stopM NoFuel
  | S fuel' =>
      '(n, buf) ← o_read fd 512;
      if 0 <? n then o_write 1 buf;; cat_fd fuel' fd
      else if n <? 0 then puts 1 (ascii "cat: read error" ++ [10]);; mret false
      else mret true
  end.

Fixpoint wc_fd (fuel : nat) (fd : Z) (s : wcst) (name : list Z) : M os bool :=
  match fuel with
  | O => stopM NoFuel
  | S fuel' =>
      '(n, buf) ← o_read fd 512;
      if 0 <? n then wc_fd fuel' fd (foldl wc_char s buf) name
      else if n <? 0 then puts 1 (ascii "wc: read error" ++ [10]);; mret false
      else puts 1 (num (wc_l s) ++ [32] ++ num (wc_w s) ++ [32] ++ num (wc_c s) ++ [32] ++ name ++ [10]);; mret true
  end.

(** The lines of the buffer that match are written one by one. *)
Fixpoint grep_lines_out (fuel : nat) (pattern buf : list Z) (p : nat) : M os (list Z * nat) :=
  match fuel with
  | O => stopM NoFuel
  | S fuel' =>
      match Ulib.strchr (drop p buf) 10 with
      | None => undef
      | Some None => mret (buf, p)
      | Some (Some rest) =>
          let q := (length buf - length rest)%nat in
          let buf := <[q := 0]> buf in
          m ← deref (match_ pattern (drop p buf));
          let buf := if m : bool then <[q := 10]> buf else buf in
          (if m : bool then o_write 1 (slice p (q + 1 - p) buf);; mret tt else mret tt);;
          grep_lines_out fuel' pattern buf (q + 1)
      end
  end.

Fixpoint grep_fd (fuel : nat) (pattern buf : list Z) (m : nat) (fd : Z) : M os (list Z) :=
  match fuel with
  | O => stopM NoFuel
  | S fuel' =>
      '(n, rd) ← o_read fd (Z.of_nat (GBUF - m));
      if 0 <? n then
        let buf := splice m rd buf in
        let m := (m + length rd)%nat in
        '(buf, p) ← grep_lines_out (S (length buf)) pattern buf 0;
        let m := if (p =? 0)%nat then O else m in
        let '(buf, m) := if (0 <? m)%nat then (splice 0 (slice p (m - p) buf) buf, (m - p)%nat) else (buf, m) in
        grep_fd fuel' pattern buf m fd
      else mret buf
  end.

(** The loop of the mains of cat and wc: each file is opened, used and
    closed. *)
Definition each_file (msg : string) (use : Z → list Z → M os bool) (files : list (list Z)) : M os bool :=
  each files (λ f,
    fd ← o_open f 0;
    if fd <? 0 then puts 1 (ascii msg ++ f ++ [10]);; mret false else
    go ← use fd f;
    if (go : bool) then o_close fd;; mret true else mret false).

(** [argv] without the name of the program. *)
Definition cat_main (fuel : nat) (argv : list (list Z)) : M os unit :=
  (match argv with
   | [] => cat_fd fuel 0
   | _ => each_file "cat: cannot open " (λ fd _, cat_fd fuel fd) argv
   end);; mret tt.
Definition wc_main (fuel : nat) (argv : list (list Z)) : M os unit :=
  (match argv with
   | [] => wc_fd fuel 0 (mkWc 0 0 0 false) []
   | _ => each_file "wc: cannot open " (λ fd name, wc_fd fuel fd (mkWc 0 0 0 false) name) argv
   end);; mret tt.
(** The buffer is a static array, which keeps its contents between the files. *)
Fixpoint grep_files (fuel : nat) (pattern buf : list Z) (files : list (list Z)) : M os unit :=
  match files with
  | [] => mret tt
  | f :: files' =>
      fd ← o_open f 0;
      if fd <? 0 then puts 1 (ascii "grep: cannot open " ++ f ++ [10]) else
      buf ← grep_fd fuel pattern buf 0 fd;
      o_close fd;;
      grep_files fuel pattern buf files'
  end.
Definition grep_main (fuel : nat) (argv : list (list Z)) : M os unit :=
  match argv with
  | [] => puts 2 (ascii "usage: grep pattern [file ...]" ++ [10])
  | [pattern] => grep_fd fuel pattern (replicate GBUF 0) 0 0;; mret tt
  | pattern :: files => grep_files fuel pattern (replicate GBUF 0) files
  end.

(** ** rm, mkdir, ln, kill *)

Definition rm_main (argv : list (list Z)) : M os unit :=
  match argv with
  | [] => puts 2 (ascii "Usage: rm files..." ++ [10])
  | _ =>
      each argv (λ f,
        r ← o_unlink f;
        if r <? 0 then puts 2 (ascii "rm: " ++ f ++ ascii " failed to delete" ++ [10]);; mret false else mret true);;
      mret tt
  end.
Definition mkdir_main (argv : list (list Z)) : M os unit :=
  match argv with
  | [] => puts 2 (ascii "Usage: mkdir files..." ++ [10])
  | _ =>
      each argv (λ f,
        r ← o_mkdir f;
        if r <? 0 then puts 2 (ascii "mkdir: " ++ f ++ ascii " failed to create" ++ [10]);; mret false else mret true);;
      mret tt
  end.
Definition ln_main (argv : list (list Z)) : M os unit :=
  match argv with
  | [old; new] =>
      r ← o_link old new;
      if r <? 0 then puts 2 (ascii "link " ++ old ++ [32] ++ new ++ ascii ": failed" ++ [10]) else mret tt
  | _ => puts 2 (ascii "Usage: ln old new" ++ [10])
  end.
(** The test for the usage message, argc < 1, never holds. *)
Definition kill_main (argv : list (list Z)) : M os unit :=
  forM argv (λ a, o_kill (atoi a);; mret tt).

(** ** date, hlight *)

Definition date_main : M os unit :=
  '(r, t) ← o_date;
  if negb (r =? 0) then puts 1 (ascii "process failed" ++ [10]) else
  match t with
  | [year; month; day; hour; minute; second] =>
      puts 1 (num year ++ [45] ++ num month ++ [45] ++ num day ++ [32] ++ num hour ++ [58] ++ num minute ++ [58] ++ num second ++ [10])
  | _ => undef
  end.

Definition hlight_type_c : Z := 1.
Definition close_hlight : Z := 0.
Definition rule : list Z := replicate 79 35 ++ [10].
Definition hlight_none : list Z := ascii "no valuable parameter found, parameter -h for help" ++ [10].
Definition hlight_set (t : Z) (ok : string) : M os unit :=
  r ← o_hlight t;
  if negb (r =? 0) then puts 1 (ascii ok ++ [10]) else puts 1 (ascii "failed to change hlight type" ++ [10]).
(** Without an argument the null pointer is read. *)
Definition hlight_main (argv : list (list Z)) : M os unit :=
  match argv with
  | [] => undef
  | a :: _ =>
      let c i := nth i a 0 in
      if c 0%nat =? 45 then
        if c 1%nat =? 99 then
          if c 2%nat =? 0 then hlight_set hlight_type_c "start hlightting key words in C."
          else if c 2%nat =? 108 then
            if c 3%nat =? 0 then hlight_set close_hlight "stop hlightting" else mret tt
          else mret tt
        else if c 1%nat =? 104 then
          if c 2%nat =? 0 then
            puts 1 rule;;
            puts 1 (ascii "-h show the help " ++ [10] ++ ascii "-c hlight the key words in C" ++ [10] ++ ascii "-cl stop hlightting all" ++ [10]);;
            puts 1 rule
          else mret tt
        else puts 1 hlight_none
      else puts 1 hlight_none
  end.

(** ** docedt *)

(** The contents are copied into the block without a test of its size; [off] is
    their length so far. *)
Definition MN_SIZE : nat := 1024.
Fixpoint getcontnt (fuel : nat) (fd : Z) (doc : list Z) (off : nat) : M os (option (list Z)) :=
  match fuel with
  | O => stopM NoFuel
  | S fuel' =>
      '(n, buf) ← o_read fd 512;
      if 0 <? n then
        if (length doc <? off + length buf)%nat then undef
        else getcontnt fuel' fd (splice off buf doc) (off + length buf)
      else if n <? 0 then puts 1 (ascii "docedt: read error" ++ [10]);; mret None
      else mret (Some doc)
  end.
(** [block] is what malloc's block holds; printf stops at a zero byte, which may
    be behind it. *)
Definition docedt_main (fuel : nat) (block : list Z) (argv : list (list Z)) : M os unit :=
  match argv with
  | [] => undef
  | f :: _ =>
      fd ← o_open f 0;
      if fd <? 0 then puts 1 (ascii "cat: cannot open " ++ f ++ [10]) else
      r ← getcontnt fuel fd (take MN_SIZE block) 0;
      match r with
      | None => mret tt
      | Some doc =>
          if bool_decide (0 ∈ doc) then puts 1 (upto_nul doc);; o_close fd;; mret tt else undef
      end
  end.

(** ** init, zombie *)

Definition RDWR : Z := 2.
Definition CONSOLE : list Z := ascii "console".
Definition init_start : M os unit :=
  r ← o_open CONSOLE RDWR;
  (if r <? 0 then o_mknod CONSOLE 1 1;; o_open CONSOLE RDWR;; mret tt else mret tt);;
  o_dup 0;;
  o_dup 0;;
  mret tt.
(** The inner loop: other children that end are zombies that init has inherited. *)
Fixpoint init_wait (fuel : nat) (pid : Z) : M os unit :=
  match fuel with
  | O => stopM NoFuel
  | S fuel' =>
      wpid ← o_wait;
      if (0 <=? wpid) && negb (wpid =? pid) then puts 1 (ascii "zombie!" ++ [10]);; init_wait fuel' pid
      else mret tt
  end.
(** A round of the outer loop; false when the process exits. *)
Definition init_round (fuel : nat) : M os bool :=
  puts 1 (ascii "init: starting sh" ++ [10]);;
  pid ← o_fork;
  if pid <? 0 then puts 1 (ascii "init: fork failed" ++ [10]);; mret false else
  if pid =? 0 then
    o_exec (ascii "sh") [ascii "sh"];;
    puts 1 (ascii "init: exec sh failed" ++ [10]);;
    mret false
  else init_wait fuel pid;; mret true.

Definition zombie_main : M os unit :=
  pid ← o_fork;
  (if 0 <? pid then o_sleep 5;; mret tt else mret tt).
End programs.

(** ** What the system calls promise *)

(** The contents of the files, what is still to be read from each descriptor,
    and what was written to the outputs 1 and 2. *)
Record view := mkView { v_files : gmap (list Z) (list Z); v_fds : gmap Z (list Z); v_out : list Z; v_err : list Z }.
Definition NOFILES : nat := 16.

Class OsLaws `{OS : Os} := {
  vw : os → view;
  law_open f s : (size (v_fds (vw s)) < NOFILES)%nat →
    ∃ fd s', o_open f 0 s = Ok fd s' ∧
      match v_files (vw s) !! f with
      | Some c => 0 ≤ fd ∧ v_fds (vw s) !! fd = None ∧
          vw s' = mkView (v_files (vw s)) (<[fd := c]> (v_fds (vw s))) (v_out (vw s)) (v_err (vw s))
      | None => fd = -1 ∧ vw s' = vw s
      end;
  (** A read gives as many bytes as it likes, but none only at the end. *)
  law_read fd n c s : 0 < n → v_fds (vw s) !! fd = Some c →
    ∃ b c' s', o_read fd n s = Ok (Z.of_nat (length b), b) s' ∧ c = b ++ c' ∧ Z.of_nat (length b) ≤ n ∧ (b = [] → c = []) ∧
      vw s' = mkView (v_files (vw s)) (<[fd := c']> (v_fds (vw s))) (v_out (vw s)) (v_err (vw s));
  law_write fd b s : fd = 1 ∨ fd = 2 →
    ∃ s', o_write fd b s = Ok (Z.of_nat (length b)) s' ∧
      vw s' = mkView (v_files (vw s)) (v_fds (vw s)) (if fd =? 1 then v_out (vw s) ++ b else v_out (vw s))
        (if fd =? 1 then v_err (vw s) else v_err (vw s) ++ b);
  law_close fd c s : v_fds (vw s) !! fd = Some c →
    ∃ s', o_close fd s = Ok 0 s' ∧
      vw s' = mkView (v_files (vw s)) (delete fd (v_fds (vw s))) (v_out (vw s)) (v_err (vw s));
  law_unlink f s :
    ∃ r s', o_unlink f s = Ok r s' ∧
      match v_files (vw s) !! f with
      | Some _ => r = 0 ∧ vw s' = mkView (delete f (v_files (vw s))) (v_fds (vw s)) (v_out (vw s)) (v_err (vw s))
      | None => r = -1 ∧ vw s' = vw s
      end;
}.

Section correct.
Context `{OL : OsLaws}.

Lemma then_ok {A B} (m : M os A) (f : A → M os B) a s s' : m s = Ok a s' → (m ≫= f) s = f a s'.
Proof. unfold mbind, M_bind. by intros ->. Qed.

Definition put_out (fd : Z) (b : list Z) (v : view) : view :=
  mkView (v_files v) (v_fds v) (if fd =? 1 then v_out v ++ b else v_out v) (if fd =? 1 then v_err v else v_err v ++ b).
Definition put_fds (m : gmap Z (list Z)) (v : view) : view := mkView (v_files v) m (v_out v) (v_err v).

Lemma puts_spec fd b s : fd = 1 ∨ fd = 2 → ∃ s', puts fd b s = Ok tt s' ∧ vw s' = put_out fd b (vw s).
Proof.
  intros Hfd. revert s. induction b as [|c b IH]; intros s.
  - exists s. split; [done|]. unfold put_out. destruct (vw s). by destruct (fd =? 1); rewrite app_nil_r.
  - destruct (law_write fd [c] s Hfd) as (s1 & E1 & V1). destruct (IH s1) as (s2 & E2 & V2). exists s2. split.
    + unfold puts in *. simpl. unfold mbind, M_bind. rewrite E1. exact E2.
    + rewrite V2, V1. unfold put_out. simpl. destruct (fd =? 1); by rewrite <-app_assoc.
Qed.

(** A function that reads a descriptor to its end and writes [g] of what it read. *)
Definition reads_all (use : Z → list Z → M os bool) (g : list Z → list Z → list Z) (len : nat) : Prop :=
  ∀ fd name c s, v_fds (vw s) !! fd = Some c → (length c < len)%nat →
    ∃ s', use fd name s = Ok true s' ∧ vw s' = put_out 1 (g name c) (put_fds (<[fd := []]> (v_fds (vw s))) (vw s)).

Lemma cat_reads_all fuel : reads_all (λ fd _, cat_fd fuel fd) (λ _ c, c) fuel.
Proof.
  intros fd name c s. revert c s. induction fuel as [|fuel IH]; intros c s Hc Hl; [lia|].
  destruct (law_read fd 512 c s ltac:(lia) Hc) as (b & c' & s1 & E1 & -> & Hb & Hnil & V1). simpl.
  rewrite (then_ok _ _ _ _ _ E1). destruct (Z.ltb_spec 0 (Z.of_nat (length b))) as [Hpos|Hpos].
  - destruct (law_write 1 b s1 ltac:(by left)) as (s2 & E2 & V2). rewrite (then_ok _ _ _ _ _ E2).
    destruct (IH c' s2) as (s3 & E3 & V3).
    { rewrite V2, V1. simpl. apply lookup_insert_eq. }
    { rewrite length_app in Hl. lia. }
    exists s3. split; [done|]. rewrite V3, V2, V1. unfold put_out, put_fds. simpl. by rewrite insert_insert_eq, app_assoc.
  - destruct b as [|x b]; [|simpl in Hpos; lia]. specialize (Hnil eq_refl). simpl in Hnil. subst c'.
    exists s1. split; [done|]. rewrite V1. unfold put_out, put_fds. simpl. by rewrite app_nil_r.
Qed.

(** The line that wc prints: the numbers of newlines, of words and of bytes. *)
Definition wc_line (name c : list Z) : list Z :=
  num (Z.of_nat (newlines c)) ++ [32] ++ num (Z.of_nat (words true c)) ++ [32] ++ num (Z.of_nat (length c)) ++ [32] ++ name ++ [10].

Lemma wc_reads fuel fd name : ∀ c s st, v_fds (vw s) !! fd = Some c → (length c < fuel)%nat →
  ∃ s', wc_fd fuel fd st name s = Ok true s' ∧
    let t := foldl wc_char st c in
    vw s' = put_out 1 (num (wc_l t) ++ [32] ++ num (wc_w t) ++ [32] ++ num (wc_c t) ++ [32] ++ name ++ [10])
      (put_fds (<[fd := []]> (v_fds (vw s))) (vw s)).
Proof.
  induction fuel as [|fuel IH]; intros c s st Hc Hl; [lia|].
  destruct (law_read fd 512 c s ltac:(lia) Hc) as (b & c' & s1 & E1 & -> & Hb & Hnil & V1). cbn [wc_fd].
  rewrite (then_ok _ _ _ _ _ E1). destruct (Z.ltb_spec 0 (Z.of_nat (length b))) as [Hpos|Hpos].
  - destruct (IH c' s1 (foldl wc_char st b)) as (s3 & E3 & V3).
    { rewrite V1. simpl. apply lookup_insert_eq. }
    { rewrite length_app in Hl. lia. }
    exists s3. split; [done|]. rewrite foldl_app. cbv zeta in *. rewrite V3, V1. unfold put_fds. simpl. by rewrite insert_insert_eq.
  - destruct b as [|x b]; [|simpl in Hpos; lia]. specialize (Hnil eq_refl). simpl in Hnil. subst c'.
    change (Z.of_nat (length (@nil Z)) <? 0) with false. cbv iota.
    destruct (puts_spec 1 (num (wc_l st) ++ [32] ++ num (wc_w st) ++ [32] ++ num (wc_c st) ++ [32] ++ name ++ [10]) s1 ltac:(by left)) as (s2 & E2 & V2).
    rewrite (then_ok _ _ _ _ _ E2). exists s2. split; [done|]. cbv zeta. rewrite V2, V1. done.
Qed.

Lemma wc_reads_all fuel : Z.of_nat fuel ≤ 2 ^ 31 →
  reads_all (λ fd name, wc_fd fuel fd (mkWc 0 0 0 false) name) wc_line fuel.
Proof.
  intros Hf fd name c s Hc Hl. destruct (wc_reads fuel fd name c s (mkWc 0 0 0 false) Hc Hl) as (s' & E & V).
  exists s'. split; [done|]. rewrite V. cbv zeta. rewrite wc_spec by (simpl; lia). unfold wc_line. simpl. done.
Qed.

(** The output of a program that uses files one after the other. *)
Fixpoint files_out (files : gmap (list Z) (list Z)) (msg : string) (g : list Z → list Z → list Z) (args : list (list Z)) : list Z :=
  match args with
  | [] => []
  | f :: args' =>
      match files !! f with
      | Some c => g f c ++ files_out files msg g args'
      | None => ascii msg ++ f ++ [10]
      end
  end.

Lemma each_file_spec msg use g len args s : reads_all use g len →
  (∀ f c, v_files (vw s) !! f = Some c → (length c < len)%nat) → (size (v_fds (vw s)) < NOFILES)%nat →
  ∃ b s', each_file msg use args s = Ok b s' ∧ vw s' = put_out 1 (files_out (v_files (vw s)) msg g args) (vw s).
Proof.
  intros Huse. revert s. induction args as [|f args IH]; intros s Hlen Hsz.
  - exists true, s. split; [done|]. unfold put_out. destruct (vw s). simpl. by rewrite app_nil_r.
  - unfold each_file in *. simpl. destruct (law_open f s Hsz) as (fd & s1 & E1 & H1).
    unfold mbind at 1, M_bind at 1. rewrite (then_ok _ _ _ _ _ E1). destruct (v_files (vw s) !! f) as [c|] eqn:Ef.
    + destruct H1 as (Hfd & Hfree & V1). rewrite (proj2 (Z.ltb_ge fd 0)) by done.
      destruct (Huse fd f c s1) as (s2 & E2 & V2); [rewrite V1; apply lookup_insert_eq|by eapply Hlen|].
      rewrite (then_ok _ _ _ _ _ E2). destruct (law_close fd [] s2) as (s3 & E3 & V3).
      { rewrite V2. simpl. apply lookup_insert_eq. }
      assert (vw s3 = put_out 1 (g f c) (vw s)) as V.
      { rewrite V3, V2, V1. unfold put_out, put_fds. simpl. f_equal.
        by rewrite insert_insert_eq, delete_insert_id. }
      rewrite (then_ok _ _ _ _ _ E3). simpl.
      destruct (IH s3) as (b & s4 & E4 & V4); [by rewrite V|by rewrite V|].
      exists b, s4. split; [exact E4|]. rewrite V4, V. unfold put_out. simpl. by rewrite <-app_assoc.
    + destruct H1 as [-> V1]. simpl. destruct (puts_spec 1 (ascii msg ++ f ++ [10]) s1 ltac:(by left)) as (s2 & E2 & V2).
      rewrite (then_ok _ _ _ _ _ E2). exists false, s2. split; [done|]. by rewrite V2, V1.
Qed.

(** rm deletes the files up to the first one that is not there. *)
Fixpoint rm_files (files : gmap (list Z) (list Z)) (args : list (list Z)) : gmap (list Z) (list Z) * list Z :=
  match args with
  | [] => (files, [])
  | f :: args' =>
      match files !! f with
      | Some _ => rm_files (delete f files) args'
      | None => (files, ascii "rm: " ++ f ++ ascii " failed to delete" ++ [10])
      end
  end.

Lemma rm_spec args s : ∃ b s', each args (λ f,
    r ← o_unlink f;
    if r <? 0 then puts 2 (ascii "rm: " ++ f ++ ascii " failed to delete" ++ [10]);; mret false else mret true) s = Ok b s' ∧
  vw s' = let '(files, msg) := rm_files (v_files (vw s)) args in mkView files (v_fds (vw s)) (v_out (vw s)) (v_err (vw s) ++ msg).
Proof.
  revert s. induction args as [|f args IH]; intros s.
  - exists true, s. split; [done|]. simpl. rewrite app_nil_r. by destruct (vw s).
  - simpl. destruct (law_unlink f s) as (r & s1 & E1 & H1). unfold mbind at 1, M_bind at 1. rewrite (then_ok _ _ _ _ _ E1).
    destruct (v_files (vw s) !! f) as [c|] eqn:Ef; destruct H1 as [-> V1]; simpl.
    + destruct (IH s1) as (b & s2 & E2 & V2). exists b, s2. split; [exact E2|]. by rewrite V2, V1.
    + destruct (puts_spec 2 (ascii "rm: " ++ f ++ ascii " failed to delete" ++ [10]) s1 ltac:(by right)) as (s2 & E2 & V2).
      rewrite (then_ok _ _ _ _ _ E2). exists false, s2. split; [done|]. by rewrite V2, V1.
Qed.

(** cat, wc and rm on any operating system that keeps the promises of
    [OsLaws], however many bytes its reads give: cat writes the contents of the
    files in their order, wc a line with the counts of each file; both stop with
    a message at the first file that cannot be opened, and close every
    descriptor that they open; rm deletes the files up to the first one that is
    not there, and says so. Nothing else changes. *)
Theorem file_tools_correct fuel args s :
  args ≠ [] → Z.of_nat fuel ≤ 2 ^ 31 → (∀ f c, v_files (vw s) !! f = Some c → (length c < fuel)%nat) →
  (size (v_fds (vw s)) < NOFILES)%nat →
  (∃ s', cat_main fuel args s = Ok tt s' ∧
    vw s' = put_out 1 (files_out (v_files (vw s)) "cat: cannot open " (λ _ c, c) args) (vw s)) ∧
  (∃ s', wc_main fuel args s = Ok tt s' ∧
    vw s' = put_out 1 (files_out (v_files (vw s)) "wc: cannot open " wc_line args) (vw s)) ∧
  (∃ s', rm_main args s = Ok tt s' ∧
    vw s' = let '(files, msg) := rm_files (v_files (vw s)) args in mkView files (v_fds (vw s)) (v_out (vw s)) (v_err (vw s) ++ msg)).
Proof.
  intros Ha Hf Hlen Hsz. destruct args as [|f args]; [done|]. split_and!.
  - destruct (each_file_spec "cat: cannot open " _ _ fuel (f :: args) s (cat_reads_all fuel) Hlen Hsz) as (b & s' & E & V).
    exists s'. split; [|done]. unfold cat_main. by rewrite (then_ok _ _ _ _ _ E).
  - destruct (each_file_spec "wc: cannot open " _ _ fuel (f :: args) s (wc_reads_all fuel Hf) Hlen Hsz) as (b & s' & E & V).
    exists s'. split; [|done]. unfold wc_main. by rewrite (then_ok _ _ _ _ _ E).
  - destruct (rm_spec (f :: args) s) as (b & s' & E & V). exists s'. split; [|done]. unfold rm_main. by rewrite (then_ok _ _ _ _ _ E).
Qed.
End correct.

(** ** An operating system in memory *)

(** A descriptor above all that are in use. *)
Definition next_fd (m : gmap Z (list Z)) : Z := foldr Z.max 2 (map_to_list m).*1 + 1.

Lemma next_fd_free m : 0 ≤ next_fd m ∧ m !! next_fd m = None.
Proof.
  unfold next_fd. assert (∀ l k, k ∈ l → k ≤ foldr Z.max 2 l) as Hk.
  { intros l k. induction l as [|x l IH]; [by intros ?%elem_of_nil|]. intros [->|H]%elem_of_cons; simpl; [lia|]. specialize (IH H). lia. }
  split.
  - assert (∀ l, 2 ≤ foldr Z.max 2 l) as H2 by (induction l; simpl; lia). specialize (H2 (map_to_list m).*1). lia.
  - destruct (m !! _) as [c|] eqn:E; [|done]. apply elem_of_map_to_list in E.
    apply (list_elem_of_fmap_2 fst) in E. apply Hk in E. simpl in E. lia.
Qed.

Definition set_view (f : view → view) : M view Z := λ v, Ok 0 (f v).
#[export] Instance MemOs : Os := {|
  os := view;
  o_open f _ := λ v, match v_files v !! f with
    | Some c => Ok (next_fd (v_fds v)) (mkView (v_files v) (<[next_fd (v_fds v) := c]> (v_fds v)) (v_out v) (v_err v))
    | None => Ok (-1) v
    end;
  o_read fd n := λ v, match v_fds v !! fd with
    | Some c => Ok (Z.of_nat (length (take (Z.to_nat n) c)), take (Z.to_nat n) c)
        (mkView (v_files v) (<[fd := drop (Z.to_nat n) c]> (v_fds v)) (v_out v) (v_err v))
    | None => Ok (-1, []) v
    end;
  o_write fd b := λ v, Ok (Z.of_nat (length b)) (put_out fd b v);
  o_close fd := set_view (λ v, mkView (v_files v) (delete fd (v_fds v)) (v_out v) (v_err v));
  o_unlink f := λ v, match v_files v !! f with
    | Some _ => Ok 0 (mkView (delete f (v_files v)) (v_fds v) (v_out v) (v_err v))
    | None => Ok (-1) v
    end;
  o_mkdir _ := mret (-1); o_link _ _ := mret (-1); o_kill _ := mret (-1); o_fork := mret (-1); o_wait := mret (-1);
  o_exec _ _ := mret (-1); o_mknod _ _ _ := mret (-1); o_dup _ := mret (-1); o_sleep _ := mret 0; o_date := mret (-1, []);
  o_hlight _ := mret 0;
|}.

#[export] Instance MemOs_laws : OsLaws (OS := MemOs).
Proof.
  refine {| vw := λ v : @os MemOs, v |}.
  - intros f v _. simpl. destruct (v_files v !! f) as [c|]; [|by eexists _, _].
    eexists _, _. split; [done|]. split; [apply next_fd_free|]. split; [apply next_fd_free|done].
  - intros fd n c v Hn Hc. simpl. rewrite Hc. eexists _, (drop (Z.to_nat n) c), _. split; [done|]. split; [by rewrite take_drop|].
    split; [rewrite length_take; lia|]. split; [|done]. destruct c; [done|]. intros E. destruct (Z.to_nat n) eqn:En; [lia|done].
  - intros fd b v _. by eexists.
  - intros fd c v _. by eexists.
  - intros f v. simpl. destruct (v_files v !! f); by eexists _, _.
Defined.

(** Two files and one that is not there. *)
Lemma file_tools_correct_witness :
  let v := mkView {[ [97] := [104; 105; 10]; [98] := [120] ]} ∅ [] [] in
  (∃ s', cat_main (OS := MemOs) 8 [[98]; [97]] v = Ok tt s' ∧ v_out s' = [120; 104; 105; 10]) ∧
  (∃ s', wc_main (OS := MemOs) 8 [[97]] v = Ok tt s' ∧ v_out s' = [49; 32; 49; 32; 51; 32; 97; 10]) ∧
  (∃ s', rm_main (OS := MemOs) [[97]; [99]] v = Ok tt s' ∧ v_files s' = {[ [98] := [120] ]}).
Proof.
  intros v.
  assert (∀ f c, v_files (vw (OsLaws := MemOs_laws) v) !! f = Some c → (length c < 8)%nat) as Hlen.
  { intros f c. simpl. intros [[_ <-]|[_ [_ <-]%lookup_singleton_Some]]%lookup_insert_Some; simpl; lia. }
  split; [|split].
  - destruct (proj1 (file_tools_correct (OL := MemOs_laws) 8 [[98]; [97]] v ltac:(done) ltac:(lia) Hlen ltac:(vm_compute; lia))) as (s' & E & V).
    exists s'. split; [exact E|]. simpl in V. rewrite V. vm_compute. reflexivity.
  - destruct (proj1 (proj2 (file_tools_correct (OL := MemOs_laws) 8 [[97]] v ltac:(done) ltac:(lia) Hlen ltac:(vm_compute; lia)))) as (s' & E & V).
    exists s'. split; [exact E|]. simpl in V. rewrite V. vm_compute. reflexivity.
  - destruct (proj2 (proj2 (file_tools_correct (OL := MemOs_laws) 8 [[97]; [99]] v ltac:(done) ltac:(lia) Hlen ltac:(vm_compute; lia)))) as (s' & E & V).
    exists s'. split; [exact E|]. simpl in V. rewrite V. vm_compute. reflexivity.
Defined.
