(* ===== verification/Eeco.v ===== *)
(** * The program eeco (eeco.c)

    It prints its arguments; with -e, what is between double quotes may have
    escape sequences. The arguments are changed in place: a backslash marks what
    is not printed, and the byte 7 stands for a backslash. *)

From S2P Require Import Prelude.

Definition echar (s : list Z) (j : nat) : Z := nth j s 0.
Definition quotes (s : list Z) : nat := length (filter (λ c, c = 34) s).

(** The last character before [k], it included, that is no backslash is struck
    out. *)
Fixpoint strike (k : nat) (s : list Z) : list Z :=
  if negb (echar s k =? 92) then <[k := 92]> s
  else match k with O => s | S k' => strike k' s end.

(** The sequence that starts at [j]; the new argument and position, and whether
    the newline at the end stays. *)
Definition escape (s : list Z) (j : nat) (nl : bool) : list Z * nat * bool :=
  let s := if echar s (S j) =? 110 then <[S j := 10]> s else s in
  let s := if echar s (S j) =? 116 then <[S j := 9]> s else s in
  let '(s, j) := if echar s (S j) =? 98 then (strike j (<[S j := 92]> s), S j) else (s, j) in
  let '(s, j, nl) := if echar s (S j) =? 99 then (<[S j := 92]> s, S j, false) else (s, j, nl) in
  if echar s (S j) =? 92 then (<[S j := 7]> s, S j, nl) else (s, j, nl).

(** The scan of an argument with [sum] quotes: [inq] is the variable intrns. *)
Fixpoint eeco_scan (fuel : nat) (sum : nat) (s : list Z) (j account : nat) (inq nl : bool) : option (list Z * nat * bool * bool) :=
  match fuel with
  | O => None
  | S fuel' =>
      let c := echar s j in
      if c =? 0 then Some (s, j, inq, nl)
      else if c =? 34 then
        let account := S account in
        eeco_scan fuel' sum s (S j) account (if (account =? sum)%nat then inq else negb inq) nl
      else if (c =? 92) && inq then
        let '(s, j, nl) := escape s j nl in eeco_scan fuel' sum s (S j) account inq nl
      else eeco_scan fuel' sum s (S j) account inq nl
  end.

Definition eeco_show (s : list Z) : list Z :=
  s ≫= λ c, if negb (c =? 92) && negb (c =? 34) then if negb (c =? 7) then [c] else [92] else [].

(** One argument with -e: what is printed, and the new values of intrns and
    changeline. *)
Definition eeco_arg (s : list Z) (inq nl : bool) : option (list Z * bool * bool) :=
  let sum := quotes s in
  if (sum <=? 1)%nat then Some (s, inq, nl)
  else
    r ← eeco_scan (S (length s)) sum s 0 0 inq nl;
    let '(s, j, inq, nl) := r in
    let last := if (echar s (j - 1) =? 34) && Nat.odd sum then [34] else [] in
    Some (eeco_show (take j s) ++ last, inq, nl).

Fixpoint eeco_args (transfer : bool) (args : list (list Z)) (inq nl : bool) : option (list Z) :=
  match args with
  | [] => Some (if nl then [10] else [])
  | s :: args' =>
      let sep := match args' with [] => [] | _ => [32] end in
      if transfer then
        r ← eeco_arg s inq nl;
        let '(out, inq, nl) := r in
        out' ← eeco_args transfer args' inq nl;
        Some (out ++ sep ++ out')
      else
        out' ← eeco_args transfer args' inq nl;
        Some (s ++ sep ++ out')
  end.

(** Without an argument the null pointer is read. *)
Definition eeco (args : list (list Z)) : option (list Z) :=
  match args with
  | [] => None
  | a :: args' =>
      if (echar a 0 =? 45) && (echar a 1 =? 101) && (echar a 2 =? 0)
      then eeco_args true args' false true else eeco_args false args false true
  end.

(** ** What it prints *)

(** The arguments with blanks between them. *)
Fixpoint joined (args : list (list Z)) : list Z :=
  match args with [] => [] | [s] => s | s :: args' => s ++ [32] ++ joined args' end.

Lemma eeco_plain args : args ≠ [] → (match args with a :: _ => (echar a 0 =? 45) && (echar a 1 =? 101) && (echar a 2 =? 0) = false | _ => False end) →
  eeco args = Some (joined args ++ [10]).
Proof.
  intros Hne Ha. destruct args as [|a args]; [done|]. unfold eeco. rewrite Ha. clear Ha Hne.
  revert a. induction args as [|b args IH]; intros a; [done|].
  specialize (IH b). cbn [eeco_args] in *. rewrite IH. simpl. by rewrite <-app_assoc.
Qed.

(** The text between quotes: plain characters, and the sequences for a newline, a
    tab and a backslash. *)
Inductive tok := Plain (c : Z) | Newline | Tab | Backslash.
Definition tok_ok (t : tok) : Prop := match t with Plain c => c ≠ 0 ∧ c ≠ 34 ∧ c ≠ 92 ∧ c ≠ 7 | _ => True end.
Definition tok_text (t : tok) : list Z :=
  match t with Plain c => [c] | Newline => [92; 110] | Tab => [92; 116] | Backslash => [92; 92] end.
Definition tok_mean (t : tok) : list Z :=
  match t with Plain c => [c] | Newline => [10] | Tab => [9] | Backslash => [92] end.
(** How the scan leaves it. *)
Definition tok_left (t : tok) : list Z :=
  match t with Plain c => [c] | Newline => [92; 10] | Tab => [92; 9] | Backslash => [92; 7] end.

Lemma echar_app pre c s : echar (pre ++ c :: s) (length pre) = c.
Proof. unfold echar. by rewrite app_nth2, Nat.sub_diag by lia. Qed.
Lemma echar_app_S pre c d s : echar (pre ++ c :: d :: s) (S (length pre)) = d.
Proof. unfold echar. rewrite app_nth2 by lia. by replace (S (length pre) - length pre)%nat with 1%nat by lia. Qed.
Lemma insert_app_S pre c d e (s : list Z) : <[S (length pre) := e]> (pre ++ c :: d :: s) = pre ++ c :: e :: s.
Proof. rewrite insert_app_r_alt by lia. by replace (S (length pre) - length pre)%nat with 1%nat by lia. Qed.

(** An escape sequence, with a plain character or a quote behind it. *)
Lemma escape_tok t pre rest nl : tok_ok t → (∀ c, t ≠ Plain c) → 
  escape (pre ++ tok_text t ++ rest) (length pre) nl =
  (pre ++ tok_left t ++ rest, match t with Backslash => S (length pre) | _ => length pre end, nl).
Proof.
  intros _ Ht. unfold escape. destruct t as [c| | |]; [by destruct (Ht c)|..]; simpl;
    repeat (rewrite ?echar_app_S, ?insert_app_S; simpl); done.
Qed.

Lemma scan_tok t fuel sum pre rest account nl : tok_ok t → (length (tok_text t) ≤ fuel)%nat →
  ∃ fuel', (fuel - length (tok_text t) ≤ fuel')%nat ∧
  eeco_scan fuel sum (pre ++ tok_text t ++ rest) (length pre) account true nl =
  eeco_scan fuel' sum ((pre ++ tok_left t) ++ rest) (length (pre ++ tok_left t)) account true nl.
Proof.
  intros Ht Hf. rewrite <-app_assoc, length_app. destruct t as [c| | |].
  - destruct fuel as [|fuel]; simpl in *; [lia|]. exists fuel. split; [lia|]. destruct Ht as (H0 & H34 & H92 & _).
    rewrite echar_app, (proj2 (Z.eqb_neq c 0)), (proj2 (Z.eqb_neq c 34)), (proj2 (Z.eqb_neq c 92)) by done. simpl.
    by rewrite Nat.add_1_r.
  - destruct fuel as [|[|fuel]]; simpl in Hf; try lia. exists fuel. split; [simpl; lia|]. cbn [eeco_scan]. simpl (tok_text _ ++ _).
    rewrite echar_app. simpl (92 =? _). cbn [andb]. cbv iota.
    change (pre ++ 92 :: 110 :: rest) with (pre ++ tok_text Newline ++ rest). rewrite escape_tok by done. cbn [tok_left app]. rewrite echar_app_S.
    simpl. f_equal. lia.
  - destruct fuel as [|[|fuel]]; simpl in Hf; try lia. exists fuel. split; [simpl; lia|]. cbn [eeco_scan]. simpl (tok_text _ ++ _).
    rewrite echar_app. simpl (92 =? _). cbn [andb]. cbv iota.
    change (pre ++ 92 :: 116 :: rest) with (pre ++ tok_text Tab ++ rest). rewrite escape_tok by done. cbn [tok_left app]. rewrite echar_app_S.
    simpl. f_equal. lia.
  - destruct fuel as [|fuel]; simpl in Hf; try lia. exists fuel. split; [simpl; lia|]. cbn [eeco_scan]. simpl (tok_text _ ++ _).
    rewrite echar_app. simpl (92 =? _). cbn [andb]. cbv iota.
    change (pre ++ 92 :: 92 :: rest) with (pre ++ tok_text Backslash ++ rest). rewrite escape_tok by done. cbn [tok_left app].
    simpl. f_equal. lia.
Qed.

Lemma scan_toks ts : ∀ fuel sum pre rest account nl, Forall tok_ok ts → (length (ts ≫= tok_text) ≤ fuel)%nat →
  ∃ fuel', (fuel - length (ts ≫= tok_text) ≤ fuel')%nat ∧
  eeco_scan fuel sum (pre ++ (ts ≫= tok_text) ++ rest) (length pre) account true nl =
  eeco_scan fuel' sum ((pre ++ (ts ≫= tok_left)) ++ rest) (length (pre ++ (ts ≫= tok_left))) account true nl.
Proof.
  induction ts as [|t ts IH]; intros fuel sum pre rest account nl Hok Hf; cbn [mbind list_bind] in *.
  - exists fuel. split; [simpl; lia|]. by rewrite !app_nil_r.
  - apply Forall_cons in Hok as [Ht Hok]. rewrite length_app in *. rewrite <-app_assoc.
    destruct (scan_tok t fuel sum pre ((ts ≫= tok_text) ++ rest) account nl Ht) as (f1 & H1 & E1); [lia|]. rewrite E1.
    destruct (IH f1 sum (pre ++ tok_left t) rest account nl Hok) as (f2 & H2 & E2); [lia|]. rewrite E2.
    exists f2. split; [lia|]. by rewrite <-!app_assoc.
Qed.

Lemma quotes_toks ts : Forall tok_ok ts → quotes (ts ≫= tok_text) = O.
Proof.
  unfold quotes. induction 1 as [|t ts Ht _ IH]; [done|]. cbn [mbind list_bind]. rewrite filter_app, length_app, IH, Nat.add_0_r.
  destruct t as [c| | |]; try done. simpl. rewrite filter_cons_False by apply Ht. done.
Qed.
Lemma show_toks ts : Forall tok_ok ts → eeco_show (ts ≫= tok_left) = ts ≫= tok_mean.
Proof.
  unfold eeco_show. induction 1 as [|t ts Ht _ IH]; [done|]. cbn [mbind list_bind]. rewrite bind_app, IH. f_equal.
  destruct t as [c| | |]; try done. destruct Ht as (_ & H34 & H92 & H7). simpl.
  by rewrite (proj2 (Z.eqb_neq c 34)), (proj2 (Z.eqb_neq c 92)), (proj2 (Z.eqb_neq c 7)) by done.
Qed.

(** With -e, a quoted argument is printed without its quotes and with its escape
    sequences replaced. *)
Theorem eeco_escapes ts : Forall tok_ok ts →
  eeco [[45; 101]; [34] ++ (ts ≫= tok_text) ++ [34]] = Some ((ts ≫= tok_mean) ++ [10]).
Proof.
  intros Hok. unfold eeco. simpl (echar _ _ =? _). cbn [andb]. cbv iota. cbn [eeco_args]. unfold eeco_arg.
  assert (quotes ([34] ++ (ts ≫= tok_text) ++ [34]) = 2%nat) as ->.
  { pose proof (quotes_toks ts Hok) as Hq. unfold quotes in *. rewrite !filter_app, !length_app, Hq. done. }
  simpl (2 <=? 1)%nat. cbv iota. set (n := length ([34] ++ (ts ≫= tok_text) ++ [34])). cbn [eeco_scan].
  change (echar ([34] ++ (ts ≫= tok_text) ++ [34]) 0) with 34. simpl (34 =? _). cbv iota. simpl (1 =? 2)%nat. cbv iota.
  assert (n = S (S (length (ts ≫= tok_text)))) as -> by (subst n; rewrite !length_app; simpl; lia).
  destruct (scan_toks ts (S (S (length (ts ≫= tok_text)))) 2 [34] [34] 1 true Hok ltac:(lia)) as (f & Hf & E).
  change (length [34]) with 1%nat in E. cbn [negb]. rewrite E. clear E. destruct f as [|[|f]]; [lia..|]. cbn [eeco_scan]. rewrite echar_app. simpl (34 =? _). cbv iota. simpl (2 =? 2)%nat. cbv iota.
  assert (echar (([34] ++ (ts ≫= tok_left)) ++ [34]) (S (length ([34] ++ (ts ≫= tok_left)))) = 0) as ->.
  { unfold echar. apply nth_overflow. rewrite length_app. simpl. lia. }
  simpl (0 =? 0). cbn [mbind option_bind]. simpl (Nat.odd 2).
  rewrite andb_false_r, app_nil_r, take_ge by (rewrite length_app; simpl; lia).
  unfold eeco_show. rewrite !bind_app. fold (eeco_show (ts ≫= tok_left)). rewrite show_toks by done.
  simpl. by rewrite !app_nil_r.
Qed.

(** The variable intrns is still set at the end of an argument: in the next one
    the sequences between the quotes are not replaced. *)
Lemma eeco_second_argument :
  eeco [[45; 101]; [34; 97; 92; 116; 34]; [34; 97; 92; 116; 34]] = Some [97; 9; 32; 97; 116; 10].
Proof. done. Qed.
