(* ===== verification/Cal.v ===== *)
(** * The calculator (cal.c)

    The calculator reads an expression from left to right with a stack of
    numbers and a stack of operators. Floating point numbers are a parameter with
    their operations. The function initStack has no return statement, and the
    pointers input and singleRes of calculate and res of main, through which the
    numbers go, are never set. The values that the code so leaves indeterminate
    are a parameter too, [Indet]: whether the result register still has the new
    stack when initStack returns, and whether each pointer happens to have a
    float of its own. A store through a pointer that has none, and the use of a
    stack that is not there, are undefined. A pointer that popOut returns is used
    before the next push, so it is the value it points to. *)

From S2P Require Import Prelude.

Definition DIV_BY_ZERO : Z := -1.
Definition WRONG_FORM : Z := -2.
Definition BAD_INPUT : Z := -3.
Definition GOOD_RESULT : Z := 4.
Definition CERROR : Z := 5.
Definition STACK_LIMIT : nat := 500.

(** The floating point arithmetic that the program uses. *)
Class Float := {
  F : Type;
  fadd : F → F → F; fsub : F → F → F; fmul : F → F → F; fdiv : F → F → F;
  fneg : F → F;
  fis0 : F → bool;
  of_int : Z → F;
}.

(** The indeterminate values of the code: the result of initStack is the new
    stack, and the pointer has a float of its own. *)
Class Indet := {
  i_stack : bool;
  i_input : bool;
  i_singleRes : bool;
  i_res : bool;
}.
Definition all_good (IN : Indet) : bool := i_stack && i_input && i_singleRes && i_res.

Section cal.
Context `{FL : Float} {IN : Indet}.

(** The two stacks, with the top first. *)
Record cst := mkCst { nums : list F; syms : list Z }.

(** Without a return statement the caller uses what the register holds. *)
Definition initStack : M cst unit := if i_stack then mret tt else undef.

(** [*p=...] for a pointer that is never set. *)
Definition store_through (ok : bool) : M cst unit := if ok then mret tt else undef.

(** The code does not look at the limit. *)
Definition pushNum (x : F) : M cst unit := λ st,
  if (length (nums st) <? STACK_LIMIT)%nat then Ok tt (mkCst (x :: nums st) (syms st)) else Err Undef st.
Definition pushSym (c : Z) : M cst unit := λ st,
  if (length (syms st) <? STACK_LIMIT)%nat then Ok tt (mkCst (nums st) (c :: syms st)) else Err Undef st.
(** [popOut]; [None] is the null pointer. *)
Definition popNum : M cst (option F) := λ st,
  match nums st with [] => Ok None st | x :: l => Ok (Some x) (mkCst l (syms st)) end.
Definition popSym : M cst (option Z) := λ st,
  match syms st with [] => Ok None st | c :: l => Ok (Some c) (mkCst (nums st) l) end.

(** The return value, and the number that is stored when it is good. *)
Definition singleCal (a b : F) (op : Z) : Z * option F :=
  if op =? 43 then (GOOD_RESULT, Some (fadd a b))
  else if op =? 45 then (GOOD_RESULT, Some (fsub a b))
  else if op =? 42 then (GOOD_RESULT, Some (fmul a b))
  else if op =? 47 then if fis0 b then (DIV_BY_ZERO, None) else (GOOD_RESULT, Some (fdiv a b))
  else (CERROR, None).

Definition is_digit (c : Z) : bool := (48 <=? c) && (c <=? 57).
(** [source[i]], with the terminator behind the string. *)
Definition at_ (s : list Z) (i : nat) : Z := nth i s 0.

(** The first loop of [strToFlo]: the end of the number, the position of the
    point and the sign, or nothing for a second point. *)
Fixpoint num_end (n : nat) (s : list Z) (start len : nat) (point : option nat) (neg : bool) : option (nat * option nat * bool) :=
  match n with
  | O => Some (len, point, neg)
  | S n' =>
      let c := at_ s len in
      if c =? 0 then Some (len, point, neg)
      else if c =? 46 then
        match point with
        | None => num_end n' s start (S len) (Some len) neg
        | Some _ => None
        end
      else if c =? 45 then
        if negb neg && (len =? start)%nat then num_end n' s start (S len) point true else Some (len, point, neg)
      else if c =? 43 then
        if negb (len =? start)%nat then Some (len, point, neg) else num_end n' s start (S len) point neg
      else if (c <? 48) || (57 <? c) then Some (len, point, neg)
      else num_end n' s start (S len) point neg
  end.

(** The digits between [i] and the end, as an int. *)
Fixpoint digits_value (s : list Z) (n i : nat) (acc : Z) : Z :=
  match n with
  | O => acc
  | S n' => digits_value s n' (S i) (if is_digit (at_ s i) then s32 (acc * 10 + at_ s i - 48) else acc)
  end.

(** [res /= 10], [n] times. *)
Fixpoint shift_point (n : nat) (x : F) : F :=
  match n with O => x | S n' => shift_point n' (fdiv x (of_int 10)) end.

(** [strToFlo]: the number and the position behind it. *)
Definition strToFlo (s : list Z) (start : nat) : option (F * nat) :=
  match num_end (length s - start) s start start None false with
  | None => None
  | Some (len, point, neg) =>
      let x := of_int (digits_value s (len - start) start 0) in
      let x := match point with Some p => shift_point (len - p - 1) x | None => x end in
      Some (if neg then fneg x else x, len)
  end.

(** The results of [calculate]: its return value and the number. *)
Definition cret := (Z * option F)%type.

(** The two topmost numbers are taken with an operator; the result is pushed.
    [Some r] is a return with [r]: too few numbers, or 0, the value of the
    comparison that is assigned to flag. *)
Definition reduce (op : Z) : M cst (option Z) :=
  n ← gets (λ st, length (nums st));
  if (n <? 2)%nat then mret (Some WRONG_FORM) else
  b ← popNum;
  a ← popNum;
  b ← deref b;
  a ← deref a;
  let '(r, v) := singleCal a b op in
  if r =? GOOD_RESULT then
    v ← deref v;
    store_through i_singleRes;;
    pushNum v;;
    mret None
  else mret (Some 0).

(** The loop at a closing brace; at the bottom of the stack the null pointer is
    read. *)
Fixpoint close_loop (n : nat) (op : option Z) : M cst (option Z) :=
  match n with
  | O => stopM NoFuel
  | S n' =>
      op ← deref op;
      if op =? 123 then mret None else
      r ← reduce op;
      match r with
      | Some r => mret (Some r)
      | None => op ← popSym; close_loop n' op
      end
  end.

(** The operators that are left at the end. *)
Fixpoint end_loop (n : nat) : M cst (option Z) :=
  match n with
  | O => stopM NoFuel
  | S n' =>
      k ← gets (λ st, length (syms st));
      if (k =? 0)%nat then mret None else
      op ← popSym;
      op ← deref op;
      r ← reduce op;
      match r with Some r => mret (Some r) | None => end_loop n' end
  end.

Definition calc_end : M cst cret :=
  k ← gets (λ st, length (syms st));
  r ← end_loop (S k);
  match r with
  | Some r => mret (r, None)
  | None =>
      n ← gets (λ st, length (nums st));
      if (1 <? n)%nat then mret (WRONG_FORM, None) else
      a ← popNum;
      a ← deref a;
      store_through i_res;;
      mret (GOOD_RESULT, Some a)
  end.

(** An operator that waits for an operand: the one on top of the stack is done
    first when [first] says so, and one only. *)
Definition operator (first : Z → bool) (c : Z) : M cst (option Z) :=
  k ← gets (λ st, length (syms st));
  if (k =? 0)%nat then pushSym c;; mret None else
  op ← popSym;
  op ← deref op;
  if first op then
    r ← reduce op;
    match r with Some r => mret (Some r) | None => pushSym c;; mret None end
  else pushSym op;; pushSym c;; mret None.

(** A sign belongs to a number when it does not follow a digit or a brace. *)
Definition is_sign (s : list Z) (i : nat) : bool :=
  match i with
  | O => true
  | S j => negb (is_digit (at_ s j)) && negb (at_ s j =? 125)
  end.

Fixpoint calc_loop (fuel : nat) (s : list Z) (i : nat) : M cst cret :=
  match fuel with
  | O => stopM NoFuel
  | S fuel' =>
      let c := at_ s i in
      let number :=
        match strToFlo s i with
        | None => mret (BAD_INPUT, None)
        | Some (x, next) => store_through i_input;; pushNum x;; calc_loop fuel' s next
        end in
      let go (m : M cst (option Z)) :=
        r ← m;
        match r with Some r => mret (r, None) | None => calc_loop fuel' s (S i) end in
      if c =? 0 then calc_end
      else if is_digit c then number
      else if c =? 123 then pushSym c;; calc_loop fuel' s (S i)
      else if (c =? 43) || (c =? 45) then
        if is_sign s i then number else go (operator (λ op, negb (op =? 123)) c)
      else if (c =? 42) || (c =? 47) then go (operator (λ op, (op =? 42) || (op =? 47)) c)
      else if c =? 125 then
        go (k ← gets (λ st, length (syms st));
            if (k =? 0)%nat then mret (Some WRONG_FORM) else op ← popSym; close_loop (S k) op)
      else mret (BAD_INPUT, None)
  end.

Definition calculate (s : list Z) : M cst cret :=
  initStack;;
  initStack;;
  calc_loop (S (length s)) s 0.

(** What main prints for an argument: the number or the return value. *)
Definition cal_arg (s : list Z) : res cst cret := calculate s (mkCst [] []).

End cal.
