(* ===== verification/CalProps.v ===== *)
(** * What the calculator computes

    Expressions are trees of numbers, groups in braces and the four operators,
    with the grammar of sums of products. The run of [calculate] on the text of
    any such expression is given by [pend], what the two stacks hold behind it;
    [eval] is the value by the rules of arithmetic. The two agree when in each
    sum only the first and the last term are products: an additive operator
    carries out one operator that waits, not all of them. *)

From Stdlib Require Import QArith.
From S2P Require Import Prelude Cal.

Inductive aop := Add | Sub | Mul | Div.
Definition op_char (o : aop) : Z :=
  match o with Add => 43 | Sub => 45 | Mul => 42 | Div => 47 end.
Definition mul_op (o : aop) : bool := match o with Mul | Div => true | _ => false end.

(** A number: the sign, the digits and the digits behind the point. *)
Record lit := Lit { l_sign : option bool; l_int : list Z; l_frac : option (list Z) }.
Inductive exp := ENum (l : lit) | EGroup (e : exp) | EBin (a : exp) (o : aop) (b : exp).

Definition decimal (ds : list Z) (acc : Z) : Z := foldl (λ a d, a * 10 + d) acc ds.
Definition lit_digits (l : lit) : list Z := l_int l ++ default [] (l_frac l).
Definition digit_ok (d : Z) : bool := (0 <=? d) && (d <=? 9).
(** The digits as one integer fit an int. *)
Definition ok_lit (l : lit) : bool :=
  forallb digit_ok (lit_digits l) && negb (length (l_int l) =? 0)%nat &&
  match l_frac l with Some [] => false | _ => true end &&
  (decimal (lit_digits l) 0 <? 2 ^ 31).

(** The grammar: 0 for atoms, 1 for products, 2 for sums. *)
Fixpoint gram (n : nat) (e : exp) : bool :=
  match e with
  | ENum l => ok_lit l
  | EGroup e => gram 2 e
  | EBin a o b =>
      if mul_op o then (1 <=? n)%nat && gram 1 a && gram 0 b else (2 <=? n)%nat && gram 2 a && gram 1 b
  end.

Definition chars (ds : list Z) : list Z := map (λ d, d + 48) ds.
Definition print_sign (g : option bool) : list Z :=
  match g with Some true => [45] | Some false => [43] | None => [] end.
Definition print_frac (f : option (list Z)) : list Z :=
  match f with Some ds => 46 :: chars ds | None => [] end.
Definition print_lit (l : lit) : list Z := print_sign (l_sign l) ++ chars (l_int l) ++ print_frac (l_frac l).
Fixpoint print (e : exp) : list Z :=
  match e with
  | ENum l => print_lit l
  | EGroup e => [123] ++ print e ++ [125]
  | EBin a o b => print a ++ [op_char o] ++ print b
  end.

(** In each sum only the first and the last term are products. *)
Definition atom (e : exp) : bool := match e with EBin _ _ _ => false | _ => true end.
Fixpoint core (e : exp) : bool :=
  match e with EBin a o b => mul_op o || (core a && atom b) | _ => true end.
Fixpoint plain (e : exp) : bool :=
  match e with
  | ENum _ => true
  | EGroup e => plain e
  | EBin a o b => plain a && plain b && (mul_op o || core a)
  end.

Section value.
Context `{FL : Float}.

Definition arith (o : aop) (a b : F) : option F :=
  match o with
  | Add => Some (fadd a b)
  | Sub => Some (fsub a b)
  | Mul => Some (fmul a b)
  | Div => if fis0 b then None else Some (fdiv a b)
  end.

Definition lit_value (l : lit) : F :=
  let x := Nat.iter (length (default [] (l_frac l))) (λ x, fdiv x (of_int 10)) (of_int (decimal (lit_digits l) 0)) in
  if l_sign l is Some true then fneg x else x.

Fixpoint eval (e : exp) : option F :=
  match e with
  | ENum l => Some (lit_value l)
  | EGroup e => eval e
  | EBin a o b => x ← eval a; y ← eval b; arith o x y
  end.

(** All operators that wait, from the last to the first. *)
Fixpoint collapse (vs : list F) (os : list aop) {struct os} : option F :=
  match os with
  | [] => head vs
  | o :: os' =>
      match vs with
      | b :: a :: vs' => c ← arith o a b; collapse (c :: vs') os'
      | _ => None
      end
  end.

(** The last one only. *)
Definition reduce1 (p : list F * list aop) : option (list F * list aop) :=
  match p with
  | (b :: a :: vs, o :: os) => c ← arith o a b; Some (c :: vs, os)
  | _ => Some p
  end.

(** What the stacks hold behind an expression, above what they held before it. *)
Fixpoint pend (e : exp) : option (list F * list aop) :=
  match e with
  | ENum l => Some ([lit_value l], [])
  | EGroup e => p ← pend e; v ← collapse p.1 p.2; Some ([v], [])
  | EBin a o b =>
      p ← pend a; p ← reduce1 p; q ← pend b;
      Some (q.1 ++ p.1, q.2 ++ o :: p.2)
  end.

Lemma reduce1_length p q : length p.1 = S (length p.2) → reduce1 p = Some q → length q.1 = S (length q.2).
Proof.
  destruct p as [[|b [|a vs]] [|o os]]; simpl; intros; simplify_eq/=; try lia.
  destruct (arith o a b); simplify_eq/=. lia.
Qed.
Lemma reduce1_le p q : reduce1 p = Some q → (length q.1 ≤ length p.1)%nat.
Proof.
  destruct p as [[|b [|a vs]] [|o os]]; simpl; intros; simplify_eq/=; try lia.
  destruct (arith o a b); simplify_eq/=. lia.
Qed.
Local Arguments reduce1 : simpl never.

Lemma pend_length e p : pend e = Some p → length p.1 = S (length p.2).
Proof.
  revert p. induction e as [l|e IH|a IHa o b IHb]; simpl; intros p H.
  - by simplify_eq.
  - destruct (pend e); simplify_eq/=. destruct (collapse _ _); by simplify_eq/=.
  - destruct (pend a) as [pa|]; simplify_eq/=. specialize (IHa _ eq_refl).
    destruct (reduce1 pa) as [pa'|] eqn:Hr; simplify_eq/=. apply reduce1_length in Hr; [|done].
    destruct (pend b) as [pb|]; simplify_eq/=. specialize (IHb _ eq_refl).
    rewrite !length_app. simpl. lia.
Qed.
Lemma pend_pair_length e vs os : pend e = Some (vs, os) → length vs = S (length os).
Proof. apply pend_length. Qed.

Lemma collapse_last vs os a o : length vs = S (length os) →
  collapse (vs ++ [a]) (os ++ [o]) = (b ← collapse vs os; arith o a b).
Proof.
  revert vs. induction os as [|o' os IH]; intros [|v [|w vs]] Hl; simplify_eq/=.
  - by destruct (arith o a v).
  - destruct (arith o' w v) as [c|]; [|done]. simpl. apply (IH (c :: vs)). simpl. lia.
Qed.

Lemma reduce1_collapse vs os : length vs = S (length os) → (length os ≤ 1)%nat →
  reduce1 (vs, os) = (v ← collapse vs os; Some ([v], [])).
Proof.
  destruct os as [|o []], vs as [|v [|w []]]; unfold reduce1; simpl; intros; try lia; try done.
  by destruct (arith o w v).
Qed.

Lemma gram0_atom e : gram 0 e → atom e.
Proof. destruct e as [| |a [] b]; done. Qed.
Lemma gram1_core e : gram 1 e → core e.
Proof. destruct e as [| |a [] b]; done. Qed.

(** Both operands in the grammar, whatever the operator is. *)
Lemma gram_bin n a o b : gram n (EBin a o b) →
  ∃ m k, gram m a ∧ gram k b ∧ (mul_op o → m = 1%nat ∧ k = 0%nat) ∧ (negb (mul_op o) → m = 2%nat ∧ k = 1%nat).
Proof.
  simpl. destruct (mul_op o); rewrite !andb_True; intros [[_ ?] ?]; [exists 1%nat, 0%nat|exists 2%nat, 1%nat]; naive_solver.
Qed.

Lemma atom_pend e p : atom e → pend e = Some p → ∃ v, p = ([v], []).
Proof.
  destruct e as [l|e|]; simpl; intros Ha H; [simplify_eq; eauto| |done].
  destruct (pend e); simplify_eq/=. destruct (collapse _ _); simplify_eq/=. eauto.
Qed.

Lemma core_pend e vs os n : gram n e → core e → pend e = Some (vs, os) → (length os ≤ 1)%nat.
Proof.
  revert n vs os. induction e as [l|e IH|a IHa o b IHb]; intros n vs os Hg Hc H.
  1,2: by apply atom_pend in H as [? [= -> ->]]; simpl; [lia|].
  destruct (gram_bin _ _ _ _ Hg) as (m & k & Ha & Hb & Hm & Hs).
  assert (core a ∧ atom b) as [Hca Hab].
  { simpl in Hc. destruct (mul_op o); [destruct (Hm I) as [-> ->]; eauto using gram1_core, gram0_atom|].
    by apply andb_True in Hc. }
  simpl in H. destruct (pend a) as [[va oa]|] eqn:Ea; simplify_eq/=.
  rewrite reduce1_collapse in H by eauto using pend_pair_length.
  destruct (collapse va oa) as [v|]; simplify_eq/=.
  destruct (pend b) as [q|] eqn:Eb; simplify_eq/=.
  destruct (atom_pend _ _ Hab Eb) as [w ->]. by simplify_eq/=.
Qed.

Lemma pend_eval e n : gram n e → plain e → (p ← pend e; collapse p.1 p.2) = eval e.
Proof.
  revert n. induction e as [l|e IH|a IHa o b IHb]; simpl; intros n Hg Hp; [done| |].
  - specialize (IH 2%nat Hg Hp). destruct (pend e); simpl in *; [|done].
    by rewrite <-IH; destruct (collapse _ _).
  - destruct (gram_bin _ _ _ _ Hg) as (m & k & Ha & Hb & Hm & _).
    apply andb_True in Hp as [[Hpa Hpb]%andb_True Hc].
    assert (core a) as Hca.
    { destruct (mul_op o); [|done]. destruct (Hm I) as [-> _]. by apply gram1_core. }
    rewrite <-(IHa m), <-(IHb k) by done. destruct (pend a) as [[va oa]|] eqn:Ea; [|done]. simpl.
    rewrite reduce1_collapse by eauto using pend_pair_length, core_pend.
    destruct (collapse va oa) as [v|]; [|done]. simpl.
    destruct (pend b) as [[vb ob]|] eqn:Eb; [|done]. simpl.
    apply collapse_last. eauto using pend_pair_length.
Qed.
End value.

(** ** The text of a number *)

(** The text [l] stands at position [i] of [s]. *)
Definition sub (s : list Z) (i : nat) (l : list Z) : Prop :=
  ∀ k c, l !! k = Some c → s !! (i + k)%nat = Some c.

Lemma sub_app s i l1 l2 : sub s i (l1 ++ l2) ↔ sub s i l1 ∧ sub s (i + length l1) l2.
Proof.
  split.
  - intros H. split; intros k c Hk.
    + apply H. by apply lookup_app_l_Some.
    + rewrite <-Nat.add_assoc. apply H. by rewrite lookup_app_r, Nat.add_comm, Nat.add_sub by lia.
  - intros [H1 H2] k c [Hk|[Hl Hk]]%lookup_app_Some; [by apply H1|].
    apply H2 in Hk. by replace (i + length l1 + (k - length l1))%nat with (i + k)%nat in Hk by lia.
Qed.
Lemma sub_cons s i c l : sub s i (c :: l) ↔ s !! i = Some c ∧ sub s (S i) l.
Proof.
  change (c :: l) with ([c] ++ l). rewrite sub_app. simpl. rewrite Nat.add_1_r. f_equiv. split.
  - intros H. specialize (H 0%nat c eq_refl). by rewrite Nat.add_0_r in H.
  - intros H [|k] ? ?; simplify_eq/=. by rewrite Nat.add_0_r.
Qed.
Lemma sub_length s i l : sub s i l → l ≠ [] → (i + length l ≤ length s)%nat.
Proof.
  intros H Hl. destruct l as [|c l] using rev_ind; [done|].
  apply sub_app in H as [_ [H _]%sub_cons]. apply lookup_lt_Some in H. rewrite length_app. simpl. lia.
Qed.
Lemma sub_at s i c : s !! i = Some c → at_ s i = c.
Proof. intros H. unfold at_. apply nth_lookup_Some with (d := 0) in H. done. Qed.

(** The character behind a number. *)
Definition stops (s : list Z) (i : nat) : bool := negb (is_digit (at_ s i)) && negb (at_ s i =? 46).

Lemma stops_inv s i : stops s i → (at_ s i < 48 ∨ 57 < at_ s i) ∧ at_ s i ≠ 46.
Proof. unfold stops, is_digit. intros H%Is_true_true_1. lia. Qed.
Lemma digit_range d : digit_ok d → 0 ≤ d ≤ 9.
Proof. unfold digit_ok. intros H%Is_true_true_1. lia. Qed.

Lemma num_end_digits s start ds n i p neg : Forall (λ d, digit_ok d) ds → sub s i (chars ds) →
  num_end (length ds + n) s start i p neg = num_end n s start (i + length ds) p neg.
Proof.
  revert i. induction ds as [|d ds IH]; intros i Hd Hs; simpl; [by rewrite Nat.add_0_r|].
  apply Forall_cons in Hd as [Hd Hds]. apply sub_cons in Hs as [Hc Hs].
  rewrite (sub_at _ _ _ Hc). apply digit_range in Hd.
  repeat case_match; try lia; rewrite IH by done; f_equal; lia.
Qed.
Lemma num_end_stop s start n i p neg : stops s i → (start < i)%nat → num_end n s start i p neg = Some (i, p, neg).
Proof.
  intros [H ?]%stops_inv Hi. destruct n; [done|]. simpl.
  rewrite (proj2 (Nat.eqb_neq i start)), andb_false_r by lia. simpl.
  repeat case_match; try done; lia.
Qed.

Lemma decimal_app ds ds' a : decimal (ds ++ ds') a = decimal ds' (decimal ds a).
Proof. apply foldl_app. Qed.
Lemma decimal_mono ds a : Forall (λ d, digit_ok d) ds → 0 ≤ a → a ≤ decimal ds a.
Proof.
  revert a. induction ds as [|d ds IH]; intros a Hd Ha; [done|].
  apply Forall_cons in Hd as [Hd Hds]. apply digit_range in Hd. simpl. etrans; [|apply IH; [done|lia]]. lia.
Qed.
Lemma digits_value_digits s ds n i a : Forall (λ d, digit_ok d) ds → sub s i (chars ds) →
  0 ≤ a → decimal ds a < 2 ^ 31 →
  digits_value s (length ds + n) i a = digits_value s n (i + length ds) (decimal ds a).
Proof.
  revert i a. induction ds as [|d ds IH]; intros i a Hd Hs Ha Hb; simpl; [by rewrite Nat.add_0_r|].
  apply Forall_cons in Hd as [Hd Hds]. apply sub_cons in Hs as [Hc Hs].
  pose proof (decimal_mono ds (a * 10 + d) Hds) as Hm. simpl in Hb.
  rewrite (sub_at _ _ _ Hc). apply digit_range in Hd. unfold is_digit.
  case_match; [|lia]. rewrite s32_small by lia.
  replace (a * 10 + (d + 48) - 48) with (a * 10 + d) by lia.
  rewrite IH by (done || lia). f_equal. lia.
Qed.

Lemma ok_lit_inv l : ok_lit l →
  Forall (λ d, digit_ok d) (l_int l) ∧ Forall (λ d, digit_ok d) (default [] (l_frac l)) ∧
  (0 < length (l_int l))%nat ∧ l_frac l ≠ Some [] ∧ decimal (lit_digits l) 0 < 2 ^ 31.
Proof.
  unfold ok_lit, lit_digits. rewrite !andb_True. intros [[[Hd Hi] Hf] Hb].
  apply forallb_True, Forall_app in Hd as [? ?]. apply Is_true_true_1 in Hi, Hb.
  apply negb_true_iff, Nat.eqb_neq in Hi. apply Z.ltb_lt in Hb.
  repeat split; try done; [lia|]. intros Hn. by rewrite Hn in Hf.
Qed.

Lemma length_chars ds : length (chars ds) = length ds.
Proof. apply length_map. Qed.

Lemma num_end_sign s i g n : sub s i (print_sign g) →
  num_end (length (print_sign g) + n) s i i None false =
  num_end n s i (i + length (print_sign g)) None (if g is Some true then true else false).
Proof.
  destruct g as [[]|]; simpl; rewrite ?Nat.add_0_r, ?Nat.add_1_r; [| |done];
    intros [Hc _]%sub_cons; by rewrite (sub_at _ _ _ Hc), Nat.eqb_refl.
Qed.
Lemma num_end_frac s start i f n neg : (start < i)%nat → Forall (λ d, digit_ok d) (default [] f) →
  sub s i (print_frac f) → stops s (i + length (print_frac f)) →
  num_end (length (print_frac f) + n) s start i None neg =
  Some (i + length (print_frac f), (λ _, i) <$> f, neg)%nat.
Proof.
  destruct f as [ds|]; simpl; intros Hi Hd Hs Hp.
  - apply sub_cons in Hs as [Hc Hs]. rewrite (sub_at _ _ _ Hc). simpl.
    rewrite length_chars in *. rewrite num_end_digits by done.
    replace (S i + length ds)%nat with (i + S (length ds))%nat by lia.
    apply num_end_stop; [done|lia].
  - rewrite Nat.add_0_r in *. by apply num_end_stop.
Qed.

Lemma digits_value_sign s i g n a : sub s i (print_sign g) →
  digits_value s (length (print_sign g) + n) i a = digits_value s n (i + length (print_sign g)) a.
Proof.
  destruct g as [[]|]; simpl; rewrite ?Nat.add_0_r, ?Nat.add_1_r; [| |done];
    intros [Hc _]%sub_cons; by rewrite (sub_at _ _ _ Hc).
Qed.
Lemma digits_value_frac s i f a : Forall (λ d, digit_ok d) (default [] f) → sub s i (print_frac f) →
  0 ≤ a → decimal (default [] f) a < 2 ^ 31 →
  digits_value s (length (print_frac f)) i a = decimal (default [] f) a.
Proof.
  destruct f as [ds|]; simpl; [|done]. intros Hd [Hc Hs]%sub_cons Ha Hb.
  rewrite (sub_at _ _ _ Hc). simpl. rewrite length_chars, <-(Nat.add_0_r (length ds)).
  by rewrite digits_value_digits.
Qed.

Lemma shift_point_iter `{FL : Float} n (x : F) : shift_point n x = Nat.iter n (λ x, fdiv x (of_int 10)) x.
Proof. revert x. induction n as [|n IH]; intros x; [done|]. rewrite Nat.iter_succ_r. apply IH. Qed.

Lemma print_lit_ne l : ok_lit l → print_lit l ≠ [].
Proof.
  intros (_ & _ & Hn & _)%ok_lit_inv. unfold print_lit.
  destruct (l_int l); simpl in *; [lia|]. by destruct (print_sign _).
Qed.

Lemma print_lit_head l : ok_lit l → ∃ c t, print_lit l = c :: t ∧ (is_digit c ∨ c = 43 ∨ c = 45).
Proof.
  intros (Hd & _ & Hn & _)%ok_lit_inv. unfold print_lit. destruct (l_sign l) as [[]|]; simpl; [by eauto 6..|].
  destruct (l_int l) as [|d ds]; simpl in *; [lia|]. apply Forall_cons in Hd as [Hd%digit_range _].
  do 2 eexists. split; [done|]. left. apply Is_true_true_2. unfold is_digit. lia.
Qed.

Lemma digits_value_lit s i l : ok_lit l → sub s i (print_lit l) →
  digits_value s (length (print_lit l)) i 0 = decimal (lit_digits l) 0.
Proof.
  intros (Hdi & Hdf & Hn & Hf & Hb)%ok_lit_inv [Hs [Hi Hfr]%sub_app]%sub_app.
  pose proof (decimal_mono (l_int l) 0 Hdi) as H0.
  pose proof (decimal_mono _ (decimal (l_int l) 0) Hdf) as H1.
  unfold lit_digits, print_lit in *. rewrite decimal_app, !length_app, length_chars in *.
  rewrite digits_value_sign, digits_value_digits, digits_value_frac by (done || lia). done.
Qed.

Lemma strToFlo_lit `{FL : Float} s i l : ok_lit l → sub s i (print_lit l) →
  stops s (i + length (print_lit l)) → strToFlo s i = Some (lit_value l, i + length (print_lit l))%nat.
Proof.
  intros Hl Hs Hp. pose proof (sub_length _ _ _ Hs (print_lit_ne l Hl)) as Hlen.
  pose proof (digits_value_lit s i l Hl Hs) as Hv.
  apply ok_lit_inv in Hl as (Hdi & Hdf & Hn & Hf & Hb).
  apply sub_app in Hs as [Hs [Hi Hfr]%sub_app]. unfold strToFlo.
  replace (length s - i)%nat with (length (print_lit l) + (length s - i - length (print_lit l)))%nat by lia.
  assert (num_end (length (print_lit l) + (length s - i - length (print_lit l))) s i i None false =
    Some (i + length (print_lit l), (λ _, i + length (print_sign (l_sign l)) + length (l_int l)) <$> l_frac l,
      if l_sign l is Some true then true else false)%nat) as ->.
  { unfold print_lit in *. rewrite !length_app, length_chars in *. rewrite <-!Nat.add_assoc.
    rewrite num_end_sign, num_end_digits, num_end_frac by (done || lia || by rewrite <-!Nat.add_assoc).
    by rewrite <-!Nat.add_assoc. }
  replace (i + length (print_lit l) - i)%nat with (length (print_lit l)) by lia. rewrite Hv. unfold lit_value, print_lit. rewrite !length_app, length_chars.
  destruct (l_frac l) as [ds|]; simpl; rewrite ?shift_point_iter, ?length_chars.
  - replace (_ - _ - 1)%nat with (length ds) by lia. by destruct (l_sign l) as [[]|].
  - by destruct (l_sign l) as [[]|].
Qed.

(** ** The run *)
Section run.
Context `{FL : Float} {IN : Indet} (Hgood : all_good IN).

Lemma stores_good : i_input = true ∧ i_singleRes = true ∧ i_res = true.
Proof. pose proof Hgood as Hg. unfold all_good in Hg. destruct i_input, i_singleRes, i_res, i_stack; naive_solver. Qed.

(** From position [i] the run returns [r], with fuel for what is left. *)
Definition runs (s : list Z) (i : nat) (st : cst) (r : cret) : Prop :=
  ∀ fuel, (length s - i < fuel)%nat → ∃ st', calc_loop fuel s i st = Ok r st'.

(** The result of a division by zero. *)
Definition failed : cret := (0, None).

Lemma singleCal_arith o a b :
  singleCal a b (op_char o) = match arith o a b with Some c => (GOOD_RESULT, Some c) | None => (DIV_BY_ZERO, None) end.
Proof. destruct o; try done. unfold singleCal, arith. simpl. by destruct (fis0 b). Qed.

Lemma reduce_arith o a b vs ss : (length vs < STACK_LIMIT)%nat →
  reduce (op_char o) (mkCst (b :: a :: vs) ss) =
  match arith o a b with
  | Some c => Ok None (mkCst (c :: vs) ss)
  | None => Ok (Some 0) (mkCst vs ss)
  end.
Proof.
  intros Hl. unfold reduce. simpl. unfold mbind, M_bind, gets, popNum, deref. simpl. rewrite singleCal_arith.
  destruct (arith o a b); simpl; [|done]. destruct stores_good as (_ & -> & _). unfold pushNum. simpl.
  by rewrite (proj2 (Nat.ltb_lt _ _) Hl).
Qed.

(** The outcome of a step: the stacks, or a return with 0. *)
Definition steps (m : M cst (option Z)) (st : cst) (o : option cst) : Prop :=
  match o with
  | Some st' => m st = Ok None st'
  | None => ∃ st', m st = Ok (Some 0) st'
  end.

Local Arguments steps : simpl never.
Local Arguments operator : simpl never.
Local Arguments reduce1 : simpl never.

Lemma steps_bind (m : M cst (option Z)) (k : option Z → M cst (option Z)) st o o' :
  steps m st o →
  (∀ r st', k (Some r) st' = Ok (Some r) st') →
  match o with Some st' => steps (k None) st' o' | None => o' = None end →
  steps (r ← m; k r) st o'.
Proof.
  unfold steps, mbind, M_bind. intros Hm Hk. destruct o as [st1|].
  - rewrite Hm. done.
  - destruct Hm as [st1 ->]. intros ->. eauto.
Qed.

Lemma steps_reduce o a b vs ss : (length vs < STACK_LIMIT)%nat →
  steps (reduce (op_char o)) (mkCst (b :: a :: vs) ss) ((λ c, mkCst (c :: vs) ss) <$> arith o a b).
Proof. intros Hl. pose proof (reduce_arith o a b vs ss Hl) as H. unfold steps. destruct (arith o a b); simpl; eauto. Qed.

Lemma steps_eq (m m' : M cst (option Z)) st st' o : m st = m' st' → steps m' st' o → steps m st o.
Proof. unfold steps. by intros ->. Qed.

(** The operators up to the brace. *)
Lemma close_collapse os vs ns ss n : length vs = S (length os) → (length vs + length ns ≤ STACK_LIMIT)%nat →
  (length os < n)%nat →
  steps (op ← popSym; close_loop n op) (mkCst (vs ++ ns) (map op_char os ++ 123 :: ss))
    ((λ v, mkCst (v :: ns) ss) <$> collapse vs os).
Proof.
  revert vs n. induction os as [|o os IH]; intros vs [|n] Hl Hb Hn; try (exfalso; simpl in *; lia).
  - by destruct vs as [|v []].
  - destruct vs as [|b [|a vs]]; simplify_eq/=.
    eapply (steps_eq _ (r ← reduce (op_char o); match r with Some r => mret (Some r) | None => op ← popSym; close_loop n op end)
      _ (mkCst (b :: a :: vs ++ ns) _)); [by destruct o|].
    eapply steps_bind; [apply steps_reduce; rewrite length_app; lia|done|].
    destruct (arith o a b) as [c|]; simpl; [|done]. apply (IH (c :: vs)); simpl; lia.
Qed.

(** The operators up to the end. *)
Lemma end_collapse os vs n : length vs = S (length os) → (length vs ≤ STACK_LIMIT)%nat → (length os < n)%nat →
  steps (end_loop n) (mkCst vs (map op_char os)) ((λ v, mkCst [v] []) <$> collapse vs os).
Proof.
  revert vs n. induction os as [|o os IH]; intros vs [|n] Hl Hb Hn; try (exfalso; simpl in *; lia).
  - by destruct vs as [|v []].
  - destruct vs as [|b [|a vs]]; simplify_eq/=.
    eapply (steps_eq _ (r ← reduce (op_char o); match r with Some r => mret (Some r) | None => end_loop n end)
      _ (mkCst (b :: a :: vs) _)); [done|].
    eapply steps_bind; [apply steps_reduce; lia|done|].
    destruct (arith o a b) as [c|]; simpl; [|done]. apply (IH (c :: vs)); simpl; lia.
Qed.

(** One operator, when there is one of this expression. *)
Lemma operator_reduce1 (first : Z → bool) c vs os ns ss :
  length vs = S (length os) → (length vs + length ns ≤ STACK_LIMIT)%nat → (length os + length ss < STACK_LIMIT)%nat →
  match os with
  | o :: _ => first (op_char o)
  | [] => match ss with [] => True | x :: _ => negb (first x) end
  end →
  steps (operator first c) (mkCst (vs ++ ns) (map op_char os ++ ss))
    ((λ p, mkCst (p.1 ++ ns) (c :: map op_char p.2 ++ ss)) <$> reduce1 (vs, os)).
Proof.
  intros Hl Hb Hs Hf. assert (∀ ns ss, (length ss < STACK_LIMIT)%nat →
    steps (pushSym c;; mret None) (mkCst ns ss) (Some (mkCst ns (c :: ss)))) as Hpush.
  { intros ns' ss' H. unfold steps, mbind, M_bind, pushSym. simpl. by rewrite (proj2 (Nat.ltb_lt _ _) H). }
  destruct os as [|o os].
  - destruct vs as [|v []]; simplify_eq/=. destruct ss as [|x ss].
    + by eapply steps_eq; [|apply Hpush].
    + eapply (steps_eq _ (pushSym c;; mret None) _ (mkCst (v :: ns) (x :: ss))); [|by apply Hpush].
      unfold operator, mbind, M_bind. simpl. destruct (first x); [done|].
      unfold pushSym at 1. simpl. simpl in Hs. by rewrite (proj2 (Nat.ltb_lt _ _)) by lia.
  - destruct vs as [|b [|a vs]]; simplify_eq/=.
    eapply (steps_eq _ (r ← reduce (op_char o); match r with Some r => mret (Some r) | None => pushSym c;; mret None end)
      _ (mkCst (b :: a :: vs ++ ns) (map op_char os ++ ss))).
    { unfold operator, mbind, M_bind. simpl.
      by rewrite (Is_true_true_1 _ Hf). }
    eapply steps_bind; [apply steps_reduce; rewrite length_app; lia|done|].
    unfold reduce1. destruct (arith o a b) as [x|]; simpl; [|done]. apply Hpush.
    rewrite length_app, length_map. lia.
Qed.

(** What a run does at each kind of character. *)
Lemma runs_number s i st x j r :
  is_digit (at_ s i) ∨ (at_ s i = 43 ∨ at_ s i = 45) ∧ is_sign s i →
  strToFlo s i = Some (x, j) → (i < j ≤ length s)%nat → (length (nums st) < STACK_LIMIT)%nat →
  runs s j (mkCst (x :: nums st) (syms st)) r → runs s i st r.
Proof.
  intros Hc Hx Hj Hl Hr [|fuel] Hf; [lia|]. simpl. rewrite Hx.
  assert ((store_through i_input;; pushNum x;; calc_loop fuel s j) st = calc_loop fuel s j (mkCst (x :: nums st) (syms st))) as Hp.
  { destruct stores_good as (-> & _). unfold mbind, M_bind, pushNum. simpl. by rewrite (proj2 (Nat.ltb_lt _ _) Hl). }
  destruct (Hr fuel) as [st' Hst]; [lia|]. exists st'. rewrite <-Hst, <-Hp.
  destruct Hc as [Hd|[[-> | ->] Hs]]; [|by rewrite (Is_true_true_1 _ Hs)..].
  apply Is_true_true_1 in Hd. rewrite Hd. unfold is_digit in Hd. case_match; [lia|done].
Qed.

Lemma runs_open s i st r : s !! i = Some 123 → (length (syms st) < STACK_LIMIT)%nat →
  runs s (S i) (mkCst (nums st) (123 :: syms st)) r → runs s i st r.
Proof.
  intros Hc Hl Hr [|fuel] Hf; [lia|]. simpl. rewrite (sub_at _ _ _ Hc). simpl.
  unfold mbind, M_bind, pushSym. rewrite (proj2 (Nat.ltb_lt _ _) Hl).
  apply lookup_lt_Some in Hc. apply Hr. lia.
Qed.

(** A step that may fail, and the rest of the run. *)
Definition runs_opt (s : list Z) (i : nat) (o : option cst) (r : cret) : Prop :=
  match o with Some st => runs s i st r | None => r = failed end.

Lemma runs_go s i st r o (m : M cst (option Z)) : (i < length s)%nat →
  (∀ fuel, calc_loop (S fuel) s i st =
    (r ← m; match r with Some r => mret (r, None) | None => calc_loop fuel s (S i) end) st) →
  steps m st o → runs_opt s (S i) o r → runs s i st r.
Proof.
  intros Hi Hc Hm Hr [|fuel] Hf; [lia|]. rewrite Hc. unfold mbind, M_bind. destruct o as [st'|].
  - rewrite Hm. apply Hr. lia.
  - destruct Hm as [st' ->]. simpl in Hr. subst r. by eexists.
Qed.

Definition first_op (o : aop) : Z → bool :=
  if mul_op o then λ op, (op =? 42) || (op =? 47) else λ op, negb (op =? 123).

Lemma runs_op s i st o r : s !! i = Some (op_char o) → negb (is_sign s i) →
  ∀ q, steps (operator (first_op o) (op_char o)) st q → runs_opt s (S i) q r → runs s i st r.
Proof.
  intros Hc Hs q Hm Hr. eapply runs_go; [by eapply lookup_lt_Some| |done..].
  intros fuel. simpl. rewrite (sub_at _ _ _ Hc). destruct o; simpl; try done;
    by rewrite (proj1 (negb_true_iff _) (Is_true_true_1 _ Hs)).
Qed.

Lemma runs_close s i vs os ns ss r : s !! i = Some 125 →
  length vs = S (length os) → (length vs + length ns ≤ STACK_LIMIT)%nat →
  runs_opt s (S i) ((λ v, mkCst (v :: ns) ss) <$> collapse vs os) r →
  runs s i (mkCst (vs ++ ns) (map op_char os ++ 123 :: ss)) r.
Proof.
  intros Hc Hl Hb Hr. eapply (runs_go _ _ _ _ _ (k ← gets (λ st, length (syms st));
    if (k =? 0)%nat then mret (Some WRONG_FORM) else op ← popSym; close_loop (S k) op)); [by eapply lookup_lt_Some| | |done].
  - intros fuel. simpl. by rewrite (sub_at _ _ _ Hc).
  - eapply steps_eq; [|apply (close_collapse os vs ns ss (S (length (map op_char os ++ 123 :: ss)))); [done..|]].
    + unfold mbind at 1, M_bind at 1. simpl. rewrite (proj2 (Nat.eqb_neq _ _)); [done|]. rewrite length_app. simpl. lia.
    + rewrite length_app, length_map. lia.
Qed.

Lemma runs_end s i vs os : (length s ≤ i)%nat → length vs = S (length os) → (length vs ≤ STACK_LIMIT)%nat →
  runs s i (mkCst vs (map op_char os))
    (match collapse vs os with Some v => (GOOD_RESULT, Some v) | None => failed end).
Proof.
  intros Hi Hl Hb [|fuel] Hf; [lia|]. simpl. unfold at_. rewrite nth_overflow by done. simpl.
  pose proof (end_collapse os vs (S (length os)) Hl Hb ltac:(lia)) as H. unfold steps in H.
  unfold calc_end, mbind, M_bind. simpl. rewrite length_map.
  destruct stores_good as (_ & _ & ->).
  destruct (collapse vs os) as [v|]; simpl in H; [rewrite H|destruct H as [st' ->]]; simpl; by eexists.
Qed.

(** ** The run over an expression *)

Lemma print_last e n : gram n e → ∃ l c, print e = l ++ [c] ∧ negb (is_digit c) && negb (c =? 125) = false.
Proof.
  revert n. induction e as [l|e IH|a IHa o b IHb]; intros n Hg.
  - apply ok_lit_inv in Hg as (Hdi & Hdf & Hn & Hf & _). simpl. unfold print_lit.
    assert (∃ l' ds, print_sign (l_sign l) ++ chars (l_int l) ++ print_frac (l_frac l) = l' ++ chars ds ∧
      ds ≠ [] ∧ Forall (λ d, digit_ok d) ds) as (l' & ds & -> & Hne & Hd).
    { destruct (l_frac l) as [ds|].
      - exists (print_sign (l_sign l) ++ chars (l_int l) ++ [46]), ds. simpl. rewrite <-!app_assoc. naive_solver.
      - exists (print_sign (l_sign l)), (l_int l). rewrite app_nil_r. split_and!; [done| |done].
        intros Hi. rewrite Hi in Hn. simpl in Hn. lia. }
    destruct ds as [|d ds _] using rev_ind; [done|]. apply Forall_app in Hd as [_ [Hd _]%Forall_cons].
    exists (l' ++ chars ds), (d + 48). unfold chars. rewrite map_app, app_assoc. split; [done|].
    apply digit_range in Hd. unfold is_digit. lia.
  - by exists ([123] ++ print e), 125.
  - destruct (gram_bin _ _ _ _ Hg) as (m & k & _ & Hb & _). destruct (IHb k Hb) as (l & c & Hl & Hc).
    exists (print a ++ [op_char o] ++ l), c. simpl. rewrite Hl. by rewrite <-!app_assoc.
Qed.

Lemma print_ne e n : gram n e → print e ≠ [].
Proof. intros (l & c & -> & _)%print_last. by destruct l. Qed.

Lemma pend_bound e n p : gram n e → pend e = Some p → (length p.1 ≤ length (print e))%nat.
Proof.
  revert n p. induction e as [l|e IH|a IHa o b IHb]; intros n p Hg H.
  - simpl in H. simplify_eq/=. pose proof (print_lit_ne l Hg). destruct (print_lit l); simpl; [done|lia].
  - apply atom_pend in H as [v ->]; [|done]. simpl. lia.
  - destruct (gram_bin _ _ _ _ Hg) as (m & k & Ha & Hb & _). simpl in H.
    destruct (pend a) as [pa|] eqn:Ea; simplify_eq/=. specialize (IHa _ _ Ha eq_refl).
    destruct (reduce1 pa) as [pa'|] eqn:Hr; simplify_eq/=.
    destruct (pend b) as [pb|] eqn:Eb; simplify_eq/=. specialize (IHb _ _ Hb eq_refl).
    apply reduce1_le in Hr.
    rewrite !length_app. simpl. lia.
Qed.

(** The operators below an expression of the grammar's level [n] stay. *)
Definition below (n : nat) (ss : list Z) : bool :=
  match n, ss with
  | O, _ | _, [] => true
  | 1%nat, x :: _ => negb ((x =? 42) || (x =? 47))
  | _, x :: _ => x =? 123
  end.

Lemma pend_first n a o b vs os ss : gram n (EBin a o b) → below n ss → pend a = Some (vs, os) →
  match os with
  | o' :: _ => first_op o (op_char o')
  | [] => match ss with [] => True | x :: _ => negb (first_op o x) end
  end.
Proof.
  simpl. intros Hg Hbl Hp. unfold first_op. destruct os as [|o' os].
  - destruct ss as [|x ss]; [done|]. destruct (mul_op o).
    + destruct n as [|[|n]]; simpl in *; try done. by apply Is_true_true_1, Z.eqb_eq in Hbl as ->.
    + destruct n as [|[|n]]; simpl in *; try done. by apply Is_true_true_1, Z.eqb_eq in Hbl as ->.
  - destruct (mul_op o); [|by destruct o'].
    apply andb_True in Hg as [[_ Ha]%andb_True _]. destruct a as [l|e|a o1 b1].
    1,2: by apply atom_pend in Hp as [? [=]].
    simpl in Ha. destruct (mul_op o1) eqn:Eo; [|done]. apply andb_True in Ha as [_ Hb1%gram0_atom].
    simpl in Hp. destruct (pend a) as [pa|]; simplify_eq/=. destruct (reduce1 pa) as [pa'|]; simplify_eq/=.
    destruct (pend b1) as [pb|] eqn:Eb; simplify_eq/=. apply atom_pend in Eb as [v ->]; [|done].
    simplify_eq/=. by destruct o'.
Qed.

(** An operator behind an operand is not a sign. *)
Lemma print_not_sign s i e n : gram n e → sub s i (print e) → negb (is_sign s (i + length (print e))).
Proof.
  intros (l & c & -> & Hc)%print_last [_ [Hs _]%sub_cons]%sub_app. rewrite length_app. simpl.
  replace (i + (length l + 1))%nat with (S (i + length l)) by lia. simpl.
  by rewrite (sub_at _ _ _ Hs), Hc.
Qed.

Lemma runs_exp e n s i ns ss r : gram n e → sub s i (print e) → is_sign s i → stops s (i + length (print e)) →
  below n ss → (length ns ≤ i)%nat → (length ss ≤ i)%nat → (length s ≤ STACK_LIMIT)%nat →
  runs_opt s (i + length (print e)) ((λ p, mkCst (p.1 ++ ns) (map op_char p.2 ++ ss)) <$> pend e) r →
  runs s i (mkCst ns ss) r.
Proof.
  revert n i ns ss. induction e as [l|e IH|a IHa o b IHb]; intros n i ns ss Hg Hs Hsg Hst Hbl Hn Hss Hlen Hr;
    pose proof (sub_length _ _ _ Hs (print_ne _ _ Hg)) as Hi.
  - destruct (print_lit_head l Hg) as (c & t & Hc & Hd). pose proof Hs as Hs'. simpl in Hs, Hi.
    rewrite Hc in Hs, Hi. apply sub_cons in Hs as [Hs _]. simpl in Hi.
    eapply runs_number; [| | | |exact Hr]; simpl; [|by apply strToFlo_lit|rewrite Hc; simpl; lia|lia].
    rewrite (sub_at _ _ _ Hs). naive_solver.
  - simpl in Hs, Hst, Hr, Hi. apply sub_cons in Hs as [Ho [He Hc]%sub_app]. apply sub_cons in Hc as [Hc _].
    rewrite length_app in *. simpl in *.
    apply runs_open; [done|simpl; lia|]. simpl.
    apply (IH 2%nat); try done; simpl; try lia.
    + by rewrite (sub_at _ _ _ Ho).
    + unfold stops. by rewrite (sub_at _ _ _ Hc).
    + destruct (pend e) as [[vs os]|] eqn:Ep; simpl in *; [|done].
      apply runs_close; [done|by eapply pend_pair_length| |].
      * apply (pend_bound _ _ _ Hg) in Ep. simpl in Ep. lia.
      * destruct (collapse vs os); simpl in *; [|done].
        by replace (S (S (i + length (print e)))) with (i + S (length (print e) + 1))%nat by lia.
  - destruct (gram_bin _ _ _ _ Hg) as (m & k & Ha & Hb & Hm1 & Hm2).
    simpl in Hs, Hst, Hr, Hi. apply sub_app in Hs as [Hsa [Ho Hsb]%sub_cons].
    rewrite length_app in *. simpl in *.
    assert (stops s (i + length (print a))) as Hsa'.
    { unfold stops. rewrite (sub_at _ _ _ Ho). by destruct o. }
    apply (IHa m); try done.
    { destruct (mul_op o); [destruct (Hm1 I) as [-> _]|destruct (Hm2 I) as [-> _]];
        destruct ss as [|x ss], n as [|[|n]]; simpl in *; try done.
      by apply Is_true_true_1, Z.eqb_eq in Hbl as ->. }
    destruct (pend a) as [[va oa]|] eqn:Ea; simpl in *; [|done].
    pose proof (pend_pair_length _ _ _ Ea) as Hla. pose proof (pend_bound _ _ _ Ha Ea) as Hba. simpl in Hba.
    eapply runs_op; [done|by eapply print_not_sign| |].
    { apply operator_reduce1; [done|lia..|]. by eapply pend_first. }
    destruct (reduce1 (va, oa)) as [[va' oa']|] eqn:Er; simpl in *; [|done].
    pose proof (reduce1_length (va, oa) _ Hla Er) as Hla'. apply reduce1_le in Er. simpl in *.
    replace (i + (length (print a) + S (length (print b))))%nat
      with (S (i + length (print a)) + length (print b))%nat in * by lia.
    apply (IHb k); try done.
    + simpl. rewrite (sub_at _ _ _ Ho). by destruct o.
    + destruct (mul_op o) eqn:Eo; [by destruct (Hm1 I) as [_ ->]|destruct (Hm2 I) as [_ ->]]. by destruct o.
    + rewrite length_app. lia.
    + simpl. rewrite length_app, length_map. lia.
    + destruct (pend b) as [[vb ob]|]; [|done]. simpl in *. rewrite map_app, <-!app_assoc in Hr. done.
Qed.
End run.

(** ** The calculator *)
Section calculator.
Context `{FL : Float} {IN : Indet}.

(** Any expression of the grammar, as the machine sees it. *)
Lemma calculate_pend e : all_good IN → gram 2 e → (length (print e) ≤ STACK_LIMIT)%nat →
  ∃ st, cal_arg (print e) = Ok
    (match (p ← pend e; collapse p.1 p.2) with Some v => (GOOD_RESULT, Some v) | None => failed end) st.
Proof.
  intros Hin Hg Hl.
  assert (runs (print e) 0 (mkCst [] [])
    (match (p ← pend e; collapse p.1 p.2) with Some v => (GOOD_RESULT, Some v) | None => failed end)) as Hr.
  { apply (runs_exp Hin e 2 (print e) 0 [] []); simpl; try done; [by intros k c| |lia..|].
    - unfold stops, at_. by rewrite nth_overflow.
    - destruct (pend e) as [[vs os]|] eqn:Ep; simpl; [|done]. rewrite !app_nil_r.
      apply runs_end; [done..|by eapply pend_pair_length|]. apply (pend_bound _ _ _ Hg) in Ep. simpl in Ep. lia. }
  unfold all_good in Hin. unfold cal_arg, calculate, initStack. destruct i_stack; [|by destruct Hin].
  destruct (Hr (S (length (print e)))) as [st Hst]; [lia|]. exists st. exact Hst.
Qed.

(** C34: take the values that the code leaves indeterminate (the result of
    initStack, which has no return statement, and the pointers input, singleRes
    and res, which are never set). If they all happen to be good, then on the
    text of every expression of numbers, braces and the four operators, in at
    most 500 characters and with numbers whose digits without the point fit an
    int, the calculator returns: the stacks do not overflow and no null pointer
    is read. The result is the one of the two stacks, on which an additive
    operator carries out one waiting operator only; when in each sum only the
    first and the last term are products this is the value by the rules of
    arithmetic. A division by zero returns 0. If the register does not hold the
    stack when initStack returns, every argument is undefined behaviour. *)
Theorem calculate_eval :
  (all_good IN → ∀ e, gram 2 e → (length (print e) ≤ STACK_LIMIT)%nat →
    ∃ st v, cal_arg (print e) = Ok (match v with Some v => (GOOD_RESULT, Some v) | None => (0, None) end) st ∧
      v = (p ← pend e; collapse p.1 p.2) ∧ (plain e → v = eval e)) ∧
  (i_stack = false → ∀ s, cal_arg s = Err Undef (mkCst [] [])).
Proof.
  split.
  - intros Hin e Hg Hl. destruct (calculate_pend e Hin Hg Hl) as [st Hst]. eexists _, _. split; [exact Hst|].
    split; [done|]. intros Hp. by apply (pend_eval e 2).
  - intros Hs s. unfold cal_arg, calculate, initStack. by rewrite Hs.
Qed.
End calculator.

(** Exact fractions in place of floats, to run the calculator. *)
Definition fractions : Float := {|
  F := Q;
  fadd := Qplus; fsub := Qminus; fmul := Qmult; fdiv := Qdiv; fneg := Qopp;
  fis0 := λ x, Qnum x =? 0;
  of_int := inject_Z;
|}.

Definition good_values : Indet := {| i_stack := true; i_input := true; i_singleRes := true; i_res := true |}.
Definition no_return : Indet := {| i_stack := false; i_input := true; i_singleRes := true; i_res := true |}.

Definition num (n : Z) : exp := ENum (Lit None [n] None).

(** -1.5*{2+3}-4/2; the same without the return value of initStack. *)
Lemma calculate_eval_witness :
  let s := [45; 49; 46; 53; 42; 123; 50; 43; 51; 125; 45; 52; 47; 50] in
  (∃ st, cal_arg (FL := fractions) (IN := good_values) s = Ok (GOOD_RESULT, Some (-190 # 20)%Q) st) ∧
  cal_arg (FL := fractions) (IN := no_return) s = Err Undef (mkCst [] []).
Proof.
  split.
  - destruct (proj1 (calculate_eval (FL := fractions) (IN := good_values)) I
      (EBin (EBin (ENum (Lit (Some true) [1] (Some [5]))) Mul (EGroup (EBin (num 2) Add (num 3)))) Sub
        (EBin (num 4) Div (num 2)))) as (st & v & Hst & _ & Hv); [vm_compute; exact I|vm_compute; lia|].
    rewrite Hv in Hst by (vm_compute; exact I). exists st. exact Hst.
  - apply (proj2 (calculate_eval (FL := fractions) (IN := no_return))). reflexivity.
Defined.

(** In 1-2*3-4 the second minus carries out the product and leaves the first
    minus to the end: the result is 1-(2*3-4). *)
Lemma calculate_second_minus :
  let e := EBin (EBin (num 1) Sub (EBin (num 2) Mul (num 3))) Sub (num 4) in
  print e = [49; 45; 50; 42; 51; 45; 52] ∧
  cal_arg (FL := fractions) (IN := good_values) (print e) = Ok (GOOD_RESULT, Some (-1)%Q) (mkCst [] []) ∧
  eval (FL := fractions) e = Some (-9)%Q.
Proof. by vm_compute. Qed.

(** A brace that closes nothing, as in 1+2}, and an empty argument read the null
    pointer. *)
Lemma calculate_null :
  cal_arg (FL := fractions) (IN := good_values) [49; 43; 50; 125] = Err Undef (mkCst (FL := fractions) [3%Q] []) ∧
  cal_arg (FL := fractions) (IN := good_values) [] = Err Undef (mkCst [] []).
Proof. by vm_compute. Qed.
