(* ===== verification/Spinlock.v ===== *)
(** * Spin locks and interrupt nesting (spinlock.c)

    [pushcli] and [popcli] are functions on the per-CPU state. [acquire] and
    [release] are step relations at the grain of the instructions that matter
    to other CPUs: each read or write of the lock is a step of its own, so that
    every interleaving of any number of CPUs is a run of the model. *)

From S2P Require Import Prelude.

(** The parts of [struct cpu] used here, with the IF bit of eflags. *)
Record cpu := mkCpu { ncli : Z; intena : bool; fl_if : bool }.

Definition pushcli : M cpu unit := λ c,
  let eflags := fl_if c in
  (* cli *)
  Ok tt (mkCpu (ncli c + 1) (if ncli c =? 0 then eflags else intena c) false).

Definition popcli : M cpu unit := λ c,
  if fl_if c then Err (Panic "popcli - interruptible") c else
  let c := mkCpu (ncli c - 1) (intena c) (fl_if c) in
  if ncli c <? 0 then Err (Panic "popcli") c else
  if (ncli c =? 0) && intena c then (* sti *) Ok tt (mkCpu (ncli c) (intena c) true) else Ok tt c.

(** [struct spinlock]; [lk_cpu] is the CPU that holds the lock, for [holding]. *)
Record spinlock := mkLock { locked : Z; lk_cpu : option nat }.

Definition initlock : spinlock := mkLock 0 None.

Definition holding (lk : spinlock) (me : nat) : bool :=
  negb (locked lk =? 0) && bool_decide (lk_cpu lk = Some me).

(** [getcallerpcs]: [word a] is the memory word at address [a]; the saved
    program counters, padded with zeros to ten. *)
Definition KERNBASE : Z := 0x80000000.
Fixpoint getcallerpcs_loop (word : Z → Z) (i : nat) (ebp : Z) : list Z :=
  match i with
  | O => []
  | S i' =>
      if (ebp =? 0) || (ebp <? KERNBASE) || (ebp =? 0xffffffff) then []
      else word (u32 (ebp + 4)) :: getcallerpcs_loop word i' (word ebp)
  end.
Definition getcallerpcs (word : Z → Z) (v : Z) : list Z :=
  let pcs := getcallerpcs_loop word 10 (u32 (v - 8)) in
  pcs ++ replicate (10 - length pcs) 0.

(** ** The lock among CPUs

    Where a CPU is in its use of the lock. [again] marks a CPU that called
    [acquire] from inside its own critical section. *)
Inductive pc :=
| Outside               (* not using the lock *)
| AcqCheck (again : bool) (* acquire: about to test holding *)
| Spin                  (* acquire: while(xchg(&lk->locked, 1) != 0) *)
| AcqMark               (* acquire: lk->cpu = cpu *)
| Critical              (* acquire has returned *)
| RelCheck              (* release: about to test holding *)
| RelClear              (* release: lk->pcs[0] = 0; lk->cpu = 0 *)
| RelXchg               (* release: xchg(&lk->locked, 0) *)
| RelPop                (* release: popcli *)
| Panicked (msg : string) (again : bool).

#[export] Instance pc_eq_dec : EqDecision pc.
Proof. solve_decision. Defined.

Record machine := mkMach { lock : spinlock; cpus : list (cpu * pc) }.

Definition set_cpu (i : nat) (c : cpu) (p : pc) (m : machine) (lk : spinlock) : machine :=
  mkMach lk (<[i := (c, p)]> (cpus m)).

(** One step of CPU [i]. *)
Inductive lstep (i : nat) (m : machine) : machine → Prop :=
| l_acquire c c' :
    cpus m !! i = Some (c, Outside) → pushcli c = Ok tt c' →
    lstep i m (set_cpu i c' (AcqCheck false) m (lock m))
| l_again c c' :
    cpus m !! i = Some (c, Critical) → pushcli c = Ok tt c' →
    lstep i m (set_cpu i c' (AcqCheck true) m (lock m))
| l_check c again :
    cpus m !! i = Some (c, AcqCheck again) →
    lstep i m (set_cpu i c (if holding (lock m) i then Panicked "acquire" again else Spin) m (lock m))
| l_xchg c :
    cpus m !! i = Some (c, Spin) →
    lstep i m (set_cpu i c (if negb (locked (lock m) =? 0) then Spin else AcqMark) m
                 (mkLock 1 (lk_cpu (lock m))))
| l_mark c :
    cpus m !! i = Some (c, AcqMark) →
    lstep i m (set_cpu i c Critical m (mkLock (locked (lock m)) (Some i)))
| l_release c :
    cpus m !! i = Some (c, Critical) →
    lstep i m (set_cpu i c RelCheck m (lock m))
| l_relcheck c :
    cpus m !! i = Some (c, RelCheck) →
    lstep i m (set_cpu i c (if holding (lock m) i then RelClear else Panicked "release" false) m (lock m))
| l_clear c :
    cpus m !! i = Some (c, RelClear) →
    lstep i m (set_cpu i c RelXchg m (mkLock (locked (lock m)) None))
| l_unlock c :
    cpus m !! i = Some (c, RelXchg) →
    lstep i m (set_cpu i c RelPop m (mkLock 0 (lk_cpu (lock m))))
| l_pop c c' :
    cpus m !! i = Some (c, RelPop) → popcli c = Ok tt c' →
    lstep i m (set_cpu i c' Outside m (lock m))
| l_poppanic c c' msg :
    cpus m !! i = Some (c, RelPop) → popcli c = Err (Panic msg) c' →
    lstep i m (set_cpu i c' (Panicked msg false) m (lock m)).

Definition machine0 (n : nat) : machine :=
  mkMach initlock (replicate n (mkCpu 0 false true, Outside)).

Inductive reachable (n : nat) : machine → Prop :=
| r_init : reachable n (machine0 n)
| r_step i m m' : reachable n m → lstep i m m' → reachable n m'.

(** ** The invariant *)

(** The CPU owns the lock word: it set [locked] and has not cleared it. *)
Definition owns (p : pc) : bool :=
  match p with
  | AcqMark | Critical | RelCheck | RelClear | RelXchg => true
  | AcqCheck again | Panicked _ again => again
  | _ => false
  end.
(** The CPU's name is in [lk->cpu]. *)
Definition named (p : pc) : bool :=
  match p with
  | Critical | RelCheck | RelClear => true
  | AcqCheck again | Panicked _ again => again
  | _ => false
  end.

Definition pc_at (m : machine) (i : nat) : option pc := snd <$> cpus m !! i.

(** The interrupt state that goes with each place. *)
Definition cli_ok (c : cpu) (p : pc) : Prop :=
  match p with
  | Outside => ncli c = 0 ∧ fl_if c = true
  | AcqCheck again => ncli c = 1 + Z.b2z again ∧ fl_if c = false ∧ intena c = true
  | Panicked msg again => msg = "acquire" ∧ again = true ∧ fl_if c = false
  | _ => ncli c = 1 ∧ fl_if c = false ∧ intena c = true
  end.

Record linv (m : machine) : Prop := {
  li_excl : ∀ i j ci cj pi pj, cpus m !! i = Some (ci, pi) → cpus m !! j = Some (cj, pj) →
    owns pi = true → owns pj = true → i = j;
  li_free : locked (lock m) = 0 ∨ locked (lock m) = 1;
  li_owned : ∀ i c p, cpus m !! i = Some (c, p) → owns p = true → locked (lock m) = 1;
  li_named : ∀ i c p, cpus m !! i = Some (c, p) → named p = true ↔ lk_cpu (lock m) = Some i;
  li_cli : ∀ i c p, cpus m !! i = Some (c, p) → cli_ok c p;
}.

Lemma linv_init n : linv (machine0 n).
Proof.
  assert (H : ∀ i c p, cpus (machine0 n) !! i = Some (c, p) → p = Outside ∧ c = mkCpu 0 false true).
  { intros i c p Hi. apply lookup_replicate in Hi as [[= -> ->] _]. done. }
  constructor.
  - intros i j ci cj pi pj [-> _]%H. done.
  - by left.
  - intros i c p [-> _]%H. done.
  - intros i c p [-> _]%H. done.
  - intros i c p [-> ->]%H. done.
Qed.

(** A step that changes CPU [i] from [p] to [p'] and the lock to [lk]. *)
Lemma linv_step m i c p c' p' lk :
  linv m → cpus m !! i = Some (c, p) → cli_ok c' p' →
  (locked lk = 0 ∨ locked lk = 1) →
  (owns p' = true → locked lk = 1) →
  (owns p' = true → owns p = true ∨ locked (lock m) = 0) →
  (locked lk = locked (lock m) ∨ owns p = true ∨ (locked (lock m) = 0 ∧ owns p' = true)) →
  (named p' = true ↔ lk_cpu lk = Some i) →
  (∀ j, j ≠ i → lk_cpu lk = Some j ↔ lk_cpu (lock m) = Some j) ∨
    (owns p = true ∧ (lk_cpu lk = Some i ∨ lk_cpu lk = None)) →
  linv (set_cpu i c' p' m lk).
Proof.
  intros [Hex Hfr Hown Hnm Hcli] Hi Hc Hl Ho1 Ho2 Hlk Hn Hother.
  assert (Hlook : ∀ j cj pj, cpus (set_cpu i c' p' m lk) !! j = Some (cj, pj) →
    (j = i ∧ cj = c' ∧ pj = p') ∨ (j ≠ i ∧ cpus m !! j = Some (cj, pj))).
  { intros j cj pj Hj. simpl in Hj. apply list_lookup_insert_Some in Hj as [(<- & [= <- <-] & _)|[? ?]]; auto. }
  assert (Hone : ∀ j cj pj, cpus m !! j = Some (cj, pj) → j ≠ i → owns p' = true → owns pj = false).
  { intros j cj pj Hj Hji Hp'. destruct (owns pj) eqn:E; [|done]. exfalso.
    destruct (Ho2 Hp') as [Hp|H0].
    - by apply Hji, (Hex _ _ _ _ _ _ Hj Hi).
    - rewrite (Hown _ _ _ Hj E) in H0. lia. }
  constructor; simpl.
  - intros j k cj ck pj pk [(-> & -> & ->)|[Hji Hj]]%Hlook [(-> & -> & ->)|[Hki Hk]]%Hlook Hpj Hpk; try done.
    + exfalso. pose proof (Hone _ _ _ Hk Hki Hpj). congruence.
    + exfalso. pose proof (Hone _ _ _ Hj Hji Hpk). congruence.
    + by eapply Hex.
  - done.
  - intros j cj pj [(-> & -> & ->)|[Hji Hj]]%Hlook Hpj; [auto|].
    pose proof (Hown _ _ _ Hj Hpj) as H1. destruct Hlk as [->|[Hp|[H0 _]]]; [done| |lia].
    exfalso. by apply Hji, (Hex _ _ _ _ _ _ Hj Hi).
  - intros j cj pj [(-> & -> & ->)|[Hji Hj]]%Hlook; [done|].
    rewrite (Hnm _ _ _ Hj). destruct Hother as [Ho|[Hp Ho]]; [by rewrite Ho|].
    split.
    + intros Hs. apply (Hnm _ _ _ Hj) in Hs. exfalso. apply Hji, (Hex _ _ _ _ _ _ Hj Hi); [|done].
      by destruct pj.
    + intros Hs. destruct Ho as [Ho|Ho]; congruence.
  - intros j cj pj [(-> & -> & ->)|[Hji Hj]]%Hlook; [done|]. by eapply Hcli.
Qed.

Lemma holding_named m i c p :
  linv m → cpus m !! i = Some (c, p) → holding (lock m) i = named p.
Proof.
  intros Hm Hi. unfold holding. destruct (named p) eqn:E.
  - rewrite (li_owned _ Hm _ _ _ Hi) by by destruct p.
    by rewrite (proj1 (li_named _ Hm _ _ _ Hi) E), bool_decide_true.
  - rewrite bool_decide_false; [apply andb_false_r|].
    intros H. apply (li_named _ Hm _ _ _ Hi) in H. congruence.
Qed.

Lemma linv_preserved i m m' : linv m → lstep i m m' → linv m'.
Proof.
  intros Hm Hs. pose proof (li_free _ Hm) as Hfr.
  assert (Hnn : ∀ c p, cpus m !! i = Some (c, p) → named p = false → lk_cpu (lock m) ≠ Some i).
  { intros c p Hi Hp E. apply (li_named _ Hm _ _ _ Hi) in E. congruence. }
  inversion Hs as [c c' Hi Hc|c c' Hi Hc|c again Hi|c Hi|c Hi|c Hi|c Hi|c Hi|c Hi|c c' Hi Hc|c c' msg Hi Hc]; subst;
    pose proof (li_cli _ Hm _ _ _ Hi) as Hcli; simpl in Hcli;
    try (pose proof (li_owned _ Hm _ _ _ Hi eq_refl) as Hl);
    try (pose proof (proj1 (li_named _ Hm _ _ _ Hi) eq_refl) as Hnm);
    try (pose proof (Hnn _ _ Hi eq_refl) as Hnot).
  - injection Hc as <-. destruct c; simpl in *. destruct Hcli as [-> ->].
    eapply linv_step; [done|done|..]; simpl; auto; naive_solver.
  - injection Hc as <-. destruct c; simpl in *. destruct Hcli as (-> & -> & ->).
    eapply linv_step; [done|done|..]; simpl; auto; naive_solver.
  - rewrite (holding_named _ _ _ _ Hm Hi). simpl. destruct again; simpl in *.
    + pose proof (li_owned _ Hm _ _ _ Hi eq_refl) as Hl.
      pose proof (proj1 (li_named _ Hm _ _ _ Hi) eq_refl) as Hnm.
      eapply linv_step; [done|done|..]; simpl; auto; naive_solver.
    + pose proof (Hnn _ _ Hi eq_refl) as Hnot.
      eapply linv_step; [done|done|..]; simpl; auto; naive_solver.
  - destruct Hfr as [Hf|Hf]; rewrite Hf; simpl;
      (eapply linv_step; [done|done|..]; simpl; auto; naive_solver).
  - eapply linv_step; [done|done|..]; simpl; auto; naive_solver.
  - eapply linv_step; [done|done|..]; simpl; auto; naive_solver.
  - rewrite (holding_named _ _ _ _ Hm Hi). simpl.
    eapply linv_step; [done|done|..]; simpl; auto; naive_solver.
  - eapply linv_step; [done|done|..]; simpl; auto; naive_solver.
  - eapply linv_step; [done|done|..]; simpl; auto; naive_solver.
  - destruct c; simpl in *. destruct Hcli as (-> & -> & ->). unfold popcli in Hc. simpl in Hc.
    injection Hc as <-. eapply linv_step; [done|done|..]; simpl; auto; naive_solver.
  - destruct c; simpl in *. destruct Hcli as (-> & -> & ->). unfold popcli in Hc. simpl in Hc. done.
Qed.

Lemma reachable_linv n m : reachable n m → linv m.
Proof. induction 1; [apply linv_init|by eapply linv_preserved]. Qed.

(** C31: mutual exclusion, for any number of CPUs and every interleaving of
    their steps: two CPUs are never both between the return of [acquire] and
    the [xchg] of [release]; the CPU in its critical section is the one
    [lk->cpu] names and runs with interrupts off; and the only panic that can
    happen is that of [acquire] in a CPU that already holds the lock. *)
Theorem lock_mutual_exclusion n m :
  reachable n m →
  (∀ i j ci cj, cpus m !! i = Some (ci, Critical) → cpus m !! j = Some (cj, Critical) → i = j) ∧
  (∀ i c, cpus m !! i = Some (c, Critical) →
    locked (lock m) = 1 ∧ lk_cpu (lock m) = Some i ∧ fl_if c = false) ∧
  (∀ i c msg again, cpus m !! i = Some (c, Panicked msg again) →
    msg = "acquire" ∧ lk_cpu (lock m) = Some i).
Proof.
  intros Hm%reachable_linv. split_and!.
  - intros i j ci cj Hi Hj. by eapply (li_excl _ Hm).
  - intros i c Hi. split_and!.
    + by eapply (li_owned _ Hm).
    + by eapply (li_named _ Hm).
    + by apply (li_cli _ Hm _ _ _ Hi).
  - intros i c msg again Hi. destruct (li_cli _ Hm _ _ _ Hi) as (-> & -> & _).
    split; [done|]. by eapply (li_named _ Hm).
Qed.

(** Interleaving of two CPUs: both try, the first gets the lock, the second
    spins. *)
Lemma lock_mutual_exclusion_witness :
  ∃ m, reachable 2 m ∧ pc_at m 0 = Some Critical ∧ pc_at m 1 = Some Spin ∧
    lk_cpu (lock m) = Some 0%nat.
Proof.
  pose proof (r_init 2) as H.
  eapply r_step in H; [|by eapply (l_acquire 0)].
  eapply r_step in H; [|by eapply (l_check 0)].
  eapply r_step in H; [|by eapply (l_acquire 1)].
  eapply r_step in H; [|by eapply (l_check 1)].
  eapply r_step in H; [|by eapply (l_xchg 0)].
  eapply r_step in H; [|by eapply (l_xchg 1)].
  eapply r_step in H; [|by eapply (l_mark 0)].
  eexists. split; [exact H|]. split; [done|]. split; [done|].
  by apply (proj1 (proj2 (lock_mutual_exclusion _ _ H)) 0%nat _ eq_refl).
Defined.

(** [pushcli] and [popcli] match: at any nesting depth, [pushcli] turns
    interrupts off and the [popcli] that follows does not panic and restores
    the interrupt flag, the depth and, inside an outer pair, the saved flag. *)
Theorem pushcli_popcli_nest c :
  0 ≤ ncli c → (0 < ncli c → fl_if c = false) →
  ∃ c1 c2, pushcli c = Ok tt c1 ∧ fl_if c1 = false ∧ ncli c1 = ncli c + 1 ∧
    popcli c1 = Ok tt c2 ∧ fl_if c2 = fl_if c ∧ ncli c2 = ncli c ∧
    (0 < ncli c → intena c2 = intena c).
Proof.
  destruct c as [n i f]; simpl. intros Hn Hf. unfold popcli. simpl.
  assert (n = 0 ∨ n ≠ 0) as [->|Hne] by lia.
  - destruct f; eexists _, _; (split; [done|]); simpl; split_and!; done || lia.
  - rewrite (Hf ltac:(lia)). eexists _, (mkCpu n i false). unfold pushcli. simpl.
    rewrite (proj2 (Z.eqb_neq n 0) Hne). split; [done|]. simpl.
    rewrite (proj2 (Z.ltb_ge _ _)) by lia. replace (n + 1 - 1) with n by lia.
    rewrite (proj2 (Z.eqb_neq n 0) Hne). by split_and!.
Qed.

Lemma pushcli_popcli_nest_witness :
  ∃ c1 c2, pushcli (mkCpu 0 false true) = Ok tt c1 ∧ popcli c1 = Ok tt c2 ∧ fl_if c2 = true.
Proof.
  destruct (pushcli_popcli_nest (mkCpu 0 false true)) as (c1 & c2 & H1 & _ & _ & H2 & H3 & _).
  - simpl. lia.
  - simpl. lia.
  - exists c1, c2. exact (conj H1 (conj H2 H3)).
Defined.
