(* ===== verification/Kalloc.v ===== *)
(** * The physical page allocator (kalloc.c)

    Free pages form a list whose links are stored in the first word of each
    free page. The model keeps the pages' contents, so that a page's owner can
    overwrite everything in it, and the links of the free pages survive because
    of the invariant, not because they are stored elsewhere. *)

From S2P Require Import Prelude Spinlock.

Definition PGSIZE : Z := 4096.
Definition PHYSTOP : Z := 0xE000000.
Definition v2p (a : Z) : Z := u32 (a - KERNBASE).
#[global] Arguments PGSIZE : simpl never.
#[global] Arguments KERNBASE : simpl never.
Definition PGROUNDUP (sz : Z) : Z := Z.land (u32 (sz + PGSIZE - 1)) (Z.lnot (PGSIZE - 1)).

(** [kmem] and the contents of the pages, by address. A null pointer is 0. *)
Record kmem := mkKmem {
  use_lock : bool;
  freelist : Z;
  pages : gmap Z (list Z);
}.

(** What [memset(v, 1, PGSIZE)] leaves in a page. *)
Definition junk_page : list Z := replicate (Z.to_nat PGSIZE) 1.
#[global] Arguments junk_page : simpl never.

Section kalloc.
(** The linker's symbol [end]: the first address after the kernel. *)
Context (kend : Z).

Definition kfree (v : Z) : M kmem unit :=
  if negb (v `mod` PGSIZE =? 0) || (v <? kend) || (v2p v >=? PHYSTOP) then panic "kfree" else
  k ← getM;
  match pages k !! v with
  | None => undef
  | Some _ =>
      putM (mkKmem (use_lock k) (freelist k) (<[v := junk_page]> (pages k)));;
      modify (λ k, mkKmem (use_lock k) (freelist k) (alter (put_32 0 (freelist k)) v (pages k)));;
      modify (λ k, mkKmem (use_lock k) v (pages k))
  end.

Definition kalloc : M kmem Z :=
  k ← getM;
  let r := freelist k in
  if r =? 0 then mret 0 else
  match pages k !! r with
  | None => undef
  | Some pg => putM (mkKmem (use_lock k) (get_u32 0 pg) (pages k));; mret r
  end.

(** The pages of [freerange], in the order in which the loop frees them. *)
Fixpoint freerange_loop (fuel : nat) (p vend : Z) : M kmem unit :=
  if p + PGSIZE <=? vend then
    match fuel with
    | O => stopM NoFuel
    | S fuel' => kfree p;; freerange_loop fuel' (p + PGSIZE) vend
    end
  else mret tt.

Definition freerange (vstart vend : Z) : M kmem unit :=
  let p := PGROUNDUP vstart in freerange_loop (Z.to_nat ((vend - p) / PGSIZE)) p vend.

Definition kinit1 (vstart vend : Z) : M kmem unit :=
  modify (λ k, mkKmem false (freelist k) (pages k));;
  freerange vstart vend.

Definition kinit2 (vstart vend : Z) : M kmem unit :=
  freerange vstart vend;;
  modify (λ k, mkKmem true (freelist k) (pages k)).

(** ** The free list *)

(** A page the allocator manages. *)
Definition kpage (v : Z) : Prop :=
  v `mod` PGSIZE = 0 ∧ kend ≤ v ∧ v2p v < PHYSTOP ∧ 0 < v < 2 ^ 32.

(** The links in the pages lead from [a] through [l] to null. *)
Fixpoint free_chain (pgs : gmap Z (list Z)) (a : Z) (l : list Z) : Prop :=
  match l with
  | [] => a = 0
  | v :: l' => a = v ∧ kpage v ∧
      ∃ pg, pgs !! v = Some pg ∧ free_chain pgs (get_u32 0 pg) l'
  end.

Definition krep (k : kmem) (l : list Z) : Prop := free_chain (pages k) (freelist k) l ∧ NoDup l.

Lemma free_chain_frame pgs pgs' a l :
  (∀ v, v ∈ l → pgs' !! v = pgs !! v) → free_chain pgs a l → free_chain pgs' a l.
Proof.
  revert a. induction l as [|v l IH]; intros a Hf; simpl; [done|].
  intros (-> & Hv & pg & Hpg & Hl). split_and!; [done|done|]. exists pg.
  split; [rewrite Hf; set_solver|]. apply IH; [set_solver|done].
Qed.

Lemma free_chain_pages pgs a l v : free_chain pgs a l → v ∈ l → kpage v.
Proof.
  revert a. induction l as [|w l IH]; intros a; simpl; [set_solver|].
  intros (-> & Hv & pg & _ & Hl) [->|Hin]%elem_of_cons; eauto.
Qed.

Lemma free_chain_head pgs a l : free_chain pgs a l → 0 ≤ a < 2 ^ 32.
Proof. destruct l; simpl; [lia|]. intros (-> & Hv & _). destruct Hv as (_ & _ & _ & ?). lia. Qed.

Lemma kalloc_spec k l :
  krep k l →
  match l with
  | [] => kalloc k = Ok 0 k
  | v :: l' => ∃ k', kalloc k = Ok v k' ∧ krep k' l' ∧ pages k' = pages k
  end.
Proof.
  intros [Hc Hn]. destruct l as [|v l]; simpl in Hc.
  - unfold kalloc, mbind, M_bind, getM. by rewrite Hc.
  - destruct Hc as (Hv & Hk & pg & Hpg & Hl). pose proof Hk as (_ & _ & _ & Hpos).
    unfold kalloc, mbind, M_bind, getM. rewrite Hv, (proj2 (Z.eqb_neq v 0)), Hpg by lia.
    eexists. split; [done|]. apply NoDup_cons in Hn as [_ Hn]. done.
Qed.

Lemma kfree_spec k l v pg :
  krep k l → kpage v → v ∉ l → pages k !! v = Some pg →
  ∃ k', kfree v k = Ok tt k' ∧ krep k' (v :: l) ∧ use_lock k' = use_lock k ∧
    pages k' = <[v := put_32 0 (freelist k) junk_page]> (pages k).
Proof.
  intros [Hc Hn] Hv Hnot Hpg. pose proof Hv as (Hm & He & Hp & _). unfold kfree.
  rewrite Hm, Z.geb_leb, (proj2 (Z.ltb_ge v kend)), (proj2 (Z.leb_gt _ _)) by lia. simpl.
  unfold mbind, M_bind, getM. rewrite Hpg. simpl. rewrite alter_insert_eq.
  eexists. split; [done|]. split; [|done]. split; [|by constructor].
  simpl. split_and!; [done|done|]. eexists. split; [apply lookup_insert_eq|].
  rewrite get_put_u32 by (apply Nat2Z.inj_le; vm_compute; congruence).
  rewrite u32_small by by eapply free_chain_head.
  eapply free_chain_frame; [|done]. intros w Hw. apply lookup_insert_ne. set_solver.
Qed.

(** Everything else is refused. *)
Lemma kfree_panics k v :
  v `mod` PGSIZE ≠ 0 ∨ v < kend ∨ PHYSTOP ≤ v2p v → kfree v k = Err (Panic "kfree") k.
Proof.
  intros H. unfold kfree. assert (negb (v `mod` PGSIZE =? 0) || (v <? kend) || (v2p v >=? PHYSTOP) = true) as ->; [|done].
  rewrite Z.geb_leb, !orb_true_iff, negb_true_iff, Z.eqb_neq, Z.ltb_lt, Z.leb_le. tauto.
Qed.

(** ** Clients

    A client holds the pages [kalloc] gave it; it may fill them with anything
    and free them. *)
Inductive kstep (k : kmem) (held : gset Z) : kmem → gset Z → Prop :=
| k_alloc v k' : kalloc k = Ok v k' → v ≠ 0 → kstep k held k' ({[v]} ∪ held)
| k_none k' : kalloc k = Ok 0 k' → kstep k held k' held
| k_free v k' : v ∈ held → kfree v k = Ok tt k' → kstep k held k' (held ∖ {[v]})
| k_fill v pg : v ∈ held →
    kstep k held (mkKmem (use_lock k) (freelist k) (<[v := pg]> (pages k))) held.

Inductive ksteps (k : kmem) (held : gset Z) : kmem → gset Z → Prop :=
| ks_refl : ksteps k held k held
| ks_step k1 h1 k2 h2 : ksteps k held k1 h1 → kstep k1 h1 k2 h2 → ksteps k held k2 h2.

(** The allocator and its client share the pages out. *)
Definition kinv (all : gset Z) (k : kmem) (held : gset Z) : Prop :=
  ∃ l, krep k l ∧ list_to_set l ∪ held = all ∧ list_to_set l ## held ∧
    ∀ v, v ∈ all → kpage v ∧ is_Some (pages k !! v).

Lemma kinv_step all k held k' held' : kinv all k held → kstep k held k' held' → kinv all k' held'.
Proof.
  intros (l & Hk & Hall & Hd & Hp) Hs. destruct Hs as [v k' Ha Hv|k' Ha|v k' Hv Hf|v pg Hv].
  - pose proof (kalloc_spec k l Hk) as Hspec. destruct l as [|w l]; [congruence|].
    destruct Hspec as (k1 & Ha1 & Hk1 & Hpg).
    assert (w = v) as -> by congruence. assert (k1 = k') as -> by congruence.
    exists l. destruct Hk as [_ Hn]. apply NoDup_cons in Hn as [Hn _]. rewrite Hpg.
    split_and!; [done|set_solver|set_solver|]. intros x Hx. apply Hp. set_solver.
  - pose proof (kalloc_spec k l Hk) as Hspec. destruct l as [|w l]; [assert (k' = k) as -> by congruence; by exists []; split_and!|].
    destruct Hspec as (k1 & Ha1 & Hk1 & Hpg). assert (w = 0) as -> by congruence.
    destruct Hk as [(_ & Hw & _) _]. destruct Hw as (_ & _ & _ & ?). lia.
  - destruct (Hp v) as [Hkv [pg Hpg]]; [set_solver|].
    destruct (kfree_spec k l v pg Hk Hkv) as (k1 & Hf1 & Hk1 & _ & Hpg1); [set_solver|done|].
    assert (k1 = k') as -> by congruence. exists (v :: l). rewrite Hpg1. split_and!; [done| |set_solver|].
    + rewrite list_to_set_cons. apply set_eq. intros x. destruct (decide (x = v)); set_solver.
    + intros x Hx. split; [by apply Hp|]. apply lookup_insert_is_Some. destruct (decide (v = x)); [by left|].
      right. split; [done|]. apply Hp. set_solver.
  - destruct Hk as [Hc Hn]. exists l. split_and!; [|done|done|].
    + split; [|done]. simpl. eapply free_chain_frame; [|done]. intros w Hw. apply lookup_insert_ne. set_solver.
    + intros x Hx. split; [by apply Hp|]. simpl. apply lookup_insert_is_Some.
      destruct (decide (v = x)); [by left|]. right. split; [done|]. by apply Hp.
Qed.

Lemma kinv_steps all k held k' held' : kinv all k held → ksteps k held k' held' → kinv all k' held'.
Proof. induction 2; [done|]. by eapply kinv_step. Qed.

(** The pages [freerange] frees. *)
Lemma PGROUNDUP_spec a : 0 ≤ a < 2 ^ 32 - PGSIZE → PGROUNDUP a = (a + PGSIZE - 1) / PGSIZE * PGSIZE.
Proof.
  intros Ha. unfold PGROUNDUP, PGSIZE in *. rewrite u32_small by lia.
  rewrite <-Z.ldiff_land. change (4096 - 1) with (Z.ones 12).
  rewrite Z.ldiff_ones_r, Z.shiftl_mul_pow2, Z.shiftr_div_pow2 by lia. done.
Qed.

(** Aligned addresses are a page apart. *)
Lemma mod_gap p v : p `mod` PGSIZE = 0 → v `mod` PGSIZE = 0 → p ≤ v → v ≠ p → p + PGSIZE ≤ v.
Proof.
  intros Hp%Z.mod_divide Hv%Z.mod_divide Hle Hne; [|done..].
  destruct Hp as [a ->], Hv as [b ->]. unfold PGSIZE in *. nia.
Qed.

Lemma freerange_loop_spec fuel : ∀ k l p vend,
  krep k l → p `mod` PGSIZE = 0 → kend ≤ p → KERNBASE ≤ p → 0 < p →
  vend ≤ KERNBASE + PHYSTOP → (Z.to_nat ((vend - p) / PGSIZE) ≤ fuel)%nat →
  (∀ v, p ≤ v → v + PGSIZE ≤ vend → v `mod` PGSIZE = 0 → (v ∉ l) ∧ is_Some (pages k !! v)) →
  ∃ k' l', freerange_loop fuel p vend k = Ok tt k' ∧ krep k' (l' ++ l) ∧ dom (pages k') = dom (pages k) ∧
    use_lock k' = use_lock k ∧
    ∀ v, v ∈ l' ↔ p ≤ v ∧ v + PGSIZE ≤ vend ∧ v `mod` PGSIZE = 0.
Proof.
  induction fuel as [|fuel IH]; intros k l p vend Hk Hm He HK Hp0 Hend Hf Hfree.
  - assert (vend < p + PGSIZE) as Hlt.
    { apply Znot_ge_lt. intros Hge. assert (1 ≤ (vend - p) / PGSIZE); [|lia].
      apply Z.div_le_lower_bound; unfold PGSIZE in *; lia. }
    simpl. rewrite (proj2 (Z.leb_gt _ _)) by lia. exists k, []. split_and!; try done.
    intros v. split; [set_solver|]. intros (Hv1 & Hv2 & Hv3). lia.
  - simpl. destruct (Z.leb_spec (p + PGSIZE) vend) as [Hle|Hlt].
    + destruct (Hfree p ltac:(lia) Hle Hm) as [Hnl [pg Hpg]].
      destruct (kfree_spec k l p pg Hk) as (k1 & Hf1 & Hk1 & Hu1 & Hpg1); try done.
      { unfold kpage, v2p. rewrite u32_small; unfold KERNBASE, PHYSTOP, PGSIZE in *; lia. }
      destruct (IH k1 (p :: l) (p + PGSIZE) vend) as (k' & l' & Hr & Hk' & Hdom & Hu & Hl'); try done.
      all: try (unfold PGSIZE in *; lia).
      * rewrite <-Z.add_mod_idemp_l, Hm by (unfold PGSIZE; lia). done.
      * replace (vend - (p + PGSIZE)) with (vend - p + (-1) * PGSIZE) by lia.
        rewrite Z.div_add by (unfold PGSIZE; lia).
        assert (1 ≤ (vend - p) / PGSIZE) by (apply Z.div_le_lower_bound; unfold PGSIZE in *; lia). lia.
      * intros v Hv1 Hv2 Hv3. destruct (Hfree v) as [Hv4 Hv5]; [unfold PGSIZE in *; lia|done|done|].
        split; [apply not_elem_of_cons; split; [unfold PGSIZE in *; lia|done]|].
        rewrite Hpg1. apply lookup_insert_is_Some'. by right.
      * exists k', (l' ++ [p]). unfold mbind, M_bind. rewrite Hf1. split_and!.
        -- done.
        -- by rewrite <-app_assoc.
        -- rewrite Hdom, Hpg1. apply dom_insert_lookup_L. done.
        -- congruence.
        -- intros v. rewrite elem_of_app, list_elem_of_singleton, Hl'. split.
           ++ intros [(?&?&?)| ->]; split_and!; unfold PGSIZE in *; lia || done.
           ++ intros (Hv1 & Hv2 & Hv3). destruct (decide (v = p)) as [|Hne]; [by right|left].
              split_and!; [|done|done]. by apply (mod_gap p v).
    + exists k, []. split_and!; try done. intros v. split; [set_solver|]. intros (Hv1 & Hv2 & Hv3). lia.
Qed.

(** C12: the page allocator never hands out a page twice and never loses one.
    After [kinit1] over a range of memory, whatever sequence of [kalloc],
    [kfree] of pages held, and arbitrary writes into pages held follows,
    [kalloc] returns a page of the range that nobody holds, or 0 exactly when
    all of them are held, and [kfree] of a held page does not panic. *)
Theorem kalloc_safe vstart vend pgs b :
  KERNBASE ≤ vstart → kend ≤ vstart → vend ≤ KERNBASE + PHYSTOP → vstart < 2 ^ 32 - PGSIZE →
  (∀ v, vstart ≤ v → v + PGSIZE ≤ vend → v `mod` PGSIZE = 0 → is_Some (pgs !! v)) →
  ∃ k0 all, kinit1 vstart vend (mkKmem b 0 pgs) = Ok tt k0 ∧
    (∀ v, v ∈ all ↔ vstart ≤ v ∧ v + PGSIZE ≤ vend ∧ v `mod` PGSIZE = 0) ∧
    ∀ k held, ksteps k0 ∅ k held →
      (∃ v k', kalloc k = Ok v k' ∧ (v = 0 ↔ held = all) ∧ (v ≠ 0 → (v ∈ all) ∧ v ∉ held)) ∧
      (∀ v, v ∈ held → ∃ k', kfree v k = Ok tt k').
Proof.
  intros HK He Hend Hb Hmem. set (k := mkKmem false 0 pgs).
  assert (HP : PGROUNDUP vstart = (vstart + PGSIZE - 1) / PGSIZE * PGSIZE).
  { apply PGROUNDUP_spec. unfold KERNBASE in *. lia. }
  pose proof (Z.div_mod (vstart + PGSIZE - 1) PGSIZE ltac:(done)) as Hdm.
  pose proof (Z.mod_pos_bound (vstart + PGSIZE - 1) PGSIZE ltac:(done)) as Hmb.
  assert (vstart ≤ PGROUNDUP vstart) as Hge by lia.
  assert (PGROUNDUP vstart `mod` PGSIZE = 0) as Hpm by (rewrite HP; by apply Z.mod_mul).
  assert (Hlow : ∀ v, v `mod` PGSIZE = 0 → vstart ≤ v ↔ PGROUNDUP vstart ≤ v).
  { intros v Hv. split; [|lia]. intros Hv'. apply Z.mod_divide in Hv as [q ->]; [|done].
    unfold PGSIZE in *. lia. }
  destruct (freerange_loop_spec (Z.to_nat ((vend - PGROUNDUP vstart) / PGSIZE)) k [] (PGROUNDUP vstart) vend)
    as (k0 & l & Hr & Hk0 & Hdom & _ & Hl); try done; try (unfold KERNBASE in *; lia).
  { split; [done|constructor]. }
  { intros v Hv1 Hv2 Hv3. split; [set_solver|]. apply Hmem; [lia|done|done]. }
  rewrite app_nil_r in Hk0.
  assert (Hall : ∀ v, v ∈ l ↔ vstart ≤ v ∧ v + PGSIZE ≤ vend ∧ v `mod` PGSIZE = 0).
  { intros v. rewrite Hl. split; intros (H1 & H2 & H3); (split_and!; [by apply Hlow|done|done]). }
  exists k0, (list_to_set l). split; [exact Hr|].
  split; [intros v; by rewrite elem_of_list_to_set, Hall|].
  assert (kinv (list_to_set l) k0 ∅) as Hinv0.
  { exists l. split_and!; [done|set_solver|set_solver|]. intros v Hv%elem_of_list_to_set.
    split; [by eapply free_chain_pages; [apply Hk0|]|].
    apply elem_of_dom. rewrite Hdom. apply elem_of_dom. apply Hall in Hv as (?&?&?). by apply Hmem. }
  intros k1 held Hs. apply (kinv_steps _ _ _ _ _ Hinv0) in Hs as (l1 & Hk1 & Hun & Hdj & Hpg). split.
  - pose proof (kalloc_spec k1 l1 Hk1) as Hspec. destruct l1 as [|v l1].
    + exists 0, k1. split_and!; [done| |done]. split; [set_solver|done].
    + destruct Hspec as (k2 & Ha & _). exists v, k2. split; [done|].
      assert (v ∈ (list_to_set (v :: l1) : gset Z)) as Hv by set_solver.
      assert (v ∉ held) by set_solver. split; [|set_solver]. split; [|intros E; set_solver].
      intros ->. destruct (Hpg 0) as [(_&_&_&?) _]; [set_solver|lia].
  - intros v Hv. destruct (Hpg v) as [Hkv [pg Hpgv]]; [set_solver|].
    destruct (kfree_spec k1 l1 v pg Hk1 Hkv) as (k2 & Hf & _); [set_solver|done|]. eauto.
Qed.
End kalloc.

Lemma kalloc_safe_witness :
  let pgs : gmap Z (list Z) := {[ 0x80400000 := junk_page; 0x80401000 := junk_page ]} in
  ∃ k0, kinit1 0x80400000 0x80400000 0x80402000 (mkKmem false 0 pgs) = Ok tt k0 ∧
    ∃ v k', kalloc k0 = Ok v k' ∧ v ∈ ({[ 0x80400000; 0x80401000 ]} : gset Z).
Proof.
  intros pgs.
  destruct (kalloc_safe 0x80400000 0x80400000 0x80402000 pgs false) as (k0 & all & Hk & Hall & Hs).
  1-4: unfold KERNBASE, PHYSTOP, PGSIZE; lia.
  { intros v H1 H2 H3. assert (v = 0x80400000 ∨ v = 0x80401000) as [->| ->].
    { apply Z.mod_divide in H3 as [q ->]; [|done]. unfold PGSIZE in *. lia. }
    - by exists junk_page.
    - by exists junk_page. }
  exists k0. split; [exact Hk|].
  destruct (proj1 (Hs k0 ∅ (ks_refl _ _ _))) as (v & k' & Ha & H0 & Hv). exists v, k'. split; [exact Ha|].
  destruct (decide (v = 0)) as [E|E].
  - apply H0 in E. exfalso. assert (0x80400000 ∈ all) as Hin by (apply Hall; unfold PGSIZE; done).
    rewrite <-E in Hin. by apply not_elem_of_empty in Hin.
  - destruct (Hv E) as [Hin _]. apply Hall in Hin as (H1 & H2 & H3).
    apply Z.mod_divide in H3 as [q ->]; [|done]. unfold PGSIZE in *.
    assert (q * 4096 = 0x80400000 ∨ q * 4096 = 0x80401000) as [->| ->] by lia; set_solver.
Defined.
