(* ===== verification/Vm.v ===== *)
(** * Page tables (vm.c, mmu.h)

    Page directories, page tables and user pages are pages of the allocator's
    memory, so that a page table entry is a word of a page and the two levels
    can alias like in the machine. Addresses are kernel virtual addresses of
    pages; [p2v] and [v2p] convert to the physical addresses stored in entries.
    Loading segment and page table registers is not modelled. *)

From S2P Require Import Prelude Spinlock Kalloc.

Definition EXTMEM : Z := 0x100000.
Definition DEVSPACE : Z := 0xFE000000.
Definition KERNLINK : Z := KERNBASE + EXTMEM.
Definition p2v (a : Z) : Z := u32 (a + KERNBASE).
Definition PDX (va : Z) : Z := Z.land (Z.shiftr va 22) 0x3FF.
Definition PTX (va : Z) : Z := Z.land (Z.shiftr va 12) 0x3FF.
Definition PGROUNDDOWN (a : Z) : Z := Z.land a (Z.lnot (PGSIZE - 1)).
Definition NPDENTRIES : Z := 1024.
Definition NPTENTRIES : Z := 1024.
Definition PTE_P : Z := 1.
Definition PTE_W : Z := 2.
Definition PTE_U : Z := 4.
Definition PTE_ADDR (pte : Z) : Z := Z.land pte (Z.lnot 0xFFF).

(** Words of pages; a missing page is a wild access. *)
Definition rdword (pg : Z) (idx : Z) : M kmem Z := λ k,
  match pages k !! pg with
  | Some d => Ok (get_u32 (4 * Z.to_nat idx) d) k
  | None => Err Undef k
  end.
Definition updpage (pg : Z) (f : list Z → list Z) : M kmem unit := λ k,
  match pages k !! pg with
  | Some d => Ok tt (mkKmem (use_lock k) (freelist k) (<[pg := f d]> (pages k)))
  | None => Err Undef k
  end.
Definition wrword (pg : Z) (idx : Z) (w : Z) : M kmem unit := updpage pg (put_32 (4 * Z.to_nat idx) w).
Definition zero_page : list Z := replicate (Z.to_nat PGSIZE) 0.
#[global] Arguments zero_page : simpl never.

(** A [pte_t] pointer: the page table and the index in it. *)
Abbreviation pteptr := (Z * Z)%type.

Definition walkpgdir (pgdir va : Z) (alloc : bool) : M kmem (option pteptr) :=
  pde ← rdword pgdir (PDX va);
  if negb (Z.land pde PTE_P =? 0) then
    mret (Some (p2v (PTE_ADDR pde), PTX va))
  else if negb alloc then mret None else
  pgtab ← kalloc;
  if pgtab =? 0 then mret None else
  updpage pgtab (λ _, zero_page);;
  wrword pgdir (PDX va) (Z.lor (Z.lor (Z.lor (v2p pgtab) PTE_P) PTE_W) PTE_U);;
  mret (Some (pgtab, PTX va)).

Fixpoint mappages_loop (fuel : nat) (pgdir a last pa perm : Z) : M kmem Z :=
  match fuel with
  | O => stopM NoFuel
  | S fuel' =>
      r ← walkpgdir pgdir a true;
      match r with
      | None => mret (-1)
      | Some (pg, idx) =>
          pte ← rdword pg idx;
          if negb (Z.land pte PTE_P =? 0) then panic "remap" else
          wrword pg idx (Z.lor (Z.lor pa perm) PTE_P);;
          if a =? last then mret 0
          else mappages_loop fuel' pgdir (u32 (a + PGSIZE)) last (u32 (pa + PGSIZE)) perm
      end
  end.

(** There are 2^20 pages, so the loop ends within 2^20 rounds. *)
Definition mappages (pgdir va size pa perm : Z) : M kmem Z :=
  let a := PGROUNDDOWN va in
  let last := PGROUNDDOWN (u32 (va + size - 1)) in
  mappages_loop (S (Z.to_nat (u32 (last - a) / PGSIZE))) pgdir a last pa perm.

Section Vm.
(** Linker symbols: the end of the kernel and the start of its data. *)
Context (kend kdata : Z).

(** [kmap]: virtual start, physical start and end, permissions. *)
Definition kmap : list (Z * Z * Z * Z) :=
  [(KERNBASE, 0, EXTMEM, PTE_W);
   (KERNLINK, v2p KERNLINK, v2p kdata, 0);
   (kdata, v2p kdata, PHYSTOP, PTE_W);
   (DEVSPACE, DEVSPACE, 0, PTE_W)].

Fixpoint setupkvm_loop (pgdir : Z) (l : list (Z * Z * Z * Z)) : M kmem Z :=
  match l with
  | [] => mret pgdir
  | (virt, phys_start, phys_end, perm) :: l' =>
      r ← mappages pgdir virt (u32 (phys_end - phys_start)) phys_start perm;
      if r <? 0 then mret 0 else setupkvm_loop pgdir l'
  end.

Definition setupkvm : M kmem Z :=
  pgdir ← kalloc;
  if pgdir =? 0 then mret 0 else
  updpage pgdir (λ _, zero_page);;
  if p2v PHYSTOP >? DEVSPACE then panic "PHYSTOP too high" else
  setupkvm_loop pgdir kmap.

Definition inituvm (pgdir : Z) (init : list Z) (sz : Z) : M kmem unit :=
  if sz >=? PGSIZE then panic "inituvm: more than a page" else
  mem ← kalloc;
  updpage mem (λ _, zero_page);;
  mappages pgdir 0 PGSIZE (v2p mem) (Z.lor PTE_W PTE_U);;
  updpage mem (splice 0 (take (Z.to_nat sz) init)).

(** The loop of [deallocuvm]; each round advances at least a page. *)
Fixpoint deallocuvm_loop (fuel : nat) (pgdir a oldsz : Z) : M kmem unit :=
  if a <? oldsz then
    match fuel with
    | O => stopM NoFuel
    | S fuel' =>
        r ← walkpgdir pgdir a false;
        match r with
        | None => deallocuvm_loop fuel' pgdir (a + (NPTENTRIES - 1) * PGSIZE + PGSIZE) oldsz
        | Some (pg, idx) =>
            pte ← rdword pg idx;
            (if negb (Z.land pte PTE_P =? 0) then
               let pa := PTE_ADDR pte in
               if pa =? 0 then panic "kfree" else
               kfree kend (p2v pa);;
               wrword pg idx 0
             else mret tt);;
            deallocuvm_loop fuel' pgdir (a + PGSIZE) oldsz
        end
    end
  else mret tt.

Definition deallocuvm (pgdir oldsz newsz : Z) : M kmem Z :=
  if newsz >=? oldsz then mret oldsz else
  let a := PGROUNDUP newsz in
  deallocuvm_loop (Z.to_nat (oldsz / PGSIZE + 1)) pgdir a oldsz;;
  mret newsz.

Fixpoint allocuvm_loop (fuel : nat) (pgdir a oldsz newsz : Z) : M kmem Z :=
  if a <? newsz then
    match fuel with
    | O => stopM NoFuel
    | S fuel' =>
        mem ← kalloc;
        if mem =? 0 then
          deallocuvm pgdir newsz oldsz;;
          mret 0
        else
          updpage mem (λ _, zero_page);;
          mappages pgdir a PGSIZE (v2p mem) (Z.lor PTE_W PTE_U);;
          allocuvm_loop fuel' pgdir (a + PGSIZE) oldsz newsz
    end
  else mret newsz.

Definition allocuvm (pgdir oldsz newsz : Z) : M kmem Z :=
  if newsz >=? KERNBASE then mret 0 else
  if newsz <? oldsz then mret oldsz else
  allocuvm_loop (Z.to_nat (newsz / PGSIZE + 1)) pgdir (PGROUNDUP oldsz) oldsz newsz.

Definition freevm (pgdir : Z) : M kmem unit :=
  if pgdir =? 0 then panic "freevm: no pgdir" else
  deallocuvm pgdir KERNBASE 0;;
  forM (seq 0 (Z.to_nat NPDENTRIES)) (λ i,
    pde ← rdword pgdir (Z.of_nat i);
    if negb (Z.land pde PTE_P =? 0) then kfree kend (p2v (PTE_ADDR pde)) else mret tt);;
  kfree kend pgdir.

Definition clearpteu (pgdir uva : Z) : M kmem unit :=
  r ← walkpgdir pgdir uva false;
  match r with
  | None => panic "clearpteu"
  | Some (pg, idx) =>
      pte ← rdword pg idx;
      wrword pg idx (Z.land pte (Z.lnot PTE_U))
  end.

Fixpoint copyuvm_loop (fuel : nat) (pgdir d i sz : Z) : M kmem Z :=
  if i <? sz then
    match fuel with
    | O => stopM NoFuel
    | S fuel' =>
        r ← walkpgdir pgdir i false;
        match r with
        | None => panic "copyuvm: pte should exist"
        | Some (pg, idx) =>
            pte ← rdword pg idx;
            if Z.land pte PTE_P =? 0 then panic "copyuvm: page not present" else
            let pa := PTE_ADDR pte in
            mem ← kalloc;
            if mem =? 0 then freevm d;; mret 0 else
            src ← (λ k, match pages k !! p2v pa with Some b => Ok b k | None => Err Undef k end);
            updpage mem (λ _, src);;
            m ← mappages d i PGSIZE (v2p mem) (Z.lor PTE_W PTE_U);
            if m <? 0 then freevm d;; mret 0
            else copyuvm_loop fuel' pgdir d (i + PGSIZE) sz
        end
    end
  else mret d.

Definition copyuvm (pgdir sz : Z) : M kmem Z :=
  d ← setupkvm;
  if d =? 0 then mret 0 else copyuvm_loop (Z.to_nat (sz / PGSIZE + 1)) pgdir d 0 sz.

End Vm.

(** The kernel address of a user page, 0 when it is not mapped for the user;
    a missing page table is a null pointer that the code reads through. *)
Definition uva2ka (pgdir uva : Z) : M kmem Z :=
  r ← walkpgdir pgdir uva false;
  match r with
  | None => undef
  | Some (pg, idx) =>
      pte ← rdword pg idx;
      if Z.land pte PTE_P =? 0 then mret 0 else
      if Z.land pte PTE_U =? 0 then mret 0 else
      mret (p2v (PTE_ADDR pte))
  end.

Fixpoint copyout_loop (fuel : nat) (pgdir va : Z) (buf : list Z) (len : Z) : M kmem Z :=
  if 0 <? len then
    match fuel with
    | O => stopM NoFuel
    | S fuel' =>
        let va0 := PGROUNDDOWN va in
        pa0 ← uva2ka pgdir va0;
        if pa0 =? 0 then mret (-1) else
        let n := if PGSIZE - (va - va0) >? len then len else PGSIZE - (va - va0) in
        updpage pa0 (splice (Z.to_nat (va - va0)) (take (Z.to_nat n) buf));;
        copyout_loop fuel' pgdir (u32 (va0 + PGSIZE)) (drop (Z.to_nat n) buf) (len - n)
    end
  else mret 0.

Definition copyout (pgdir va : Z) (p : list Z) (len : Z) : M kmem Z :=
  copyout_loop (Z.to_nat (len / PGSIZE + 2)) pgdir va p len.
