(* ===== verification/VmProps.v ===== *)
(** * Correctness of the page tables (vm.c)

    A page directory is seen as a function from virtual page numbers to page
    table entries. [mappages] changes this function on its range only, whatever
    page tables it has to allocate on the way. *)

From S2P Require Import Prelude Spinlock Kalloc Vm.

(** ** The view of a page directory *)
Definition word (d : list Z) (i : Z) : Z := get_u32 (4 * Z.to_nat i) d.
Definition page (k : kmem) (p : Z) : list Z := default [] (pages k !! p).
(** Entry [i] of the directory and the page table it points to. *)
Definition pde (k : kmem) (pgdir i : Z) : Z := word (page k pgdir) i.
Definition present (e : Z) : bool := negb (Z.land e PTE_P =? 0).
Definition tab (k : kmem) (pgdir i : Z) : Z := p2v (PTE_ADDR (pde k pgdir i)).
(** The entry for virtual page [n]; 0 when there is no page table for it. *)
Definition pte (k : kmem) (pgdir n : Z) : Z :=
  if present (pde k pgdir (n / 1024)) then word (page k (tab k pgdir (n / 1024))) (n `mod` 1024) else 0.

Definition full_page (k : kmem) (p : Z) : Prop := ∃ d, pages k !! p = Some d ∧ length d = Z.to_nat PGSIZE.

(** The directory and its page tables are whole pages, different from each
    other and not on the free list [l]. *)
Record pt_ok (k : kmem) (pgdir : Z) (l : list Z) : Prop := {
  pt_dir : full_page k pgdir ∧ pgdir ∉ l;
  pt_tab : ∀ i, 0 ≤ i < 1024 → present (pde k pgdir i) = true →
    full_page k (tab k pgdir i) ∧ (tab k pgdir i ∉ l) ∧ tab k pgdir i ≠ pgdir;
  pt_inj : ∀ i j, 0 ≤ i < 1024 → 0 ≤ j < 1024 → present (pde k pgdir i) = true → present (pde k pgdir j) = true →
    tab k pgdir i = tab k pgdir j → i = j;
}.

(** ** Arithmetic *)
Lemma PDX_spec n o : 0 ≤ n < 2 ^ 20 → 0 ≤ o < PGSIZE → PDX (PGSIZE * n + o) = n / 1024.
Proof.
  intros Hn Ho. unfold PDX. change 0x3FF with (Z.ones 10). rewrite Z.land_ones, Z.shiftr_div_pow2 by lia.
  unfold PGSIZE in *. Z.to_euclidean_division_equations. lia.
Qed.
Lemma PTX_spec n o : 0 ≤ n → 0 ≤ o < PGSIZE → PTX (PGSIZE * n + o) = n `mod` 1024.
Proof.
  intros Hn Ho. unfold PTX. change 0x3FF with (Z.ones 10). rewrite Z.land_ones, Z.shiftr_div_pow2 by lia.
  unfold PGSIZE in *. Z.to_euclidean_division_equations. lia.
Qed.

(** An entry for a page holds its address. *)
Lemma PTE_ADDR_flags a f : 0 ≤ f < PGSIZE → PTE_ADDR (Z.lor (PGSIZE * a) f) = PGSIZE * a.
Proof.
  intros Hf. unfold PTE_ADDR, PGSIZE in *. change 0xFFF with (Z.ones 12).
  rewrite <-Z.ldiff_land, Z.ldiff_ones_r by lia. rewrite Z.shiftr_lor.
  rewrite (Z.mul_comm 4096 a). change 4096 with (2 ^ 12). rewrite <-Z.shiftl_mul_pow2 by lia.
  rewrite Z.shiftr_shiftl_l, Z.shiftl_0_r by lia.
  rewrite (Z.shiftr_div_pow2 f) by lia. rewrite (Z.div_small f) by lia. by rewrite Z.lor_0_r.
Qed.

Lemma present_lor e : present (Z.lor e PTE_P) = true.
Proof.
  unfold present. apply negb_true_iff, Z.eqb_neq. intros H%(f_equal (λ z, Z.testbit z 0)).
  rewrite Z.land_spec, Z.lor_spec in H. by rewrite orb_true_r in H.
Qed.

Definition dir_entry (pg : Z) : Z := Z.lor (Z.lor (Z.lor (v2p pg) PTE_P) PTE_W) PTE_U.

Lemma kpage_kernel kend pg : kpage kend pg → ∃ a, pg = KERNBASE + PGSIZE * a ∧ v2p pg = PGSIZE * a ∧ 0 ≤ PGSIZE * a < PHYSTOP.
Proof.
  intros (Hm & _ & Hp & Hpos). exists ((pg - KERNBASE) / PGSIZE).
  assert (pg - KERNBASE = PGSIZE * ((pg - KERNBASE) / PGSIZE)) as E.
  { apply Z.div_exact; [done|]. rewrite Zminus_mod, Hm. done. }
  rewrite <-E. assert (0 ≤ pg - KERNBASE < 2 ^ 32) as Hr.
  { unfold v2p, u32, KERNBASE, PHYSTOP in *. Z.to_euclidean_division_equations. lia. }
  unfold v2p in *. rewrite u32_small in * by done. lia.
Qed.

Lemma dir_entry_ok kend pg : kpage kend pg →
  p2v (PTE_ADDR (dir_entry pg)) = pg ∧ present (dir_entry pg) = true ∧ u32 (dir_entry pg) = dir_entry pg.
Proof.
  intros Hk. destruct (kpage_kernel kend pg Hk) as (a & -> & Hv & Ha). unfold dir_entry. rewrite Hv.
  rewrite <-!Z.lor_assoc. change (Z.lor PTE_P (Z.lor PTE_W PTE_U)) with 7.
  rewrite PTE_ADDR_flags by (unfold PGSIZE; lia). split; [|split].
  - unfold p2v. rewrite u32_small; unfold KERNBASE, PHYSTOP in *; lia.
  - unfold present. apply negb_true_iff, Z.eqb_neq. intros H%(f_equal (λ z, Z.testbit z 0)).
    rewrite Z.land_spec, Z.lor_spec in H. change (Z.testbit 7 0) with true in H. by rewrite orb_true_r in H.
  - apply u32_small. split; [apply Z.lor_nonneg; lia|].
    assert (Z.lor (PGSIZE * a) 7 ≤ PGSIZE * a + 7); [|unfold PHYSTOP in *; lia].
    rewrite <-Z.add_lor_land. pose proof (Z.land_nonneg (PGSIZE * a) 7). lia.
Qed.

(** ** Writing an entry *)
Definition set_word (p i w : Z) (k : kmem) : kmem :=
  mkKmem (use_lock k) (freelist k) (<[p := put_32 (4 * Z.to_nat i) w (page k p)]> (pages k)).

Lemma wrword_run k p i w : full_page k p → wrword p i w k = Ok tt (set_word p i w k).
Proof. intros (d & Hd & _). unfold wrword, updpage, set_word, page. by rewrite Hd. Qed.
Lemma rdword_run k p i : full_page k p → rdword p i k = Ok (word (page k p) i) k.
Proof. intros (d & Hd & _). unfold rdword, page. by rewrite Hd. Qed.

Lemma page_len k p : full_page k p → length (page k p) = Z.to_nat PGSIZE.
Proof. intros (d & Hd & Hl). unfold page. by rewrite Hd. Qed.

Lemma word_fits i (d : list Z) : 0 ≤ i < 1024 → length d = Z.to_nat PGSIZE → (4 * Z.to_nat i + 4 <= length d)%nat.
Proof. intros Hi ->. unfold PGSIZE. lia. Qed.

Lemma word_put d i j w :
  0 ≤ i < 1024 → 0 ≤ j < 1024 → length d = Z.to_nat PGSIZE →
  word (put_32 (4 * Z.to_nat i) w d) j = if decide (j = i) then u32 w else word d j.
Proof.
  intros Hi Hj Hl. unfold word. pose proof (word_fits i d Hi Hl). case_decide as E.
  - subst. by rewrite get_put_u32.
  - apply get_put_u32_ne; [done|]. lia.
Qed.

Lemma page_set_word k p i w q : page (set_word p i w k) q = if decide (q = p) then put_32 (4 * Z.to_nat i) w (page k p) else page k q.
Proof.
  unfold page, set_word. simpl. case_decide as E; [subst; by rewrite lookup_insert_eq|by rewrite lookup_insert_ne].
Qed.

Lemma full_set_word k p i w q : 0 ≤ i < 1024 → full_page k p → full_page k q → full_page (set_word p i w k) q.
Proof.
  intros Hi Hp Hq. unfold full_page, set_word. simpl. destruct (decide (q = p)) as [->|Hne].
  - rewrite lookup_insert_eq. eexists. split; [done|]. rewrite length_put_32; [by apply page_len|].
    apply word_fits; [done|by apply page_len].
  - by rewrite lookup_insert_ne.
Qed.

(** Writing an entry of a page table. *)
Lemma set_pte k pgdir l n w :
  pt_ok k pgdir l → 0 ≤ n < 2 ^ 20 → present (pde k pgdir (n / 1024)) = true →
  let k' := set_word (tab k pgdir (n / 1024)) (n `mod` 1024) w k in
  pt_ok k' pgdir l ∧ (∀ i, pde k' pgdir i = pde k pgdir i) ∧
  ∀ m, 0 ≤ m < 2 ^ 20 → pte k' pgdir m = if decide (m = n) then u32 w else pte k pgdir m.
Proof.
  intros HP Hn Hpres k'. assert (Hi : 0 ≤ n / 1024 < 1024) by (Z.to_euclidean_division_equations; lia).
  assert (Hj : 0 ≤ n `mod` 1024 < 1024) by (apply Z.mod_pos_bound; lia).
  destruct (pt_tab _ _ _ HP _ Hi Hpres) as (Hfull & Hfree & Hne).
  assert (Hpde : ∀ i, pde k' pgdir i = pde k pgdir i).
  { intros i. unfold pde, k'. by rewrite page_set_word, decide_False by done. }
  assert (Htab : ∀ i, tab k' pgdir i = tab k pgdir i) by (intros i; unfold tab; by rewrite Hpde).
  split; [|split; [done|]].
  - constructor.
    + split; [by apply full_set_word, HP|apply HP].
    + intros i Hi'. rewrite Hpde, Htab. intros Hp'. destruct (pt_tab _ _ _ HP i Hi' Hp') as (?&?&?).
      split; [by apply full_set_word|done].
    + intros i j. rewrite !Hpde, !Htab. apply HP.
  - intros m Hm. unfold pte. rewrite Hpde, Htab.
    assert (Hi' : 0 ≤ m / 1024 < 1024) by (Z.to_euclidean_division_equations; lia).
    assert (Hj' : 0 ≤ m `mod` 1024 < 1024) by (apply Z.mod_pos_bound; lia).
    destruct (present (pde k pgdir (m / 1024))) eqn:Hpm.
    + unfold k'. rewrite page_set_word. case_decide as Et.
      * rewrite Et, word_put by (try done; by apply page_len).
        apply (pt_inj _ _ _ HP) in Et; [|done..].
        destruct (decide (m = n)) as [->|Hmn]; [by rewrite decide_True|].
        rewrite decide_False; [done|]. intros Em. apply Hmn. rewrite (Z.div_mod m 1024), (Z.div_mod n 1024), Em, Et by lia. done.
      * rewrite decide_False; [done|]. by intros ->.
    + rewrite decide_False; [done|]. intros ->. congruence.
Qed.

(** Entering a new, empty page table in the directory. *)
Lemma set_pde kend k pgdir l i pg :
  pt_ok k pgdir l → 0 ≤ i < 1024 → present (pde k pgdir i) = false →
  kpage kend pg → pages k !! pg = Some zero_page → pg ∉ l → pg ≠ pgdir →
  (∀ j, 0 ≤ j < 1024 → present (pde k pgdir j) = true → tab k pgdir j ≠ pg) →
  let k' := set_word pgdir i (dir_entry pg) k in
  pt_ok k' pgdir l ∧ present (pde k' pgdir i) = true ∧ tab k' pgdir i = pg ∧
  ∀ m, 0 ≤ m < 2 ^ 20 → pte k' pgdir m = pte k pgdir m.
Proof.
  intros HP Hi Hno Hk Hz Hfree Hne Hnew k'. destruct (pt_dir _ _ _ HP) as [Hdir Hdl].
  destruct (dir_entry_ok kend pg Hk) as (Ea & Ep & Eu).
  assert (Hpg : full_page k pg) by (exists zero_page; split; [done|]; unfold zero_page; by rewrite length_replicate).
  assert (Hpde : ∀ j, 0 ≤ j < 1024 → pde k' pgdir j = if decide (j = i) then dir_entry pg else pde k pgdir j).
  { intros j Hj. unfold pde, k'. rewrite page_set_word, decide_True by done.
    rewrite word_put by (try done; by apply page_len). by rewrite Eu. }
  assert (Htab : ∀ j, 0 ≤ j < 1024 → tab k' pgdir j = if decide (j = i) then pg else tab k pgdir j).
  { intros j Hj. unfold tab. rewrite Hpde by done. by case_decide. }
  split; [|split; [|split]].
  - constructor.
    + split; [by apply full_set_word|done].
    + intros j Hj. rewrite Hpde, Htab by done. case_decide as E.
      * intros _. split; [by apply full_set_word|done].
      * intros Hp'. destruct (pt_tab _ _ _ HP j Hj Hp') as (?&?&?). split; [by apply full_set_word|done].
    + intros a b Ha Hb. rewrite !Hpde, !Htab by done. do 2 case_decide; subst; try done.
      * intros _ Hpb E. by destruct (Hnew b Hb Hpb).
      * intros Hpa _ E. by destruct (Hnew a Ha Hpa).
      * by apply (pt_inj _ _ _ HP).
  - by rewrite Hpde, decide_True by done.
  - by rewrite Htab, decide_True by done.
  - intros m Hm. assert (Hi' : 0 ≤ m / 1024 < 1024) by (Z.to_euclidean_division_equations; lia).
    unfold pte. rewrite Hpde, Htab by done. case_decide as E.
    + rewrite E, Ep, Hno. unfold k'. rewrite page_set_word, decide_False by done.
      unfold page. rewrite Hz. simpl. assert (Hj : 0 ≤ m `mod` 1024 < 1024) by (apply Z.mod_pos_bound; lia).
      unfold word, get_u32, zero_page, slice. rewrite drop_replicate, take_replicate.
      replace (_ `min` _)%nat with 4%nat by (unfold PGSIZE; lia). done.
    + destruct (present (pde k pgdir (m / 1024))) eqn:Hp'; [|done].
      destruct (pt_tab _ _ _ HP _ Hi' Hp') as (_ & _ & Hnd). unfold k'. by rewrite page_set_word, decide_False.
Qed.

(** ** Walking and mapping *)

(** The pages of the page table itself. *)
Definition pt_page (k : kmem) (pgdir p : Z) : Prop :=
  p = pgdir ∨ ∃ i, 0 ≤ i < 1024 ∧ present (pde k pgdir i) = true ∧ tab k pgdir i = p.

(** From [k] with free pages [l] to [k'] with free pages [l'], only the page
    table and pages that were free have changed. *)
Record vm_frame (kend pgdir : Z) (k : kmem) (l : list Z) (k' : kmem) (l' : list Z) : Prop := {
  vf_krep : krep kend k' l';
  vf_ok : pt_ok k' pgdir l';
  vf_own : ∀ p, pt_page k' pgdir p ∨ p ∈ l' → pt_page k pgdir p ∨ p ∈ l;
  vf_rest : ∀ p, ¬ pt_page k pgdir p → p ∉ l → pages k' !! p = pages k !! p;
}.

Lemma vm_frame_refl kend pgdir k l : krep kend k l → pt_ok k pgdir l → vm_frame kend pgdir k l k l.
Proof. intros. by constructor. Qed.

Lemma vm_frame_trans kend pgdir k1 l1 k2 l2 k3 l3 :
  vm_frame kend pgdir k1 l1 k2 l2 → vm_frame kend pgdir k2 l2 k3 l3 → vm_frame kend pgdir k1 l1 k3 l3.
Proof.
  intros [_ _ H1 H2] [? ? H3 H4]. constructor; [done|done|by eauto|].
  intros p Hp Hl. rewrite H4; [by apply H2| |]; intros ?; destruct (H1 p); tauto.
Qed.

Lemma krep_set_word kend k l p i w : krep kend k l → p ∉ l → krep kend (set_word p i w k) l.
Proof.
  intros [Hc Hn] Hp. split; [|done]. eapply free_chain_frame; [|exact Hc].
  intros v Hv. simpl. apply lookup_insert_ne. by intros ->.
Qed.

Lemma walkpgdir_alloc kend k pgdir l n o :
  krep kend k l → pt_ok k pgdir l → 0 ≤ n < 2 ^ 20 → 0 ≤ o < PGSIZE →
  (l = [] ∧ walkpgdir pgdir (PGSIZE * n + o) true k = Ok None k) ∨
  ∃ k' l', walkpgdir pgdir (PGSIZE * n + o) true k = Ok (Some (tab k' pgdir (n / 1024), n `mod` 1024)) k' ∧
    vm_frame kend pgdir k l k' l' ∧ present (pde k' pgdir (n / 1024)) = true ∧
    ∀ m, 0 ≤ m < 2 ^ 20 → pte k' pgdir m = pte k pgdir m.
Proof.
  intros HK HP Hn Ho. assert (Hi : 0 ≤ n / 1024 < 1024) by (Z.to_euclidean_division_equations; lia).
  destruct (pt_dir _ _ _ HP) as [Hdir Hdl].
  unfold walkpgdir, mbind, M_bind. rewrite PDX_spec, PTX_spec by lia. rewrite rdword_run by done.
  fold (pde k pgdir (n / 1024)). fold (present (pde k pgdir (n / 1024))).
  destruct (present (pde k pgdir (n / 1024))) eqn:Hpres.
  { right. exists k, l. split; [done|]. split; [by apply vm_frame_refl|]. done. }
  simpl. pose proof (kalloc_spec kend k l HK) as Hka. destruct l as [|v l].
  { left. by rewrite Hka. }
  right. destruct Hka as (k1 & Hrun & HK1 & Hpg1). rewrite Hrun.
  destruct HK as [(_ & Hkv & _) Hnd]. apply NoDup_cons in Hnd as [Hvl _].
  assert (v ≠ pgdir) as Hvd by set_solver.
  pose proof Hkv as (_ & _ & _ & Hpos). rewrite (proj2 (Z.eqb_neq v 0)) by lia.
  assert (is_Some (pages k1 !! v)) as [pg Hpg].
  { destruct HK1 as [Hc1 _]. rewrite Hpg1. unfold kalloc, mbind, M_bind, getM in Hrun.
    destruct (freelist k =? 0); [injection Hrun as ? _; lia|]. destruct (pages k !! freelist k) eqn:E; [|done].
    simpl in Hrun. injection Hrun as <- _. eauto. }
  unfold updpage at 1. rewrite Hpg.
  set (k2 := mkKmem (use_lock k1) (freelist k1) (<[v := zero_page]> (pages k1))).
  assert (Hpage : ∀ p, p ≠ v → page k2 p = page k p).
  { intros p Hp. unfold page, k2. simpl. by rewrite lookup_insert_ne, Hpg1. }
  assert (Hpde : ∀ i, pde k2 pgdir i = pde k pgdir i) by (intros i; unfold pde; by rewrite Hpage).
  assert (Htab : ∀ i, tab k2 pgdir i = tab k pgdir i) by (intros i; unfold tab; by rewrite Hpde).
  assert (Hnv : ∀ i, 0 ≤ i < 1024 → present (pde k pgdir i) = true → tab k pgdir i ≠ v).
  { intros i Hi' Hp'. destruct (pt_tab _ _ _ HP i Hi' Hp') as (_ & ? & _). set_solver. }
  assert (Hfull : ∀ p, p ≠ v → full_page k p → full_page k2 p).
  { intros p Hp (d & Hd & Hl). exists d. unfold k2. simpl. by rewrite lookup_insert_ne, Hpg1. }
  assert (HP2 : pt_ok k2 pgdir l).
  { constructor; [split; [by apply Hfull|set_solver]| |].
    - intros i Hi'. rewrite Hpde, Htab. intros Hp'. destruct (pt_tab _ _ _ HP i Hi' Hp') as (?&?&?).
      split; [apply Hfull; auto|]. set_solver.
    - intros i j. rewrite !Hpde, !Htab. apply HP. }
  assert (HK2 : krep kend k2 l).
  { destruct HK1 as [Hc Hn1]. split; [|done]. eapply free_chain_frame; [|exact Hc].
    intros u Hu. unfold k2. simpl. apply lookup_insert_ne. by intros ->. }
  assert (Hpte : ∀ m, 0 ≤ m < 2 ^ 20 → pte k2 pgdir m = pte k pgdir m).
  { intros m Hm. unfold pte. rewrite Hpde, Htab. destruct (present (pde k pgdir (m / 1024))) eqn:Hp'; [|done].
    rewrite Hpage; [done|]. apply Hnv; [Z.to_euclidean_division_equations; lia|done]. }
  rewrite wrword_run by by apply Hfull. fold (dir_entry v).
  destruct (set_pde kend k2 pgdir l (n / 1024) v) as (H1 & H2 & H3 & H4); try done.
  { by rewrite Hpde. } { unfold k2. simpl. apply lookup_insert_eq. }
  { intros j Hj. rewrite Hpde, Htab. auto. }
  set (k' := set_word pgdir (n / 1024) (dir_entry v) k2) in *.
  exists k', l. rewrite H3. split; [done|]. split; [|split; [done|intros m Hm; by rewrite H4, Hpte]].
  constructor; [apply krep_set_word; [done|set_solver]|done| |].
  - intros p [[->|(i & Hi' & Hp' & <-)]|Hp]; [left; by left| |right; set_solver].
    destruct (decide (i = n / 1024)) as [->|Hne]; [rewrite H3; right; set_solver|].
    left. right. exists i. split; [done|]. revert Hp'. unfold tab, k', pde. rewrite page_set_word, decide_True by done.
    rewrite word_put by (try done; apply page_len; by apply Hfull). rewrite decide_False by done.
    fold (pde k2 pgdir i). rewrite Hpde. done.
  - intros p Hp Hl. unfold k', k2. simpl. rewrite lookup_insert_ne by (intros ->; apply Hp; by left).
    rewrite lookup_insert_ne by set_solver. by rewrite Hpg1.
Qed.

(** The entry that [mappages] writes. *)
Definition leaf (pa perm : Z) : Z := Z.lor (Z.lor pa perm) PTE_P.
Lemma leaf_u32 pa perm : 0 ≤ pa ≤ 2 ^ 32 - PGSIZE → 0 ≤ perm < PGSIZE - 1 → u32 (leaf pa perm) = leaf pa perm.
Proof.
  intros Hpa Hperm. unfold leaf. apply u32_small.
  assert (Hle : ∀ a b, 0 ≤ a → 0 ≤ b → 0 ≤ Z.lor a b ≤ a + b).
  { intros a b Ha Hb. rewrite <-Z.add_lor_land. pose proof (Z.land_nonneg a b).
    pose proof (Z.lor_nonneg a b). lia. }
  pose proof (Hle pa perm). pose proof (Hle (Z.lor pa perm) PTE_P). unfold PTE_P, PGSIZE in *. lia.
Qed.

(** One round of the loop. *)
Lemma map_one kend k pgdir l n pa perm :
  krep kend k l → pt_ok k pgdir l → 0 ≤ n < 2 ^ 20 → present (pte k pgdir n) = false →
  0 ≤ pa ≤ 2 ^ 32 - PGSIZE → 0 ≤ perm < PGSIZE - 1 →
  (l = [] ∧ ∀ fuel last, mappages_loop (S fuel) pgdir (PGSIZE * n) last pa perm k = Ok (-1) k) ∨
  ∃ k' l', vm_frame kend pgdir k l k' l' ∧
    (∀ m, 0 ≤ m < 2 ^ 20 → pte k' pgdir m = if decide (m = n) then leaf pa perm else pte k pgdir m) ∧
    ∀ fuel last, mappages_loop (S fuel) pgdir (PGSIZE * n) last pa perm k =
      if PGSIZE * n =? last then Ok 0 k'
      else mappages_loop fuel pgdir (u32 (PGSIZE * n + PGSIZE)) last (u32 (pa + PGSIZE)) perm k'.
Proof.
  intros HK HP Hn Hnp Hpa Hperm.
  destruct (walkpgdir_alloc kend k pgdir l n 0 HK HP Hn) as [[-> Hw]|(k1 & l1 & Hw & HF & Hpres & Hpte)];
    [unfold PGSIZE; lia|left|right]; rewrite Z.add_0_r in Hw.
  { split; [done|]. intros fuel last. cbn [mappages_loop]. unfold mbind, M_bind. by rewrite Hw. }
  assert (Hi : 0 ≤ n / 1024 < 1024) by (Z.to_euclidean_division_equations; lia).
  destruct (pt_tab _ _ _ (vf_ok _ _ _ _ _ _ HF) _ Hi Hpres) as (Hfull & Hnl & Hne).
  destruct (set_pte k1 pgdir l1 n (leaf pa perm) (vf_ok _ _ _ _ _ _ HF) Hn Hpres) as (HP2 & Hpde2 & Hpte2).
  set (k2 := set_word (tab k1 pgdir (n / 1024)) (n `mod` 1024) (leaf pa perm) k1) in *.
  exists k2, l1. split; [|split].
  - eapply vm_frame_trans; [exact HF|]. constructor; [apply krep_set_word; [apply HF|done]|done| |].
    + intros p [[->|(i & Hi' & Hp' & <-)]|Hp]; [left; by left| |by right].
      left. right. exists i. unfold tab. by rewrite Hpde2 in *.
    + intros p Hp _. unfold k2. simpl. apply lookup_insert_ne. intros <-. apply Hp. right. eauto.
  - intros m Hm. rewrite Hpte2 by done. rewrite leaf_u32 by done. case_decide; [done|]. by apply Hpte.
  - intros fuel last. cbn [mappages_loop]. unfold mbind, M_bind. rewrite Hw. rewrite rdword_run by done.
    rewrite <-(Hpte n Hn) in Hnp. unfold pte in Hnp. rewrite Hpres in Hnp. unfold present in Hnp. rewrite Hnp.
    rewrite wrword_run by done. fold (leaf pa perm). fold k2. by destruct (_ =? last).
Qed.

Lemma mappages_loop_spec kend pgdir perm : 0 ≤ perm < PGSIZE - 1 → ∀ (c : nat) n pa k l,
  krep kend k l → pt_ok k pgdir l → 0 ≤ n → n + Z.of_nat (S c) ≤ 2 ^ 20 →
  (∀ m, n ≤ m < n + Z.of_nat (S c) → present (pte k pgdir m) = false) →
  0 ≤ pa → pa + PGSIZE * Z.of_nat (S c) ≤ 2 ^ 32 →
  ∃ r k' l', mappages_loop (S c) pgdir (PGSIZE * n) (PGSIZE * (n + Z.of_nat c)) pa perm k = Ok r k' ∧
    vm_frame kend pgdir k l k' l' ∧
    (∀ m, 0 ≤ m < 2 ^ 20 → ¬ (n ≤ m < n + Z.of_nat (S c)) → pte k' pgdir m = pte k pgdir m) ∧
    (r = 0 ∧ (∀ m, n ≤ m < n + Z.of_nat (S c) → pte k' pgdir m = leaf (pa + PGSIZE * (m - n)) perm) ∨
     r = -1 ∧ l' = []).
Proof.
  intros Hperm c. induction c as [|c IH]; intros n pa k l HK HP Hn0 Hn Hno Hpa0 Hpa.
  all: destruct (map_one kend k pgdir l n pa perm HK HP) as [[-> Hrun]|(k1 & l1 & HF & Hpte & Hrun)];
    [lia|apply Hno; lia|unfold PGSIZE in *; lia|done| |].
  1,3: exists (-1), k, []; rewrite Hrun; split; [done|]; split; [by apply vm_frame_refl|]; split; [done|by right].
  - exists 0, k1, l1. rewrite Hrun, Z.add_0_r, Z.eqb_refl. split; [done|]. split; [done|]. split.
    + intros m Hm Hout. rewrite Hpte, decide_False by lia. done.
    + left. split; [done|]. intros m Hm. assert (m = n) as -> by lia. rewrite Hpte, decide_True by lia.
      f_equal. lia.
  - destruct (IH (n + 1) (pa + PGSIZE) k1 l1) as (r & k2 & l2 & Hr & HF2 & Hout & Hin); try (unfold PGSIZE in *; lia).
    + apply HF.
    + apply HF.
    + intros m Hm. rewrite Hpte, decide_False by lia. apply Hno. lia.
    + exists r, k2, l2. rewrite Hrun. rewrite (proj2 (Z.eqb_neq _ _)) by (unfold PGSIZE; lia).
      rewrite !u32_small by (unfold PGSIZE in *; lia).
      replace (PGSIZE * n + PGSIZE) with (PGSIZE * (n + 1)) by lia.
      replace (n + Z.of_nat (S c)) with (n + 1 + Z.of_nat c) in * by lia.
      split; [exact Hr|]. split; [by eapply vm_frame_trans|]. split.
      * intros m Hm Hmo. rewrite Hout by lia. rewrite Hpte, decide_False by lia. done.
      * destruct Hin as [[-> Hin]|[-> ->]]; [left|by right]. split; [done|]. intros m Hm.
        destruct (decide (m = n)) as [->|Hne].
        -- rewrite Hout by lia. rewrite Hpte, decide_True by lia. f_equal. lia.
        -- rewrite Hin by lia. f_equal. lia.
Qed.

Lemma PGROUNDDOWN_spec a : PGROUNDDOWN a = PGSIZE * (a / PGSIZE).
Proof.
  unfold PGROUNDDOWN, PGSIZE. rewrite <-Z.ldiff_land. change (4096 - 1) with (Z.ones 12).
  rewrite Z.ldiff_ones_r, Z.shiftl_mul_pow2, Z.shiftr_div_pow2 by lia. change (2 ^ 12) with 4096. lia.
Qed.

(** C10: [mappages] on a page directory, for a range [va, va+size) in which no
    page is mapped: it returns (no panic, no access outside the page tables),
    every page outside the range keeps its entry, no page of memory other than
    the page tables and free pages changes, the page tables stay well formed
    and separate from the free pages; and it returns 0 with every page of the
    range mapped to its physical page with the given permissions, or -1 when
    the allocator ran out of pages. *)
Theorem mappages_correct kend k pgdir l va size pa perm :
  krep kend k l → pt_ok k pgdir l → 0 ≤ va → 0 < size → va + size ≤ 2 ^ 32 →
  let n := va / PGSIZE in let last := (va + size - 1) / PGSIZE in
  (∀ m, n ≤ m ≤ last → present (pte k pgdir m) = false) →
  0 ≤ pa → pa + PGSIZE * (last - n + 1) ≤ 2 ^ 32 → 0 ≤ perm < PGSIZE - 1 →
  ∃ r k' l', mappages pgdir va size pa perm k = Ok r k' ∧
    vm_frame kend pgdir k l k' l' ∧
    (∀ m, 0 ≤ m < 2 ^ 20 → ¬ (n ≤ m ≤ last) → pte k' pgdir m = pte k pgdir m) ∧
    (r = 0 ∧ (∀ m, n ≤ m ≤ last → pte k' pgdir m = leaf (pa + PGSIZE * (m - n)) perm) ∨
     r = -1 ∧ l' = []).
Proof.
  intros HK HP Hva Hsize Hend n last Hno Hpa0 Hpa Hperm.
  assert (Hn : 0 ≤ n ≤ last ∧ last < 2 ^ 20) by (unfold n, last, PGSIZE; Z.to_euclidean_division_equations; lia).
  destruct (mappages_loop_spec kend pgdir perm Hperm (Z.to_nat (last - n)) n pa k l)
    as (r & k' & l' & Hrun & HF & Hout & Hin); [done|done|lia|lia|intros m Hm; apply Hno; lia|done| |].
  { replace (Z.of_nat _) with (last - n + 1) by lia. done. }
  exists r, k', l'. split; [|split; [done|]].
  - unfold mappages. rewrite !PGROUNDDOWN_spec, (u32_small (va + size - 1)) by lia. fold n last.
    replace (u32 (PGSIZE * last - PGSIZE * n) / PGSIZE) with (last - n).
    + rewrite Z2Nat.id in Hrun by lia. by replace (n + (last - n)) with last in Hrun by lia.
    + rewrite u32_small by (unfold PGSIZE; lia). rewrite <-Z.mul_sub_distr_l, Z.mul_comm, Z.div_mul; [done|].
      unfold PGSIZE; lia.
  - split; [intros m Hm Hmo; apply Hout; lia|].
    destruct Hin as [[-> Hin]|[-> ->]]; [left|by right]. split; [done|]. intros m Hm. apply Hin. lia.
Qed.

(** An empty directory and one free page. *)
Definition small_vm : kmem :=
  mkKmem false 0x80401000 {[ 0x80400000 := zero_page; 0x80401000 := put_32 0 0 junk_page ]}.

Lemma zero_word i : 0 ≤ i < 1024 → word zero_page i = 0.
Proof.
  intros Hi. unfold word, get_u32, zero_page, slice. rewrite drop_replicate, take_replicate.
  replace (_ `min` _)%nat with 4%nat by (unfold PGSIZE; lia). done.
Qed.

Lemma small_vm_ok : krep 0x80400000 small_vm [0x80401000] ∧ pt_ok small_vm 0x80400000 [0x80401000] ∧
  ∀ m, 0 ≤ m < 2 ^ 20 → pte small_vm 0x80400000 m = 0.
Proof.
  assert (Hpde : ∀ i, 0 ≤ i < 1024 → pde small_vm 0x80400000 i = 0) by (intros i Hi; by apply zero_word).
  split; [|split].
  - split; [|apply NoDup_singleton]. split; [done|]. split; [vm_compute; intuition congruence|].
    exists (put_32 0 0 junk_page). split; [done|]. vm_compute. done.
  - constructor.
    + split; [|set_solver by lia]. exists zero_page. split; [done|]. unfold zero_page. by rewrite length_replicate.
    + intros i Hi. by rewrite Hpde.
    + intros i j Hi Hj. by rewrite Hpde.
  - intros m Hm. unfold pte. rewrite Hpde; [done|]. Z.to_euclidean_division_equations. lia.
Qed.

Lemma mappages_correct_witness :
  ∃ r k', mappages 0x80400000 0x1000 0x1000 0x5000 6 small_vm = Ok r k' ∧ pte k' 0x80400000 2 = 0.
Proof.
  destruct small_vm_ok as (HK & HP & Hz).
  destruct (mappages_correct 0x80400000 small_vm 0x80400000 [0x80401000] 0x1000 0x1000 0x5000 6)
    as (r & k' & l' & Hrun & _ & Hout & _).
  - exact HK.
  - exact HP.
  - lia.
  - lia.
  - lia.
  - intros m Hm. change (1 ≤ m ≤ 1) in Hm. rewrite Hz by lia. reflexivity.
  - lia.
  - vm_compute. congruence.
  - unfold PGSIZE. lia.
  - exists r, k'. split; [exact Hrun|]. rewrite Hout; [apply Hz; lia|lia|]. change (¬ (1 ≤ 2 ≤ 1)). lia.
Defined.
