(* ===== verification/Pipe.v ===== *)
(** * Pipes (pipe.c)

    [pipewrite] and [piperead] run under the pipe's lock from a call or a
    wakeup to a return or a [sleep], so each such stretch is one function here.
    Any number of threads use one pipe: a system state holds the pipe and where
    each thread is, and the step relation covers every interleaving of the
    stretches, with [sleep] and [wakeup] on the two channels [&p->nread] and
    [&p->nwrite]. *)

From S2P Require Import Prelude.

Definition PIPESIZE : nat := 512.
#[global] Arguments PIPESIZE : simpl never.

(** [struct pipe], the lock aside. *)
Record pipe := mkPipe {
  p_data : list Z;
  nread : Z;
  nwrite : Z;
  readopen : bool;
  writeopen : bool;
}.

(** The fields that [pipealloc] sets, over a page with old contents. *)
Definition pipe_init (junk : list Z) : pipe := mkPipe junk 0 0 true true.

(** How a stretch of [pipewrite] ends; [WSleep rest] sleeps on [&p->nwrite]
    with the bytes [rest] still to write. *)
Inductive wend := WDone | WFail | WSleep (rest : list Z).

(** The loop of [pipewrite] from the byte it is at; [killed] is
    [proc->killed]. *)
Fixpoint pipewrite (killed : bool) (bytes : list Z) (p : pipe) : pipe * wend :=
  match bytes with
  | [] => (p, WDone)
  | c :: bytes' =>
      if nwrite p =? u32 (nread p + Z.of_nat PIPESIZE) then
        if negb (readopen p) || killed then (p, WFail) else (p, WSleep bytes)
      else
        pipewrite killed bytes'
          (mkPipe (<[Z.to_nat (nwrite p `mod` Z.of_nat PIPESIZE) := c]> (p_data p))
             (nread p) (u32 (nwrite p + 1)) (readopen p) (writeopen p))
  end.

Inductive rend := RDone (bytes : list Z) | RFail | RSleep.

(** The copy loop of [piperead]. *)
Fixpoint piperead_copy (n : nat) (p : pipe) : pipe * list Z :=
  match n with
  | O => (p, [])
  | S n' =>
      if nread p =? nwrite p then (p, []) else
      let c := p_data p !!! Z.to_nat (nread p `mod` Z.of_nat PIPESIZE) in
      let '(p', l) := piperead_copy n'
        (mkPipe (p_data p) (u32 (nread p + 1)) (nwrite p) (readopen p) (writeopen p)) in
      (p', c :: l)
  end.

Definition piperead (killed : bool) (n : nat) (p : pipe) : pipe * rend :=
  if (nread p =? nwrite p) && writeopen p then
    if killed then (p, RFail) else (p, RSleep)
  else let '(p', l) := piperead_copy n p in (p', RDone l).

(** [pipeclose]: the new pipe, and whether its page was freed. *)
Definition pipeclose (writable : bool) (p : pipe) : pipe * bool :=
  let p := if writable then mkPipe (p_data p) (nread p) (nwrite p) (readopen p) false
           else mkPipe (p_data p) (nread p) (nwrite p) false (writeopen p) in
  (p, negb (readopen p) && negb (writeopen p)).

(** ** Threads *)
Inductive thread :=
| TIdle
| TWrite (rest : list Z)     (* in pipewrite, runnable *)
| TWSleep (rest : list Z)    (* asleep on &p->nwrite *)
| TRead (n : nat)            (* in piperead, runnable *)
| TRSleep (n : nat).         (* asleep on &p->nread *)

(** [wakeup] of the two channels. *)
Definition wake_nread (t : thread) : thread := match t with TRSleep n => TRead n | _ => t end.
Definition wake_nwrite (t : thread) : thread := match t with TWSleep l => TWrite l | _ => t end.

(** The system: the pipe, the threads, whether the pipe was freed, and the
    history of the bytes stored into and taken out of it. *)
Record psys := mkSys {
  sp : pipe;
  threads : list thread;
  freed : bool;
  sent : list Z;
  received : list Z;
}.

(** The bytes a stretch of [pipewrite] stored. *)
Definition stored (bytes : list Z) (rest : list Z) : list Z := take (length bytes - length rest) bytes.

(** Where [pipewrite] stops writing: the bytes left when it fails. *)
Fixpoint unwritten (bytes : list Z) (p : pipe) : list Z :=
  match bytes with
  | [] => []
  | c :: bytes' =>
      if nwrite p =? u32 (nread p + Z.of_nat PIPESIZE) then bytes
      else unwritten bytes' (mkPipe (<[Z.to_nat (nwrite p `mod` Z.of_nat PIPESIZE) := c]> (p_data p))
             (nread p) (u32 (nwrite p + 1)) (readopen p) (writeopen p))
  end.

(** A thread inside [piperead] or [pipewrite]. *)
Definition reading (t : thread) : bool := match t with TRead _ | TRSleep _ => true | _ => false end.
Definition writing (t : thread) : bool := match t with TWrite _ | TWSleep _ => true | _ => false end.

(** The steps of the system. [kw] says whether threads may be killed while they
    are in [pipewrite]. A call needs its end of the pipe open, and an end is
    closed when no thread is using it: [fileclose] calls [pipeclose] when the
    last reference to that end goes away. *)
Inductive pstep (kw : bool) (s : psys) : psys → Prop :=
| p_call_write i bytes :
    writeopen (sp s) = true → threads s !! i = Some TIdle →
    pstep kw s (mkSys (sp s) (<[i := TWrite bytes]> (threads s)) (freed s) (sent s) (received s))
| p_call_read i n :
    readopen (sp s) = true → threads s !! i = Some TIdle →
    pstep kw s (mkSys (sp s) (<[i := TRead n]> (threads s)) (freed s) (sent s) (received s))
| p_write_done i bytes killed p' :
    threads s !! i = Some (TWrite bytes) → (killed = true → kw = true) →
    pipewrite killed bytes (sp s) = (p', WDone) →
    pstep kw s (mkSys p' (wake_nread <$> <[i := TIdle]> (threads s)) (freed s)
                  (sent s ++ stored bytes (unwritten bytes (sp s))) (received s))
| p_write_fail i bytes killed p' :
    threads s !! i = Some (TWrite bytes) → (killed = true → kw = true) →
    pipewrite killed bytes (sp s) = (p', WFail) →
    pstep kw s (mkSys p' (<[i := TIdle]> (threads s)) (freed s)
                  (sent s ++ stored bytes (unwritten bytes (sp s))) (received s))
| p_write_sleep i bytes killed p' rest :
    threads s !! i = Some (TWrite bytes) → (killed = true → kw = true) →
    pipewrite killed bytes (sp s) = (p', WSleep rest) →
    pstep kw s (mkSys p' (wake_nread <$> <[i := TWSleep rest]> (threads s)) (freed s)
                  (sent s ++ stored bytes (unwritten bytes (sp s))) (received s))
| p_read_done i n killed p' l :
    threads s !! i = Some (TRead n) →
    piperead killed n (sp s) = (p', RDone l) →
    pstep kw s (mkSys p' (wake_nwrite <$> <[i := TIdle]> (threads s)) (freed s) (sent s) (received s ++ l))
| p_read_fail i n killed p' :
    threads s !! i = Some (TRead n) →
    piperead killed n (sp s) = (p', RFail) →
    pstep kw s (mkSys p' (<[i := TIdle]> (threads s)) (freed s) (sent s) (received s))
| p_read_sleep i n killed p' :
    threads s !! i = Some (TRead n) →
    piperead killed n (sp s) = (p', RSleep) →
    pstep kw s (mkSys p' (<[i := TRSleep n]> (threads s)) (freed s) (sent s) (received s))
| p_close (writable : bool) p' fr :
    (if writable then writeopen (sp s) = true ∧ Forall (λ t, writing t = false) (threads s)
     else readopen (sp s) = true ∧ Forall (λ t, reading t = false) (threads s)) →
    pipeclose writable (sp s) = (p', fr) →
    pstep kw s (mkSys p' ((if writable then wake_nread else wake_nwrite) <$> threads s) fr
                  (sent s) (received s))
| p_kill i t :
    (* kill makes a sleeping process runnable *)
    threads s !! i = Some t →
    pstep kw s (mkSys (sp s) (<[i := wake_nread (wake_nwrite t)]> (threads s)) (freed s)
                  (sent s) (received s)).

Definition psys0 (junk : list Z) (n : nat) : psys := mkSys (pipe_init junk) (replicate n TIdle) false [] [].

Inductive preach (kw : bool) (junk : list Z) (n : nat) : psys → Prop :=
| pr_init : preach kw junk n (psys0 junk n)
| pr_step s s' : preach kw junk n s → pstep kw s s' → preach kw junk n s'.

(** ** The ring buffer *)

(** The pipe holds the bytes [q], oldest first. *)
Definition prep (p : pipe) (q : list Z) : Prop :=
  length (p_data p) = PIPESIZE ∧ 0 ≤ nread p < 2 ^ 32 ∧
  nwrite p = u32 (nread p + Z.of_nat (length q)) ∧ (length q ≤ PIPESIZE)%nat ∧
  ∀ i c, q !! i = Some c →
    p_data p !! Z.to_nat ((nread p + Z.of_nat i) `mod` Z.of_nat PIPESIZE) = Some c.

(** The counters wrap around without upsetting the index: 512 divides 2^32. *)
Lemma u32_mod_size z : u32 z `mod` Z.of_nat PIPESIZE = z `mod` Z.of_nat PIPESIZE.
Proof. unfold u32. apply Z.mod_mod_divide. exists (2 ^ 23). done. Qed.

Lemma u32_add_inj a x y : 0 ≤ x ≤ 512 → 0 ≤ y ≤ 512 → u32 (a + x) = u32 (a + y) → x = y.
Proof.
  intros Hx Hy E. unfold u32 in E.
  assert ((a + x - (a + y)) `mod` 2 ^ 32 = 0) as H by (rewrite Zminus_mod, E, Z.sub_diag; done).
  apply Z.mod_divide in H as [k Hk]; [|done]. lia.
Qed.

Lemma prep_full p q :
  prep p q → (nwrite p =? u32 (nread p + Z.of_nat PIPESIZE)) = (length q =? PIPESIZE)%nat.
Proof.
  intros (_ & _ & Hw & Hl & _). rewrite Hw. destruct (Nat.eqb_spec (length q) PIPESIZE) as [->|Hne].
  - apply Z.eqb_refl.
  - apply Z.eqb_neq. intros E. apply Hne, Nat2Z.inj. unfold PIPESIZE in *.
    apply (u32_add_inj (nread p)); lia || done.
Qed.

Lemma prep_empty p q : prep p q → (nread p =? nwrite p) = (length q =? 0)%nat.
Proof.
  intros (_ & Hr & Hw & Hl & _). rewrite Hw. destruct (Nat.eqb_spec (length q) 0) as [->|Hne].
  - rewrite Z.add_0_r, u32_small by done. apply Z.eqb_refl.
  - apply Z.eqb_neq. intros E. apply Hne, Nat2Z.inj. unfold PIPESIZE in *.
    apply (u32_add_inj (nread p)); [lia|lia|]. rewrite <-E, Z.add_0_r. symmetry. by apply u32_small.
Qed.

Lemma mod_size_ne a x y : 0 ≤ x < y → y < 512 → (a + x) `mod` 512 ≠ (a + y) `mod` 512.
Proof.
  intros Hx Hy E. assert ((a + x - (a + y)) `mod` 512 = 0) as H by (rewrite Zminus_mod, E, Z.sub_diag; done).
  apply Z.mod_divide in H as [k Hk]; [|done]. lia.
Qed.

Definition push (c : Z) (p : pipe) : pipe :=
  mkPipe (<[Z.to_nat (nwrite p `mod` Z.of_nat PIPESIZE) := c]> (p_data p))
    (nread p) (u32 (nwrite p + 1)) (readopen p) (writeopen p).

Lemma prep_push p q c : prep p q → (length q < PIPESIZE)%nat → prep (push c p) (q ++ [c]).
Proof.
  intros (Hd & Hr & Hw & Hl & Hq) Hlt. unfold prep, push. simpl. rewrite length_insert, length_app. simpl.
  split_and!; try done; try lia.
  - rewrite Hw. unfold u32. rewrite Zplus_mod_idemp_l. f_equal. lia.
  - rewrite Hw, u32_mod_size. intros i x [Hi|[-> ->]]%lookup_snoc_Some.
    + destruct Hi as [Hi Hx]. rewrite list_lookup_insert_ne; [by apply Hq|].
      change (Z.of_nat PIPESIZE) with 512. unfold PIPESIZE in *.
      pose proof (mod_size_ne (nread p) (Z.of_nat i) (Z.of_nat (length q))).
      pose proof (Z.mod_pos_bound (nread p + Z.of_nat i) 512).
      pose proof (Z.mod_pos_bound (nread p + Z.of_nat (length q)) 512). lia.
    + apply list_lookup_insert_eq. rewrite Hd. change (Z.of_nat PIPESIZE) with 512.
      pose proof (Z.mod_pos_bound (nread p + Z.of_nat (length q)) 512). unfold PIPESIZE. lia.
Qed.

Lemma prep_pop p c q :
  prep p (c :: q) →
  p_data p !!! Z.to_nat (nread p `mod` Z.of_nat PIPESIZE) = c ∧
  prep (mkPipe (p_data p) (u32 (nread p + 1)) (nwrite p) (readopen p) (writeopen p)) q.
Proof.
  intros (Hd & Hr & Hw & Hl & Hq). split.
  - apply list_lookup_total_correct. specialize (Hq 0%nat c eq_refl). by rewrite Z.add_0_r in Hq.
  - unfold prep. simpl in *. split_and!; try done; try lia.
    + apply u32_bound.
    + apply u32_bound.
    + rewrite Hw. unfold u32. rewrite Zplus_mod_idemp_l. f_equal. lia.
    + intros i x Hx. specialize (Hq (S i) x Hx).
      rewrite <-Hq. do 2 f_equal.
      rewrite <-Z.add_mod_idemp_l, u32_mod_size, Z.add_mod_idemp_l by done. f_equal. lia.
Qed.

(** ** Stretches *)
Definition same_ends (p p' : pipe) : Prop := readopen p' = readopen p ∧ writeopen p' = writeopen p.

(** A stretch of [pipewrite] appends the bytes it stores. *)
Lemma pipewrite_spec killed bytes : ∀ p q p' e,
  prep p q → pipewrite killed bytes p = (p', e) →
  let w := stored bytes (unwritten bytes p) in
  prep p' (q ++ w) ∧ same_ends p p' ∧ bytes = w ++ unwritten bytes p ∧
  match e with
  | WDone => unwritten bytes p = []
  | WFail => (readopen p = false ∨ killed = true) ∧ length (q ++ w) = PIPESIZE
  | WSleep rest => rest = unwritten bytes p ∧ rest ≠ [] ∧ length (q ++ w) = PIPESIZE ∧
      readopen p = true ∧ killed = false
  end.
Proof.
  induction bytes as [|c bytes IH]; intros p q p' e Hp; simpl.
  { intros [= <- <-]. rewrite app_nil_r. done. }
  rewrite (prep_full _ _ Hp). destruct (Nat.eqb_spec (length q) PIPESIZE) as [Hf|Hf].
  - unfold stored. simpl. rewrite Nat.sub_diag. intros H. rewrite app_nil_r.
    destruct (readopen p) eqn:Er, killed; simpl in H; injection H as <- <-; unfold same_ends; naive_solver.
  - pose proof Hp as (_ & _ & _ & Hl & _). intros H.
    destruct (IH (push c p) (q ++ [c]) p' e) as (Hp' & He & Hb & Hres); [apply prep_push; [done|lia]|exact H|].
    fold (push c p). set (u := unwritten bytes (push c p)) in *.
    assert (length u ≤ length bytes)%nat as Hu by (rewrite Hb, length_app; lia).
    assert (stored (c :: bytes) u = c :: stored bytes u) as ->.
    { unfold stored. simpl length. by replace (S (length bytes) - length u)%nat with (S (length bytes - length u)) by lia. }
    rewrite <-app_assoc in Hp', Hres. simpl in *. rewrite <-Hb. done.
Qed.

(** The copy loop takes bytes from the front. *)
Lemma piperead_copy_spec n : ∀ p q p' l,
  prep p q → piperead_copy n p = (p', l) →
  l = take n q ∧ prep p' (drop n q) ∧ same_ends p p'.
Proof.
  induction n as [|n IH]; intros p q p' l Hp; simpl.
  { intros [= <- <-]. by rewrite take_0, drop_0. }
  rewrite (prep_empty _ _ Hp). destruct q as [|c q]; simpl; [by intros [= <- <-]|].
  destruct (prep_pop _ _ _ Hp) as [-> Hp1].
  destruct (piperead_copy n _) as [p1 l1] eqn:E. intros [= <- <-].
  destruct (IH _ _ _ _ Hp1 E) as (-> & Hp' & He). done.
Qed.

Lemma piperead_spec killed n p q p' e :
  prep p q → piperead killed n p = (p', e) →
  match e with
  | RDone l => l = take n q ∧ prep p' (drop n q) ∧ same_ends p p' ∧ (q = [] → writeopen p = false)
  | RFail | RSleep => p' = p ∧ q = [] ∧ writeopen p = true
  end.
Proof.
  intros Hp. unfold piperead. rewrite (prep_empty _ _ Hp).
  destruct (Nat.eqb_spec (length q) 0) as [->%nil_length_inv|Hne]; simpl.
  - destruct (writeopen p) eqn:Ew; [by destruct killed; intros [= <- <-]|].
    destruct (piperead_copy n p) as [p1 l1] eqn:E. intros [= <- <-].
    destruct (piperead_copy_spec _ _ _ _ _ Hp E) as (-> & ? & ?). done.
  - destruct (piperead_copy n p) as [p1 l1] eqn:E. intros [= <- <-].
    destruct (piperead_copy_spec _ _ _ _ _ Hp E) as (-> & ? & ?). split_and!; try done. by intros ->.
Qed.

(** ** The invariant of the system *)
Definition fifo (s : psys) (q : list Z) : Prop := prep (sp s) q ∧ sent s = received s ++ q.

Record ends (s : psys) : Prop := {
  en_read : ∀ i t, threads s !! i = Some t → reading t = true → readopen (sp s) = true;
  en_write : ∀ i t, threads s !! i = Some t → writing t = true → writeopen (sp s) = true;
}.

(** Who is asleep, and why. *)
Definition asleep (s : psys) (q : list Z) : Prop :=
  (∀ i n, threads s !! i = Some (TRSleep n) → q = [] ∧ writeopen (sp s) = true) ∧
  (∀ i l, threads s !! i = Some (TWSleep l) → length q = PIPESIZE ∧ readopen (sp s) = true).

Lemma upd_lookup (f : thread → thread) (ts : list thread) (i : nat) t' (j : nat) t :
  (f <$> <[i := t']> ts) !! j = Some t → ∃ t0, t = f t0 ∧ (t0 = t' ∨ ts !! j = Some t0).
Proof.
  rewrite list_lookup_fmap. intros (t0 & Hj & ->)%fmap_Some. exists t0. split; [done|].
  apply list_lookup_insert_Some in Hj as [(_ & -> & _)|[_ ?]]; auto.
Qed.

Lemma wake_reading t : reading (wake_nread t) = reading t ∧ reading (wake_nwrite t) = reading t ∧
  writing (wake_nread t) = writing t ∧ writing (wake_nwrite t) = writing t.
Proof. by destruct t. Qed.

(** A step that keeps the ends open and changes thread [i] to one that uses
    them no more than before. *)
Lemma ends_step s p' i t t' (f : thread → thread) fr sn rc :
  ends s → same_ends (sp s) p' → threads s !! i = Some t →
  (∀ x, reading (f x) = reading x ∧ writing (f x) = writing x) →
  (reading t' = true → reading t = true ∨ readopen (sp s) = true) →
  (writing t' = true → writing t = true ∨ writeopen (sp s) = true) →
  ends (mkSys p' (f <$> <[i := t']> (threads s)) fr sn rc).
Proof.
  intros [Hr Hw] [Er Ew] Ht Hf H1 H2. constructor; simpl; intros j x (t0 & -> & Hx)%upd_lookup;
    rewrite (proj1 (Hf t0)) || rewrite (proj2 (Hf t0)); intros Hu; rewrite ?Er, ?Ew.
  - destruct Hx as [->|Hx]; [|by eapply Hr]. destruct (H1 Hu); [by eapply Hr|done].
  - destruct Hx as [->|Hx]; [|by eapply Hw]. destruct (H2 Hu); [by eapply Hw|done].
Qed.

Lemma fmap_id_threads (ts : list thread) : (λ t : thread, t) <$> ts = ts.
Proof. apply list_fmap_id. Qed.

Definition pinv (kw : bool) (s : psys) : Prop :=
  ∃ q, fifo s q ∧ ends s ∧ (kw = false → asleep s q).

Lemma same_ends_refl p : same_ends p p.
Proof. done. Qed.

(** Sleepers after thread [i] became [t'] and [f] was applied to all. *)
Lemma asleep_step s p' i t' (f : thread → thread) fr sn rc q q' :
  asleep s q →
  (∀ x n, f x = TRSleep n → x = TRSleep n) → (∀ x l, f x = TWSleep l → x = TWSleep l) →
  ((∀ x n, f x ≠ TRSleep n) ∨
     ((∀ n, t' ≠ TRSleep n) ∨ (q' = [] ∧ writeopen p' = true)) ∧ (q = [] → writeopen (sp s) = true →
       (∃ n, TRSleep n ∈ threads s) → q' = [] ∧ writeopen p' = true)) →
  ((∀ x l, f x ≠ TWSleep l) ∨
     ((∀ l, t' ≠ TWSleep l) ∨ (length q' = PIPESIZE ∧ readopen p' = true)) ∧
      (length q = PIPESIZE → readopen (sp s) = true → (∃ l, TWSleep l ∈ threads s) →
       length q' = PIPESIZE ∧ readopen p' = true)) →
  asleep (mkSys p' (f <$> <[i := t']> (threads s)) fr sn rc) q'.
Proof.
  intros [Ha Hb] Hfr Hfw HR HW. split; simpl; intros j x (t0 & Hx & Ht0)%upd_lookup.
  - destruct HR as [HR|[HR1 HR2]]; [by destruct (HR t0 x)|].
    symmetry in Hx. apply Hfr in Hx as ->. destruct Ht0 as [<-|Ht0]; [naive_solver|].
    destruct (Ha _ _ Ht0). apply HR2; [done..|]. exists x. by eapply list_elem_of_lookup_2.
  - destruct HW as [HW|[HW1 HW2]]; [by destruct (HW t0 x)|].
    symmetry in Hx. apply Hfw in Hx as ->. destruct Ht0 as [<-|Ht0]; [naive_solver|].
    destruct (Hb _ _ Ht0). apply HW2; [done..|]. exists x. by eapply list_elem_of_lookup_2.
Qed.

(** The two ways in which [f] acts on sleepers. *)
Lemma wake_nread_no x n : wake_nread x ≠ TRSleep n.
Proof. by destruct x. Qed.
Lemma wake_nwrite_no x l : wake_nwrite x ≠ TWSleep l.
Proof. by destruct x. Qed.
Lemma wake_inv x : (∀ n, wake_nwrite x = TRSleep n → x = TRSleep n) ∧ (∀ l, wake_nread x = TWSleep l → x = TWSleep l).
Proof. by destruct x. Qed.

Lemma prep_len p q w : prep p (q ++ w) → length q = PIPESIZE → length (q ++ w) = PIPESIZE.
Proof. intros (_ & _ & _ & H & _) Hq. rewrite length_app in *. lia. Qed.

Lemma write_inv kw s i bytes killed p' e t' f fr :
  pinv kw s → threads s !! i = Some (TWrite bytes) → (killed = true → kw = true) →
  pipewrite killed bytes (sp s) = (p', e) →
  match e with
  | WDone => t' = TIdle ∧ f = wake_nread
  | WFail => t' = TIdle ∧ f = (λ t, t)
  | WSleep rest => t' = TWSleep rest ∧ f = wake_nread
  end →
  pinv kw (mkSys p' (f <$> <[i := t']> (threads s)) fr
    (sent s ++ stored bytes (unwritten bytes (sp s))) (received s)).
Proof.
  intros (q & [Hp Hs] & He & Ha) Ht Hk Hw Hf.
  destruct (pipewrite_spec _ _ _ _ _ _ Hp Hw) as (Hp' & Hse & _ & Hres). eexists.
  split; [split; [exact Hp'|simpl; by rewrite Hs, <-app_assoc]|]. split.
  - eapply ends_step; [done|done|done|..].
    + intros x. destruct e; destruct Hf as [_ ->]; try done; by destruct (wake_reading x) as (?&?&?&?).
    + destruct e; by destruct Hf as [-> _].
    + destruct e; destruct Hf as [-> _]; auto.
  - intros Hkw. specialize (Ha Hkw).
    assert (killed = false) as -> by (destruct killed; [naive_solver|done]).
    destruct Hse as [Er Ew]. apply (asleep_step _ _ _ _ _ _ _ _ q); [done|..].
    + intros x n Hx. destruct e; destruct Hf as [_ ->]; try done; by destruct (wake_nread_no x n).
    + intros x n Hx. destruct e; destruct Hf as [_ ->]; try done; by apply wake_inv.
    + destruct e; destruct Hf as [-> ->]; [left; apply wake_nread_no| |left; apply wake_nread_no].
      right. split; [by left|]. intros _ _ [n Hn]. exfalso.
      apply list_elem_of_lookup in Hn as [j Hj]. pose proof (en_read _ He j _ Hj eq_refl).
      destruct Hres as [[?|?] _]; congruence.
    + right. rewrite Er. split; [|intros Hq Hro _; split; [by eapply prep_len|done]].
      destruct e; destruct Hf as [-> _]; [by left|by left|]. right. naive_solver.
Qed.

Lemma read_inv kw s i n killed p' e t' f fr rc :
  pinv kw s → threads s !! i = Some (TRead n) → piperead killed n (sp s) = (p', e) →
  match e with
  | RDone l => t' = TIdle ∧ f = wake_nwrite ∧ rc = received s ++ l
  | RFail => t' = TIdle ∧ f = (λ t, t) ∧ rc = received s
  | RSleep => t' = TRSleep n ∧ f = (λ t, t) ∧ rc = received s
  end →
  pinv kw (mkSys p' (f <$> <[i := t']> (threads s)) fr (sent s) rc).
Proof.
  intros (q & [Hp Hs] & He & Ha) Ht Hr Hf. pose proof (piperead_spec _ _ _ _ _ _ Hp Hr) as Hres.
  destruct e as [l| |]; destruct Hf as (-> & -> & ->).
  - destruct Hres as (-> & Hp' & Hse & Hw). exists (drop n q). split.
    { split; [done|]. simpl. by rewrite Hs, <-app_assoc, take_drop. }
    split.
    + eapply ends_step; [done|done|done|..]; try done.
      intros x. by destruct (wake_reading x) as (?&?&?&?).
    + intros Hkw. apply (asleep_step _ _ _ _ _ _ _ _ q); [by apply Ha|..].
      * intros x m. apply wake_inv.
      * intros x m Hx. by destruct (wake_nwrite_no x m).
      * right. split; [by left|]. intros Hq Ho. rewrite (Hw Hq) in Ho. done.
      * left. apply wake_nwrite_no.
  - destruct Hres as (-> & -> & Hw). exists []. split; [done|]. split.
    + eapply ends_step; [done|done|done|..]; done.
    + intros Hkw. apply (asleep_step _ _ _ _ _ _ _ _ []); [by apply Ha|done|done|right..]; naive_solver.
  - destruct Hres as (-> & -> & Hw). exists []. split; [done|]. split.
    + eapply ends_step; [done|done|done|done|by left|done].
    + intros Hkw. apply (asleep_step _ _ _ _ _ _ _ _ []); [by apply Ha|done|done|right..]; naive_solver.
Qed.

Lemma close_inv kw s (writable : bool) p' fr :
  pinv kw s →
  (if writable then writeopen (sp s) = true ∧ Forall (λ t, writing t = false) (threads s)
   else readopen (sp s) = true ∧ Forall (λ t, reading t = false) (threads s)) →
  pipeclose writable (sp s) = (p', fr) →
  pinv kw (mkSys p' ((if writable then wake_nread else wake_nwrite) <$> threads s) fr (sent s) (received s)).
Proof.
  intros (q & [Hp Hs] & [Hr Hw] & Ha) Hc [= <- <-]. exists q. split.
  { split; [|done]. simpl. by destruct writable. }
  assert (Hlook : ∀ j t, ((if writable then wake_nread else wake_nwrite) <$> threads s) !! j = Some t →
    ∃ t0, threads s !! j = Some t0 ∧ t = (if writable then wake_nread else wake_nwrite) t0).
  { intros j t. rewrite list_lookup_fmap. intros (t0 & ? & ->)%fmap_Some. eauto. }
  destruct writable; destruct Hc as [Ho Hall]; rewrite Forall_lookup in Hall.
  - split; [constructor|]; simpl.
    + intros j t (t0 & Hj & ->)%Hlook. rewrite (proj1 (wake_reading t0)). by eapply Hr.
    + intros j t (t0 & Hj & ->)%Hlook. destruct (wake_reading t0) as (_ & _ & -> & _).
      by rewrite (Hall _ _ Hj).
    + intros Hkw. split; simpl; intros j x (t0 & Hj & Hx)%Hlook.
      * by destruct (wake_nread_no t0 x).
      * symmetry in Hx. apply wake_inv in Hx as ->. by specialize (Hall _ _ Hj).
  - split; [constructor|]; simpl.
    + intros j t (t0 & Hj & ->)%Hlook. destruct (wake_reading t0) as (_ & -> & _).
      by rewrite (Hall _ _ Hj).
    + intros j t (t0 & Hj & ->)%Hlook. destruct (wake_reading t0) as (_ & _ & _ & ->). by eapply Hw.
    + intros Hkw. split; simpl; intros j x (t0 & Hj & Hx)%Hlook.
      * symmetry in Hx. apply wake_inv in Hx as ->. by specialize (Hall _ _ Hj).
      * by destruct (wake_nwrite_no t0 x).
Qed.

Lemma pinv_step kw s s' : pinv kw s → pstep kw s s' → pinv kw s'.
Proof.
  intros Hinv Hstep. pose proof Hinv as (q & [Hp Hs] & He & Ha).
  destruct Hstep as [i bytes Ho Ht|i n Ho Ht|i bytes killed p' Ht Hk Hw|i bytes killed p' Ht Hk Hw
    |i bytes killed p' rest Ht Hk Hw|i n killed p' l Ht Hr|i n killed p' Ht Hr|i n killed p' Ht Hr
    |writable p' fr Hc Hcl|i t Ht].
  - exists q. rewrite <-(fmap_id_threads (<[i := _]> _)). split; [done|]. split.
    + eapply ends_step; [done|done|done|done|done|by right].
    + intros Hkw. apply (asleep_step _ _ _ _ _ _ _ _ q); auto; right; naive_solver.
  - exists q. rewrite <-(fmap_id_threads (<[i := _]> _)). split; [done|]. split.
    + eapply ends_step; [done|done|done|done|by right|done].
    + intros Hkw. apply (asleep_step _ _ _ _ _ _ _ _ q); auto; right; naive_solver.
  - by eapply write_inv.
  - rewrite <-(fmap_id_threads (<[i := _]> _)). by eapply write_inv.
  - by eapply write_inv.
  - by eapply read_inv.
  - rewrite <-(fmap_id_threads (<[i := _]> _)). by eapply read_inv.
  - rewrite <-(fmap_id_threads (<[i := _]> _)). by eapply read_inv.
  - by eapply close_inv.
  - exists q. rewrite <-(fmap_id_threads (<[i := _]> _)). split; [done|]. split.
    + eapply ends_step; [done|done|done|done|..]; destruct t; auto.
    + intros Hkw. apply (asleep_step _ _ _ _ _ _ _ _ q); auto; right; destruct t; naive_solver.
Qed.

Lemma preach_pinv kw junk n s : length junk = PIPESIZE → preach kw junk n s → pinv kw s.
Proof.
  intros Hj. induction 1 as [|s s' _ IH Hs]; [|by eapply pinv_step].
  assert (Hidle : ∀ i t, threads (psys0 junk n) !! i = Some t → t = TIdle).
  { intros i t Hi. by apply lookup_replicate in Hi as [-> _]. }
  exists []. split; [|split].
  - split; [|done]. unfold prep. simpl. split_and!; try done; lia.
  - constructor; intros i t ->%Hidle; done.
  - intros _. split; intros i t Hi%Hidle; done.
Qed.

(** C15: a pipe is a queue. For any number of threads that write, read, sleep,
    are woken or killed in any order, and whatever the counters did (they wrap
    at 2^32), the bytes received are a prefix of the bytes sent, in order, and
    the bytes in between, at most [PIPESIZE] of them, are the ones the counters
    describe: no byte is lost, duplicated, reordered or overwritten. *)
Theorem pipe_fifo kw junk n s :
  length junk = PIPESIZE → preach kw junk n s →
  ∃ q, sent s = received s ++ q ∧ (length q ≤ PIPESIZE)%nat ∧
    nwrite (sp s) = u32 (nread (sp s) + Z.of_nat (length q)) ∧
    ∀ i c, q !! i = Some c →
      p_data (sp s) !! Z.to_nat ((nread (sp s) + Z.of_nat i) `mod` Z.of_nat PIPESIZE) = Some c.
Proof.
  intros Hj Hs. destruct (preach_pinv _ _ _ _ Hj Hs) as (q & [(_ & _ & Hw & Hl & Hq) Hsent] & _).
  exists q. done.
Qed.

(** C16: no wakeup is lost, as long as no thread is killed inside [pipewrite]:
    a thread asleep in [piperead] means the pipe is empty and its write end
    open, a thread asleep in [pipewrite] means it is full and its read end
    open; so a reader and a writer are never asleep at the same time. *)
Theorem pipe_no_lost_wakeup junk n s :
  length junk = PIPESIZE → preach false junk n s →
  (∀ i k, threads s !! i = Some (TRSleep k) → sent s = received s ∧ writeopen (sp s) = true) ∧
  (∀ i l, threads s !! i = Some (TWSleep l) →
    length (sent s) = (length (received s) + PIPESIZE)%nat ∧ readopen (sp s) = true) ∧
  (∀ i j k l, threads s !! i = Some (TRSleep k) → threads s !! j = Some (TWSleep l) → False).
Proof.
  intros Hj Hs. destruct (preach_pinv _ _ _ _ Hj Hs) as (q & [_ Hsent] & _ & Ha).
  destruct (Ha eq_refl) as [H1 H2]. split_and!.
  - intros i k Hi. destruct (H1 _ _ Hi) as [-> ?]. by rewrite Hsent, app_nil_r.
  - intros i l Hi. destruct (H2 _ _ Hi) as [Hq ?]. by rewrite Hsent, length_app, Hq.
  - intros i j k l Hi Hj'. destruct (H1 _ _ Hi) as [-> _]. destruct (H2 _ _ Hj') as [Hq _]. done.
Qed.

(** Two threads: thread 1 goes to sleep in [piperead], thread 0 writes. *)
Definition zeros : list Z := replicate PIPESIZE 0.

Lemma run_sleep_write kw bytes killed p' e :
  pipewrite killed bytes (pipe_init zeros) = (p', e) → (killed = true → kw = true) →
  ∃ s, preach kw zeros 2 s ∧ threads s = [TWrite bytes; TRSleep 4] ∧ sp s = pipe_init zeros ∧
    sent s = [] ∧ received s = [].
Proof.
  intros Hw Hk. pose proof (pr_init kw zeros 2) as H.
  eapply pr_step in H; [|by eapply (p_call_read _ _ 1%nat 4)].
  eapply pr_step in H; [|by eapply (p_read_sleep _ _ 1%nat 4 false)].
  eapply pr_step in H; [|by eapply (p_call_write _ _ 0%nat bytes)].
  eexists. split; [exact H|]. done.
Qed.

Lemma pipe_fifo_witness :
  ∃ s q, preach false zeros 2 s ∧ received s = [7; 8] ∧ sent s = received s ++ q ∧ q = [9].
Proof.
  destruct (run_sleep_write false [7; 8; 9] false _ _ eq_refl) as (s & H & Ht & Hp & Hs & Hr); [done|].
  eapply pr_step in H; [|eapply (p_write_done _ _ 0%nat [7; 8; 9] false); [by rewrite Ht|done|by rewrite Hp]].
  rewrite Ht, Hp, Hs, Hr in H.
  eapply pr_step in H; [|by eapply (p_call_read _ _ 0%nat 2)].
  eapply pr_step in H; [|by eapply (p_read_done _ _ 0%nat 2 false)].
  eexists. destruct (pipe_fifo _ _ _ _ (length_replicate _ _) H) as (q & Hq & _).
  exists q. split; [exact H|]. split; [done|]. split; [done|]. simpl in Hq. by injection Hq.
Defined.

Lemma pipe_no_lost_wakeup_witness :
  ∃ s, preach false zeros 2 s ∧ threads s !! 1%nat = Some (TRSleep 4) ∧ sent s = received s.
Proof.
  destruct (run_sleep_write false [7] false _ _ eq_refl) as (s & H & Ht & _); [done|].
  exists s. assert (threads s !! 1%nat = Some (TRSleep 4)) as H1 by by rewrite Ht.
  split; [exact H|]. split; [exact H1|].
  exact (proj1 (proj1 (pipe_no_lost_wakeup zeros 2 s (length_replicate _ _) H) 1%nat 4%nat H1)).
Defined.

(** A writer that is killed in the loop returns without the [wakeup] of
    [&p->nread]: the reader stays asleep on a pipe that is full. *)
Theorem pipe_killed_writer_loses_wakeup :
  ∃ s, preach true zeros 2 s ∧ threads s = [TIdle; TRSleep 4] ∧ length (sent s) = PIPESIZE ∧ received s = [].
Proof.
  destruct (run_sleep_write true (replicate (S PIPESIZE) 7) true
    (pipewrite true (replicate (S PIPESIZE) 7) (pipe_init zeros)).1 WFail) as (s & H & Ht & Hp & Hs & Hr);
    [vm_compute; reflexivity|done|].
  eapply pr_step in H; [|eapply (p_write_fail _ _ 0%nat (replicate (S PIPESIZE) 7) true);
    [by rewrite Ht|done|by rewrite Hp; vm_compute; reflexivity]].
  eexists. split; [exact H|]. clear H. cbn [threads sent received]. rewrite Ht, Hp, Hs, Hr.
  split; [reflexivity|]. split; [vm_compute; reflexivity|reflexivity].
Qed.
