(* ===== verification/Buf.v ===== *)
(** * Disk buffers and the block device (buf.h, memide.c)

    [struct buf], the state shared by the buffer cache and the disk driver, the
    interface [BlockDev] that a disk driver promises to the cache, and the
    memory disk of memide.c as one implementation of it. *)

From S2P Require Import Prelude.

Abbreviation block := (list Z).

Definition BSIZE : nat := 512.
Definition NBUF : nat := 10.
Definition ROOTDEV : Z := 1.
#[global] Arguments BSIZE : simpl never.
#[global] Arguments NBUF : simpl never.

(** buf.h: the state flags of a buffer. *)
Definition B_BUSY : Z := 1.
Definition B_VALID : Z := 2.
Definition B_DIRTY : Z := 4.

(** [struct buf]. A pointer to a buffer is its index in [bcache.buf], and
    [NBUF] is the list head [bcache.head]. The disk queue link [qnext] belongs
    to the driver and is not part of the record. *)
Record buf := mkBuf {
  b_flags : Z;
  b_dev : Z;
  b_sector : Z;
  b_prev : nat;
  b_next : nat;
  b_data : block;
}.

Definition set_flags (f : Z) (B : buf) : buf :=
  mkBuf f (b_dev B) (b_sector B) (b_prev B) (b_next B) (b_data B).
Definition set_prev (p : nat) (B : buf) : buf :=
  mkBuf (b_flags B) (b_dev B) (b_sector B) p (b_next B) (b_data B).
Definition set_next (p : nat) (B : buf) : buf :=
  mkBuf (b_flags B) (b_dev B) (b_sector B) (b_prev B) p (b_data B).
Definition set_data (d : block) (B : buf) : buf :=
  mkBuf (b_flags B) (b_dev B) (b_sector B) (b_prev B) (b_next B) d.
Definition set_key (d z : Z) (B : buf) : buf :=
  mkBuf (b_flags B) d z (b_prev B) (b_next B) (b_data B).

(** A flag test [f & m]. *)
Definition fl_test (f m : Z) : bool := negb (Z.land f m =? 0).

(** The buffers (with the list head last), the sectors of the disk, and the
    trace of sector writes in the order in which the disk saw them. The trace
    is history for the crash theorems; no operation reads it. *)
Record bst := mkBst {
  bufs : list buf;
  disk : list block;
  trace : list (Z * block);
}.

Definition set_bufs (l : list buf) (s : bst) : bst := mkBst l (disk s) (trace s).

Definition getbuf (b : nat) : M bst buf := λ s,
  match bufs s !! b with Some B => Ok B s | None => Err Undef s end.
Definition updbuf (b : nat) (f : buf → buf) : M bst unit := λ s,
  match bufs s !! b with
  | Some B => Ok tt (set_bufs (<[b := f B]> (bufs s)) s)
  | None => Err Undef s
  end.
Definition disk_write (z : Z) (d : block) : M bst unit :=
  modify (λ s, mkBst (bufs s) (<[Z.to_nat z := d]> (disk s)) (trace s ++ [(z, d)])).
Definition disk_read (z : Z) : M bst block := λ s,
  match disk s !! Z.to_nat z with Some d => Ok d s | None => Err Undef s end.

(** memide.c: [iderw] on the memory disk; [disksize] is the number of sectors
    of the image. *)
Definition memide_iderw (b : nat) : M bst unit :=
  B ← getbuf b;
  if negb (fl_test (b_flags B) B_BUSY) then panic "iderw: buf not busy" else
  if Z.land (b_flags B) (Z.lor B_VALID B_DIRTY) =? B_VALID
  then panic "iderw: nothing to do" else
  if negb (b_dev B =? 1) then panic "iderw: request not for disk 1" else
  disksize ← gets (λ s, Z.of_nat (length (disk s)));
  if b_sector B >=? disksize then panic "iderw: sector out of range" else
  (if fl_test (b_flags B) B_DIRTY then
     updbuf b (λ B, set_flags (Z.land (b_flags B) (Z.lnot B_DIRTY)) B);;
     disk_write (b_sector B) (b_data B)
   else
     d ← disk_read (b_sector B);
     updbuf b (set_data d));;
  updbuf b (λ B, set_flags (Z.lor (b_flags B) B_VALID) B).

(** ** The interface: what [iderw] promises.

    "If B_DIRTY is set, write buf to disk, clear B_DIRTY, set B_VALID.  Else if
    B_VALID is not set, read buf from disk, set B_VALID." *)
Definition sync_buf (b : nat) (B : buf) (s : bst) : bst :=
  if fl_test (b_flags B) B_DIRTY then
    mkBst (<[b := set_flags (Z.lor (Z.land (b_flags B) (Z.lnot B_DIRTY)) B_VALID) B]> (bufs s))
          (<[Z.to_nat (b_sector B) := b_data B]> (disk s))
          (trace s ++ [(b_sector B, b_data B)])
  else
    mkBst (<[b := set_flags (Z.lor (b_flags B) B_VALID)
                    (set_data (disk s !!! Z.to_nat (b_sector B)) B)]> (bufs s))
          (disk s) (trace s).

(** The most sectors that a drive can address: a sector number has 28 bits. *)
Abbreviation max_sectors := (2 ^ 28).

Class BlockDev := {
  iderw : nat → M bst unit;
  iderw_spec : ∀ b B s,
    bufs s !! b = Some B →
    fl_test (b_flags B) B_BUSY = true →
    Z.land (b_flags B) (Z.lor B_VALID B_DIRTY) ≠ B_VALID →
    b_dev B = 1 →
    0 ≤ b_sector B < Z.of_nat (length (disk s)) → Z.of_nat (length (disk s)) ≤ max_sectors →
    iderw b s = Ok tt (sync_buf b B s);
}.

(** ** Flags *)
Lemma fl_test_pow2 f k : 0 ≤ k → fl_test f (2 ^ k) = Z.testbit f k.
Proof.
  intros Hk. unfold fl_test. destruct (Z.testbit f k) eqn:E.
  - apply negb_true_iff, Z.eqb_neq. intros H%(f_equal (λ z, Z.testbit z k)).
    rewrite Z.land_spec, Z.pow2_bits_true, E, Z.bits_0 in H by done. done.
  - apply negb_false_iff, Z.eqb_eq, Z.bits_inj'. intros n Hn.
    rewrite Z.land_spec, Z.bits_0, Z.pow2_bits_eqb by done.
    destruct (Z.eqb_spec k n) as [<-|]; [by rewrite E|by rewrite andb_false_r].
Qed.

Lemma fl_busy f : fl_test f B_BUSY = Z.testbit f 0.
Proof. by apply (fl_test_pow2 f 0). Qed.
Lemma fl_valid f : fl_test f B_VALID = Z.testbit f 1.
Proof. by apply (fl_test_pow2 f 1). Qed.
Lemma fl_dirty f : fl_test f B_DIRTY = Z.testbit f 2.
Proof. by apply (fl_test_pow2 f 2). Qed.

Create Rewrite HintDb flags.
#[export] Hint Rewrite fl_busy fl_valid fl_dirty Z.lor_spec Z.land_spec Z.lnot_spec
  andb_true_r andb_false_r orb_true_r orb_false_r using lia : flags.

Ltac flags :=
  autorewrite with flags in *; cbn in *; autorewrite with flags in *.

(** The memory disk keeps the promise. *)
Lemma memide_iderw_spec b B s :
  bufs s !! b = Some B →
  fl_test (b_flags B) B_BUSY = true →
  Z.land (b_flags B) (Z.lor B_VALID B_DIRTY) ≠ B_VALID →
  b_dev B = 1 →
  0 ≤ b_sector B < Z.of_nat (length (disk s)) → Z.of_nat (length (disk s)) ≤ max_sectors →
  memide_iderw b s = Ok tt (sync_buf b B s).
Proof.
  intros HB Hbusy Hflags Hdev Hsec _.
  pose proof (lookup_lt_Some _ _ _ HB) as Hlt.
  apply Z.eqb_neq in Hflags.
  assert ((b_sector B >=? Z.of_nat (length (disk s))) = false) as Hr by lia.
  assert (is_Some (disk s !! Z.to_nat (b_sector B))) as [d Hd]
    by (apply lookup_lt_is_Some; lia).
  unfold memide_iderw, sync_buf, getbuf, mbind, M_bind. rewrite HB, Hbusy, Hflags, Hdev.
  simpl. rewrite Hr. unfold updbuf.
  destruct (fl_test (b_flags B) B_DIRTY) eqn:Hdirty; simpl.
  - rewrite HB. simpl. rewrite list_lookup_insert_eq by done. simpl.
    unfold set_bufs. simpl. by rewrite list_insert_insert_eq.
  - unfold disk_read. rewrite Hd, HB. simpl. rewrite list_lookup_insert_eq by done. simpl.
    unfold set_bufs. simpl. rewrite list_insert_insert_eq.
    by rewrite (list_lookup_total_correct _ _ _ Hd).
Qed.

#[export] Instance memide : BlockDev := {|
  iderw := memide_iderw;
  iderw_spec := memide_iderw_spec;
|}.
