(* ===== verification/Ide.v ===== *)
(** * The IDE disk driver (ide.c)

    The queue of requests threaded through the buffers, the commands sent to
    the controller through its ports, and the interrupt handler. The controller
    is the ATA task file: a write to port 0x1f7 starts a command on the drive
    and the 28-bit sector number of the other registers; when the drive is done
    it raises the interrupt. The answers of the status port are arguments of the
    operations that poll it: one for each turn of the loop of idewait. *)

From S2P Require Import Prelude Buf.

Definition IDE_BSY : Z := 0x80.
Definition IDE_DRDY : Z := 0x40.
Definition IDE_DF : Z := 0x20.
Definition IDE_ERR : Z := 0x01.
Definition IDE_CMD_READ : Z := 0x20.
Definition IDE_CMD_WRITE : Z := 0x30.

(** The controller: its registers by port, and the data of a write. *)
Record ctrl := mkCtrl {
  c_regs : gmap Z Z;
  c_busy : bool;
  c_data : block;
}.

(** The state of the driver; [qnext] is the queue link of every buffer. *)
Record ide := mkIde {
  ib : bst;
  qnext : list (option nat);
  idequeue : option nat;
  havedisk1 : bool;
  hw : ctrl;
}.

#[export] Instance bst_ide : Layer bst ide := {|
  low := ib; set_low s t := mkIde s (qnext t) (idequeue t) (havedisk1 t) (hw t);
  low_set := λ s t, eq_refl; set_set_low := λ s s' t, eq_refl;
|}.

Definition set_hw (c : ctrl) (t : ide) : ide := mkIde (ib t) (qnext t) (idequeue t) (havedisk1 t) c.
Definition set_queue (q : option nat) (t : ide) : ide := mkIde (ib t) (qnext t) q (havedisk1 t) (hw t).
Definition set_qnext (b : nat) (q : option nat) (t : ide) : ide :=
  mkIde (ib t) (<[b := q]> (qnext t)) (idequeue t) (havedisk1 t) (hw t).

(** ** Ports *)
Definition outb (port data : Z) : M ide unit :=
  modify (λ t, set_hw (mkCtrl (<[port := u8 data]> (c_regs (hw t)))
                         (if port =? 0x1f7 then true else c_busy (hw t)) (c_data (hw t))) t).
Definition outsl (d : block) : M ide unit :=
  modify (λ t, set_hw (mkCtrl (c_regs (hw t)) (c_busy (hw t)) d) t).

(** The drive and the sector that the registers select. *)
Definition c_drive (c : ctrl) : Z := Z.land (Z.shiftr (c_regs c !!! 0x1f6) 4) 1.
Definition c_sector (c : ctrl) : Z :=
  c_regs c !!! 0x1f3 + 2 ^ 8 * (c_regs c !!! 0x1f4) + 2 ^ 16 * (c_regs c !!! 0x1f5)
  + 2 ^ 24 * Z.land (c_regs c !!! 0x1f6) 0x0f.

(** The controller finishes its command on drive 1: a write reaches the disk,
    unless the drive has [failed]. *)
Definition hw_complete (failed : bool) : M ide unit := λ t,
  let c := hw t in
  let t' := set_hw (mkCtrl (c_regs c) false (c_data c)) t in
  if (c_drive c =? 1) && (c_regs c !!! 0x1f7 =? IDE_CMD_WRITE) && negb failed
  then lift (disk_write (c_sector c) (c_data c)) t' else Ok tt t'.
(** [insl] of the data of a read. *)
Definition insl : M ide block := λ t,
  let c := hw t in
  if c_drive c =? 1 then lift (disk_read (c_sector c)) t else Err Undef t.

(** ** The driver *)

(** The loop reads the status until the drive is ready. *)
Fixpoint idewait (ps : list Z) (checkerr : bool) : M ide Z :=
  match ps with
  | [] => stopM NoFuel
  | r :: ps' =>
      if negb (Z.land r (Z.lor IDE_BSY IDE_DRDY) =? IDE_DRDY) then idewait ps' checkerr
      else if checkerr && negb (Z.land r (Z.lor IDE_DF IDE_ERR) =? 0) then mret (-1) else mret 0
  end.

Definition idestart (ps : list Z) (b : option nat) : M ide unit :=
  match b with
  | None => panic "idestart"
  | Some b =>
      idewait ps false;;
      B ← lift (getbuf b);
      outb 0x3f6 0;;
      outb 0x1f2 1;;
      outb 0x1f3 (Z.land (b_sector B) 0xff);;
      outb 0x1f4 (Z.land (Z.shiftr (b_sector B) 8) 0xff);;
      outb 0x1f5 (Z.land (Z.shiftr (b_sector B) 16) 0xff);;
      outb 0x1f6 (Z.lor (Z.lor 0xe0 (Z.shiftl (Z.land (b_dev B) 1) 4)) (Z.land (Z.shiftr (b_sector B) 24) 0x0f));;
      if fl_test (b_flags B) B_DIRTY then
        outb 0x1f7 IDE_CMD_WRITE;;
        outsl (b_data B)
      else outb 0x1f7 IDE_CMD_READ
  end.

(** [ps]: the answers of the port to the handler; [qs]: to the start of the next
    request. *)
Definition ideintr (ps qs : list Z) : M ide unit :=
  q ← gets idequeue;
  match q with
  | None => mret tt
  | Some b =>
      qn ← gets qnext;
      nx ← deref (qn !! b);
      modify (set_queue nx);;
      B ← lift (getbuf b);
      (if negb (fl_test (b_flags B) B_DIRTY) then
         r ← idewait ps true;
         if 0 <=? r then d ← insl; lift (updbuf b (set_data d)) else mret tt
       else mret tt);;
      lift (updbuf b (λ B, set_flags (Z.lor (b_flags B) B_VALID) B));;
      lift (updbuf b (λ B, set_flags (Z.land (b_flags B) (Z.lnot B_DIRTY)) B));;
      q ← gets idequeue;
      match q with
      | Some _ => idestart qs q
      | None => mret tt
      end
  end.

(** The last buffer of the queue that starts at [q]. *)
Fixpoint queue_last (fuel : nat) (qn : list (option nat)) (q : nat) : option nat :=
  match fuel with
  | O => None
  | S fuel' =>
      match qn !! q with
      | Some (Some q') => queue_last fuel' qn q'
      | Some None => Some q
      | None => None
      end
  end.

(** [iderw] until it sleeps or finds its request done. *)
Definition iderw_start (ps : list Z) (b : nat) : M ide unit :=
  B ← lift (getbuf b);
  if negb (fl_test (b_flags B) B_BUSY) then panic "iderw: buf not busy" else
  if Z.land (b_flags B) (Z.lor B_VALID B_DIRTY) =? B_VALID then panic "iderw: nothing to do" else
  hd1 ← gets havedisk1;
  if negb (b_dev B =? 0) && negb hd1 then panic "iderw: ide disk 1 not present" else
  modify (set_qnext b None);;
  q ← gets idequeue;
  match q with
  | None => modify (set_queue (Some b))
  | Some q0 =>
      qn ← gets qnext;
      l ← deref (queue_last (length qn) qn q0);
      modify (set_qnext l (Some b))
  end;;
  q ← gets idequeue;
  if bool_decide (q = Some b) then idestart ps (Some b) else mret tt.
(** The test of the loop in which [iderw] sleeps. *)
Definition iderw_done (b : nat) : M ide bool :=
  B ← lift (getbuf b);
  mret (Z.land (b_flags B) (Z.lor B_VALID B_DIRTY) =? B_VALID).

(** ** What the driver promises *)

(** The status with which the polling ends, and whether it reports an error. *)
Fixpoint status (ps : list Z) : option Z :=
  match ps with
  | [] => None
  | r :: ps' => if Z.land r (Z.lor IDE_BSY IDE_DRDY) =? IDE_DRDY then Some r else status ps'
  end.
Definition ready (ps : list Z) : bool := match status ps with Some _ => true | None => false end.
Definition drive_error (ps : list Z) : bool :=
  match status ps with Some r => negb (Z.land r (Z.lor IDE_DF IDE_ERR) =? 0) | None => false end.

(** The events: a process calls [iderw], or the controller finishes its command,
    well or with an error, and interrupts. *)
Inductive ievent := EIssue (b : nat) (ps : list Z) | EIntr (ps qs : list Z).
Definition ide_step (e : ievent) : M ide unit :=
  match e with
  | EIssue b ps => iderw_start ps b
  | EIntr ps qs => (c ← gets hw; if c_busy c then hw_complete (drive_error ps) else mret tt);; ideintr ps qs
  end.
Fixpoint ide_run (l : list ievent) : M ide unit :=
  match l with [] => mret tt | e :: l' => ide_step e;; ide_run l' end.

(** A request on which the drive failed: nothing was transferred, but the buffer
    is marked valid and clean all the same. *)
Definition fail_buf (b : nat) (B : buf) (s : bst) : bst :=
  mkBst (<[b := set_flags (Z.lor (Z.land (b_flags B) (Z.lnot B_DIRTY)) B_VALID) B]> (bufs s)) (disk s) (trace s).
Definition finish_buf (failed : bool) (b : nat) (B : buf) (s : bst) : bst :=
  if failed then fail_buf b B s else sync_buf b B s.

(** The specification: a queue of requests, each of which is carried out as a
    whole ([sync_buf]), or not at all, when it reaches the front. *)
Definition spec_step (e : ievent) (a : bst * list nat) : bst * list nat :=
  match e, a.2 with
  | EIssue b _, Q => (a.1, Q ++ [b])
  | EIntr _ _, [] => a
  | EIntr ps _, b :: Q => (match bufs a.1 !! b with Some B => finish_buf (drive_error ps) b B a.1 | None => a.1 end, Q)
  end.

(** A buffer that may be given to [iderw]. *)
Definition request (s : bst) (b : nat) : Prop :=
  ∃ B, bufs s !! b = Some B ∧ fl_test (b_flags B) B_BUSY = true ∧
    Z.land (b_flags B) (Z.lor B_VALID B_DIRTY) ≠ B_VALID ∧ b_dev B = 1 ∧
    0 ≤ b_sector B < Z.of_nat (length (disk s)).
(** Every issued buffer is a request and is not in the queue already: the
    caller holds the buffer. Each time the port is polled the drive becomes
    ready. *)
Fixpoint issues_ok (l : list ievent) (a : bst * list nat) : Prop :=
  match l with
  | [] => True
  | e :: l' => (match e with EIssue b ps => request a.1 b ∧ (b ∉ a.2) ∧ ready ps | EIntr ps qs => ready ps ∧ ready qs end) ∧ issues_ok l' (spec_step e a)
  end.

(** The queue in the links. *)
Fixpoint qchain (qn : list (option nat)) (q : option nat) (Q : list nat) : Prop :=
  match Q with
  | [] => q = None
  | b :: Q' => q = Some b ∧ ∃ nx, qn !! b = Some nx ∧ qchain qn nx Q'
  end.

(** The controller is working on the request of [B]. *)
Definition working (c : ctrl) (B : buf) : Prop :=
  c_busy c = true ∧ c_drive c = 1 ∧ c_sector c = b_sector B ∧
  if fl_test (b_flags B) B_DIRTY then c_regs c !!! 0x1f7 = IDE_CMD_WRITE ∧ c_data c = b_data B
  else c_regs c !!! 0x1f7 = IDE_CMD_READ.

Record iinv (t : ide) (Q : list nat) : Prop := {
  ii_chain : qchain (qnext t) (idequeue t) Q;
  ii_nodup : NoDup Q;
  ii_len : length (qnext t) = length (bufs (ib t));
  ii_req : ∀ b, b ∈ Q → request (ib t) b;
  ii_hw : match Q with
          | [] => c_busy (hw t) = false
          | b :: _ => ∃ B, bufs (ib t) !! b = Some B ∧ working (hw t) B
          end;
  ii_disk1 : havedisk1 t = true;
  ii_size : Z.of_nat (length (disk (ib t))) ≤ 2 ^ 28;
}.

(** ** Registers *)
Lemma sector_bytes z : 0 ≤ z < 2 ^ 28 →
  z `mod` 2 ^ 8 + 2 ^ 8 * (Z.shiftr z 8 `mod` 2 ^ 8) + 2 ^ 16 * (Z.shiftr z 16 `mod` 2 ^ 8)
  + 2 ^ 24 * (Z.shiftr z 24 `mod` 2 ^ 4) = z.
Proof. intros Hz. rewrite !Z.shiftr_div_pow2 by lia. Z.to_euclidean_division_equations. lia. Qed.

(** The drive register for drive 1 and the top bits [h] of the sector. *)
Definition drive_reg (h : Z) : Z := u8 (Z.lor (Z.lor 0xe0 (Z.shiftl (Z.land 1 1) 4)) h).
Lemma drive_reg_ok h : 0 ≤ h < 16 → Z.land (drive_reg h) 0x0f = h ∧ Z.land (Z.shiftr (drive_reg h) 4) 1 = 1.
Proof.
  intros Hh. assert (h ∈ map Z.of_nat (seq 0 16)) as Hin.
  { apply list_elem_of_fmap. exists (Z.to_nat h). split; [lia|]. apply elem_of_seq. lia. }
  repeat (apply elem_of_cons in Hin as [->|Hin]; [by split|]). by apply elem_of_nil in Hin.
Qed.

Lemma land_low z n m : m = Z.ones n → 0 ≤ n ≤ 8 → u8 (Z.land z m) = z `mod` 2 ^ n ∧ 0 ≤ z `mod` 2 ^ n < 2 ^ n.
Proof.
  intros -> Hn. rewrite Z.land_ones by lia. pose proof (Z.mod_pos_bound z (2 ^ n) ltac:(lia)).
  split; [|done]. unfold u8. apply Z.mod_small.
  pose proof (Z.pow_le_mono_r 2 n 8). lia.
Qed.

Lemma idewait_status ps checkerr t : ready ps →
  idewait ps checkerr t = Ok (if checkerr && drive_error ps then -1 else 0) t.
Proof.
  unfold ready, drive_error. induction ps as [|r ps IH]; simpl; [done|].
  destruct (Z.land r (Z.lor IDE_BSY IDE_DRDY) =? IDE_DRDY); simpl; [|by apply IH].
  intros _. destruct (checkerr && negb _); reflexivity.
Qed.

Lemma idestart_spec ps b B t :
  ready ps → bufs (ib t) !! b = Some B → b_dev B = 1 → 0 ≤ b_sector B < 2 ^ 28 →
  ∃ c, idestart ps (Some b) t = Ok tt (set_hw c t) ∧ working c B.
Proof.
  intros Hps HB Hdev Hsec. unfold idestart, mbind, M_bind, lift, getbuf. rewrite idewait_status by done. simpl. rewrite HB, Hdev. simpl.
  destruct (land_low (b_sector B) 8 0xff) as [E3 _]; [done|lia|].
  destruct (land_low (Z.shiftr (b_sector B) 8) 8 0xff) as [E4 _]; [done|lia|].
  destruct (land_low (Z.shiftr (b_sector B) 16) 8 0xff) as [E5 _]; [done|lia|].
  assert (E6 : Z.land (Z.shiftr (b_sector B) 24) 0x0f = Z.shiftr (b_sector B) 24 `mod` 2 ^ 4)
    by (apply (Z.land_ones _ 4); lia).
  pose proof (Z.mod_pos_bound (Z.shiftr (b_sector B) 24) (2 ^ 4) ltac:(lia)) as Hh.
  destruct (drive_reg_ok _ Hh) as [Elow Edrv]. rewrite <-E6 in Elow, Edrv.
  pose proof (sector_bytes (b_sector B) Hsec) as Hsum. rewrite <-E3, <-E4, <-E5, <-E6 in Hsum.
  unfold working. destruct (fl_test (b_flags B) B_DIRTY); (eexists; split; [reflexivity|]); simpl;
    (split; [done|]); unfold c_drive, c_sector; simpl;
    rewrite ?lookup_total_insert_eq, ?(lookup_total_insert_ne _ _ 0x1f6), ?(lookup_total_insert_ne _ _ 0x1f3),
      ?(lookup_total_insert_ne _ _ 0x1f4), ?(lookup_total_insert_ne _ _ 0x1f5), ?lookup_total_insert_eq by lia.
  all: fold (drive_reg (Z.land (Z.shiftr (b_sector B) 24) 15)); rewrite Elow; done.
Qed.

(** ** The queue *)
Lemma qchain_insert_ne qn Q : ∀ q b x, b ∉ Q → qchain qn q Q → qchain (<[b := x]> qn) q Q.
Proof.
  induction Q as [|a Q IH]; intros q b x Hb; simpl; [done|].
  intros (-> & nx & Hnx & Hc). split; [done|]. exists nx. apply not_elem_of_cons in Hb as [Hne Hb].
  rewrite list_lookup_insert_ne by done. eauto.
Qed.

Lemma queue_last_spec qn Q : ∀ q fuel, qchain qn (Some q) (q :: Q) → (length (q :: Q) <= fuel)%nat →
  queue_last fuel qn q = last (q :: Q).
Proof.
  induction Q as [|a Q IH]; intros q fuel (_ & nx & Hnx & Hc) Hf; (destruct fuel as [|fuel]; [simpl in Hf; lia|]); simpl.
  - simpl in Hc. subst nx. by rewrite Hnx.
  - destruct Hc as [-> Hc]. rewrite Hnx. apply (IH a fuel); [by split|]. simpl in *. lia.
Qed.

Lemma qchain_snoc qn Q b : ∀ q l, qchain qn q Q → last Q = Some l → NoDup Q → b ∉ Q →
  qn !! b = Some None → qchain (<[l := Some b]> qn) q (Q ++ [b]).
Proof.
  induction Q as [|a Q IH]; intros q l Hc Hl Hnd Hb Hqb; [done|].
  destruct Hc as (-> & nx & Hnx & Hc). apply NoDup_cons in Hnd as [Ha Hnd].
  apply not_elem_of_cons in Hb as [Hne Hb]. simpl. split; [done|].
  destruct Q as [|a' Q].
  - simpl in Hl. simplify_eq. exists (Some b). rewrite list_lookup_insert_eq by eauto using lookup_lt_Some.
    split; [done|]. simpl. split; [done|]. exists None. by rewrite list_lookup_insert_ne.
  - rewrite last_cons_cons in Hl. assert (l ≠ a) as Hla.
    { intros ->. apply Ha. by apply last_Some_elem_of. }
    exists nx. rewrite list_lookup_insert_ne by done. split; [done|]. by apply IH.
Qed.

Lemma queue_bound Q n : NoDup Q → (∀ b, b ∈ Q → (b < n)%nat) → (length Q <= n)%nat.
Proof.
  intros Hnd Hlt. rewrite <-(length_seq n 0). apply submseteq_length, NoDup_submseteq; [done|].
  intros b Hb. apply elem_of_seq. specialize (Hlt b Hb). lia.
Qed.

(** ** Requests *)
Lemma done_flags f : Z.land (Z.lor f B_VALID) (Z.lnot B_DIRTY) = Z.lor (Z.land f (Z.lnot B_DIRTY)) B_VALID.
Proof.
  rewrite Z.land_lor_distr_l. done.
Qed.

Lemma clean_flags f : fl_test f B_DIRTY = false → Z.land f (Z.lnot B_DIRTY) = f.
Proof.
  intros Hf. unfold fl_test in Hf. apply negb_false_iff, Z.eqb_eq in Hf.
  rewrite <-Z.ldiff_land. apply Z.bits_inj'. intros n Hn. rewrite Z.ldiff_spec.
  pose proof (f_equal (λ z, Z.testbit z n) Hf) as Hb. simpl in Hb. rewrite Z.land_spec, Z.bits_0 in Hb.
  by destruct (Z.testbit f n), (Z.testbit B_DIRTY n).
Qed.

Lemma finish_buf_len e b B s :
  length (bufs (finish_buf e b B s)) = length (bufs s) ∧ length (disk (finish_buf e b B s)) = length (disk s).
Proof. unfold finish_buf, fail_buf, sync_buf. repeat case_match; simpl; by rewrite ?length_insert. Qed.

Lemma request_finish e s b B b' : b ≠ b' → request s b' → request (finish_buf e b B s) b'.
Proof.
  intros Hne (B' & HB' & H). exists B'. destruct (finish_buf_len e b B s) as [_ ->].
  split; [|done]. unfold finish_buf, fail_buf, sync_buf. repeat case_match; simpl; by rewrite list_lookup_insert_ne.
Qed.

Lemma request_lt s b : request s b → (b < length (bufs s))%nat.
Proof. intros (B & HB & _). by eapply lookup_lt_Some. Qed.

(** ** The steps *)
Lemma issue_step t Q b ps :
  iinv t Q → request (ib t) b → b ∉ Q → ready ps →
  ∃ t', iderw_start ps b t = Ok tt t' ∧ ib t' = ib t ∧ iinv t' (Q ++ [b]).
Proof.
  intros Hinv Hreq Hb Hps. pose proof Hreq as (B & HB & Hbusy & Hfl & Hdev & Hsec).
  pose proof (ii_size _ _ Hinv) as Hsz. pose proof (request_lt _ _ Hreq) as Hlt.
  pose proof (ii_len _ _ Hinv) as Hlen.
  unfold iderw_start, mbind, M_bind, lift, getbuf. simpl. rewrite HB. simpl. rewrite Hbusy. simpl.
  apply Z.eqb_neq in Hfl as Hfl'. rewrite Hfl'. simpl. rewrite (ii_disk1 _ _ Hinv), andb_false_r. simpl.
  assert (Hreqs : ∀ c, c ∈ Q ++ [b] → request (ib t) c).
  { intros c [Hc| ->%list_elem_of_singleton]%elem_of_app; [by apply (ii_req _ _ Hinv)|done]. }
  assert (Hnd : NoDup (Q ++ [b])).
  { apply NoDup_app. split; [apply Hinv|]. split; [|apply NoDup_singleton].
    intros c Hc ->%list_elem_of_singleton. done. }
  destruct Q as [|q0 Q].
  - pose proof (ii_chain _ _ Hinv) as Hq. simpl in Hq. rewrite Hq. simpl.
    rewrite bool_decide_eq_true_2 by done.
    destruct (idestart_spec ps b B (set_queue (Some b) (set_qnext b None t))) as (c & Hc & Hw); [done..|lia|].
    unfold set_queue, set_qnext in Hc. simpl in Hc. rewrite (ii_disk1 _ _ Hinv) in Hc. eexists. split; [exact Hc|]. split; [done|].
    constructor; simpl; try done.
    + split; [done|]. exists None. rewrite list_lookup_insert_eq by lia. done.
    + by rewrite length_insert.
    + by exists B.
  - pose proof (ii_chain _ _ Hinv) as Hq. destruct (proj1 Hq). rewrite (proj1 Hq). simpl.
    assert (Hq' : qchain (<[b := None]> (qnext t)) (Some q0) (q0 :: Q)).
    { apply qchain_insert_ne; [done|]. by rewrite (proj1 Hq) in Hq. }
    rewrite (queue_last_spec _ Q _ _ Hq').
    2: { rewrite length_insert, Hlen. apply queue_bound; [apply Hinv|].
         intros c Hc. by apply request_lt, (ii_req _ _ Hinv). }
    destruct (last (q0 :: Q)) as [l|] eqn:El; [|by apply last_None in El].
    simpl. rewrite bool_decide_eq_false_2 by (intros [= ->]; apply Hb; by left).
    eexists. split; [reflexivity|]. split; [done|]. constructor; simpl; try done.
    + eapply (qchain_snoc _ (q0 :: Q)); [exact Hq'|done|apply Hinv|done|].
      by rewrite list_lookup_insert_eq by lia.
    + by rewrite !length_insert.
    + apply Hinv.
Qed.

(** An interrupt carries out the request at the front, up to the start of the
    next one. *)
Lemma intr_core t b B nx ps qs :
  idequeue t = Some b → qnext t !! b = Some nx → bufs (ib t) !! b = Some B → working (hw t) B →
  0 ≤ b_sector B < Z.of_nat (length (disk (ib t))) → ready ps →
  ide_step (EIntr ps qs) t =
    match nx with Some _ => idestart qs nx | None => mret tt end
      (mkIde (finish_buf (drive_error ps) b B (ib t)) (qnext t) nx (havedisk1 t) (mkCtrl (c_regs (hw t)) false (c_data (hw t)))).
Proof.
  intros Hq Hnx HB (Hbz & Hdrv & Hsec & Hcmd) Hrange Hps.
  pose proof (lookup_lt_Some _ _ _ HB) as Hlt.
  assert (is_Some (disk (ib t) !! Z.to_nat (b_sector B))) as [d Hd] by (apply lookup_lt_is_Some; lia).
  unfold ide_step, hw_complete, ideintr, mbind, M_bind, gets. simpl. rewrite Hbz, Hdrv. simpl.
  destruct t as [[bs dk tr] qn q h1 [rg bz dt]]. simpl in *. subst q.
  unfold finish_buf, fail_buf, sync_buf, lift, updbuf, getbuf, insl, disk_write, disk_read, modify. simpl.
  destruct (fl_test (b_flags B) B_DIRTY) eqn:Hdirty.
  - destruct Hcmd as [-> ->]. rewrite Z.eqb_refl. simpl.
    destruct (drive_error ps); simpl; rewrite Hnx; simpl; rewrite HB; simpl; rewrite Hdirty; simpl;
      rewrite HB; simpl; rewrite list_lookup_insert_eq by done; simpl; unfold set_bufs; simpl;
      rewrite list_insert_insert_eq, done_flags, ?Hsec; by destruct nx.
  - rewrite Hcmd. simpl. rewrite Hnx. simpl. rewrite HB. simpl. rewrite Hdirty. simpl. rewrite idewait_status by done. simpl.
    destruct (drive_error ps); simpl.
    + rewrite HB. simpl. rewrite list_lookup_insert_eq by done. simpl. unfold set_bufs. simpl.
      rewrite list_insert_insert_eq, done_flags. by destruct nx.
    + unfold c_drive, c_sector in *. simpl in *. rewrite Hdrv, Hsec. simpl. unfold lift. simpl. rewrite Hd. simpl.
      rewrite HB. simpl. rewrite list_lookup_insert_eq by done. simpl.
      rewrite list_lookup_insert_eq by (by rewrite length_insert). simpl. unfold set_bufs. simpl.
      rewrite !list_insert_insert_eq, (list_lookup_total_correct _ _ _ Hd). simpl.
      rewrite done_flags, (clean_flags _ Hdirty). by destruct nx.
Qed.

Lemma intr_step t b Q ps qs :
  iinv t (b :: Q) → ready ps → ready qs →
  ∃ B t', bufs (ib t) !! b = Some B ∧ ide_step (EIntr ps qs) t = Ok tt t' ∧
    ib t' = finish_buf (drive_error ps) b B (ib t) ∧ iinv t' Q.
Proof.
  intros Hinv Hps Hqs. destruct (ii_hw _ _ Hinv) as (B & HB & Hw).
  destruct (ii_chain _ _ Hinv) as (Hq & nx & Hnx & Hch).
  destruct (ii_req _ _ Hinv b) as (B0 & HB0 & _ & _ & _ & Hrange); [by left|].
  rewrite HB in HB0. simplify_eq. destruct (proj1 (NoDup_cons _ _) (ii_nodup _ _ Hinv)) as [Hb Hnd].
  set (e := drive_error ps). destruct (finish_buf_len e b B0 (ib t)) as [Hlb Hld].
  assert (Hreq : ∀ c, c ∈ Q → request (finish_buf e b B0 (ib t)) c).
  { intros c Hc. apply request_finish; [by intros ->|]. apply (ii_req _ _ Hinv). by right. }
  exists B0. rewrite (intr_core t b B0 nx ps qs) by done. fold e.
  destruct Q as [|b' Q].
  - simpl in Hch. subst nx. eexists. split; [done|]. split; [done|]. split; [done|].
    constructor; simpl; try done; [by rewrite Hlb; apply Hinv|apply Hinv|by rewrite Hld; apply Hinv].
  - pose proof Hch as [-> _]. destruct (Hreq b') as (B' & HB' & _ & _ & Hdev & Hsec'); [by left|].
    set (t1 := mkIde (finish_buf e b B0 (ib t)) (qnext t) (Some b') (havedisk1 t) _).
    destruct (idestart_spec qs b' B' t1) as (c & Hc & Hw'); [done..|rewrite Hld in Hsec'; pose proof (ii_size _ _ Hinv); lia|].
    rewrite Hc. eexists. split; [done|]. split; [done|]. split; [done|].
    constructor; simpl; try done; [by rewrite Hlb; apply Hinv|by exists B'|apply Hinv|by rewrite Hld; apply Hinv].
Qed.

Lemma spurious_step t ps qs : iinv t [] → ∃ t', ide_step (EIntr ps qs) t = Ok tt t' ∧ ib t' = ib t ∧ iinv t' [].
Proof.
  intros Hinv. exists t. unfold ide_step, ideintr, mbind, M_bind, gets.
  pose proof (ii_hw _ _ Hinv) as Hz. simpl in Hz. rewrite Hz. simpl.
  pose proof (ii_chain _ _ Hinv) as Hq. simpl in Hq. by rewrite Hq.
Qed.

(** C3: The IDE driver refines a first-in first-out queue of atomic requests.
    Whatever the order in which processes call [iderw] and the controller
    interrupts, starting with an idle controller and an empty queue: no call
    panics or follows a bad link, every interrupt completes exactly the oldest
    request as [sync_buf] describes it (the sector number that the controller
    decodes from its registers is the buffer's), requests that wait do not
    touch the disk or the buffers, and while requests are waiting the
    controller is working on the oldest one, so that its interrupt will come.
    When the drive reports an error nothing is transferred for the request, but
    it is completed and its buffer marked valid and clean all the same. The
    polling of the status port comes to an end because the drive becomes ready. *)
Theorem ide_refines_queue l t :
  iinv t [] → issues_ok l (ib t, []) →
  ∃ t', ide_run l t = Ok tt t' ∧
    let '(s, Q) := fold_left (λ a e, spec_step e a) l (ib t, []) in
    ib t' = s ∧ iinv t' Q.
Proof.
  generalize (@nil nat) as Q. revert t. induction l as [|e l IH]; intros t Q Hinv Hok; [by exists t|].
  destruct Hok as [He Hok]. simpl. unfold mbind, M_bind.
  destruct e as [b ps|ps qs].
  - destruct He as (Hreq & Hb & Hps). simpl in Hb.
    destruct (issue_step t Q b ps Hinv Hreq Hb Hps) as (t1 & Hrun & Hib & Hinv1). simpl. rewrite Hrun.
    destruct (IH t1 (Q ++ [b]) Hinv1) as (t' & Ht' & H); [by rewrite Hib|]. exists t'. split; [done|].
    by rewrite Hib in H.
  - destruct Q as [|b Q].
    + destruct (spurious_step t ps qs Hinv) as (t1 & Hrun & Hib & Hinv1). rewrite Hrun.
      destruct (IH t1 [] Hinv1) as (t' & Ht' & H); [by rewrite Hib|]. exists t'. split; [done|].
      by rewrite Hib in H.
    + destruct (intr_step t b Q ps qs Hinv (proj1 He) (proj2 He)) as (B & t1 & HB & Hrun & Hib & Hinv1). rewrite Hrun.
      simpl in Hok. rewrite HB in Hok. simpl. rewrite HB.
      destruct (IH t1 Q Hinv1) as (t' & Ht' & H); [by rewrite Hib|]. exists t'. split; [done|].
      by rewrite Hib in H.
Qed.

(** A completed request passes the test of the loop in [iderw]. *)
Lemma iderw_done_sync t b B :
  bufs (ib t) !! b = Some B →
  iderw_done b (mkIde (sync_buf b B (ib t)) (qnext t) (idequeue t) (havedisk1 t) (hw t))
  = Ok true (mkIde (sync_buf b B (ib t)) (qnext t) (idequeue t) (havedisk1 t) (hw t)).
Proof.
  intros HB. pose proof (lookup_lt_Some _ _ _ HB) as Hlt.
  assert (Hbits : ∀ f, fl_test f B_DIRTY = false → (Z.land (Z.lor f B_VALID) (Z.lor B_VALID B_DIRTY) =? B_VALID) = true).
  { intros f Hf. rewrite fl_dirty in Hf. apply Z.eqb_eq, Z.bits_inj'. intros n Hn.
    rewrite Z.land_spec, !Z.lor_spec. unfold B_VALID, B_DIRTY.
    rewrite (Z.pow2_bits_eqb 1), (Z.pow2_bits_eqb 2) by lia.
    destruct (Z.eqb_spec 1 n), (Z.eqb_spec 2 n); subst; rewrite ?Hf, ?orb_true_r, ?andb_false_r, ?orb_false_r; try lia; done. }
  unfold iderw_done, mbind, M_bind, lift, getbuf. simpl. unfold sync_buf.
  destruct (fl_test (b_flags B) B_DIRTY) eqn:Hd; simpl; rewrite list_lookup_insert_eq by done; simpl; rewrite Hbits; try done.
  rewrite fl_dirty, Z.land_spec, Z.lnot_spec by lia. by rewrite andb_false_r.
Qed.

(** Three buffers, one to be written to sector 1 and one to be read from it; the
    drive fails to read the third. *)
Definition small_ide : ide :=
  mkIde (mkBst [mkBuf 5 1 1 0 0 [7]; mkBuf 1 1 1 0 0 [0]; mkBuf 1 1 2 0 0 [0]] [[1]; [2]; [3]] [])
    [None; None; None] None true (mkCtrl ∅ false []).

Lemma ide_refines_queue_witness :
  ∃ t', ide_run [EIssue 0 [0x80; 0x50]; EIssue 1 [0x50]; EIntr [0x50] [0x80; 0x50]; EIntr [0x50] [0x50];
      EIssue 2 [0x50]; EIntr [0x80; 0x51] [0x50]] small_ide = Ok tt t' ∧
    disk (ib t') = [[1]; [7]; [3]] ∧ b_data <$> (bufs (ib t')) = [[7]; [7]; [0]] ∧ b_flags <$> bufs (ib t') = [3; 3; 3] ∧
    idequeue t' = None.
Proof.
  destruct (ide_refines_queue [EIssue 0 [0x80; 0x50]; EIssue 1 [0x50]; EIntr [0x50] [0x80; 0x50]; EIntr [0x50] [0x50];
      EIssue 2 [0x50]; EIntr [0x80; 0x51] [0x50]] small_ide) as (t' & Hrun & Hspec).
  - constructor; simpl; try done; [constructor|]. intros b H. by apply elem_of_nil in H.
  - assert (∀ a b : nat, a ≠ b → a ∉ [b]) as Hne by (intros a b H ->%list_elem_of_singleton; done).
    split; [split; [eexists; split; [reflexivity|]; simpl; repeat split; (done || lia)|split; [by apply not_elem_of_nil|done]]|].
    split; [split; [eexists; split; [reflexivity|]; simpl; repeat split; (done || lia)|split; [by apply Hne|done]]|].
    split; [done|]. split; [done|].
    split; [split; [eexists; split; [reflexivity|]; simpl; repeat split; (done || lia)|split; [by apply not_elem_of_nil|done]]|].
    done.
  - exists t'. split; [exact Hrun|]. destruct Hspec as [Hib Hinv].
    rewrite Hib. split; [reflexivity|]. split; [reflexivity|]. split; [reflexivity|]. exact (ii_chain _ _ Hinv).
Defined.

(** ** The IDE disk as a block device

    [iderw] called by the only running process: it queues its request, the
    controller interrupts while it sleeps, and it finds the request done. The
    drive is ready and does not fail. *)
Definition idle_ide (s : bst) : ide :=
  mkIde s (replicate (length (bufs s)) None) None true (mkCtrl ∅ false []).
Definition ide_iderw (b : nat) : M bst unit := λ s,
  match (iderw_start [IDE_DRDY] b;; ide_step (EIntr [IDE_DRDY] [IDE_DRDY]);; d ← iderw_done b;
         if d : bool then mret tt else stopM (Sleep "ide" b)) (idle_ide s) with
  | Ok a t => Ok a (ib t)
  | Err e t => Err e (ib t)
  end.

Lemma ide_iderw_spec b B s :
  bufs s !! b = Some B →
  fl_test (b_flags B) B_BUSY = true →
  Z.land (b_flags B) (Z.lor B_VALID B_DIRTY) ≠ B_VALID →
  b_dev B = 1 →
  0 ≤ b_sector B < Z.of_nat (length (disk s)) → Z.of_nat (length (disk s)) ≤ max_sectors →
  ide_iderw b s = Ok tt (sync_buf b B s).
Proof.
  intros HB Hbusy Hfl Hdev Hsec Hsz.
  assert (Hinv : iinv (idle_ide s) []).
  { constructor; try done; [constructor|simpl; by rewrite length_replicate|].
    intros c Hc. by apply elem_of_nil in Hc. }
  assert (Hreq : request (ib (idle_ide s)) b) by (by exists B).
  destruct (issue_step _ _ b [IDE_DRDY] Hinv Hreq) as (t1 & H1 & Hib1 & Hinv1); [by apply not_elem_of_nil|done|].
  destruct (intr_step _ _ _ [IDE_DRDY] [IDE_DRDY] Hinv1) as (B' & t2 & HB' & H2 & Hib2 & Hinv2); [done..|].
  rewrite Hib1 in HB', Hib2. simpl in HB'. rewrite HB in HB'. simplify_eq.
  assert (H3 : iderw_done b t2 = Ok true t2).
  { pose proof (iderw_done_sync (mkIde s (qnext t2) (idequeue t2) (havedisk1 t2) (hw t2)) b B' HB) as H.
    simpl in H. simpl in Hib2. rewrite <-Hib2 in H. by destruct t2. }
  unfold ide_iderw, mbind, M_bind. rewrite H1, H2, H3. simpl. by rewrite Hib2.
Qed.

(** The log, the file system and everything above them are proved against
    [BlockDev], and so hold over this driver as well as over memide.c. *)
Definition idedisk : BlockDev := {| iderw := ide_iderw; iderw_spec := ide_iderw_spec |}.
