(* ===== verification/Bio.v ===== *)
(** * The buffer cache (bio.c)

    The cache is a circular doubly linked list of [NBUF] buffers, kept in most
    recently used order. The operations are translated with their pointer
    updates; [dll] relates the pointers to the list they represent, and [brep]
    is the abstraction relation that clients use: the logical contents [V] of
    the disk seen through the cache, the buffers [H] held by callers and the
    set [D] of sectors pinned by [B_DIRTY]. *)

From S2P Require Import Prelude Buf.

(** The list head is the buffer after the last. *)
#[local] Abbreviation head := NBUF.

(** The buffer array before [binit]: static storage, all zero. *)
Definition zero_buf : buf := mkBuf 0 0 0 0 0 (replicate BSIZE 0).
Definition bcache0 : list buf := replicate (S NBUF) zero_buf.

(** [binit]: make the list of buffers; [dev] is -1 as a [uint]. *)
Definition binit : M bst unit :=
  updbuf head (set_prev head);;
  updbuf head (set_next head);;
  forM (seq 0 NBUF) (λ b,
    h ← getbuf head;
    updbuf b (set_next (b_next h));;
    updbuf b (set_prev head);;
    updbuf b (λ B, set_key (u32 (-1)) (b_sector B) B);;
    h' ← getbuf head;
    updbuf (b_next h') (set_prev b);;
    updbuf head (set_next b)).

(** First loop of [bget]: is the sector already cached? *)
Fixpoint bget_scan (fuel : nat) (b : nat) (dev sector : Z) : M bst (option nat) :=
  match fuel with
  | O => stopM NoFuel
  | S fuel' =>
      if (b =? head)%nat then mret None else
      B ← getbuf b;
      if (b_dev B =? dev) && (b_sector B =? sector) then mret (Some b)
      else bget_scan fuel' (b_next B) dev sector
  end.

(** Second loop of [bget]: the least recently used buffer that is neither busy
    nor dirty. *)
Fixpoint bget_recycle (fuel : nat) (b : nat) (dev sector : Z) : M bst nat :=
  match fuel with
  | O => stopM NoFuel
  | S fuel' =>
      if (b =? head)%nat then panic "bget: no buffers" else
      B ← getbuf b;
      if (Z.land (b_flags B) B_BUSY =? 0) && (Z.land (b_flags B) B_DIRTY =? 0) then
        updbuf b (set_key dev sector);;
        updbuf b (set_flags B_BUSY);;
        mret b
      else bget_recycle fuel' (b_prev B) dev sector
  end.

Definition bget (dev sector : Z) : M bst nat :=
  h ← getbuf head;
  r ← bget_scan (S NBUF) (b_next h) dev sector;
  match r with
  | Some b =>
      B ← getbuf b;
      if negb (fl_test (b_flags B) B_BUSY) then
        updbuf b (λ B, set_flags (Z.lor (b_flags B) B_BUSY) B);; mret b
      else stopM (Sleep "buf" b)
  | None =>
      h' ← getbuf head;
      bget_recycle (S NBUF) (b_prev h') dev sector
  end.

Section Bio.
Context `{BD : BlockDev}.

(** Return a [B_BUSY] buffer with the contents of the indicated sector. *)
Definition bread (dev sector : Z) : M bst nat :=
  b ← bget dev sector;
  B ← getbuf b;
  (if negb (fl_test (b_flags B) B_VALID) then iderw b else mret tt);;
  mret b.

(** Write the contents of a [B_BUSY] buffer to disk. *)
Definition bwrite (b : nat) : M bst unit :=
  B ← getbuf b;
  if Z.land (b_flags B) B_BUSY =? 0 then panic "bwrite" else
  updbuf b (λ B, set_flags (Z.lor (b_flags B) B_DIRTY) B);;
  iderw b.

End Bio.

(** Release a [B_BUSY] buffer and move it to the head of the MRU list. *)
Definition brelse (b : nat) : M bst unit :=
  B ← getbuf b;
  if Z.land (b_flags B) B_BUSY =? 0 then panic "brelse" else
  updbuf (b_next B) (set_prev (b_prev B));;
  B1 ← getbuf b;
  updbuf (b_prev B1) (set_next (b_next B1));;
  h ← getbuf head;
  updbuf b (set_next (b_next h));;
  updbuf b (set_prev head);;
  h' ← getbuf head;
  updbuf (b_next h') (set_prev b);;
  updbuf head (set_next b);;
  updbuf b (λ B, set_flags (Z.land (b_flags B) (Z.lnot B_BUSY)) B).

(** A caller's stores into the [data] of a buffer it holds. *)
Definition bstore (b : nat) (f : block → block) : M bst unit :=
  updbuf b (λ B, set_data (f (b_data B)) B).

(** ** The linked list *)

(** [chain bs x l e]: following [next] from [x] goes through [l] to [e], and
    [prev] goes back. *)
Fixpoint chain (bs : list buf) (x : nat) (l : list nat) (e : nat) : Prop :=
  match l with
  | [] => b_next <$> bs !! x = Some e ∧ b_prev <$> bs !! e = Some x
  | y :: l' => b_next <$> bs !! x = Some y ∧ b_prev <$> bs !! y = Some x ∧ chain bs y l' e
  end.

Definition dll (bs : list buf) (l : list nat) : Prop := chain bs head l head.

(** The buffers in most recently used order. *)
Definition lru (bs : list buf) (l : list nat) : Prop :=
  length bs = S NBUF ∧ l ≡ₚ seq 0 NBUF ∧ dll bs l.

Lemma lru_elem bs l b : lru bs l → b ∈ l ↔ (b < NBUF)%nat.
Proof. intros (_ & Hp & _). rewrite Hp, elem_of_seq. lia. Qed.

Lemma chain_app bs x l1 y l2 e :
  chain bs x (l1 ++ y :: l2) e ↔ chain bs x l1 y ∧ chain bs y l2 e.
Proof. revert x. induction l1; intros; simpl; naive_solver. Qed.

(** The links of a chain are the [next] of all but the last node and the
    [prev] of all but the first. *)
Lemma chain_ext bs bs' x l e :
  (∀ z, z ∈ x :: l → b_next <$> bs !! z = b_next <$> bs' !! z) →
  (∀ z, z ∈ l ++ [e] → b_prev <$> bs !! z = b_prev <$> bs' !! z) →
  chain bs x l e → chain bs' x l e.
Proof.
  revert x. induction l as [|y l IH]; intros x Hn Hp; simpl.
  - rewrite Hn, Hp by set_solver. done.
  - intros (?&?&?). rewrite <-Hn, <-Hp by set_solver. split_and!; [done..|].
    apply IH; [set_solver..|done].
Qed.

Lemma chain_fst bs x l e : chain bs x l e → b_next <$> bs !! x = Some (hd e l).
Proof. destruct l; simpl; naive_solver. Qed.

Lemma chain_lst bs x l e : chain bs x l e → last (x :: l) = b_prev <$> bs !! e.
Proof.
  revert x. induction l as [|y l IH]; intros x Hc; [simpl in *; naive_solver|].
  rewrite last_cons_cons. apply IH, Hc.
Qed.

(** Redirecting the last [next] of a chain. *)
Lemma chain_last bs bs' x l e e' p :
  last (x :: l) = Some p → NoDup (x :: l) →
  (∀ z, z ∈ x :: l → z ≠ p → b_next <$> bs !! z = b_next <$> bs' !! z) →
  (∀ z, z ∈ l → b_prev <$> bs !! z = b_prev <$> bs' !! z) →
  b_next <$> bs' !! p = Some e' → b_prev <$> bs' !! e' = Some p →
  chain bs x l e → chain bs' x l e'.
Proof.
  revert x. induction l as [|y l IH]; intros x Hl Hnd Hn Hp Hn' Hp'; simpl.
  - simpl in Hl. injection Hl as ->. done.
  - intros (?&?&?). rewrite last_cons_cons in Hl. apply NoDup_cons in Hnd as [Hx Hnd].
    assert (p ∈ y :: l) by by apply last_Some_elem_of.
    rewrite <-Hn, <-Hp by set_solver. split_and!; [done..|].
    apply IH; [done|done|set_solver..].
Qed.

(** ** Field-wise views of an updated buffer array *)
Definition core (B : buf) : Z * Z * Z * block := (b_flags B, b_dev B, b_sector B, b_data B).

Lemma wp_getbuf b B Q s : bufs s !! b = Some B → Q B s → wp (getbuf b) Q s.
Proof. intros HB ?. unfold wp, getbuf. by rewrite HB. Qed.

Lemma wp_getbuf' b (Q : buf → bst → Prop) s :
  (b < length (bufs s))%nat →
  (∀ B, bufs s !! b = Some B → Q B s) → wp (getbuf b) Q s.
Proof. intros [B HB]%lookup_lt_is_Some ?. eapply wp_getbuf; eauto. Qed.

Lemma wp_updbuf b f Q s :
  (b < length (bufs s))%nat →
  Q tt (set_bufs (alter f b (bufs s)) s) → wp (updbuf b f) Q s.
Proof.
  intros [B HB]%lookup_lt_is_Some ?. unfold wp, updbuf. rewrite HB.
  by rewrite <-(alter_insert _ _ _ _ HB).
Qed.

Lemma core_set_flags (o : option buf) (g : Z → Z) B :
  core <$> o = Some (core B) →
  core <$> ((λ B', set_flags (g (b_flags B')) B') <$> o) =
    Some (g (b_flags B), b_dev B, b_sector B, b_data B).
Proof. destruct o as [B'|]; [|done]. unfold core. simpl. by intros [= -> -> -> ->]. Qed.

Create Rewrite HintDb links.
#[export] Hint Rewrite @length_alter : links.

(** What one pointer store does to the [next] and [prev] fields. *)
Lemma next_set_next (bs : list buf) i y z :
  (i < length bs)%nat →
  b_next <$> alter (set_next y) i bs !! z = if decide (i = z) then Some y else b_next <$> bs !! z.
Proof. by apply fmap_alter_set. Qed.
Lemma prev_set_prev (bs : list buf) i y z :
  (i < length bs)%nat →
  b_prev <$> alter (set_prev y) i bs !! z = if decide (i = z) then Some y else b_prev <$> bs !! z.
Proof. by apply fmap_alter_set. Qed.
Lemma next_set_prev (bs : list buf) i y z : b_next <$> alter (set_prev y) i bs !! z = b_next <$> bs !! z.
Proof. by apply fmap_alter_keep. Qed.
Lemma prev_set_next (bs : list buf) i y z : b_prev <$> alter (set_next y) i bs !! z = b_prev <$> bs !! z.
Proof. by apply fmap_alter_keep. Qed.
Lemma core_set_prev (bs : list buf) i y z : core <$> alter (set_prev y) i bs !! z = core <$> bs !! z.
Proof. by apply fmap_alter_keep. Qed.
Lemma core_set_next (bs : list buf) i y z : core <$> alter (set_next y) i bs !! z = core <$> bs !! z.
Proof. by apply fmap_alter_keep. Qed.

#[export] Hint Rewrite next_set_next prev_set_prev using (rewrite ?length_alter; lia) : links.
#[export] Hint Rewrite next_set_prev prev_set_next core_set_prev core_set_next : links.

Ltac links := autorewrite with links in *.

(** Fields that do not carry links do not affect a chain. *)
Lemma chain_keep bs bs' x l e :
  (∀ z, b_next <$> bs !! z = b_next <$> bs' !! z) →
  (∀ z, b_prev <$> bs !! z = b_prev <$> bs' !! z) →
  chain bs x l e → chain bs' x l e.
Proof. intros ??. apply chain_ext; auto. Qed.

(** Symbolic execution of a pointer store and of a pointer load. *)
Ltac upd := apply wp_bind, wp_updbuf; [simpl; links; lia|]; simpl.
Ltac rd B H :=
  let H' := fresh H in
  apply wp_bind, wp_getbuf'; simpl; [links; lia|]; intros B H';
  let Hn := fresh H "n" in let Hp := fresh H "p" in
  pose proof (f_equal (fmap b_next) H') as Hn; pose proof (f_equal (fmap b_prev) H') as Hp;
  clear H'; links; simpl in Hn, Hp.

Lemma chain_bound bs x l e : chain bs x l e → Forall (λ z, z < length bs)%nat (e :: x :: l).
Proof.
  revert x. induction l as [|y l IH]; intros x; simpl.
  - intros [(B&HB&_)%fmap_Some (B'&HB'&_)%fmap_Some].
    repeat constructor; eauto using lookup_lt_Some.
  - intros ((B&HB&_)%fmap_Some & _ & Hc%IH).
    apply Forall_cons in Hc as [? Hc]. constructor; [done|].
    constructor; eauto using lookup_lt_Some.
Qed.

(** Unlinking [b]: [b->next->prev = b->prev; b->prev->next = b->next]. *)
Lemma chain_unlink bs x l1 b l2 e p n :
  NoDup (x :: l1 ++ b :: l2) → b ≠ e → e ∉ l1 ++ l2 →
  chain bs x (l1 ++ b :: l2) e →
  b_next <$> bs !! b = Some n → b_prev <$> bs !! b = Some p →
  chain (alter (set_next n) p (alter (set_prev p) n bs)) x (l1 ++ l2) e.
Proof.
  intros Hnd Hbe He Hc Hn Hp.
  pose proof (chain_bound _ _ _ _ Hc) as Hlt.
  rewrite Forall_forall in Hlt.
  apply chain_app in Hc as [Hc1 Hc2].
  assert (last (x :: l1) = Some p) as Hlast by by rewrite (chain_lst _ _ _ _ Hc1), Hp.
  assert (p ∈ x :: l1) as Hpin by by apply last_Some_elem_of.
  apply NoDup_cons in Hnd as [Hx Hnd]. apply NoDup_app in Hnd as (Hnd1&Hdisj&Hnd2).
  apply NoDup_cons in Hnd2 as [Hb2 Hnd2].
  assert (p < length bs)%nat as Hpl by (apply Hlt; set_solver).
  destruct l2 as [|y l2]; simpl in Hc2.
  - destruct Hc2 as [Hne _]. assert (n = e) as -> by congruence.
    rewrite app_nil_r.
    assert (e < length bs)%nat by (apply Hlt; set_solver).
    eapply (chain_last bs _ x l1 b e p); [done|constructor; set_solver|..|done];
      intros; links; repeat case_decide; set_solver.
  - destruct Hc2 as (Hny & Hpy & Hc2). assert (n = y) as -> by congruence.
    assert (y < length bs)%nat by (apply Hlt; set_solver).
    apply chain_app. split.
    + eapply (chain_last bs _ x l1 b y p); [done|constructor; set_solver|..|done];
        intros; links; repeat case_decide; set_solver.
    + eapply chain_ext; [| |done]; intros z Hz; links; case_decide; subst; [|done| |done].
      * exfalso. set_solver.
      * exfalso. apply NoDup_cons in Hnd2 as [??]. set_solver.
Qed.

(** Pushing [b] after [x]: [b->next = x->next; b->prev = x; x->next->prev = b;
    x->next = b]. *)
Lemma chain_push bs x l e b f :
  NoDup (x :: l) → b ≠ e → b ∉ x :: l → e ∉ l → (b < length bs)%nat →
  chain bs x l e → b_next <$> bs !! x = Some f →
  chain (alter (set_next b) x (alter (set_prev b) f
          (alter (set_prev x) b (alter (set_next f) b bs)))) x (b :: l) e.
Proof.
  intros Hnd Hbe Hb He Hbl Hc Hf.
  pose proof (chain_bound _ _ _ _ Hc) as Hlt. rewrite Forall_forall in Hlt.
  assert (x < length bs)%nat by (apply Hlt; set_solver).
  apply NoDup_cons in Hnd as [Hx Hnd].
  assert (f = hd e l) as ->.
  { destruct l as [|y l]; simpl in Hc |- *; naive_solver congruence. }
  assert (hd e l < length bs)%nat by (destruct l; apply Hlt; set_solver).
  assert (hd e l ≠ b) by (destruct l; set_solver).
  assert (x ≠ b) by set_solver.
  simpl. links. decs. split_and!; [done..|].
  destruct l as [|y l]; simpl in *; links.
  - by decs.
  - destruct Hc as (_&_&Hc). apply NoDup_cons in Hnd as [Hy Hnd].
    decs. split_and!; [done..|].
    eapply chain_ext; [| |done]; intros z Hz; links; repeat case_decide; set_solver.
Qed.

(** The nodes of the MRU list are the buffers, each once, and not the head. *)
Lemma lru_split bs l1 b l2 :
  lru bs (l1 ++ b :: l2) →
  NoDup (head :: b :: l1 ++ l2) ∧ NoDup (head :: l1 ++ b :: l2) ∧ b_next <$> bs !! b = Some (hd head l2) ∧
  b_prev <$> bs !! b = last (head :: l1) ∧ ∀ z, z ∈ b :: l1 ++ l2 → (z < head)%nat.
Proof.
  intros (Hlen & Hperm & Hc).
  assert (∀ z, z ∈ l1 ++ b :: l2 → (z < head)%nat) as Hin.
  { intros z Hz. rewrite Hperm, elem_of_seq in Hz. lia. }
  assert (NoDup (head :: l1 ++ b :: l2)) as Hnd.
  { constructor; [by intros ?%Hin; lia|]. rewrite Hperm. apply NoDup_seq. }
  apply chain_app in Hc as [Hc1%chain_lst Hc2%chain_fst].
  split_and!; [|done|done|done|set_solver].
  rewrite (Permutation_middle l1 l2 b). done.
Qed.

(** ** [brelse] moves the buffer to the front of the MRU list. *)
Lemma brelse_lru b s l1 l2 B :
  lru (bufs s) (l1 ++ b :: l2) → bufs s !! b = Some B →
  fl_test (b_flags B) B_BUSY = true →
  wp (brelse b) (λ _ s',
    lru (bufs s') (b :: l1 ++ l2) ∧ disk s' = disk s ∧ trace s' = trace s ∧
    ∀ z, core <$> bufs s' !! z =
      if decide (z = b)
      then Some (Z.land (b_flags B) (Z.lnot B_BUSY), b_dev B, b_sector B, b_data B)
      else core <$> bufs s !! z) s.
Proof.
  intros Hlru HB Hbusy.
  pose proof (lru_split _ _ _ _ Hlru) as (Hnd & Hnd' & Hn & Hp & Hlt).
  destruct Hlru as (Hlen & Hperm & Hc). rewrite HB in Hn, Hp. simpl in Hn, Hp.
  injection Hn as Hn. symmetry in Hp.
  apply NoDup_cons in Hnd as [Hh [Hb Hnd]%NoDup_cons].
  assert (b_next B ∈ head :: l2) as Hnin by (rewrite Hn; destruct l2; set_solver).
  assert (b_prev B ∈ head :: l1) as Hpin by by apply last_Some_elem_of.
  assert (∀ z, z ∈ head :: b :: l1 ++ l2 → (z < length (bufs s))%nat) as Hlt'.
  { intros z [->|Hz%Hlt]%elem_of_cons; lia. }
  opose proof* (chain_unlink (bufs s) head l1 b l2 head (b_prev B) (b_next B)) as Hu;
    [done|set_solver|set_solver|exact Hc|by rewrite HB..|].
  assert (b < head)%nat by (apply Hlt; set_solver).
  assert (b_next B ≠ b ∧ b_prev B ≠ b ∧ b_next B < length (bufs s) ∧
          b_prev B < length (bufs s))%nat as (?&?&?&?).
  { split_and!; [set_solver|set_solver|apply Hlt'; set_solver|apply Hlt'; set_solver]. }
  unfold brelse. apply wp_bind. eapply wp_getbuf; [done|].
  unfold fl_test in Hbusy. apply negb_true_iff in Hbusy. rewrite Hbusy.
  upd. rd B1 HB1. rewrite HB, decide_False in HB1p by done. rewrite HB in HB1n.
  injection HB1p as <-. injection HB1n as <-. upd.
  set (bs1 := alter _ _ (alter _ _ _)) in *.
  assert (length bs1 = S head) as Hl1 by (unfold bs1; by links).
  rd h Hf. upd. upd. rd h' Hf'.
  rewrite decide_False, Hfn in Hf'n by lia. injection Hf'n as <-. clear Hf'p.
  opose proof* (chain_push bs1 head (l1 ++ l2) head b (b_next h)) as Hpu;
    [constructor; set_solver|lia|set_solver|set_solver|lia|done|done|].
  assert (b_next h < length bs1)%nat.
  { apply chain_fst in Hu. rewrite Hfn in Hu. injection Hu as ->. rewrite Hl1, <-Hlen.
    destruct (l1 ++ l2); apply Hlt'; set_solver. }
  upd. upd. apply wp_updbuf; [simpl; links; lia|]; simpl.
  split_and!; [split_and!|done|done|].
  - by links.
  - by rewrite <-Hperm, Permutation_middle.
  - eapply chain_keep; [| |exact Hpu]; intros z; symmetry; by apply fmap_alter_keep.
  - intros z. rewrite lookup_alter_if. case_decide as Hz; subst.
    + decs. apply (core_set_flags _ (λ f, Z.land f (Z.lnot B_BUSY))). links. unfold bs1. links. by rewrite HB.
    + decs. links. unfold bs1. by links.
Qed.

(** ** The scans of [bget] *)
Definition caches (bs : list buf) (dev z : Z) (b : nat) : bool :=
  match bs !! b with
  | Some B => (b_dev B =? dev) && (b_sector B =? z)
  | None => false
  end.
Definition evictable (bs : list buf) (b : nat) : bool :=
  match bs !! b with
  | Some B => (Z.land (b_flags B) B_BUSY =? 0) && (Z.land (b_flags B) B_DIRTY =? 0)
  | None => false
  end.

(** The first loop looks through the list from the most recently used end. *)
Lemma bget_scan_spec s dev z x l fuel :
  chain (bufs s) x l head → head ∉ l → (length l < fuel)%nat →
  bget_scan fuel (hd head l) dev z s = Ok (List.find (caches (bufs s) dev z) l) s.
Proof.
  revert x fuel. induction l as [|y l IH]; intros x fuel Hc Hh Hf;
    (destruct fuel as [|fuel]; simpl in Hf; [lia|]); simpl.
  - done.
  - apply not_elem_of_cons in Hh as [Hy Hh]. apply not_eq_sym, Nat.eqb_neq in Hy.
    rewrite Hy. destruct Hc as (Hn & Hp & Hc).
    apply fmap_Some in Hp as (B & HB & _). apply chain_fst in Hc as Hn'.
    unfold mbind, M_bind, getbuf, caches at 1. rewrite HB in *. simpl in Hn'.
    injection Hn' as ->. destruct (_ && _); [done|]. eapply IH; eauto with lia.
Qed.

(** The second loop looks from the least recently used end. *)
Lemma bget_recycle_spec s dev z l e p fuel :
  chain (bufs s) head l e → b_prev <$> bufs s !! e = Some p → head ∉ l → (length l < fuel)%nat →
  bget_recycle fuel p dev z s =
    match List.find (evictable (bufs s)) (reverse l) with
    | Some b => Ok b (set_bufs (alter (set_flags B_BUSY) b (alter (set_key dev z) b (bufs s))) s)
    | None => Err (Panic "bget: no buffers") s
    end.
Proof.
  revert e p fuel. induction l as [|y l IH] using rev_ind; intros e p fuel Hc Hp Hh Hf;
    (destruct fuel as [|fuel]; rewrite ?length_app in Hf; simpl in Hf; [lia|]); simpl.
  - destruct Hc as [_ Hc]. assert (p = head) as -> by congruence. by rewrite ?Nat.eqb_refl.
  - apply chain_lst in Hc as Hl. rewrite app_comm_cons, last_snoc, Hp in Hl. injection Hl as <-.
    apply chain_app in Hc as [Hc Hc2]. apply not_elem_of_app in Hh as [Hh Hy].
    assert (y ≠ head) as Hy'%Nat.eqb_neq by set_solver. rewrite Hy'.
    rewrite reverse_snoc. simpl. apply chain_fst in Hc2 as (B & HB & _)%fmap_Some.
    unfold mbind, M_bind, getbuf, evictable at 1. rewrite HB.
    destruct (_ && _) eqn:E.
    + apply lookup_lt_Some in HB as Hlt. unfold updbuf. rewrite HB. simpl.
      rewrite list_lookup_insert_eq by done. unfold set_bufs. simpl.
      rewrite (alter_insert _ _ _ _ HB), (alter_insert _ _ _ (set_key dev z B)); [done|].
      by apply list_lookup_insert_eq.
    + eapply IH; [done|by rewrite HB|done|lia].
Qed.

Lemma find_cases (f : nat → bool) (l : list nat) :
  (∃ b, List.find f l = Some b ∧ b ∈ l ∧ f b = true) ∨
  (List.find f l = None ∧ ∀ b, b ∈ l → f b = false).
Proof.
  destruct (List.find f l) as [b|] eqn:E; [left|right].
  - apply List.find_some in E as [Hin Hf]. apply list_elem_of_In in Hin. eauto.
  - split; [done|]. intros b Hb%list_elem_of_In. by eapply List.find_none.
Qed.

(** [bget] returns a buffer, sleeps on one, or panics; never runs out of fuel. *)
Lemma bget_spec s l dev z :
  lru (bufs s) l →
  bget dev z s =
    match List.find (caches (bufs s) dev z) l with
    | Some b =>
        if match bufs s !! b with Some B => fl_test (b_flags B) B_BUSY | None => false end
        then Err (Sleep "buf" b) s
        else Ok b (set_bufs (alter (λ B, set_flags (Z.lor (b_flags B) B_BUSY) B) b (bufs s)) s)
    | None =>
        match List.find (evictable (bufs s)) (reverse l) with
        | Some b => Ok b (set_bufs (alter (set_flags B_BUSY) b (alter (set_key dev z) b (bufs s))) s)
        | None => Err (Panic "bget: no buffers") s
        end
    end.
Proof.
  intros (Hlen & Hperm & Hc).
  assert (head ∉ l) as Hh by (rewrite Hperm, elem_of_seq; lia).
  assert (length l = NBUF) as Hl by (by rewrite Hperm, length_seq).
  assert (is_Some (bufs s !! head)) as [h Hh'] by (apply lookup_lt_is_Some; lia).
  pose proof (chain_fst _ _ _ _ Hc) as Hf. rewrite Hh' in Hf. simpl in Hf. injection Hf as Hf.
  unfold bget, mbind, M_bind. unfold getbuf at 1. rewrite Hh', Hf.
  erewrite bget_scan_spec by (done || lia).
  destruct (find_cases (caches (bufs s) dev z) l) as [(b & -> & _ & Hcb)|[-> _]].
  - unfold getbuf, caches in *. destruct (bufs s !! b) as [B|] eqn:HB; [|done].
    destruct (fl_test (b_flags B) B_BUSY); [done|]. simpl. unfold updbuf.
    by rewrite HB, (alter_insert _ _ _ _ HB).
  - unfold getbuf. rewrite Hh'. eapply bget_recycle_spec; [done|by rewrite Hh'|done|lia].
Qed.

(** ** The abstraction relation *)

(** The flags of a buffer in use: it has been read, so [B_VALID] is set. *)
Definition fl_of (busy dirty : bool) : Z := Z.b2z busy + 2 + 4 * Z.b2z dirty.

Lemma fl_of_busy b d : fl_test (fl_of b d) B_BUSY = b.
Proof. by destruct b, d. Qed.
Lemma fl_of_busy0 b d : (Z.land (fl_of b d) B_BUSY =? 0) = negb b.
Proof. by destruct b, d. Qed.
Lemma fl_of_dirty0 b d : (Z.land (fl_of b d) B_DIRTY =? 0) = negb d.
Proof. by destruct b, d. Qed.
Lemma fl_of_valid b d : fl_test (fl_of b d) B_VALID = true.
Proof. by destruct b, d. Qed.
Lemma fl_of_dirty b d : fl_test (fl_of b d) B_DIRTY = d.
Proof. by destruct b, d. Qed.
Lemma fl_of_set_busy b d : Z.lor (fl_of b d) B_BUSY = fl_of true d.
Proof. by destruct b, d. Qed.
Lemma fl_of_clear_busy b d : Z.land (fl_of b d) (Z.lnot B_BUSY) = fl_of false d.
Proof. by destruct b, d. Qed.
Lemma fl_of_set_dirty b d : Z.lor (fl_of b d) B_DIRTY = fl_of b true.
Proof. by destruct b, d. Qed.
Lemma fl_of_written b : Z.lor (Z.land (fl_of b true) (Z.lnot B_DIRTY)) B_VALID = fl_of b false.
Proof. by destruct b. Qed.

Create Rewrite HintDb fl.
#[export] Hint Rewrite fl_of_busy fl_of_busy0 fl_of_dirty0 fl_of_valid fl_of_dirty fl_of_set_busy
  fl_of_clear_busy fl_of_set_dirty fl_of_written : fl.

Definition in_range (s : bst) (z : Z) : Prop := 0 ≤ z < Z.of_nat (length (disk s)).

(** Buffer [b] is either unused, or caches sector [z] of the disk: its flags
    say whether it is held and whether it is pinned, its data is the logical
    content of [z], and a clean free buffer agrees with the disk. *)
Definition bufrep (s : bst) (V : Z → block) (H : gmap Z nat) (D : gset Z)
    (b : nat) (B : buf) : Prop :=
  length (b_data B) = BSIZE ∧
  ((b_dev B ≠ 1 ∧ b_flags B = 0) ∨
   (b_dev B = 1 ∧ in_range s (b_sector B) ∧
    b_flags B = fl_of (bool_decide (H !! b_sector B = Some b)) (bool_decide (b_sector B ∈ D)) ∧
    b_data B = V (b_sector B) ∧
    (b_sector B ∉ D → H !! b_sector B = None → disk s !! Z.to_nat (b_sector B) = Some (b_data B)))).

(** Some buffer caches sector [z]. *)
Definition cached (s : bst) (z : Z) (b : nat) : Prop :=
  ∃ B, (b < NBUF)%nat ∧ bufs s !! b = Some B ∧ b_dev B = 1 ∧ b_sector B = z.

Record brep (s : bst) (V : Z → block) (H : gmap Z nat) (D : gset Z) : Prop := {
  br_lru : ∃ l, lru (bufs s) l;
  br_size : Z.of_nat (length (disk s)) ≤ max_sectors;
  br_disk : ∀ i d, disk s !! i = Some d → length d = BSIZE;
  br_buf : ∀ b B, (b < NBUF)%nat → bufs s !! b = Some B → bufrep s V H D b B;
  br_uniq : ∀ z b b', cached s z b → cached s z b' → b = b';
  br_held : ∀ z b, H !! z = Some b → cached s z b;
  br_dirty : ∀ z, z ∈ D → ∃ b, cached s z b;
  br_miss : ∀ z, in_range s z → (∀ b, ¬ cached s z b) → disk s !! Z.to_nat z = Some (V z);
}.

Lemma caches_cached s z b :
  (b < NBUF)%nat → caches (bufs s) 1 z b = true ↔ cached s z b.
Proof.
  intros Hb. unfold caches, cached. destruct (bufs s !! b) as [B|]; [|naive_solver].
  rewrite andb_true_iff, !Z.eqb_eq. naive_solver.
Qed.

Lemma cached_cases s z : (∃ b, cached s z b) ∨ ∀ b, ¬ cached s z b.
Proof.
  destruct (find_cases (caches (bufs s) 1 z) (seq 0 NBUF)) as [(b&_&Hb&Hc)|[_ Hno]].
  - left. exists b. apply elem_of_seq in Hb. apply caches_cached; [lia|done].
  - right. intros b Hc. pose proof Hc as (?&Hb&_).
    assert (b ∈ seq 0 NBUF) as Hb'%Hno by (apply elem_of_seq; lia).
    apply caches_cached in Hc; [congruence|done].
Qed.

(** The relation depends on the logical content pointwise. *)
Lemma brep_ext s V V' H D : (∀ z, V z = V' z) → brep s V H D → brep s V' H D.
Proof.
  intros HV [? ? ? Hb ? ? ? Hm]. split; try done.
  - intros b B Hlt HB. destruct (Hb b B Hlt HB) as (Hl & [?|(?&?&?&Hd&?)]); (split; [done|]); [by left|].
    right. rewrite <-HV. done.
  - intros z. rewrite <-HV. auto.
Qed.

Section brep_facts.
Context (s : bst) (V : Z → block) (H : gmap Z nat) (D : gset Z).
Hypothesis HR : brep s V H D.

Lemma cached_bufrep z b B :
  cached s z b → bufs s !! b = Some B →
  in_range s z ∧ length (b_data B) = BSIZE ∧ b_dev B = 1 ∧ b_sector B = z ∧
  b_flags B = fl_of (bool_decide (H !! z = Some b)) (bool_decide (z ∈ D)) ∧ b_data B = V z ∧
  (z ∉ D → H !! z = None → disk s !! Z.to_nat z = Some (V z)).
Proof.
  intros (B' & Hb & HB' & Hdev & <-) HB. assert (B' = B) as -> by congruence.
  destruct (br_buf _ _ _ _ HR _ _ Hb HB) as (? & [[]|(?&?&?&Hd&?)]); [done|].
  rewrite <-Hd. done.
Qed.

(** The disk holds the logical content of every sector that is neither held
    nor pinned. *)
Lemma brep_clean z :
  in_range s z → H !! z = None → z ∉ D → disk s !! Z.to_nat z = Some (V z).
Proof.
  intros Hz Hh Hd.
  destruct (cached_cases s z) as [[b Hc]|Hn]; [|by apply (br_miss _ _ _ _ HR)].
  pose proof Hc as (B & _ & HB & _). by apply (cached_bufrep _ _ _ Hc HB).
Qed.

(** If fewer than [NBUF] sectors are held or pinned, [bget] finds a buffer to
    recycle. *)
Lemma brep_evictable l :
  lru (bufs s) l → (size (dom H ∪ D) < NBUF)%nat →
  ∃ b, List.find (evictable (bufs s)) (reverse l) = Some b ∧ (b < NBUF)%nat.
Proof.
  intros (Hlen & Hperm & _) Hsz.
  assert (∀ b, b ∈ reverse l ↔ (b < NBUF)%nat) as Hin.
  { intros b. rewrite reverse_Permutation, Hperm, elem_of_seq. lia. }
  destruct (find_cases (evictable (bufs s)) (reverse l)) as [(b&?&?%Hin&?)|[_ Hno]]; [eauto|].
  exfalso.
  assert (∀ b, (b < NBUF)%nat → ∃ z, cached s z b ∧ z ∈ dom H ∪ D) as Hall.
  { intros b Hb. specialize (Hno b (proj2 (Hin b) Hb)). unfold evictable in Hno.
    assert (is_Some (bufs s !! b)) as [B HB] by (apply lookup_lt_is_Some; lia).
    rewrite HB in Hno.
    destruct (br_buf _ _ _ _ HR _ _ Hb HB) as (_ & [[_ Hf]|(Hd & _ & Hf & _)]).
    { by rewrite Hf in Hno. }
    exists (b_sector B). split; [by exists B|]. rewrite elem_of_union, elem_of_dom.
    rewrite Hf in Hno. repeat case_bool_decide; naive_solver. }
  assert (∃ g : nat → Z, ∀ b, (b < NBUF)%nat → cached s (g b) b ∧ g b ∈ dom H ∪ D) as [g Hg].
  { exists (λ b, match bufs s !! b with Some B => b_sector B | None => 0 end).
    intros b Hb. destruct (Hall b Hb) as (z & Hc & Hz). destruct Hc as (B & ? & HB & ? & <-).
    rewrite HB. split; [by exists B|done]. }
  assert (NoDup (g <$> seq 0 NBUF)) as Hnd.
  { apply NoDup_fmap_2_strong; [|apply NoDup_seq]. intros x y Hx Hy Hxy.
    apply elem_of_seq in Hx, Hy. eapply (br_uniq _ _ _ _ HR (g x)); [apply Hg; lia|].
    rewrite Hxy. apply Hg; lia. }
  assert (list_to_set (g <$> seq 0 NBUF) ⊆ dom H ∪ D) as Hsub.
  { intros z. rewrite elem_of_list_to_set, list_elem_of_fmap. intros (b & -> & Hb%elem_of_seq).
    apply Hg. lia. }
  apply subseteq_size in Hsub. rewrite size_list_to_set in Hsub by done.
  rewrite length_fmap, length_seq in Hsub. lia.
Qed.

End brep_facts.

(** ** One buffer changes: the workhorse of the preservation proofs.

    Buffer [b] comes to cache sector [z]; every other buffer keeps its content,
    and [V], [H], [D] and the disk change at [z] only. *)
Lemma brep_upd s s' V V' H H' D D' b z f d :
  brep s V H D →
  (b < NBUF)%nat → in_range s z →
  (∃ l, lru (bufs s') l) →
  core <$> bufs s' !! b = Some (f, 1, z, d) →
  (∀ b', b' ≠ b → core <$> bufs s' !! b' = core <$> bufs s !! b') →
  (∀ b', cached s z b' → b' = b) →
  (∀ z0, cached s z0 b → z0 ≠ z → H !! z0 = None ∧ z0 ∉ D) →
  (∀ y, y ≠ z → V' y = V y ∧ H' !! y = H !! y ∧ (y ∈ D' ↔ y ∈ D)) →
  length (disk s') = length (disk s) →
  (∀ i, i ≠ Z.to_nat z → disk s' !! i = disk s !! i) →
  (∀ i d', disk s' !! i = Some d' → length d' = BSIZE) →
  length d = BSIZE → d = V' z → (H' !! z = None ∨ H' !! z = Some b) →
  f = fl_of (bool_decide (H' !! z = Some b)) (bool_decide (z ∈ D')) →
  (z ∉ D' → H' !! z = None → disk s' !! Z.to_nat z = Some d) →
  brep s' V' H' D'.
Proof.
  intros HR Hb Hz Hlru Hcb Hoth Hun Hold Hpt Hdl Hdo Hdlen Hd Hdv Hh Hf Hcl.
  assert (∀ y b', b' ≠ b → cached s' y b' ↔ cached s y b') as Hco.
  { intros y b' Hne. specialize (Hoth b' Hne). unfold cached.
    split; intros (B & Hlt & HB & Hdev & Hsec); rewrite HB in Hoth; simpl in Hoth.
    - symmetry in Hoth. apply fmap_Some in Hoth as (B0 & HB0 & [=]). exists B0. split_and!; congruence.
    - apply fmap_Some in Hoth as (B0 & HB0 & [=]). exists B0. split_and!; congruence. }
  assert (∀ y, cached s' y b ↔ y = z) as Hcz.
  { intros y. apply fmap_Some in Hcb as (B & HB & [=]). split.
    - intros (B0&?&?&?&?). congruence.
    - intros ->. exists B. split_and!; congruence. }
  assert (∀ y, in_range s' y ↔ in_range s y) as Hrg by (intros; unfold in_range; by rewrite Hdl).
  assert (∀ y b', cached s y b' → b' ≠ b → y ≠ z) as Hyz by (intros ??? Hne ->; auto).
  split.
  - done.
  - rewrite Hdl. apply HR.
  - done.
  - intros b' B' Hb' HB'. destruct (decide (b' = b)) as [->|Hne].
    + rewrite HB' in Hcb. injection Hcb as Hf' Hdev' Hs' Hd'.
      split; [congruence|]. right. rewrite Hs', Hd', Hrg, Hf'. done.
    + specialize (Hoth b' Hne). rewrite HB' in Hoth. simpl in Hoth. symmetry in Hoth.
      apply fmap_Some in Hoth as (B & HB & Hc). injection Hc as Hfl Hdv' Hsc Hdt.
      destruct (br_buf _ _ _ _ HR _ _ Hb' HB) as (Hl & [[??]|(Hdev & Hr & Hff & Hda & Hdk)]).
      { split; [congruence|]. left. split; congruence. }
      assert (b_sector B ≠ z) as Hsz by (apply (Hyz _ b'); [by exists B|done]).
      destruct (Hpt _ Hsz) as (HV & HH & HD).
      split; [congruence|]. right. rewrite Hdv', Hsc, Hfl, Hdt, Hrg, HV, HH, Hdo.
      * split_and!; [done|done| |done|by rewrite HD]. rewrite Hff. by rewrite (bool_decide_ext _ _ HD).
      * unfold in_range in *. lia.
  - intros y b1 b2 H1 H2.
    destruct (decide (b1 = b)) as [->|], (decide (b2 = b)) as [->|]; [done|..].
    + apply Hcz in H1 as ->. apply Hco in H2; [|done]. by rewrite (Hun _ H2).
    + apply Hcz in H2 as ->. apply Hco in H1; [|done]. by rewrite (Hun _ H1).
    + apply Hco in H1, H2; [|done..]. by eapply (br_uniq _ _ _ _ HR).
  - intros y b' Hy. destruct (decide (y = z)) as [->|Hne].
    + destruct Hh; [congruence|]. assert (b' = b) as -> by congruence. by apply Hcz.
    + rewrite (proj1 (proj2 (Hpt _ Hne))) in Hy. apply (br_held _ _ _ _ HR) in Hy as Hc.
      apply Hco; [|done]. intros ->. destruct (Hold y Hc Hne). congruence.
  - intros y Hy. destruct (decide (y = z)) as [->|Hne]; [exists b; by apply Hcz|].
    apply (Hpt _ Hne) in Hy. destruct (br_dirty _ _ _ _ HR _ Hy) as [b' Hc].
    exists b'. apply Hco; [|done]. intros ->. by destruct (Hold y Hc Hne).
  - intros y Hy Hno. apply Hrg in Hy. destruct (decide (y = z)) as [->|Hne].
    + destruct (Hno b). by apply Hcz.
    + rewrite Hdo by (unfold in_range in *; lia). destruct (Hpt _ Hne) as (-> & _).
      destruct (cached_cases s y) as [[b' Hc]|Hn]; [|by apply (br_miss _ _ _ _ HR)].
      destruct (decide (b' = b)) as [->|Hbb].
      * destruct (Hold y Hc Hne). by eapply brep_clean.
      * destruct (Hno b'). by apply Hco.
Qed.

(** Changing one buffer's content leaves the list alone. *)
Lemma lru_alter bs l b f :
  (∀ B, b_next (f B) = b_next B ∧ b_prev (f B) = b_prev B) → lru bs l → lru (alter f b bs) l.
Proof.
  intros Hf (Hlen & Hperm & Hc). split_and!; [by rewrite length_alter|done|].
  eapply chain_keep; [| |exact Hc]; intros z; symmetry; apply fmap_alter_keep; apply Hf.
Qed.

Lemma lru_insert bs l b B B' :
  bs !! b = Some B → b_next B' = b_next B → b_prev B' = b_prev B →
  lru bs l → lru (<[b := B']> bs) l.
Proof.
  intros HB Hn Hp (Hlen & Hperm & Hc). split_and!; [by rewrite length_insert|done|].
  apply lookup_lt_Some in HB as Hlt.
  eapply chain_keep; [| |exact Hc]; intros z; (destruct (decide (b = z)) as [<-|];
    [rewrite list_lookup_insert_eq, HB by done; simpl; congruence|by rewrite list_lookup_insert_ne]).
Qed.

Lemma core_alter_ne (bs : list buf) f b b' :
  b' ≠ b → core <$> alter f b bs !! b' = core <$> bs !! b'.
Proof. intros. by rewrite list_lookup_alter_ne. Qed.

Lemma length_alter_bufs (s : bst) f b : length (alter f b (bufs s)) = length (bufs s).
Proof. apply length_alter. Qed.

(** Holding a buffer that is cached and free. *)
Lemma brep_hold s V H D z b :
  brep s V H D → cached s z b → H !! z = None →
  brep (set_bufs (alter (λ B, set_flags (Z.lor (b_flags B) B_BUSY) B) b (bufs s)) s)
    V (<[z := b]> H) D.
Proof.
  intros HR Hc Hfree. destruct (br_lru _ _ _ _ HR) as [l Hl].
  pose proof Hc as (B & Hb & HB & Hdev & Hsec).
  pose proof (cached_bufrep _ _ _ _ HR _ _ _ Hc HB) as (Hz&Hlen&_&_&Hf&Hd&Hcl).
  eapply (brep_upd s _ V V H _ D D b z (fl_of true (bool_decide (z ∈ D)))); try done; simpl.
  - exists l. by apply lru_alter.
  - rewrite list_lookup_alter_eq, HB. unfold core. simpl. by rewrite Hdev, Hsec, Hf, fl_of_set_busy.
  - intros b' ?. by apply core_alter_ne.
  - intros b' ?. by eapply (br_uniq _ _ _ _ HR).
  - intros z0 (B0&?&?&?&?). naive_solver congruence.
  - intros y ?. by rewrite lookup_insert_ne.
  - apply (br_disk _ _ _ _ HR).
  - rewrite lookup_insert_eq. auto.
  - by rewrite lookup_insert_eq, (bool_decide_eq_true_2 (Some b = _)).
  - intros _. by rewrite lookup_insert_eq.
Qed.

(** A buffer that may be recycled caches nothing that is held or pinned. *)
Lemma evictable_free s V H D b z0 :
  brep s V H D → evictable (bufs s) b = true → cached s z0 b → H !! z0 = None ∧ z0 ∉ D.
Proof.
  intros HR Hev Hc. pose proof Hc as (B & _ & HB & _). unfold evictable in Hev. rewrite HB in Hev.
  pose proof (cached_bufrep _ _ _ _ HR _ _ _ Hc HB) as (_&_&_&_&Hf&_).
  rewrite Hf in Hev. autorewrite with fl in Hev.
  apply andb_true_iff in Hev as [Hnb%negb_true_iff%bool_decide_eq_false
                                 Hnd%negb_true_iff%bool_decide_eq_false].
  split; [|done]. apply eq_None_not_Some. intros [b' Hb']. apply Hnb.
  rewrite Hb'. f_equal. eapply (br_uniq _ _ _ _ HR z0); [|done]. by apply (br_held _ _ _ _ HR).
Qed.

(** Recycling a buffer for a sector that is not cached, and reading it. *)
Lemma brep_fill s V H D z b B :
  brep s V H D → in_range s z → H !! z = None → (∀ b', ¬ cached s z b') →
  (b < NBUF)%nat → evictable (bufs s) b = true → bufs s !! b = Some B →
  let B1 := set_flags B_BUSY (set_key 1 z B) in
  let s1 := set_bufs (alter (set_flags B_BUSY) b (alter (set_key 1 z) b (bufs s))) s in
  brep (sync_buf b B1 s1) V (<[z := b]> H) D.
Proof.
  intros HR Hz Hfree Hunc Hb Hev HB B1 s1. destruct (br_lru _ _ _ _ HR) as [l Hl].
  pose proof (br_miss _ _ _ _ HR _ Hz Hunc) as Hd.
  assert (bufs s1 !! b = Some B1) as HB1.
  { unfold s1. simpl. by rewrite !list_lookup_alter_eq, HB. }
  unfold sync_buf. change (fl_test _ _) with false. cbn [disk set_bufs s1].
  change (b_sector B1) with z. rewrite (list_lookup_total_correct _ _ _ Hd).
  eapply (brep_upd s _ V V H _ D D b z (fl_of true false)); try done; simpl.
  - exists l. eapply lru_insert; [done..|]. by do 2 (apply lru_alter; [done|]).
  - rewrite list_lookup_insert_eq; [done|]. by eapply lookup_lt_Some.
  - intros b' ?. rewrite list_lookup_insert_ne by done. by rewrite !core_alter_ne.
  - intros b' ?. by destruct (Hunc b').
  - intros z0 Hc _. by eapply evictable_free.
  - intros y ?. by rewrite lookup_insert_ne.
  - apply (br_disk _ _ _ _ HR).
  - by eapply (br_disk _ _ _ _ HR).
  - rewrite lookup_insert_eq. auto.
  - rewrite lookup_insert_eq, bool_decide_eq_true_2 by done. rewrite bool_decide_eq_false_2; [done|].
    intros [b' ?]%(br_dirty _ _ _ _ HR). by destruct (Hunc b').
Qed.

Section bio_specs.
Context `{BD : BlockDev}.

(** [bread] returns the buffer of the sector, held by the caller, with the
    sector's logical content; neither the disk nor any content changes. *)
Lemma bread_spec s V H D z :
  brep s V H D → in_range s z → H !! z = None → (z ∈ D ∨ size (dom H ∪ D) < NBUF)%nat →
  wp (bread 1 z) (λ b s',
    brep s' V (<[z := b]> H) D ∧ disk s' = disk s ∧ trace s' = trace s) s.
Proof.
  intros HR Hz Hfree Hroom. destruct (br_lru _ _ _ _ HR) as [l Hl].
  unfold bread. apply wp_bind. unfold wp at 1. rewrite (bget_spec _ _ _ _ Hl).
  destruct (find_cases (caches (bufs s) 1 z) l)
    as [(b & -> & Hb%(lru_elem _ _ _ Hl) & Hc)|[-> Hno]].
  - apply caches_cached in Hc; [|done]. pose proof Hc as (B & _ & HB & Hdev & Hsec).
    pose proof (cached_bufrep _ _ _ _ HR _ _ _ Hc HB) as (_&_&_&_&Hf&_).
    rewrite (bool_decide_eq_false_2 (H !! z = Some b)) in Hf by congruence.
    rewrite HB, Hf. autorewrite with fl.
    apply wp_bind. eapply wp_getbuf; [simpl; by rewrite list_lookup_alter_eq, HB|].
    simpl. rewrite Hf. autorewrite with fl. simpl.
    apply wp_bind, wp_ret, wp_ret. split_and!; [by apply brep_hold|done|done].
  - assert (∀ b', ¬ cached s z b') as Hunc.
    { intros b' Hc. pose proof Hc as (?&?&_). apply caches_cached in Hc; [|done].
      rewrite Hno in Hc; [done|]. by apply (lru_elem _ _ _ Hl). }
    destruct Hroom as [[b' ?]%(br_dirty _ _ _ _ HR)|Hroom]; [by destruct (Hunc b')|].
    destruct (brep_evictable _ _ _ _ HR l Hl Hroom) as (b & Hfe & Hb). rewrite Hfe.
    apply List.find_some in Hfe as [_ Hev].
    assert (is_Some (bufs s !! b)) as [B HB].
    { apply lookup_lt_is_Some. destruct Hl as [-> _]. lia. }
    apply wp_bind. eapply wp_getbuf; [simpl; by rewrite !list_lookup_alter_eq, HB|]. simpl.
    apply wp_bind. unfold wp at 1.
    rewrite (iderw_spec b (set_flags B_BUSY (set_key 1 z B))); [|try done..].
    + apply wp_ret. split_and!; [|by unfold sync_buf..].
      by apply brep_fill.
    + simpl. by rewrite !list_lookup_alter_eq, HB.
    + apply HR.
Qed.

(** What a holder knows of its buffer. *)
Lemma brep_holder s V H D z b :
  brep s V H D → H !! z = Some b →
  ∃ B, bufs s !! b = Some B ∧ (b < NBUF)%nat ∧ b_dev B = 1 ∧ b_sector B = z ∧ in_range s z ∧
    b_flags B = fl_of true (bool_decide (z ∈ D)) ∧ b_data B = V z ∧ length (V z) = BSIZE.
Proof.
  intros HR Hh. pose proof (br_held _ _ _ _ HR _ _ Hh) as Hc.
  pose proof Hc as (B & Hb & HB & _). exists B.
  pose proof (cached_bufrep _ _ _ _ HR _ _ _ Hc HB) as (?&?&?&?&Hf&Hd&_).
  rewrite (bool_decide_eq_true_2 (H !! z = Some b)) in Hf by done.
  rewrite <-Hd. done.
Qed.

(** A change of a held buffer that keeps its key and its links. *)
Lemma brep_set s V V' H D D' z b B f d dk tr :
  brep s V H D → H !! z = Some b → bufs s !! b = Some B →
  (∀ y, y ≠ z → V' y = V y) → (∀ y, y ≠ z → y ∈ D' ↔ y ∈ D) →
  length dk = length (disk s) → (∀ i, i ≠ Z.to_nat z → dk !! i = disk s !! i) →
  (∀ i d', dk !! i = Some d' → length d' = BSIZE) →
  length d = BSIZE → d = V' z → f = fl_of true (bool_decide (z ∈ D')) →
  brep (mkBst (<[b := set_flags f (set_data d B)]> (bufs s)) dk tr) V' H D'.
Proof.
  intros HR Hh HB HV HD Hdl Hdo Hdlen Hd Hdv Hf.
  destruct (br_lru _ _ _ _ HR) as [l Hl].
  destruct (brep_holder _ _ _ _ _ _ HR Hh) as (B0 & HB0 & Hb & Hdev & Hsec & Hz & _).
  assert (B0 = B) as -> by congruence. pose proof (br_held _ _ _ _ HR _ _ Hh) as Hc.
  eapply (brep_upd s _ V V' H H D D' b z f d); try done; simpl.
  - exists l. by eapply lru_insert.
  - rewrite list_lookup_insert_eq by by eapply lookup_lt_Some. unfold core. simpl. congruence.
  - intros b' ?. by rewrite list_lookup_insert_ne.
  - intros b' ?. by eapply (br_uniq _ _ _ _ HR).
  - intros z0 (B1&?&?&?&?) ?. congruence.
  - intros y ?. split_and!; auto; by apply HD.
  - auto.
  - by rewrite (bool_decide_eq_true_2 (H !! z = Some b)).
  - intros _. congruence.
Qed.

(** Stores into a held buffer change the logical content of its sector. *)
Lemma bstore_spec s V H D z b g :
  brep s V H D → H !! z = Some b → length (g (V z)) = BSIZE →
  wp (bstore b g) (λ _ s',
    brep s' (<[z := g (V z)]> V) H D ∧ disk s' = disk s ∧ trace s' = trace s) s.
Proof.
  intros HR Hh Hlen. destruct (brep_holder _ _ _ _ _ _ HR Hh) as (B & HB & _ & _ & _ & _ & Hf & Hd & _).
  unfold wp, bstore, updbuf. rewrite HB. split_and!; [|done|done].
  replace (set_data (g (b_data B)) B) with (set_flags (b_flags B) (set_data (g (b_data B)) B)) by done.
  eapply brep_set; try done.
  - intros y ?. by rewrite fn_lookup_insert_ne.
  - apply (br_disk _ _ _ _ HR).
  - congruence.
  - by rewrite fn_lookup_insert, Hd.
Qed.

(** [b->flags |= B_DIRTY] pins a held buffer. *)
Lemma bpin_spec s V H D z b :
  brep s V H D → H !! z = Some b →
  wp (updbuf b (λ B, set_flags (Z.lor (b_flags B) B_DIRTY) B)) (λ _ s',
    brep s' V H ({[z]} ∪ D) ∧ disk s' = disk s ∧ trace s' = trace s) s.
Proof.
  intros HR Hh. destruct (brep_holder _ _ _ _ _ _ HR Hh) as (B & HB & _ & _ & _ & _ & Hf & Hd & Hl).
  unfold wp, updbuf. rewrite HB. split_and!; [|done|done].
  replace B with (set_data (b_data B) B) at 2 by by destruct B.
  eapply brep_set; try done.
  - set_solver.
  - apply (br_disk _ _ _ _ HR).
  - congruence.
  - rewrite Hf, fl_of_set_dirty, bool_decide_eq_true_2 by set_solver. done.
Qed.

(** [bwrite] writes a held buffer through to the disk. *)
Lemma bwrite_spec s V H D z b :
  brep s V H D → H !! z = Some b →
  wp (bwrite b) (λ _ s',
    brep s' V H (D ∖ {[z]}) ∧ disk s' = <[Z.to_nat z := V z]> (disk s) ∧
    trace s' = trace s ++ [(z, V z)]) s.
Proof.
  intros HR Hh.
  destruct (brep_holder _ _ _ _ _ _ HR Hh) as (B & HB & Hb & Hdev & Hsec & Hz & Hf & Hd & Hl).
  unfold bwrite. apply wp_bind. eapply wp_getbuf; [done|]. rewrite Hf. autorewrite with fl. simpl.
  apply wp_bind. unfold wp at 1, updbuf. rewrite HB, Hf, fl_of_set_dirty.
  set (B1 := set_flags _ B). apply lookup_lt_Some in HB as Hlt.
  unfold wp. rewrite (iderw_spec b B1).
  - unfold sync_buf. change (fl_test (b_flags B1) B_DIRTY) with true. cbn [set_bufs bufs disk trace].
    change (Z.lor (Z.land (b_flags B1) _) _) with (fl_of true false).
    change (b_sector B1) with (b_sector B). change (b_data B1) with (b_data B).
    rewrite list_insert_insert_eq, Hsec, Hd. split_and!; [|done|done].
    replace (set_flags (fl_of true false) B1) with (set_flags (fl_of true false) (set_data (V z) B))
      by (rewrite <-Hd; by destruct B).
    eapply brep_set; try done.
    + set_solver.
    + by rewrite length_insert.
    + intros i ?. by rewrite list_lookup_insert_ne.
    + intros i d'. rewrite list_lookup_insert_Some. intros [(_&<-&_)|[_ ?]]; [done|].
      by eapply (br_disk _ _ _ _ HR).
    + rewrite bool_decide_eq_false_2 by set_solver. done.
  - by apply list_lookup_insert_eq.
  - done.
  - done.
  - done.
  - change (b_sector B1) with (b_sector B). by rewrite Hsec.
  - apply HR.
Qed.

(** [brelse] gives a buffer back, provided the cache may forget it or it is
    pinned. *)
Lemma brelse_spec s V H D z b :
  brep s V H D → H !! z = Some b → (z ∈ D ∨ disk s !! Z.to_nat z = Some (V z)) →
  wp (brelse b) (λ _ s',
    brep s' V (delete z H) D ∧ disk s' = disk s ∧ trace s' = trace s) s.
Proof.
  intros HR Hh Hok. destruct (br_lru _ _ _ _ HR) as [l Hl].
  destruct (brep_holder _ _ _ _ _ _ HR Hh) as (B & HB & Hb & Hdev & Hsec & Hz & Hf & Hd & Hlen).
  pose proof (br_held _ _ _ _ HR _ _ Hh) as Hc.
  assert (b ∈ l) as (l1 & l2 & ->)%list_elem_of_split by by apply (lru_elem _ _ _ Hl).
  eapply wp_mono; [eapply brelse_lru; [done|done|by rewrite Hf, fl_of_busy]|].
  intros _ s' (Hl' & Hdk & Htr & Hcore). split_and!; [|done|done].
  eapply (brep_upd s s' V V H _ D D b z (fl_of false (bool_decide (z ∈ D))) (V z)); try done.
  - eauto.
  - rewrite Hcore. decs. by rewrite Hf, fl_of_clear_busy, Hdev, Hsec, Hd.
  - intros b' ?. rewrite Hcore. by decs.
  - intros b' ?. by eapply (br_uniq _ _ _ _ HR).
  - intros z0 (B1&?&?&?&?) ?. congruence.
  - intros y ?. by rewrite lookup_delete_ne.
  - by rewrite Hdk.
  - intros i ?. by rewrite Hdk.
  - rewrite Hdk. apply (br_disk _ _ _ _ HR).
  - left. apply lookup_delete_eq.
  - rewrite lookup_delete_eq. done.
  - rewrite Hdk. intros ? _. by destruct Hok.
Qed.

End bio_specs.

(** ** [binit] makes an empty cache. *)
Lemma binit_run dk tr :
  ∃ bs, binit (mkBst bcache0 dk tr) = Ok tt (mkBst bs dk tr) ∧
    lru bs (reverse (seq 0 NBUF)) ∧
    Forall (λ B, b_flags B = 0 ∧ b_dev B = 2 ^ 32 - 1 ∧ length (b_data B) = BSIZE) (take NBUF bs).
Proof.
  eexists. split_and!; [vm_compute; reflexivity|split_and!|].
  - done.
  - by rewrite reverse_Permutation.
  - vm_compute. tauto.
  - repeat (constructor; [by vm_compute|]). constructor.
Qed.

Lemma binit_spec dk tr :
  Z.of_nat (length dk) ≤ max_sectors →
  (∀ i d, dk !! i = Some d → length d = BSIZE) →
  wp binit (λ _ s', brep s' (λ z, dk !!! Z.to_nat z) ∅ ∅ ∧ disk s' = dk ∧ trace s' = tr)
    (mkBst bcache0 dk tr).
Proof.
  intros Hsz Hdk. destruct (binit_run dk tr) as (bs & Hrun & Hl & Hall).
  unfold wp. rewrite Hrun. clear Hrun. split_and!; [|done|done].
  assert (∀ b B, (b < NBUF)%nat → bs !! b = Some B →
    b_flags B = 0 ∧ b_dev B ≠ 1 ∧ length (b_data B) = BSIZE) as Hbuf.
  { intros b B Hb HB. rewrite Forall_lookup in Hall. destruct (Hall b B) as (?&Hd&?).
    - by rewrite lookup_take_lt.
    - split_and!; [done|rewrite Hd; lia|done]. }
  assert (∀ z b, ¬ cached (mkBst bs dk tr) z b) as Hno.
  { intros z b (B & Hb & HB & Hd & _). by destruct (Hbuf b B Hb HB) as (_&?&_). }
  split; try done.
  - by eexists.
  - intros b B Hb HB. destruct (Hbuf b B Hb HB) as (?&?&?). split; [done|]. by left.
  - intros z b b' Hc. by destruct (Hno z b).
  - intros z Hz _. unfold in_range in Hz. simpl in *.
    apply list_lookup_lookup_total_lt. lia.
Qed.

(** ** The cache refines a disk

    A client of the cache reads sectors, changes the buffers it holds, writes
    them through and releases them. The abstract disk has contents [a_val], the
    set [a_held] of sectors in use and the set [a_mod] of those changed and not
    written. *)
Inductive cop :=
| CRead (z : Z)
| CStore (z : Z) (f : block → block)
| CWrite (z : Z)
| CRelse (z : Z).

Record adisk := mkA { a_val : Z → block; a_held : gset Z; a_mod : gset Z }.

(** The abstract machine: [None] where the protocol is broken; otherwise the
    next state and what a read returns. *)
Definition astep (n : Z) (a : adisk) (op : cop) : option (adisk * list block) :=
  match op with
  | CRead z =>
      if decide (0 ≤ z < n ∧ (z ∉ a_held a) ∧ (size (a_held a) < NBUF)%nat)
      then Some (mkA (a_val a) ({[z]} ∪ a_held a) (a_mod a), [a_val a z]) else None
  | CStore z f =>
      if decide (z ∈ a_held a ∧ length (f (a_val a z)) = BSIZE)
      then Some (mkA (<[z := f (a_val a z)]> (a_val a)) (a_held a) ({[z]} ∪ a_mod a), []) else None
  | CWrite z =>
      if decide (z ∈ a_held a) then Some (mkA (a_val a) (a_held a) (a_mod a ∖ {[z]}), []) else None
  | CRelse z =>
      if decide (z ∈ a_held a ∧ z ∉ a_mod a)
      then Some (mkA (a_val a) (a_held a ∖ {[z]}) (a_mod a), []) else None
  end.

Fixpoint asteps (n : Z) (a : adisk) (ops : list cop) : option (adisk * list block) :=
  match ops with
  | [] => Some (a, [])
  | op :: ops' =>
      r ← astep n a op; r' ← asteps n r.1 ops'; Some (r'.1, r.2 ++ r'.2)
  end.

Section refine.
Context `{BD : BlockDev}.

(** The same client, calling the cache; it keeps the buffers it got in [h]. *)
Definition cstep (h : gmap Z nat) (op : cop) : M bst (gmap Z nat * list block) :=
  match op with
  | CRead z => b ← bread 1 z; B ← getbuf b; mret (<[z := b]> h, [b_data B])
  | CStore z f => b ← deref (h !! z); bstore b f;; mret (h, [])
  | CWrite z => b ← deref (h !! z); bwrite b;; mret (h, [])
  | CRelse z => b ← deref (h !! z); brelse b;; mret (delete z h, [])
  end.

Fixpoint csteps (h : gmap Z nat) (ops : list cop) : M bst (gmap Z nat * list block) :=
  match ops with
  | [] => mret (h, [])
  | op :: ops' => r ← cstep h op; r' ← csteps r.1 ops'; mret (r'.1, r.2 ++ r'.2)
  end.

(** The simulation relation. *)
Definition sim (n : Z) (s : bst) (h : gmap Z nat) (a : adisk) : Prop :=
  brep s (a_val a) h ∅ ∧ dom h = a_held a ∧ n = Z.of_nat (length (disk s)) ∧
  ∀ z, 0 ≤ z < n → z ∉ a_mod a → disk s !! Z.to_nat z = Some (a_val a z).

Lemma cstep_sim n s h a op a' out :
  sim n s h a → astep n a op = Some (a', out) →
  wp (cstep h op) (λ r s', sim n s' r.1 a' ∧ r.2 = out) s.
Proof.
  intros (HR & Hdom & -> & Hclean) Ha. destruct op as [z|z f|z|z]; simpl in Ha |- *;
    case_decide as Hg; simplify_eq; rewrite <-Hdom in Hg.
  - destruct Hg as (Hz & Hh & Hroom). rewrite not_elem_of_dom in Hh.
    apply wp_bind. eapply wp_mono; [apply (bread_spec _ _ _ _ _ HR Hz Hh)|].
    { right. by rewrite union_empty_r_L. }
    intros b s' (HR' & Hd & _). destruct (brep_holder _ _ _ _ z b HR') as (B & HB & _ & _ & _ & _ & _ & HBd & _);
      [apply lookup_insert_eq|].
    apply wp_bind. eapply wp_getbuf; [done|]. apply wp_ret. unfold sim. simpl.
    rewrite dom_insert_L, Hdom, Hd, HBd. done.
  - destruct Hg as [Hh Hlen]. apply elem_of_dom in Hh as [b Hb].
    apply wp_bind. eapply wp_deref; [done|]. apply wp_bind.
    eapply wp_mono; [by apply (bstore_spec _ _ _ _ _ _ _ HR Hb)|].
    intros _ s' (HR' & Hd & _). apply wp_ret. unfold sim. simpl. rewrite Hdom, Hd.
    split_and!; try done. intros y Hy Hn. rewrite fn_lookup_insert_ne by set_solver.
    apply Hclean; set_solver.
  - apply elem_of_dom in Hg as [b Hb]. apply wp_bind. eapply wp_deref; [done|]. apply wp_bind.
    eapply wp_mono; [by apply (bwrite_spec _ _ _ _ _ _ HR Hb)|].
    intros _ s' (HR' & Hd & _). apply wp_ret. unfold sim. simpl. rewrite Hdom, Hd, length_insert.
    replace (∅ ∖ {[z]}) with (∅ : gset Z) in HR' by set_solver. split_and!; try done. intros y Hy Hn.
    destruct (brep_holder _ _ _ _ z b HR Hb) as (_ & _ & _ & _ & _ & [Hz0 Hz1] & _).
    destruct (decide (y = z)) as [->|].
    + apply list_lookup_insert_eq. lia.
    + rewrite list_lookup_insert_ne by lia. apply Hclean; set_solver.
  - destruct Hg as [Hh Hm]. apply elem_of_dom in Hh as [b Hb].
    apply wp_bind. eapply wp_deref; [done|]. apply wp_bind.
    destruct (brep_holder _ _ _ _ z b HR Hb) as (_ & _ & _ & _ & _ & Hz & _).
    eapply wp_mono; [apply (brelse_spec _ _ _ _ _ _ HR Hb); right; by apply Hclean|].
    intros _ s' (HR' & Hd & _). apply wp_ret. unfold sim. simpl. rewrite dom_delete_L, Hdom, Hd. done.
Qed.

Lemma csteps_sim n ops : ∀ s h a a' out,
  sim n s h a → asteps n a ops = Some (a', out) →
  wp (csteps h ops) (λ r s', sim n s' r.1 a' ∧ r.2 = out) s.
Proof.
  induction ops as [|op ops IH]; intros s h a a' out Hs Ha; simpl in Ha |- *.
  { by simplify_eq. }
  apply bind_Some in Ha as ([a1 o1] & Ha1 & Ha). simpl in Ha.
  apply bind_Some in Ha as ([a2 o2] & Ha2 & Ha). simplify_eq. simpl.
  apply wp_bind. eapply wp_mono; [by eapply cstep_sim|]. intros [h1 r1] s1 [Hs1 Hr1]. simpl in *.
  apply wp_bind. eapply wp_mono; [by eapply IH|]. intros [h2 r2] s2 [Hs2 Hr2]. simpl in *. subst.
  by apply wp_ret.
Qed.

(** C2: the buffer cache refines a plain disk. Started by [binit] over any disk
    of whole sectors, and used by any sequence of operations that the abstract
    machine allows (at most [NBUF] buffers held, a changed buffer written
    before it is released), bread, bwrite and brelse never panic, sleep or run
    out of the list, every read returns the contents the abstract disk has,
    and the sectors that are not being changed are on the disk. *)
Theorem cache_refines_disk dk ops a' out :
  Z.of_nat (length dk) ≤ max_sectors →
  (∀ i d, dk !! i = Some d → length d = BSIZE) →
  asteps (Z.of_nat (length dk)) (mkA (λ z, dk !!! Z.to_nat z) ∅ ∅) ops = Some (a', out) →
  wp (binit;; csteps ∅ ops) (λ r s',
      r.2 = out ∧ dom r.1 = a_held a' ∧
      ∀ z, 0 ≤ z < Z.of_nat (length dk) → z ∉ a_mod a' → disk s' !! Z.to_nat z = Some (a_val a' z))
    (mkBst bcache0 dk []).
Proof.
  intros Hsz Hdk Ha. apply wp_bind. eapply wp_mono; [by apply binit_spec|].
  intros _ s1 (HR & Hd & _). eapply wp_mono; [eapply csteps_sim; [|exact Ha]|].
  - split_and!; [done|apply dom_empty_L|by rewrite Hd|].
    intros z Hz _. simpl. rewrite Hd. apply list_lookup_lookup_total_lt. lia.
  - intros r s' [(_ & Hdom & _ & Hclean) Hr]. auto.
Qed.

End refine.

Lemma cache_refines_disk_witness :
  let z := replicate BSIZE 0 in let o := replicate BSIZE 1 in
  wp (binit;; csteps ∅ [CRead 0; CStore 0 (λ _, o); CRead 1; CWrite 0; CRelse 0; CRead 0])
    (λ r s', r.2 = [z; z; o] ∧ dom r.1 = {[0; 1]}) (mkBst bcache0 [z; z] []).
Proof.
  intros z o. eapply wp_mono.
  - eapply (cache_refines_disk [z; z] [CRead 0; CStore 0 (λ _, o); CRead 1; CWrite 0; CRelse 0; CRead 0]).
    + simpl. lia.
    + intros i d Hi. apply list_elem_of_lookup_2 in Hi. revert d Hi. apply Forall_forall.
      by repeat constructor.
    + vm_compute. reflexivity.
  - intros r s' (Hr & Hd & _). split; [exact Hr|]. rewrite Hd. vm_compute. reflexivity.
Defined.
