(* ===== verification/Log.v ===== *)
(** * The redo log (log.c) and the super block (fs.h, [readsb] of fs.c)

    A transaction collects modified blocks in the on-disk log; [commit_trans]
    writes the header (the commit point), copies the blocks to their home
    locations and erases the header. [recover_from_log] does the same copy at
    boot. The lemmas on crashes quantify over every prefix of the sector writes
    that reach the disk. *)

From S2P Require Import Prelude Buf Bio.

(** ** Data *)

(** fs.h: [struct superblock]. *)
Record superblock := mkSb {
  sb_size : Z;
  sb_nblocks : Z;
  sb_ninodes : Z;
  sb_nlog : Z;
}.

(** The bytes of a [struct superblock], as [memmove] copies them. *)
Definition sb_of_bytes (d : block) : superblock :=
  mkSb (get_u32 0 d) (get_u32 4 d) (get_u32 8 d) (get_u32 12 d).

Definition LOGSIZE : nat := 10.
#[global] Arguments LOGSIZE : simpl never.
Definition sizeof_logheader : nat := 4 + 4 * LOGSIZE.

(** [struct log]; [struct logheader lh] is spread into [lh_n] and [lh_sector].
    The lock is modelled in Spinlock.v. *)
Record log := mkLog {
  log_start : Z;
  log_size : Z;
  log_busy : Z;
  log_dev : Z;
  lh_n : Z;
  lh_sector : list Z;
}.

(** The log before [initlog]: static storage, all zero. *)
Definition log0 : log := mkLog 0 0 0 0 0 (replicate LOGSIZE 0).

Record lst := mkLst { blk : bst; lg : log }.

#[export] Instance bst_lst : Layer bst lst := {|
  low := blk;
  set_low s t := mkLst s (lg t);
  low_set := λ s t, eq_refl;
  set_set_low := λ s s' t, eq_refl;
|}.

Definition getlog {A} (f : log → A) : M lst A := gets (λ t, f (lg t)).
Definition set_n (n : Z) : M lst unit := modify (λ t, mkLst (blk t)
  (mkLog (log_start (lg t)) (log_size (lg t)) (log_busy (lg t)) (log_dev (lg t)) n (lh_sector (lg t)))).
Definition set_busy (v : Z) : M lst unit := modify (λ t, mkLst (blk t)
  (mkLog (log_start (lg t)) (log_size (lg t)) v (log_dev (lg t)) (lh_n (lg t)) (lh_sector (lg t)))).
Definition set_geometry (start size dev : Z) : M lst unit := modify (λ t, mkLst (blk t)
  (mkLog start size (log_busy (lg t)) dev (lh_n (lg t)) (lh_sector (lg t)))).
(** [log.lh.sector[i] = z]: out of the array is undefined behaviour. *)
Definition set_sector (i : nat) (z : Z) : M lst unit := λ t,
  if (i <? LOGSIZE)%nat then
    Ok tt (mkLst (blk t) (mkLog (log_start (lg t)) (log_size (lg t)) (log_busy (lg t))
      (log_dev (lg t)) (lh_n (lg t)) (<[i := z]> (lh_sector (lg t)))))
  else Err Undef t.
Definition get_sector (i : nat) : M lst Z := λ t,
  match lh_sector (lg t) !! i with Some z => Ok z t | None => Err Undef t end.

(** ** Operations *)
Section Log.
Context `{BD : BlockDev}.

(** fs.c: read the super block. *)
Definition readsb (dev : Z) : M bst superblock :=
  bp ← bread (u32 dev) 1;
  B ← getbuf bp;
  brelse bp;;
  mret (sb_of_bytes (b_data B)).

(** One iteration of [install_trans]: copy the log block [tail] to its home. *)
Definition install_one (tail : nat) : M lst unit :=
  dev ← getlog log_dev;
  start ← getlog log_start;
  lbuf ← lift (bread (u32 dev) (u32 (start + Z.of_nat tail + 1)));
  z ← get_sector tail;
  dbuf ← lift (bread (u32 dev) (u32 z));
  L ← lift (getbuf lbuf);
  lift (bstore dbuf (λ _, b_data L));;
  lift (bwrite dbuf);;
  lift (brelse lbuf);;
  lift (brelse dbuf).

(** Copy committed blocks from the log to their home location. *)
Definition install_trans : M lst unit :=
  n ← getlog lh_n;
  forM (seq 0 (Z.to_nat n)) install_one.

(** Read the log header from disk into the in-memory log header. *)
Definition read_head : M lst unit :=
  dev ← getlog log_dev;
  start ← getlog log_start;
  b ← lift (bread (u32 dev) (u32 start));
  B ← lift (getbuf b);
  let lh := b_data B in
  set_n (get_s32 0 lh);;
  n ← getlog lh_n;
  forM (seq 0 (Z.to_nat n)) (λ i, set_sector i (get_s32 (4 + 4 * i) lh));;
  lift (brelse b).

(** The stores of [write_head] into the header block. *)
Definition put_header (n : Z) (secs : list Z) (d : block) : block :=
  foldl (λ d i, put_32 (4 + 4 * i) (secs !!! i) d) (put_32 0 n d) (seq 0 (Z.to_nat n)).

(** Write the in-memory log header to disk: the true point at which the
    current transaction commits. *)
Definition write_head : M lst unit :=
  dev ← getlog log_dev;
  start ← getlog log_start;
  b ← lift (bread (u32 dev) (u32 start));
  n ← getlog lh_n;
  secs ← getlog lh_sector;
  if (Z.to_nat n <=? length secs)%nat then
    lift (bstore b (put_header n secs));;
    lift (bwrite b);;
    lift (brelse b)
  else undef.

Definition recover_from_log : M lst unit :=
  read_head;;
  install_trans;;
  set_n 0;;
  write_head.

Definition initlog : M lst unit :=
  if (BSIZE <=? sizeof_logheader)%nat then panic "initlog: too big logheader" else
  sb ← lift (readsb ROOTDEV);
  set_geometry (s32 (sb_size sb - sb_nlog sb)) (s32 (sb_nlog sb)) ROOTDEV;;
  recover_from_log.

Definition begin_trans : M lst unit :=
  busy ← getlog log_busy;
  if negb (busy =? 0) then stopM (Sleep "log" 0) else set_busy 1.

Definition commit_trans : M lst unit :=
  n ← getlog lh_n;
  (if n >? 0 then
     write_head;;
     install_trans;;
     set_n 0;;
     write_head
   else mret tt);;
  set_busy 0.

(** The absorption loop of [log_write]: the first [i < n] with
    [sector[i] == z], else [n]. *)
Fixpoint log_slot (secs : list Z) (n : nat) (z : Z) {struct n} : nat :=
  match n, secs with
  | S n', y :: secs' => if u32 y =? z then O else S (log_slot secs' n' z)
  | _, _ => O
  end.

Definition log_write (b : nat) : M lst unit :=
  n ← getlog lh_n;
  size ← getlog log_size;
  if (n >=? Z.of_nat LOGSIZE) || (n >=? size - 1) then panic "too big a transaction" else
  busy ← getlog log_busy;
  if busy =? 0 then panic "write outside of trans" else
  B ← lift (getbuf b);
  secs ← getlog lh_sector;
  let i := log_slot secs (Z.to_nat n) (b_sector B) in
  set_sector i (s32 (b_sector B));;
  start ← getlog log_start;
  lbuf ← lift (bread (b_dev B) (u32 (start + Z.of_nat i + 1)));
  B' ← lift (getbuf b);
  lift (bstore lbuf (λ _, b_data B'));;
  lift (bwrite lbuf);;
  lift (brelse lbuf);;
  (if (i =? Z.to_nat n)%nat then set_n (n + 1) else mret tt);;
  lift (updbuf b (λ B, set_flags (Z.lor (b_flags B) B_DIRTY) B)).

End Log.

(** ** The abstraction relation of the log layer

    [V] is the logical content of the disk, [H] the buffers held, [L] the
    sectors logged by the current transaction in order, and [U] the held
    sectors whose buffer was changed and not yet passed to [log_write]. *)
Definition in_log (g : log) (z : Z) : Prop := log_start g ≤ z < log_start g + log_size g.

(** The parts of [struct log] that [initlog] sets. *)
Definition geometry (t : lst) : Prop :=
  log_dev (lg t) = 1 ∧ 2 ≤ log_start (lg t) ∧ 1 ≤ log_size (lg t) ≤ Z.of_nat NBUF ∧
  log_start (lg t) + log_size (lg t) ≤ Z.of_nat (length (disk (blk t))) ≤ max_sectors ∧
  length (lh_sector (lg t)) = LOGSIZE.

Record lrep (t : lst) (V : Z → block) (H : gmap Z nat) (L : list Z) (U : gset Z) : Prop := {
  lr_brep : brep (blk t) V H (list_to_set L);
  lr_geo : geometry t;
  lr_n : lh_n (lg t) = Z.of_nat (length L);
  lr_secs : take (length L) (lh_sector (lg t)) = L;
  lr_nodup : NoDup L;
  lr_cap : Z.of_nat (length L) ≤ log_size (lg t) - 1;
  lr_home : ∀ z, z ∈ L ∨ z ∈ dom H → in_range (blk t) z ∧ ¬ in_log (lg t) z;
  lr_unlogged : U ⊆ dom H;
  lr_logged : ∀ i z, L !! i = Some z → z ∉ U →
    disk (blk t) !! Z.to_nat (log_start (lg t) + Z.of_nat i + 1) = Some (V z);
  lr_clean : ∀ z, in_range (blk t) z → z ∉ L → z ∉ U → disk (blk t) !! Z.to_nat z = Some (V z);
  lr_head : get_s32 0 (V (log_start (lg t))) = 0;
}.

(** ** Headers *)

(** The sectors named by a header block. *)
Definition header_secs (d : block) (n : nat) : list Z := (λ i, get_s32 (4 + 4 * i) d) <$> seq 0 n.

Lemma put_32_other off off' z l :
  (off' + 4 ≤ length l)%nat → (off + 4 ≤ off' ∨ off' + 4 ≤ off)%nat →
  get_s32 off (put_32 off' z l) = get_s32 off l.
Proof. intros. unfold get_s32. by rewrite get_put_u32_ne. Qed.

Lemma s32_u32 z : - 2 ^ 31 ≤ z < 2 ^ 31 → s32 (u32 z) = z.
Proof.
  intros Hz. unfold s32, u32. rewrite Zplus_mod_idemp_l. rewrite Z.mod_small; lia.
Qed.

Lemma get_put_s32 off z l :
  (off + 4 ≤ length l)%nat → - 2 ^ 31 ≤ z < 2 ^ 31 → get_s32 off (put_32 off z l) = z.
Proof. intros. unfold get_s32. rewrite get_put_u32 by done. by apply s32_u32. Qed.

Lemma put_header_aux (secs : list Z) d n k :
  (4 + 4 * (k + n) ≤ length d)%nat →
  let d' := foldl (λ d i, put_32 (4 + 4 * i) (secs !!! i) d) d (seq k n) in
  length d' = length d ∧ (∀ off, (off + 4 ≤ 4 + 4 * k)%nat → get_s32 off d' = get_s32 off d) ∧
  (∀ i, (k ≤ i < k + n)%nat → - 2 ^ 31 ≤ secs !!! i < 2 ^ 31 →
    get_s32 (4 + 4 * i) d' = secs !!! i).
Proof.
  revert d k. induction n as [|n IH]; intros d k Hlen; cbn [seq foldl].
  - split_and!; [done|done|lia].
  - assert (length (put_32 (4 + 4 * k) (secs !!! k) d) = length d) as Hl
      by (apply length_put_32; lia).
    destruct (IH (put_32 (4 + 4 * k) (secs !!! k) d) (S k)) as (H1 & H2 & H3); [lia|].
    split_and!.
    + by rewrite H1.
    + intros off Ho. rewrite H2 by lia. apply put_32_other; lia.
    + intros i Hi Hr. destruct (decide (i = k)) as [->|].
      * rewrite H2 by lia. apply get_put_s32; [lia|done].
      * apply H3; [lia|done].
Qed.

Lemma length_put_header n secs d :
  length d = BSIZE → (n ≤ LOGSIZE)%nat → length (put_header (Z.of_nat n) secs d) = BSIZE.
Proof.
  intros Hd Hn. unfold put_header. rewrite Nat2Z.id. unfold LOGSIZE, BSIZE in *.
  assert (length (put_32 0 (Z.of_nat n) d) = 512%nat) as Hl by (rewrite length_put_32; lia).
  destruct (put_header_aux secs (put_32 0 (Z.of_nat n) d) n 0) as (-> & _); lia.
Qed.

(** [read_head] reads back what [write_head] stored. *)
Lemma put_header_spec n (secs : list Z) d :
  length d = BSIZE → (n ≤ LOGSIZE)%nat →
  (∀ i, (i < n)%nat → - 2 ^ 31 ≤ secs !!! i < 2 ^ 31) →
  let d' := put_header (Z.of_nat n) secs d in
  length d' = BSIZE ∧ get_s32 0 d' = Z.of_nat n ∧
  ∀ i, (i < n)%nat → get_s32 (4 + 4 * i) d' = secs !!! i.
Proof.
  intros Hd Hn Hs. unfold put_header. rewrite Nat2Z.id. unfold LOGSIZE, BSIZE in *.
  assert (length (put_32 0 (Z.of_nat n) d) = 512%nat) as Hl by (rewrite length_put_32; lia).
  destruct (put_header_aux secs (put_32 0 (Z.of_nat n) d) n 0) as (H1 & H2 & H3); [lia|].
  split_and!.
  - lia.
  - rewrite H2 by lia. apply get_put_s32; lia.
  - intros i Hi. apply H3; [lia|]. by apply Hs.
Qed.

(** ** Specifications at the level of the buffer cache *)

(** Look through the layer. *)
Ltac nrm := cbn [low set_low bst_lst blk lg] in *.

Lemma dev1 : u32 1 = 1.
Proof. done. Qed.

Section head_specs.
Context `{BD : BlockDev}.

Lemma delete_insert_None (H : gmap Z nat) z b : H !! z = None → delete z (<[z := b]> H) = H.
Proof. apply delete_insert_id. Qed.

(** [write_head] writes the header block, and nothing else. *)
Lemma write_head_spec t V H D n :
  brep (blk t) V H D → geometry t → lh_n (lg t) = Z.of_nat n → (n ≤ LOGSIZE)%nat →
  H !! log_start (lg t) = None → log_start (lg t) ∉ D → (size (dom H ∪ D) < NBUF)%nat →
  let d := put_header (Z.of_nat n) (lh_sector (lg t)) (V (log_start (lg t))) in
  wp write_head (λ _ t',
    lg t' = lg t ∧ brep (blk t') (<[log_start (lg t) := d]> V) H D ∧
    disk (blk t') = <[Z.to_nat (log_start (lg t)) := d]> (disk (blk t)) ∧
    trace (blk t') = trace (blk t) ++ [(log_start (lg t), d)]) t.
Proof.
  intros HR (Hdev & Hst & Hsz & Hend & Hlen) Hn HnL HH HD Hroom d.
  assert (in_range (blk t) (log_start (lg t))) as Hz by (unfold in_range; lia).
  unfold write_head. do 2 (apply wp_bind, wp_gets).
  rewrite Hdev, dev1, u32_small by lia. apply wp_bind, wp_lift.
  eapply wp_mono; [by eapply bread_spec; eauto|]. intros b s1 (R1 & Hd1 & Ht1). nrm.
  do 2 (apply wp_bind, wp_gets). simpl. rewrite Hn, Nat2Z.id, Hlen.
  replace (n <=? LOGSIZE)%nat with true by (symmetry; by apply Nat.leb_le).
  assert (<[log_start (lg t) := b]> H !! log_start (lg t) = Some b) as Hh by apply lookup_insert_eq.
  pose proof (brep_holder _ _ _ _ _ _ R1 Hh) as (_ & _ & _ & _ & _ & _ & _ & _ & HVl).
  apply wp_bind, wp_lift. eapply wp_mono;
    [eapply (bstore_spec _ _ _ _ _ _ (put_header _ _)); [done..|by apply length_put_header]|].
  intros _ s2 (R2 & Hd2 & Ht2). nrm.
  apply wp_bind, wp_lift. eapply wp_mono; [by eapply bwrite_spec|].
  intros _ s3 (R3 & Hd3 & Ht3). nrm. rewrite fn_lookup_insert in Hd3, Ht3.
  replace (D ∖ {[log_start (lg t)]}) with D in R3 by set_solver.
  apply wp_lift. eapply wp_mono.
  { eapply brelse_spec; [done..|]. right. rewrite fn_lookup_insert. simpl. rewrite Hd3.
    apply list_lookup_insert_eq. unfold in_range in Hz. rewrite Hd2, Hd1. lia. }
  intros _ s4 (R4 & Hd4 & Ht4). nrm. rewrite delete_insert_id in R4 by done.
  rewrite Hd4, Hd3, Ht4, Ht3, Hd2, Ht2, Hd1, Ht1. done.
Qed.

(** Sector writes, on the disk and on its logical content. *)
Definition apply_writes (ws : list (Z * block)) (d : list block) : list block :=
  foldl (λ d w, <[Z.to_nat w.1 := w.2]> d) d ws.
Definition apply_view (ws : list (Z * block)) (V : Z → block) : Z → block :=
  foldl (λ V w, <[w.1 := w.2]> V) V ws.

Lemma install_one_spec t V H D i z :
  brep (blk t) V H D → geometry t → Z.of_nat i < log_size (lg t) - 1 →
  lh_sector (lg t) !! i = Some z → in_range (blk t) z →
  let l := log_start (lg t) + Z.of_nat i + 1 in
  l ≠ z → H !! l = None → H !! z = None → l ∉ D →
  (size (dom H ∪ D) < NBUF)%nat → (z ∈ D ∨ S (size (dom H ∪ D)) < NBUF)%nat →
  wp (install_one i) (λ _ t',
    lg t' = lg t ∧ brep (blk t') (<[z := V l]> V) H (D ∖ {[z]}) ∧
    disk (blk t') = <[Z.to_nat z := V l]> (disk (blk t)) ∧
    trace (blk t') = trace (blk t) ++ [(z, V l)]) t.
Proof.
  intros HR (Hdev & Hst & Hsz & Hend & Hlen) Hi Hz Hzr l Hlz Hl HzH HlD Hr1 Hr2.
  assert (in_range (blk t) l) as Hlr by (unfold in_range, l in *; lia).
  unfold install_one. do 2 (apply wp_bind, wp_gets).
  rewrite Hdev, dev1, u32_small by (unfold in_range, l in *; lia).
  apply wp_bind, wp_lift. eapply wp_mono; [by eapply bread_spec; eauto|]. fold l.
  intros lb s1 (R1 & Hd1 & Ht1). nrm.
  apply wp_bind. unfold wp at 1, get_sector. nrm. rewrite Hz.
  rewrite (u32_small z) by (unfold in_range in *; lia).
  apply wp_bind, wp_lift. eapply wp_mono.
  { eapply (bread_spec _ _ _ _ z); [done|unfold in_range; nrm; by rewrite Hd1|by rewrite lookup_insert_ne|].
    destruct Hr2 as [?|Hr2]; [by left|right]. rewrite dom_insert_L, <-(assoc_L (∪)).
    eapply Nat.le_lt_trans; [apply size_union_le|]. by rewrite size_singleton. }
  intros db s2 (R2 & Hd2 & Ht2). nrm.
  assert (<[z:=db]> (<[l:=lb]> H) !! l = Some lb) as Hhl
    by by rewrite lookup_insert_ne, lookup_insert_eq.
  assert (<[z:=db]> (<[l:=lb]> H) !! z = Some db) as Hhz by by rewrite lookup_insert_eq.
  destruct (brep_holder _ _ _ _ _ _ R2 Hhl) as (Lb & HLb & _ & _ & _ & _ & _ & HLd & HVl).
  apply wp_bind, wp_lift. eapply wp_getbuf; [done|]. nrm.
  apply wp_bind, wp_lift. eapply wp_mono; [eapply (bstore_spec _ _ _ _ z); [done..|by rewrite HLd]|].
  intros _ s3 (R3 & Hd3 & Ht3). nrm. rewrite HLd in R3.
  apply wp_bind, wp_lift. eapply wp_mono; [by eapply (bwrite_spec _ _ _ _ z)|].
  intros _ s4 (R4 & Hd4 & Ht4). nrm. rewrite fn_lookup_insert in Hd4, Ht4.
  assert (disk (blk t) !! Z.to_nat l = Some (V l)) as Hdl by by eapply brep_clean.
  apply wp_bind, wp_lift. eapply wp_mono.
  { eapply (brelse_spec _ _ _ _ l); [done..|]. right. nrm. rewrite Hd4, Hd3, Hd2, Hd1.
    rewrite fn_lookup_insert_ne by done. rewrite list_lookup_insert_ne; [done|].
    unfold in_range in *. lia. }
  intros _ s5 (R5 & Hd5 & Ht5). nrm.
  apply wp_lift. eapply wp_mono.
  { eapply (brelse_spec _ _ _ _ z); [done|by rewrite lookup_delete_ne|]. right. nrm.
    rewrite Hd5, Hd4, Hd3, Hd2, Hd1, fn_lookup_insert. apply list_lookup_insert_eq.
    unfold in_range in *. lia. }
  intros _ s6 (R6 & Hd6 & Ht6). nrm.
  rewrite delete_insert_ne, (delete_insert_id H), delete_insert_id in R6 by done.
  rewrite Hd6, Hd5, Hd4, Hd3, Hd2, Hd1, Ht6, Ht5, Ht4, Ht3, Ht2, Ht1. done.
Qed.

(** The writes that install the sectors [L] of a log that starts at [start]. *)
Definition installs (start : Z) (V : Z → block) (L : list Z) : list (Z * block) :=
  imap (λ i z, (z, V (start + Z.of_nat i + 1))) L.

Lemma apply_view_ne ws V z : (∀ w, w ∈ ws → w.1 ≠ z) → apply_view ws V z = V z.
Proof.
  revert V. induction ws as [|w ws IH]; intros V Hw; [done|].
  unfold apply_view in *. simpl. rewrite IH by set_solver.
  apply fn_lookup_insert_ne. set_solver.
Qed.

Lemma apply_view_snoc ws w V : apply_view (ws ++ [w]) V = <[w.1 := w.2]> (apply_view ws V).
Proof. unfold apply_view. by rewrite foldl_app. Qed.
Lemma apply_writes_snoc ws w d : apply_writes (ws ++ [w]) d = <[Z.to_nat w.1 := w.2]> (apply_writes ws d).
Proof. unfold apply_writes. by rewrite foldl_app. Qed.
Lemma apply_writes_app ws ws' d : apply_writes (ws ++ ws') d = apply_writes ws' (apply_writes ws d).
Proof. unfold apply_writes. by rewrite foldl_app. Qed.
Lemma length_apply_writes ws d : length (apply_writes ws d) = length d.
Proof.
  revert d. induction ws as [|w ws IH]; intros d; [done|].
  unfold apply_writes in *. simpl. by rewrite IH, length_insert.
Qed.

Lemma installs_lookup start V L i :
  installs start V L !! i = (λ z, (z, V (start + Z.of_nat i + 1))) <$> L !! i.
Proof. unfold installs. by rewrite list_lookup_imap. Qed.

Lemma installs_take_fst start V L k w : w ∈ take k (installs start V L) → w.1 ∈ take k L.
Proof.
  intros (i & Hi)%list_elem_of_lookup. apply lookup_take_Some in Hi as [Hi Hk].
  rewrite installs_lookup in Hi. apply fmap_Some in Hi as (z & Hz & ->). simpl.
  apply list_elem_of_lookup. exists i. by rewrite lookup_take_lt.
Qed.

(** [install_trans] writes each logged block to its home, in log order. *)
Lemma install_trans_spec t V D L :
  brep (blk t) V ∅ D → geometry t →
  lh_n (lg t) = Z.of_nat (length L) → take (length L) (lh_sector (lg t)) = L →
  Z.of_nat (length L) ≤ log_size (lg t) - 1 →
  (∀ z, z ∈ L → in_range (blk t) z ∧ ¬ in_log (lg t) z) →
  (∀ z, in_log (lg t) z → z ∉ D) → (size D < NBUF)%nat →
  (NoDup L ∧ list_to_set L ⊆ D ∨ S (size D) < NBUF)%nat →
  let W := installs (log_start (lg t)) V L in
  wp install_trans (λ _ t',
    lg t' = lg t ∧ brep (blk t') (apply_view W V) ∅ (D ∖ list_to_set L) ∧
    disk (blk t') = apply_writes W (disk (blk t)) ∧ trace (blk t') = trace (blk t) ++ W) t.
Proof.
  intros HR Hgeo Hn Hsecs Hcap Hhome HlogD Hroom Hpin W.
  unfold install_trans. apply wp_bind, wp_gets. rewrite Hn, Nat2Z.id.
  set (I := λ (l : list nat) t', ∃ k, l = seq k (length L - k) ∧ (k ≤ length L)%nat ∧
    lg t' = lg t ∧ brep (blk t') (apply_view (take k W) V) ∅ (D ∖ list_to_set (take k L)) ∧
    disk (blk t') = apply_writes (take k W) (disk (blk t)) ∧
    trace (blk t') = trace (blk t) ++ take k W).
  assert (length W = length L) as HlW by apply length_imap.
  eapply wp_mono; [apply (wp_forM _ _ I)|].
  - exists 0%nat. rewrite Nat.sub_0_r, !take_0, app_nil_r. simpl.
    replace (D ∖ ∅) with D by set_solver. split_and!; [done|lia|done..].
  - intros i l t' (k & Hl & Hk & Hlg & HR' & Hdk & Htr).
    destruct (decide (k = length L)) as [->|Hne]; [by rewrite Nat.sub_diag in Hl|].
    replace (length L - k)%nat with (S (length L - S k)) in Hl by lia. injection Hl as -> ->.
    assert (is_Some (L !! k)) as [z Hz] by (apply lookup_lt_is_Some; lia).
    assert (z ∈ L) as HzL by (apply list_elem_of_lookup; eauto).
    destruct (Hhome z HzL) as [Hzr Hznl].
    set (lb := log_start (lg t) + Z.of_nat k + 1).
    assert (in_log (lg t) lb) as Hlb by (unfold in_log, lb; lia).
    assert (apply_view (take k W) V lb = V lb) as HVl.
    { apply apply_view_ne. intros w Hw%installs_take_fst Heq. rewrite Heq in Hw.
      destruct (Hhome lb); [|done]. apply list_elem_of_lookup in Hw as (?&?%lookup_take_Some).
      apply list_elem_of_lookup. naive_solver. }
    assert (length (disk (blk t')) = length (disk (blk t))) as Hdl
      by by rewrite Hdk, length_apply_writes.
    assert (W !! k = Some (z, V lb)) as HW by (unfold W; by rewrite installs_lookup, Hz).
    assert (size (dom (∅ : gmap Z nat) ∪ D ∖ list_to_set (take k L)) ≤ size D)%nat
      by (apply subseteq_size; set_solver).
    eapply wp_mono; [eapply (install_one_spec t' _ _ _ k z)|]; rewrite ?Hlg; try done.
    + unfold geometry in *. by rewrite Hlg, Hdl.
    + lia.
    + rewrite <-Hsecs, lookup_take_lt in Hz by lia. done.
    + unfold in_range. by rewrite Hdl.
    + fold lb. congruence.
    + fold lb. apply HlogD in Hlb. set_solver.
    + lia.
    + destruct Hpin as [[Hnd Hsub]|]; [left|right; lia].
      apply elem_of_difference. split; [set_solver|]. rewrite elem_of_list_to_set.
      intros (j & Hj)%list_elem_of_lookup. apply lookup_take_Some in Hj as [Hj Hjk].
      assert (j = k) by by eapply NoDup_lookup. lia.
    + fold lb. rewrite HVl. intros _ t'' (Hlg' & HR'' & Hdk' & Htr'). exists (S k).
      rewrite (take_S_r _ _ _ HW), (take_S_r _ _ _ Hz), list_to_set_app_L, apply_view_snoc, apply_writes_snoc.
      split_and!; [done|lia|congruence| |by rewrite Hdk', Hdk|by rewrite Htr', Htr, app_assoc].
      simpl. replace (D ∖ _) with ((D ∖ list_to_set (take k L)) ∖ {[z]}) by set_solver. done.
  - intros _ t' (k & Hl & Hk & Hlg & HR' & Hdk & Htr).
    assert (k = length L) as -> by (destruct (length L - k)%nat eqn:E; [lia|done]).
    rewrite firstn_all in HR'. rewrite take_ge in HR', Hdk, Htr by lia. done.
Qed.

(** The loop of [read_head] copies the sector numbers. *)
Lemma read_secs_spec t d n :
  length (lh_sector (lg t)) = LOGSIZE → (n ≤ LOGSIZE)%nat →
  wp (forM (seq 0 n) (λ i, set_sector i (get_s32 (4 + 4 * i) d))) (λ _ t',
    blk t' = blk t ∧ length (lh_sector (lg t')) = LOGSIZE ∧
    take n (lh_sector (lg t')) = header_secs d n ∧
    log_start (lg t') = log_start (lg t) ∧ log_size (lg t') = log_size (lg t) ∧
    log_busy (lg t') = log_busy (lg t) ∧ log_dev (lg t') = log_dev (lg t) ∧
    lh_n (lg t') = lh_n (lg t)) t.
Proof.
  intros Hlen Hn.
  set (I := λ (l : list nat) t', ∃ k, l = seq k (n - k) ∧ (k ≤ n)%nat ∧
    blk t' = blk t ∧ length (lh_sector (lg t')) = LOGSIZE ∧
    take k (lh_sector (lg t')) = header_secs d k ∧
    log_start (lg t') = log_start (lg t) ∧ log_size (lg t') = log_size (lg t) ∧
    log_busy (lg t') = log_busy (lg t) ∧ log_dev (lg t') = log_dev (lg t) ∧
    lh_n (lg t') = lh_n (lg t)).
  eapply wp_mono; [apply (wp_forM _ _ I)|].
  - exists 0%nat. rewrite Nat.sub_0_r. split_and!; try done. lia.
  - intros i l t' (k & Hl & Hk & Hb & Hlen' & Htake & Hrest).
    destruct (decide (k = n)) as [->|Hne]; [by rewrite Nat.sub_diag in Hl|].
    replace (n - k)%nat with (S (n - S k)) in Hl by lia. injection Hl as -> ->.
    unfold wp, set_sector. replace (k <? LOGSIZE)%nat with true by (symmetry; apply Nat.ltb_lt; lia).
    exists (S k). simpl. rewrite length_insert. split_and!; try done; [lia| |by destruct Hrest as (?&?&?&?&?)..].
    erewrite take_S_r by (apply list_lookup_insert_eq; lia).
    rewrite take_insert_ge by lia. rewrite Htake. unfold header_secs. by rewrite seq_S, fmap_app.
  - intros _ t' (k & Hl & Hk & Hrest).
    assert (k = n) as -> by (destruct (n - k)%nat eqn:E; [lia|done]). done.
Qed.

(** A header that [read_head] can take in: the log is big enough for it and its
    sectors are home locations. *)
Definition header_ok (t : lst) (d : block) : Prop :=
  0 ≤ get_s32 0 d ≤ Z.of_nat LOGSIZE ∧ get_s32 0 d ≤ log_size (lg t) - 1 ∧
  ∀ z, z ∈ header_secs d (Z.to_nat (get_s32 0 d)) → in_range (blk t) z ∧ ¬ in_log (lg t) z.

Lemma read_head_spec t V :
  brep (blk t) V ∅ ∅ → geometry t → header_ok t (V (log_start (lg t))) →
  let d := V (log_start (lg t)) in let n := Z.to_nat (get_s32 0 d) in
  wp read_head (λ _ t',
    brep (blk t') V ∅ ∅ ∧ disk (blk t') = disk (blk t) ∧ trace (blk t') = trace (blk t) ∧
    length (lh_sector (lg t')) = LOGSIZE ∧ take n (lh_sector (lg t')) = header_secs d n ∧
    lh_n (lg t') = Z.of_nat n ∧
    log_start (lg t') = log_start (lg t) ∧ log_size (lg t') = log_size (lg t) ∧
    log_busy (lg t') = log_busy (lg t) ∧ log_dev (lg t') = log_dev (lg t)) t.
Proof.
  intros HR (Hdev & Hst & Hsz & Hend & Hlen) (Hn & _ & _) d n. fold d in Hn.
  assert (in_range (blk t) (log_start (lg t))) as Hz by (unfold in_range; lia).
  unfold read_head. do 2 (apply wp_bind, wp_gets).
  rewrite Hdev, dev1, u32_small by lia. apply wp_bind, wp_lift.
  eapply wp_mono; [eapply bread_spec; [done..|right]|].
  { rewrite (union_empty_r_L (dom (∅ : gmap Z nat))), dom_empty_L, size_empty. unfold NBUF. lia. }
  intros b s1 (R1 & Hd1 & Ht1). nrm.
  destruct (brep_holder _ _ _ _ (log_start (lg t)) b R1 (lookup_insert_eq _ _ _))
    as (B & HB & _ & _ & _ & _ & _ & HBd & _).
  apply wp_bind, wp_lift. eapply wp_getbuf; [done|]. nrm. rewrite HBd. fold d.
  apply wp_bind, wp_modify. apply wp_bind, wp_gets. simpl. apply wp_bind.
  eapply wp_mono; [apply read_secs_spec; simpl; [done|lia]|].
  intros _ t2 (Hb2 & Hlen2 & Htk & H1 & H2 & H3 & H4 & H5). simpl in *.
  apply wp_lift. eapply wp_mono.
  { eapply (brelse_spec (low t2)); [nrm; by rewrite Hb2|by apply lookup_insert_eq|]. right.
    nrm. rewrite Hb2, Hd1. by eapply brep_clean. }
  intros _ s3 (R3 & Hd3 & Ht3). nrm. rewrite delete_insert_id in R3 by done.
  rewrite Hb2 in Hd3, Ht3. split_and!; try done; [congruence..| |congruence]. rewrite H5. unfold n. lia.
Qed.

(** [recover_from_log] installs the transaction that the on-disk header names,
    then erases the header. *)
Lemma recover_spec t V :
  brep (blk t) V ∅ ∅ → geometry t → header_ok t (V (log_start (lg t))) →
  let st := log_start (lg t) in
  let L := header_secs (V st) (Z.to_nat (get_s32 0 (V st))) in
  let W := installs st V L ++ [(st, put_32 0 0 (V st))] in
  wp recover_from_log (λ _ t',
    brep (blk t') (apply_view W V) ∅ ∅ ∧ geometry t' ∧
    disk (blk t') = apply_writes W (disk (blk t)) ∧ trace (blk t') = trace (blk t) ++ W ∧
    log_start (lg t') = st ∧ log_size (lg t') = log_size (lg t) ∧
    log_busy (lg t') = log_busy (lg t) ∧ lh_n (lg t') = 0) t.
Proof.
  intros HR Hgeo Hhdr st L W. pose proof Hgeo as (Hdev & Hst & Hsz & Hend & Hlen).
  pose proof Hhdr as (Hn & Hcap & Hhome). fold st in Hn, Hcap, Hhome.
  assert (length L = Z.to_nat (get_s32 0 (V st))) as HL.
  { unfold L, header_secs. by rewrite length_fmap, length_seq. }
  unfold recover_from_log. apply wp_bind. eapply wp_mono; [by apply read_head_spec|].
  intros _ t1 (R1 & Hd1 & Ht1 & Hlen1 & Hsecs1 & Hn1 & Hs1 & Hz1 & Hb1 & Hdev1).
  fold st in Hsecs1, Hn1, Hs1.
  assert (geometry t1) as Hg1 by (unfold geometry; rewrite Hdev1, Hs1, Hz1, Hd1, Hlen1; done).
  apply wp_bind. eapply wp_mono; [apply (install_trans_spec t1 V ∅ L)|]; try done.
  - by rewrite Hn1, HL.
  - by rewrite HL, Hsecs1.
  - rewrite HL, Hz1. lia.
  - intros z Hz. destruct (Hhome z Hz) as [??]. unfold in_range, in_log in *.
    rewrite Hd1, Hs1, Hz1. done.
  - rewrite size_empty. unfold NBUF. lia.
  - right. rewrite size_empty. unfold NBUF. lia.
  - rewrite Hs1. intros _ t2 (Hlg2 & R2 & Hd2 & Ht2).
    replace (∅ ∖ list_to_set L) with (∅ : gset Z) in R2 by set_solver.
    apply wp_bind, wp_modify. set (t3 := mkLst _ _).
    assert (geometry t3) as Hg3.
    { unfold geometry, t3 in *. simpl. rewrite Hlg2, Hd2, length_apply_writes. done. }
    assert (apply_view (installs st V L) V st = V st) as Hvs.
    { apply apply_view_ne. intros w Hw. rewrite <-(firstn_all (installs _ _ _)) in Hw.
      apply installs_take_fst in Hw. intros Heq. rewrite Heq in Hw.
      assert (st ∈ L) as Hin by (apply list_elem_of_lookup in Hw as (?&[? _]%lookup_take_Some);
        apply list_elem_of_lookup; eauto).
      destruct (Hhome st Hin) as [_ Hnl]. apply Hnl. unfold in_log, st. lia. }
    eapply wp_mono; [apply (write_head_spec t3 (apply_view (installs st V L) V) ∅ ∅ 0); try done|].
    + lia.
    + rewrite (union_empty_r_L (dom (∅ : gmap Z nat))), dom_empty_L, size_empty. unfold NBUF. lia.
    + intros _ t4 (Hlg4 & R4 & Hd4 & Ht4). unfold t3 in *. simpl in *.
      rewrite Hlg2, Hs1 in R4, Hd4, Ht4. rewrite Hvs in R4, Hd4, Ht4.
      unfold W. rewrite apply_view_snoc, apply_writes_snoc. unfold geometry. rewrite Hlg4, Hd4, Ht4.
      simpl. rewrite Hd2, Ht2, Hlg2, Hs1, Hz1, Hd1, Ht1, Hdev1, Hlen1, Hb1.
      rewrite length_insert, length_apply_writes, <-app_assoc. done.
Qed.

(** The absorption loop finds the slot of a sector that is logged already, and
    the next free slot otherwise. *)
Lemma log_slot_spec (secs L : list Z) z :
  take (length L) secs = L → Forall (λ y, 0 ≤ y < 2 ^ 32) L → NoDup L →
  (z ∉ L → log_slot secs (length L) z = length L) ∧
  (∀ i, L !! i = Some z → log_slot secs (length L) z = i).
Proof.
  revert secs. induction L as [|y L IH]; intros secs Htk Hr Hnd; [by split|].
  destruct secs as [|y' secs]; [done|]. simpl in Htk. injection Htk as -> Htk.
  apply Forall_cons in Hr as [Hy Hr]. apply NoDup_cons in Hnd as [HyL Hnd].
  destruct (IH secs Htk Hr Hnd) as [IH1 IH2]. simpl. rewrite u32_small by done. split.
  - intros Hz. apply not_elem_of_cons in Hz as [Hzy Hz].
    replace (y =? z) with false by (symmetry; by apply Z.eqb_neq). by rewrite IH1.
  - intros [|i] Hi; simpl in Hi.
    + injection Hi as ->. by rewrite Z.eqb_refl.
    + replace (y =? z) with false; [by rewrite (IH2 i)|]. symmetry. apply Z.eqb_neq.
      intros ->. apply HyL, list_elem_of_lookup. eauto.
Qed.

(** The sectors logged after [log_write] of [z]. *)
Definition log_add (z : Z) (L : list Z) : list Z := if decide (z ∈ L) then L else L ++ [z].

Lemma log_add_set z L : list_to_set (log_add z L) = ({[z]} ∪ list_to_set L : gset Z).
Proof. unfold log_add. case_decide; set_solver. Qed.

Lemma log_add_slot (secs L : list Z) z :
  take (length L) secs = L → Forall (λ y, 0 ≤ y < 2 ^ 32) L → NoDup L →
  let i := log_slot secs (length L) z in
  (i ≤ length L)%nat ∧ log_add z L !! i = Some z ∧
  (∀ j y, log_add z L !! j = Some y → j ≠ i → L !! j = Some y ∧ y ≠ z) ∧
  NoDup (log_add z L) ∧
  length (log_add z L) = (if (i =? length L)%nat then S (length L) else length L) ∧
  (length L < length secs → take (length (log_add z L)) (<[i := z]> secs) = log_add z L)%nat.
Proof.
  intros Htk Hr Hnd i. destruct (log_slot_spec secs L z Htk Hr Hnd) as [H1 H2].
  unfold log_add. case_decide as Hz.
  - apply list_elem_of_lookup in Hz as [k Hk]. unfold i. rewrite (H2 k Hk).
    pose proof (lookup_lt_Some _ _ _ Hk) as Hlt. split_and!; try done; [lia| | |].
    + intros j y Hj Hne. split; [done|]. intros ->. apply Hne. by eapply NoDup_lookup.
    + replace (k =? length L)%nat with false; [done|]. symmetry. apply Nat.eqb_neq. lia.
    + intros Hlen. rewrite list_insert_id; [done|]. rewrite <-Htk, lookup_take_lt in Hk by lia. done.
  - unfold i. rewrite H1 by done. rewrite Nat.eqb_refl, length_app, Nat.add_1_r. split_and!; try done.
    + by rewrite lookup_app_r, Nat.sub_diag.
    + intros j y Hj Hne. rewrite lookup_app_l in Hj.
      * split; [done|]. intros ->. apply Hz, list_elem_of_lookup. eauto.
      * apply lookup_lt_Some in Hj. rewrite length_app in Hj. simpl in Hj. lia.
    + apply NoDup_app. split_and!; [done|set_solver|apply NoDup_singleton].
    + intros Hlen. erewrite take_S_r by by apply list_lookup_insert_eq.
      by rewrite take_insert_ge, Htk.
Qed.

Lemma lrep_range t V H L U z :
  lrep t V H L U → z ∈ L ∨ z ∈ dom H → 0 ≤ z < 2 ^ 31 ∧ ¬ in_log (lg t) z.
Proof.
  intros HL Hz. destruct (lr_home _ _ _ _ _ HL z Hz) as [Hr ?]. split; [|done].
  destruct (lr_geo _ _ _ _ _ HL) as (_ & _ & _ & [_ ?] & _). unfold in_range in Hr. lia.
Qed.

(** The two panics of [log_write]. *)
Lemma log_write_panics t b :
  (Z.of_nat LOGSIZE ≤ lh_n (lg t) ∨ log_size (lg t) - 1 ≤ lh_n (lg t) →
    log_write b t = Err (Panic "too big a transaction") t) ∧
  (lh_n (lg t) < Z.of_nat LOGSIZE → lh_n (lg t) < log_size (lg t) - 1 → log_busy (lg t) = 0 →
    log_write b t = Err (Panic "write outside of trans") t).
Proof.
  unfold log_write, mbind, M_bind, getlog, gets. split.
  - intros Hb. replace (_ || _) with true; [done|]. symmetry. apply orb_true_iff. lia.
  - intros H1 H2 H3. replace (_ || _) with false; [by rewrite H3|].
    symmetry. apply orb_false_iff. lia.
Qed.

(** The relation after the log block of slot [i] took the content of [z]. *)
Lemma lrep_log_add t t' V H L U z :
  lrep t V H L U → z ∈ dom H →
  (length L < LOGSIZE)%nat → Z.of_nat (length L) < log_size (lg t) - 1 →
  let i := log_slot (lh_sector (lg t)) (length L) z in
  let l := log_start (lg t) + Z.of_nat i + 1 in
  lg t' = mkLog (log_start (lg t)) (log_size (lg t)) (log_busy (lg t)) (log_dev (lg t))
            (Z.of_nat (length (log_add z L))) (<[i := z]> (lh_sector (lg t))) →
  brep (blk t') (<[l := V z]> V) H ({[z]} ∪ list_to_set L) →
  disk (blk t') = <[Z.to_nat l := V z]> (disk (blk t)) →
  lrep t' (<[l := V z]> V) H (log_add z L) (U ∖ {[z]}).
Proof.
  intros HL Hz Hc1 Hc2 i l Hlg HR Hdk.
  pose proof (lr_geo _ _ _ _ _ HL) as (Hdev & Hst & Hsz & Hend & Hlen).
  assert (Forall (λ y, 0 ≤ y < 2 ^ 32) L) as HrL.
  { apply Forall_forall. intros y Hy. destruct (lrep_range _ _ _ _ _ y HL); [by left|lia]. }
  pose proof (log_add_slot _ _ z (lr_secs _ _ _ _ _ HL) HrL (lr_nodup _ _ _ _ _ HL)) as
    (Hi & Hslot & Hother & Hnd' & Hlen' & Htake). fold i in Hi, Hslot, Hother, Hlen', Htake.
  assert (length (log_add z L) ≤ S (length L))%nat by (rewrite Hlen'; case_match; lia).
  assert (in_log (lg t) l) as Hll by (unfold in_log, l; lia).
  assert (∀ y, y ∈ log_add z L ↔ y = z ∨ y ∈ L) as Helem.
  { intros y. unfold log_add. case_decide; set_solver. }
  assert (length (disk (blk t')) = length (disk (blk t))) as Hdl by by rewrite Hdk, length_insert.
  assert (∀ y, y ∈ log_add z L ∨ y ∈ dom H → in_range (blk t) y ∧ ¬ in_log (lg t) y) as Hhome.
  { intros y Hy. apply (lr_home _ _ _ _ _ HL). rewrite Helem in Hy. naive_solver. }
  split.
  - by rewrite log_add_set.
  - unfold geometry. rewrite Hlg, Hdl. simpl. by rewrite length_insert.
  - by rewrite Hlg.
  - rewrite Hlg. simpl. apply Htake. lia.
  - done.
  - rewrite Hlg. simpl. lia.
  - intros y Hy. destruct (Hhome y Hy). unfold in_range, in_log in *. by rewrite Hlg, Hdl.
  - pose proof (lr_unlogged _ _ _ _ _ HL). set_solver.
  - rewrite Hlg. simpl. intros j y Hj Hy.
    destruct (Hhome y) as [_ Hyl]; [left; apply list_elem_of_lookup; eauto|].
    rewrite fn_lookup_insert_ne by congruence. destruct (decide (j = i)) as [->|Hji].
    + assert (y = z) as -> by congruence. rewrite Hdk. apply list_lookup_insert_eq.
      unfold in_log in *. lia.
    + destruct (Hother j y Hj Hji) as [Hj' Hyz]. rewrite Hdk, list_lookup_insert_ne by (unfold l; lia).
      apply (lr_logged _ _ _ _ _ HL); [done|set_solver].
  - intros y Hy HyL HyU. unfold in_range in Hy. rewrite Hdl in Hy. rewrite Helem in HyL. rewrite Hdk.
    destruct (decide (y = l)) as [->|Hyl].
    + rewrite fn_lookup_insert. apply list_lookup_insert_eq. lia.
    + rewrite fn_lookup_insert_ne by done. rewrite list_lookup_insert_ne by (unfold in_log in *; lia).
      apply (lr_clean _ _ _ _ _ HL); [done|naive_solver|set_solver].
  - rewrite Hlg. simpl. rewrite fn_lookup_insert_ne by (unfold l; lia). apply HL.
Qed.

(** What [log_write] does with the cache and the log, for any block that is not
    the log block that it writes. *)
Lemma log_write_core t V H L z b :
  let i := log_slot (lh_sector (lg t)) (length L) z in
  let l := log_start (lg t) + Z.of_nat i + 1 in
  brep (blk t) V H (list_to_set L) → geometry t → lh_n (lg t) = Z.of_nat (length L) →
  take (length L) (lh_sector (lg t)) = L → NoDup L → Forall (λ y, 0 ≤ y < 2 ^ 32) L →
  H !! z = Some b → log_busy (lg t) ≠ 0 →
  (length L < LOGSIZE)%nat → Z.of_nat (length L) < log_size (lg t) - 1 →
  (size (dom H ∪ list_to_set L) < NBUF)%nat → H !! l = None → l ∉ L → l ≠ z →
  wp (log_write b) (λ _ t', brep (blk t') (<[l := V z]> V) H ({[z]} ∪ list_to_set L) ∧
    lg t' = mkLog (log_start (lg t)) (log_size (lg t)) (log_busy (lg t)) (log_dev (lg t))
              (Z.of_nat (length (log_add z L))) (<[i := z]> (lh_sector (lg t))) ∧
    disk (blk t') = <[Z.to_nat l := V z]> (disk (blk t)) ∧ trace (blk t') = trace (blk t) ++ [(l, V z)]) t.
Proof.
  intros i l HR (Hdev & Hst & Hsz & Hend & Hlen) Hn Hsecs Hnd HrL Hh Hbusy Hc1 Hc2 Hroom HlH HlL Hlz.
  destruct (brep_holder _ _ _ _ _ _ HR Hh) as (B & HB & Hblt & HBdev & HBsec & Hzr & HBf & HBd & HVl).
  pose proof (log_add_slot _ _ z Hsecs HrL Hnd) as (Hi & _ & _ & _ & Hlen' & _). fold i in Hi, Hlen'.
  unfold log_write. do 2 (apply wp_bind, wp_gets). rewrite Hn.
  replace (_ || _) with false by (symmetry; apply orb_false_iff; lia).
  apply wp_bind, wp_gets. replace (log_busy (lg t) =? 0) with false by (symmetry; by apply Z.eqb_neq).
  apply wp_bind, wp_lift. eapply wp_getbuf; [done|]. apply wp_bind, wp_gets. nrm.
  rewrite Nat2Z.id, HBsec. fold i. rewrite s32_small by (unfold in_range in Hzr; lia). apply wp_bind. unfold wp at 1, set_sector.
  replace (i <? LOGSIZE)%nat with true by (symmetry; apply Nat.ltb_lt; lia).
  apply wp_bind, wp_gets. simpl. rewrite HBdev, u32_small by (fold l; unfold l; lia). fold l.
  apply wp_bind, wp_lift. eapply wp_mono.
  { eapply (bread_spec _ V H (list_to_set L) l); [done|unfold in_range, l; nrm; lia|done|auto]. }
  intros lb s1 (R1 & Hd1 & Ht1). nrm.
  assert (<[l := lb]> H !! z = Some b) as Hhz by by rewrite lookup_insert_ne.
  assert (<[l := lb]> H !! l = Some lb) as Hhl by by rewrite lookup_insert_eq.
  destruct (brep_holder _ _ _ _ _ _ R1 Hhz) as (B' & HB' & _ & _ & _ & _ & _ & HBd' & _).
  apply wp_bind, wp_lift. eapply wp_getbuf; [done|]. nrm. rewrite HBd'.
  apply wp_bind, wp_lift. eapply wp_mono; [by eapply (bstore_spec _ _ _ _ l)|].
  intros _ s2 (R2 & Hd2 & Ht2). nrm.
  apply wp_bind, wp_lift. eapply wp_mono; [by eapply (bwrite_spec _ _ _ _ l)|].
  intros _ s3 (R3 & Hd3 & Ht3). nrm. rewrite fn_lookup_insert in Hd3, Ht3.
  replace (list_to_set L ∖ {[l]}) with (list_to_set L : gset Z) in R3 by set_solver.
  apply wp_bind, wp_lift. eapply wp_mono.
  { eapply (brelse_spec _ _ _ _ l); [done..|]. right. nrm. rewrite Hd3, fn_lookup_insert.
    apply list_lookup_insert_eq. rewrite Hd2, Hd1. unfold l. lia. }
  intros _ s4 (R4 & Hd4 & Ht4). nrm. rewrite delete_insert_id in R4 by done.
  set (g := mkLog (log_start (lg t)) (log_size (lg t)) (log_busy (lg t)) (log_dev (lg t))
              (Z.of_nat (length (log_add z L))) (<[i := z]> (lh_sector (lg t)))).
  apply wp_bind, (wp_mono _ (λ _ t', t' = mkLst s4 g)).
  { rewrite <-Hn in *. unfold g. rewrite Hlen'.
    destruct (i =? length L)%nat; unfold wp; simpl; rewrite Hn; [|done].
    do 2 f_equal. lia. }
  intros _ ? ->. apply wp_lift. eapply wp_mono; [by eapply (bpin_spec _ _ _ _ z)|].
  intros _ s5 (R5 & Hd5 & Ht5). nrm.
  rewrite Hd5, Hd4, Hd3, Hd2, Hd1, Ht5, Ht4, Ht3, Ht2, Ht1. done.
Qed.

(** [log_write] appends the buffer's block to the log, or overwrites the log
    block of the same sector, and pins the buffer. *)
Lemma log_write_spec t V H L U z b :
  lrep t V H L U → H !! z = Some b → log_busy (lg t) ≠ 0 →
  (length L < LOGSIZE)%nat → Z.of_nat (length L) < log_size (lg t) - 1 →
  (size (dom H ∪ list_to_set L) < NBUF)%nat →
  wp (log_write b) (λ _ t', ∃ V' l,
    lrep t' V' H (log_add z L) (U ∖ {[z]}) ∧ (∀ y, ¬ in_log (lg t) y → V' y = V y) ∧
    log_start (lg t') = log_start (lg t) ∧ log_size (lg t') = log_size (lg t) ∧
    log_busy (lg t') = log_busy (lg t) ∧
    log_start (lg t) < l < log_start (lg t) + log_size (lg t) ∧
    disk (blk t') = <[Z.to_nat l := V z]> (disk (blk t)) ∧
    trace (blk t') = trace (blk t) ++ [(l, V z)]) t.
Proof.
  intros HL Hh Hbusy Hc1 Hc2 Hroom.
  pose proof (lr_geo _ _ _ _ _ HL) as (Hdev & Hst & Hsz & Hend & Hlen).
  assert (Forall (λ y, 0 ≤ y < 2 ^ 32) L) as HrL.
  { apply Forall_forall. intros y Hy. destruct (lrep_range _ _ _ _ _ y HL); [by left|lia]. }
  pose proof (log_add_slot _ _ z (lr_secs _ _ _ _ _ HL) HrL (lr_nodup _ _ _ _ _ HL)) as (Hi & _).
  set (i := log_slot (lh_sector (lg t)) (length L) z) in *.
  set (l := log_start (lg t) + Z.of_nat i + 1).
  assert (in_log (lg t) l) as Hll by (unfold in_log, l; lia).
  assert (Hout : ∀ y, y ∈ L ∨ y ∈ dom H → y ≠ l).
  { intros y Hy ->. by destruct (lrep_range _ _ _ _ _ l HL Hy). }
  assert (Hzd : z ∈ dom H) by (apply elem_of_dom; eauto).
  eapply wp_mono; [apply (log_write_core t V H L z b); try done; try apply HL|].
  - apply not_elem_of_dom. intros ?. by destruct (Hout l); [right|].
  - intros ?. by destruct (Hout l); [left|].
  - intros E. fold i l in E. by destruct (Hout z); [right|].
  - intros _ t' (R & Hlg & Hd & Ht). fold i l in R, Hlg, Hd, Ht. exists (<[l := V z]> V), l. rewrite Hlg.
    split_and!; try done; try (simpl; unfold l; lia).
    + by eapply lrep_log_add.
    + intros y Hy. rewrite fn_lookup_insert_ne; [done|]. congruence.
Qed.

(** ** Commit *)

(** The blocks of a transaction at their home locations. *)
Definition homes (V : Z → block) (L : list Z) : list (Z * block) := (λ z, (z, V z)) <$> L.

(** The sector writes of [commit_trans], in order: the commit record, the
    installed blocks, the erased header. *)
Definition commit_writes (t : lst) (V : Z → block) (L : list Z) : list (Z * block) :=
  let st := log_start (lg t) in
  let hd := put_header (Z.of_nat (length L)) (lh_sector (lg t)) (V st) in
  if decide (L = []) then [] else (st, hd) :: homes V L ++ [(st, put_32 0 0 hd)].

Lemma lrep_length t V H L U : lrep t V H L U → (length L ≤ LOGSIZE)%nat.
Proof.
  intros HL. pose proof (lr_secs _ _ _ _ _ HL) as Htk. pose proof (lr_geo _ _ _ _ _ HL) as (_&_&_&_&Hlen).
  rewrite <-Htk, length_take. lia.
Qed.

(** In a transaction with nothing held, the log blocks hold the new contents. *)
Lemma lrep_installs t V L hd :
  lrep t V ∅ L ∅ →
  installs (log_start (lg t)) (<[log_start (lg t) := hd]> V) L = homes V L.
Proof.
  intros HL. apply list_eq. intros i. rewrite installs_lookup. unfold homes.
  rewrite list_lookup_fmap. destruct (L !! i) as [z|] eqn:Hz; [|done]. simpl. do 2 f_equal.
  pose proof (lr_geo _ _ _ _ _ HL) as (Hdev & Hst & Hsz & Hend & Hlen).
  pose proof (lr_cap _ _ _ _ _ HL). pose proof (lookup_lt_Some _ _ _ Hz).
  rewrite fn_lookup_insert_ne by lia.
  pose proof (lr_logged _ _ _ _ _ HL i z Hz) as H1. rewrite (lr_clean _ _ _ _ _ HL) in H1.
  - apply (inj Some). apply H1. set_solver.
  - unfold in_range. lia.
  - intros Hin. destruct (lrep_range _ _ _ _ _ _ HL (or_introl Hin)) as [_ Hnl].
    apply Hnl. unfold in_log. lia.
  - set_solver.
Qed.

Lemma apply_view_homes_in V V' L z : z ∈ L → apply_view (homes V L) V' z = V z.
Proof.
  induction L as [|x L IH] using rev_ind; [set_solver|]. intros Hz.
  unfold homes in *. rewrite fmap_app. simpl. rewrite apply_view_snoc. simpl.
  destruct (decide (z = x)) as [->|]; [by rewrite fn_lookup_insert|].
  rewrite fn_lookup_insert_ne by done. apply IH. set_solver.
Qed.

(** The core of [commit_trans] on a transaction that logged something. *)
Lemma commit_core t V L :
  lrep t V ∅ L ∅ → L ≠ [] →
  wp (write_head;; install_trans;; set_n 0;; write_head) (λ _ t',
    ∃ V', brep (blk t') V' ∅ ∅ ∧ (∀ y, y ≠ log_start (lg t) → V' y = V y) ∧
    get_s32 0 (V' (log_start (lg t))) = 0 ∧
    lg t' = mkLog (log_start (lg t)) (log_size (lg t)) (log_busy (lg t)) (log_dev (lg t)) 0
              (lh_sector (lg t)) ∧
    disk (blk t') = apply_writes (commit_writes t V L) (disk (blk t)) ∧
    trace (blk t') = trace (blk t) ++ commit_writes t V L) t.
Proof.
  intros HL Hne. pose proof (lrep_length _ _ _ _ _ HL) as HlenL.
  pose proof (lr_geo _ _ _ _ _ HL) as Hgeo. pose proof Hgeo as (Hdev & Hst & Hsz & Hend & Hlen).
  set (st := log_start (lg t)) in *.
  assert (st ∉ L) as HstL.
  { intros Hin. destruct (lrep_range _ _ _ _ _ _ HL (or_introl Hin)) as [_ Hnl].
    apply Hnl. unfold in_log. fold st. lia. }
  assert (size (list_to_set L : gset Z) < NBUF)%nat as Hsize.
  { rewrite size_list_to_set by apply HL. pose proof (lr_cap _ _ _ _ _ HL). lia. }
  assert (length (V st) = BSIZE) as HVst.
  { eapply (br_disk _ _ _ _ (lr_brep _ _ _ _ _ HL) (Z.to_nat st)).
    apply (lr_clean _ _ _ _ _ HL); [unfold in_range; lia|done|set_solver]. }
  apply wp_bind. eapply wp_mono; [apply (write_head_spec t V ∅ (list_to_set L) (length L))|]; try done.
  { apply HL. } { apply HL. } { set_solver. } { by rewrite dom_empty_L, union_empty_l_L. }
  fold st. set (hd := put_header _ _ _). intros _ t1 (Hlg1 & R1 & Hd1 & Ht1).
  apply wp_bind. eapply wp_mono; [apply (install_trans_spec t1 (<[st := hd]> V) (list_to_set L) L)|];
    rewrite ?Hlg1; try done; [..|pose proof (lrep_installs t V L hd HL) as Hins; fold st in Hins |- *;
      rewrite Hins].
  - unfold geometry. by rewrite Hlg1, Hd1, length_insert.
  - apply HL.
  - apply HL.
  - apply HL.
  - intros z Hz. unfold in_range. rewrite Hd1, length_insert. apply (lr_home _ _ _ _ _ HL). by left.
  - intros z Hz Hin. apply elem_of_list_to_set in Hin.
    by destruct (lrep_range _ _ _ _ _ _ HL (or_introl Hin)).
  - left. split; [apply HL|done].
  - intros _ t2 (Hlg2 & R2 & Hd2 & Ht2). rewrite difference_diag_L in R2.
    apply wp_bind, wp_modify. set (t3 := mkLst _ _).
    assert (∀ z, z ≠ st → apply_view (homes V L) (<[st := hd]> V) z = V z) as Hv2.
    { intros z Hz. destruct (decide (z ∈ L)) as [Hin|Hout].
      - by apply apply_view_homes_in.
      - rewrite apply_view_ne; [by apply fn_lookup_insert_ne|].
        intros w (y & -> & Hy)%list_elem_of_fmap. simpl. congruence. }
    assert (apply_view (homes V L) (<[st := hd]> V) st = hd) as Hvst.
    { rewrite apply_view_ne; [apply fn_lookup_insert|].
      intros w (y & -> & Hy)%list_elem_of_fmap. simpl. congruence. }
    eapply wp_mono; [apply (write_head_spec t3 (apply_view (homes V L) (<[st := hd]> V)) ∅ ∅ 0)|]; try done.
    + unfold geometry, t3. simpl. by rewrite Hlg2, Hd2, length_apply_writes, Hd1, length_insert.
    + lia.
    + rewrite dom_empty_L, union_empty_l_L, size_empty. unfold NBUF. lia.
    + unfold t3. simpl. rewrite Hlg2. fold st. rewrite Hvst. simpl.
      change (put_header _ _ hd) with (put_32 0 0 hd).
      intros _ t4 (Hlg4 & R4 & Hd4 & Ht4). simpl in *. eexists. split_and!; [exact R4|..].
      * intros y Hy. rewrite fn_lookup_insert_ne by done. by apply Hv2.
      * rewrite fn_lookup_insert. apply get_put_s32; [|lia].
        unfold hd. rewrite length_put_header by done. unfold BSIZE. lia.
      * done.
      * rewrite Hd4, Hd2, Hd1. unfold commit_writes. fold st. fold hd. decs.
        by rewrite app_comm_cons, apply_writes_snoc.
      * rewrite Ht4, Ht2, Ht1. unfold commit_writes. fold st. fold hd. decs. by rewrite <-!app_assoc.
Qed.

(** A log state between transactions. *)
Lemma lrep_idle t V :
  brep (blk t) V ∅ ∅ → geometry t → lh_n (lg t) = 0 → get_s32 0 (V (log_start (lg t))) = 0 →
  lrep t V ∅ [] ∅.
Proof.
  intros HR Hgeo Hn Hh. pose proof Hgeo as (_ & _ & ? & _). split; try done.
  - constructor.
  - simpl. lia.
  - set_solver.
  - intros z Hz _ _. by eapply brep_clean.
Qed.

(** [commit_trans] makes every write of the transaction durable and leaves an
    empty, idle log. *)
Lemma commit_trans_spec t V L :
  lrep t V ∅ L ∅ →
  wp commit_trans (λ _ t',
    ∃ V', lrep t' V' ∅ [] ∅ ∧ (∀ y, y ≠ log_start (lg t) → V' y = V y) ∧
    log_start (lg t') = log_start (lg t) ∧ log_size (lg t') = log_size (lg t) ∧
    log_busy (lg t') = 0 ∧
    disk (blk t') = apply_writes (commit_writes t V L) (disk (blk t)) ∧
    trace (blk t') = trace (blk t) ++ commit_writes t V L) t.
Proof.
  intros HL. pose proof (lr_geo _ _ _ _ _ HL) as Hgeo.
  unfold commit_trans. apply wp_bind, wp_gets. rewrite (lr_n _ _ _ _ _ HL). apply wp_bind.
  destruct (decide (L = [])) as [->|Hne].
  - simpl. apply wp_ret, wp_modify. exists V. simpl. rewrite app_nil_r. split_and!; try done.
    apply lrep_idle; [apply HL|done|apply HL|apply HL].
  - assert (0 < length L)%nat by (destruct L; [done|simpl; lia]).
    replace (Z.of_nat (length L) >? 0) with true by (symmetry; apply Z.gtb_lt; lia).
    eapply wp_mono; [by apply (commit_core t V L)|].
    intros _ t1 (V' & R1 & HV' & Hh & Hlg1 & Hd1 & Ht1). apply wp_modify.
    exists V'. simpl. rewrite Hlg1. simpl. split_and!; try done.
    apply lrep_idle; simpl; rewrite ?Hlg1; try done.
    unfold geometry in *. simpl. by rewrite Hd1, length_apply_writes.
Qed.

(** ** Boot and crash *)

(** A disk with a super block and a log that recovery accepts. *)
Definition log_disk (st sz : Z) (d : list block) : Prop :=
  2 ≤ st ∧ 1 ≤ sz ≤ Z.of_nat NBUF ∧ st + sz ≤ Z.of_nat (length d) ≤ max_sectors ∧
  (∀ i b, d !! i = Some b → length b = BSIZE) ∧
  sb_size (sb_of_bytes (d !!! 1%nat)) = st + sz ∧ sb_nlog (sb_of_bytes (d !!! 1%nat)) = sz ∧
  let hd := d !!! Z.to_nat st in
  0 ≤ get_s32 0 hd ≤ Z.of_nat LOGSIZE ∧ get_s32 0 hd ≤ sz - 1 ∧
  ∀ z, z ∈ header_secs hd (Z.to_nat (get_s32 0 hd)) →
    0 ≤ z < Z.of_nat (length d) ∧ ¬ (st ≤ z < st + sz) ∧ z ≠ 1.

(** A crash loses the memory and keeps the disk; the next boot runs [binit] and
    then, in the first process, [initlog]. *)
Definition boot (d : list block) : res lst unit :=
  (lift binit;; initlog) (mkLst (mkBst bcache0 d []) log0).

(** The logical content of a disk: what recovery makes of it. *)
Definition redo (st : Z) (d : list block) : Z → block :=
  let V := λ z, d !!! Z.to_nat z in
  apply_view (installs st V (header_secs (V st) (Z.to_nat (get_s32 0 (V st))))) V.

Lemma readsb_spec s V :
  brep s V ∅ ∅ → in_range s 1 →
  wp (readsb 1) (λ sb s',
    sb = sb_of_bytes (V 1) ∧ brep s' V ∅ ∅ ∧ disk s' = disk s ∧ trace s' = trace s) s.
Proof.
  intros HR Hr. unfold readsb. rewrite dev1. apply wp_bind. eapply wp_mono.
  { eapply bread_spec; [done..|]. right. rewrite dom_empty_L, union_empty_l_L, size_empty. unfold NBUF; lia. }
  intros b s1 (R1 & Hd1 & Ht1).
  destruct (brep_holder _ _ _ _ 1 b R1 (lookup_insert_eq _ _ _)) as (B & HB & _ & _ & _ & _ & _ & HBd & _).
  apply wp_bind. eapply wp_getbuf; [done|]. apply wp_bind. eapply wp_mono.
  { eapply brelse_spec; [done|apply lookup_insert_eq|]. right. rewrite Hd1. by eapply brep_clean. }
  intros _ s2 (R2 & Hd2 & Ht2). apply wp_ret. rewrite delete_insert_id in R2 by done.
  rewrite HBd, Hd2, Hd1, Ht2, Ht1. done.
Qed.

(** The writes of recovery. *)
Definition recover_writes (st : Z) (d : list block) : list (Z * block) :=
  installs st (λ z, d !!! Z.to_nat z)
    (header_secs (d !!! Z.to_nat st) (Z.to_nat (get_s32 0 (d !!! Z.to_nat st))))
  ++ [(st, put_32 0 0 (d !!! Z.to_nat st))].

(** Booting from a disk succeeds and recovers its logical content. *)
Lemma boot_spec st sz d :
  log_disk st sz d →
  ∃ t V, boot d = Ok tt t ∧ lrep t V ∅ [] ∅ ∧ log_busy (lg t) = 0 ∧
    log_start (lg t) = st ∧ log_size (lg t) = sz ∧ disk (blk t) = apply_writes (recover_writes st d) d ∧
    (∀ z, z ≠ st → V z = redo st d z) ∧ trace (blk t) = recover_writes st d.
Proof.
  intros (Hst & Hsz & Hend & Hlens & Hsize & Hnlog & Hh1 & Hh2 & Hh3).
  set (V := λ z, d !!! Z.to_nat z) in *.
  assert (wp (lift binit;; initlog) (λ _ t, ∃ V', lrep t V' ∅ [] ∅ ∧ log_busy (lg t) = 0 ∧
    log_start (lg t) = st ∧ log_size (lg t) = sz ∧ disk (blk t) = apply_writes (recover_writes st d) d ∧
    (∀ z, z ≠ st → V' z = redo st d z) ∧ trace (blk t) = recover_writes st d) (mkLst (mkBst bcache0 d []) log0)) as Hwp.
  2: { destruct (proj1 (wp_Ok _ _ _) Hwp) as ([]&t&Hrun&V'&Hpost). exists t, V'. exact (conj Hrun Hpost). }
  apply wp_bind, wp_lift. eapply wp_mono; [apply binit_spec; [lia|done]|].
  intros _ s1 (R1 & Hd1 & Ht1). nrm. unfold initlog. simpl.
  apply wp_bind, wp_lift. eapply wp_mono; [apply readsb_spec; [done|]|].
  { unfold in_range. nrm. rewrite Hd1. lia. }
  intros sb s2 (-> & R2 & Hd2 & Ht2). nrm. apply wp_bind, wp_modify. fold V in R2.
  replace (sb_of_bytes _) with (sb_of_bytes (d !!! 1%nat)) by done. rewrite Hsize, Hnlog.
  replace (st + sz - sz) with st by lia. rewrite !s32_small by lia.
  set (t3 := mkLst _ _).
  assert (length (disk (blk t3)) = length d) as Hdl by (unfold t3; simpl; by rewrite Hd2, Hd1).
  assert (geometry t3) as Hg3 by (unfold geometry; rewrite Hdl; done).
  eapply wp_mono; [apply (recover_spec t3 V); [done..|]|].
  { unfold header_ok, in_range, in_log. rewrite Hdl. split; [done|]. split; [done|]. intros z Hz. destruct (Hh3 z Hz) as (?&?&_). done. }
  intros _ t4 (R4 & Hg4 & Hd4 & Ht4 & Hs4 & Hz4 & Hb4 & Hn4). simpl in *.
  eexists. split; [apply lrep_idle; [exact R4|done|done|]|split_and!; try done].
  - rewrite Hs4, apply_view_snoc. simpl. rewrite fn_lookup_insert. apply get_put_s32; [|lia].
    rewrite (Hlens (Z.to_nat st)); [unfold BSIZE; lia|].
    apply list_lookup_lookup_total_lt. lia.
  - rewrite Hd4. unfold t3. simpl. by rewrite Hd2, Hd1.
  - intros z Hz. rewrite apply_view_snoc. simpl. by rewrite fn_lookup_insert_ne.
  - by rewrite Ht4, Ht2, Ht1.
Qed.

(** ** Atomicity *)
Lemma apply_writes_ne ws d (i : nat) :
  (∀ w, w ∈ ws → Z.to_nat w.1 ≠ i) → apply_writes ws d !! i = d !! i.
Proof.
  revert d. induction ws as [|w ws IH]; intros d Hw; [done|].
  unfold apply_writes in *. simpl. rewrite IH by set_solver.
  apply list_lookup_insert_ne. set_solver.
Qed.

Lemma apply_homes V L d z :
  z ∈ L → (∀ y, y ∈ L → 0 ≤ y < Z.of_nat (length d)) →
  apply_writes (homes V L) d !! Z.to_nat z = Some (V z).
Proof.
  intros Hz Hr. induction L as [|x L IH] using rev_ind; [set_solver|].
  unfold homes in *. rewrite fmap_app. simpl. rewrite apply_writes_snoc. simpl.
  assert (0 ≤ x < Z.of_nat (length d)) by (apply Hr; set_solver).
  assert (0 ≤ z < Z.of_nat (length d)) by (apply Hr; set_solver).
  destruct (decide (z = x)) as [->|].
  - apply list_lookup_insert_eq. rewrite length_apply_writes. lia.
  - rewrite list_lookup_insert_ne by lia. apply IH; set_solver.
Qed.

(** The commit record names exactly the sectors of the transaction. *)
Lemma commit_header t V L :
  lrep t V ∅ L ∅ →
  let hd := put_header (Z.of_nat (length L)) (lh_sector (lg t)) (V (log_start (lg t))) in
  get_s32 0 hd = Z.of_nat (length L) ∧ header_secs hd (length L) = L ∧ length hd = BSIZE.
Proof.
  intros HL hd. pose proof (lrep_length _ _ _ _ _ HL) as Hlen.
  pose proof (lr_geo _ _ _ _ _ HL) as (_ & Hst & Hsz & Hend & Hls).
  assert (log_start (lg t) ∉ L) as HstL.
  { intros Hin. destruct (lrep_range _ _ _ _ _ _ HL (or_introl Hin)) as [_ Hnl].
    apply Hnl. unfold in_log. lia. }
  assert (length (V (log_start (lg t))) = BSIZE) as HV.
  { eapply (br_disk _ _ _ _ (lr_brep _ _ _ _ _ HL) (Z.to_nat (log_start (lg t)))).
    apply (lr_clean _ _ _ _ _ HL); [unfold in_range; lia|done|set_solver]. }
  assert (∀ i, (i < length L)%nat → lh_sector (lg t) !!! i = L !!! i) as Hsec.
  { intros i Hi. rewrite <-(lr_secs _ _ _ _ _ HL) at 1. by rewrite lookup_total_take_lt. }
  assert (∀ i, (i < length L)%nat → - 2 ^ 31 ≤ lh_sector (lg t) !!! i < 2 ^ 31) as Hr.
  { intros i Hi. rewrite Hsec by done.
    destruct (lrep_range _ _ _ _ _ (L !!! i) HL) as [? _]; [left|lia].
    by apply list_elem_of_lookup_total_2. }
  destruct (put_header_spec (length L) (lh_sector (lg t)) (V (log_start (lg t))) HV Hlen Hr)
    as (H1 & H2 & H3).
  split_and!; [done| |done]. apply list_eq. intros i. unfold header_secs.
  rewrite list_lookup_fmap. destruct (decide (i < length L)%nat) as [Hi|Hi].
  - rewrite lookup_seq_lt by done. rewrite Nat.add_0_l. change (_ <$> Some i) with (Some (get_s32 (4 + 4 * i) hd)).
    unfold hd. rewrite H3, Hsec by done. symmetry. by apply list_lookup_lookup_total_lt.
  - rewrite lookup_seq_ge, lookup_ge_None_2 by lia. done.
Qed.

Lemma prefix_cases {A} (p : list A) x l y :
  p `prefix_of` (x :: l ++ [y]) → p = [] ∨ (∃ k, p = x :: take k l) ∨ p = x :: l ++ [y].
Proof.
  destruct p as [|x' p]; [by left|]. intros Hp. right.
  apply prefix_cons_inv_1 in Hp as Hx. apply prefix_cons_inv_2 in Hp as [k Hk]. subst x'.
  destruct k as [|z k _] using rev_ind.
  - right. by rewrite Hk, app_nil_r.
  - left. rewrite app_assoc in Hk. apply app_inj_tail in Hk as [Hk _].
    exists (length p). by rewrite Hk, take_app_length.
Qed.

(** A disk whose header is erased has the contents it shows. *)
Lemma redo_erased st d z : get_s32 0 (d !!! Z.to_nat st) = 0 → redo st d z = d !!! Z.to_nat z.
Proof. intros Hh. unfold redo. by rewrite Hh. Qed.

(** A disk with the commit record has the new contents, however much of them
    was installed. *)
Lemma redo_committed t V L dp :
  lrep t V ∅ L ∅ →
  let st := log_start (lg t) in
  dp !!! Z.to_nat st = put_header (Z.of_nat (length L)) (lh_sector (lg t)) (V st) →
  (∀ y, in_range (blk t) y → y ≠ st → y ∉ L → dp !! Z.to_nat y = disk (blk t) !! Z.to_nat y) →
  ∀ z, in_range (blk t) z → z ≠ st → redo st dp z = V z.
Proof.
  intros HL st Hhd Hsame z Hz Hzst.
  destruct (commit_header t V L HL) as (H1 & H2 & _). unfold redo. rewrite Hhd. fold st in H1, H2.
  rewrite H1, Nat2Z.id, H2.
  assert (installs st (λ z, dp !!! Z.to_nat z) L = homes V L) as ->.
  { apply list_eq. intros i. rewrite installs_lookup. unfold homes. rewrite list_lookup_fmap.
    destruct (L !! i) as [y|] eqn:Hy; [|done]. simpl. do 2 f_equal.
    apply list_lookup_total_correct.
    pose proof (lr_geo _ _ _ _ _ HL) as (_ & Hst & Hsz & Hend & _). fold st in Hst, Hend.
    pose proof (lr_cap _ _ _ _ _ HL). pose proof (lookup_lt_Some _ _ _ Hy).
    rewrite Hsame.
    - apply (lr_logged _ _ _ _ _ HL); [done|set_solver].
    - unfold in_range. lia.
    - lia.
    - intros Hin. destruct (lrep_range _ _ _ _ _ _ HL (or_introl Hin)) as [_ Hnl].
      apply Hnl. unfold in_log. fold st. lia. }
  destruct (decide (z ∈ L)) as [Hin|Hout]; [by apply apply_view_homes_in|].
  rewrite apply_view_ne.
  - apply list_lookup_total_correct. rewrite Hsame by done.
    apply (lr_clean _ _ _ _ _ HL); [done|done|set_solver].
  - intros w (y & -> & Hy)%list_elem_of_fmap. simpl. congruence.
Qed.

Lemma log_disk_header st sz d d' :
  log_disk st sz d → length d' = length d → (∀ i b, d' !! i = Some b → length b = BSIZE) →
  d' !! 1%nat = d !! 1%nat →
  (let hd := d' !!! Z.to_nat st in
   0 ≤ get_s32 0 hd ≤ Z.of_nat LOGSIZE ∧ get_s32 0 hd ≤ sz - 1 ∧
   ∀ z, z ∈ header_secs hd (Z.to_nat (get_s32 0 hd)) →
     0 ≤ z < Z.of_nat (length d) ∧ ¬ (st ≤ z < st + sz) ∧ z ≠ 1) →
  log_disk st sz d'.
Proof.
  intros (Ha & Hc & Hd & _ & Hs & Hn & _) Hlen Hb Hone Hh. unfold log_disk. rewrite Hlen.
  rewrite (lookup_total_eq _ _ _ _ Hone).
  done.
Qed.

Lemma apply_writes_lens ws (d : list block) :
  (∀ i b, d !! i = Some b → length b = BSIZE) → Forall (λ w, length w.2 = BSIZE) ws →
  ∀ i b, apply_writes ws d !! i = Some b → length b = BSIZE.
Proof.
  intros Hd Hw. revert d Hd. induction Hw as [|w ws Hw _ IH]; intros d Hd; [done|].
  apply (IH (<[Z.to_nat w.1 := w.2]> d)). intros i b. rewrite list_lookup_insert_Some.
  intros [(_&<-&_)|[_ ?]]; [done|eauto].
Qed.

(** The blocks that [commit_trans] writes have the size of a sector. *)
Lemma commit_lens t V L p :
  lrep t V ∅ L ∅ → p `prefix_of` commit_writes t V L → Forall (λ w, length w.2 = BSIZE) p.
Proof.
  intros HL [q Hq]. pose proof (commit_header t V L HL) as (_ & _ & Hlen).
  cut (Forall (λ w : Z * block, length w.2 = BSIZE) (commit_writes t V L)).
  { rewrite Hq. by intros [? _]%Forall_app. }
  unfold commit_writes. case_decide; [constructor|]. constructor; [done|].
  apply Forall_app. split.
  - apply Forall_fmap, Forall_forall. intros z (i & Hi)%list_elem_of_lookup. simpl.
    apply (br_disk _ _ _ _ (lr_brep _ _ _ _ _ HL) (Z.to_nat (log_start (lg t) + Z.of_nat i + 1))).
    apply (lr_logged _ _ _ _ _ HL); [done|set_solver].
  - constructor; [|constructor]. cbn [snd]. rewrite length_put_32; [done|].
    rewrite Hlen. unfold BSIZE. lia.
Qed.

(** Which sectors the writes of [commit_trans] touch. *)
Lemma commit_touch t V L p w :
  p `prefix_of` commit_writes t V L → w ∈ p → w.1 = log_start (lg t) ∨ w.1 ∈ L.
Proof.
  intros [q Hq] Hw. assert (w ∈ commit_writes t V L) as Hin by (rewrite Hq; set_solver).
  unfold commit_writes in Hin. case_decide; [set_solver|].
  rewrite elem_of_cons, elem_of_app, list_elem_of_singleton in Hin.
  destruct Hin as [->|[(z & -> & ?)%list_elem_of_fmap| ->]]; simpl; auto.
Qed.

Section commit_crash.
Context (t : lst) (V : Z → block) (L : list Z).
Hypothesis (HL : lrep t V ∅ L ∅).
Hypothesis (Hd : log_disk (log_start (lg t)) (log_size (lg t)) (disk (blk t))).
Hypothesis (H1 : 1 ∉ L).

Lemma commit_same p y :
  p `prefix_of` commit_writes t V L → 0 ≤ y → y ≠ log_start (lg t) → y ∉ L →
  apply_writes p (disk (blk t)) !! Z.to_nat y = disk (blk t) !! Z.to_nat y.
Proof.
  intros Hp Hy Hst Hn. apply apply_writes_ne. intros w Hw ?.
  pose proof (lr_geo _ _ _ _ _ HL) as (_ & ? & _).
  destruct (commit_touch _ _ _ _ _ Hp Hw) as [Hw1|Hw1]; [lia|].
  destruct (lrep_range _ _ _ _ _ _ HL (or_introl Hw1)) as [? _].
  apply Hn. by replace y with w.1 by lia.
Qed.

(** The new header decides whether the disk can be booted. *)
Lemma commit_log_disk p :
  p `prefix_of` commit_writes t V L →
  let hd := apply_writes p (disk (blk t)) !!! Z.to_nat (log_start (lg t)) in
  get_s32 0 hd = 0 ∨ (get_s32 0 hd = Z.of_nat (length L) ∧ header_secs hd (length L) = L) →
  log_disk (log_start (lg t)) (log_size (lg t)) (apply_writes p (disk (blk t))).
Proof.
  intros Hp hd Hhd. pose proof (lr_geo _ _ _ _ _ HL) as (_ & Hst & Hsz & _).
  apply (log_disk_header _ _ _ _ Hd).
  - apply length_apply_writes.
  - apply apply_writes_lens; [|by eapply commit_lens].
    apply (br_disk _ _ _ _ (lr_brep _ _ _ _ _ HL)).
  - apply (commit_same p 1); [done|lia|lia|done].
  - cbv zeta. fold hd. destruct Hhd as [->|[-> Hsecs]].
    + split_and!; [lia|lia|lia|]. simpl. set_solver.
    + rewrite Nat2Z.id, Hsecs. pose proof (lr_cap _ _ _ _ _ HL).
      pose proof (lrep_length _ _ _ _ _ HL). split_and!; [lia|lia|lia|].
      intros z Hz. destruct (lr_home _ _ _ _ _ HL z (or_introl Hz)).
      split; [done|]. split; [done|congruence].
Qed.

Abbreviation old_or_new := (λ (dp : list block) (W : Z → block),
  ∀ z, in_range (blk t) z → z ≠ log_start (lg t) → redo (log_start (lg t)) dp z = W z).

Lemma commit_out y : y ∈ L → Z.to_nat y ≠ Z.to_nat (log_start (lg t)).
Proof.
  intros Hy. destruct (lrep_range _ _ _ _ _ _ HL (or_introl Hy)) as [? Hny].
  pose proof (lr_geo _ _ _ _ _ HL) as (_ & ? & ? & _). unfold in_log in Hny. lia.
Qed.

(** No write arrived. *)
Lemma commit_none : old_or_new (disk (blk t)) (λ z, disk (blk t) !!! Z.to_nat z).
Proof.
  intros z _ _. pose proof (lr_geo _ _ _ _ _ HL) as (_ & Hst & Hsz & Hend & _).
  apply redo_erased.
  erewrite list_lookup_total_correct; [apply (lr_head _ _ _ _ _ HL)|].
  apply (lr_clean _ _ _ _ _ HL); [unfold in_range; lia| |set_solver].
  intros Hy. by apply (commit_out _ Hy).
Qed.

Lemma commit_homes_head k d :
  apply_writes (take k (homes V L)) d !! Z.to_nat (log_start (lg t))
  = d !! Z.to_nat (log_start (lg t)).
Proof.
  apply apply_writes_ne. intros w Hw%subseteq_take.
  apply list_elem_of_fmap in Hw as (z & -> & Hz). by apply commit_out.
Qed.

Abbreviation commit_hd := (put_header (Z.of_nat (length L)) (lh_sector (lg t)) (V (log_start (lg t)))).

(** The commit record arrived, and [k] blocks were installed. *)
Lemma commit_mid k :
  let p := (log_start (lg t), commit_hd) :: take k (homes V L) in
  p `prefix_of` commit_writes t V L →
  log_disk (log_start (lg t)) (log_size (lg t)) (apply_writes p (disk (blk t))) ∧
  old_or_new (apply_writes p (disk (blk t))) V.
Proof.
  intros p Hp. pose proof (lr_geo _ _ _ _ _ HL) as (_ & Hst & Hsz & Hend & _).
  destruct (commit_header t V L HL) as (Hn & Hsecs & Hlen).
  assert (apply_writes p (disk (blk t)) !!! Z.to_nat (log_start (lg t)) = commit_hd) as Eh.
  { apply list_lookup_total_correct. simpl. rewrite commit_homes_head.
    apply list_lookup_insert_eq. lia. }
  split.
  - apply commit_log_disk; [done|]. cbv zeta. rewrite Eh. by right.
  - intros z. apply (redo_committed t V L); [done|done|]. intros y [Hy _] ??. by apply commit_same.
Qed.

(** Every write arrived. *)
Lemma commit_full :
  L ≠ [] →
  let p := commit_writes t V L in
  log_disk (log_start (lg t)) (log_size (lg t)) (apply_writes p (disk (blk t))) ∧
  old_or_new (apply_writes p (disk (blk t))) V.
Proof.
  intros Hne p. pose proof (lr_geo _ _ _ _ _ HL) as (_ & Hst & Hsz & Hend & _).
  destruct (commit_header t V L HL) as (Hn & Hsecs & Hlen).
  assert (Hp : p = ((log_start (lg t), commit_hd) :: homes V L) ++ [(log_start (lg t), put_32 0 0 commit_hd)]).
  { unfold p, commit_writes. by rewrite decide_False. }
  assert (apply_writes p (disk (blk t)) !!! Z.to_nat (log_start (lg t)) = put_32 0 0 commit_hd) as Eh.
  { apply list_lookup_total_correct. rewrite Hp, apply_writes_snoc. apply list_lookup_insert_eq.
    rewrite length_apply_writes. cbn [fst]. lia. }
  assert (get_s32 0 (put_32 0 0 commit_hd) = 0) as Ez.
  { apply get_put_s32; [|lia]. rewrite Hlen. unfold BSIZE. lia. }
  split; [apply commit_log_disk; [done|]; cbv zeta; rewrite Eh; by left|].
  intros z Hz Hzst. rewrite redo_erased by by rewrite Eh.
  destruct (decide (z ∈ L)) as [Hin|Hout].
  - apply list_lookup_total_correct. rewrite Hp, apply_writes_snoc.
    rewrite list_lookup_insert_ne by (simpl; by apply not_eq_sym, commit_out).
    apply (apply_homes V L (<[_ := _]> (disk (blk t)))); [done|].
    intros y Hy. rewrite length_insert. by apply (lr_home _ _ _ _ _ HL); left.
  - apply list_lookup_total_correct. destruct Hz as [Hz Hz'].
    rewrite (commit_same p z) by done. apply (lr_clean _ _ _ _ _ HL); [done|done|set_solver].
Qed.

Lemma commit_prefix_disk p :
  p `prefix_of` commit_writes t V L →
  let dp := apply_writes p (disk (blk t)) in
  log_disk (log_start (lg t)) (log_size (lg t)) dp ∧
  (old_or_new dp (λ z, disk (blk t) !!! Z.to_nat z) ∨ old_or_new dp V).
Proof.
  intros Hp dp. unfold dp.
  destruct (decide (L = [])) as [HLe|HLe].
  { unfold commit_writes in Hp. rewrite decide_True in Hp by done.
    apply prefix_nil_inv in Hp as ->. split; [done|left; apply commit_none]. }
  pose proof Hp as Hp0. unfold commit_writes in Hp. rewrite decide_False in Hp by done.
  apply prefix_cases in Hp as [->|[[k ->]|Hp]].
  - split; [done|left; apply commit_none].
  - destruct (commit_mid k) as [??]; [done|]. split; [done|by right].
  - destruct (commit_full HLe) as [Ha Hb]. unfold commit_writes in Ha, Hb.
    rewrite decide_False in Ha, Hb by done. rewrite Hp. split; [done|by right].
Qed.

Lemma commit_done :
  let dp := apply_writes (commit_writes t V L) (disk (blk t)) in
  log_disk (log_start (lg t)) (log_size (lg t)) dp ∧ old_or_new dp V.
Proof.
  destruct (decide (L = [])) as [HLe|HLe]; [|by apply commit_full].
  unfold commit_writes. rewrite decide_True by done.
  split; [done|]. intros z Hz Hzst. simpl. rewrite commit_none by done.
  apply list_lookup_total_correct, (lr_clean _ _ _ _ _ HL); set_solver.
Qed.

End commit_crash.

(** ** Crashes during recovery *)

(** What a sequence of writes leaves in a sector it touches does not depend on
    what was there. *)
Lemma apply_view_over ws V V' z :
  z ∈ ws.*1 ∨ V z = V' z → apply_view ws V z = apply_view ws V' z.
Proof.
  revert V V'. induction ws as [|[y b] ws IH]; intros V V' Hz; simpl.
  { destruct Hz as [Hz|Hz]; [by apply not_elem_of_nil in Hz|done]. }
  apply IH. simpl in Hz. rewrite elem_of_cons in Hz.
  destruct (decide (z = y)) as [->|].
  - right. by rewrite !fn_lookup_insert.
  - rewrite !fn_lookup_insert_ne by done. naive_solver.
Qed.

Lemma apply_writes_view ws d z :
  (∀ w, w ∈ ws → 0 ≤ w.1 < Z.of_nat (length d)) → 0 ≤ z < Z.of_nat (length d) →
  apply_writes ws d !!! Z.to_nat z = apply_view ws (λ y, d !!! Z.to_nat y) z.
Proof.
  induction ws as [|w ws IH] using rev_ind; intros Hws Hz; [done|].
  assert (Hw : 0 ≤ w.1 < Z.of_nat (length d)) by (apply Hws; set_solver).
  rewrite apply_writes_snoc, apply_view_snoc.
  destruct (decide (z = w.1)) as [->|Hne].
  - rewrite fn_lookup_insert. apply list_lookup_total_insert_eq. rewrite length_apply_writes. lia.
  - rewrite fn_lookup_insert_ne, list_lookup_total_insert_ne by (done || lia).
    apply IH; set_solver.
Qed.

Section recover_crash.
Context (st sz : Z) (d : list block).
Hypothesis (Hd : log_disk st sz d).
Abbreviation W := (installs st (λ z, d !!! Z.to_nat z)
    (header_secs (d !!! Z.to_nat st) (Z.to_nat (get_s32 0 (d !!! Z.to_nat st))))).

Lemma installs_range w :
  w ∈ W → 0 ≤ w.1 < Z.of_nat (length d) ∧ ¬ (st ≤ w.1 < st + sz) ∧ w.1 ≠ 1.
Proof.
  destruct Hd as (_ & _ & _ & _ & _ & _ & _ & _ & Hz).
  intros (i & Hi)%list_elem_of_lookup. rewrite installs_lookup in Hi.
  apply fmap_Some in Hi as (z & Hz' & ->). simpl.
  by apply Hz, list_elem_of_lookup_2 with i.
Qed.

Lemma installs_lens w : w ∈ W → length w.2 = BSIZE.
Proof.
  destruct Hd as (Hst & Hsz & Hend & Hlen & _ & _ & Hn & Hn' & _).
  intros (i & Hi)%list_elem_of_lookup. rewrite installs_lookup in Hi.
  apply fmap_Some in Hi as (z & Hz%lookup_lt_Some & ->). simpl. unfold header_secs in Hz.
  rewrite length_fmap, length_seq in Hz.
  destruct (lookup_lt_is_Some_2 d (Z.to_nat (st + Z.of_nat i + 1))) as [b Hb]; [lia|].
  erewrite list_lookup_total_correct by done. eauto.
Qed.

(** While blocks are being installed, the log and its header stay. *)
Lemma recover_log_same k y :
  st ≤ y < st + sz → apply_writes (take k W) d !! Z.to_nat y = d !! Z.to_nat y.
Proof.
  intros Hy. apply apply_writes_ne. intros w Hw%subseteq_take.
  apply installs_range in Hw. destruct Hd as (? & _). lia.
Qed.

Lemma recover_mid k :
  let dp := apply_writes (take k W) d in
  log_disk st sz dp ∧ ∀ z, 0 ≤ z < Z.of_nat (length d) → redo st dp z = redo st d z.
Proof.
  intros dp. pose proof Hd as (Hst & Hsz & Hend & Hlen & _ & _ & Hn & Hn' & Hz).
  assert (Hsame : ∀ y, st ≤ y < st + sz → dp !!! Z.to_nat y = d !!! Z.to_nat y).
  { intros y Hy. by apply lookup_total_eq, recover_log_same. }
  assert (Hhd := Hsame st ltac:(lia)). split.
  - apply (log_disk_header _ _ _ _ Hd).
    + apply length_apply_writes.
    + apply apply_writes_lens; [done|]. apply Forall_forall.
      intros w Hw%subseteq_take. by apply installs_lens.
    + apply apply_writes_ne. intros w Hw%subseteq_take. apply installs_range in Hw. lia.
    + rewrite Hhd. done.
  - intros z Hzr. unfold redo. rewrite Hhd.
    assert (installs st (λ y, dp !!! Z.to_nat y) (header_secs (d !!! Z.to_nat st)
      (Z.to_nat (get_s32 0 (d !!! Z.to_nat st)))) = W) as ->.
    { apply list_eq. intros i. rewrite !installs_lookup.
      destruct (_ !! i) as [y|] eqn:Hy; [|done]. simpl. do 2 f_equal. apply Hsame.
      apply lookup_lt_Some in Hy. unfold header_secs in Hy. rewrite length_fmap, length_seq in Hy. lia. }
    apply apply_view_over. destruct (decide (z ∈ W.*1)) as [|Hnot]; [by left|right].
    apply lookup_total_eq, apply_writes_ne.
    intros w Hw%subseteq_take ?. pose proof (installs_range _ Hw). apply Hnot.
    apply list_elem_of_fmap. exists w. split; [lia|done].
Qed.

Lemma recover_full :
  let dp := apply_writes (recover_writes st d) d in
  log_disk st sz dp ∧ ∀ z, 0 ≤ z < Z.of_nat (length d) → z ≠ st → redo st dp z = redo st d z.
Proof.
  intros dp. pose proof Hd as (Hst & Hsz & Hend & Hlen & _ & _ & Hn & Hn' & Hz).
  assert (length (d !!! Z.to_nat st) = BSIZE) as Hhl.
  { apply (Hlen (Z.to_nat st)). apply list_lookup_lookup_total_lt. lia. }
  assert (dp !!! Z.to_nat st = put_32 0 0 (d !!! Z.to_nat st)) as Hhd.
  { unfold dp, recover_writes. rewrite apply_writes_snoc. apply list_lookup_total_insert_eq.
    rewrite length_apply_writes. cbn [fst]. lia. }
  assert (get_s32 0 (put_32 0 0 (d !!! Z.to_nat st)) = 0) as Hz0.
  { apply get_put_s32; [|lia]. rewrite Hhl. unfold BSIZE. lia. }
  split.
  - apply (log_disk_header _ _ _ _ Hd).
    + apply length_apply_writes.
    + apply apply_writes_lens; [done|]. apply Forall_app. split.
      * apply Forall_forall. apply installs_lens.
      * constructor; [|constructor]. cbn [snd]. rewrite length_put_32; [done|].
        rewrite Hhl. unfold BSIZE. lia.
    + apply apply_writes_ne. intros w [Hw|Hw]%elem_of_app.
      * apply installs_range in Hw. lia.
      * apply list_elem_of_singleton in Hw as ->. cbn [fst]. lia.
    + cbv zeta. rewrite Hhd, Hz0. split_and!; [lia..|]. simpl. set_solver.
  - intros z Hzr Hzst. rewrite redo_erased by by rewrite Hhd.
    unfold dp, recover_writes. rewrite apply_writes_snoc, list_lookup_total_insert_ne by (cbn [fst]; lia).
    apply apply_writes_view; [|done]. intros w Hw. by apply installs_range.
Qed.

(** Recovery cut short, at any of its writes, leaves a disk with the same
    logical content. *)
Lemma recover_prefix p :
  p `prefix_of` recover_writes st d →
  let dp := apply_writes p d in
  log_disk st sz dp ∧ ∀ z, 0 ≤ z < Z.of_nat (length d) → z ≠ st → redo st dp z = redo st d z.
Proof.
  intros [q Hq] dp. destruct q as [|x q _] using rev_ind.
  - rewrite app_nil_r in Hq. unfold dp. rewrite <-Hq. apply recover_full.
  - unfold recover_writes in Hq. rewrite app_assoc in Hq. apply app_inj_tail in Hq as [Hq _].
    destruct (recover_mid (length p)) as [Ha Hb]. rewrite Hq, take_app_length in Ha, Hb.
    unfold dp. auto.
Qed.
End recover_crash.

End head_specs.
