(* ===== verification/Txn.v ===== *)
(** * Transactions (clients of log.c)

    The file system calls inside [begin_trans] ... [commit_trans] read blocks,
    change them in their buffers, pass each changed buffer to [log_write] and
    release it. This file gives the buffer operations their meaning at the
    level of the log, runs whole transactions with them, and proves that a
    transaction is atomic whatever prefix of its sector writes, and of the
    sector writes of the recoveries that follow, reaches the disk. *)

From S2P Require Import Prelude Buf Bio Log.

Section txn.
Context `{BD : BlockDev}.

(** ** The buffer operations inside a transaction *)

Lemma lrep_bread t V H L U z :
  lrep t V H L U → in_range (blk t) z → ¬ in_log (lg t) z → H !! z = None →
  (z ∈ L ∨ size (dom H ∪ list_to_set L) < NBUF)%nat →
  wp (lift (bread 1 z)) (λ b t',
    lrep t' V (<[z := b]> H) L U ∧ lg t' = lg t ∧
    disk (blk t') = disk (blk t) ∧ trace (blk t') = trace (blk t)) t.
Proof.
  intros HL Hz Hnl Hnone Hroom. apply wp_lift.
  eapply wp_mono; [eapply bread_spec; [exact (lr_brep _ _ _ _ _ HL)|done|done|]|].
  { by rewrite elem_of_list_to_set. }
  intros b s' (HR & Hd & Ht). nrm. split_and!; try done.
  destruct HL. constructor; unfold geometry, in_range in *; nrm; rewrite ?Hd; try done.
  - intros y. rewrite dom_insert_L. set_solver.
  - set_solver.
Qed.

(** Stores into a held buffer are to be logged. *)
Lemma lrep_bstore t V H L U z b g :
  lrep t V H L U → H !! z = Some b → length (g (V z)) = BSIZE →
  wp (lift (bstore b g)) (λ _ t',
    lrep t' (<[z := g (V z)]> V) H L ({[z]} ∪ U) ∧ lg t' = lg t ∧
    disk (blk t') = disk (blk t) ∧ trace (blk t') = trace (blk t)) t.
Proof.
  intros HL Hz Hlen. apply wp_lift.
  eapply wp_mono; [eapply bstore_spec; [exact (lr_brep _ _ _ _ _ HL)|done|done]|].
  intros _ s' (HR & Hd & Ht). nrm. split_and!; try done.
  assert (z ∈ dom H) as Hdom by by apply elem_of_dom_2 with b.
  destruct (lrep_range _ _ _ _ _ z HL (or_intror Hdom)) as [Hz0 Hnl].
  destruct HL. constructor; unfold geometry, in_range in *; nrm; rewrite ?Hd; try done.
  - set_solver.
  - intros i y Hi Hy. rewrite fn_lookup_insert_ne by set_solver. apply lr_logged; set_solver.
  - intros y Hy HyL HyU. rewrite fn_lookup_insert_ne by set_solver. apply lr_clean; set_solver.
  - rewrite fn_lookup_insert_ne; [done|]. unfold in_log in Hnl. lia.
Qed.

Lemma lrep_getbuf t V H L U z b Q :
  lrep t V H L U → H !! z = Some b →
  (∀ B, b_data B = V z → b_sector B = z → length (V z) = BSIZE → Q B t) →
  wp (lift (getbuf b)) Q t.
Proof.
  intros HL Hz HQ. destruct (brep_holder _ _ _ _ _ _ (lr_brep _ _ _ _ _ HL) Hz)
    as (B & HB & _ & _ & Hs & _ & _ & Hd & Hlen).
  apply wp_lift. eapply wp_getbuf; [done|]. nrm. destruct t. by apply HQ.
Qed.

(** A changed buffer must be logged before it is released. *)
Lemma lrep_brelse t V H L U z b :
  lrep t V H L U → H !! z = Some b → z ∉ U →
  wp (lift (brelse b)) (λ _ t',
    lrep t' V (delete z H) L U ∧ lg t' = lg t ∧
    disk (blk t') = disk (blk t) ∧ trace (blk t') = trace (blk t)) t.
Proof.
  intros HL Hz HU. apply wp_lift.
  assert (z ∈ dom H) as Hdom by by apply elem_of_dom_2 with b.
  eapply wp_mono; [eapply brelse_spec; [exact (lr_brep _ _ _ _ _ HL)|done|]|].
  { destruct (decide (z ∈ L)); [left; by apply elem_of_list_to_set|right].
    apply (lr_clean _ _ _ _ _ HL); [|done|done]. by apply (lr_home _ _ _ _ _ HL); right. }
  intros _ s' (HR & Hd & Ht). nrm. split_and!; try done.
  destruct HL. constructor; unfold geometry, in_range in *; nrm; rewrite ?Hd; try done.
  - intros y. rewrite dom_delete_L. set_solver.
  - rewrite dom_delete_L. set_solver.
Qed.

Lemma begin_trans_spec t V H L U :
  lrep t V H L U →
  begin_trans t = if log_busy (lg t) =? 0
    then Ok tt (mkLst (blk t) (mkLog (log_start (lg t)) (log_size (lg t)) 1 (log_dev (lg t))
                                (lh_n (lg t)) (lh_sector (lg t))))
    else Err (Sleep "log" 0) t.
Proof.
  intros _. unfold begin_trans, getlog, gets, mbind, M_bind. simpl.
  by destruct (log_busy (lg t) =? 0).
Qed.

Definition busy_log (t : lst) : lst :=
  mkLst (blk t) (mkLog (log_start (lg t)) (log_size (lg t)) 1 (log_dev (lg t)) (lh_n (lg t)) (lh_sector (lg t))).
Lemma wp_begin t V H L U (Q : unit → lst → Prop) :
  lrep t V H L U → log_busy (lg t) = 0 → (lrep (busy_log t) V H L U → Q tt (busy_log t)) → wp begin_trans Q t.
Proof.
  intros HL Hb HQ. unfold wp. rewrite (begin_trans_spec _ _ _ _ _ HL), Hb. simpl. apply HQ. destruct HL. by constructor.
Qed.
(** ** Whole transactions *)

(** Change the block [z] by [f], the way bzero, iupdate and writei do. *)
Definition update (op : Z * (block → block)) : M lst unit :=
  b ← lift (bread 1 op.1);
  lift (bstore b op.2);;
  log_write b;;
  lift (brelse b).

Definition transaction (ops : list (Z * (block → block))) : M lst unit :=
  begin_trans;;
  forM ops update;;
  commit_trans.

(** The specification: the changes, applied to the content of the disk. *)
Definition apply_ops (ops : list (Z * (block → block))) (V : Z → block) : Z → block :=
  foldl (λ V op, <[op.1 := op.2 (V op.1)]> V) V ops.

(** A write to a log block, the header excepted. *)
Definition log_body (t : lst) (w : Z * block) : Prop :=
  log_start (lg t) < w.1 < log_start (lg t) + log_size (lg t) ∧ length w.2 = BSIZE.

(** A home location: in the disk, outside the log. *)
Definition home (t : lst) (z : Z) : Prop := in_range (blk t) z ∧ ¬ in_log (lg t) z.

(** What a step inside a transaction keeps. *)
Definition same_log (t t' : lst) : Prop :=
  log_start (lg t') = log_start (lg t) ∧ log_size (lg t') = log_size (lg t) ∧
  log_busy (lg t') = log_busy (lg t) ∧ length (disk (blk t')) = length (disk (blk t)).

Lemma size_one_more z (L : list Z) :
  (size (dom (<[z := O]> (∅ : gmap Z nat)) ∪ list_to_set L) ≤ S (length L))%nat.
Proof.
  rewrite dom_insert_L, dom_empty_L, union_empty_r_L.
  etransitivity; [apply size_union_le|]. rewrite size_singleton.
  apply le_n_S. induction L as [|x L IH]; [by rewrite list_to_set_nil, size_empty|].
  rewrite list_to_set_cons. simpl. etransitivity; [apply size_union_le|]. rewrite size_singleton. lia.
Qed.

Lemma update_spec t V L z f :
  lrep t V ∅ L ∅ → log_busy (lg t) ≠ 0 → home t z →
  (length L < LOGSIZE)%nat → Z.of_nat (length L) < log_size (lg t) - 1 →
  (∀ d, length d = BSIZE → length (f d) = BSIZE) →
  wp (update (z, f)) (λ _ t', ∃ V' w,
    lrep t' V' ∅ (log_add z L) ∅ ∧
    (∀ y, ¬ in_log (lg t) y → V' y = (<[z := f (V z)]> V : Z → block) y) ∧
    same_log t t' ∧ log_body t w ∧
    disk (blk t') = apply_writes [w] (disk (blk t)) ∧ trace (blk t') = trace (blk t) ++ [w]) t.
Proof.
  intros HL Hbusy [Hz Hnl] Hcap Hcap' Hf. unfold update. simpl.
  pose proof (lr_geo _ _ _ _ _ HL) as (_ & _ & Hsz & _).
  pose proof (size_one_more z L) as Hsize.
  apply wp_bind. eapply wp_mono; [apply (lrep_bread _ _ _ _ _ _ HL); try done|].
  { right. rewrite dom_empty_L, union_empty_l_L. rewrite dom_insert_L in Hsize.
    pose proof (subseteq_size (list_to_set L) ({[z]} ∪ dom (∅ : gmap Z nat) ∪ list_to_set L)).
    opose proof* H; [set_solver|]. lia. }
  intros b t1 (HL1 & Hg1 & Hd1 & Ht1).
  apply wp_bind. eapply wp_mono; [eapply lrep_bstore; [exact HL1|apply lookup_insert_eq|]|].
  { apply Hf. destruct (brep_holder _ _ _ _ z b (lr_brep _ _ _ _ _ HL1)) as (B&_&_&_&_&_&_&_&?);
      [apply lookup_insert_eq|done]. }
  intros _ t2 (HL2 & Hg2 & Hd2 & Ht2).
  assert (lg t2 = lg t) as Hg by congruence. rewrite <-Hg in Hbusy, Hcap'.
  apply wp_bind. eapply wp_mono; [eapply log_write_spec;
    [exact HL2|apply lookup_insert_eq|done|done|done|]|].
  { rewrite dom_insert_L. rewrite dom_insert_L in Hsize. rewrite Hg in Hcap'. lia. }
  intros _ t3 (V3 & l & HL3 & HV3 & Hst3 & Hsz3 & Hb3 & Hl & Hd3 & Ht3).
  eapply wp_mono; [eapply lrep_brelse; [exact HL3|apply lookup_insert_eq|set_solver]|].
  intros _ t4 (HL4 & Hg4 & Hd4 & Ht4).
  exists V3, (l, <[z:=f (V z)]> V z). rewrite Hg in *. split_and!.
  - replace ({[z]} ∪ ∅) with ({[z]} : gset Z) in HL4 by set_solver.
    rewrite delete_insert_None in HL4 by done. replace (_ ∖ _) with (∅ : gset Z) in HL4 by set_solver.
    done.
  - done.
  - unfold same_log. rewrite Hg4, Hd4, Hd3, length_insert, Hd2, Hd1. done.
  - split; [done|]. rewrite fn_lookup_insert.
    destruct (brep_holder _ _ _ _ z b (lr_brep _ _ _ _ _ HL2)) as (B&_&_&_&_&_&_&_&Hlen);
      [apply lookup_insert_eq|]. by rewrite fn_lookup_insert in Hlen.
  - rewrite Hd4, Hd3, Hd2, Hd1. done.
  - by rewrite Ht4, Ht3, Ht2, Ht1.
Qed.

(** A list of changes that a transaction can make: home locations other than
    the super block, whole blocks, and no more blocks than the log holds. *)
Definition ops_ok (t : lst) (ops : list (Z * (block → block))) : Prop :=
  Z.of_nat (length ops) ≤ log_size (lg t) - 1 ∧
  ∀ op, op ∈ ops → home t op.1 ∧ op.1 ≠ 1 ∧ ∀ d, length d = BSIZE → length (op.2 d) = BSIZE.

Lemma length_log_add z L : (length (log_add z L) ≤ S (length L))%nat.
Proof. unfold log_add. case_decide; [lia|]. rewrite length_app. simpl. lia. Qed.

Lemma apply_ops_out ops V V' (P : Z → Prop) :
  (∀ y, P y → V' y = V y) → (∀ op, op ∈ ops → P op.1) → ∀ y, P y → apply_ops ops V' y = apply_ops ops V y.
Proof.
  revert V V'. induction ops as [|op ops IH]; intros V V' HV Hops y Hy; [by apply HV|].
  simpl. apply IH; [|set_solver|done]. intros x Hx.
  destruct (decide (x = op.1)) as [->|].
  - rewrite !fn_lookup_insert. f_equal. apply HV, Hops. set_solver.
  - rewrite !fn_lookup_insert_ne by done. by apply HV.
Qed.

(** The changes of a transaction, before its commit: only log blocks are
    written. *)
Lemma updates_spec ops : ∀ t V L,
  lrep t V ∅ L ∅ → log_busy (lg t) ≠ 0 → 1 ∉ L →
  Z.of_nat (length L + length ops) ≤ log_size (lg t) - 1 →
  (∀ op, op ∈ ops → home t op.1 ∧ op.1 ≠ 1 ∧ ∀ d, length d = BSIZE → length (op.2 d) = BSIZE) →
  wp (forM ops update) (λ _ t', ∃ V' L' ws,
    lrep t' V' ∅ L' ∅ ∧ (1 ∉ L') ∧ same_log t t' ∧
    (∀ y, ¬ in_log (lg t) y → V' y = apply_ops ops V y) ∧ Forall (log_body t) ws ∧
    disk (blk t') = apply_writes ws (disk (blk t)) ∧ trace (blk t') = trace (blk t) ++ ws) t.
Proof.
  induction ops as [|[z f] ops IH]; intros t V L HL Hbusy H1 Hcap Hops.
  { exists V, L, []. rewrite app_nil_r. split_and!; done. }
  simpl forM. simpl length in Hcap.
  pose proof (lr_geo _ _ _ _ _ HL) as (_ & _ & Hsz & _).
  destruct (Hops (z, f)) as (Hz & Hz1 & Hf); [set_solver|]. simpl in Hz, Hz1, Hf.
  apply wp_bind. eapply wp_mono; [apply (update_spec _ _ _ _ _ HL); try done; unfold LOGSIZE, NBUF in *; lia|].
  intros _ t1 (V1 & w & HL1 & HV1 & (Hst & Hsize & Hb & Hdl) & Hw & Hd1 & Ht1).
  assert (Hlog : ∀ y, in_log (lg t1) y ↔ in_log (lg t) y) by (unfold in_log; intros; by rewrite Hst, Hsize).
  eapply wp_mono; [apply (IH t1 V1 (log_add z L))|].
  - done.
  - congruence.
  - unfold log_add. case_decide; [done|]. rewrite elem_of_app, list_elem_of_singleton. naive_solver.
  - pose proof (length_log_add z L). rewrite Hsize. lia.
  - intros op Hop. unfold home, in_range. rewrite Hlog, Hdl. apply Hops. set_solver.
  - intros _ t2 (V2 & L2 & ws & HL2 & H12 & (Hst2 & Hsize2 & Hb2 & Hdl2) & HV2 & Hws & Hd2 & Ht2).
    exists V2, L2, (w :: ws). unfold same_log. split_and!; try done; try congruence.
    + intros y Hy. rewrite HV2 by by rewrite Hlog. simpl.
      apply (apply_ops_out _ _ _ (λ y, ¬ in_log (lg t) y)); [done| |done].
      intros op Hop. destruct (Hops op) as [[??] _]; [set_solver|done].
    + constructor; [done|]. eapply Forall_impl; [exact Hws|]. intros w'. unfold log_body.
      by rewrite Hst, Hsize.
    + by rewrite Hd2, Hd1.
    + by rewrite Ht2, Ht1, <-app_assoc.
Qed.

(** ** Crashes *)

(** [crashed d d']: the machine stopped with disk [d], and any number of boots
    were each cut short after some of their sector writes, leaving [d']. *)
Inductive crashed (d : list block) : list block → Prop :=
| crash_now : crashed d d
| crash_again d' t p :
    crashed d d' → boot d' = Ok tt t → p `prefix_of` trace (blk t) →
    crashed d (apply_writes p d').

(** Interrupted recoveries do not change what the disk means. *)
Lemma crashed_redo st sz d d' :
  log_disk st sz d → crashed d d' →
  log_disk st sz d' ∧ length d' = length d ∧
  ∀ z, 0 ≤ z < Z.of_nat (length d) → z ≠ st → redo st d' z = redo st d z.
Proof.
  intros Hd. induction 1 as [|d' t p _ (Hd' & Hlen & Heq) Hb Hp]; [done|].
  destruct (boot_spec _ _ _ Hd') as (t0 & _ & Hb0 & _ & _ & _ & _ & _ & _ & Ht0).
  assert (t0 = t) as -> by congruence. rewrite Ht0 in Hp.
  destruct (recover_prefix _ _ _ Hd' _ Hp) as [Ha Hc].
  split_and!; [done|by rewrite length_apply_writes|].
  intros z Hz Hst. rewrite Hc, Heq; [done..|lia|done].
Qed.

(** Writes to log blocks alone do not change what an idle disk means. *)
Lemma body_prefix t p :
  log_disk (log_start (lg t)) (log_size (lg t)) (disk (blk t)) →
  get_s32 0 (disk (blk t) !!! Z.to_nat (log_start (lg t))) = 0 → Forall (log_body t) p →
  let dp := apply_writes p (disk (blk t)) in
  log_disk (log_start (lg t)) (log_size (lg t)) dp ∧
  (∀ z, home t z → dp !!! Z.to_nat z = disk (blk t) !!! Z.to_nat z) ∧
  (∀ z, home t z → redo (log_start (lg t)) dp z = disk (blk t) !!! Z.to_nat z).
Proof.
  intros Hd Hhd Hp dp. rewrite Forall_forall in Hp.
  pose proof Hd as (Hst & Hsz & Hend & Hlen & _).
  assert (Hout : ∀ z, 0 ≤ z → ¬ (log_start (lg t) < z < log_start (lg t) + log_size (lg t)) →
    dp !! Z.to_nat z = disk (blk t) !! Z.to_nat z).
  { intros z Hz Hn. apply apply_writes_ne. intros w Hw. destruct (Hp w Hw) as [? _]. lia. }
  assert (get_s32 0 (dp !!! Z.to_nat (log_start (lg t))) = 0) as Hz.
  { rewrite (lookup_total_eq _ _ _ _ (Hout (log_start (lg t)) ltac:(lia) ltac:(lia))). done. }
  split.
  - apply (log_disk_header _ _ _ _ Hd); [apply length_apply_writes| |apply (Hout 1); lia|].
    + apply apply_writes_lens; [done|]. apply Forall_forall. intros w Hw. by apply Hp.
    + cbv zeta. rewrite Hz. split_and!; [lia..|]. simpl. set_solver.
  - assert (∀ z, home t z → dp !!! Z.to_nat z = disk (blk t) !!! Z.to_nat z) as E.
    { intros z [[Hz0 _] Hnl]. apply lookup_total_eq, Hout; [done|]. unfold in_log in Hnl. lia. }
    split; [done|]. intros z Hh. rewrite redo_erased by done. by apply E.
Qed.

(** What a boot finds on a disk whose content is known. *)
Lemma boot_content t d d' W :
  log_disk (log_start (lg t)) (log_size (lg t)) d → length d = length (disk (blk t)) →
  (∀ z, home t z → redo (log_start (lg t)) d z = W z) → crashed d d' →
  ∃ t2 V2, boot d' = Ok tt t2 ∧ lrep t2 V2 ∅ [] ∅ ∧ (∀ z, home t2 z ↔ home t z) ∧
    ∀ z, home t z → V2 z = W z.
Proof.
  intros Hd Hlen Heq Hc. destruct (crashed_redo _ _ _ _ Hd Hc) as (Hd' & Hlen' & Heq').
  destruct (boot_spec _ _ _ Hd') as (t2 & V2 & Hb & HL & Hbusy & Hst & Hsz & Hdk & HV & _).
  exists t2, V2. split; [exact Hb|]. split; [exact HL|]. clear Hb. split.
  - intros z. unfold home, in_range, in_log. by rewrite Hst, Hsz, Hdk, length_apply_writes, Hlen', Hlen.
  - intros z Hz. pose proof Hd as (_ & Hsz' & _).
    assert (z ≠ log_start (lg t)). { intros ->. apply Hz. unfold in_log. lia. }
    rewrite HV, Heq' by (try done; rewrite Hlen; apply Hz). by apply Heq.
Qed.

Lemma transaction_run t V ops :
  lrep t V ∅ [] ∅ → log_busy (lg t) = 0 → ops_ok t ops →
  ∃ t' t1 V1 L1 ws,
    transaction ops t = Ok tt t' ∧ lrep t1 V1 ∅ L1 ∅ ∧ (1 ∉ L1) ∧ same_log t t' ∧
    log_start (lg t1) = log_start (lg t) ∧ log_size (lg t1) = log_size (lg t) ∧
    (∀ y, ¬ in_log (lg t) y → V1 y = apply_ops ops V y) ∧ Forall (log_body t) ws ∧
    disk (blk t1) = apply_writes ws (disk (blk t)) ∧
    disk (blk t') = apply_writes (ws ++ commit_writes t1 V1 L1) (disk (blk t)) ∧
    trace (blk t') = trace (blk t) ++ ws ++ commit_writes t1 V1 L1 ∧
    ∃ V', lrep t' V' ∅ [] ∅ ∧ (∀ y, ¬ in_log (lg t) y → V' y = apply_ops ops V y).
Proof.
  intros HL Hbusy [Hlen Hops].
  assert (Hb : begin_trans t = Ok tt (mkLst (blk t) (mkLog (log_start (lg t)) (log_size (lg t)) 1
    (log_dev (lg t)) (lh_n (lg t)) (lh_sector (lg t))))).
  { rewrite (begin_trans_spec _ _ _ _ _ HL), Hbusy. done. }
  set (t0 := mkLst _ _) in Hb.
  assert (HL0 : lrep t0 V ∅ [] ∅) by (destruct HL; by constructor).
  opose proof* (updates_spec ops t0 V [] HL0) as Hwp; [done|set_solver|exact Hlen|exact Hops|].
  apply wp_Ok in Hwp as ([] & t1 & Hrun & V1 & L1 & ws & HL1 & H11 & (Hst & Hsz & Hbz & Hdl) & HV1 & Hws & Hd1 & Ht1).
  pose proof (commit_trans_spec t1 V1 L1 HL1) as Hwp2.
  apply wp_Ok in Hwp2 as ([] & t' & Hrun2 & V' & HL' & HV' & Hst' & Hsz' & Hbz' & Hd' & Ht').
  assert (Hlog : ∀ y, ¬ in_log (lg t) y → y ≠ log_start (lg t1)).
  { intros y Hy ->. apply Hy. pose proof (lr_geo _ _ _ _ _ HL) as (_ & _ & ? & _).
    unfold in_log. rewrite Hst. simpl. lia. }
  exists t', t1, V1, L1, ws. split.
  { unfold transaction, mbind, M_bind. rewrite Hb, Hrun. exact Hrun2. }
  split_and!; try done.
  - unfold same_log. rewrite Hst', Hsz', Hbz', Hbusy, Hd', length_apply_writes. done.
  - rewrite apply_writes_app, Hd', Hd1. done.
  - rewrite Ht', Ht1. simpl. by rewrite <-app_assoc.
  - exists V'. split; [done|]. intros y Hy. rewrite HV', HV1; [done|done|by apply Hlog].
Qed.

Lemma prefix_app_cases {A} (p l1 l2 : list A) :
  p `prefix_of` l1 ++ l2 →
  (p ≠ l1 ++ l2 ∧ p `prefix_of` l1) ∨ ∃ q, p = l1 ++ q ∧ q `prefix_of` l2.
Proof.
  intros [k Hk]. symmetry in Hk. apply app_eq_inv in Hk as [(q & -> & ->)|(q & -> & ->)].
  - right. exists q. split; [done|by exists k].
  - destruct q as [|x q].
    + right. exists []. rewrite !app_nil_r. split; [done|apply prefix_nil].
    + left. split; [|by exists (x :: q)]. intros E%(f_equal length).
      rewrite !length_app in E. simpl in E. lia.
Qed.

(** The disk after any prefix of the writes of a transaction means all of it or
    nothing of it. *)
Lemma transaction_prefix t V ops :
  lrep t V ∅ [] ∅ → log_busy (lg t) = 0 →
  log_disk (log_start (lg t)) (log_size (lg t)) (disk (blk t)) → ops_ok t ops →
  ∃ t' ws, transaction ops t = Ok tt t' ∧ trace (blk t') = trace (blk t) ++ ws ∧
    disk (blk t') = apply_writes ws (disk (blk t)) ∧
    (∃ V', lrep t' V' ∅ [] ∅ ∧ same_log t t' ∧ ∀ z, home t z → V' z = apply_ops ops V z) ∧
    ∀ p, p `prefix_of` ws →
      let dp := apply_writes p (disk (blk t)) in
      log_disk (log_start (lg t)) (log_size (lg t)) dp ∧
      ((p ≠ ws ∧ ∀ z, home t z → redo (log_start (lg t)) dp z = V z) ∨
       (∀ z, home t z → redo (log_start (lg t)) dp z = apply_ops ops V z)).
Proof.
  intros HL Hbusy Hd Hok. pose proof (lr_geo _ _ _ _ _ HL) as (_ & Hst0 & Hsz0 & Hend & _).
  assert (Hold : ∀ z, home t z → disk (blk t) !!! Z.to_nat z = V z).
  { intros z [Hz _]. apply list_lookup_total_correct, (lr_clean _ _ _ _ _ HL); set_solver. }
  assert (Hhd : get_s32 0 (disk (blk t) !!! Z.to_nat (log_start (lg t))) = 0).
  { erewrite list_lookup_total_correct; [apply (lr_head _ _ _ _ _ HL)|].
    apply (lr_clean _ _ _ _ _ HL); [unfold in_range; lia|set_solver..]. }
  assert (Hne : ∀ z, home t z → z ≠ log_start (lg t)).
  { intros z [_ Hz] ->. apply Hz. unfold in_log. lia. }
  destruct (transaction_run t V ops HL Hbusy Hok) as (t' & t1 & V1 & L1 & ws & Hrun & HL1 & H11 &
    Hsame & Hst & Hsz & HV1 & Hws & Hd1 & Hd' & Ht' & V' & HL' & HV').
  assert (Hlen1 : length (disk (blk t1)) = length (disk (blk t))) by by rewrite Hd1, length_apply_writes.
  exists t', (ws ++ commit_writes t1 V1 L1). split; [exact Hrun|]. clear Hrun.
  split; [done|]. split; [done|]. split.
  { exists V'. split; [done|]. split; [done|]. intros z [_ Hz]. by apply HV'. }
  assert (Hd1' : log_disk (log_start (lg t1)) (log_size (lg t1)) (disk (blk t1))).
  { rewrite Hst, Hsz, Hd1. by apply body_prefix. }
  assert (Hold1 : ∀ z, home t z → disk (blk t1) !!! Z.to_nat z = V z).
  { intros z Hz. rewrite Hd1. destruct (body_prefix t ws Hd Hhd Hws) as (_ & E & _).
    by rewrite E, Hold. }
  intros p [[Hpne Hp]|(q & -> & Hq)]%prefix_app_cases.
  - destruct Hp as [k ->]. apply Forall_app in Hws as [Hp _].
    destruct (body_prefix t p Hd Hhd Hp) as (Hda & _ & Hr). split; [done|].
    left. split; [done|]. intros z Hz. by rewrite Hr, Hold.
  - rewrite apply_writes_app, <-Hd1, <-Hst, <-Hsz.
    assert (Hh : ∀ z, home t z → in_range (blk t1) z ∧ z ≠ log_start (lg t1)).
    { intros z Hz. unfold in_range. rewrite Hlen1, Hst. split; [apply Hz|by apply Hne]. }
    destruct (decide (q = commit_writes t1 V1 L1)) as [->|Hqne].
    + destruct (commit_done t1 V1 L1 HL1 Hd1' H11) as [Hda Hr]. split; [done|]. right.
      intros z Hz. destruct (Hh z Hz). rewrite Hr, HV1; [done|apply Hz|done..].
    + destruct (commit_prefix_disk t1 V1 L1 HL1 Hd1' H11 q Hq) as [Hda [Hr|Hr]]; (split; [done|]).
      * left. split; [by intros ?%app_inv_head|]. intros z Hz. destruct (Hh z Hz).
        rewrite Hr by done. by apply Hold1.
      * right. intros z Hz. destruct (Hh z Hz). rewrite Hr, HV1; [done|apply Hz|done..].
Qed.

(** What a client reads from a block. *)
Definition read_block (z : Z) (t : lst) : option block :=
  match (b ← lift (bread 1 z); B ← lift (getbuf b); mret (b_data B)) t with
  | Ok d _ => Some d
  | Err _ _ => None
  end.

Lemma lrep_read_block t V z : lrep t V ∅ [] ∅ → home t z → read_block z t = Some (V z).
Proof.
  intros HL [Hz Hnl].
  assert (wp (b ← lift (bread 1 z); B ← lift (getbuf b); mret (b_data B)) (λ d _, d = V z) t) as Hwp.
  { apply wp_bind. eapply wp_mono; [apply (lrep_bread _ _ _ _ _ _ HL); try done|].
    { right. rewrite dom_empty_L, list_to_set_nil, union_empty_r_L, size_empty. unfold NBUF. lia. }
    intros b t1 (HL1 & _). apply wp_bind. eapply lrep_getbuf; [exact HL1|apply lookup_insert_eq|].
    intros B HB _ _. by apply wp_ret. }
  apply wp_Ok in Hwp as (d & t' & Hrun & ->). unfold read_block. by rewrite Hrun.
Qed.

(** A block of the disk that is not the super block or part of the log. *)
Definition data_block (st sz : Z) (d : list block) (z : Z) : Prop :=
  0 ≤ z < Z.of_nat (length d) ∧ ¬ (st ≤ z < st + sz).

Definition ops_fit (st sz : Z) (d : list block) (ops : list (Z * (block → block))) : Prop :=
  Z.of_nat (length ops) ≤ sz - 1 ∧
  ∀ op, op ∈ ops → data_block st sz d op.1 ∧ op.1 ≠ 1 ∧ ∀ b, length b = BSIZE → length (op.2 b) = BSIZE.

Lemma home_data st sz d t z :
  log_start (lg t) = st → log_size (lg t) = sz → length (disk (blk t)) = length d →
  home t z ↔ data_block st sz d z.
Proof. intros <- <- Hl. unfold home, in_range, in_log, data_block. by rewrite Hl. Qed.

(** C1: transactions are atomic. Boot from a disk with a log, run a transaction
    (begin_trans, any changes that fit the log, commit_trans), and stop the
    machine after any prefix [p] of the sector writes it issues, then again
    during any number of recoveries. The next boot succeeds and reads either
    every block as before the transaction, or every block as after it; the
    latter if all the writes of the transaction had reached the disk. *)
Theorem transaction_atomic st sz d ops :
  log_disk st sz d → ops_fit st sz d ops →
  ∃ t t' ws V, boot d = Ok tt t ∧ transaction ops t = Ok tt t' ∧
    trace (blk t') = trace (blk t) ++ ws ∧
    (∀ z, data_block st sz d z → read_block z t = Some (V z)) ∧
    ∀ p dc, p `prefix_of` ws → crashed (apply_writes p (disk (blk t))) dc →
      ∃ t2, boot dc = Ok tt t2 ∧
        ((p ≠ ws ∧ ∀ z, data_block st sz d z → read_block z t2 = Some (V z)) ∨
         (∀ z, data_block st sz d z → read_block z t2 = Some (apply_ops ops V z))).
Proof.
  intros Hd [Hcap Hops].
  destruct (boot_spec st sz d Hd) as (t & V & Hb & HL & Hbusy & Hst & Hsz & Hdk & _ & Ht).
  assert (Hdl : length (disk (blk t)) = length d) by by rewrite Hdk, length_apply_writes.
  assert (Hh := λ z, home_data st sz d t z Hst Hsz Hdl).
  assert (Hld : log_disk (log_start (lg t)) (log_size (lg t)) (disk (blk t))).
  { rewrite Hst, Hsz, Hdk. by apply (recover_prefix st sz d Hd). }
  destruct (transaction_prefix t V ops HL Hbusy Hld) as (t' & ws & Hrun & Ht' & _ & _ & Hp).
  { split; [by rewrite Hsz|]. intros op Hop. rewrite Hh. by apply Hops. }
  exists t, t', ws, V. split; [exact Hb|]. split; [exact Hrun|]. clear Hb Hrun.
  split; [done|]. split; [intros z Hz; by apply lrep_read_block, Hh|].
  intros p dc Hpre Hc. destruct (Hp p Hpre) as [Hpd Hcase].
  assert (Hfin : ∀ W, (∀ z, home t z → redo (log_start (lg t)) (apply_writes p (disk (blk t))) z = W z) →
    ∃ t2, boot dc = Ok tt t2 ∧ ∀ z, data_block st sz d z → read_block z t2 = Some (W z)).
  { intros W HW.
    destruct (boot_content t _ dc W Hpd (length_apply_writes _ _) HW Hc) as (t2 & V2 & Hb2 & HL2 & Hh2 & HV2).
    exists t2. split; [exact Hb2|]. clear Hb2. intros z Hz. apply Hh in Hz.
    rewrite <-HV2 by done. by apply lrep_read_block, Hh2. }
  destruct Hcase as [[Hne Hold]|Hnew].
  - destruct (Hfin V Hold) as (t2 & Hb2 & Hr). exists t2. split; [exact Hb2|]. clear Hb2. auto.
  - destruct (Hfin _ Hnew) as (t2 & Hb2 & Hr). exists t2. split; [exact Hb2|]. clear Hb2. auto.
Qed.

(** Recovery may itself be interrupted: after any number of boots that were
    cut short at any of their sector writes, a boot succeeds and reads the same
    blocks as a boot from the disk of the first crash. *)
Theorem recovery_idempotent st sz d d' :
  log_disk st sz d → crashed d d' →
  ∃ t t', boot d = Ok tt t ∧ boot d' = Ok tt t' ∧
    ∀ z, data_block st sz d z → ∃ b, read_block z t = Some b ∧ read_block z t' = Some b.
Proof.
  intros Hd Hc. destruct (boot_spec st sz d Hd) as (t & V & Hb & HL & _ & Hst & Hsz & Hdk & HV & _).
  assert (Hdl : length d = length (disk (blk t))) by by rewrite Hdk, length_apply_writes.
  assert (Hh := λ z, home_data st sz d t z Hst Hsz (eq_sym Hdl)). subst st sz.
  destruct (boot_content t d d' V Hd Hdl) as (t' & V' & Hb' & HL' & Hh' & HV').
  { intros z Hz. symmetry. apply HV. intros ->. apply Hz. pose proof Hd as (_ & ? & _).
    unfold in_log. lia. }
  { exact Hc. }
  exists t, t'. split; [exact Hb|]. split; [exact Hb'|]. clear Hb Hb' Hc.
  intros z Hz. apply Hh in Hz. exists (V z). split; [by apply lrep_read_block|].
  rewrite <-HV' by done. by apply lrep_read_block, Hh'.
Qed.

End txn.

(** ** A small disk: a boot block, the super block, a data block and a log of
    three blocks. *)
Definition small_disk : list block :=
  let z := replicate BSIZE 0 in
  [z; put_32 12 3 (put_32 0 6 z); z; z; z; z].

Lemma small_disk_ok : log_disk 3 3 small_disk.
Proof.
  unfold log_disk. split_and!; try (vm_compute; congruence).
  - intros i b Hi. apply list_elem_of_lookup_2 in Hi. revert b Hi. apply Forall_forall.
    repeat constructor; vm_compute; reflexivity.
  - intros z Hz. vm_compute in Hz. set_solver.
Qed.

Definition small_ops : list (Z * (block → block)) := [(2, λ b, <[0%nat := 7]> b)].

Lemma small_ops_fit : ops_fit 3 3 small_disk small_ops.
Proof.
  split; [done|]. intros op Hop. apply list_elem_of_singleton in Hop as ->.
  split; [vm_compute; intuition congruence|]. split; [done|]. cbn [snd]. intros b Hb. by rewrite length_insert.
Qed.

Lemma transaction_atomic_witness :
  ∃ t t' ws, boot small_disk = Ok tt t ∧ transaction small_ops t = Ok tt t' ∧
    trace (blk t') = trace (blk t) ++ ws.
Proof.
  destruct (transaction_atomic 3 3 small_disk small_ops small_disk_ok small_ops_fit)
    as (t & t' & ws & V & Hb & Hr & Ht & _).
  exists t, t', ws. exact (conj Hb (conj Hr Ht)).
Defined.

Lemma recovery_idempotent_witness :
  ∃ t t', boot small_disk = Ok tt t ∧ boot small_disk = Ok tt t' ∧
    ∀ z, data_block 3 3 small_disk z → ∃ b, read_block z t = Some b ∧ read_block z t' = Some b.
Proof. exact (recovery_idempotent 3 3 small_disk small_disk small_disk_ok (crash_now _)). Defined.

