(* ===== verification/Fs.v ===== *)
(** * The file system (fs.c, fs.h, stat.h)

    Five layers of fs.c on top of the log: block allocation, the inode cache,
    inode contents, directories and path names. The state is that of the log
    layer and the inode cache; a pointer to an inode is its index in
    [icache.inode]. [sleep] in [ilock] is the outcome [Sleep]; the memory that
    [readi] fills and [writei] reads is passed as a list of bytes. The null
    pointer is not an index: where a function may return it, it returns an
    option, and callers test it as the code does. *)

From S2P Require Import Prelude Cstring Buf Bio Log Txn.

Definition NINODE : nat := 50.
Definition NDEV : Z := 10.
Definition NDIRECT : nat := 12.
Definition NINDIRECT : nat := 128.
Definition MAXFILE : nat := NDIRECT + NINDIRECT.
Definition IPB : Z := 8.
Definition BPB : Z := 4096.
Definition ROOTINO : Z := 1.
Definition DIRSIZ : nat := 14.
Definition sizeof_dinode : nat := 64.
Definition sizeof_dirent : nat := 16.
Definition IBLOCK (i : Z) : Z := i `div` IPB + 2.
Definition BBLOCK (b ninodes : Z) : Z := b `div` BPB + ninodes `div` IPB + 3.

Definition T_DIR : Z := 1.
Definition T_FILE : Z := 2.
Definition T_DEV : Z := 3.
Definition I_BUSY : Z := 1.
Definition I_VALID : Z := 2.

(** [struct inode] of file.h. *)
Record inode := mkInode {
  i_dev : Z; i_inum : Z; i_ref : Z; i_flags : Z;
  i_type : Z; i_major : Z; i_minor : Z; i_nlink : Z; i_size : Z; i_addrs : list Z;
}.

(** [struct dinode], read from and stored into the bytes at [off] of a block. *)
Record dinode := mkDinode {
  d_type : Z; d_major : Z; d_minor : Z; d_nlink : Z; d_size : Z; d_addrs : list Z;
}.

Definition get_dinode (off : nat) (d : block) : dinode :=
  mkDinode (get_s16 off d) (get_s16 (off + 2) d) (get_s16 (off + 4) d) (get_s16 (off + 6) d)
    (get_u32 (off + 8) d) ((λ k, get_u32 (off + 12 + 4 * k) d) <$> seq 0 (S NDIRECT)).

Definition put_addrs (off : nat) (addrs : list Z) (d : block) : block :=
  foldl (λ d k, put_32 (off + 4 * k) (addrs !!! k) d) d (seq 0 (S NDIRECT)).

Definition put_dinode (off : nat) (di : dinode) (d : block) : block :=
  put_addrs (off + 12) (d_addrs di)
    (put_32 (off + 8) (d_size di)
      (put_16 (off + 6) (d_nlink di)
        (put_16 (off + 4) (d_minor di)
          (put_16 (off + 2) (d_major di)
            (put_16 off (d_type di) d))))).

(** The offset of inode [inum] in its block: element [inum%IPB] of an array of
    [struct dinode]. *)
Definition dinode_off (inum : Z) : nat := sizeof_dinode * Z.to_nat (inum `mod` IPB).

(** [struct stat]. *)
Record stat := mkStat { st_type : Z; st_dev : Z; st_ino : Z; st_nlink : Z; st_size : Z }.

(** The file system: the log layer below and the inode cache. *)
Record fs := mkFs { lt : lst; icache : list inode }.

#[export] Instance lst_fs : Layer lst fs := {|
  low := lt; set_low s t := mkFs s (icache t);
  low_set := λ s t, eq_refl; set_set_low := λ s s' t, eq_refl;
|}.
#[export] Instance bst_fs : Layer bst fs := {|
  low := λ t, blk (lt t); set_low s t := mkFs (mkLst s (lg (lt t))) (icache t);
  low_set := λ s t, eq_refl; set_set_low := λ s s' t, eq_refl;
|}.

Definition zero_inode : inode := mkInode 0 0 0 0 0 0 0 0 0 (replicate (S NDIRECT) 0).
Definition icache0 : list inode := replicate NINODE zero_inode.

Definition geti (ip : nat) : M fs inode := λ s,
  match icache s !! ip with Some i => Ok i s | None => Err Undef s end.
Definition updi (ip : nat) (f : inode → inode) : M fs unit := λ s,
  match icache s !! ip with
  | Some i => Ok tt (mkFs (lt s) (<[ip := f i]> (icache s)))
  | None => Err Undef s
  end.

Definition iset_ref (r : Z) (i : inode) : inode :=
  mkInode (i_dev i) (i_inum i) r (i_flags i) (i_type i) (i_major i) (i_minor i) (i_nlink i) (i_size i) (i_addrs i).
Definition iset_flags (f : Z) (i : inode) : inode :=
  mkInode (i_dev i) (i_inum i) (i_ref i) f (i_type i) (i_major i) (i_minor i) (i_nlink i) (i_size i) (i_addrs i).
Definition iset_type (t : Z) (i : inode) : inode :=
  mkInode (i_dev i) (i_inum i) (i_ref i) (i_flags i) t (i_major i) (i_minor i) (i_nlink i) (i_size i) (i_addrs i).
Definition iset_nlink (n : Z) (i : inode) : inode :=
  mkInode (i_dev i) (i_inum i) (i_ref i) (i_flags i) (i_type i) (i_major i) (i_minor i) n (i_size i) (i_addrs i).
Definition iset_size (n : Z) (i : inode) : inode :=
  mkInode (i_dev i) (i_inum i) (i_ref i) (i_flags i) (i_type i) (i_major i) (i_minor i) (i_nlink i) n (i_addrs i).
Definition iset_addr (k : nat) (a : Z) (i : inode) : inode :=
  mkInode (i_dev i) (i_inum i) (i_ref i) (i_flags i) (i_type i) (i_major i) (i_minor i) (i_nlink i) (i_size i)
    (<[k := a]> (i_addrs i)).
Definition iset_major (m : Z) (i : inode) : inode :=
  mkInode (i_dev i) (i_inum i) (i_ref i) (i_flags i) (i_type i) m (i_minor i) (i_nlink i) (i_size i) (i_addrs i).
Definition iset_minor (m : Z) (i : inode) : inode :=
  mkInode (i_dev i) (i_inum i) (i_ref i) (i_flags i) (i_type i) (i_major i) m (i_nlink i) (i_size i) (i_addrs i).
(** The fields that [ilock] copies from disk. *)
Definition iset_dinode (d : dinode) (i : inode) : inode :=
  mkInode (i_dev i) (i_inum i) (i_ref i) (i_flags i) (d_type d) (d_major d) (d_minor d) (d_nlink d)
    (d_size d) (d_addrs d).
Definition dinode_of (i : inode) : dinode :=
  mkDinode (i_type i) (i_major i) (i_minor i) (i_nlink i) (i_size i) (i_addrs i).

(** [devsw]: the functions that device drivers registered, by major number. *)
Record devsw := mkDevsw {
  dev_read : Z → option (nat → Z → M fs (Z * list Z));
  dev_write : Z → option (nat → list Z → Z → M fs Z);
}.

Section Fs.
Context `{BD : BlockDev}.

(** ** Blocks *)
Definition bzero (dev bno : Z) : M fs unit :=
  bp ← lift (bread (u32 dev) (u32 bno));
  lift (bstore bp (λ _, replicate BSIZE 0));;
  lift (log_write bp);;
  lift (brelse bp).

(** The inner loop of [balloc]: the first free bit of a bitmap block, from bit
    [bi] on; [n] bits are left in the block. *)
Fixpoint balloc_scan (n : nat) (d : block) (b bi size : Z) : option Z :=
  match n with
  | O => None
  | S n' =>
      if b + bi <? size then
        let m := Z.shiftl 1 (bi `mod` 8) in
        if Z.land (d !!! Z.to_nat (bi / 8)) m =? 0 then Some bi
        else balloc_scan n' d b (bi + 1) size
      else None
  end.

Definition set_bit (bi : Z) (d : block) : block :=
  let k := Z.to_nat (bi / 8) in <[k := Z.lor (d !!! k) (Z.shiftl 1 (bi `mod` 8))]> d.
Definition clear_bit (bi : Z) (d : block) : block :=
  let k := Z.to_nat (bi / 8) in <[k := Z.land (d !!! k) (Z.lnot (Z.shiftl 1 (bi `mod` 8)))]> d.

(** The outer loop, over the bitmap blocks; [n] of them are left. *)
Fixpoint balloc_loop (n : nat) (dev b : Z) (sb : superblock) : M fs Z :=
  match n with
  | O => panic "balloc: out of blocks"
  | S n' =>
      if b <? sb_size sb then
        bp ← lift (bread dev (u32 (BBLOCK b (sb_ninodes sb))));
        B ← lift (getbuf bp);
        match balloc_scan (Z.to_nat BPB) (b_data B) b 0 (sb_size sb) with
        | Some bi =>
            lift (bstore bp (set_bit bi));;
            lift (log_write bp);;
            lift (brelse bp);;
            bzero dev (b + bi);;
            mret (u32 (b + bi))
        | None =>
            lift (brelse bp);;
            balloc_loop n' dev (b + BPB) sb
        end
      else panic "balloc: out of blocks"
  end.

Definition balloc (dev : Z) : M fs Z :=
  sb ← lift (readsb dev);
  balloc_loop (S (Z.to_nat (sb_size sb / BPB))) dev 0 sb.

Definition bfree (dev b : Z) : M fs unit :=
  sb ← lift (readsb dev);
  bp ← lift (bread (u32 dev) (u32 (BBLOCK b (sb_ninodes sb))));
  let bi := b `mod` BPB in
  let m := Z.shiftl 1 (bi `mod` 8) in
  B ← lift (getbuf bp);
  if Z.land (b_data B !!! Z.to_nat (bi / 8)) m =? 0 then panic "freeing free block" else
  lift (bstore bp (clear_bit bi));;
  lift (log_write bp);;
  lift (brelse bp).

(** ** Inodes *)

(** The scan of [iget]: an entry for the inode, or the first empty slot. *)
Fixpoint iget_scan (l : list inode) (k : nat) (empty : option nat) (dev inum : Z) : nat + option nat :=
  match l with
  | [] => inr empty
  | i :: l' =>
      if (0 <? i_ref i) && (i_dev i =? dev) && (i_inum i =? inum) then inl k else
      iget_scan l' (S k)
        (match empty with Some _ => empty | None => if i_ref i =? 0 then Some k else None end) dev inum
  end.

Definition iget (dev inum : Z) : M fs nat :=
  l ← gets icache;
  match iget_scan l 0 None dev inum with
  | inl ip => updi ip (λ i, iset_ref (i_ref i + 1) i);; mret ip
  | inr None => panic "iget: no inodes"
  | inr (Some ip) =>
      updi ip (λ i, mkInode dev inum 1 0 (i_type i) (i_major i) (i_minor i) (i_nlink i) (i_size i) (i_addrs i));;
      mret ip
  end.

Fixpoint ialloc_loop (n : nat) (dev inum type : Z) (sb : superblock) : M fs nat :=
  match n with
  | O => panic "ialloc: no inodes"
  | S n' =>
      if inum <? sb_ninodes sb then
        bp ← lift (bread dev (u32 (IBLOCK inum)));
        B ← lift (getbuf bp);
        if d_type (get_dinode (dinode_off inum) (b_data B)) =? 0 then
          lift (bstore bp (λ d, put_16 (dinode_off inum) type
                                 (splice (dinode_off inum) (replicate sizeof_dinode 0) d)));;
          lift (log_write bp);;
          lift (brelse bp);;
          iget dev inum
        else
          lift (brelse bp);;
          ialloc_loop n' dev (inum + 1) type sb
      else panic "ialloc: no inodes"
  end.

Definition ialloc (dev type : Z) : M fs nat :=
  sb ← lift (readsb dev);
  ialloc_loop (Z.to_nat (sb_ninodes sb)) dev 1 type sb.

Definition iupdate (ip : nat) : M fs unit :=
  i ← geti ip;
  bp ← lift (bread (i_dev i) (u32 (IBLOCK (i_inum i))));
  lift (bstore bp (put_dinode (dinode_off (i_inum i)) (dinode_of i)));;
  lift (log_write bp);;
  lift (brelse bp).

Definition idup (ip : nat) : M fs nat := updi ip (λ i, iset_ref (i_ref i + 1) i);; mret ip.

Definition ilock (ip : nat) : M fs unit :=
  i ← geti ip;
  if i_ref i <? 1 then panic "ilock" else
  if fl_test (i_flags i) I_BUSY then stopM (Sleep "inode" ip) else
  updi ip (λ i, iset_flags (Z.lor (i_flags i) I_BUSY) i);;
  if negb (fl_test (i_flags i) I_VALID) then
    bp ← lift (bread (i_dev i) (u32 (IBLOCK (i_inum i))));
    B ← lift (getbuf bp);
    let dip := get_dinode (dinode_off (i_inum i)) (b_data B) in
    updi ip (iset_dinode dip);;
    lift (brelse bp);;
    updi ip (λ i, iset_flags (Z.lor (i_flags i) I_VALID) i);;
    if d_type dip =? 0 then panic "ilock: no type" else mret tt
  else mret tt.

Definition iunlock (ip : nat) : M fs unit :=
  i ← geti ip;
  if negb (fl_test (i_flags i) I_BUSY) || (i_ref i <? 1) then panic "iunlock" else
  updi ip (λ i, iset_flags (Z.land (i_flags i) (Z.lnot I_BUSY)) i).

(** ** Inode contents *)
Definition bmap (ip : nat) (bn : Z) : M fs Z :=
  i ← geti ip;
  if bn <? Z.of_nat NDIRECT then
    let k := Z.to_nat bn in
    if i_addrs i !!! k =? 0 then
      addr ← balloc (i_dev i);
      updi ip (iset_addr k addr);;
      mret addr
    else mret (i_addrs i !!! k)
  else
    let bn := bn - Z.of_nat NDIRECT in
    if bn <? Z.of_nat NINDIRECT then
      addr ← (if i_addrs i !!! NDIRECT =? 0 then
                addr ← balloc (i_dev i); updi ip (iset_addr NDIRECT addr);; mret addr
              else mret (i_addrs i !!! NDIRECT));
      bp ← lift (bread (i_dev i) addr);
      B ← lift (getbuf bp);
      let a := get_u32 (4 * Z.to_nat bn) (b_data B) in
      addr ← (if a =? 0 then
                addr ← balloc (i_dev i);
                lift (bstore bp (put_32 (4 * Z.to_nat bn) addr));;
                lift (log_write bp);;
                mret addr
              else mret a);
      lift (brelse bp);;
      mret addr
    else panic "bmap: out of range".

Definition itrunc (ip : nat) : M fs unit :=
  forM (seq 0 NDIRECT) (λ k,
    i ← geti ip;
    if negb (i_addrs i !!! k =? 0) then
      bfree (i_dev i) (i_addrs i !!! k);;
      updi ip (iset_addr k 0)
    else mret tt);;
  i ← geti ip;
  (if negb (i_addrs i !!! NDIRECT =? 0) then
     bp ← lift (bread (i_dev i) (i_addrs i !!! NDIRECT));
     forM (seq 0 NINDIRECT) (λ j,
       B ← lift (getbuf bp);
       let a := get_u32 (4 * j) (b_data B) in
       if negb (a =? 0) then bfree (i_dev i) a else mret tt);;
     lift (brelse bp);;
     bfree (i_dev i) (i_addrs i !!! NDIRECT);;
     updi ip (iset_addr NDIRECT 0)
   else mret tt);;
  updi ip (iset_size 0);;
  iupdate ip.

Definition iput (ip : nat) : M fs unit :=
  i ← geti ip;
  (if (i_ref i =? 1) && fl_test (i_flags i) I_VALID && (i_nlink i =? 0) then
     if fl_test (i_flags i) I_BUSY then panic "iput busy" else
     updi ip (λ i, iset_flags (Z.lor (i_flags i) I_BUSY) i);;
     itrunc ip;;
     updi ip (iset_type 0);;
     iupdate ip;;
     updi ip (iset_flags 0)
   else mret tt);;
  updi ip (λ i, iset_ref (i_ref i - 1) i).

Definition iunlockput (ip : nat) : M fs unit := iunlock ip;; iput ip.

Definition stati (ip : nat) : M fs stat :=
  i ← geti ip;
  mret (mkStat (i_type i) (i_dev i) (i_inum i) (i_nlink i) (i_size i)).

Section dev.
Context (dsw : devsw).

Definition min (a b : Z) : Z := if a <? b then a else b.

(** The copy loop of [readi]: [n] bytes are left from [off] on. *)
Fixpoint readi_loop (fuel : nat) (ip : nat) (off n : Z) : M fs (list Z) :=
  if 0 <? n then
    match fuel with
    | O => stopM NoFuel
    | S fuel' =>
        i ← geti ip;
        addr ← bmap ip (off / Z.of_nat BSIZE);
        bp ← lift (bread (i_dev i) addr);
        let m := min n (Z.of_nat BSIZE - off `mod` Z.of_nat BSIZE) in
        B ← lift (getbuf bp);
        let bytes := slice (Z.to_nat (off `mod` Z.of_nat BSIZE)) (Z.to_nat m) (b_data B) in
        lift (brelse bp);;
        rest ← readi_loop fuel' ip (u32 (off + m)) (n - m);
        mret (bytes ++ rest)
    end
  else mret [].

(** Returns the return value of [readi] and the bytes it stored at [dst]. *)
Definition readi (ip : nat) (off n : Z) : M fs (Z * list Z) :=
  i ← geti ip;
  if i_type i =? T_DEV then
    if (i_major i <? 0) || (i_major i >=? NDEV) then mret (-1, []) else
    match dev_read dsw (i_major i) with
    | None => mret (-1, [])
    | Some rd => rd ip n
    end
  else
  if (off >? i_size i) || (u32 (off + n) <? off) then mret (-1, []) else
  let n := if u32 (off + n) >? i_size i then i_size i - off else n in
  bytes ← readi_loop (Z.to_nat n) ip off n;
  mret (s32 n, bytes).

(** The copy loop of [writei]: the bytes [src] are left; returns the offset
    reached. *)
Fixpoint writei_loop (fuel : nat) (ip : nat) (src : list Z) (off n : Z) : M fs Z :=
  if 0 <? n then
    match fuel with
    | O => stopM NoFuel
    | S fuel' =>
        i ← geti ip;
        addr ← bmap ip (off / Z.of_nat BSIZE);
        bp ← lift (bread (i_dev i) addr);
        let m := min n (Z.of_nat BSIZE - off `mod` Z.of_nat BSIZE) in
        if (length src <? Z.to_nat m)%nat then undef else
        lift (bstore bp (splice (Z.to_nat (off `mod` Z.of_nat BSIZE)) (take (Z.to_nat m) src)));;
        lift (log_write bp);;
        lift (brelse bp);;
        writei_loop fuel' ip (drop (Z.to_nat m) src) (u32 (off + m)) (n - m)
    end
  else mret off.

Definition writei (ip : nat) (src : list Z) (off n : Z) : M fs Z :=
  i ← geti ip;
  if i_type i =? T_DEV then
    if (i_major i <? 0) || (i_major i >=? NDEV) then mret (-1) else
    match dev_write dsw (i_major i) with
    | None => mret (-1)
    | Some wr => wr ip src n
    end
  else
  if (off >? i_size i) || (u32 (off + n) <? off) then mret (-1) else
  if u32 (off + n) >? Z.of_nat (MAXFILE * BSIZE) then mret (-1) else
  off' ← writei_loop (Z.to_nat n) ip src off n;
  i ← geti ip;
  (if (0 <? n) && (off' >? i_size i) then
     updi ip (iset_size off');;
     iupdate ip
   else mret tt);;
  mret (s32 n).

(** ** Directories *)
Definition namecmp (s t : list Z) : option Z := strncmp s t DIRSIZ.

(** [struct dirent]. *)
Definition de_inum (de : list Z) : Z := get_u16 0 de.
Definition de_name (de : list Z) : list Z := slice 2 DIRSIZ de.
Definition mk_dirent (inum : Z) (name : list Z) : list Z := le_split 2 inum ++ name.

(** Returns the inode found and the offset of its entry. *)
Fixpoint dirlookup_loop (fuel : nat) (dp : nat) (name : list Z) (off : Z) : M fs (option (nat * Z)) :=
  d ← geti dp;
  if off <? i_size d then
    match fuel with
    | O => stopM NoFuel
    | S fuel' =>
        r ← readi dp off (Z.of_nat sizeof_dirent);
        if negb (r.1 =? Z.of_nat sizeof_dirent) then panic "dirlink read" else
        if de_inum r.2 =? 0 then dirlookup_loop fuel' dp name (u32 (off + Z.of_nat sizeof_dirent)) else
        c ← deref (namecmp name (de_name r.2));
        if c =? 0 then
          ip ← iget (i_dev d) (de_inum r.2);
          mret (Some (ip, off))
        else dirlookup_loop fuel' dp name (u32 (off + Z.of_nat sizeof_dirent))
    end
  else mret None.

(** An entry takes 16 bytes, so the size of the directory bounds the loop. *)
Definition dirlookup (dp : nat) (name : list Z) : M fs (option (nat * Z)) :=
  d ← geti dp;
  if negb (i_type d =? T_DIR) then panic "dirlookup not DIR" else
  dirlookup_loop (Z.to_nat (i_size d / 16 + 1)) dp name 0.

(** The search of [dirlink] for an empty entry; returns its offset. *)
Fixpoint dirlink_find (fuel : nat) (dp : nat) (off : Z) : M fs Z :=
  d ← geti dp;
  if off <? i_size d then
    match fuel with
    | O => stopM NoFuel
    | S fuel' =>
        r ← readi dp off (Z.of_nat sizeof_dirent);
        if negb (r.1 =? Z.of_nat sizeof_dirent) then panic "dirlink read" else
        if de_inum r.2 =? 0 then mret off
        else dirlink_find fuel' dp (off + Z.of_nat sizeof_dirent)
    end
  else mret off.

(** The bytes that [strncpy(de.name, name, DIRSIZ)] leaves in [de.name]. *)
Fixpoint strncpy_name (n : nat) (name : list Z) : option (list Z) :=
  match n with
  | O => Some []
  | S n' =>
      match name with
      | [] => None
      | c :: name' => if c =? 0 then Some (replicate n 0) else (cons c) <$> strncpy_name n' name'
      end
  end.

Definition dirlink (dp : nat) (name : list Z) (inum : Z) : M fs Z :=
  r ← dirlookup dp name;
  match r with
  | Some (ip, _) => iput ip;; mret (-1)
  | None =>
      d ← geti dp;
      off ← dirlink_find (Z.to_nat (i_size d / 16 + 1)) dp 0;
      nm ← deref (strncpy_name DIRSIZ name);
      w ← writei dp (mk_dirent inum nm) off (Z.of_nat sizeof_dirent);
      if negb (w =? Z.of_nat sizeof_dirent) then panic "dirlink" else mret 0
  end.

(** ** Paths: a path is the list of its bytes, with its terminator. *)
Fixpoint skip_slashes (path : list Z) : list Z :=
  match path with
  | c :: path' => if c =? 47 then skip_slashes path' else path
  | [] => []
  end.

(** The second loop of [skipelem]: the element and what follows it. *)
Fixpoint span_elem (path : list Z) : list Z * list Z :=
  match path with
  | c :: path' =>
      if negb (c =? 47) && negb (c =? 0) then let '(e, r) := span_elem path' in (c :: e, r) else ([], path)
  | [] => ([], [])
  end.

(** The rest of the path and the new contents of [name]; [None] is the null
    pointer. *)
Definition skipelem (path name : list Z) : option (list Z * list Z) :=
  let s := skip_slashes path in
  match s with
  | [] => None
  | c :: _ =>
      if c =? 0 then None else
      let '(e, r) := span_elem s in
      let len := length e in
      let name := if (DIRSIZ <=? len)%nat then splice 0 (take DIRSIZ e) name
                  else <[len := 0]> (splice 0 e name) in
      Some (skip_slashes r, name)
  end.

(** The loop of [namex]; every element shortens the path. *)
Fixpoint namex_loop (fuel : nat) (ip : nat) (path : list Z) (nameiparent : bool) (name : list Z)
  : M fs (option nat * list Z) :=
  match skipelem path name with
  | None =>
      if nameiparent then iput ip;; mret (None, name) else mret (Some ip, name)
  | Some (path', name') =>
      match fuel with
      | O => stopM NoFuel
      | S fuel' =>
          ilock ip;;
          i ← geti ip;
          if negb (i_type i =? T_DIR) then iunlockput ip;; mret (None, name') else
          if nameiparent && bool_decide (head path' = Some 0) then iunlock ip;; mret (Some ip, name') else
          next ← dirlookup ip name';
          match next with
          | None => iunlockput ip;; mret (None, name')
          | Some (nx, _) => iunlockput ip;; namex_loop fuel' nx path' nameiparent name'
          end
      end
  end.

(** [cwd] is [proc->cwd]. *)
Definition namex (cwd : nat) (path : list Z) (nameiparent : bool) (name : list Z) : M fs (option nat * list Z) :=
  ip ← (if bool_decide (head path = Some 47) then iget ROOTDEV ROOTINO else idup cwd);
  namex_loop (length path) ip path nameiparent name.

Definition namei (cwd : nat) (path : list Z) : M fs (option nat) :=
  r ← namex cwd path false (replicate DIRSIZ 0); mret r.1.

Definition nameiparent (cwd : nat) (path name : list Z) : M fs (option nat * list Z) :=
  namex cwd path true name.

End dev.
End Fs.
