(* ===== verification/FsProps.v ===== *)
(** * Properties of the file system layers

    Path names against a reference splitting, the on-disk inode format and the
    uniqueness of inode cache entries. *)

From S2P Require Import Prelude Cstring Buf Bio Log Txn Fs.

(** ** Path names *)

(** The elements of a path: maximal runs of bytes other than '/' (47), up to
    the terminator. *)
Fixpoint elements (path : list Z) (cur : list Z) : list (list Z) :=
  let flush := if bool_decide (cur = []) then [] else [cur] in
  match path with
  | [] => flush
  | c :: path' =>
      if c =? 0 then flush
      else if c =? 47 then flush ++ elements path' []
      else elements path' (cur ++ [c])
  end.

(** What iterating [skipelem] yields. *)
Fixpoint skipelems (fuel : nat) (path name : list Z) : list (list Z) :=
  match fuel with
  | O => []
  | S fuel' =>
      match skipelem path name with
      | None => []
      | Some (path', name') => name' :: skipelems fuel' path' name'
      end
  end.

Lemma elements_slashes path : elements (skip_slashes path) [] = elements path [].
Proof.
  induction path as [|c path IH]; [done|]. simpl. destruct (Z.eqb_spec c 47) as [->|Hc]; [done|].
  simpl. destruct (c =? 0); [done|]. by rewrite (proj2 (Z.eqb_neq _ _) Hc).
Qed.

Lemma span_elem_spec path e r :
  span_elem path = (e, r) →
  path = e ++ r ∧ Forall (λ c, c ≠ 0 ∧ c ≠ 47) e ∧ (∀ c r', r = c :: r' → c = 0 ∨ c = 47).
Proof.
  revert e r. induction path as [|c path IH]; intros e r; simpl.
  { intros [= <- <-]. by split_and!. }
  destruct (Z.eqb_spec c 47) as [->|H47]; simpl.
  { intros [= <- <-]. split_and!; [done|done|]. intros ?? [= <- _]. by right. }
  destruct (Z.eqb_spec c 0) as [->|H0]; simpl.
  { intros [= <- <-]. split_and!; [done|done|]. intros ?? [= <- _]. by left. }
  destruct (span_elem path) as [e1 r1]. intros [= <- <-]. destruct (IH e1 r1) as (-> & He & Hr); [done|].
  split_and!; [done|by constructor|done].
Qed.

Lemma elements_app e r cur :
  Forall (λ c, c ≠ 0 ∧ c ≠ 47) e → elements (e ++ r) cur = elements r (cur ++ e).
Proof.
  revert cur. induction e as [|c e IH]; intros cur He; simpl; [by rewrite app_nil_r|].
  apply Forall_cons in He as [[H0 H47] He].
  rewrite (proj2 (Z.eqb_neq _ _) H0), (proj2 (Z.eqb_neq _ _) H47), IH by done.
  by rewrite <-app_assoc.
Qed.

Lemma elements_cur r cur :
  (∀ c r', r = c :: r' → c = 0 ∨ c = 47) → cur ≠ [] → elements r cur = cur :: elements r [].
Proof.
  intros Hr Hc. destruct r as [|c r]; simpl; rewrite bool_decide_false by done; [done|].
  destruct (Hr c r eq_refl) as [->| ->]; simpl; done.
Qed.

(** The buffer [name] holds the element [e], cut to [DIRSIZ] bytes and
    terminated when it is shorter. *)
Definition names (e name : list Z) : Prop :=
  length name = DIRSIZ ∧ take (length (take DIRSIZ e)) name = take DIRSIZ e ∧
  ((length e < DIRSIZ)%nat → name !! length e = Some 0).

Lemma skip_slashes_head path c r : skip_slashes path = c :: r → c ≠ 47.
Proof.
  induction path as [|x path IH]; simpl; [done|]. destruct (Z.eqb_spec x 47); [done|].
  by intros [= <- <-].
Qed.

Lemma skip_slashes_len path : (length (skip_slashes path) ≤ length path)%nat.
Proof. induction path as [|c path IH]; simpl; [done|]. case_match; simpl; lia. Qed.

Lemma skipelem_none path name : skipelem path name = None ↔ elements path [] = [].
Proof.
  rewrite <-elements_slashes. unfold skipelem. destruct (skip_slashes path) as [|c r] eqn:E; [done|].
  pose proof (skip_slashes_head _ _ _ E) as H47. cbn [elements].
  destruct (Z.eqb_spec c 0) as [->|H0]; [done|]. rewrite (proj2 (Z.eqb_neq _ _) H47).
  destruct (span_elem (c :: r)) as [e r'] eqn:Es. split; [done|].
  destruct (span_elem_spec _ _ _ Es) as (Hs & He & Hr).
  assert (elements r ([] ++ [c]) = elements (c :: r) []) as ->.
  { simpl. by rewrite (proj2 (Z.eqb_neq _ _) H0), (proj2 (Z.eqb_neq _ _) H47). }
  assert (e ≠ []) as Hne. { intros ->. simpl in Hs. symmetry in Hs. destruct (Hr _ _ Hs); congruence. }
  by rewrite Hs, elements_app, elements_cur by done.
Qed.

Lemma skipelem_some path name path' name' :
  skipelem path name = Some (path', name') →
  ∃ e, elements path [] = e :: elements path' [] ∧ (length path' < length path)%nat ∧ e ≠ [] ∧
    Forall (λ c, c ≠ 0 ∧ c ≠ 47) e ∧
    name' = if (DIRSIZ <=? length e)%nat then splice 0 (take DIRSIZ e) name else <[length e := 0]> (splice 0 e name).
Proof.
  rewrite <-elements_slashes. unfold skipelem. pose proof (skip_slashes_len path) as Hlen.
  destruct (skip_slashes path) as [|c r] eqn:E; [done|].
  pose proof (skip_slashes_head _ _ _ E) as H47. destruct (Z.eqb_spec c 0) as [->|H0]; [done|].
  destruct (span_elem (c :: r)) as [e r'] eqn:Es. intros H. injection H as Hp Hn.
  destruct (span_elem_spec _ _ _ Es) as (Hs & He & Hr).
  assert (e ≠ []) as Hne. { intros ->. simpl in Hs. symmetry in Hs. destruct (Hr _ _ Hs); congruence. }
  exists e. rewrite Hs, elements_app, elements_cur by done. rewrite <-Hp, elements_slashes.
  split_and!; try done. pose proof (skip_slashes_len r').
  assert (length (c :: r) = length e + length r')%nat as Hl by by rewrite Hs, length_app.
  destruct e; [done|]. simpl in *. lia.
Qed.

Lemma take_splice0 (e l : list Z) : (length e ≤ length l)%nat → take (length e) (splice 0 e l) = e.
Proof. intros H. unfold splice. simpl. by rewrite take_app_length. Qed.

Lemma skipelem_names (e name : list Z) :
  length name = DIRSIZ →
  names e (if (DIRSIZ <=? length e)%nat then splice 0 (take DIRSIZ e) name else <[length e := 0]> (splice 0 e name)).
Proof.
  intros Hn. unfold names. destruct (Nat.leb_spec DIRSIZ (length e)) as [Hle|Hlt].
  - assert (length (take DIRSIZ e) = DIRSIZ) as Hl by (rewrite length_take; lia).
    rewrite length_splice by (rewrite Hl, Hn; lia). split_and!; [done|apply take_splice0; lia|lia].
  - assert (length (splice 0 e name) = DIRSIZ) as Hl by (rewrite length_splice; lia).
    rewrite length_insert, (take_ge e) by lia. split_and!; [done| |].
    + rewrite take_insert_ge by lia. apply take_splice0. lia.
    + intros _. apply list_lookup_insert_eq. lia.
Qed.

Lemma skipelems_spec fuel : ∀ path name,
  (length path ≤ fuel)%nat → length name = DIRSIZ →
  Forall2 names (elements path []) (skipelems fuel path name).
Proof.
  induction fuel as [|fuel IH]; intros path name Hf Hn; simpl.
  - destruct path; [constructor|simpl in Hf; lia].
  - destruct (skipelem path name) as [[path' name']|] eqn:E.
    + destruct (skipelem_some _ _ _ _ E) as (e & -> & Hlen & _ & _ & ->).
      pose proof (skipelem_names e name Hn) as Hnm. constructor; [done|].
      apply IH; [lia|]. by destruct Hnm.
    + apply skipelem_none in E as ->. constructor.
Qed.

(** path names are split as they should be. Iterating [skipelem] over a
    path yields, in order, exactly the maximal runs of bytes other than '/'
    before the terminator, each cut to [DIRSIZ] bytes and terminated in the
    name buffer when it is shorter; and no more calls are needed than the path
    has bytes, which is the fuel of [namex]. *)
Theorem skipelem_splits path name :
  length name = DIRSIZ → Forall2 names (elements path []) (skipelems (length path) path name).
Proof. intros. by apply skipelems_spec. Qed.

(** "///a//bb" *)
Lemma skipelem_splits_witness :
  Forall2 names [[97]; [98; 98]] (skipelems 9 [47; 47; 47; 97; 47; 47; 98; 98; 0] (replicate DIRSIZ 0)).
Proof. apply (skipelem_splits [47; 47; 47; 97; 47; 47; 98; 98; 0]). reflexivity. Defined.

(** ** The on-disk inode *)
(** A [struct dinode] whose fields have their C types. *)
Definition dinode_ok (di : dinode) : Prop :=
  - 2 ^ 15 ≤ d_type di < 2 ^ 15 ∧ - 2 ^ 15 ≤ d_major di < 2 ^ 15 ∧
  - 2 ^ 15 ≤ d_minor di < 2 ^ 15 ∧ - 2 ^ 15 ≤ d_nlink di < 2 ^ 15 ∧
  0 ≤ d_size di < 2 ^ 32 ∧ length (d_addrs di) = S NDIRECT ∧ Forall (λ a, 0 ≤ a < 2 ^ 32) (d_addrs di).

Lemma put_addrs_aux n : ∀ k off (addrs : list Z) d,
  (off + 4 * (k + n) ≤ length d)%nat →
  let d' := foldl (λ d k, put_32 (off + 4 * k) (addrs !!! k) d) d (seq k n) in
  length d' = length d ∧
  (∀ j, (k ≤ j < k + n)%nat → get_u32 (off + 4 * j) d' = u32 (addrs !!! j)) ∧
  (∀ o, (o + 4 ≤ off + 4 * k ∨ off + 4 * (k + n) ≤ o)%nat → get_u32 o d' = get_u32 o d) ∧
  (∀ o, (o + 2 ≤ off + 4 * k ∨ off + 4 * (k + n) ≤ o)%nat → get_u16 o d' = get_u16 o d).
Proof.
  induction n as [|n IH]; intros k off addrs d Hd; simpl.
  { split_and!; try done. lia. }
  destruct (IH (S k) off addrs (put_32 (off + 4 * k) (addrs !!! k) d)) as (Hl & Hin & Ho & Ho'); [blen|].
  rewrite length_put_32 in Hl by lia. split_and!; [done|..].
  - intros j Hj. destruct (decide (j = k)) as [->|].
    + rewrite Ho by lia. autorewrite with bytes. done.
    + apply Hin. lia.
  - intros o Hlt. rewrite Ho by lia. autorewrite with bytes. done.
  - intros o Hlt. rewrite Ho' by lia. autorewrite with bytes. done.
Qed.

Lemma s16_u16 z : - 2 ^ 15 ≤ z < 2 ^ 15 → s16 (u16 z) = z.
Proof. intros Hz. unfold s16, u16. rewrite Zplus_mod_idemp_l. by apply s16_small. Qed.

Lemma put_dinode_spec off di d :
  (off + 64 ≤ length d)%nat → dinode_ok di →
  let d' := put_dinode off di d in
  length d' = length d ∧ get_dinode off d' = di ∧
  (∀ o, (o + 4 ≤ off ∨ off + 64 ≤ o)%nat → get_u32 o d' = get_u32 o d) ∧
  (∀ o, (o + 2 ≤ off ∨ off + 64 ≤ o)%nat → get_u16 o d' = get_u16 o d).
Proof.
  intros Hoff (Ht & Hma & Hmi & Hn & Hs & Hla & Ha) d'. unfold d', put_dinode, put_addrs. clear d'.
  set (d5 := put_32 (off + 8) _ _).
  assert (Hl5 : length d5 = length d) by (unfold d5; blen).
  destruct (put_addrs_aux (S NDIRECT) 0 (off + 12) (d_addrs di) d5) as (Hl & Hin & Ho & Ho').
  { unfold NDIRECT. lia. }
  set (d' := foldl _ _ _) in *. clearbody d'. unfold NDIRECT in *. split_and!.
  - congruence.
  - unfold get_dinode, get_s16. rewrite !Ho', Ho by lia. unfold d5. autorewrite with bytes.
    rewrite !s16_u16, u32_small by done.
    destruct di as [ty ma mi nl sz addrs]. cbn [d_type d_major d_minor d_nlink d_size d_addrs] in *. f_equal.
    apply list_eq. intros i. rewrite list_lookup_fmap.
    destruct (decide (i < 13)%nat) as [Hi|Hi].
    + change (seq 0 (S NDIRECT)) with (seq 0 13). rewrite lookup_seq_lt by done.
      change (_ <$> Some (0 + i)%nat) with (Some (get_u32 (off + 12 + 4 * (0 + i)) d')).
      rewrite Hin by lia. rewrite Forall_lookup in Ha.
      assert (is_Some (addrs !! i)) as [a Hai] by (apply lookup_lt_is_Some; lia).
      rewrite (list_lookup_total_correct _ _ _ Hai), Hai, u32_small by eauto. done.
    + rewrite lookup_seq_ge, lookup_ge_None_2 by (unfold NDIRECT; lia). done.
  - intros o H. rewrite Ho by lia. unfold d5. autorewrite with bytes. done.
  - intros o H. rewrite Ho' by lia. unfold d5. autorewrite with bytes. done.
Qed.

Lemma put_dinode_other k k' di d :
  length d = BSIZE → (k < 8)%nat → (k' < 8)%nat → dinode_ok di → k' ≠ k →
  get_dinode (sizeof_dinode * k') (put_dinode (sizeof_dinode * k) di d) = get_dinode (sizeof_dinode * k') d.
Proof.
  intros Hd Hk Hk' Hdi Hne. change sizeof_dinode with 64%nat in *.
  destruct (put_dinode_spec (64 * k) di d) as (Hl & Hget & Ho & Ho'); [rewrite Hd; unfold BSIZE; lia|done|].
  unfold get_dinode, get_s16. rewrite !Ho', Ho by lia. f_equal. apply list_fmap_ext. intros i j Hi.
  apply lookup_seq in Hi as [-> Hi]. apply Ho. unfold NDIRECT in *. lia.
Qed.

(** An inode written to its block reads back, and writing it leaves every
    other inode of the block alone. *)
Theorem dinode_roundtrip k k' di d :
  length d = BSIZE → (k < 8)%nat → (k' < 8)%nat → dinode_ok di →
  let d' := put_dinode (sizeof_dinode * k) di d in
  length d' = BSIZE ∧ get_dinode (sizeof_dinode * k) d' = di ∧
  (k' ≠ k → get_dinode (sizeof_dinode * k') d' = get_dinode (sizeof_dinode * k') d).
Proof.
  intros Hd Hk Hk' Hdi d'.
  destruct (put_dinode_spec (sizeof_dinode * k) di d) as (Hl & Hget & _); [rewrite Hd; unfold BSIZE, sizeof_dinode; lia|done|].
  split_and!; [unfold d'; congruence|done|]. intros Hne. by apply put_dinode_other.
Qed.

Lemma dinode_roundtrip_witness :
  let di := mkDinode 2 0 0 1 1000 [29; 30; 0; 0; 0; 0; 0; 0; 0; 0; 0; 0; 0] in
  get_dinode 64 (put_dinode 64 di (replicate BSIZE 7)) = di.
Proof.
  intros di. apply (dinode_roundtrip 1 0 di (replicate BSIZE 7)); [reflexivity|lia|lia|].
  unfold dinode_ok. simpl. split_and!; try lia; try done.
  repeat constructor; lia.
Defined.

(** ** The inode cache *)

(** At most one entry in use for an inode. *)
Definition icache_ok (l : list inode) : Prop :=
  (∀ k i, l !! k = Some i → 0 ≤ i_ref i) ∧
  (∀ j k i i', l !! j = Some i → l !! k = Some i' → 0 < i_ref i → 0 < i_ref i' →
    i_dev i = i_dev i' → i_inum i = i_inum i' → j = k).

Definition holds_inode (dev inum : Z) (i : inode) : Prop := 0 < i_ref i ∧ i_dev i = dev ∧ i_inum i = inum.

Lemma iget_scan_spec dev inum l : ∀ k empty,
  (∀ i, i ∈ l → 0 ≤ i_ref i) →
  match iget_scan l k empty dev inum with
  | inl ip => ∃ j i, ip = (k + j)%nat ∧ l !! j = Some i ∧ holds_inode dev inum i
  | inr r => (∀ i, i ∈ l → ¬ holds_inode dev inum i) ∧
      (r = empty ∧ is_Some empty ∨ empty = None ∧
        match r with
        | Some ip => ∃ j i, ip = (k + j)%nat ∧ l !! j = Some i ∧ i_ref i = 0
        | None => ∀ i, i ∈ l → 0 < i_ref i
        end)
  end.
Proof.
  induction l as [|i l IH]; intros k empty Hpos; simpl.
  { split; [set_solver|]. destruct empty; [left; eauto|right; split; [done|set_solver]]. }
  destruct ((0 <? i_ref i) && (i_dev i =? dev) && (i_inum i =? inum)) eqn:E.
  { exists 0%nat, i. rewrite !andb_true_iff, Z.ltb_lt, !Z.eqb_eq in E. unfold holds_inode. naive_solver lia. }
  assert (¬ holds_inode dev inum i) as Hno.
  { intros (H1 & H2 & H3). rewrite (proj2 (Z.ltb_lt _ _) H1), (proj2 (Z.eqb_eq _ _) H2), (proj2 (Z.eqb_eq _ _) H3) in E.
    done. }
  set (empty' := match empty with Some _ => empty | None => _ end).
  specialize (IH (S k) empty' ltac:(set_solver)).
  destruct (iget_scan l (S k) empty' dev inum) as [ip|r].
  - destruct IH as (j & i' & -> & Hj & Hh). exists (S j), i'. split_and!; [lia|done|done].
  - destruct IH as [Hall IH]. split; [set_solver|].
    destruct empty as [e|]; simpl in empty'; [by destruct IH as [IH|[IH _]]; [left|]|].
    right. split; [done|]. destruct (Z.eqb_spec (i_ref i) 0) as [H0|H0].
    + destruct IH as [[-> _]|[IH _]]; [|done]. exists 0%nat, i. split_and!; [lia|done|done].
    + destruct IH as [[_ [? ?]]|[_ IH]]; [done|]. destruct r as [ip|].
      * destruct IH as (j & i' & -> & Hj & Hr). exists (S j), i'. split_and!; [lia|done|done].
      * intros x [->|Hx]%elem_of_cons; [|auto]. specialize (Hpos i ltac:(set_solver)). lia.
Qed.

Lemma icache_ok_insert l ip i i' dev inum :
  icache_ok l → l !! ip = Some i → i_dev i' = dev → i_inum i' = inum → 0 < i_ref i' →
  (holds_inode dev inum i ∨ ∀ x, x ∈ l → ¬ holds_inode dev inum x) → icache_ok (<[ip := i']> l).
Proof.
  intros [Hpos Huniq] Hip Hd Hn Hr Hcase. split.
  - intros k x [(_ & <- & _)|[_ Hk]]%list_lookup_insert_Some; [lia|eauto].
  - assert (Hone : ∀ k x, k ≠ ip → l !! k = Some x → ¬ holds_inode dev inum x).
    { intros k x Hk Hx (H1 & H2 & H3). destruct Hcase as [(H4 & H5 & H6)|Hall].
      - apply Hk, (Huniq _ _ _ _ Hx Hip); congruence || done.
      - eapply Hall; [by eapply list_elem_of_lookup_2|]. done. }
    intros j k x y [(<- & <- & _)|[Hj Hx]]%list_lookup_insert_Some [(<- & <- & _)|[Hk Hy]]%list_lookup_insert_Some;
      try done.
    + intros _ Hry E1 E2. exfalso. apply (Hone k y); [done..|]. unfold holds_inode. split_and!; congruence || done.
    + intros Hrx _ E1 E2. exfalso. apply (Hone j x); [done..|]. unfold holds_inode. split_and!; congruence || done.
    + by eapply Huniq.
Qed.

(** [iget] keeps the inode cache consistent. If each inode has at most
    one entry in use, [iget] returns that entry with one more reference, or
    takes an unused one with reference count 1 and no valid contents, and the
    property holds afterwards; it panics exactly when the inode has no entry
    and every entry is in use. *)
Theorem iget_unique dev inum s :
  icache_ok (icache s) →
  match iget dev inum s with
  | Ok ip s' =>
      lt s' = lt s ∧ icache_ok (icache s') ∧
      ∃ i i', icache s !! ip = Some i ∧ icache s' = <[ip := i']> (icache s) ∧ holds_inode dev inum i' ∧
        (holds_inode dev inum i ∧ i_ref i' = i_ref i + 1 ∧ i_flags i' = i_flags i ∨
         i_ref i = 0 ∧ i_ref i' = 1 ∧ i_flags i' = 0 ∧ ∀ x, x ∈ icache s → ¬ holds_inode dev inum x)
  | Err e s' => e = Panic "iget: no inodes" ∧ s' = s ∧
      ∀ x, x ∈ icache s → 0 < i_ref x ∧ ¬ holds_inode dev inum x
  end.
Proof.
  intros Hok. pose proof (iget_scan_spec dev inum (icache s) 0 None) as Hs.
  unfold iget, gets, mbind, M_bind. destruct (iget_scan (icache s) 0 None dev inum) as [ip|[ip|]].
  - destruct Hs as (j & i & -> & Hj & Hh).
    { intros i (k & Hk)%list_elem_of_lookup. by apply (proj1 Hok k). }
    rewrite Nat.add_0_l. unfold updi. rewrite Hj. simpl. split; [done|].
    pose proof Hh as (Hr & Hd & Hn). split.
    + eapply icache_ok_insert; [done|done|done|done| |by left]; simpl; lia || (rewrite ?Hd, ?Hn; done).
    + eexists i, _. split_and!; [done|done| |]; unfold holds_inode; simpl.
      * split_and!; [lia|done|done].
      * left. done.
  - destruct Hs as [Hall [[_ [? ?]]|[_ (j & i & -> & Hj & Hr)]]]; [|done|].
    { intros i (k & Hk)%list_elem_of_lookup. by apply (proj1 Hok k). }
    rewrite Nat.add_0_l. unfold updi. rewrite Hj. simpl. split; [done|]. split.
    + eapply icache_ok_insert; [done|done|done|done|simpl; lia|by right].
    + eexists i, _. split_and!; [done|done| |]; unfold holds_inode; simpl; [split_and!; lia || done|].
      right. split_and!; done.
  - destruct Hs as [Hall [[_ [? ?]]|[_ Hpos]]]; [|done|].
    { intros i (k & Hk)%list_elem_of_lookup. by apply (proj1 Hok k). }
    split_and!; [done|done|]. intros x Hx. auto.
Qed.

Definition fs0 (d : list block) : fs := mkFs (mkLst (mkBst bcache0 d []) log0) icache0.

Lemma icache0_ok : icache_ok icache0.
Proof.
  assert (∀ k i, icache0 !! k = Some i → i = zero_inode) as H.
  { intros k i Hi. by apply lookup_replicate in Hi as [-> _]. }
  split; [intros k i ->%H; done|]. intros j k i i' ->%H. simpl. lia.
Qed.

Lemma iget_unique_witness :
  ∃ ip s', iget 1 1 (fs0 []) = Ok ip s' ∧ icache_ok (icache s').
Proof.
  pose proof (iget_unique 1 1 (fs0 []) icache0_ok) as H.
  destruct (iget 1 1 (fs0 [])) as [ip s'|e s'] eqn:E; [|exfalso; vm_compute in E; congruence].
  exists ip, s'. exact (conj eq_refl (proj1 (proj2 H))).
Defined.
