(* ===== verification/Balloc.v ===== *)
(** * The block allocator (balloc, bfree and bzero of fs.c)

    Inside a transaction, against the contents [V] that the log gives to the
    blocks: [balloc] takes the lowest free bit of the bitmap, sets it and
    clears the block, and changes nothing else; [bfree] clears the bit. *)

From S2P Require Import Prelude Buf Bio Log Txn Fs.

Section balloc.
Context `{BD : BlockDev}.

(** ** Blocks inside a transaction *)

(** A transaction is open, no buffer is held, and the blocks hold [V]; [L] are
    the blocks that the transaction has logged. *)
Record in_txn (s : fs) (V : Z → block) (L : list Z) : Prop := {
  it_lrep : lrep (lt s) V ∅ L ∅;
  it_busy : log_busy (lg (lt s)) ≠ 0;
}.

(** Room for [n] more blocks in the log. *)
Definition log_room (s : fs) (L : list Z) (n : nat) : Prop :=
  (length L + n <= LOGSIZE)%nat ∧ Z.of_nat (length L + n) ≤ log_size (lg (lt s)) - 1.

(** What an operation on blocks leaves alone. *)
Definition same_fs (s s' : fs) : Prop := icache s' = icache s ∧ same_log (lt s) (lt s').

Lemma same_fs_refl s : same_fs s s.
Proof. by repeat split. Qed.
Lemma same_fs_trans s1 s2 s3 : same_fs s1 s2 → same_fs s2 s3 → same_fs s1 s3.
Proof. intros [Ha (?&?&?&?)] [Hb (?&?&?&?)]. split; [congruence|]. repeat split; congruence. Qed.

Lemma same_fs_home s s' z : same_fs s s' → home (lt s') z ↔ home (lt s) z.
Proof. intros [_ (Hs & Hz & _ & Hd)]. unfold home, in_range, in_log. by rewrite Hs, Hz, Hd. Qed.
Lemma same_fs_in_log s s' z : same_fs s s' → in_log (lg (lt s')) z ↔ in_log (lg (lt s)) z.
Proof. intros [_ (Hs & Hz & _ & Hd)]. unfold in_log. by rewrite Hs, Hz. Qed.
Lemma same_fs_room s s' L n : same_fs s s' → log_room s L n → log_room s' L n.
Proof. intros [_ (_ & Hz & _)]. unfold log_room. by rewrite Hz. Qed.

Lemma same_fs_busy s s' : same_fs s s' → log_busy (lg (lt s')) = log_busy (lg (lt s)).
Proof. by intros [_ (_ & _ & ? & _)]. Qed.

Lemma wp_lift_fs {A} (m : M bst A) Q (s : fs) :
  wp (lift m) (λ a t, Q a (mkFs t (icache s))) (lt s) → wp (lift m) Q s.
Proof. unfold wp, lift. simpl. by destruct (m (blk (lt s))). Qed.

Lemma lrep_size s V H L U : lrep (lt s) V H L U → size (list_to_set L : gset Z) = length L.
Proof. intros HL. by rewrite size_list_to_set by apply HL. Qed.

(** Room for [n] more blocks beside those of [X] in the log; the log is not
    larger than the cache. *)
Definition room (s : fs) (X : gset Z) (n : nat) : Prop :=
  (size X + n <= LOGSIZE)%nat ∧ Z.of_nat (size X + n) ≤ log_size (lg (lt s)) - 1.

Lemma room_mono s X Y n : Y ⊆ X → room s X n → room s Y n.
Proof. intros Hs. pose proof (subseteq_size Y X Hs). unfold room. lia. Qed.
Lemma room_le s X n n' : (n' <= n)%nat → room s X n → room s X n'.
Proof. unfold room. lia. Qed.
Lemma room_add s X z n : room s X (S n) → room s ({[z]} ∪ X) n.
Proof.
  unfold room. pose proof (size_union_le {[z]} X) as H. rewrite size_singleton in H. lia.
Qed.
Lemma same_fs_room_set s s' X n : same_fs s s' → room s X n → room s' X n.
Proof. intros [_ (_ & Hz & _)]. unfold room. by rewrite Hz. Qed.
Lemma log_room_room s V H L U n : lrep (lt s) V H L U → log_room s L n → room s (list_to_set L) n.
Proof. intros HL. unfold log_room, room. by rewrite (lrep_size _ _ _ _ _ HL). Qed.
Lemma room_NBUF s V H L U X n : lrep (lt s) V H L U → room s X n → (size X + n < NBUF)%nat.
Proof. intros HL. pose proof (lr_geo _ _ _ _ _ HL) as (_ & _ & Hsz & _). unfold room. lia. Qed.

(** Reading a block into a buffer that is then held, beside the buffers [H]. *)
Lemma fs_bread s V H L z :
  lrep (lt s) V H L ∅ → home (lt s) z → H !! z = None →
  (z ∈ L ∨ size (dom H ∪ list_to_set L) < NBUF)%nat →
  wp (lift (bread 1 z)) (λ b s', lrep (lt s') V (<[z := b]> H) L ∅ ∧ same_fs s s') s.
Proof.
  intros HL [Hz Hnl] Hnone Hroom. apply wp_lift_fs.
  eapply wp_mono; [by apply (lrep_bread _ _ _ _ _ _ HL Hz Hnl)|].
  intros b t' (HL' & Hg & Hd & _). split; [done|]. split; [done|]. unfold same_log. simpl. by rewrite Hg, Hd.
Qed.

Lemma fs_bread_first s V L z :
  lrep (lt s) V ∅ L ∅ → home (lt s) z →
  wp (lift (bread 1 z)) (λ b s', lrep (lt s') V {[z := b]} L ∅ ∧ same_fs s s') s.
Proof.
  intros HL Hz. eapply wp_mono; [apply fs_bread; [done|done|done|]|].
  - right. pose proof (lr_geo _ _ _ _ _ HL) as (_ & _ & Hsz & _). pose proof (lr_cap _ _ _ _ _ HL).
    rewrite dom_empty_L, union_empty_l_L, (lrep_size _ _ _ _ _ HL). lia.
  - intros b s' [HL' Hs']. by rewrite insert_empty in HL'.
Qed.

(** The buffer that is held has the contents of its block. *)
Lemma fs_getbuf s V H L U z b Q :
  lrep (lt s) V H L U → H !! z = Some b →
  (∀ B, b_data B = V z → length (V z) = BSIZE → Q B s) → wp (lift (getbuf b)) Q s.
Proof.
  intros HL Hz HQ. apply wp_lift_fs. eapply lrep_getbuf; [exact HL|exact Hz|].
  intros B HB _ Hlen. destruct s. by apply HQ.
Qed.

(** Releasing a buffer that was not changed. *)
Lemma fs_brelse s V H L z b :
  lrep (lt s) V H L ∅ → H !! z = Some b →
  wp (lift (brelse b)) (λ _ s', lrep (lt s') V (delete z H) L ∅ ∧ same_fs s s') s.
Proof.
  intros HL Hz. apply wp_lift_fs. eapply wp_mono; [by eapply lrep_brelse|].
  intros _ t' (HL' & Hg & Hd & _). split; [done|]. split; [done|]. unfold same_log. simpl. by rewrite Hg, Hd.
Qed.

(** The contents agree outside of the log. *)
Definition agree (s : fs) (V W : Z → block) : Prop := ∀ y, ¬ in_log (lg (lt s)) y → V y = W y.

Lemma agree_same s s' V W : same_fs s s' → agree s V W → agree s' V W.
Proof. intros Hs HV y Hy. apply HV. by rewrite <-(same_fs_in_log _ _ _ Hs). Qed.
Lemma agree_trans s V W X : agree s V W → agree s W X → agree s V X.
Proof. intros H1 H2 y Hy. by rewrite H1, H2. Qed.
Lemma agree_insert s V W z d : agree s V W → agree s (<[z := d]> V) (<[z := d]> W).
Proof.
  intros H y Hy. destruct (decide (y = z)) as [->|]; [by rewrite !fn_lookup_insert|].
  rewrite !fn_lookup_insert_ne by done. by apply H.
Qed.

(** Changing a held buffer and logging it. *)
Lemma fs_store_log {A} s V H L z b g (rest : M fs A) Q :
  lrep (lt s) V H L ∅ → H !! z = Some b → log_busy (lg (lt s)) ≠ 0 →
  room s (list_to_set L) 1 → (size (dom H ∪ list_to_set L) < NBUF)%nat → length (g (V z)) = BSIZE →
  (∀ s' V', lrep (lt s') V' H (log_add z L) ∅ → same_fs s s' → agree s V' (<[z := g (V z)]> V) → wp rest Q s') →
  wp (lift (bstore b g);; lift (log_write b);; rest) Q s.
Proof.
  intros HL Hz Hb [Hr1 Hr2] Hn Hlen Hrest.
  rewrite (lrep_size _ _ _ _ _ HL) in Hr1, Hr2.
  apply wp_bind, wp_lift_fs. eapply wp_mono; [eapply lrep_bstore; [exact HL|exact Hz|done]|].
  intros _ t1 (HL1 & Hg1 & Hd1 & _).
  apply wp_bind, wp_lift. simpl. eapply wp_mono; [eapply log_write_spec; [exact HL1|exact Hz|..]|].
  - by rewrite Hg1.
  - lia.
  - rewrite Hg1. lia.
  - done.
  - intros _ t2 (V2 & l & HL2 & HV2 & Hst2 & Hsz2 & Hb2 & _ & Hd2 & _).
    replace ((_ : gset Z) ∖ _) with (∅ : gset Z) in HL2 by set_solver.
    apply (Hrest _ V2).
    + done.
    + split; [done|]. unfold same_log. simpl. rewrite Hst2, Hsz2, Hb2, Hd2, length_insert, Hg1, Hd1. done.
    + intros y Hy. apply HV2. by rewrite Hg1.
Qed.

(** Changing the held buffer, logging it and releasing it. *)
Lemma fs_logged {A} s V H L z b g (rest : M fs A) Q :
  lrep (lt s) V H L ∅ → H !! z = Some b → log_busy (lg (lt s)) ≠ 0 →
  room s (list_to_set L) 1 → (size (dom H ∪ list_to_set L) < NBUF)%nat → length (g (V z)) = BSIZE →
  (∀ s' V', lrep (lt s') V' (delete z H) (log_add z L) ∅ → same_fs s s' → agree s V' (<[z := g (V z)]> V) →
     wp rest Q s') →
  wp (lift (bstore b g);; lift (log_write b);; lift (brelse b);; rest) Q s.
Proof.
  intros HL Hz Hb Hr Hn Hlen Hrest. eapply fs_store_log; [done..|]. intros s1 V1 HL1 Hs1 HV1.
  apply wp_bind. eapply wp_mono; [by eapply fs_brelse|]. intros _ s2 [HL2 Hs2].
  apply (Hrest _ V1); [done|by eapply same_fs_trans|done].
Qed.

Lemma fs_logged_end s V H L z b g (Q : unit → fs → Prop) :
  lrep (lt s) V H L ∅ → H !! z = Some b → log_busy (lg (lt s)) ≠ 0 →
  room s (list_to_set L) 1 → (size (dom H ∪ list_to_set L) < NBUF)%nat → length (g (V z)) = BSIZE →
  (∀ s' V', lrep (lt s') V' (delete z H) (log_add z L) ∅ → same_fs s s' → agree s V' (<[z := g (V z)]> V) →
     Q tt s') →
  wp (lift (bstore b g);; lift (log_write b);; lift (brelse b)) Q s.
Proof.
  intros HL Hz Hb Hr Hn Hlen HQ. eapply fs_store_log; [done..|]. intros s1 V1 HL1 Hs1 HV1.
  eapply wp_mono; [by eapply fs_brelse|]. intros [] s2 [HL2 Hs2].
  apply (HQ _ V1); [done|by eapply same_fs_trans|done].
Qed.

Lemma wp_lift_bind {A B} (m : M bst A) (f : A → M bst B) Q (s : fs) :
  wp (x ← lift m; lift (f x)) Q s → wp (lift (m ≫= f)) Q s.
Proof.
  unfold wp, lift, mbind, M_bind. simpl. by destruct (m (blk (lt s))).
Qed.

Lemma fs_readsb s V H L :
  lrep (lt s) V H L ∅ → home (lt s) 1 → H !! 1 = None → (size (dom H ∪ list_to_set L) < NBUF)%nat →
  wp (lift (readsb 1)) (λ sb s', sb = sb_of_bytes (V 1) ∧ lrep (lt s') V H L ∅ ∧ same_fs s s') s.
Proof.
  intros HT H1 Hn Hs. unfold readsb. replace (u32 1) with 1 by done.
  apply wp_lift_bind, wp_bind. eapply wp_mono; [apply fs_bread; [done..|by right]|].
  intros b s1 (HL1 & Hs1). apply wp_lift_bind, wp_bind.
  eapply fs_getbuf; [exact HL1|apply lookup_insert_eq|]. intros B HB _. apply wp_lift_bind, wp_bind.
  eapply wp_mono; [apply (fs_brelse _ _ _ _ 1 b HL1), lookup_insert_eq|].
  intros _ s2 [HT2 Hs2]. rewrite HB. rewrite delete_insert_None in HT2 by done. split; [done|].
  destruct s2 as [[]]. split; [done|]. by eapply same_fs_trans.
Qed.

Lemma home_u32 s V H L U z : lrep (lt s) V H L U → home (lt s) z → u32 z = z.
Proof.
  intros HL [Hz _]. pose proof (lr_geo _ _ _ _ _ HL) as (_&_&_&?&_). unfold in_range in Hz. apply u32_small. lia.
Qed.

(** [bzero] clears one block. *)
Lemma bzero_spec s V H L z :
  lrep (lt s) V H L ∅ → log_busy (lg (lt s)) ≠ 0 → home (lt s) z → H !! z = None →
  room s (dom H ∪ list_to_set L) 1 →
  wp (bzero 1 z) (λ _ s', ∃ V', lrep (lt s') V' H (log_add z L) ∅ ∧ same_fs s s' ∧
    agree s V' (<[z := replicate BSIZE 0]> V)) s.
Proof.
  intros HL Hb Hz Hn Hr. pose proof (room_NBUF _ _ _ _ _ _ _ HL Hr) as Hnb.
  unfold bzero. rewrite (home_u32 _ _ _ _ _ _ HL Hz). replace (u32 1) with 1 by done.
  apply wp_bind. eapply wp_mono; [apply fs_bread; [done..|right; lia]|]. intros b s1 (HL1 & Hs1).
  assert (Hsub : dom (<[z := b]> H) ∪ list_to_set L = {[z]} ∪ (dom H ∪ list_to_set L)) by (rewrite dom_insert_L; set_solver).
  eapply fs_logged_end; [exact HL1|apply lookup_insert_eq|by rewrite (same_fs_busy _ _ Hs1)| | |done|].
  - eapply same_fs_room_set; [done|]. eapply room_mono; [|exact Hr]. set_solver.
  - rewrite Hsub. pose proof (size_union_le {[z]} (dom H ∪ list_to_set L)) as Hu. rewrite size_singleton in Hu. lia.
  - intros s2 V2 HL2 Hs2 HV2. rewrite delete_insert_None in HL2 by done. exists V2.
    split; [done|]. split; [by eapply same_fs_trans|]. intros y Hy. apply HV2. by rewrite (same_fs_in_log _ _ _ Hs1).
Qed.

End balloc.

(** ** The bitmap *)
Definition bit (d : block) (i : Z) : bool := Z.testbit (d !!! Z.to_nat (i / 8)) (i `mod` 8).
(** The bit of block [b]. *)
Definition used (V : Z → block) (ninodes b : Z) : bool := bit (V (BBLOCK b ninodes)) (b `mod` BPB).

Lemma bit_test d i : (Z.land (d !!! Z.to_nat (i / 8)) (Z.shiftl 1 (i `mod` 8)) =? 0) = negb (bit d i).
Proof.
  pose proof (Z.mod_pos_bound i 8). rewrite Z.shiftl_mul_pow2, Z.mul_1_l by lia.
  unfold bit. rewrite <-fl_test_pow2 by lia. unfold fl_test. by rewrite negb_involutive.
Qed.

Lemma byte_inj i j : 0 ≤ i → 0 ≤ j → Z.to_nat (i / 8) = Z.to_nat (j / 8) → i `mod` 8 = j `mod` 8 → i = j.
Proof. intros. Z.to_euclidean_division_equations. lia. Qed.

Lemma byte_lt j (n : nat) : 0 ≤ j < 8 * Z.of_nat n → (Z.to_nat (j / 8) < n)%nat.
Proof. intros. Z.to_euclidean_division_equations. lia. Qed.

(** A byte of a bitmap changed by [f], which acts on the bits as [g]. *)
Lemma bit_insert d i j f g :
  0 ≤ i → 0 ≤ j → (Z.to_nat (j / 8) < length d)%nat →
  (∀ x n, 0 ≤ n → Z.testbit (f x) n = g (bool_decide (n = j `mod` 8)) (Z.testbit x n)) → (∀ b, g false b = b) →
  bit (<[Z.to_nat (j / 8) := f (d !!! Z.to_nat (j / 8))]> d) i = g (bool_decide (i = j)) (bit d i).
Proof.
  intros Hi Hj Hlt Hf Hg. unfold bit. pose proof (Z.mod_pos_bound i 8).
  destruct (decide (Z.to_nat (i / 8) = Z.to_nat (j / 8))) as [E|E].
  - rewrite E, list_lookup_total_insert_eq by done. rewrite Hf by lia. f_equal.
    apply bool_decide_ext. split; [intros ?; by apply byte_inj|by intros ->].
  - rewrite list_lookup_total_insert_ne by done. rewrite bool_decide_false; [done|]. by intros ->.
Qed.

Lemma bit_set d i j : 0 ≤ i → 0 ≤ j < 8 * Z.of_nat (length d) →
  bit (set_bit j d) i = bool_decide (i = j) || bit d i.
Proof.
  intros Hi Hj. pose proof (Z.mod_pos_bound j 8).
  apply (bit_insert d i j (λ x, Z.lor x (Z.shiftl 1 (j `mod` 8))) orb); [lia|lia|by apply byte_lt| |done].
  intros x n Hn. rewrite Z.lor_spec, Z.shiftl_mul_pow2, Z.mul_1_l, Z.pow2_bits_eqb by lia.
  rewrite orb_comm. f_equal. case_bool_decide; [by apply Z.eqb_eq|by apply Z.eqb_neq].
Qed.

Lemma bit_clear d i j : 0 ≤ i → 0 ≤ j < 8 * Z.of_nat (length d) →
  bit (clear_bit j d) i = negb (bool_decide (i = j)) && bit d i.
Proof.
  intros Hi Hj. pose proof (Z.mod_pos_bound j 8).
  apply (bit_insert d i j (λ x, Z.land x (Z.lnot (Z.shiftl 1 (j `mod` 8)))) (λ b c, negb b && c)); [lia|lia|by apply byte_lt| |done].
  intros x n Hn. rewrite Z.land_spec, Z.lnot_spec, Z.shiftl_mul_pow2, Z.mul_1_l, Z.pow2_bits_eqb by lia.
  rewrite andb_comm. f_equal. f_equal. case_bool_decide; [by apply Z.eqb_eq|by apply Z.eqb_neq].
Qed.

Lemma length_set_bit j d : length (set_bit j d) = length d.
Proof. unfold set_bit. by rewrite length_insert. Qed.
Lemma length_clear_bit j d : length (clear_bit j d) = length d.
Proof. unfold clear_bit. by rewrite length_insert. Qed.

Lemma balloc_scan_spec n d b size : ∀ bi,
  match balloc_scan n d b bi size with
  | Some r => bi ≤ r < bi + Z.of_nat n ∧ b + r < size ∧ bit d r = false ∧ ∀ j, bi ≤ j < r → bit d j = true
  | None => ∀ j, bi ≤ j < bi + Z.of_nat n → b + j < size → bit d j = true
  end.
Proof.
  induction n as [|n IH]; intros bi; cbn [balloc_scan]; [intros; lia|].
  destruct (Z.ltb_spec (b + bi) size) as [Hlt|Hge]; [|intros; lia].
  rewrite bit_test. destruct (bit d bi) eqn:Hbit; simpl.
  - assert (Hfirst : ∀ j, bi ≤ j → j = bi ∨ bi + 1 ≤ j) by lia.
    specialize (IH (bi + 1)). destruct (balloc_scan n d b (bi + 1) size) as [r|].
    + destruct IH as (? & ? & ? & Hall). split; [lia|]. split; [done|]. split; [done|].
      intros j Hj. destruct (Hfirst j) as [->|]; [lia|done|]. apply Hall. lia.
    + intros j Hj Hs. destruct (Hfirst j) as [->|]; [lia|done|]. apply IH; lia.
  - split; [lia|]. split; [done|]. split; [done|]. lia.
Qed.

(** The bitmap of a file system whose log is at its end: the bitmap blocks are
    home locations and are marked in use themselves. *)
Record bitmap_ok (s : fs) (V : Z → block) (sb : superblock) : Prop := {
  bo_size : 0 ≤ sb_size sb ≤ Z.of_nat (length (disk (blk (lt s))));
  bo_log : log_start (lg (lt s)) + log_size (lg (lt s)) = sb_size sb;
  bo_home : ∀ b, 0 ≤ b < sb_size sb → home (lt s) (BBLOCK b (sb_ninodes sb));
  bo_used : ∀ b, 0 ≤ b < sb_size sb → used V (sb_ninodes sb) (BBLOCK b (sb_ninodes sb)) = true;
}.

Lemma BBLOCK_same k bi n : 0 ≤ bi < BPB → BBLOCK (BPB * k + bi) n = BBLOCK (BPB * k) n.
Proof.
  intros. unfold BBLOCK. do 2 f_equal. unfold BPB in *. Z.to_euclidean_division_equations. lia.
Qed.
Lemma block_bit k bi : 0 ≤ bi < BPB → (BPB * k + bi) `mod` BPB = bi.
Proof. intros. unfold BPB in *. Z.to_euclidean_division_equations. lia. Qed.

Section balloc_correct.
Context `{BD : BlockDev}.

Lemma bitmap_ok_same s s' V sb : same_fs s s' → bitmap_ok s V sb → bitmap_ok s' V sb.
Proof.
  intros Hs [H1 H2 H3 H4]. pose proof Hs as [_ (E1 & E2 & _ & E3)].
  constructor; [by rewrite E3|by rewrite E1, E2| |done].
  intros b Hb. rewrite (same_fs_home _ _ _ Hs). auto.
Qed.

(** The contents after block [b] was taken. *)
Definition after_balloc (V : Z → block) (ninodes b y : Z) : block :=
  if decide (y = b) then replicate BSIZE 0
  else if decide (y = BBLOCK b ninodes) then set_bit (b `mod` BPB) (V y) else V y.

Lemma lrep_block_len s V H L U z b : lrep (lt s) V H L U → H !! z = Some b → length (V z) = BSIZE.
Proof.
  intros HL Hz. destruct (brep_holder _ _ _ _ z b (lr_brep _ _ _ _ _ HL) Hz) as (B & _ & _ & _ & _ & _ & _ & Hd & Hl).
  congruence.
Qed.

(** What [balloc] does while the buffers [H] are held. *)
Definition balloc_post (s : fs) (V : Z → block) (H : gmap Z nat) (L : list Z) (sb : superblock) (b : Z) (s' : fs) : Prop :=
  ∃ V', lrep (lt s') V' H (log_add b (log_add (BBLOCK b (sb_ninodes sb)) L)) ∅ ∧ same_fs s s' ∧
    0 ≤ b < log_start (lg (lt s)) ∧ used V (sb_ninodes sb) b = false ∧
    (∀ b', 0 ≤ b' < b → used V (sb_ninodes sb) b' = true) ∧
    agree s V' (after_balloc V (sb_ninodes sb) b).

Lemma balloc_post_same s s1 V H L sb b s' : same_fs s s1 → balloc_post s1 V H L sb b s' → balloc_post s V H L sb b s'.
Proof.
  intros Hs (V' & HL & Hs' & Hb & Hu & Hlow & HV). pose proof Hs as [_ (E1 & _)]. exists V'.
  split; [done|]. split; [by eapply same_fs_trans|]. rewrite E1 in Hb. split; [done|]. split; [done|]. split; [done|].
  intros y Hy. apply HV. by rewrite (same_fs_in_log _ _ _ Hs).
Qed.

(** The buffers that may be held: blocks in use, no part of the bitmap. *)
Definition held_ok (V : Z → block) (sb : superblock) (H : gmap Z nat) : Prop :=
  ∀ z, z ∈ dom H → z ≠ 1 ∧ used V (sb_ninodes sb) z = true ∧ ∀ b, 0 ≤ b < sb_size sb → BBLOCK b (sb_ninodes sb) ≠ z.
Definition balloc_room (s : fs) (sb : superblock) (X : gset Z) : Prop :=
  ∀ b, 0 ≤ b < sb_size sb → room s ({[BBLOCK b (sb_ninodes sb)]} ∪ X) 1.

Lemma held_ok_None V sb H b : held_ok V sb H → 0 ≤ b < sb_size sb → H !! BBLOCK b (sb_ninodes sb) = None.
Proof. intros HH Hb. apply not_elem_of_dom. intros Hd. by apply (proj2 (proj2 (HH _ Hd)) b Hb). Qed.

(** Setting the bit and clearing the block. *)
Lemma balloc_take s V H L sb nb b :
  lrep (lt s) V (<[BBLOCK nb (sb_ninodes sb) := b]> H) L ∅ → log_busy (lg (lt s)) ≠ 0 →
  balloc_room s sb (dom H ∪ list_to_set L) → held_ok V sb H →
  bitmap_ok s V sb → 0 ≤ nb < log_start (lg (lt s)) → used V (sb_ninodes sb) nb = false →
  (∀ b', 0 ≤ b' < nb → used V (sb_ninodes sb) b' = true) →
  wp (lift (bstore b (set_bit (nb `mod` BPB)));; lift (log_write b);; lift (brelse b);;
      bzero 1 nb;; mret (u32 nb)) (balloc_post s V H L sb) s.
Proof.
  intros HL Hbusy Hr HH HB Hlog Hfree Hlow. set (z := BBLOCK nb (sb_ninodes sb)) in *.
  pose proof (lr_geo _ _ _ _ _ HL) as (_ & Hst & Hsz & Hend & _). pose proof (bo_log _ _ _ HB).
  assert (Hsize : 0 ≤ nb < sb_size sb) by lia.
  assert (Hhome : home (lt s) nb) by (unfold home, in_range, in_log; lia).
  assert (Hne : nb ≠ z).
  { intros E. rewrite E in Hfree. pose proof (bo_used _ _ _ HB nb Hsize) as Hu. fold z in Hu. congruence. }
  specialize (Hr nb Hsize). fold z in Hr. pose proof (held_ok_None _ _ _ _ HH Hsize) as HzH. fold z in HzH.
  assert (HnbH : H !! nb = None).
  { apply not_elem_of_dom. intros Hd. destruct (HH _ Hd) as (_ & Hu & _). congruence. }
  eapply fs_logged; [exact HL|apply lookup_insert_eq|done| | |
    rewrite length_set_bit; eapply lrep_block_len; [exact HL|apply lookup_insert_eq]|].
  { eapply room_mono; [|exact Hr]. set_solver. }
  { pose proof (room_NBUF _ _ _ _ _ _ _ HL Hr). rewrite dom_insert_L, <-union_assoc_L. lia. }
  intros s1 V1 HL1 Hs1 HV1. rewrite delete_insert_None in HL1 by done.
  apply wp_bind. eapply wp_mono; [apply bzero_spec; [exact HL1|by rewrite (same_fs_busy _ _ Hs1)|by rewrite (same_fs_home _ _ _ Hs1)|done|]|].
  { eapply same_fs_room_set; [done|]. eapply room_mono; [|exact Hr]. rewrite log_add_set. set_solver. }
  intros _ s2 (V2 & HL2 & Hs2 & HV2). apply wp_ret. rewrite u32_small by lia.
  exists V2. fold z. split; [done|]. split; [by eapply same_fs_trans|]. split; [lia|]. split; [done|]. split; [done|].
  intros y Hy. rewrite HV2 by (by rewrite (same_fs_in_log _ _ _ Hs1)). unfold after_balloc. fold z.
  destruct (decide (y = nb)) as [->|Hyn]; [by rewrite fn_lookup_insert|]. rewrite fn_lookup_insert_ne by done.
  rewrite HV1 by done. destruct (decide (y = z)) as [->|Hyz]; [by rewrite fn_lookup_insert|].
  by rewrite fn_lookup_insert_ne.
Qed.

(** The lowest free block of the whole disk, the log included. *)
Definition lowest_free (V : Z → block) (sb : superblock) (nb : Z) : Prop :=
  0 ≤ nb < sb_size sb ∧ used V (sb_ninodes sb) nb = false ∧ ∀ b', 0 ≤ b' < nb → used V (sb_ninodes sb) b' = true.

Lemma lowest_free_exists V sb b0 : 0 ≤ b0 < sb_size sb → used V (sb_ninodes sb) b0 = false →
  ∃ nb, nb ≤ b0 ∧ lowest_free V sb nb.
Proof.
  intros [H0 Hs]. revert Hs. pattern b0. apply Zlt_0_ind; [|done]. clear b0 H0. intros b0 IH H0 Hs Hf.
  destruct (decide (Exists (λ i, used V (sb_ninodes sb) (Z.of_nat i) = false) (seq 0 (Z.to_nat b0)))) as [Hex|Hno].
  - apply Exists_exists in Hex as (i & Hi%elem_of_seq & Hu). destruct (IH (Z.of_nat i)) as (nb & ? & ?); [lia|lia|done|].
    exists nb. split; [lia|done].
  - exists b0. split; [lia|]. split; [done|]. split; [done|]. intros b' Hb'. destruct (used V (sb_ninodes sb) b') eqn:E; [done|].
    destruct Hno. apply Exists_exists. exists (Z.to_nat b'). split; [apply elem_of_seq; lia|]. by rewrite Z2Nat.id by lia.
Qed.

(** The loops of [balloc] find the lowest free block. *)
Lemma balloc_loop_finds sb V H L nb Q : lowest_free V sb nb → held_ok V sb H → ∀ n k s,
  lrep (lt s) V H L ∅ → balloc_room s sb (dom H ∪ list_to_set L) → bitmap_ok s V sb →
  0 ≤ k → sb_size sb < BPB * (k + Z.of_nat n) → BPB * k ≤ nb →
  (∀ s1 b, same_fs s s1 → lrep (lt s1) V (<[BBLOCK nb (sb_ninodes sb) := b]> H) L ∅ →
    wp (lift (bstore b (set_bit (nb `mod` BPB)));; lift (log_write b);; lift (brelse b);; bzero 1 nb;; mret (u32 nb)) Q s1) →
  wp (balloc_loop n 1 (BPB * k) sb) Q s.
Proof.
  intros (Hnb & Hfree & Hlow) HH. induction n as [|n IH]; intros k s HL Hr HB Hk Hn Hkn HQ.
  { unfold BPB in *. lia. }
  cbn [balloc_loop]. destruct (Z.ltb_spec (BPB * k) (sb_size sb)) as [_|]; [|lia].
  set (z := BBLOCK (BPB * k) (sb_ninodes sb)).
  assert (Hks : 0 ≤ BPB * k < sb_size sb) by (unfold BPB in *; lia).
  assert (Hz : home (lt s) z) by by apply (bo_home _ _ _ HB).
  pose proof (held_ok_None _ _ _ _ HH Hks) as HzH. rewrite (home_u32 _ _ _ _ _ _ HL Hz).
  apply wp_bind. eapply wp_mono; [apply fs_bread; [done..|]|].
  { right. pose proof (room_NBUF _ _ _ _ _ _ _ HL (Hr _ Hks)).
    pose proof (subseteq_size (dom H ∪ list_to_set L) ({[z]} ∪ (dom H ∪ list_to_set L))). opose proof* H1; [set_solver|].
    unfold z in *. lia. }
  intros b s1 (HL1 & Hs1). apply wp_bind. eapply fs_getbuf; [exact HL1|apply lookup_insert_eq|]. intros B HBd Hlen. rewrite HBd.
  pose proof (balloc_scan_spec (Z.to_nat BPB) (V z) (BPB * k) (sb_size sb) 0) as Hscan.
  assert (Hused : ∀ j, 0 ≤ j < BPB → used V (sb_ninodes sb) (BPB * k + j) = bit (V z) j).
  { intros j Hj. unfold used. rewrite BBLOCK_same, block_bit by done. done. }
  assert (Hclash : nb - BPB * k < BPB → bit (V z) (nb - BPB * k) ≠ true).
  { intros Hlt. rewrite <-Hused by lia. replace (BPB * k + (nb - BPB * k)) with nb by lia. congruence. }
  rewrite !Z2Nat.id in Hscan by (unfold BPB; lia).
  destruct (balloc_scan (Z.to_nat BPB) (V z) (BPB * k) 0 (sb_size sb)) as [bi|].
  - destruct Hscan as (Hbi & Hlt & Hclear & Hall).
    assert (E : BPB * k + bi = nb).
    { destruct (Z.lt_trichotomy (BPB * k + bi) nb) as [Hl|[|Hl]]; [|done|].
      - rewrite <-Hused, Hlow in Hclear by (unfold BPB in *; lia). done.
      - exfalso. apply Hclash; [lia|]. apply Hall. lia. }
    rewrite E. specialize (HQ s1 b Hs1). rewrite <-E, block_bit, BBLOCK_same in HQ by lia. rewrite <-E. by apply HQ.
  - apply wp_bind. eapply wp_mono; [apply (fs_brelse _ _ _ _ z b HL1), lookup_insert_eq|]. intros _ s2 [HT2 Hs2].
    rewrite delete_insert_None in HT2 by done. assert (Hs : same_fs s s2) by by eapply same_fs_trans.
    replace (BPB * k + BPB) with (BPB * (k + 1)) by lia. apply IH; [done| |by eapply bitmap_ok_same|lia|lia| |].
    + intros b' Hb'. eapply same_fs_room_set; [done|]. by apply Hr.
    + destruct (Z.le_gt_cases (BPB * (k + 1)) nb); [done|]. exfalso. apply Hclash; [lia|]. apply Hscan; lia.
    + intros s3 b3 Hs3. apply HQ. by eapply same_fs_trans.
Qed.

Lemma balloc_finds s V H L nb Q :
  let sb := sb_of_bytes (V 1) in
  lrep (lt s) V H L ∅ → balloc_room s sb (dom H ∪ list_to_set L) → held_ok V sb H → home (lt s) 1 → bitmap_ok s V sb →
  lowest_free V sb nb →
  (∀ s1 b, same_fs s s1 → lrep (lt s1) V (<[BBLOCK nb (sb_ninodes sb) := b]> H) L ∅ →
    wp (lift (bstore b (set_bit (nb `mod` BPB)));; lift (log_write b);; lift (brelse b);; bzero 1 nb;; mret (u32 nb)) Q s1) →
  wp (balloc 1) Q s.
Proof.
  intros sb HL Hr HH H1 HB Hlow HQ. unfold balloc. apply wp_bind. pose proof (proj1 Hlow) as Hnb.
  eapply wp_mono; [apply (fs_readsb _ _ _ _ HL H1)|].
  - apply not_elem_of_dom. intros Hd. by destruct (HH _ Hd).
  - pose proof (room_NBUF _ _ _ _ _ _ _ HL (Hr nb Hnb)).
    pose proof (subseteq_size (dom H ∪ list_to_set L) ({[BBLOCK nb (sb_ninodes sb)]} ∪ (dom H ∪ list_to_set L))) as Hsub.
    opose proof* Hsub; [set_solver|]. lia.
  - intros sb' s1 (-> & HL1 & Hs1). fold sb. apply (balloc_loop_finds sb V H L nb Q Hlow HH _ 0 s1 HL1).
    + intros b Hb'. eapply same_fs_room_set; [done|]. by apply Hr.
    + by eapply bitmap_ok_same.
    + lia.
    + pose proof (bo_size _ _ _ HB). unfold BPB. Z.to_euclidean_division_equations. lia.
    + lia.
    + intros s2 b Hs2. apply HQ. by eapply same_fs_trans.
Qed.

Lemma balloc_spec s V H L :
  let sb := sb_of_bytes (V 1) in
  lrep (lt s) V H L ∅ → log_busy (lg (lt s)) ≠ 0 → balloc_room s sb (dom H ∪ list_to_set L) →
  held_ok V sb H → home (lt s) 1 → bitmap_ok s V sb →
  (∃ b0, 0 ≤ b0 < log_start (lg (lt s)) ∧ used V (sb_ninodes sb) b0 = false) →
  wp (balloc 1) (balloc_post s V H L sb) s.
Proof.
  intros sb HL Hb Hr HH H1 HB (b0 & Hb0 & Hf0). assert (Hlog := bo_log _ _ _ HB).
  pose proof (lr_geo _ _ _ _ _ HL) as (_ & Hst & Hsz & Hend & _).
  destruct (lowest_free_exists V sb b0) as (nb & Hnb & Hlow); [lia|done|]. destruct (id Hlow) as (Hnb' & Hf & Hall).
  eapply balloc_finds; [done..|]. intros s1 b Hs1 HL1. pose proof Hs1 as [_ (E1 & _)].
  eapply wp_mono; [apply (balloc_take s1 V H L sb nb b HL1)|intros r s2; by apply balloc_post_same].
  - by rewrite (same_fs_busy _ _ Hs1).
  - intros b' Hb'. eapply same_fs_room_set; [done|]. by apply Hr.
  - done.
  - by eapply bitmap_ok_same.
  - rewrite E1. lia.
  - done.
  - done.
Qed.

(** [bzero] of the block of the log's header, which is no home location: it is
    logged like any other block. *)
Lemma bzero_header s V L :
  let st := log_start (lg (lt s)) in
  in_txn s V L → log_room s L 1 →
  wp (bzero 1 st) (λ _ s', lh_n (lg (lt s')) = Z.of_nat (S (length L)) ∧ lh_sector (lg (lt s')) !! length L = Some st ∧
    ∃ V', V' st = replicate BSIZE 0 ∧ brep (blk (lt s')) V' ∅ ({[st]} ∪ list_to_set L)) s.
Proof.
  intros st [HL Hb] Hr. pose proof (log_room_room _ _ _ _ _ _ HL Hr) as Hrm. pose proof (room_NBUF _ _ _ _ _ _ _ HL Hrm) as Hnb. destruct Hr as [Hr1 Hr2].
  pose proof (lr_geo _ _ _ _ _ HL) as Hgeo. destruct (id Hgeo) as (_ & Hst & Hsz & Hend & Hlen). fold st in Hst, Hend.
  assert (Hout : ∀ y, in_log (lg (lt s)) y → y ∉ L) by (intros y Hy Hin; by destruct (lrep_range _ _ _ _ _ y HL (or_introl Hin))).
  assert (HrL : Forall (λ y, 0 ≤ y < 2 ^ 32) L).
  { apply Forall_forall. intros y Hy. destruct (lrep_range _ _ _ _ _ y HL); [by left|lia]. }
  assert (HstL : st ∉ L) by (apply Hout; unfold in_log; fold st; lia).
  pose proof (proj1 (log_slot_spec _ L st (lr_secs _ _ _ _ _ HL) HrL (lr_nodup _ _ _ _ _ HL)) HstL) as Hslot.
  unfold bzero. rewrite (u32_small st) by lia. replace (u32 1) with 1 by done.
  apply wp_bind, wp_lift.
  eapply wp_mono; [apply (bread_spec (blk (lt s)) V ∅ (list_to_set L) st); [apply HL|unfold in_range; lia|done|right; rewrite dom_empty_L, union_empty_l_L; lia]|].
  intros b s1 (R1 & Hd1 & _). rewrite insert_empty in R1. assert (Hh : ({[st := b]} : gmap Z nat) !! st = Some b) by apply lookup_insert_eq.
  apply wp_bind, wp_lift. eapply wp_mono; [by apply (bstore_spec s1 V {[st := b]} (list_to_set L) st b (λ _, replicate BSIZE 0))|].
  intros _ s2 (R2 & Hd2 & _). apply wp_bind, wp_lift. set (V2 := <[st := replicate BSIZE 0]> V) in *.
  eapply wp_mono; [apply (log_write_core _ V2 {[st := b]} L st b); cbn; rewrite ?Hslot; try done; try apply HL; try lia|].
  - unfold geometry in *. cbn. by rewrite Hd2, Hd1.
  - rewrite dom_singleton_L. pose proof (size_union_le {[st]} (list_to_set L)) as Hu. rewrite size_singleton in Hu. lia.
  - apply lookup_singleton_ne. fold st. lia.
  - apply Hout. unfold in_log. fold st. lia.
  - intros _ t3 (R3 & Hlg & _). cbn in R3, Hlg. rewrite Hslot in R3, Hlg. fold st in R3, Hlg. apply wp_lift.
    eapply wp_mono; [apply (brelse_spec _ _ _ _ st b R3 Hh); left; set_solver|]. intros _ s4 (R4 & _).
    rewrite delete_singleton_eq in R4. cbn. rewrite Hlg. cbn. split; [unfold log_add; rewrite decide_False, length_app by done; cbn; lia|].
    split; [apply list_lookup_insert_eq; lia|]. eexists. split; [|exact R4].
    rewrite fn_lookup_insert_ne by lia. unfold V2. by rewrite fn_lookup_insert.
Qed.

(** C11: [balloc] inside a transaction, when a block below the log is free and
    the log has room for two more blocks: it does not panic, it returns the
    lowest free block (which was not in use and is not part of the log), sets
    its bit and clears its contents, and changes no other block of the file
    system. *)
Theorem balloc_correct s V L :
  let sb := sb_of_bytes (V 1) in
  in_txn s V L → log_room s L 2 → home (lt s) 1 → bitmap_ok s V sb →
  (∃ b0, 0 ≤ b0 < log_start (lg (lt s)) ∧ used V (sb_ninodes sb) b0 = false) →
  wp (balloc 1) (λ b s', ∃ V' L', in_txn s' V' L' ∧ same_fs s s' ∧ (length L' <= length L + 2)%nat ∧
    0 ≤ b < log_start (lg (lt s)) ∧ used V (sb_ninodes sb) b = false ∧
    (∀ b', 0 ≤ b' < b → used V (sb_ninodes sb) b' = true) ∧
    ∀ y, ¬ in_log (lg (lt s)) y → V' y = after_balloc V (sb_ninodes sb) b y) s.
Proof.
  intros sb [HL Hb] Hr H1 HB Hfree.
  eapply wp_mono; [apply (balloc_spec s V ∅ L HL Hb)|].
  - intros b Hb'. rewrite dom_empty_L, union_empty_l_L. apply room_add. by eapply log_room_room.
  - intros z. rewrite dom_empty_L. set_solver.
  - done.
  - done.
  - done.
  - intros b s' (V' & HL' & Hs' & Hb' & Hu & Hlow & HV). eexists V', _.
    split; [split; [exact HL'|by rewrite (same_fs_busy _ _ Hs')]|]. split; [done|].
    split; [|done]. fold sb. pose proof (length_log_add (BBLOCK b (sb_ninodes sb)) L).
    pose proof (length_log_add b (log_add (BBLOCK b (sb_ninodes sb)) L)). lia.
Qed.

(** Reading a block: the run succeeds, and what it returns is determined. *)
Lemma fs_read_run s V L z :
  in_txn s V L → home (lt s) z →
  ∃ b s1 B, lift (bread 1 z) s = Ok b s1 ∧ lift (getbuf b) s1 = Ok B s1 ∧ b_data B = V z ∧ length (V z) = BSIZE ∧
    lrep (lt s1) V {[z := b]} L ∅ ∧ log_busy (lg (lt s1)) ≠ 0 ∧ same_fs s s1.
Proof.
  intros [HL Hb] Hz. pose proof (fs_bread_first s V L z HL Hz) as Hw.
  apply wp_Ok in Hw as (b & s1 & Hrun & HL1 & Hs1).
  assert (Hg : wp (lift (getbuf b)) (λ B s', s' = s1 ∧ b_data B = V z ∧ length (V z) = BSIZE) s1)
    by (eapply fs_getbuf; [exact HL1|apply lookup_insert_eq|done]).
  apply wp_Ok in Hg as (B & s' & HB & -> & Hd & Hl). exists b, s1, B.
  rewrite (same_fs_busy _ _ Hs1). by split_and!.
Qed.

(** [bfree] of a block inside a transaction, when the log has room for one
    more block: a block that is not in use is a panic; otherwise its bit is
    cleared, every other bit of the bitmap keeps its value, and no other block
    of the file system changes. *)
Theorem bfree_correct s V L b :
  let sb := sb_of_bytes (V 1) in
  in_txn s V L → log_room s L 1 → home (lt s) 1 → bitmap_ok s V sb → 0 ≤ b < sb_size sb →
  if used V (sb_ninodes sb) b then
    wp (bfree 1 b) (λ _ s', ∃ V' L', in_txn s' V' L' ∧ same_fs s s' ∧
      (∀ y, ¬ in_log (lg (lt s)) y → y ≠ BBLOCK b (sb_ninodes sb) → V' y = V y) ∧
      ∀ b', 0 ≤ b' < sb_size sb →
        used V' (sb_ninodes sb) b' = negb (bool_decide (b' = b)) && used V (sb_ninodes sb) b') s
  else ∃ s', bfree 1 b s = Err (Panic "freeing free block") s'.
Proof.
  intros sb HT Hr H1 HB Hb.
  destruct HT as [HL Hbusy].
  assert (Hsb : wp (lift (readsb 1)) (λ sb s', sb = sb_of_bytes (V 1) ∧ lrep (lt s') V ∅ L ∅ ∧ same_fs s s') s).
  { apply fs_readsb; [done..|]. pose proof (room_NBUF _ _ _ _ _ _ _ HL (log_room_room _ _ _ _ _ _ HL Hr)).
    rewrite dom_empty_L, union_empty_l_L. lia. }
  apply wp_Ok in Hsb as (sb' & s1 & Hrun1 & -> & HL1 & Hs1).
  assert (HT1 : in_txn s1 V L) by (split; [done|by rewrite (same_fs_busy _ _ Hs1)]).
  fold sb in Hrun1. set (z := BBLOCK b (sb_ninodes sb)).
  assert (Hz : home (lt s1) z) by (rewrite (same_fs_home _ _ _ Hs1); by apply (bo_home _ _ _ HB)).
  assert (u32 z = z) as Hu.
  { apply u32_small. pose proof (lr_geo _ _ _ _ _ (it_lrep _ _ _ HT1)) as (_&_&_&?&_).
    destruct Hz as [Hz _]. unfold in_range in Hz. lia. }
  destruct (fs_read_run s1 V L z HT1 Hz) as (bp & s2 & B & Hrun2 & Hrun3 & HBd & Hlen & HL2 & Hb2 & Hs2).
  assert (Hbi : 0 ≤ b `mod` BPB < 8 * Z.of_nat (length (V z))).
  { rewrite Hlen. pose proof (Z.mod_pos_bound b BPB). unfold BPB, BSIZE in *. lia. }
  assert (Hs : same_fs s s2) by by eapply same_fs_trans.
  assert (Hstart : bfree 1 b s =
    (if Z.land (b_data B !!! Z.to_nat ((b `mod` BPB) / 8)) (Z.shiftl 1 ((b `mod` BPB) `mod` 8)) =? 0
     then panic "freeing free block"
     else lift (bstore bp (clear_bit (b `mod` BPB)));; lift (log_write bp);; lift (brelse bp)) s2).
  { unfold bfree. unfold mbind at 1, M_bind at 1. rewrite Hrun1. unfold mbind at 1, M_bind at 1. fold z.
    rewrite Hu. replace (u32 1) with 1 by done. rewrite Hrun2. unfold mbind at 1, M_bind at 1. by rewrite Hrun3. }
  rewrite HBd, bit_test in Hstart. fold (used V (sb_ninodes sb) b) in Hstart.
  change (bit (V z) (b `mod` BPB)) with (used V (sb_ninodes sb) b) in Hstart.
  destruct (used V (sb_ninodes sb) b); simpl in Hstart; [|by eexists].
  unfold wp at 1. rewrite Hstart.
  change (wp (lift (bstore bp (clear_bit (b `mod` BPB)));; lift (log_write bp);; lift (brelse bp))
    (λ _ s', ∃ V' L', in_txn s' V' L' ∧ same_fs s s' ∧
      (∀ y, ¬ in_log (lg (lt s)) y → y ≠ z → V' y = V y) ∧
      ∀ b', 0 ≤ b' < sb_size sb →
        used V' (sb_ninodes sb) b' = negb (bool_decide (b' = b)) && used V (sb_ninodes sb) b') s2).
  eapply fs_logged_end; [exact HL2|apply lookup_insert_eq|done| | |by rewrite length_clear_bit|].
  { eapply log_room_room; [exact HL2|]. by eapply same_fs_room. }
  { pose proof (room_NBUF _ _ _ _ _ _ _ HL (room_add _ _ z _ (log_room_room _ _ _ _ _ _ HL Hr))).
    rewrite dom_singleton_L. lia. }
  intros s3 V3 HL3 Hs3 HV3. rewrite delete_singleton_eq in HL3.
  assert (HV3' : agree s V3 (<[z := clear_bit (b `mod` BPB) (V z)]> V)).
  { intros y Hy. apply HV3. by rewrite (same_fs_in_log _ _ _ Hs). }
  clear HV3. rename HV3' into HV3.
  exists V3, (log_add z L). split; [split; [done|by rewrite (same_fs_busy _ _ Hs3)]|]. split; [by eapply same_fs_trans|]. split.
  - intros y Hy Hne. rewrite HV3 by done. by rewrite fn_lookup_insert_ne.
  - intros b' Hb'. unfold used. set (z' := BBLOCK b' (sb_ninodes sb)).
    rewrite HV3 by (by apply (bo_home _ _ _ HB)). destruct (decide (z' = z)) as [E|E].
    + rewrite E, fn_lookup_insert, bit_clear; [|apply Z.mod_pos_bound; unfold BPB; lia|done].
      do 2 f_equal. apply bool_decide_ext. split; [|by intros ->]. intros Hm.
      unfold z', z, BBLOCK in E. unfold BPB in *. Z.to_euclidean_division_equations. lia.
    + rewrite fn_lookup_insert_ne by done. rewrite bool_decide_false; [done|]. by intros ->.
Qed.

(** C40: The bound of the scan of [balloc] is the size of the whole disk, not the
    start of the log. So, inside a transaction with room in the log, on every
    file system whose blocks before the log are all in use while the bit of the
    log's first block is clear, [balloc] does not panic: it returns the block of
    the log's header, and this block, filled with zeros, has become part of the
    transaction, which writes it over the header. *)
Theorem balloc_takes_log_block s V L :
  let sb := sb_of_bytes (V 1) in let st := log_start (lg (lt s)) in
  in_txn s V L → log_room s L 2 → home (lt s) 1 → bitmap_ok s V sb →
  (∀ b, 0 ≤ b < st → used V (sb_ninodes sb) b = true) → used V (sb_ninodes sb) st = false →
  wp (balloc 1) (λ b s', b = st ∧ st ∈ take (Z.to_nat (lh_n (lg (lt s')))) (lh_sector (lg (lt s'))) ∧
    ∃ V' D, V' st = replicate BSIZE 0 ∧ st ∈ D ∧ brep (blk (lt s')) V' ∅ D) s.
Proof.
  intros sb st HT Hr H1 HB Hlow Hst. pose proof HT as [HL Hb].
  pose proof (lr_geo _ _ _ _ _ HL) as (_ & Hst2 & Hsz & Hend & _). fold st in Hst2, Hend. pose proof (bo_log _ _ _ HB) as Hlog. fold st in Hlog.
  assert (Hin : 0 ≤ st < sb_size sb) by lia.
  assert (Hroom : balloc_room s sb (dom (∅ : gmap Z nat) ∪ list_to_set L)).
  { intros b Hb'. rewrite dom_empty_L, union_empty_l_L. apply room_add. by eapply log_room_room. }
  assert (HH : held_ok V sb ∅) by (intros z; rewrite dom_empty_L; set_solver).
  eapply (balloc_finds s V ∅ L st _ HL Hroom HH H1 HB); [split; [exact Hin|by split]|].
  intros s1 b Hs1 HL1. fold sb in HL1 |- *. set (z := BBLOCK st (sb_ninodes sb)) in *. pose proof Hs1 as [_ (E1 & _)].
  assert (Hr1 : room s1 (list_to_set L) 2) by (eapply same_fs_room_set; [done|]; by eapply log_room_room).
  eapply fs_logged; [exact HL1|apply lookup_insert_eq|by rewrite (same_fs_busy _ _ Hs1)|by eapply room_le; [|exact Hr1]; lia| |
    rewrite length_set_bit; eapply lrep_block_len; [exact HL1|apply lookup_insert_eq]|].
  { pose proof (room_NBUF _ _ _ _ _ _ _ HL1 (room_add _ _ z _ Hr1)). rewrite dom_insert_L, dom_empty_L, union_empty_r_L. lia. }
  intros s2 V2 HL2 Hs2 HV2. rewrite delete_insert_None in HL2 by done.
  assert (Es : log_start (lg (lt s2)) = st) by (pose proof Hs2 as [_ (-> & _)]; exact E1).
  apply wp_bind. rewrite <-Es. eapply wp_mono; [apply (bzero_header s2 V2 (log_add z L))|].
  - split; [done|]. by rewrite (same_fs_busy _ _ Hs2), (same_fs_busy _ _ Hs1).
  - pose proof (length_log_add z L). destruct (same_fs_room _ _ _ _ (same_fs_trans _ _ _ Hs1 Hs2) Hr) as [? ?]. split; lia.
  - intros _ s3 (Hn & Hsec & V3 & HV3 & R3). rewrite Es in *. apply wp_ret. split; [apply u32_small; lia|]. split.
    + rewrite Hn. apply list_elem_of_lookup. exists (length (log_add z L)). rewrite lookup_take_lt by lia. done.
    + exists V3, ({[st]} ∪ list_to_set (log_add z L)). split; [done|]. split; [set_solver|done].
Qed.

End balloc_correct.

(** ** A small file system: the bitmap is block 3, with [x] as its first byte, and
    the log is blocks 6 to 8. *)
Definition bitmap_disk (x : Z) : list block :=
  let z := replicate BSIZE 0 in
  [z; put_32 12 3 (put_32 0 9 z); z; <[0%nat := x]> z; z; z; z; z; z].

Lemma bitmap_disk_ok x : log_disk 6 3 (bitmap_disk x).
Proof.
  unfold log_disk. split_and!; try (vm_compute; congruence).
  - intros i b Hi. apply list_elem_of_lookup_2 in Hi. revert b Hi. apply Forall_forall.
    repeat constructor; vm_compute; reflexivity.
  - intros z Hz. vm_compute in Hz. set_solver.
Qed.

(** The state after [begin_trans]. *)
Lemma bitmap_txn x : Z.testbit x 3 = true →
  ∃ s V, in_txn s V [] ∧ log_room s [] 2 ∧ home (lt s) 1 ∧ log_start (lg (lt s)) = 6 ∧
    (∀ z, 0 ≤ z < 6 → V z = bitmap_disk x !!! Z.to_nat z) ∧ bitmap_ok s V (sb_of_bytes (V 1)).
Proof.
  intros Hx. destruct (boot_spec 6 3 (bitmap_disk x) (bitmap_disk_ok x)) as (t & V & _ & HL & _ & Hst & Hsz & Hdk & HV & _).
  assert (Hdl : length (disk (blk t)) = 9%nat) by by rewrite Hdk, length_apply_writes.
  assert (HVz : ∀ z, 0 ≤ z < 6 → V z = bitmap_disk x !!! Z.to_nat z).
  { intros z Hz. rewrite HV by lia. done. }
  exists (mkFs (mkLst (blk t) (mkLog (log_start (lg t)) (log_size (lg t)) 1 (log_dev (lg t)) (lh_n (lg t)) (lh_sector (lg t)))) icache0), V.
  split; [split; [destruct HL; by constructor|done]|].
  split; [split; simpl; [unfold LOGSIZE; lia|lia]|].
  split; [unfold home, in_range, in_log; simpl; lia|]. split; [done|]. split; [done|].
  rewrite (HVz 1) by lia. set (sb := sb_of_bytes _).
  assert (Hsb : sb = mkSb 9 0 0 3) by (vm_compute; reflexivity). rewrite Hsb.
  assert (HBB : ∀ b, 0 ≤ b < 9 → BBLOCK b 0 = 3).
  { intros b Hb. unfold BBLOCK, BPB. rewrite Z.div_small by lia. done. }
  constructor; simpl; rewrite ?Hdl; try lia.
  - intros b Hb. rewrite HBB by lia. unfold home, in_range, in_log. simpl. lia.
  - intros b Hb. rewrite HBB by lia. unfold used. rewrite HBB by lia. rewrite HVz by lia. exact Hx.
Qed.

Lemma balloc_correct_witness : ∃ s b s', balloc 1 s = Ok b s' ∧ 0 ≤ b < 6.
Proof.
  destruct (bitmap_txn 15 eq_refl) as (s & V & HT & Hr & H1 & Hst & HV & HB).
  assert (Hw : wp (balloc 1) (λ b _, 0 ≤ b < 6) s).
  { eapply wp_mono; [apply (balloc_correct s V [] HT Hr H1 HB)|].
    - exists 4. rewrite Hst. split; [lia|]. unfold used, BBLOCK, BPB.
      rewrite (HV 1) by lia. rewrite HV by (vm_compute; intuition congruence). vm_compute. reflexivity.
    - intros b s' (V' & L' & _ & _ & _ & Hb & _). rewrite Hst in Hb. exact Hb. }
  apply wp_Ok in Hw as (b & s' & Hrun & Hb). exists s, b, s'. split; [exact Hrun|exact Hb].
Defined.

Lemma bfree_correct_witness : ∃ s s', bfree 1 2 s = Ok tt s' ∧ ∃ s2, bfree 1 5 s = Err (Panic "freeing free block") s2.
Proof.
  destruct (bitmap_txn 15 eq_refl) as (s & V & HT & Hr & H1 & Hst & HV & HB).
  assert (Hu : ∀ b, 0 ≤ b < 9 → used V (sb_ninodes (sb_of_bytes (V 1))) b = bit (bitmap_disk 15 !!! 3%nat) b).
  { intros b Hb. unfold used, BBLOCK. rewrite (HV 1) by lia.
    rewrite (Z.div_small b), (Z.mod_small b) by (unfold BPB; lia).
    rewrite HV by (vm_compute; intuition congruence). done. }
  assert (Hr1 : log_room s [] 1) by (destruct Hr; split; simpl in *; lia).
  assert (Hsz : sb_size (sb_of_bytes (V 1)) = 9) by (rewrite (HV 1) by lia; vm_compute; reflexivity).
  exists s.
  pose proof (bfree_correct s V [] 2 HT Hr1 H1 HB ltac:(rewrite Hsz; lia)) as Hf.
  rewrite Hu in Hf by lia. assert (Hb2 : bit (bitmap_disk 15 !!! 3%nat) 2 = true) by (vm_compute; reflexivity).
  rewrite Hb2 in Hf. apply wp_Ok in Hf as ([] & s' & Hrun & _). exists s'. split; [exact Hrun|].
  pose proof (bfree_correct s V [] 5 HT Hr1 H1 HB ltac:(rewrite Hsz; lia)) as Hg.
  rewrite Hu in Hg by lia. assert (Hb5 : bit (bitmap_disk 15 !!! 3%nat) 5 = false) by (vm_compute; reflexivity).
  rewrite Hb5 in Hg. exact Hg.
Defined.

(** Blocks 0 to 5 are in use. *)
Lemma balloc_takes_log_block_witness : ∃ s s', log_start (lg (lt s)) = 6 ∧ balloc 1 s = Ok 6 s'.
Proof.
  destruct (bitmap_txn 63 eq_refl) as (s & V & HT & Hr & H1 & Hst & HV & HB).
  assert (Hu : ∀ b, 0 ≤ b < 9 → used V (sb_ninodes (sb_of_bytes (V 1))) b = bit (bitmap_disk 63 !!! 3%nat) b).
  { intros b Hb. unfold used, BBLOCK. rewrite (HV 1) by lia.
    rewrite (Z.div_small b), (Z.mod_small b) by (unfold BPB; lia).
    rewrite HV by (vm_compute; intuition congruence). done. }
  assert (Hw : wp (balloc 1) (λ b _, b = 6) s).
  { eapply wp_mono; [apply (balloc_takes_log_block s V [] HT Hr H1 HB)|].
    - rewrite Hst. intros b Hb. rewrite Hu by lia. assert (b ∈ [0; 1; 2; 3; 4; 5]) as Hin by (rewrite !elem_of_cons; lia).
      revert Hin. clear -Hb. intros Hin. repeat (apply elem_of_cons in Hin as [-> |Hin]; [vm_compute; reflexivity|]). by apply elem_of_nil in Hin.
    - rewrite Hst, Hu by lia. vm_compute. reflexivity.
    - intros b s' [-> _]. exact Hst. }
  apply wp_Ok in Hw as (b & s' & Hrun & ->). exists s, s'. split; [exact Hst|exact Hrun].
Defined.
