(* ===== verification/Inode.v ===== *)
(** * Inode contents (bmap, readi and writei of fs.c)

    An inode in the cache stands for a list of blocks, the direct ones in the
    inode and the others named by its indirect block, and these for a sequence
    of bytes. [readi] returns a slice of the bytes; [writei] inside a
    transaction replaces a slice and appends, taking new blocks from the block
    allocator, and leaves every other block of the file system alone. *)

From S2P Require Import Prelude Buf Bio Log Txn Fs FsProps Balloc.

(** ** The layout of the disk *)

(** The bitmap is one block, after the blocks of the inodes; file contents
    start behind it. This is the layout of the image that mkfs.c builds. *)
Definition bmblock (sb : superblock) : Z := sb_ninodes sb `div` IPB + 3.
Definition dstart (sb : superblock) : Z := bmblock sb + 1.

Record layout (s : fs) (V : Z → block) (sb : superblock) : Prop := {
  ly_sb : sb_of_bytes (V 1) = sb;
  ly_size : sb_size sb ≤ BPB;
  ly_disk : sb_size sb ≤ Z.of_nat (length (disk (blk (lt s))));
  ly_ninodes : 0 ≤ sb_ninodes sb;
  ly_log : log_start (lg (lt s)) + log_size (lg (lt s)) = sb_size sb;
  ly_log_size : 1 ≤ log_size (lg (lt s));
  ly_start : dstart sb ≤ log_start (lg (lt s));
  ly_meta : ∀ b, 0 ≤ b < dstart sb → used V (sb_ninodes sb) b = true;
}.

#[global] Arguments ly_sb {_} {_} {_} _.
#[global] Arguments ly_size {_} {_} {_} _.
#[global] Arguments ly_disk {_} {_} {_} _.
#[global] Arguments ly_ninodes {_} {_} {_} _.
#[global] Arguments ly_log {_} {_} {_} _.
#[global] Arguments ly_log_size {_} {_} {_} _.
#[global] Arguments ly_start {_} {_} {_} _.
#[global] Arguments ly_meta {_} {_} {_} _.

Lemma BBLOCK_one sb b : 0 ≤ b < BPB → BBLOCK b (sb_ninodes sb) = bmblock sb.
Proof. intros. unfold BBLOCK, bmblock. rewrite Z.div_small by done. lia. Qed.

Lemma bmblock_pos sb : 0 ≤ sb_ninodes sb → 3 ≤ bmblock sb.
Proof. intros. unfold bmblock, IPB. Z.to_euclidean_division_equations. lia. Qed.

(** A block for the contents of files. *)
Definition data (s : fs) (sb : superblock) (b : Z) : Prop := dstart sb ≤ b < log_start (lg (lt s)).

Lemma same_fs_data s s' sb b : same_fs s s' → data s' sb b ↔ data s sb b.
Proof. intros [_ (E & _)]. unfold data. by rewrite E. Qed.

Section layout.
Context (s : fs) (V : Z → block) (sb : superblock) (HY : layout s V sb).

Lemma layout_home b : 0 ≤ b < log_start (lg (lt s)) → home (lt s) b.
Proof.
  intros Hb. destruct HY. unfold home, in_range, in_log. lia.
Qed.

Lemma data_home b : data s sb b → home (lt s) b.
Proof.
  intros [H1 H2]. apply layout_home. pose proof (bmblock_pos sb (ly_ninodes HY)). unfold dstart in *. lia.
Qed.

Lemma layout_home_1 : home (lt s) 1.
Proof.
  apply layout_home. pose proof (bmblock_pos sb (ly_ninodes HY)). destruct HY. unfold dstart in *. lia.
Qed.

Lemma layout_bitmap_ok : bitmap_ok s V sb.
Proof.
  pose proof (bmblock_pos sb (ly_ninodes HY)) as Hp.
  assert (Hd : dstart sb = bmblock sb + 1) by done.
  assert (HB : ∀ b, 0 ≤ b < sb_size sb → BBLOCK b (sb_ninodes sb) = bmblock sb).
  { intros b Hb. apply BBLOCK_one. pose proof (ly_size HY). lia. }
  constructor.
  - destruct HY. lia.
  - apply HY.
  - intros b Hb. rewrite HB by done. apply layout_home. destruct HY. lia.
  - intros b Hb. rewrite HB by done. apply HY. lia.
Qed.

Lemma layout_used V1 V2 b :
  V1 (bmblock sb) = V2 (bmblock sb) → 0 ≤ b < sb_size sb → used V1 (sb_ninodes sb) b = used V2 (sb_ninodes sb) b.
Proof.
  intros HV Hb. pose proof (ly_size HY). unfold used. by rewrite BBLOCK_one, HV by lia.
Qed.

Lemma data_range b : data s sb b → bmblock sb < b < sb_size sb ∧ ¬ in_log (lg (lt s)) b ∧ 4 ≤ b.
Proof.
  intros [H1 H2]. pose proof (bmblock_pos sb (ly_ninodes HY)). pose proof (ly_log HY). pose proof (ly_log_size HY).
  unfold dstart, in_log in *. lia.
Qed.

End layout.

(** The free blocks below the log. *)
Definition free_blocks (s : fs) (V : Z → block) (sb : superblock) : gset Z :=
  filter (λ b, used V (sb_ninodes sb) b = false) (list_to_set (seqZ 0 (log_start (lg (lt s))))).

Lemma elem_free_blocks s V sb b :
  b ∈ free_blocks s V sb ↔ 0 ≤ b < log_start (lg (lt s)) ∧ used V (sb_ninodes sb) b = false.
Proof. unfold free_blocks. rewrite elem_of_filter, elem_of_list_to_set, elem_of_seqZ. intuition lia. Qed.

Section inode.
Context `{BD : BlockDev}.

Lemma lrep_len s V H L U z : lrep (lt s) V H L U → home (lt s) z → length (V z) = BSIZE.
Proof.
  intros HL [Hz _]. pose proof (lr_brep _ _ _ _ _ HL) as HR. destruct (cached_cases (blk (lt s)) z) as [[b Hc]|Hn].
  - pose proof Hc as (B & _ & HB & _). destruct (cached_bufrep _ _ _ _ HR _ _ _ Hc HB) as (_ & Hl & _ & _ & _ & Hd & _).
    congruence.
  - eapply (br_disk _ _ _ _ HR). by apply (br_miss _ _ _ _ HR).
Qed.

(** ** Taking a block *)

(** The contents change from [V] to [V'] when the free block [b] is taken. *)
Record taken (s : fs) (sb : superblock) (V : Z → block) (b : Z) (V' : Z → block) : Prop := {
  tk_data : data s sb b;
  tk_free : used V (sb_ninodes sb) b = false;
  tk_zero : V' b = replicate BSIZE 0;
  tk_frame : ∀ y, ¬ in_log (lg (lt s)) y → y ≠ b → y ≠ bmblock sb → V' y = V y;
  tk_used : ∀ b', 0 ≤ b' < sb_size sb → used V' (sb_ninodes sb) b' = bool_decide (b' = b) || used V (sb_ninodes sb) b';
}.

#[global] Arguments tk_data {_} {_} {_} {_} {_} _.
#[global] Arguments tk_free {_} {_} {_} {_} {_} _.
#[global] Arguments tk_zero {_} {_} {_} {_} {_} _.
#[global] Arguments tk_frame {_} {_} {_} {_} {_} _.
#[global] Arguments tk_used {_} {_} {_} {_} {_} _.

Lemma taken_free s sb V b V' :
  layout s V sb → taken s sb V b V' → free_blocks s V' sb = free_blocks s V sb ∖ {[b]}.
Proof.
  intros HY HT. apply set_eq. intros x. rewrite elem_of_difference, !elem_free_blocks, elem_of_singleton.
  pose proof (ly_log HY). pose proof (ly_log_size HY).
  split.
  - intros [Hx Hu]. rewrite (tk_used HT) in Hu by lia. apply orb_false_elim in Hu as [Hu1 Hu2].
    apply bool_decide_eq_false in Hu1. done.
  - intros [[Hx Hu] Hne]. split; [done|]. rewrite (tk_used HT) by lia. by rewrite bool_decide_false, Hu.
Qed.

Lemma layout_keep s s' V V' sb :
  same_log (lt s) (lt s') → layout s V sb → V' 1 = V 1 →
  (∀ b, 0 ≤ b < dstart sb → used V (sb_ninodes sb) b = true → used V' (sb_ninodes sb) b = true) → layout s' V' sb.
Proof.
  intros (E1 & E2 & _ & E3) HY H1 Hu. destruct HY. constructor; rewrite ?E1, ?E2, ?E3, ?H1; try done. auto.
Qed.

Lemma alloc_spec s V H L sb :
  lrep (lt s) V H L ∅ → log_busy (lg (lt s)) ≠ 0 → layout s V sb →
  (∀ z, z ∈ dom H → data s sb z ∧ used V (sb_ninodes sb) z = true) →
  room s ({[bmblock sb]} ∪ (dom H ∪ list_to_set L)) 1 → free_blocks s V sb ≠ ∅ →
  wp (balloc 1) (λ b s', ∃ V' L', lrep (lt s') V' H L' ∅ ∧ same_fs s s' ∧ layout s' V' sb ∧
    taken s sb V b V' ∧ list_to_set L' = ({[b; bmblock sb]} ∪ list_to_set L : gset Z)) s.
Proof.
  intros HL Hb HY HH Hr Hfree. pose proof (bmblock_pos sb (ly_ninodes HY)) as Hp.
  assert (Hd : dstart sb = bmblock sb + 1) by done.
  assert (HBB : ∀ b, 0 ≤ b < sb_size sb → BBLOCK b (sb_ninodes sb) = bmblock sb).
  { intros b Hb'. apply BBLOCK_one. pose proof (ly_size HY). lia. }
  pose proof (balloc_spec s V H L) as Hspec. rewrite (ly_sb HY) in Hspec.
  eapply wp_mono; [apply Hspec; [done|done| | |by eapply layout_home_1|by apply layout_bitmap_ok|]|].
  - intros b Hb'. by rewrite HBB.
  - intros z Hz. destruct (HH z Hz) as [[Hz1 Hz2] Hu]. split; [lia|]. split; [done|]. intros b Hb'. rewrite HBB by done. lia.
  - apply set_choose_L in Hfree as [b0 Hb0]. apply elem_free_blocks in Hb0. eauto.
  - intros b s' (V' & HL' & Hs' & Hb' & Hu & _ & HV).
    pose proof (ly_log HY) as Hlog. pose proof (ly_log_size HY) as Hls. pose proof (ly_start HY) as Hst.
    assert (Hbd : dstart sb ≤ b).
    { destruct (Z.le_gt_cases (dstart sb) b); [done|]. rewrite (ly_meta HY) in Hu by lia. done. }
    rewrite HBB in HL' by lia.
    assert (Hnl : ∀ y, 0 ≤ y < log_start (lg (lt s)) → ¬ in_log (lg (lt s)) y) by (unfold in_log; lia).
    assert (Hlen : length (V (bmblock sb)) = BSIZE).
    { apply (lrep_len _ _ _ _ _ _ HL). eapply layout_home; [done|]. lia. }
    assert (HT : taken s sb V b V').
    { constructor.
      - split; [done|lia].
      - done.
      - rewrite HV by (apply Hnl; lia). unfold after_balloc. by rewrite decide_True.
      - intros y Hy Hyb Hym. rewrite HV by done. unfold after_balloc.
        rewrite decide_False by done. rewrite HBB by lia. by rewrite decide_False.
      - intros b' Hb''. unfold used. rewrite HBB by done. rewrite HV by (apply Hnl; lia).
        unfold after_balloc. rewrite HBB by lia. rewrite decide_False, decide_True by lia.
        pose proof (ly_size HY).
        rewrite !(Z.mod_small _ BPB) by lia. apply bit_set; [lia|]. rewrite Hlen. unfold BPB, BSIZE in *. lia. }
    exists V', (log_add b (log_add (bmblock sb) L)). split; [done|]. split; [done|].
    split; [|split; [done|rewrite !log_add_set; set_solver]].
    apply (layout_keep s s' V V' sb); [apply Hs'|done| |].
    + apply HT; [apply Hnl; lia|lia|lia].
    + intros b' Hb'' Hu'. rewrite (tk_used HT) by lia. rewrite Hu'. by rewrite orb_true_r.
Qed.

(** ** The blocks of an inode *)
Definition ind (i : inode) : Z := i_addrs i !!! NDIRECT.
Definition inds (i : inode) : list Z := if ind i =? 0 then [] else [ind i].

(** The inode [i] stands for the blocks [bs]: they and the indirect block are
    different data blocks in use, and the addresses behind them are 0. *)
Record file_map (s : fs) (V : Z → block) (sb : superblock) (i : inode) (bs : list Z) : Prop := {
  fm_len : length (i_addrs i) = S NDIRECT;
  fm_max : (length bs <= MAXFILE)%nat;
  fm_direct : ∀ k, (k < NDIRECT)%nat → i_addrs i !!! k = default 0 (bs !! k);
  fm_ind : ind i = 0 → (length bs <= NDIRECT)%nat;
  fm_entries : ∀ j, (j < NINDIRECT)%nat → ind i ≠ 0 →
    get_u32 (4 * j) (V (ind i)) = default 0 (bs !! (NDIRECT + j)%nat);
  fm_data : ∀ b, b ∈ inds i ++ bs → data s sb b ∧ used V (sb_ninodes sb) b = true;
  fm_nodup : NoDup (inds i ++ bs);
}.

#[global] Arguments fm_len {_} {_} {_} {_} {_} _.
#[global] Arguments fm_max {_} {_} {_} {_} {_} _.
#[global] Arguments fm_direct {_} {_} {_} {_} {_} _.
#[global] Arguments fm_ind {_} {_} {_} {_} {_} _.
#[global] Arguments fm_entries {_} {_} {_} {_} {_} _.
#[global] Arguments fm_data {_} {_} {_} {_} {_} _.
#[global] Arguments fm_nodup {_} {_} {_} {_} {_} _.

Lemma elem_inds i : ind i ≠ 0 → ind i ∈ inds i.
Proof. intros. unfold inds. rewrite (proj2 (Z.eqb_neq _ _)) by done. set_solver. Qed.

Lemma data_pos s V sb b : layout s V sb → data s sb b → 4 ≤ b.
Proof. intros HY [Hb _]. pose proof (bmblock_pos sb (ly_ninodes HY)). unfold dstart in Hb. lia. Qed.

Lemma wp_geti s ip i Q : icache s !! ip = Some i → Q i s → wp (geti ip) Q s.
Proof. intros Hi HQ. unfold wp, geti. by rewrite Hi. Qed.
Lemma wp_updi s ip i f (Q : unit → fs → Prop) :
  icache s !! ip = Some i → Q tt (mkFs (lt s) (<[ip := f i]> (icache s))) → wp (updi ip f) Q s.
Proof. intros Hi HQ. unfold wp, updi. by rewrite Hi. Qed.

(** [bmap] of a block that the inode has. *)
Lemma bmap_old s V L sb ip i bs bn a :
  lrep (lt s) V ∅ L ∅ → layout s V sb → icache s !! ip = Some i → i_dev i = 1 → file_map s V sb i bs →
  bs !! bn = Some a →
  wp (bmap ip (Z.of_nat bn)) (λ a' s', a' = a ∧ lrep (lt s') V ∅ L ∅ ∧ same_fs s s') s.
Proof.
  intros HL HY Hip Hdev HF Ha. pose proof (lookup_lt_Some _ _ _ Ha) as Hbn. pose proof (fm_max HF) as Hmax.
  assert (Hpos : 4 ≤ a).
  { eapply data_pos; [done|]. apply (fm_data HF). apply elem_of_app. right. by eapply list_elem_of_lookup_2. }
  unfold bmap. apply wp_bind. eapply wp_geti; [done|].
  destruct (Z.ltb_spec (Z.of_nat bn) (Z.of_nat NDIRECT)) as [Hlt|Hge].
  - rewrite Nat2Z.id, (fm_direct HF), Ha by lia. simpl.
    rewrite (proj2 (Z.eqb_neq _ _)) by lia. apply wp_ret. split; [done|]. split; [done|apply same_fs_refl].
  - replace (Z.of_nat bn - Z.of_nat NDIRECT) with (Z.of_nat (bn - NDIRECT)) by lia.
    unfold MAXFILE in Hmax. destruct (Z.ltb_spec (Z.of_nat (bn - NDIRECT)) (Z.of_nat NINDIRECT)) as [Hlt|]; [|lia].
    assert (Hind : ind i ≠ 0) by (intros E; apply (fm_ind HF) in E; lia). fold (ind i).
    rewrite (proj2 (Z.eqb_neq (ind i) 0)) by done. apply wp_bind, wp_ret. rewrite Hdev.
    assert (Hd : data s sb (ind i)) by (apply (fm_data HF), elem_of_app; left; by apply elem_inds).
    apply wp_bind. eapply wp_mono; [apply fs_bread_first; [done|by eapply data_home]|]. intros b s1 [HL1 Hs1].
    apply wp_bind. eapply fs_getbuf; [exact HL1|apply lookup_insert_eq|]. intros B HB _. rewrite HB, Nat2Z.id.
    rewrite (fm_entries HF) by (done || lia). replace (NDIRECT + (bn - NDIRECT))%nat with bn by lia.
    rewrite Ha. simpl. rewrite (proj2 (Z.eqb_neq a 0)) by lia. apply wp_bind, wp_ret.
    apply wp_bind. eapply wp_mono; [eapply fs_brelse; [exact HL1|apply lookup_insert_eq]|].
    intros _ s2 [HL2 Hs2]. rewrite delete_singleton_eq in HL2. apply wp_ret. split; [done|]. split; [done|by eapply same_fs_trans].
Qed.

(** ** How a file grows *)
Definition set_addrs (l : list Z) (i : inode) : inode :=
  mkInode (i_dev i) (i_inum i) (i_ref i) (i_flags i) (i_type i) (i_major i) (i_minor i) (i_nlink i) (i_size i) l.

(** The indirect block that may still have to be taken. *)
Definition spare (i : inode) : nat := if ind i =? 0 then 1 else 0.
(** The blocks that the log has or needs for the inode, the data blocks that
    are still to be written excepted. *)
Definition weight (sb : superblock) (i : inode) (L : list Z) : nat :=
  size ({[bmblock sb]} ∪ (list_to_set (inds i) ∪ list_to_set L) : gset Z) + spare i.
Definition fits (s : fs) (w : nat) : Prop := (w <= LOGSIZE)%nat ∧ Z.of_nat w ≤ log_size (lg (lt s)) - 1.

(** From the blocks [bs] of inode [i] in the contents [V] to [bs'] and [i'] in
    [V'], with writes to [k] data blocks of the file: the blocks that were added
    were free, no block of another file changes, and the room that is used in
    the log and in the bitmap is bounded. *)
Record grown (ip : nat) (sb : superblock) (k : nat)
    (s : fs) (V : Z → block) (L : list Z) (i : inode) (bs : list Z)
    (s' : fs) (V' : Z → block) (L' : list Z) (i' : inode) (bs' : list Z) : Prop := {
  gr_log : same_log (lt s) (lt s');
  gr_icache : icache s' = <[ip := i']> (icache s);
  gr_inode : i' = set_addrs (i_addrs i') i;
  gr_bs : bs `prefix_of` bs';
  gr_ind : ind i ≠ 0 → ind i' = ind i;
  gr_fresh : ∀ b, b ∈ inds i' ++ bs' → b ∈ inds i ++ bs ∨ used V (sb_ninodes sb) b = false;
  gr_used : ∀ b, 0 ≤ b < sb_size sb →
    used V' (sb_ninodes sb) b = bool_decide (b ∈ inds i' ++ bs') || used V (sb_ninodes sb) b;
  gr_frame : ∀ y, ¬ in_log (lg (lt s)) y → y ≠ bmblock sb → y ∉ inds i' ++ bs' → V' y = V y;
  gr_weight : (weight sb i' L' <= weight sb i L + k)%nat;
  gr_free : (size (free_blocks s V sb) + spare i' + length bs <= size (free_blocks s' V' sb) + spare i + length bs')%nat;
}.

#[global] Arguments gr_log {_} {_} {_} {_} {_} {_} {_} {_} {_} {_} {_} {_} {_} _.
#[global] Arguments gr_icache {_} {_} {_} {_} {_} {_} {_} {_} {_} {_} {_} {_} {_} _.
#[global] Arguments gr_inode {_} {_} {_} {_} {_} {_} {_} {_} {_} {_} {_} {_} {_} _.
#[global] Arguments gr_bs {_} {_} {_} {_} {_} {_} {_} {_} {_} {_} {_} {_} {_} _.
#[global] Arguments gr_ind {_} {_} {_} {_} {_} {_} {_} {_} {_} {_} {_} {_} {_} _.
#[global] Arguments gr_fresh {_} {_} {_} {_} {_} {_} {_} {_} {_} {_} {_} {_} {_} _.
#[global] Arguments gr_used {_} {_} {_} {_} {_} {_} {_} {_} {_} {_} {_} {_} {_} _.
#[global] Arguments gr_frame {_} {_} {_} {_} {_} {_} {_} {_} {_} {_} {_} {_} {_} _.
#[global] Arguments gr_weight {_} {_} {_} {_} {_} {_} {_} {_} {_} {_} {_} {_} {_} _.
#[global] Arguments gr_free {_} {_} {_} {_} {_} {_} {_} {_} {_} {_} {_} {_} {_} _.

Lemma same_log_trans t1 t2 t3 : same_log t1 t2 → same_log t2 t3 → same_log t1 t3.
Proof. unfold same_log. intuition congruence. Qed.
Lemma same_log_refl t : same_log t t.
Proof. by repeat split. Qed.

Lemma file_map_used s V sb i bs b : file_map s V sb i bs → b ∈ inds i ++ bs → used V (sb_ninodes sb) b = true.
Proof. intros HF Hb. by apply (fm_data HF). Qed.

Lemma inds_mono i i' b : (ind i ≠ 0 → ind i' = ind i) → b ∈ inds i → b ∈ inds i'.
Proof.
  intros Hi. unfold inds. destruct (Z.eqb_spec (ind i) 0) as [|Hne]; [set_solver|].
  rewrite (Hi Hne), (proj2 (Z.eqb_neq _ _)) by done. done.
Qed.

Lemma grown_blocks ip sb k s V L i bs s' V' L' i' bs' b :
  grown ip sb k s V L i bs s' V' L' i' bs' → b ∈ inds i ++ bs → b ∈ inds i' ++ bs'.
Proof.
  intros HG. rewrite !elem_of_app. intros [Hb|Hb]; [left; eapply inds_mono; [apply HG|done]|right].
  destruct (gr_bs HG) as [l ->]. set_solver.
Qed.

Lemma grown_refl ip sb s s' V L i bs :
  icache s !! ip = Some i → file_map s V sb i bs → same_fs s s' → grown ip sb 0 s V L i bs s' V L i bs.
Proof.
  intros Hip HF [Hic Hlog]. constructor; try done.
  - by rewrite Hic, list_insert_id.
  - by destruct i.
  - by left.
  - intros b _. case_bool_decide as Hb; [|done]. by eapply file_map_used.
  - lia.
  - unfold free_blocks. destruct Hlog as (E & _). by rewrite E.
Qed.

Lemma grown_trans ip sb k1 k2 s V L i bs s1 V1 L1 i1 bs1 s2 V2 L2 i2 bs2 :
  layout s V sb → grown ip sb k1 s V L i bs s1 V1 L1 i1 bs1 → grown ip sb k2 s1 V1 L1 i1 bs1 s2 V2 L2 i2 bs2 →
  file_map s2 V2 sb i2 bs2 → grown ip sb (k1 + k2) s V L i bs s2 V2 L2 i2 bs2.
Proof.
  intros HY H1 H2 HF. constructor.
  - eapply same_log_trans; [apply H1|apply H2].
  - rewrite (gr_icache H2), (gr_icache H1).
    by rewrite list_insert_insert_eq.
  - rewrite (gr_inode H2). rewrite (gr_inode H1). done.
  - etransitivity; [apply H1|apply H2].
  - intros Hi. rewrite (gr_ind H2); rewrite (gr_ind H1 Hi); done.
  - intros b Hb. destruct (gr_fresh H2 b Hb) as [Hb1|Hu].
    + by apply (gr_fresh H1).
    + right. destruct (fm_data HF b Hb) as [Hd _].
      rewrite (gr_used H1) in Hu; [by apply orb_false_elim in Hu as [_ Hu]|].
      destruct Hd as [Hd1 Hd2]. destruct (gr_log H1) as (E1 & _).
      destruct (gr_log H2) as (E2 & _). rewrite E2, E1 in Hd2.
      pose proof (bmblock_pos sb (ly_ninodes HY)). unfold dstart in Hd1. destruct HY. lia.
  - intros b Hb. rewrite (gr_used H2), (gr_used H1) by done.
    rewrite orb_assoc. f_equal. destruct (bool_decide (b ∈ inds i1 ++ bs1)) eqn:E; [|by rewrite orb_false_r].
    apply bool_decide_eq_true in E. rewrite bool_decide_true; [done|]. by eapply grown_blocks.
  - intros y Hy Hm Hn. rewrite (gr_frame H2), (gr_frame H1); try done.
    + intros Hb. apply Hn. by eapply grown_blocks.
    + destruct (gr_log H1) as (E1 & E2 & _). unfold in_log in *. by rewrite E1, E2.
  - pose proof (gr_weight H1). pose proof (gr_weight H2). lia.
  - pose proof (gr_free H1). pose proof (gr_free H2). lia.
Qed.

Lemma taken_keep s V V' sb i bs b x :
  layout s V sb → file_map s V sb i bs → taken s sb V b V' → x ∈ inds i ++ bs → V' x = V x.
Proof.
  intros HY HF HT Hx. destruct (fm_data HF _ Hx) as [Hd Hu]. destruct (data_range _ _ _ HY _ Hd) as (? & ? & ?).
  apply HT; [done| |lia]. intros ->. pose proof (tk_free HT). congruence.
Qed.

(** Taking the block [b] and storing into blocks of the file: what does not
    depend on where the address of [b] is kept. *)
Lemma taken_blocks s s' V V' V2 sb i bs b i' bs' :
  layout s V sb → file_map s V sb i bs → taken s sb V b V' → same_log (lt s) (lt s') →
  inds i' ++ bs' ≡ₚ b :: (inds i ++ bs) →
  V2 (bmblock sb) = V' (bmblock sb) →
  (∀ y, ¬ in_log (lg (lt s)) y → y ≠ bmblock sb → y ∉ inds i' ++ bs' → V2 y = V' y) →
  (∀ b, b ∈ inds i' ++ bs' → data s' sb b ∧ used V2 (sb_ninodes sb) b = true) ∧
  NoDup (inds i' ++ bs') ∧
  (∀ b, b ∈ inds i' ++ bs' → b ∈ inds i ++ bs ∨ used V (sb_ninodes sb) b = false) ∧
  (∀ b, 0 ≤ b < sb_size sb →
    used V2 (sb_ninodes sb) b = bool_decide (b ∈ inds i' ++ bs') || used V (sb_ninodes sb) b) ∧
  (∀ y, ¬ in_log (lg (lt s)) y → y ≠ bmblock sb → y ∉ inds i' ++ bs' → V2 y = V y) ∧
  (size (free_blocks s V sb) <= size (free_blocks s' V2 sb) + 1)%nat.
Proof.
  intros HY HF HT Hlog Hperm Hbm Hframe. pose proof Hlog as (E1 & E2 & _).
  assert (Hin : ∀ x, x ∈ inds i' ++ bs' ↔ x = b ∨ x ∈ inds i ++ bs).
  { intros x. by rewrite Hperm, elem_of_cons. }
  assert (Hdat : ∀ x, x ∈ inds i' ++ bs' → data s sb x).
  { intros x. rewrite Hin. intros [->|Hx]; [apply HT|by apply (fm_data HF)]. }
  assert (Hused : ∀ x, 0 ≤ x < sb_size sb →
    used V2 (sb_ninodes sb) x = bool_decide (x ∈ inds i' ++ bs') || used V (sb_ninodes sb) x).
  { intros x Hx. rewrite (layout_used _ _ _ HY V2 V') by done. rewrite (tk_used HT) by done.
    destruct (decide (x ∈ inds i ++ bs)) as [Ho|Ho].
    - rewrite (file_map_used _ _ _ _ _ _ HF Ho). by rewrite !orb_true_r.
    - f_equal. apply bool_decide_ext. rewrite Hin. naive_solver. }
  split_and!.
  - intros x Hx. pose proof (Hdat x Hx) as Hd. split; [unfold data; by rewrite E1|].
    rewrite Hused by (pose proof (data_range _ _ _ HY _ Hd); pose proof (bmblock_pos sb (ly_ninodes HY)); lia).
    by rewrite bool_decide_true.
  - rewrite Hperm. constructor; [|apply HF]. intros Hx. pose proof (file_map_used _ _ _ _ _ _ HF Hx).
    pose proof (tk_free HT). congruence.
  - intros x. rewrite Hin. intros [->|Hx]; [right; apply HT|by left].
  - done.
  - intros y Hy Hm Hn. rewrite Hframe by done. apply HT; [done| |done]. rewrite Hin in Hn. naive_solver.
  - assert (Hf : free_blocks s' V2 sb = free_blocks s V sb ∖ {[b]}).
    { rewrite <-(taken_free _ _ _ _ _ HY HT). apply set_eq. intros x. rewrite !elem_free_blocks, E1.
      pose proof (ly_log HY). pose proof (ly_log_size HY).
      split; (intros [Hx Hu]; split; [done|]);
        [rewrite (layout_used _ _ _ HY V' V2)|rewrite (layout_used _ _ _ HY V2 V')]; done || lia. }
    rewrite Hf, size_difference_alt. pose proof (subseteq_size (free_blocks s V sb ∩ {[b]}) {[b]}) as Hs.
    rewrite size_singleton in Hs. opose proof* Hs; [set_solver|]. lia.
Qed.

Lemma lookup_snoc_other {A} k (l : list A) x : k ≠ length l → (l ++ [x]) !! k = l !! k.
Proof.
  intros Hk. destruct (decide (k < length l)%nat); [by rewrite lookup_app_l|].
  rewrite !lookup_ge_None_2; rewrite ?length_app; simpl; lia || done.
Qed.

Lemma size_grow (X Y : gset Z) (l : list Z) : Y ⊆ list_to_set l ∪ X → (size Y <= size X + length l)%nat.
Proof.
  intros H. pose proof (subseteq_size _ _ H). pose proof (size_union_le (list_to_set l) X).
  assert (size (list_to_set l : gset Z) <= length l)%nat; [|lia].
  clear. induction l as [|x l IH]; [by rewrite list_to_set_nil, size_empty|].
  rewrite list_to_set_cons. simpl. pose proof (size_union_le {[x]} (list_to_set l : gset Z)) as H.
  rewrite size_singleton in H. lia.
Qed.

Lemma get_u32_zeros n off : (off + 4 <= n)%nat → get_u32 off (replicate n 0) = 0.
Proof.
  intros H. unfold get_u32, slice. rewrite drop_replicate, take_replicate, Nat.min_l by lia. done.
Qed.

Lemma ind_set_direct k a i : k ≠ NDIRECT → ind (iset_addr k a i) = ind i.
Proof. intros. unfold ind. simpl. by rewrite list_lookup_total_insert_ne. Qed.

(** The next block, a direct one. *)
Lemma grow_direct ip s s' V V' L L' sb i bs b :
  layout s V sb → file_map s V sb i bs → taken s sb V b V' → same_log (lt s) (lt s') →
  icache s' = <[ip := iset_addr (length bs) b i]> (icache s) → (length bs < NDIRECT)%nat →
  list_to_set L' = ({[b; bmblock sb]} ∪ list_to_set L : gset Z) →
  file_map s' V' sb (iset_addr (length bs) b i) (bs ++ [b]) ∧
  grown ip sb 1 s V L i bs s' V' L' (iset_addr (length bs) b i) (bs ++ [b]).
Proof.
  intros HY HF HT Hlog Hic Hlt HL'. set (i' := iset_addr (length bs) b i).
  assert (Hind : ind i' = ind i) by (apply ind_set_direct; lia).
  assert (Hinds : inds i' = inds i) by (unfold inds; by rewrite Hind).
  destruct (taken_blocks s s' V V' V' sb i bs b i' (bs ++ [b]) HY HF HT Hlog) as (Hd & Hnd & Hfr & Hu & Hfra & Hfree); [|done|done|].
  { rewrite Hinds, (assoc_L (++)). by rewrite (Permutation_app_comm _ [b]). }
  pose proof (fm_len HF) as Hlen.
  split; constructor; try done.
  - simpl. by rewrite length_insert.
  - rewrite length_app. unfold MAXFILE, NDIRECT in *. simpl. lia.
  - intros k Hk. simpl. destruct (decide (k = length bs)) as [->|Hne].
    + rewrite list_lookup_total_insert_eq by lia. by rewrite lookup_app_r, Nat.sub_diag by lia.
    + rewrite list_lookup_total_insert_ne by done. rewrite (fm_direct HF) by done. by rewrite lookup_snoc_other.
  - rewrite length_app. simpl. lia.
  - intros j Hj. rewrite Hind. intros Hi.
    rewrite (taken_keep _ _ _ _ _ _ _ _ HY HF HT) by (apply elem_of_app; left; by apply elem_inds).
    rewrite (fm_entries HF), lookup_snoc_other by (done || lia). done.
  - by exists [b].
  - unfold weight, spare. rewrite Hinds, Hind, HL'.
    pose proof (size_grow ({[bmblock sb]} ∪ (list_to_set (inds i) ∪ list_to_set L))
      ({[bmblock sb]} ∪ (list_to_set (inds i) ∪ ({[b; bmblock sb]} ∪ list_to_set L))) [b]) as Hs.
    opose proof* Hs; [rewrite list_to_set_singleton; set_solver|]. simpl in *. lia.
  - unfold spare. rewrite Hind, length_app. simpl. lia.
Qed.

(** The indirect block. *)
Lemma grow_ind ip s s' V V' L L' sb i bs b :
  layout s V sb → file_map s V sb i bs → taken s sb V b V' → same_log (lt s) (lt s') →
  icache s' = <[ip := iset_addr NDIRECT b i]> (icache s) → ind i = 0 →
  list_to_set L' = ({[b; bmblock sb]} ∪ list_to_set L : gset Z) →
  file_map s' V' sb (iset_addr NDIRECT b i) bs ∧
  grown ip sb 0 s V L i bs s' V' L' (iset_addr NDIRECT b i) bs.
Proof.
  intros HY HF HT Hlog Hic Hi HL'. set (i' := iset_addr NDIRECT b i). pose proof (fm_len HF) as Hlen.
  pose proof (data_range _ _ _ HY _ (tk_data HT)) as (_ & _ & Hpos).
  assert (Hind : ind i' = b) by (unfold ind, i'; simpl; rewrite list_lookup_total_insert_eq; [done|lia]).
  assert (Hinds : inds i' = [b]) by (unfold inds; rewrite Hind, (proj2 (Z.eqb_neq _ _)); [done|lia]).
  assert (Hinds0 : inds i = []) by (unfold inds; by rewrite Hi).
  destruct (taken_blocks s s' V V' V' sb i bs b i' bs HY HF HT Hlog) as (Hd & Hnd & Hfr & Hu & Hfra & Hfree); [|done|done|].
  { by rewrite Hinds, Hinds0. }
  pose proof (fm_ind HF Hi) as Hshort.
  split; constructor; try done.
  - simpl. by rewrite length_insert.
  - apply HF.
  - intros k Hk. simpl. rewrite list_lookup_total_insert_ne by lia. by apply (fm_direct HF).
  - intros j Hj _. rewrite Hind, (tk_zero HT). rewrite lookup_ge_None_2 by lia.
    apply get_u32_zeros. unfold BSIZE, NINDIRECT in *. lia.
  - unfold weight, spare. rewrite Hinds, Hinds0, Hind, Hi, HL'. rewrite (proj2 (Z.eqb_neq b 0)) by lia. simpl.
    pose proof (size_grow ({[bmblock sb]} ∪ (∅ ∪ list_to_set L))
      ({[bmblock sb]} ∪ (({[b]} ∪ ∅) ∪ ({[b; bmblock sb]} ∪ list_to_set L))) [b]) as Hs.
    opose proof* Hs; [rewrite list_to_set_singleton; set_solver|]. simpl in *. lia.
  - unfold spare. rewrite Hind, Hi. rewrite (proj2 (Z.eqb_neq b 0)) by lia. simpl. lia.
Qed.

(** The next block, named by the indirect block. *)
Lemma grow_indirect ip s s' V V' V2 L L' sb i bs b :
  layout s V sb → file_map s V sb i bs → taken s sb V b V' → same_log (lt s) (lt s') →
  icache s' = icache s → icache s !! ip = Some i → ind i ≠ 0 → (NDIRECT <= length bs < MAXFILE)%nat →
  length (V (ind i)) = BSIZE →
  agree s V2 (<[ind i := put_32 (4 * (length bs - NDIRECT)) b (V' (ind i))]> V') →
  list_to_set L' = ({[ind i; b; bmblock sb]} ∪ list_to_set L : gset Z) →
  file_map s' V2 sb i (bs ++ [b]) ∧ grown ip sb 1 s V L i bs s' V2 L' i (bs ++ [b]).
Proof.
  intros HY HF HT Hlog Hic Hip Hi Hlt Hlen HV2 HL'.
  pose proof (data_range _ _ _ HY _ (tk_data HT)) as (Hb1 & Hb2 & Hb3).
  assert (Hin : ind i ∈ inds i ++ bs) by (apply elem_of_app; left; by apply elem_inds).
  pose proof (data_range _ _ _ HY _ (proj1 (fm_data HF _ Hin))) as (Hi1 & Hi2 & Hi3).
  assert (Hbm : ¬ in_log (lg (lt s)) (bmblock sb)).
  { pose proof (ly_start HY). unfold dstart, in_log in *. lia. }
  destruct (taken_blocks s s' V V' V2 sb i bs b i (bs ++ [b]) HY HF HT Hlog) as (Hd & Hnd & Hfr & Hu & Hfra & Hfree).
  { by rewrite (assoc_L (++)), (Permutation_app_comm _ [b]). }
  { rewrite HV2 by done. by rewrite fn_lookup_insert_ne by lia. }
  { intros y Hy _ Hn. rewrite HV2 by done. rewrite fn_lookup_insert_ne; [done|]. set_solver. }
  pose proof (taken_keep _ _ _ _ _ _ _ _ HY HF HT Hin) as Hkeep.
  split; constructor; try done.
  - apply HF.
  - rewrite length_app. simpl. lia.
  - intros k Hk. rewrite (fm_direct HF) by done. by rewrite lookup_snoc_other by lia.
  - intros j Hj _. rewrite HV2 by done. rewrite fn_lookup_insert, Hkeep. unfold MAXFILE, NINDIRECT, BSIZE in *.
    destruct (decide (j = length bs - NDIRECT)%nat) as [->|Hne].
    + rewrite get_put_u32 by lia. rewrite lookup_app_r by lia.
      replace (_ + _ - _)%nat with O by lia. simpl. apply u32_small. pose proof (ly_size HY). unfold BPB in *. lia.
    + rewrite get_put_u32_ne by lia. rewrite (fm_entries HF) by (done || unfold NINDIRECT; lia).
      by rewrite lookup_snoc_other by lia.
  - by rewrite Hic, list_insert_id.
  - by destruct i.
  - by exists [b].
  - unfold weight. rewrite HL'.
    assert (Hii : ind i ∈ (list_to_set (inds i) : gset Z)) by (apply elem_of_list_to_set; by apply elem_inds).
    pose proof (size_grow ({[bmblock sb]} ∪ (list_to_set (inds i) ∪ list_to_set L))
      ({[bmblock sb]} ∪ (list_to_set (inds i) ∪ ({[ind i; b; bmblock sb]} ∪ list_to_set L))) [b]) as Hs.
    opose proof* Hs; [rewrite list_to_set_singleton; set_solver|]. simpl in *. lia.
  - rewrite length_app. simpl. lia.
Qed.

(** ** bmap of the next block *)
Lemma fits_room s w (X : gset Z) n : fits s w → (size X + n <= w)%nat → room s X n.
Proof. unfold fits, room. lia. Qed.
Lemma fits_le s w w' : (w' <= w)%nat → fits s w → fits s w'.
Proof. unfold fits. lia. Qed.
Lemma fits_same s s' w : same_log (lt s) (lt s') → fits s w → fits s' w.
Proof. intros (_ & E & _). unfold fits. by rewrite E. Qed.

Lemma size_weight sb i L (X : gset Z) :
  X ⊆ {[bmblock sb]} ∪ (list_to_set (inds i) ∪ list_to_set L) → (size X + spare i <= weight sb i L)%nat.
Proof. intros HX. apply subseteq_size in HX. unfold weight. lia. Qed.

Lemma size_nonempty (X : gset Z) : (0 < size X)%nat → X ≠ ∅.
Proof. intros H ->. rewrite size_empty in H. lia. Qed.

(** The first half of the branch for indirect blocks. *)
Lemma bmap_ind s V L sb ip i bs :
  lrep (lt s) V ∅ L ∅ → log_busy (lg (lt s)) ≠ 0 → layout s V sb → icache s !! ip = Some i → i_dev i = 1 →
  file_map s V sb i bs → fits s (weight sb i L + 2) → (spare i < size (free_blocks s V sb))%nat →
  wp (if i_addrs i !!! NDIRECT =? 0 then addr ← balloc (i_dev i); updi ip (iset_addr NDIRECT addr);; mret addr
      else mret (i_addrs i !!! NDIRECT)) (λ a s', ∃ V' L' i', lrep (lt s') V' ∅ L' ∅ ∧ layout s' V' sb ∧
    file_map s' V' sb i' bs ∧ grown ip sb 0 s V L i bs s' V' L' i' bs ∧ ind i' = a ∧ ind i' ≠ 0 ∧
    ∀ b, b ∈ bs → V' b = V b) s.
Proof.
  intros HL Hb HY Hip Hdev HF Hfit Hfree. fold (ind i). destruct (Z.eqb_spec (ind i) 0) as [Hi|Hi].
  - rewrite Hdev. apply wp_bind. eapply wp_mono; [apply (alloc_spec s V ∅ L sb); [done|done|done| | |]|].
    + intros z. rewrite dom_empty_L. set_solver.
    + eapply fits_room; [done|]. rewrite dom_empty_L.
      pose proof (size_weight sb i L ({[bmblock sb]} ∪ (∅ ∪ list_to_set L))) as Hs. opose proof* Hs; [set_solver|]. lia.
    + apply size_nonempty. lia.
    + intros b s1 (V1 & L1 & HL1 & Hs1 & HY1 & HT & HLs). pose proof Hs1 as [Hic Hlog].
      apply wp_bind. eapply wp_updi; [by rewrite Hic|]. apply wp_ret. rewrite Hic.
      set (s2 := mkFs (lt s1) _).
      destruct (grow_ind ip s s2 V V1 L L1 sb i bs b HY HF HT Hlog eq_refl Hi HLs) as [HF2 HG].
      assert (Hib : ind (iset_addr NDIRECT b i) = b).
      { unfold ind. simpl. rewrite list_lookup_total_insert_eq; [done|]. rewrite (fm_len HF). lia. }
      exists V1, L1, (iset_addr NDIRECT b i). split; [done|]. split; [by destruct HY1|].
      split; [done|]. split; [done|]. split; [done|]. split.
      * rewrite Hib. pose proof (data_range _ _ _ HY _ (tk_data HT)). lia.
      * intros x Hx. eapply taken_keep; [done..|]. set_solver.
  - apply wp_ret. exists V, L, i. split; [done|]. split; [done|]. split; [done|].
    split; [apply grown_refl; [done|done|apply same_fs_refl]|]. done.
Qed.

(** The second half: the entry in the indirect block. *)
Lemma bmap_entry s V L sb ip i bs :
  lrep (lt s) V ∅ L ∅ → log_busy (lg (lt s)) ≠ 0 → layout s V sb → icache s !! ip = Some i →
  file_map s V sb i bs → ind i ≠ 0 → (NDIRECT <= length bs < MAXFILE)%nat →
  fits s (weight sb i L + 2) → (0 < size (free_blocks s V sb))%nat →
  wp (bp ← lift (bread 1 (ind i));
      B ← lift (getbuf bp);
      let a := get_u32 (4 * (length bs - NDIRECT)) (b_data B) in
      addr ← (if a =? 0 then
                addr ← balloc 1;
                lift (bstore bp (put_32 (4 * (length bs - NDIRECT)) addr));;
                lift (log_write bp);;
                mret addr
              else mret a);
      lift (brelse bp);;
      mret addr) (λ a s', ∃ V' L', lrep (lt s') V' ∅ L' ∅ ∧ layout s' V' sb ∧
    file_map s' V' sb i (bs ++ [a]) ∧ grown ip sb 1 s V L i bs s' V' L' i (bs ++ [a]) ∧
    V' a = replicate BSIZE 0 ∧ (∀ b, b ∈ bs → V' b = V b) ∧ a ∈ L') s.
Proof.
  intros HL Hb HY Hip HF Hi Hlen Hfit Hfree.
  assert (Hin : ind i ∈ inds i ++ bs) by (apply elem_of_app; left; by apply elem_inds).
  destruct (fm_data HF _ Hin) as [Hdi Hui].
  assert (Hii : ind i ∈ (list_to_set (inds i) : gset Z)) by (apply elem_of_list_to_set; by apply elem_inds).
  apply wp_bind. eapply wp_mono; [apply fs_bread_first; [done|by eapply data_home]|]. intros bp s1 [HL1 Hs1].
  apply wp_bind. eapply fs_getbuf; [exact HL1|apply lookup_insert_eq|]. intros B HB HlenI. rewrite HB.
  unfold MAXFILE in Hlen. rewrite (fm_entries HF) by (done || lia). rewrite lookup_ge_None_2 by lia. simpl default.
  apply wp_bind. rewrite Z.eqb_refl.
  assert (HY1 : layout s1 V sb).
  { eapply layout_keep; [apply Hs1|done|done|done]. }
  apply wp_bind. eapply wp_mono; [apply (alloc_spec s1 V {[ind i := bp]} L sb); [done|by rewrite (same_fs_busy _ _ Hs1)|done| | |]|].
  { intros z. rewrite dom_singleton_L, elem_of_singleton. intros ->. by rewrite (same_fs_data _ _ _ _ Hs1). }
  { eapply same_fs_room_set; [done|]. eapply fits_room; [done|]. rewrite dom_singleton_L.
    pose proof (size_weight sb i L ({[bmblock sb]} ∪ ({[ind i]} ∪ list_to_set L))) as Hs. opose proof* Hs; [set_solver|]. lia. }
  { apply size_nonempty. destruct Hs1 as [_ (E & _)]. unfold free_blocks in *. by rewrite E. }
  intros b s2 (V2 & L2 & HL2 & Hs2 & HY2 & HT2 & HLs2).
  assert (Hs12 : same_fs s s2) by by eapply same_fs_trans.
  assert (HT : taken s sb V b V2).
  { destruct HT2 as [T1 T2 T3 T4 T5]. constructor; try done.
    - by rewrite <-(same_fs_data _ _ _ _ Hs1).
    - intros y Hy. apply T4. by rewrite (same_fs_in_log _ _ _ Hs1). }
  pose proof (taken_keep _ _ _ _ _ _ _ _ HY HF HT Hin) as Hkeep.
  assert (HlenV : length (V (ind i)) = BSIZE) by done.
  pose proof (data_range _ _ _ HY _ Hdi) as (Hi1 & Hi2 & Hi3).
  pose proof (data_range _ _ _ HY _ (tk_data HT)) as (Hb1 & Hb2 & Hb3).
  assert (Hsz : (size ({[ind i]} ∪ ({[b; bmblock sb]} ∪ list_to_set L) : gset Z) < weight sb i L + 2)%nat).
  { pose proof (size_grow ({[bmblock sb]} ∪ (list_to_set (inds i) ∪ list_to_set L))
      ({[ind i]} ∪ ({[b; bmblock sb]} ∪ list_to_set L)) [b]) as Hs.
    opose proof* Hs; [rewrite list_to_set_singleton; set_solver|]. unfold weight. simpl in *. lia. }
  eapply fs_store_log; [exact HL2|apply lookup_insert_eq|by rewrite (same_fs_busy _ _ Hs12)| | | |].
  { eapply same_fs_room_set; [exact Hs12|]. eapply fits_room; [done|]. rewrite HLs2.
    pose proof (subseteq_size ({[b; bmblock sb]} ∪ list_to_set L) ({[ind i]} ∪ ({[b; bmblock sb]} ∪ list_to_set L : gset Z))) as Hss.
    opose proof* Hss; [set_solver|]. lia. }
  { rewrite dom_singleton_L, HLs2. pose proof (room_NBUF _ _ _ _ _ ({[ind i]} ∪ ({[b; bmblock sb]} ∪ list_to_set L)) 1 HL2) as Hn.
    opose proof* Hn; [|lia]. eapply same_fs_room_set; [exact Hs12|]. eapply fits_room; [done|]. lia. }
  { rewrite Hkeep, length_put_32; [done|]. rewrite HlenV. unfold NINDIRECT, BSIZE in *. lia. }
  intros s3 V3 HL3 Hs3 HV3. apply wp_ret. apply wp_bind.
  eapply wp_mono; [eapply fs_brelse; [exact HL3|apply lookup_insert_eq]|].
  intros _ s4 [HL4 Hs4]. rewrite delete_singleton_eq in HL4. apply wp_ret.
  assert (Hs : same_fs s s4) by (do 2 (eapply same_fs_trans; [eassumption|]); done).
  assert (HV : agree s V3 (<[ind i := put_32 (4 * (length bs - NDIRECT)) b (V2 (ind i))]> V2)).
  { intros y Hy. apply HV3. by rewrite (same_fs_in_log _ _ _ Hs12). }
  exists V3, (log_add (ind i) L2). split; [done|].
  destruct (grow_indirect ip s s4 V V2 V3 L (log_add (ind i) L2) sb i bs b HY HF HT) as [HF4 HG4]; try done.
  { apply Hs. } { apply Hs. } { rewrite log_add_set, HLs2. set_solver. }
  split; [|split; [done|split; [done|split; [|split]]]].
  - pose proof (ly_start HY) as Hst. unfold dstart in Hst. pose proof (bmblock_pos sb (ly_ninodes HY)).
    assert (Hnl : ∀ y, 0 ≤ y < log_start (lg (lt s)) → ¬ in_log (lg (lt s)) y) by (unfold in_log; lia).
    eapply layout_keep; [apply Hs|done| |].
    + rewrite HV by (apply Hnl; lia). rewrite fn_lookup_insert_ne by lia. apply HT; [apply Hnl; lia|lia|lia].
    + intros x Hx Hux. rewrite (gr_used HG4) by (unfold dstart in Hx; pose proof (ly_log HY); pose proof (ly_log_size HY); lia).
      by rewrite Hux, orb_true_r.
  - assert (Hne : ind i ≠ b).
    { intros E. rewrite E in Hui. pose proof (tk_free HT). congruence. }
    rewrite HV, fn_lookup_insert_ne by done. apply HT.
  - intros x Hx. pose proof (fm_nodup HF) as Hnd. apply NoDup_app in Hnd as (_ & Hdis & _).
    assert (x ≠ ind i) by (intros E; rewrite E in Hx; apply (Hdis (ind i)); [by apply elem_inds|done]).
    assert (x ∈ inds i ++ bs) as Hx' by set_solver.
    pose proof (data_range _ _ _ HY _ (proj1 (fm_data HF _ Hx'))) as (_ & ? & _).
    rewrite HV, fn_lookup_insert_ne by done. apply (taken_keep _ _ _ _ _ _ _ _ HY HF HT Hx').
  - apply (elem_of_list_to_set (C := gset Z)). rewrite log_add_set, HLs2. set_solver.
Qed.

(** [bmap] of the block behind the last one appends a new block of zeros. *)
Lemma bmap_new s V L sb ip i bs :
  lrep (lt s) V ∅ L ∅ → log_busy (lg (lt s)) ≠ 0 → layout s V sb → icache s !! ip = Some i → i_dev i = 1 →
  file_map s V sb i bs → (length bs < MAXFILE)%nat → fits s (weight sb i L + 2) →
  ((if (length bs <? NDIRECT)%nat then 0 else spare i) < size (free_blocks s V sb))%nat →
  wp (bmap ip (Z.of_nat (length bs))) (λ a s', ∃ V' L' i', lrep (lt s') V' ∅ L' ∅ ∧ layout s' V' sb ∧
    file_map s' V' sb i' (bs ++ [a]) ∧ grown ip sb 1 s V L i bs s' V' L' i' (bs ++ [a]) ∧
    V' a = replicate BSIZE 0 ∧ (∀ b, b ∈ bs → V' b = V b) ∧ a ∈ L' ∧ ((length bs < NDIRECT)%nat → ind i' = ind i)) s.
Proof.
  intros HL Hb HY Hip Hdev HF Hmax Hfit Hfree. unfold bmap. apply wp_bind. eapply wp_geti; [done|].
  destruct (Z.ltb_spec (Z.of_nat (length bs)) (Z.of_nat NDIRECT)) as [Hlt|Hge].
  - rewrite Nat2Z.id, (fm_direct HF), lookup_ge_None_2 by lia. simpl default. rewrite Z.eqb_refl, Hdev.
    apply wp_bind. eapply wp_mono; [apply (alloc_spec s V ∅ L sb); [done|done|done| | |]|].
    + intros z. rewrite dom_empty_L. set_solver.
    + eapply fits_room; [done|]. rewrite dom_empty_L.
      pose proof (size_weight sb i L ({[bmblock sb]} ∪ (∅ ∪ list_to_set L))) as Hs. opose proof* Hs; [set_solver|]. lia.
    + apply size_nonempty. lia.
    + intros b s1 (V1 & L1 & HL1 & Hs1 & HY1 & HT & HLs). pose proof Hs1 as [Hic Hlog].
      apply wp_bind. eapply wp_updi; [by rewrite Hic|]. apply wp_ret. rewrite Hic. set (s2 := mkFs (lt s1) _).
      destruct (grow_direct ip s s2 V V1 L L1 sb i bs b HY HF HT Hlog eq_refl ltac:(lia) HLs) as [HF2 HG].
      exists V1, L1, (iset_addr (length bs) b i). split; [done|]. split; [by destruct HY1|]. split; [done|].
      split; [done|]. split; [apply HT|]. split; [|split].
      * intros x Hx. eapply taken_keep; [done..|]. set_solver.
      * apply (elem_of_list_to_set (C := gset Z)). rewrite HLs. set_solver.
      * intros _. apply ind_set_direct. lia.
  - replace (Z.of_nat (length bs) - Z.of_nat NDIRECT) with (Z.of_nat (length bs - NDIRECT)) by lia.
    pose proof Hmax as Hmax'. unfold MAXFILE in Hmax'.
    destruct (Z.ltb_spec (Z.of_nat (length bs - NDIRECT)) (Z.of_nat NINDIRECT)) as [_|]; [|lia].
    rewrite (proj2 (Nat.ltb_ge _ _)) in Hfree by lia.
    apply wp_bind. eapply wp_mono; [by apply bmap_ind|].
    intros a s1 (V1 & L1 & i1 & HL1 & HY1 & HF1 & HG1 & <- & Hi1 & HV1). rewrite Hdev, Nat2Z.id.
    pose proof (gr_log HG1) as Hlog1. pose proof (gr_weight HG1). pose proof (gr_free HG1).
    assert (spare i1 = 0%nat) by (unfold spare; by rewrite (proj2 (Z.eqb_neq _ _))).
    eapply wp_mono; [apply (bmap_entry s1 V1 L1 sb ip i1 bs)|].
    + done.
    + destruct Hlog1 as (_ & _ & E & _). by rewrite E.
    + done.
    + rewrite (gr_icache HG1). apply list_lookup_insert_eq. by eapply lookup_lt_Some.
    + done.
    + done.
    + lia.
    + eapply fits_same; [done|]. eapply fits_le; [|done]. lia.
    + lia.
    + intros a s2 (V2 & L2 & HL2 & HY2 & HF2 & HG2 & Hz & HV2 & HaL). exists V2, L2, i1. split; [done|]. split; [done|].
      split; [done|]. split; [by eapply (grown_trans _ _ 0 1)|]. split; [done|].
      split; [intros x Hx; by rewrite HV2, HV1|]. split; [done|lia].
Qed.

End inode.
