(* ===== verification/InodeProps.v ===== *)
(** * The contents of files (readi and writei of fs.c)

    The bytes that an inode stands for, and the correctness of [readi] and
    [writei] against them, on top of the lemmas of [Inode.v]. *)

From S2P Require Import Prelude Buf Bio Log Txn Fs FsProps Balloc Inode.

(** ** Bytes of a file *)

(** Byte [x] of the blocks [bs]. *)
Definition fbyte (V : Z → block) (bs : list Z) (x : nat) : option Z :=
  b ← bs !! (x / BSIZE)%nat; V b !! (x `mod` BSIZE)%nat.

(** The number of blocks that [n] bytes need. *)
Definition blocks_for (n : nat) : nat := (n + (BSIZE - 1)) / BSIZE.

(** The inode [i] stands for the bytes [c]. *)
Definition file_rep (s : fs) (V : Z → block) (sb : superblock) (i : inode) (bs : list Z) (c : list Z) : Prop :=
  file_map s V sb i bs ∧ i_size i = Z.of_nat (length c) ∧ length bs = blocks_for (length c) ∧
  ∀ x, (x < length c)%nat → fbyte V bs x = c !! x.

Lemma blocks_for_le n k : (blocks_for n <= k ↔ n <= BSIZE * k)%nat.
Proof.
  unfold blocks_for, BSIZE. pose proof (Nat.div_mod (n + (512 - 1)) 512). 
  pose proof (Nat.mod_upper_bound (n + (512 - 1)) 512). lia.
Qed.

Lemma blocks_for_mono a b : (a <= b → blocks_for a <= blocks_for b)%nat.
Proof. intros Hab. apply blocks_for_le. pose proof (proj1 (blocks_for_le b (blocks_for b))). lia. Qed.

Lemma blocks_for_max a b : blocks_for (Nat.max a b) = Nat.max (blocks_for a) (blocks_for b).
Proof.
  destruct (Nat.max_spec a b) as [[H ->]|[H ->]].
  - pose proof (blocks_for_mono a b). lia.
  - pose proof (blocks_for_mono b a). lia.
Qed.

Lemma div_BSIZE x : (x = BSIZE * (x / BSIZE) + x `mod` BSIZE ∧ x `mod` BSIZE < BSIZE)%nat.
Proof. split; [apply Nat.div_mod; unfold BSIZE; lia|apply Nat.mod_upper_bound; unfold BSIZE; lia]. Qed.

Lemma div_BSIZE_unique x q r : (x = BSIZE * q + r → r < BSIZE → x / BSIZE = q ∧ x `mod` BSIZE = r)%nat.
Proof.
  intros Hx Hr. destruct (div_BSIZE x) as [H1 H2]. unfold BSIZE in *. lia.
Qed.

Lemma u32_wraps a b : 0 ≤ a < 2 ^ 32 → 0 ≤ b < 2 ^ 32 → 2 ^ 32 ≤ a + b → u32 (a + b) < a.
Proof.
  intros. replace (a + b) with ((a + b - 2 ^ 32) + 1 * 2 ^ 32) by lia.
  unfold u32. rewrite Z.mod_add by lia. rewrite Z.mod_small; lia.
Qed.

Section content.
Context `{BD : BlockDev}.
Context (dsw : devsw).

(** ** Reading *)

(** The number of bytes of one turn of the loops of [readi] and [writei]. *)
Definition turn (off n : nat) : nat := Nat.min n (BSIZE - off `mod` BSIZE).

Lemma turn_eq off n : min (Z.of_nat n) (Z.of_nat BSIZE - Z.of_nat off `mod` Z.of_nat BSIZE) = Z.of_nat (turn off n).
Proof.
  rewrite <-Nat2Z.inj_mod. destruct (div_BSIZE off) as [_ Hm]. unfold min, turn.
  destruct (Z.ltb_spec (Z.of_nat n) (Z.of_nat BSIZE - Z.of_nat (off `mod` BSIZE))); lia.
Qed.

Lemma readi_loop_spec V L sb ip i bs : ∀ fuel s off n,
  lrep (lt s) V ∅ L ∅ → layout s V sb → icache s !! ip = Some i → i_dev i = 1 → file_map s V sb i bs →
  (n <= fuel)%nat → (off + n <= BSIZE * length bs)%nat →
  wp (readi_loop fuel ip (Z.of_nat off) (Z.of_nat n)) (λ r s', length r = n ∧
    (∀ x, (x < n)%nat → r !! x = fbyte V bs (off + x)) ∧ lrep (lt s') V ∅ L ∅ ∧ same_fs s s') s.
Proof.
  induction fuel as [|fuel IH]; intros s off n HL HY Hip Hdev HF Hn Hoff.
  { replace n with O by lia. apply wp_ret. split; [done|]. split; [lia|]. split; [done|apply same_fs_refl]. }
  cbn [readi_loop]. destruct (Z.ltb_spec 0 (Z.of_nat n)) as [Hpos|]; cycle 1.
  { replace n with O by lia. apply wp_ret. split; [done|]. split; [lia|]. split; [done|apply same_fs_refl]. }
  destruct (div_BSIZE off) as [Hdiv Hmod].
  assert (Hlt : (off / BSIZE < length bs)%nat) by (unfold BSIZE in *; nia).
  apply lookup_lt_is_Some in Hlt as [a Ha].
  apply wp_bind. eapply wp_geti; [done|].
  rewrite <-Nat2Z.inj_div. apply wp_bind. eapply wp_mono; [by eapply bmap_old|]. intros ? s1 (-> & HL1 & Hs1).
  assert (Hda : data s1 sb a).
  { rewrite (same_fs_data _ _ _ _ Hs1). apply (fm_data HF), elem_of_app. right. by eapply list_elem_of_lookup_2. }
  assert (HY1 : layout s1 V sb) by (eapply layout_keep; [apply Hs1|done..]).
  rewrite Hdev. apply wp_bind. eapply wp_mono; [apply fs_bread_first; [done|by eapply data_home]|]. intros bp s2 [HL2 Hs2].
  rewrite turn_eq, !Nat2Z.id, <-Nat2Z.inj_mod, Nat2Z.id. set (m := turn off n).
  assert (Hm : (0 < m <= n ∧ off `mod` BSIZE + m <= BSIZE)%nat) by (unfold m, turn; lia).
  apply wp_bind. eapply fs_getbuf; [exact HL2|apply lookup_insert_eq|]. intros B HB Hlen. rewrite HB.
  apply wp_bind. eapply wp_mono; [eapply fs_brelse; [exact HL2|apply lookup_insert_eq]|].
  intros _ s3 [HL3 Hs3]. rewrite delete_singleton_eq in HL3.
  assert (Hs : same_fs s s3) by (do 2 (eapply same_fs_trans; [eassumption|]); done).
  assert (u32 (Z.of_nat off + Z.of_nat m) = Z.of_nat (off + m)) as ->.
  { rewrite <-Nat2Z.inj_add. apply u32_small. pose proof (fm_max HF).
    unfold MAXFILE, NDIRECT, NINDIRECT, BSIZE in *. lia. }
  replace (Z.of_nat n - Z.of_nat m) with (Z.of_nat (n - m)) by lia.
  apply wp_bind. eapply wp_mono; [apply (IH s3 (off + m)%nat (n - m)%nat HL3)|].
  - eapply layout_keep; [apply Hs|done..].
  - destruct Hs as [-> _]. done.
  - done.
  - destruct HF. constructor; try done. intros b Hb. rewrite (same_fs_data _ _ _ _ Hs). auto.
  - lia.
  - lia.
  - intros r s4 (Hr & Hbytes & HL4 & Hs4). apply wp_ret. rewrite length_app, length_slice by lia.
    split; [lia|]. split; [|split; [done|by eapply same_fs_trans]].
    intros x Hx. destruct (decide (x < m)%nat) as [Hxm|Hxm].
    + rewrite lookup_app_l by (rewrite length_slice; lia). rewrite lookup_slice, decide_True by done.
      unfold fbyte. destruct (div_BSIZE_unique (off + x) (off / BSIZE) (off `mod` BSIZE + x)) as [-> ->]; [lia|lia|].
      by rewrite Ha.
    + rewrite lookup_app_r by (rewrite length_slice; lia). rewrite length_slice by lia. rewrite Hbytes by lia.
      f_equal. lia.
Qed.

(** C7: [readi] of a file, inside or outside of a transaction, for any offset
    and count: when the offset is behind the end of the file or the sum of the
    two wraps around, it returns -1; otherwise it returns the number of bytes
    between the offset and the end, the count at most, and exactly these bytes
    of the file. It does not panic and changes no block. *)
Theorem readi_correct s V L sb ip i bs c off n :
  lrep (lt s) V ∅ L ∅ → layout s V sb → icache s !! ip = Some i → i_dev i = 1 → i_type i ≠ T_DEV →
  file_rep s V sb i bs c → 0 ≤ off < 2 ^ 32 → 0 ≤ n < 2 ^ 32 →
  wp (readi dsw ip off n) (λ r s',
    r = (if (off <=? Z.of_nat (length c)) && (off + n <? 2 ^ 32) then
           let m := Z.min n (Z.of_nat (length c) - off) in (m, slice (Z.to_nat off) (Z.to_nat m) c)
         else (-1, [])) ∧
    lrep (lt s') V ∅ L ∅ ∧ same_fs s s') s.
Proof.
  intros HL HY Hip Hdev Hty (HF & Hsz & Hlen & Hby) Hoff Hn. unfold readi. apply wp_bind. eapply wp_geti; [done|].
  rewrite (proj2 (Z.eqb_neq _ _) Hty), Hsz.
  assert (Hmax : (length c <= BSIZE * length bs)%nat) by (rewrite <-blocks_for_le; lia).
  pose proof (fm_max HF) as Hfm. unfold MAXFILE, NDIRECT, NINDIRECT in Hfm.
  rewrite Z.gtb_ltb. destruct (Z.ltb_spec (Z.of_nat (length c)) off) as [Hgt|Hle].
  { rewrite (proj2 (Z.leb_gt _ _)) by lia. apply wp_ret. split; [done|]. split; [done|apply same_fs_refl]. }
  rewrite (proj2 (Z.leb_le _ _)) by lia. simpl orb. simpl andb.
  destruct (Z.ltb_spec (off + n) (2 ^ 32)) as [Hnw|Hw]; cycle 1.
  { assert (u32 (off + n) < off) by (by apply u32_wraps).
    rewrite (proj2 (Z.ltb_lt _ _)) by done. apply wp_ret. split; [done|]. split; [done|apply same_fs_refl]. }
  rewrite (u32_small (off + n)) by lia. rewrite (proj2 (Z.ltb_ge _ _)) by lia. rewrite Z.gtb_ltb.
  set (m := if Z.of_nat (length c) <? off + n then Z.of_nat (length c) - off else n).
  assert (Hm : m = Z.min n (Z.of_nat (length c) - off)).
  { unfold m. destruct (Z.ltb_spec (Z.of_nat (length c)) (off + n)); lia. }
  rewrite <-Hm. apply wp_bind. rewrite <-(Z2Nat.id off) at 1 by lia. rewrite <-(Z2Nat.id m) at 2 by lia.
  eapply wp_mono; [eapply readi_loop_spec; [done..| |]; lia|].
  intros r s' (Hr & Hbytes & HL' & Hs'). apply wp_ret. split; [|done]. f_equal.
  - apply s32_small. unfold BSIZE in *. lia.
  - apply list_eq. intros x. rewrite lookup_slice. case_decide as Hx.
    + rewrite Hbytes by done. apply Hby. lia.
    + apply lookup_ge_None_2. lia.
Qed.

(** ** Writing *)

Lemma fbyte_kept V V' bs x :
  (∀ b, b ∈ bs → V' b = V b) → fbyte V' bs x = fbyte V bs x.
Proof.
  intros HV. unfold fbyte. destruct (bs !! (x / BSIZE)%nat) as [b|] eqn:Hb; simpl; [|done].
  rewrite HV; [done|]. by eapply list_elem_of_lookup_2.
Qed.

(** A block of the file was stored into. *)
Section store.
Context (s s' : fs) (V V' : Z → block) (sb : superblock) (i : inode) (bs : list Z) (a : Z) (d : block).
Context (HY : layout s V sb) (HF : file_map s V sb i bs) (Ha : a ∈ bs) (Hs : same_fs s s').
Context (HV : agree s V' (<[a := d]> V)).

Lemma stored_data : bmblock sb < a ∧ ¬ in_log (lg (lt s)) (bmblock sb) ∧ ¬ in_log (lg (lt s)) 1.
Proof.
  assert (Hin : a ∈ inds i ++ bs) by set_solver. destruct (fm_data HF _ Hin) as [Hd _].
  destruct (data_range _ _ _ HY _ Hd) as (? & _). pose proof (ly_start HY).
  pose proof (bmblock_pos sb (ly_ninodes HY)). unfold dstart, in_log in *. lia.
Qed.

Lemma stored_used b : 0 ≤ b < sb_size sb → used V' (sb_ninodes sb) b = used V (sb_ninodes sb) b.
Proof.
  intros Hb. destruct stored_data as (? & ? & _). eapply layout_used; [done| |done].
  rewrite HV by done. by rewrite fn_lookup_insert_ne by lia.
Qed.

Lemma layout_stored : layout s' V' sb.
Proof.
  destruct stored_data as (? & ? & ?). pose proof (bmblock_pos sb (ly_ninodes HY)).
  pose proof (ly_log HY). pose proof (ly_log_size HY). pose proof (ly_start HY).
  eapply layout_keep; [apply Hs|done| |].
  - rewrite HV by done. by rewrite fn_lookup_insert_ne by lia.
  - intros b Hb. rewrite stored_used by lia. done.
Qed.

Lemma file_map_stored : file_map s' V' sb i bs.
Proof.
  pose proof (fm_nodup HF) as Hnd. apply NoDup_app in Hnd as (_ & Hdis & _).
  pose proof (fm_data HF) as Hd. destruct HF. constructor; try done.
  - intros j Hj Hi.
    assert (Hin : ind i ∈ inds i ++ bs) by (apply elem_of_app; left; by apply elem_inds).
    assert (a ≠ ind i) by (intros E; rewrite E in Ha; apply (Hdis (ind i)); [by apply elem_inds|done]).
    rewrite HV by apply (data_range _ _ _ HY _ (proj1 (Hd _ Hin))). rewrite fn_lookup_insert_ne by done. auto.
  - intros b Hb. rewrite (same_fs_data _ _ _ _ Hs). destruct (Hd b Hb) as [Hd1 Hd2]. split; [done|].
    rewrite stored_used; [done|]. destruct (data_range _ _ _ HY _ Hd1) as (? & _). pose proof (bmblock_pos sb (ly_ninodes HY)). lia.
Qed.

Lemma fbyte_stored x :
  (x < BSIZE * length bs)%nat →
  fbyte V' bs x = if decide (bs !! (x / BSIZE)%nat = Some a) then d !! (x `mod` BSIZE)%nat else fbyte V bs x.
Proof.
  intros Hx. destruct (div_BSIZE x) as [Hd Hm].
  assert (Hlt : (x / BSIZE < length bs)%nat) by (unfold BSIZE in *; nia).
  apply lookup_lt_is_Some in Hlt as [b Hb]. unfold fbyte. rewrite Hb. simpl.
  assert (Hin : b ∈ inds i ++ bs) by (apply elem_of_app; right; by eapply list_elem_of_lookup_2).
  rewrite HV by apply (data_range _ _ _ HY _ (proj1 (fm_data HF _ Hin))).
  case_decide as E.
  - assert (b = a) as -> by congruence. by rewrite fn_lookup_insert.
  - rewrite fn_lookup_insert_ne; [done|congruence].
Qed.

Lemma grown_stored ip k s0 V0 L0 i0 bs0 L L' :
  layout s0 V0 sb → grown ip sb k s0 V0 L0 i0 bs0 s V L i bs → (weight sb i L' <= weight sb i0 L0 + k)%nat →
  grown ip sb k s0 V0 L0 i0 bs0 s' V' L' i bs.
Proof.
  intros HY0 HG Hw. pose proof (gr_log HG) as Hlog0. pose proof Hlog0 as (E1 & E2 & E3 & E4). pose proof Hs as [Hic Hlog].
  constructor; try apply HG.
  - by eapply same_log_trans.
  - rewrite Hic. apply HG.
  - intros b Hb. rewrite stored_used by done. by apply (gr_used HG).
  - intros y Hy Hm Hn. rewrite HV by (unfold in_log in *; by rewrite E1, E2).
    rewrite fn_lookup_insert_ne by set_solver. by apply (gr_frame HG).
  - done.
  - replace (free_blocks s' V' sb) with (free_blocks s V sb); [apply HG|].
    apply set_eq. intros x. rewrite !elem_free_blocks. destruct Hlog as (F & _). rewrite F.
    pose proof (ly_log HY). pose proof (ly_log_size HY).
    split; (intros [Hx Hu]; split; [done|]); [rewrite stored_used|rewrite <-stored_used]; done || lia.
Qed.

End store.

Lemma grown_weaken ip sb k k' s V L i bs s' V' L' i' bs' :
  (k <= k')%nat → grown ip sb k s V L i bs s' V' L' i' bs' → grown ip sb k' s V L i bs s' V' L' i' bs'.
Proof. intros Hk []. constructor; try done. lia. Qed.

(** [bmap] of a block of the file or of the next one. *)
Lemma bmap_any s V L sb ip i bs bn :
  lrep (lt s) V ∅ L ∅ → log_busy (lg (lt s)) ≠ 0 → layout s V sb → icache s !! ip = Some i → i_dev i = 1 →
  file_map s V sb i bs → (bn <= length bs)%nat → (bn < MAXFILE)%nat → fits s (weight sb i L + 2) →
  (bn = length bs → ((if (bn <? NDIRECT)%nat then 0 else spare i) < size (free_blocks s V sb))%nat) →
  wp (bmap ip (Z.of_nat bn)) (λ a s', ∃ V' L' i' bs', lrep (lt s') V' ∅ L' ∅ ∧ layout s' V' sb ∧
    file_map s' V' sb i' bs' ∧ grown ip sb 1 s V L i bs s' V' L' i' bs' ∧ bs' !! bn = Some a ∧
    length bs' = Nat.max (length bs) (S bn) ∧
    (∀ x, (x < BSIZE * length bs')%nat →
       fbyte V' bs' x = if decide (x < BSIZE * length bs)%nat then fbyte V bs x else Some 0) ∧
    (weight sb i' (log_add a L') <= weight sb i L + 1)%nat ∧ ((bn < NDIRECT)%nat → ind i' = ind i) ∧
    ((bn < length bs)%nat → i' = i)) s.
Proof.
  intros HL Hb HY Hip Hdev HF Hbn Hmax Hfit Hfree. destruct (decide (bn = length bs)) as [->|Hne].
  - eapply wp_mono; [apply bmap_new; try done; auto|].
    intros a s1 (V1 & L1 & i1 & HL1 & HY1 & HF1 & HG1 & Hz & HV1 & HaL & Hind). exists V1, L1, i1, (bs ++ [a]).
    split; [done|]. split; [done|]. split; [done|]. split; [done|].
    split; [by rewrite lookup_app_r, Nat.sub_diag by lia|]. split; [rewrite length_app; simpl; lia|].
    split; [|split; [unfold log_add; rewrite decide_True by done; apply HG1|split; [done|lia]]].
    intros x Hx. rewrite length_app in Hx. simpl in Hx. destruct (div_BSIZE x) as [Hdiv Hmod].
    case_decide as Hlt.
    + rewrite <-(fbyte_kept V V1) by done. unfold fbyte. rewrite lookup_app_l; [done|]. unfold BSIZE in *. nia.
    + assert (x / BSIZE = length bs)%nat as E by (unfold BSIZE in *; nia).
      unfold fbyte. rewrite E, lookup_app_r, Nat.sub_diag by lia. simpl. rewrite Hz. by apply lookup_replicate_2.
  - assert (is_Some (bs !! bn)) as [a Ha] by (apply lookup_lt_is_Some; lia).
    eapply wp_mono; [by eapply bmap_old|]. intros ? s1 (-> & HL1 & Hs1). exists V, L, i, bs.
    assert (HF1 : file_map s1 V sb i bs).
    { destruct HF. constructor; try done. intros b Hb'. rewrite (same_fs_data _ _ _ _ Hs1). auto. }
    split; [done|]. split; [eapply layout_keep; [apply Hs1|done..]|]. split; [done|].
    split; [|split; [done|split; [lia|split; [|split; [|done]]]]].
    + eapply grown_weaken; [|by apply grown_refl]. lia.
    + intros x Hx. by rewrite decide_True.
    + unfold weight. rewrite log_add_set.
      pose proof (size_grow ({[bmblock sb]} ∪ (list_to_set (inds i) ∪ list_to_set L))
        ({[bmblock sb]} ∪ (list_to_set (inds i) ∪ ({[a]} ∪ list_to_set L))) [a]) as Hs.
      opose proof* Hs; [rewrite list_to_set_singleton; set_solver|]. simpl in *. lia.
Qed.

(** The blocks that a write of [n] bytes at [off] touches. *)
Definition touched (off n : nat) : nat := if (n =? 0)%nat then 0 else blocks_for (off + n) - off / BSIZE.

(** The blocks that have to be free for a file with the blocks [bs] to reach the
    size [e]. *)
Definition need (i : inode) (bs : list Z) (e : nat) : nat :=
  (blocks_for e - length bs) + (if (NDIRECT <? blocks_for e)%nat then spare i else 0).

Lemma blocks_for_lt n k : (k < blocks_for n ↔ BSIZE * k < n)%nat.
Proof. pose proof (blocks_for_le n k). lia. Qed.

Lemma touched_turn off n :
  (0 < n)%nat → (1 <= touched off n ∧ touched (off + turn off n) (n - turn off n) = touched off n - 1 ∧
    0 < turn off n <= n ∧ off `mod` BSIZE + turn off n <= BSIZE ∧
    off / BSIZE < blocks_for (off + n))%nat.
Proof.
  intros Hn. destruct (div_BSIZE off) as [Hd Hm].
  assert (Hlt : (off / BSIZE < blocks_for (off + n))%nat) by (apply blocks_for_lt; lia).
  unfold touched. rewrite (proj2 (Nat.eqb_neq n 0)) by lia.
  split; [lia|]. split; [|unfold turn in *; lia].
  destruct (Nat.eqb_spec (n - turn off n) 0) as [E|E].
  - assert (blocks_for (off + n) <= S (off / BSIZE))%nat; [|lia]. apply blocks_for_le. unfold turn in E. lia.
  - replace (off + turn off n + (n - turn off n))%nat with (off + n)%nat by (unfold turn in *; lia).
    destruct (div_BSIZE_unique (off + turn off n) (S (off / BSIZE)) 0) as [-> _]; [unfold turn in *; lia|unfold BSIZE; lia|]. lia.
Qed.

(** One turn of the loop: the bytes [src] into one block. *)
Lemma writei_turn {A} s V L sb ip i bs off src (rest : M fs A) Q :
  lrep (lt s) V ∅ L ∅ → log_busy (lg (lt s)) ≠ 0 → layout s V sb → icache s !! ip = Some i → i_dev i = 1 →
  file_map s V sb i bs → (off <= BSIZE * length bs)%nat → (off / BSIZE < MAXFILE)%nat →
  (off `mod` BSIZE + length src <= BSIZE)%nat → fits s (weight sb i L + 2) →
  (off / BSIZE = length bs → ((if (off / BSIZE <? NDIRECT)%nat then 0 else spare i) < size (free_blocks s V sb)))%nat →
  (∀ s' V' L' i' bs', lrep (lt s') V' ∅ L' ∅ → layout s' V' sb → file_map s' V' sb i' bs' →
    grown ip sb 1 s V L i bs s' V' L' i' bs' → length bs' = Nat.max (length bs) (S (off / BSIZE)) →
    ((off / BSIZE < NDIRECT)%nat → ind i' = ind i) → ((off / BSIZE < length bs)%nat → i' = i) →
    (∀ x, (x < BSIZE * length bs')%nat → fbyte V' bs' x =
      if decide (off <= x < off + length src)%nat then src !! (x - off)%nat
      else if decide (x < BSIZE * length bs)%nat then fbyte V bs x else Some 0) → wp rest Q s') →
  wp (addr ← bmap ip (Z.of_nat (off / BSIZE));
      bp ← lift (bread 1 addr);
      lift (bstore bp (splice (off `mod` BSIZE) src));;
      lift (log_write bp);;
      lift (brelse bp);;
      rest) Q s.
Proof.
  intros HL Hb HY Hip Hdev HF Hoff Hmax Hsrc Hfit Hfree HQ. destruct (div_BSIZE off) as [Hdiv Hmod].
  apply wp_bind. eapply wp_mono; [apply (bmap_any s V L sb ip i bs (off / BSIZE)); try done; unfold BSIZE in *; nia|].
  intros a s1 (V1 & L1 & i1 & bs1 & HL1 & HY1 & HF1 & HG1 & Ha & Hlen1 & Hby1 & Hw1 & Hind & Hsame).
  assert (Hain : a ∈ bs1) by (by eapply list_elem_of_lookup_2).
  assert (Hda : data s1 sb a) by (apply (fm_data HF1), elem_of_app; by right).
  pose proof (gr_log HG1) as Hlog1. pose proof Hlog1 as (_ & _ & Ebusy & _).
  apply wp_bind. eapply wp_mono; [apply fs_bread_first; [done|by eapply data_home]|]. intros bp s2 [HL2 Hs2].
  assert (Hlen : length (V1 a) = BSIZE) by (eapply lrep_len; [exact HL1|by eapply data_home]).
  assert (Hsz : (size (dom ({[a := bp]} : gmap Z nat) ∪ list_to_set L1) <= weight sb i L + 1)%nat).
  { rewrite dom_singleton_L, <-log_add_set. pose proof (size_weight sb i1 (log_add a L1) (list_to_set (log_add a L1))) as Hs.
    opose proof* Hs; [etransitivity; [|apply union_subseteq_r]; apply union_subseteq_r|]. lia. }
  eapply fs_logged; [exact HL2|apply lookup_insert_eq|by rewrite (same_fs_busy _ _ Hs2), Ebusy| | | |].
  - eapply same_fs_room_set; [done|]. eapply fits_room; [eapply fits_same; done|].
    pose proof (subseteq_size (list_to_set L1) (dom ({[a := bp]} : gmap Z nat) ∪ list_to_set L1)) as Hss.
    opose proof* Hss; [apply union_subseteq_r|]. lia.
  - pose proof (room_NBUF _ _ _ _ _ (dom ({[a := bp]} : gmap Z nat) ∪ list_to_set L1) 1 HL2) as Hn.
    opose proof* Hn; [|lia]. eapply same_fs_room_set; [done|]. eapply fits_room; [eapply fits_same; done|]. lia.
  - rewrite length_splice; [done|]. by rewrite Hlen.
  - intros s3 V3 HL3 Hs3 HV3. rewrite delete_singleton_eq in HL3.
    assert (Hs13 : same_fs s1 s3) by by eapply same_fs_trans.
    assert (HV : agree s1 V3 (<[a := splice (off `mod` BSIZE) src (V1 a)]> V1)).
    { intros y Hy. apply HV3. by rewrite (same_fs_in_log _ _ _ Hs2). }
    apply (HQ s3 V3 (log_add a L1) i1 bs1).
    + done.
    + by eapply layout_stored.
    + by eapply file_map_stored.
    + by eapply grown_stored.
    + done.
    + done.
    + done.
    + intros x Hx. rewrite (fbyte_stored s1 V1 V3 sb i1 bs1 a _ HY1 HF1 HV) by done.
      destruct (div_BSIZE x) as [Hxd Hxm].
      case_decide as E.
      * assert (x / BSIZE = off / BSIZE)%nat as Ex.
        { eapply NoDup_lookup; [|exact E|exact Ha]. pose proof (fm_nodup HF1) as Hnd. by apply NoDup_app in Hnd as (_ & _ & ?). }
        rewrite Ex in Hxd. rewrite lookup_splice by lia. destruct (decide (off <= x < off + length src)%nat) as [Hi|Hi].
        -- rewrite decide_True by lia. f_equal. lia.
        -- rewrite decide_False by lia. rewrite <-Hby1 by done. unfold fbyte. by rewrite E.
      * rewrite Hby1 by done. rewrite (decide_False (P := (off <= x < off + length src)%nat)); [done|].
        intros Hi. apply E. destruct (div_BSIZE_unique x (off / BSIZE) (off `mod` BSIZE + (x - off))) as [-> _]; [lia|lia|done].
Qed.

(** What is needed for one turn, and what is left for the next. *)
Lemma need_turn i bs free off e :
  (off / BSIZE < blocks_for e)%nat → (need i bs e <= free)%nat → (off / BSIZE)%nat = length bs →
  ((if (off / BSIZE <? NDIRECT) then 0 else spare i) < free)%nat.
Proof.
  intros He Hn E. unfold need in Hn. destruct (Nat.ltb_spec (off / BSIZE) NDIRECT); [lia|].
  rewrite (proj2 (Nat.ltb_lt NDIRECT _)) in Hn by lia. lia.
Qed.

Lemma need_next i i' bs bs' free free' off e :
  (off / BSIZE < blocks_for e)%nat → (need i bs e <= free)%nat → length bs' = Nat.max (length bs) (S (off / BSIZE)) →
  (off / BSIZE <= length bs)%nat → ((off / BSIZE < NDIRECT)%nat → ind i' = ind i) →
  (free + spare i' + length bs <= free' + spare i + length bs')%nat → (need i' bs' e <= free')%nat.
Proof.
  intros He Hn Hlen Hle Hind Hfree. unfold need in *. destruct (Nat.ltb_spec NDIRECT (blocks_for e)); [lia|].
  assert (spare i' = spare i) by (unfold spare; rewrite Hind by lia; done). lia.
Qed.

Lemma writei_loop_spec sb ip : ∀ fuel s V L i bs src off n,
  lrep (lt s) V ∅ L ∅ → log_busy (lg (lt s)) ≠ 0 → layout s V sb → icache s !! ip = Some i → i_dev i = 1 →
  file_map s V sb i bs → (n <= fuel)%nat → (n <= length src)%nat →
  (off <= BSIZE * length bs)%nat → (off + n <= MAXFILE * BSIZE)%nat →
  fits s (weight sb i L + touched off n + 1) → (need i bs (off + n) <= size (free_blocks s V sb))%nat →
  wp (writei_loop fuel ip src (Z.of_nat off) (Z.of_nat n)) (λ r s', r = Z.of_nat (off + n) ∧
    ∃ V' L' i' bs', lrep (lt s') V' ∅ L' ∅ ∧ layout s' V' sb ∧ file_map s' V' sb i' bs' ∧
    grown ip sb (touched off n) s V L i bs s' V' L' i' bs' ∧
    length bs' = Nat.max (length bs) (blocks_for (off + n)) ∧
    ((blocks_for (off + n) <= length bs)%nat → i' = i) ∧
    ∀ x, (x < BSIZE * length bs')%nat → fbyte V' bs' x =
      if decide (off <= x < off + n)%nat then src !! (x - off)%nat
      else if decide (x < BSIZE * length bs)%nat then fbyte V bs x else Some 0) s.
Proof.
  induction fuel as [|fuel IH]; intros s V L i bs src off n HL Hb HY Hip Hdev HF Hn Hsrc Hoff Hmax Hfit Hneed.
  all: destruct (decide (n = O)) as [->|Hpos]; [|try lia].
  1, 2: rewrite Nat.add_0_r; assert (H : ∀ x, ¬ (off <= x < off)%nat) by lia; apply wp_ret; split; [done|];
    exists V, L, i, bs; split; [done|]; split; [done|]; split; [done|];
    split; [apply grown_refl; [done|done|apply same_fs_refl]|];
    split; [pose proof (proj2 (blocks_for_le off (length bs)) Hoff); lia|]; split; [done|];
    intros x Hx; by rewrite decide_False, decide_True by auto.
  cbn [writei_loop]. rewrite (proj2 (Z.ltb_lt 0 (Z.of_nat n))) by lia.
  destruct (touched_turn off n ltac:(lia)) as (Ht & Htn & Hm1 & Hm2 & Hbn). destruct (div_BSIZE off) as [Hdiv Hmod].
  apply wp_bind. eapply wp_geti; [done|].
  rewrite turn_eq, <-Nat2Z.inj_div, <-Nat2Z.inj_mod, !Nat2Z.id, Hdev. set (m := turn off n) in *.
  rewrite (proj2 (Nat.ltb_ge _ _)) by lia.
  assert (u32 (Z.of_nat off + Z.of_nat m) = Z.of_nat (off + m)) as ->.
  { rewrite <-Nat2Z.inj_add. apply u32_small. unfold MAXFILE, NDIRECT, NINDIRECT, BSIZE in *. lia. }
  replace (Z.of_nat n - Z.of_nat m) with (Z.of_nat (n - m)) by lia.
  assert (Hlt : (length (take m src) = m)%nat) by (rewrite length_take; lia).
  assert (Hob : (off / BSIZE <= length bs)%nat) by (unfold BSIZE in *; nia).
  apply (writei_turn s V L sb ip i bs off (take m src)); try done.
  - apply Nat.Div0.div_lt_upper_bound. lia.
  - lia.
  - eapply fits_le; [|done]. lia.
  - by apply (need_turn i bs _ off (off + n)).
  - intros s1 V1 L1 i1 bs1 HL1 HY1 HF1 HG1 Hlen1 Hind1 Hsame1 Hby1. rewrite Hlt in Hby1.
    pose proof (gr_log HG1) as Hlog1. pose proof (gr_weight HG1) as Hw1.
    pose proof (need_next i i1 bs bs1 _ _ off (off + n) Hbn Hneed Hlen1 Hob Hind1 (gr_free HG1)) as Hneed1.
    assert (Hend : (off + m + (n - m) = off + n)%nat) by lia.
    eapply wp_mono; [apply (IH s1 V1 L1 i1 bs1 (drop m src) (off + m) (n - m))%nat|].
    + done.
    + destruct Hlog1 as (_ & _ & E & _). by rewrite E.
    + done.
    + rewrite (gr_icache HG1). apply list_lookup_insert_eq. by eapply lookup_lt_Some.
    + rewrite (gr_inode HG1). done.
    + done.
    + lia.
    + rewrite length_drop. lia.
    + rewrite Hlen1. unfold BSIZE in *. nia.
    + lia.
    + eapply fits_same; [done|]. eapply fits_le; [|done]. lia.
    + by rewrite Hend.
    + intros r s2 (-> & V2 & L2 & i2 & bs2 & HL2 & HY2 & HF2 & HG2 & Hlen2 & Hsame2 & Hby2). rewrite Hend in *.
      split; [done|]. exists V2, L2, i2, bs2. split; [done|]. split; [done|]. split; [done|].
      split; [|split; [rewrite Hlen2, Hlen1; lia|split; [intros Hbe; rewrite Hsame2, Hsame1; lia || done|]]].
      * replace (touched off n) with (1 + touched (off + m) (n - m))%nat by lia. by eapply grown_trans.
      * intros x Hx. rewrite Hby2 by done.
        destruct (decide (off + m <= x < off + n)%nat) as [H1|H1].
        { rewrite decide_True by lia. rewrite lookup_drop. f_equal. lia. }
        destruct (decide (x < BSIZE * length bs1)%nat) as [H2|H2].
        { rewrite Hby1 by done. destruct (decide (off <= x < off + m)%nat) as [H3|H3].
          - rewrite decide_True by lia. rewrite lookup_take_lt by lia. done.
          - by rewrite (decide_False (P := (off <= x < off + n)%nat)) by lia. }
        rewrite decide_False by (unfold BSIZE in *; nia). rewrite decide_False by (unfold BSIZE in *; lia). done.
Qed.

(** ** The inode on disk *)
Definition synced (V : Z → block) (i : inode) : Prop :=
  get_dinode (dinode_off (i_inum i)) (V (IBLOCK (i_inum i))) = dinode_of i.

Lemma get_s16_range o d : - 2 ^ 15 ≤ get_s16 o d < 2 ^ 15.
Proof. unfold get_s16, s16. pose proof (Z.mod_pos_bound (get_u16 o d + 2 ^ 15) (2 ^ 16)). lia. Qed.

Lemma file_map_dinode_ok s V V0 sb i i0 bs :
  layout s V sb → file_map s V sb i bs → 0 ≤ i_size i < 2 ^ 32 → synced V0 i0 → i_type i = i_type i0 →
  i_major i = i_major i0 → i_minor i = i_minor i0 → i_nlink i = i_nlink i0 → dinode_ok (dinode_of i).
Proof.
  intros HY HF Hsz Hsy F1 F2 F3 F4. unfold synced, get_dinode, dinode_of in Hsy. injection Hsy as E1 E2 E3 E4 _ _.
  unfold dinode_ok. simpl. rewrite F1, F2, F3, F4, <-E1, <-E2, <-E3, <-E4.
  split; [apply get_s16_range|]. split; [apply get_s16_range|]. split; [apply get_s16_range|]. split; [apply get_s16_range|].
  split; [done|]. split; [apply HF|].
  assert (Hr : ∀ b, b ∈ inds i ++ bs → 0 ≤ b < 2 ^ 32).
  { intros b Hb. destruct (data_range _ _ _ HY _ (proj1 (fm_data HF _ Hb))) as (? & _ & ?). pose proof (ly_size HY). unfold BPB in *. lia. }
  apply Forall_lookup. intros k a Ha. pose proof (lookup_lt_Some _ _ _ Ha) as Hk. rewrite (fm_len HF) in Hk.
  apply list_lookup_total_correct in Ha. destruct (decide (k = NDIRECT)) as [->|].
  - fold (ind i) in Ha. destruct (Z.eq_dec (ind i) 0); [lia|]. apply Hr, elem_of_app. left. rewrite <-Ha. by apply elem_inds.
  - rewrite (fm_direct HF) in Ha by lia. destruct (bs !! k) as [b|] eqn:Hb; simpl in Ha; [|lia].
    apply Hr, elem_of_app. right. rewrite <-Ha. by eapply list_elem_of_lookup_2.
Qed.

Lemma dinode_off_eq inum : dinode_off inum = (sizeof_dinode * Z.to_nat (inum `mod` IPB))%nat ∧ (Z.to_nat (inum `mod` IPB) < 8)%nat.
Proof. split; [done|]. pose proof (Z.mod_pos_bound inum IPB). unfold IPB in *. lia. Qed.

Lemma IBLOCK_range sb inum : 0 ≤ inum < sb_ninodes sb → 2 ≤ IBLOCK inum < bmblock sb.
Proof. intros H. unfold IBLOCK, bmblock, IPB. Z.to_euclidean_division_equations. lia. Qed.

(** [iupdate] copies the inode into its place on disk. *)
Lemma iupdate_spec s V L sb ip i :
  lrep (lt s) V ∅ L ∅ → log_busy (lg (lt s)) ≠ 0 → layout s V sb → icache s !! ip = Some i → i_dev i = 1 →
  0 ≤ i_inum i < sb_ninodes sb → dinode_ok (dinode_of i) → fits s (length L + 1) →
  wp (iupdate ip) (λ _ s', ∃ V', lrep (lt s') V' ∅ (log_add (IBLOCK (i_inum i)) L) ∅ ∧ same_fs s s' ∧
    agree s V' (<[IBLOCK (i_inum i) := put_dinode (dinode_off (i_inum i)) (dinode_of i) (V (IBLOCK (i_inum i)))]> V)) s.
Proof.
  intros HL Hb HY Hip Hdev Hn Hok Hfit. unfold iupdate. apply wp_bind. eapply wp_geti; [done|].
  pose proof (IBLOCK_range sb _ Hn). pose proof (ly_start HY). set (z := IBLOCK (i_inum i)) in *.
  assert (Hz : home (lt s) z) by (eapply layout_home; [done|]; unfold dstart in *; lia).
  rewrite (home_u32 _ _ _ _ _ _ HL Hz), Hdev.
  apply wp_bind. eapply wp_mono; [by apply fs_bread_first|]. intros bp s1 [HL1 Hs1].
  assert (Hr : room s (list_to_set L) 1).
  { eapply fits_room; [done|]. by rewrite (lrep_size _ _ _ _ _ HL). }
  destruct (dinode_off_eq (i_inum i)) as [Hoff Hk].
  eapply fs_logged_end; [exact HL1|apply lookup_insert_eq|by rewrite (same_fs_busy _ _ Hs1)|by eapply same_fs_room_set| | |].
  - rewrite dom_singleton_L. pose proof (room_NBUF _ _ _ _ _ _ _ HL Hr).
    pose proof (size_union_le {[z]} (list_to_set L : gset Z)) as Hu. rewrite size_singleton in Hu. lia.
  - pose proof (lrep_len _ _ _ _ _ _ HL Hz) as Hlen.
    destruct (put_dinode_spec (dinode_off (i_inum i)) (dinode_of i) (V z)) as (-> & _); [|done|done].
    rewrite Hoff, Hlen. unfold sizeof_dinode, BSIZE. lia.
  - intros s2 V2 HL2 Hs2 HV2. rewrite delete_singleton_eq in HL2. exists V2. split; [done|].
    split; [by eapply same_fs_trans|]. intros y Hy. apply HV2. by rewrite (same_fs_in_log _ _ _ Hs1).
Qed.

(** The same, as its effect on the file system. *)
Lemma iupdate_effect s V L sb ip i :
  lrep (lt s) V ∅ L ∅ → log_busy (lg (lt s)) ≠ 0 → layout s V sb → icache s !! ip = Some i → i_dev i = 1 →
  0 ≤ i_inum i < sb_ninodes sb → dinode_ok (dinode_of i) → fits s (length L + 1) →
  wp (iupdate ip) (λ _ s', ∃ V', lrep (lt s') V' ∅ (log_add (IBLOCK (i_inum i)) L) ∅ ∧ same_fs s s' ∧ layout s' V' sb ∧
    synced V' i ∧ (∀ y, ¬ in_log (lg (lt s)) y → y ≠ IBLOCK (i_inum i) → V' y = V y) ∧
    (∀ b, 0 ≤ b < sb_size sb → used V' (sb_ninodes sb) b = used V (sb_ninodes sb) b) ∧
    (∀ k, (k < 8)%nat → k ≠ Z.to_nat (i_inum i `mod` IPB) →
      get_dinode (sizeof_dinode * k) (V' (IBLOCK (i_inum i))) = get_dinode (sizeof_dinode * k) (V (IBLOCK (i_inum i))))) s.
Proof.
  intros HL Hb HY Hip Hdev Hn Hok Hfit. eapply wp_mono; [by eapply iupdate_spec|]. intros _ s1 (V1 & HL1 & Hs1 & HV1).
  pose proof (IBLOCK_range sb _ Hn) as Hr. pose proof (ly_start HY) as Hst. unfold dstart in Hst.
  pose proof (ly_log HY). pose proof (ly_log_size HY).
  set (z := IBLOCK (i_inum i)) in *.
  assert (Hlow : ∀ y, 0 ≤ y ≤ bmblock sb → ¬ in_log (lg (lt s)) y) by (intros y; unfold in_log; lia).
  assert (Hother : ∀ y, ¬ in_log (lg (lt s)) y → y ≠ z → V1 y = V y).
  { intros y Hy Hne. by rewrite HV1, fn_lookup_insert_ne by done. }
  assert (Hz : V1 z = put_dinode (dinode_off (i_inum i)) (dinode_of i) (V z)).
  { rewrite HV1 by (apply Hlow; lia). by rewrite fn_lookup_insert. }
  assert (Hlen : length (V z) = BSIZE) by (eapply lrep_len; [exact HL|]; eapply layout_home; [done|lia]).
  destruct (dinode_off_eq (i_inum i)) as [Hoff Hk].
  assert (Hbits : ∀ b, 0 ≤ b < sb_size sb → used V1 (sb_ninodes sb) b = used V (sb_ninodes sb) b).
  { intros b Hb'. eapply layout_used; [exact HY| |done]. apply Hother; [apply Hlow; lia|lia]. }
  exists V1. split; [done|]. split; [done|]. split; [|split; [|split; [done|split; [done|]]]].
  - eapply layout_keep; [apply Hs1|done|apply Hother; [apply Hlow; lia|lia]|]. intros b Hb' Hu. rewrite Hbits; [done|unfold dstart in Hb'; lia].
  - unfold synced. fold z. rewrite Hz. destruct (put_dinode_spec (dinode_off (i_inum i)) (dinode_of i) (V z)) as (_ & -> & _); [|done|done].
    rewrite Hoff, Hlen. unfold sizeof_dinode, BSIZE. lia.
  - intros k Hk' Hne. rewrite Hz, Hoff. by apply put_dinode_other.
Qed.

(** What [writei] does outside of its file: the blocks that the file has gained
    were free, no other bit of the bitmap, no other inode and no block of
    another file has changed. *)
Record only_file (s : fs) (sb : superblock) (inum : Z) (V : Z → block) (blocks : list Z)
    (V' : Z → block) (blocks' : list Z) : Prop := {
  of_keep : ∀ b, b ∈ blocks → b ∈ blocks';
  of_fresh : ∀ b, b ∈ blocks' → b ∈ blocks ∨ used V (sb_ninodes sb) b = false;
  of_used : ∀ b, 0 ≤ b < sb_size sb →
    used V' (sb_ninodes sb) b = bool_decide (b ∈ blocks') || used V (sb_ninodes sb) b;
  of_frame : ∀ y, ¬ in_log (lg (lt s)) y → y ≠ bmblock sb → y ≠ IBLOCK inum → y ∉ blocks' → V' y = V y;
  of_inodes : ∀ k, (k < 8)%nat → k ≠ Z.to_nat (inum `mod` IPB) →
    get_dinode (sizeof_dinode * k) (V' (IBLOCK inum)) = get_dinode (sizeof_dinode * k) (V (IBLOCK inum));
}.

(** The inode block is apart from the blocks of files and the bitmap. *)
Lemma IBLOCK_apart s V sb i bs inum :
  layout s V sb → file_map s V sb i bs → 0 ≤ inum < sb_ninodes sb →
  (IBLOCK inum ∉ inds i ++ bs) ∧ IBLOCK inum ≠ bmblock sb ∧ IBLOCK inum ≠ 1 ∧ home (lt s) (IBLOCK inum).
Proof.
  intros HY HF Hn. pose proof (IBLOCK_range sb _ Hn) as Hr. pose proof (ly_start HY) as Hst. unfold dstart in Hst.
  split; [|split; [lia|split; [lia|eapply layout_home; [done|lia]]]].
  intros Hb. destruct (data_range _ _ _ HY _ (proj1 (fm_data HF _ Hb))). lia.
Qed.

Lemma lookup_splice_le {A} off (d l : list A) x :
  (off <= length l)%nat → splice off d l !! x = if decide (off <= x < off + length d)%nat then d !! (x - off)%nat else l !! x.
Proof.
  intros H. unfold splice. destruct (decide (x < off)%nat).
  - rewrite lookup_app_l, lookup_take_lt by (rewrite ?length_take; lia). by rewrite decide_False by lia.
  - rewrite lookup_app_r by (rewrite length_take; lia). rewrite length_take, Nat.min_l by lia. case_decide.
    + by rewrite lookup_app_l by lia.
    + rewrite lookup_app_r, lookup_drop by lia. f_equal. lia.
Qed.
Lemma length_splice_le {A} off (d l : list A) :
  (off <= length l)%nat → length (splice off d l) = Nat.max (length l) (off + length d).
Proof. intros H. unfold splice. rewrite !length_app, length_take, length_drop. lia. Qed.

(** The bytes after the loop are those of the new content. *)
Lemma content_written V V' bs bs' c src off n :
  (off <= length c)%nat → (n <= length src)%nat → length bs = blocks_for (length c) →
  (∀ x, (x < length c)%nat → fbyte V bs x = c !! x) →
  length bs' = Nat.max (length bs) (blocks_for (off + n)) →
  (∀ x, (x < BSIZE * length bs')%nat → fbyte V' bs' x =
      if decide (off <= x < off + n)%nat then src !! (x - off)%nat
      else if decide (x < BSIZE * length bs)%nat then fbyte V bs x else Some 0) →
  let c' := splice off (take n src) c in
  length bs' = blocks_for (length c') ∧ ∀ x, (x < length c')%nat → fbyte V' bs' x = c' !! x.
Proof.
  intros Hoff Hsrc Hbs Hby Hbs' Hby' c'. assert (Hl : length (take n src) = n) by (rewrite length_take; lia).
  assert (Hlen : length c' = Nat.max (length c) (off + n)) by (unfold c'; by rewrite length_splice_le, Hl by done).
  assert (Hb : length bs' = blocks_for (length c')).
  { by rewrite Hbs', Hbs, Hlen, blocks_for_max. }
  split; [done|]. intros x Hx.
  assert (length c' <= BSIZE * length bs')%nat by (apply blocks_for_le; lia).
  rewrite Hby' by lia. unfold c'. rewrite lookup_splice_le, Hl by done. case_decide.
  - by rewrite lookup_take_lt by lia.
  - rewrite decide_True; [apply Hby; lia|]. pose proof (proj1 (blocks_for_le (length c) (length bs))). lia.
Qed.

(** The end of [writei] when the file has grown. *)
Lemma writei_grown ip sb k s V L i bs s1 V1 L1 i1 bs1 sz :
  layout s V sb → file_map s V sb i bs → synced V i → i_dev i = 1 → 0 ≤ i_inum i < sb_ninodes sb → icache s !! ip = Some i →
  grown ip sb k s V L i bs s1 V1 L1 i1 bs1 → lrep (lt s1) V1 ∅ L1 ∅ → log_busy (lg (lt s1)) ≠ 0 → layout s1 V1 sb →
  file_map s1 V1 sb i1 bs1 → 0 ≤ sz < 2 ^ 32 → fits s1 (weight sb i L + k + 1) →
  wp (updi ip (iset_size sz);; iupdate ip) (λ _ s', ∃ V' L', in_txn s' V' L' ∧ layout s' V' sb ∧
    icache s' = <[ip := iset_size sz i1]> (icache s) ∧ same_log (lt s) (lt s') ∧
    file_map s' V' sb (iset_size sz i1) bs1 ∧ synced V' (iset_size sz i1) ∧
    only_file s sb (i_inum i) V (inds i ++ bs) V' (inds i1 ++ bs1) ∧ (∀ b, b ∈ bs1 → V' b = V1 b) ∧
    free_blocks s' V' sb = free_blocks s1 V1 sb) s1.
Proof.
  intros HY HF Hsy Hdev Hn Hip HG HL1 Hb1 HY1 HF1 Hsz Hfit.
  set (i2 := iset_size sz i1). pose proof (gr_inode HG) as Ei. pose proof (gr_log HG) as Hlog. pose proof Hlog as (E1 & E2 & _).
  assert (Hip1 : icache s1 !! ip = Some i1).
  { rewrite (gr_icache HG). apply list_lookup_insert_eq. by eapply lookup_lt_Some. }
  assert (Hinum : i_inum i2 = i_inum i) by (unfold i2; rewrite Ei; done).
  apply wp_bind. eapply wp_updi; [done|]. fold i2. set (s2 := mkFs (lt s1) _).
  assert (HY2 : layout s2 V1 sb) by by destruct HY1.
  assert (HF2 : file_map s2 V1 sb i2 bs1) by by destruct HF1.
  destruct (IBLOCK_apart s2 V1 sb i2 bs1 (i_inum i) HY2 HF2 Hn) as (Hap1 & Hap2 & Hap3 & Hhome).
  assert (Hok : dinode_ok (dinode_of i2)).
  { eapply file_map_dinode_ok; [exact HY2|exact HF2|done|exact Hsy|..]; unfold i2; rewrite Ei; done. }
  eapply wp_mono; [apply (iupdate_effect s2 V1 L1 sb ip i2)|].
  - done.
  - done.
  - done.
  - apply list_lookup_insert_eq. by eapply lookup_lt_Some.
  - unfold i2. rewrite Ei. done.
  - by rewrite Hinum.
  - done.
  - eapply fits_le; [|exact Hfit]. pose proof (gr_weight HG). pose proof (size_weight sb i1 L1 (list_to_set L1)) as Hs.
    rewrite (lrep_size _ _ _ _ _ HL1) in Hs. opose proof* Hs; [etransitivity; [|apply union_subseteq_r]; apply union_subseteq_r|]. lia.
  - rewrite Hinum. set (z := IBLOCK (i_inum i)) in *.
    intros _ s3 (V3 & HL3 & Hs3 & HY3 & Hsy3 & Hother3 & Hbits & Hdin). pose proof Hs3 as [Hic3 Hlog3].
    assert (Hother : ∀ y, ¬ in_log (lg (lt s)) y → y ≠ z → V3 y = V1 y).
    { intros y Hy. apply Hother3. unfold in_log in *. simpl. by rewrite E1, E2. }
    assert (HVb : ∀ b, b ∈ inds i1 ++ bs1 → V3 b = V1 b).
    { intros b Hb'. apply Hother; [|by intros ->]. destruct (data_range _ _ _ HY1 _ (proj1 (fm_data HF1 _ Hb'))) as (_ & Hnl & _).
      unfold in_log in *. by rewrite E1, E2 in Hnl. }
    exists V3, (log_add z L1). split; [split; [done|by rewrite (same_fs_busy _ _ Hs3)]|]. split; [done|].
    split; [|split; [|split; [|split; [done|split; [|split]]]]].
    + rewrite Hic3. simpl. rewrite (gr_icache HG). by rewrite list_insert_insert_eq.
    + by eapply same_log_trans.
    + pose proof (fm_data HF2) as Hd2. destruct HF2. constructor; try done.
      * intros j Hj Hi. rewrite HVb; [auto|]. apply elem_of_app. left. by apply (elem_inds i2).
      * intros b Hb'. rewrite (same_fs_data _ _ _ _ Hs3). destruct (Hd2 b Hb') as [Hd Hu]. split; [done|].
        rewrite Hbits; [done|]. destruct (data_range _ _ _ HY2 _ Hd) as (? & _). pose proof (bmblock_pos sb (ly_ninodes HY)). lia.
    + constructor.
      * intros b. by eapply grown_blocks.
      * apply (gr_fresh HG).
      * intros b Hb'. rewrite Hbits by done. by apply (gr_used HG).
      * intros y Hy Hm Hyz Hn'. rewrite Hother by done. by apply (gr_frame HG).
      * intros k' Hk' Hne. fold z. rewrite Hdin by done. f_equal. apply (gr_frame HG); [|done|done].
        destruct Hhome as [_ Hzl]. unfold in_log in *. simpl in Hzl. by rewrite E1, E2 in Hzl.
    + intros b Hb'. apply HVb, elem_of_app. by right.
    + apply set_eq. intros x. rewrite !elem_free_blocks. destruct Hlog3 as (E3 & _). rewrite E3. simpl. rewrite E1.
      pose proof (ly_log HY). pose proof (ly_log_size HY).
      split; (intros [Hx Hu]; split; [done|]); [rewrite <-Hbits|rewrite Hbits]; done || lia.
Qed.

(** A successful write, as its effect on the state. *)
Record written (s : fs) (V : Z → block) (sb : superblock) (ip : nat) (i : inode) (bs : list Z) (c' : list Z)
    (s' : fs) (V' : Z → block) (L' : list Z) (i' : inode) (bs' : list Z) : Prop := {
  wr_txn : in_txn s' V' L';
  wr_layout : layout s' V' sb;
  wr_log : same_log (lt s) (lt s');
  wr_icache : icache s' = <[ip := i']> (icache s);
  wr_inode : i' = set_addrs (i_addrs i') (iset_size (i_size i') i);
  wr_rep : file_rep s' V' sb i' bs' c';
  wr_synced : synced V' i';
  wr_only : only_file s sb (i_inum i) V (inds i ++ bs) V' (inds i' ++ bs');
}.
#[global] Arguments wr_txn {_} {_} {_} {_} {_} {_} {_} {_} {_} {_} {_} {_} _.
#[global] Arguments wr_layout {_} {_} {_} {_} {_} {_} {_} {_} {_} {_} {_} {_} _.
#[global] Arguments wr_log {_} {_} {_} {_} {_} {_} {_} {_} {_} {_} {_} {_} _.
#[global] Arguments wr_icache {_} {_} {_} {_} {_} {_} {_} {_} {_} {_} {_} {_} _.
#[global] Arguments wr_inode {_} {_} {_} {_} {_} {_} {_} {_} {_} {_} {_} {_} _.
#[global] Arguments wr_rep {_} {_} {_} {_} {_} {_} {_} {_} {_} {_} {_} {_} _.
#[global] Arguments wr_synced {_} {_} {_} {_} {_} {_} {_} {_} {_} {_} {_} {_} _.
#[global] Arguments wr_only {_} {_} {_} {_} {_} {_} {_} {_} {_} {_} {_} {_} _.

Lemma grown_only_file ip sb k s V L i bs s' V' L' i' bs' inum :
  layout s V sb → file_map s' V' sb i' bs' → layout s' V' sb → 0 ≤ inum < sb_ninodes sb →
  grown ip sb k s V L i bs s' V' L' i' bs' →
  V' (IBLOCK inum) = V (IBLOCK inum) ∧ only_file s sb inum V (inds i ++ bs) V' (inds i' ++ bs').
Proof.
  intros HY HF' HY' Hn HG. destruct (IBLOCK_apart _ _ _ _ _ _ HY' HF' Hn) as (H1 & H2 & H3 & Hh).
  pose proof (gr_log HG) as (E1 & E2 & _).
  assert (HV : V' (IBLOCK inum) = V (IBLOCK inum)).
  { apply (gr_frame HG); [|done|done]. destruct Hh as [_ Hh]. unfold in_log in *. by rewrite E1, E2 in Hh. }
  split; [done|]. constructor; try apply HG.
  - intros b. by eapply grown_blocks.
  - intros y Hy Hm _ Hb. by apply (gr_frame HG).
  - intros k' _ _. by rewrite HV.
Qed.

(** [writei] when its checks succeed. *)
Lemma writei_ok s V L sb ip i bs c src o m :
  in_txn s V L → layout s V sb → icache s !! ip = Some i → i_dev i = 1 → i_type i ≠ T_DEV →
  0 ≤ i_inum i < sb_ninodes sb → file_rep s V sb i bs c → synced V i →
  (o <= length c)%nat → (m <= length src)%nat → Z.of_nat (o + m) ≤ Z.of_nat (MAXFILE * BSIZE) →
  fits s (weight sb i L + touched o m + 1) → (need i bs (o + m) <= size (free_blocks s V sb))%nat →
  wp (writei dsw ip src (Z.of_nat o) (Z.of_nat m)) (λ r s', r = Z.of_nat m ∧ ∃ V' L' i' bs',
    written s V sb ip i bs (splice o (take m src) c) s' V' L' i' bs' ∧
    (size (free_blocks s V sb) + spare i' + length bs <= size (free_blocks s' V' sb) + spare i + length bs')%nat) s.
Proof.
  intros [HL Hb] HY Hip Hdev Hty Hn (HF & Hsz & Hlen & Hby) Hsy Hle Hsrc Hle2 Hfit Hneed.
  unfold writei. apply wp_bind. eapply wp_geti; [done|]. rewrite (proj2 (Z.eqb_neq _ _) Hty), Hsz.
  assert (HMB : MAXFILE = 140%nat) by done.
  rewrite <-Nat2Z.inj_add, (u32_small (Z.of_nat (o + m))) by (rewrite HMB in *; unfold BSIZE in *; lia). rewrite !Z.gtb_ltb.
  rewrite (proj2 (Z.ltb_ge _ (Z.of_nat o))), (proj2 (Z.ltb_ge _ (Z.of_nat o))) by lia. rewrite orb_false_l.
  rewrite (proj2 (Z.ltb_ge _ (Z.of_nat (o + m)))) by lia.
  assert (Hs32 : s32 (Z.of_nat m) = Z.of_nat m) by (apply s32_small; rewrite HMB in *; unfold BSIZE in *; lia).
  assert (Hmax : (length c <= BSIZE * length bs)%nat) by (rewrite <-blocks_for_le; lia).
  rewrite Nat2Z.id. apply wp_bind. eapply wp_mono; [apply (writei_loop_spec sb ip m s V L i bs src o m); [done..|lia|lia|lia| |done|done]|].
  { by apply Nat2Z.inj_le. }
  intros r s1 (-> & V1 & L1 & i1 & bs1 & HL1 & HY1 & HF1 & HG1 & Hlen1 & Hsame & Hby1).
  destruct (content_written V V1 bs bs1 c src o m) as [Hb1 Hc1]; [lia|lia|done|done|done|done|].
  assert (Hip1 : icache s1 !! ip = Some i1).
  { rewrite (gr_icache HG1). apply list_lookup_insert_eq. by eapply lookup_lt_Some. }
  pose proof (gr_log HG1) as Hlog1. pose proof Hlog1 as (_ & _ & Ebusy & _). pose proof (gr_free HG1) as Hgf.
  assert (Hlc : length (splice o (take m src) c) = Nat.max (length c) (o + m)).
  { rewrite length_splice_le, length_take by lia. lia. }
  apply wp_bind. eapply wp_geti; [done|]. rewrite (gr_inode HG1). cbn [i_size set_addrs]. rewrite Hsz, !Z.gtb_ltb.
  destruct ((0 <? Z.of_nat m) && (Z.of_nat (length c) <? Z.of_nat (o + m))) eqn:Hg.
  - apply andb_prop in Hg as [Hg1%Z.ltb_lt Hg2%Z.ltb_lt].
    apply wp_bind. eapply wp_mono; [eapply (writei_grown ip sb _ s V L i bs s1 V1 L1 i1 bs1 (Z.of_nat (o + m))); try done|].
    + by rewrite Ebusy.
    + rewrite HMB in *. unfold BSIZE in *. lia.
    + by eapply fits_same.
    + intros _ s2 (V2 & L2 & HT2 & HY2 & Hic2 & Hlog2 & HF2 & Hsy2 & HO2 & HV2 & Hfr2). apply wp_ret. split; [done|].
      exists V2, L2, (iset_size (Z.of_nat (o + m)) i1), bs1. split; [|by rewrite Hfr2]. constructor; try done.
      * by rewrite (gr_inode HG1).
      * split; [done|]. split; [simpl; lia|]. split; [done|]. intros x Hx. rewrite <-Hc1 by done. by apply fbyte_kept.
  - assert (Hom : (o + m <= length c)%nat).
    { apply andb_false_iff in Hg as [Hg%Z.ltb_ge|Hg%Z.ltb_ge]; lia. }
    assert (Hbe : (blocks_for (o + m) <= length bs)%nat) by (apply blocks_for_le; lia).
    rewrite (Hsame Hbe) in *.
    assert (bs1 = bs) as ->.
    { destruct (gr_bs HG1) as [l ->]. rewrite length_app in Hlen1. destruct l; [by rewrite app_nil_r|simpl in Hlen1; lia]. }
    destruct (grown_only_file _ _ _ _ _ _ _ _ _ _ _ _ _ _ HY HF1 HY1 Hn HG1) as [HVI HO].
    apply wp_bind, wp_ret. apply wp_ret. split; [done|]. exists V1, L1, i, bs. split; [|done]. constructor; try done.
    + split; [done|by rewrite Ebusy].
    + apply HG1.
    + by destruct i.
    + split; [done|]. split; [lia|]. done.
    + unfold synced. by rewrite HVI.
Qed.

(** C6: [writei] to a file inside a transaction. When the offset is behind the
    end of the file, or the write would make it larger than the largest file
    (or its end wraps around), it returns -1 and changes nothing. Otherwise, if
    the log has room for the blocks that the write touches and there are enough
    free blocks, it does not panic and returns the count; the file has the bytes
    of [src] at the offset and keeps its other bytes; the inode on disk is the
    one in the cache; the blocks that the file gained were free; and no other
    bit of the bitmap, no other inode and no block of another file changes. *)
Theorem writei_correct s V L sb ip i bs c src off n :
  let ok := (off <=? Z.of_nat (length c)) && (off + n <=? Z.of_nat (MAXFILE * BSIZE)) in
  in_txn s V L → layout s V sb → icache s !! ip = Some i → i_dev i = 1 → i_type i ≠ T_DEV →
  0 ≤ i_inum i < sb_ninodes sb → file_rep s V sb i bs c → synced V i →
  0 ≤ off < 2 ^ 32 → 0 ≤ n < 2 ^ 32 → n ≤ Z.of_nat (length src) →
  (ok = true → fits s (weight sb i L + touched (Z.to_nat off) (Z.to_nat n) + 1) ∧
    (need i bs (Z.to_nat (off + n)) <= size (free_blocks s V sb))%nat) →
  wp (writei dsw ip src off n) (λ r s',
    if ok then r = n ∧ ∃ V' L' i' bs',
      written s V sb ip i bs (splice (Z.to_nat off) (take (Z.to_nat n) src) c) s' V' L' i' bs'
    else r = -1 ∧ s' = s) s.
Proof.
  intros ok HT HY Hip Hdev Hty Hn HR Hsy Hoff Hnn Hsrc Hroom. pose proof HR as (HF & Hsz & Hlen & _).
  destruct ok eqn:Hok.
  - destruct Hroom as [Hfit Hneed]; [done|]. apply andb_prop in Hok as [H1%Z.leb_le H2%Z.leb_le].
    destruct (Z_of_nat_complete off) as [o ->]; [lia|]. destruct (Z_of_nat_complete n) as [m ->]; [lia|].
    rewrite <-Nat2Z.inj_add, !Nat2Z.id in *.
    eapply wp_mono; [apply (writei_ok s V L sb ip i bs c src o m); try done; lia|].
    intros r s' (-> & V' & L' & i' & bs' & HW & _). split; [done|]. by exists V', L', i', bs'.
  - unfold writei. apply wp_bind. eapply wp_geti; [done|]. rewrite (proj2 (Z.eqb_neq _ _) Hty), Hsz, !Z.gtb_ltb.
    assert (HMB : Z.of_nat (MAXFILE * BSIZE) = 71680) by reflexivity. unfold ok in Hok. rewrite HMB in *.
    destruct (Z.ltb_spec (Z.of_nat (length c)) off) as [Hgt|Hle]; [by apply wp_ret|].
    rewrite (proj2 (Z.leb_le _ _) Hle), andb_true_l in Hok. apply Z.leb_gt in Hok. rewrite orb_false_l.
    destruct (Z.le_gt_cases (2 ^ 32) (off + n)).
    + assert (u32 (off + n) < off) by (by apply u32_wraps).
      rewrite (proj2 (Z.ltb_lt _ _)) by done. by apply wp_ret.
    + rewrite (u32_small (off + n)) by lia. rewrite (proj2 (Z.ltb_ge _ _)) by lia.
      rewrite (proj2 (Z.ltb_lt _ _)) by done. by apply wp_ret.
Qed.

End content.

(** ** A small file system: one block of inodes, the bitmap in block 3, inode 1 a
    file of three bytes in block 4, inode 2 a directory without links but still in
    use, with an entry for the file and an unused entry in block 5, and the log in
    blocks 10 to 19. *)
Definition abc_dinode : dinode := mkDinode T_FILE 0 0 1 3 (4 :: replicate NDIRECT 0).
Definition dir_dinode : dinode := mkDinode T_DIR 0 0 0 32 (5 :: replicate NDIRECT 0).
Definition dir_bytes : list Z := mk_dirent 1 ([97; 98; 99] ++ replicate 11 0) ++ replicate 16 0.
Definition abc_disk : list block :=
  let z := replicate BSIZE 0 in
  [z; put_32 12 10 (put_32 8 7 (put_32 0 20 z)); put_dinode 128 dir_dinode (put_dinode 64 abc_dinode z);
   <[0%nat := 63]> z; splice 0 [97; 98; 99] z; splice 0 dir_bytes z] ++ replicate 14 z.
Definition abc_inode : inode := iset_dinode abc_dinode (mkInode 1 1 1 3 0 0 0 0 0 []).
Definition dir_inode : inode := iset_dinode dir_dinode (mkInode 1 2 1 3 0 0 0 0 0 []).
Definition no_devices : devsw := mkDevsw (λ _, None) (λ _, None).

Lemma abc_disk_ok : log_disk 10 10 abc_disk.
Proof.
  unfold log_disk. split_and!; try (vm_compute; congruence).
  - intros i b Hi. apply list_elem_of_lookup_2 in Hi. revert b Hi. apply Forall_forall.
    repeat constructor; vm_compute; reflexivity.
  - intros z Hz. vm_compute in Hz. set_solver.
Qed.

(** A file of one direct block and less than [BSIZE] bytes. *)
Lemma one_block_rep s V sb i b c :
  layout s V sb → i_addrs i = b :: replicate NDIRECT 0 → data s sb b → used V (sb_ninodes sb) b = true →
  i_size i = Z.of_nat (length c) → (0 < length c <= BSIZE)%nat → take (length c) (V b) = c →
  file_rep s V sb i [b] c.
Proof.
  intros HY Ha Hd Hu Hsz Hc HV.
  assert (Hind : ind i = 0) by (unfold ind; rewrite Ha; reflexivity).
  split; [|split; [done|split]].
  - constructor.
    + by rewrite Ha.
    + unfold MAXFILE, NDIRECT. simpl. lia.
    + intros k Hk. rewrite Ha. destruct k as [|k]; [done|].
      change ((b :: replicate NDIRECT 0) !!! S k) with (replicate NDIRECT 0 !!! k).
      by apply list_lookup_total_correct, lookup_replicate_2, Nat.lt_succ_l.
    + intros _. unfold NDIRECT. simpl. lia.
    + intros j Hj Hi. by destruct Hi.
    + unfold inds. rewrite Hind. intros b' Hb'. apply list_elem_of_singleton in Hb' as ->. done.
    + unfold inds. rewrite Hind. apply NoDup_singleton.
  - simpl. symmetry. apply Nat.le_antisymm; [apply blocks_for_le; lia|apply blocks_for_lt; lia].
  - intros x Hx. unfold fbyte.
    destruct (decide (x = BSIZE)) as [E|E]; [lia|].
    destruct (div_BSIZE_unique x 0 x) as [-> ->]; [lia|lia|].
    rewrite <-HV. symmetry. by apply lookup_take_lt.
Qed.

(** The state after the boot, between transactions and inside of one. *)
Lemma abc_boot :
  ∃ t V, lrep t V ∅ [] ∅ ∧ log_busy (lg t) = 0 ∧ log_size (lg t) = 10 ∧
    ∀ s, lt s = t ∨ lt s = busy_log t → let sb := mkSb 20 0 7 10 in
      layout s V sb ∧ {[6; 7; 8; 9]} ⊆ free_blocks s V sb ∧
      file_rep s V sb abc_inode [4] [97; 98; 99] ∧ synced V abc_inode ∧
      file_rep s V sb dir_inode [5] dir_bytes ∧ synced V dir_inode.
Proof.
  destruct (boot_spec 10 10 abc_disk abc_disk_ok) as (t & V & _ & HL & Hb & Hst & Hsz & Hdk & HV & _).
  assert (Hdl : length (disk (blk t)) = 20%nat) by by rewrite Hdk, length_apply_writes.
  assert (HVz : ∀ z, 0 ≤ z < 10 → V z = abc_disk !!! Z.to_nat z).
  { intros z Hz. rewrite HV by lia. done. }
  exists t, V. split; [done|]. split; [done|]. split; [done|]. intros s Hs sb.
  assert (Hg : log_start (lg (lt s)) = 10 ∧ log_size (lg (lt s)) = 10 ∧ length (disk (blk (lt s))) = 20%nat)
    by (destruct Hs as [E|E]; rewrite E; simpl; lia).
  destruct Hg as (Hst' & Hsz' & Hdl').
  assert (Hu : ∀ b, 0 ≤ b < 20 → used V 7 b = bit (abc_disk !!! 3%nat) b).
  { intros b Hb'. unfold used, BBLOCK. rewrite (Z.div_small b), (Z.mod_small b) by (unfold BPB; lia). by rewrite HVz. }
  assert (HY : layout s V sb).
  { constructor; simpl; rewrite ?Hdl', ?Hst', ?Hsz'; try (unfold BPB; lia).
    - rewrite HVz by lia. vm_compute. reflexivity.
    - vm_compute. congruence.
    - intros b Hb'. assert (Hd : dstart sb = 4) by reflexivity. rewrite Hd in Hb'. rewrite Hu by lia.
      assert (Hb2 : b ∈ [0; 1; 2; 3]) by (rewrite !elem_of_cons; lia). revert b Hb2 Hb'.
      apply (Forall_forall (λ b, 0 ≤ b < 4 → bit (abc_disk !!! 3%nat) b = true)). repeat constructor. }
  assert (Hdata : ∀ b, 4 ≤ b < 10 → data s sb b) by (intros b Hb'; split; [exact (proj1 Hb')|rewrite Hst'; apply Hb']).
  split; [exact HY|]. split; [|split; [|split; [|split]]].
  - assert (Hfr : Forall (λ b, b ∈ free_blocks s V sb) [6; 7; 8; 9]).
    { repeat constructor; apply elem_free_blocks; rewrite Hst'; (split; [lia|]); simpl sb_ninodes; by rewrite Hu by lia. }
    rewrite Forall_forall in Hfr. clear -Hfr. intros b Hb. apply Hfr. set_solver.
  - apply one_block_rep; [done|done|apply Hdata; lia|by rewrite Hu by lia|done|unfold BSIZE; simpl; lia|].
    rewrite HVz by lia. vm_compute. reflexivity.
  - unfold synced. rewrite HVz by (vm_compute; intuition congruence). vm_compute. reflexivity.
  - apply one_block_rep; [done|done|apply Hdata; lia|by rewrite Hu by lia|done|unfold BSIZE; simpl; lia|].
    rewrite HVz by lia. vm_compute. reflexivity.
  - unfold synced. rewrite HVz by (vm_compute; intuition congruence). vm_compute. reflexivity.
Qed.

(** The state inside a transaction, with both inodes in the cache. *)
Lemma abc_txn :
  ∃ s V, let sb := mkSb 20 0 7 10 in
    in_txn s V [] ∧ layout s V sb ∧ log_size (lg (lt s)) = 10 ∧ {[6; 7; 8; 9]} ⊆ free_blocks s V sb ∧
    icache s = <[1%nat := dir_inode]> (<[0%nat := abc_inode]> icache0) ∧ file_rep s V sb abc_inode [4] [97; 98; 99] ∧ synced V abc_inode ∧
    file_rep s V sb dir_inode [5] dir_bytes ∧ synced V dir_inode.
Proof.
  destruct abc_boot as (t & V & HL & Hb & Hsz & Hall).
  set (s := mkFs (busy_log t) (<[1%nat := dir_inode]> (<[0%nat := abc_inode]> icache0))).
  destruct (Hall s (or_intror eq_refl)) as (HY & Hfree & HR & Hsy & HR2 & Hsy2). exists s, V.
  split; [split; [destruct HL; by constructor|done]|]. split; [exact HY|]. split; [exact Hsz|]. split; [exact Hfree|].
  split; [reflexivity|]. split; [exact HR|]. split; [exact Hsy|]. by split.
Qed.

Lemma readi_correct_witness : ∃ s s', readi no_devices 0 1 10 s = Ok (2, [98; 99]) s'.
Proof.
  destruct abc_txn as (s & V & HT & HY & _ & _ & Hic & HR & _). exists s.
  assert (Hw : wp (readi no_devices 0 1 10) (λ r _, r = (2, [98; 99])) s).
  { eapply wp_mono; [eapply (readi_correct no_devices s V [] (mkSb 20 0 7 10) 0 abc_inode [4] [97; 98; 99] 1 10);
      [apply HT|exact HY|rewrite Hic; reflexivity|reflexivity|vm_compute; congruence|exact HR|lia|lia]|].
    intros r s' [-> _]. reflexivity. }
  apply wp_Ok in Hw as (r & s' & Hrun & ->). by exists s'.
Defined.

Lemma writei_correct_witness :
  ∃ s s' V' L' i' bs', writei no_devices 0 (replicate 600 120) 2 600 s = Ok 600 s' ∧ in_txn s' V' L' ∧
    file_rep s' V' (mkSb 20 0 7 10) i' bs' (97 :: 98 :: replicate 600 120).
Proof.
  destruct abc_txn as (s & V & HT & HY & Hsz & Hfree & Hic & HR & Hsy & _). exists s.
  assert (Hw : wp (writei no_devices 0 (replicate 600 120) 2 600) (λ r s', r = 600 ∧ ∃ V' L' i' bs',
    written s V (mkSb 20 0 7 10) 0 abc_inode [4]
      (splice (Z.to_nat 2) (take (Z.to_nat 600) (replicate 600 120)) [97; 98; 99]) s' V' L' i' bs') s).
  { apply (writei_correct no_devices s V [] (mkSb 20 0 7 10) 0 abc_inode [4] [97; 98; 99] (replicate 600 120) 2 600 HT HY);
      [rewrite Hic; reflexivity|reflexivity|vm_compute; congruence|vm_compute; intuition congruence|exact HR|exact Hsy|lia|lia|rewrite length_replicate; lia|].
    intros _. split.
    - unfold fits. rewrite Hsz. unfold weight. rewrite list_to_set_nil.
      replace (inds abc_inode) with (@nil Z) by reflexivity. rewrite list_to_set_nil, !union_empty_r_L, size_singleton.
      replace (spare abc_inode) with 1%nat by reflexivity. replace (touched _ _) with 2%nat by (vm_compute; reflexivity).
      unfold LOGSIZE. lia.
    - replace (need _ _ _) with 1%nat by (vm_compute; reflexivity).
      apply subseteq_size in Hfree. etransitivity; [|exact Hfree]. vm_compute. lia. }
  apply wp_Ok in Hw as (r & s' & Hrun & -> & V' & L' & i' & bs' & HW).
  exists s', V', L', i', bs'. split; [exact Hrun|]. split; [exact (wr_txn HW)|]. exact (wr_rep HW).
Defined.
