(* ===== verification/DirProps.v ===== *)
(** * Directories (dirlookup and dirlink of fs.c)

    The content of a directory is an array of entries, and stands for a finite
    map from names to inode numbers. [dirlookup] looks a name up, [dirlink] adds
    one. *)

From S2P Require Import Prelude Cstring Buf Bio Log Txn Fs FsProps Balloc Inode InodeProps.

(** ** Names *)

(** The name in a field of [n] bytes, which may lack its terminator. *)
Fixpoint cname (n : nat) (l : list Z) : list Z :=
  match n, l with
  | S n', c :: l' => if c =? 0 then [] else c :: cname n' l'
  | _, _ => []
  end.

(** A C string, or an array of at least [n] bytes. *)
Definition name_ok (n : nat) (l : list Z) : Prop := ((n <= length l)%nat ∨ 0 ∈ l) ∧ Forall is_byte l.

Lemma name_ok_cons n c l : name_ok (S n) (c :: l) → c ≠ 0 → name_ok n l ∧ is_byte c.
Proof.
  intros [H Hb] Hc. apply Forall_cons in Hb as [Hb1 Hb2]. split; [|done]. split; [|done].
  destruct H as [H|H]; [left; simpl in H; lia|right]. apply elem_of_cons in H as [H|H]; [congruence|done].
Qed.

Lemma strncmp_cname n : ∀ p q, name_ok n p → name_ok n q →
  ∃ r, strncmp p q n = Some r ∧ (r = 0 ↔ cname n p = cname n q).
Proof.
  induction n as [|n IH]; intros p q Hp Hq; [exists 0; by split|].
  destruct p as [|c p]; [destruct Hp as [[Hp|Hp] _]; [simpl in Hp; lia|set_solver]|].
  destruct q as [|d q]; [destruct Hq as [[Hq|Hq] _]; [simpl in Hq; lia|set_solver]|].
  assert (is_byte c ∧ is_byte d) as [Hbc Hbd].
  { destruct Hp as [_ Hp], Hq as [_ Hq]. apply Forall_cons in Hp as [? _], Hq as [? _]. done. }
  simpl. unfold is_byte in Hbc, Hbd.
  destruct (Z.eqb_spec c 0) as [->|Hc]; simpl.
  - eexists. split; [done|]. unfold u8. rewrite Z.mod_0_l, Z.mod_small by lia.
    destruct (Z.eqb_spec d 0) as [->|]; [done|]. split; [lia|done].
  - destruct (Z.eqb_spec c d) as [->|Hne].
    + rewrite (proj2 (Z.eqb_neq d 0)) by done.
      destruct (IH p q) as (r & -> & Hr); [by eapply name_ok_cons|by eapply name_ok_cons|].
      exists r. split; [done|]. rewrite Hr. split; [by intros ->|by intros [= ->]].
    + eexists. split; [done|]. unfold u8. rewrite !Z.mod_small by lia.
      split; [lia|]. destruct (Z.eqb_spec d 0); [done|]. intros [= ?]. lia.
Qed.

(** What [strncpy] leaves in the field is the name. *)
Lemma strncpy_name_spec n : ∀ l, name_ok n l →
  ∃ l', strncpy_name n l = Some l' ∧ length l' = n ∧ cname n l' = cname n l ∧ Forall is_byte l'.
Proof.
  induction n as [|n IH]; intros l Hl; [by exists []|].
  destruct l as [|c l]; [destruct Hl as [[Hl|Hl] _]; [simpl in Hl; lia|set_solver]|].
  cbn [strncpy_name cname]. destruct (Z.eqb_spec c 0) as [->|Hc].
  - exists (replicate (S n) 0). split; [done|]. split; [apply length_replicate|]. split; [done|].
    apply Forall_replicate. unfold is_byte. lia.
  - destruct (name_ok_cons _ _ _ Hl Hc) as [Hl' Hb]. destruct (IH l Hl') as (l' & -> & Hlen & Hc' & Hb').
    exists (c :: l'). split; [done|]. split; [simpl; lia|]. split; [|by constructor].
    simpl. rewrite (proj2 (Z.eqb_neq c 0)) by done. by rewrite Hc'.
Qed.

(** ** The entries of a directory *)
Definition dirent_at (c : list Z) (k : nat) : list Z := slice (sizeof_dirent * k) sizeof_dirent c.
Definition inum_at (c : list Z) (k : nat) : Z := de_inum (dirent_at c k).
Definition name_at (c : list Z) (k : nat) : list Z := cname DIRSIZ (de_name (dirent_at c k)).

Definition dir_match (c name : list Z) (k : nat) : bool :=
  negb (inum_at c k =? 0) && bool_decide (cname DIRSIZ name = name_at c k).
(** The first entry with the name among the [n] entries from [k] on. *)
Definition dir_find (c name : list Z) (k n : nat) : option nat := List.find (dir_match c name) (seq k n).
(** The map from names to inode numbers. *)
Definition dir_map (n : nat) (c name : list Z) : option Z := inum_at c <$> dir_find c name 0 n.
(** The first unused entry, or the one behind the last. *)
Definition dir_slot (c : list Z) (k n : nat) : nat :=
  default (k + n)%nat (List.find (λ j, inum_at c j =? 0) (seq k n)).

(** The content of a directory with [n] entries. *)
Definition dir_content (n : nat) (c : list Z) : Prop := length c = (sizeof_dirent * n)%nat ∧ Forall is_byte c.

Lemma name_at_ok n c k : dir_content n c → (k < n)%nat → name_ok DIRSIZ (de_name (dirent_at c k)).
Proof.
  intros [Hl Hb] Hk. unfold de_name, dirent_at. split.
  - left. rewrite length_slice; [done|]. rewrite length_slice; unfold sizeof_dirent, DIRSIZ in *; lia.
  - by apply Forall_slice, Forall_slice.
Qed.

(** ** Adding an entry *)
Lemma find_only {A} (f : A → bool) (l : list A) a :
  a ∈ l → f a = true → (∀ x, x ∈ l → f x = true → x = a) → List.find f l = Some a.
Proof.
  induction l as [|x l IH]; intros Ha Hf Hu; [set_solver|]. simpl. destruct (f x) eqn:E.
  - f_equal. apply Hu; [set_solver|done].
  - apply IH; [|done|intros y Hy; apply Hu; set_solver]. apply elem_of_cons in Ha as [->|Ha]; [congruence|done].
Qed.
Lemma find_ext_in {A} (f g : A → bool) (l : list A) : (∀ x, x ∈ l → f x = g x) → List.find f l = List.find g l.
Proof.
  induction l as [|x l IH]; intros H; [done|]. simpl. rewrite H by set_solver. destruct (g x); [done|].
  apply IH. intros y Hy. apply H. set_solver.
Qed.
Lemma find_none_in {A} (f : A → bool) (l : list A) x : List.find f l = None → x ∈ l → f x = false.
Proof. intros H Hx. apply (List.find_none f l H). by apply list_elem_of_In. Qed.
Lemma find_app_l {A} (f : A → bool) (l l' : list A) :
  (∀ x, x ∈ l' → f x = false) → List.find f (l ++ l') = List.find f l.
Proof.
  intros H. induction l as [|x l IH]; simpl; [|by destruct (f x)].
  induction l' as [|y l' IH']; [done|]. simpl. rewrite H by set_solver. apply IH'. set_solver.
Qed.

Lemma find_seq_first (f : nat → bool) m : ∀ a k j, List.find f (seq a m) = Some k → (a <= j < k)%nat → f j = false.
Proof.
  induction m as [|m IH]; intros a k j H Hj; [done|]. simpl in H. destruct (f a) eqn:E; [injection H; lia|].
  destruct (decide (j = a)) as [->|]; [done|]. apply (IH (S a) k); [done|lia].
Qed.

Lemma dir_slot_le c n : (dir_slot c 0 n <= n)%nat ∧ ((dir_slot c 0 n < n)%nat → inum_at c (dir_slot c 0 n) = 0).
Proof.
  unfold dir_slot. destruct (List.find _ _) as [k|] eqn:E; simpl; [|lia].
  apply List.find_some in E as [Hk E]. apply in_seq in Hk. apply Z.eqb_eq in E. split; [lia|done].
Qed.

Lemma dir_slot_first c n k : (k < dir_slot c 0 n)%nat → inum_at c k ≠ 0.
Proof.
  unfold dir_slot. destruct (List.find _ _) as [j|] eqn:E; simpl; intros Hk; apply Z.eqb_neq.
  - apply (find_seq_first _ _ _ _ k E). lia.
  - apply (find_none_in _ _ k E). apply elem_of_seq. lia.
Qed.

Section link.
Context (n : nat) (c name nm : list Z) (inum : Z).
Context (HD : dir_content n c) (Hnm : length nm = DIRSIZ) (Hb : Forall is_byte nm).
Context (Hname : cname DIRSIZ nm = cname DIRSIZ name) (Hinum : 0 < inum < 2 ^ 16).

Let slot : nat := dir_slot c 0 n.
Let n' : nat := Nat.max n (S slot).
Let c' : list Z := splice (sizeof_dirent * slot) (mk_dirent inum nm) c.

Lemma length_mk_dirent : length (mk_dirent inum nm) = sizeof_dirent.
Proof. unfold mk_dirent. rewrite length_app, length_le_split, Hnm. done. Qed.

Lemma de_inum_mk : de_inum (mk_dirent inum nm) = inum.
Proof.
  unfold de_inum, mk_dirent, get_u16, slice. rewrite drop_0, take_app_le by (by rewrite length_le_split).
  rewrite take_ge by (by rewrite length_le_split). rewrite le_join_split. apply Z.mod_small. lia.
Qed.

Lemma link_slot : (slot <= n ∧ sizeof_dirent * slot <= length c)%nat.
Proof. destruct HD as [-> _]. pose proof (dir_slot_le c n). unfold slot, sizeof_dirent. lia. Qed.

Lemma link_content : dir_content n' c'.
Proof.
  destruct link_slot as [Hs Hsl]. pose proof HD as [Hl Hbc]. split.
  - unfold c'. rewrite length_splice_le, length_mk_dirent, Hl by done. unfold n', sizeof_dirent. lia.
  - apply Forall_splice; [|done]. unfold mk_dirent. apply Forall_app. split; [|done]. apply le_split_bytes.
Qed.

Lemma link_entry k : (k < n')%nat → dirent_at c' k = if decide (k = slot) then mk_dirent inum nm else dirent_at c k.
Proof.
  intros Hk. destruct link_slot as [Hs Hsl]. unfold dirent_at, c'. apply list_eq. intros x. rewrite lookup_slice.
  pose proof length_mk_dirent as Hlm. case_decide as Hx.
  - rewrite lookup_splice_le, Hlm by done. case_decide as Hr.
    + rewrite decide_True by (unfold sizeof_dirent in *; lia). f_equal. unfold sizeof_dirent in *. lia.
    + rewrite decide_False; [by rewrite lookup_slice, decide_True|]. intros ->. unfold sizeof_dirent in *. lia.
  - symmetry. case_decide; [apply lookup_ge_None_2; lia|]. by rewrite lookup_slice, decide_False.
Qed.

Lemma link_match k q : (k < n')%nat →
  dir_match c' q k = if decide (k = slot) then bool_decide (cname DIRSIZ q = cname DIRSIZ name) else dir_match c q k.
Proof.
  intros Hk. unfold dir_match, inum_at, name_at. rewrite link_entry by done. case_decide; [|done].
  rewrite de_inum_mk.
  assert (de_name (mk_dirent inum nm) = nm) as ->.
  { unfold de_name, mk_dirent, slice. rewrite drop_app_ge by (rewrite length_le_split; lia).
    rewrite length_le_split, Nat.sub_diag, drop_0. by rewrite take_ge by lia. }
  rewrite (proj2 (Z.eqb_neq _ _)) by lia. by rewrite <-Hname.
Qed.

(** The directory as a map gains exactly the new name. *)
Lemma link_map q : dir_find c name 0 n = None →
  dir_map n' c' q = if decide (cname DIRSIZ q = cname DIRSIZ name) then Some inum else dir_map n c q.
Proof.
  intros Hnone. destruct link_slot as [Hs Hsl]. pose proof (proj2 (dir_slot_le c n)) as Hz. fold slot in Hz. unfold dir_map, dir_find in *.
  assert (Hsn : slot ∈ seq 0 n') by (apply elem_of_seq; unfold n'; lia).
  assert (Hno : ∀ k, (k < n)%nat → cname DIRSIZ q = cname DIRSIZ name → dir_match c q k = false).
  { intros k Hk Hq. unfold dir_match. rewrite Hq.
    apply (find_none_in _ _ k Hnone). apply elem_of_seq. lia. }
  case_decide as Hq.
  - rewrite (find_only _ _ slot).
    + simpl. f_equal. unfold inum_at. rewrite link_entry by (apply elem_of_seq in Hsn; lia). rewrite decide_True by done.
      apply de_inum_mk.
    + done.
    + rewrite link_match, decide_True by (done || apply elem_of_seq in Hsn; lia). by apply bool_decide_eq_true.
    + intros k Hk%elem_of_seq. rewrite link_match by lia. case_decide; [done|]. rewrite Hno by (done || unfold n' in *; lia). done.
  - assert (Hold : ∀ k, (k < n)%nat → dir_match c' q k = dir_match c q k).
    { intros k Hk. rewrite link_match by (unfold n'; lia). case_decide as E; [|done]. subst k.
      rewrite bool_decide_false by done. unfold dir_match. by rewrite Hz by done. }
    assert (Hf : List.find (dir_match c' q) (seq 0 n') = List.find (dir_match c q) (seq 0 n)).
    { unfold n'. destruct (decide (slot < n)%nat).
      - rewrite Nat.max_l by lia. apply find_ext_in. intros k Hk%elem_of_seq. apply Hold. lia.
      - replace (Nat.max n (S slot)) with (S n) by lia. rewrite seq_S. rewrite find_app_l.
        + apply find_ext_in. intros k Hk%elem_of_seq. apply Hold. lia.
        + intros k Hk%list_elem_of_singleton. subst k. rewrite link_match by (unfold n'; lia).
          rewrite decide_True by lia. by apply bool_decide_eq_false. }
    rewrite Hf. destruct (List.find (dir_match c q) (seq 0 n)) as [k|] eqn:E; [|done]. simpl. f_equal.
    apply List.find_some in E as [Hk%in_seq E]. unfold inum_at. rewrite link_entry by (unfold n'; lia).
    rewrite decide_False; [done|]. intros ->. unfold dir_match in E. rewrite Hz in E by lia. done.
Qed.

End link.

Section dir.
Context `{BD : BlockDev} (dsw : devsw).

(** [readi] of a whole entry. *)
Lemma readi_entry s V L sb ip i bs c n k :
  lrep (lt s) V ∅ L ∅ → layout s V sb → icache s !! ip = Some i → i_dev i = 1 → i_type i ≠ T_DEV →
  file_rep s V sb i bs c → dir_content n c → (k < n)%nat →
  ∃ s', readi dsw ip (Z.of_nat (sizeof_dirent * k)) (Z.of_nat sizeof_dirent) s = Ok (Z.of_nat sizeof_dirent, dirent_at c k) s' ∧
    lrep (lt s') V ∅ L ∅ ∧ same_fs s s'.
Proof.
  intros HL HY Hip Hdev Hty (HF & Hsz & Hlen & Hby) [Hdl _] Hk.
  assert (Hmax : (length c <= BSIZE * length bs)%nat) by (rewrite <-blocks_for_le; lia).
  pose proof (fm_max HF) as Hfm. unfold MAXFILE, NDIRECT, NINDIRECT in Hfm.
  assert (Hend : (sizeof_dirent * k + sizeof_dirent <= length c)%nat) by (unfold sizeof_dirent in *; lia).
  set (o := (sizeof_dirent * k)%nat) in *. set (m := sizeof_dirent) in *.
  assert (Hm : m = 16%nat) by done.
  assert (Hw : wp (readi dsw ip (Z.of_nat o) (Z.of_nat m)) (λ r s', r = (Z.of_nat m, slice o m c) ∧ lrep (lt s') V ∅ L ∅ ∧ same_fs s s') s).
  { unfold readi. apply wp_bind. eapply wp_geti; [done|]. rewrite (proj2 (Z.eqb_neq _ _) Hty), Hsz, !Z.gtb_ltb, <-Nat2Z.inj_add.
    rewrite u32_small by (unfold BSIZE in *; lia). rewrite (proj2 (Z.ltb_ge _ (Z.of_nat o))), (proj2 (Z.ltb_ge _ (Z.of_nat o))) by lia.
    rewrite orb_false_l, (proj2 (Z.ltb_ge _ (Z.of_nat (o + m)))) by lia. rewrite Nat2Z.id.
    apply wp_bind. eapply wp_mono; [eapply readi_loop_spec; [done..| |]; lia|].
    intros r s' (Hr & Hbytes & HL' & Hs'). apply wp_ret. split; [|done]. rewrite s32_small by lia. f_equal.
    apply list_eq. intros x. rewrite lookup_slice. case_decide as Hx.
    - rewrite Hbytes by done. apply Hby. lia.
    - apply lookup_ge_None_2. lia. }
  apply wp_Ok in Hw as (r & s' & Hrun & -> & HL' & Hs'). exists s'. by split_and!.
Qed.

Lemma dirlookup_loop_run V L sb dp d bs c name n : ∀ fuel s k,
  lrep (lt s) V ∅ L ∅ → layout s V sb → icache s !! dp = Some d → i_dev d = 1 → i_type d ≠ T_DEV →
  file_rep s V sb d bs c → dir_content n c → name_ok DIRSIZ name → (k <= n)%nat → (n - k < fuel)%nat →
  ∃ s', lrep (lt s') V ∅ L ∅ ∧ same_fs s s' ∧
    dirlookup_loop dsw fuel dp name (Z.of_nat (sizeof_dirent * k)) s =
    match dir_find c name k (n - k) with
    | Some j => (ip ← iget (i_dev d) (inum_at c j); mret (Some (ip, Z.of_nat (sizeof_dirent * j)))) s'
    | None => Ok None s'
    end.
Proof.
  induction fuel as [|fuel IH]; intros s k HL HY Hip Hdev Hty HR HD Hn Hk Hf; [lia|].
  pose proof HR as (HF & Hsz & Hlen & _). pose proof HD as [Hdl _].
  assert (Hmax : (length c <= BSIZE * length bs)%nat) by (rewrite <-blocks_for_le; lia).
  pose proof (fm_max HF) as Hfm. unfold MAXFILE, NDIRECT, NINDIRECT in Hfm.
  cbn [dirlookup_loop]. unfold mbind at 1, M_bind at 1, geti at 1. rewrite Hip, Hsz, Hdl.
  destruct (decide (k = n)) as [->|Hne].
  { rewrite Z.ltb_irrefl, Nat.sub_diag. exists s. split; [done|]. split; [apply same_fs_refl|done]. }
  rewrite (proj2 (Z.ltb_lt _ _)) by (unfold sizeof_dirent; lia).
  destruct (readi_entry s V L sb dp d bs c n k HL HY Hip Hdev Hty HR HD ltac:(lia)) as (s1 & Hrun & HL1 & Hs1).
  unfold mbind at 1, M_bind at 1. rewrite Hrun. cbn [fst snd]. rewrite Z.eqb_refl. cbn [negb].
  assert (Hoff : u32 (Z.of_nat (sizeof_dirent * k) + Z.of_nat sizeof_dirent) = Z.of_nat (sizeof_dirent * S k)).
  { rewrite <-Nat2Z.inj_add, u32_small; [f_equal; unfold sizeof_dirent; lia|]. unfold sizeof_dirent, BSIZE in *. lia. }
  rewrite Hoff. pose proof Hs1 as [Hic1 Hlog1].
  assert (Hnext : ∃ s', lrep (lt s') V ∅ L ∅ ∧ same_fs s s' ∧
    dirlookup_loop dsw fuel dp name (Z.of_nat (sizeof_dirent * S k)) s1 =
    match dir_find c name (S k) (n - S k) with
    | Some j => (ip ← iget (i_dev d) (inum_at c j); mret (Some (ip, Z.of_nat (sizeof_dirent * j)))) s'
    | None => Ok None s'
    end).
  { destruct (IH s1 (S k)) as (s' & HL' & Hs' & Hr); try done; [|by rewrite Hic1| |lia|lia|].
    - by eapply layout_keep.
    - destruct HR as (HF' & HR'). split; [|done]. destruct HF'. constructor; try done. intros b Hb. rewrite (same_fs_data _ _ _ _ Hs1). auto.
    - exists s'. split; [done|]. split; [by eapply same_fs_trans|done]. }
  unfold dir_find in *. replace (n - k)%nat with (S (n - S k)) by lia. cbn [seq List.find]. unfold dir_match at 1.
  fold (inum_at c k). destruct (Z.eqb_spec (inum_at c k) 0) as [Hz|Hz]; [exact Hnext|]. cbn [negb]. rewrite andb_true_l.
  destruct (strncmp_cname DIRSIZ name (de_name (dirent_at c k)) Hn (name_at_ok n c k HD ltac:(lia))) as (r & Hcmp & Hr).
  unfold namecmp. rewrite Hcmp. unfold deref. unfold mbind at 1, M_bind at 1, mret at 1, M_ret at 1.
  destruct (Z.eqb_spec r 0) as [E|E].
  - apply Hr in E. rewrite bool_decide_true by exact E. exists s1. split; [done|]. split; [done|]. done.
  - rewrite bool_decide_false; [exact Hnext|]. intros E'. by apply E, Hr.
Qed.

Lemma dir_fuel n c : dir_content n c → Z.to_nat (Z.of_nat (length c) / 16 + 1) = S n.
Proof.
  intros [-> _]. unfold sizeof_dirent. rewrite Nat2Z.inj_mul. replace (Z.of_nat 16) with 16 by done.
  rewrite (Z.mul_comm 16), Z.div_mul by lia. lia.
Qed.

Lemma dirlookup_run s V L sb dp d bs c n name :
  lrep (lt s) V ∅ L ∅ → layout s V sb → icache s !! dp = Some d → i_dev d = 1 → i_type d = T_DIR →
  file_rep s V sb d bs c → dir_content n c → name_ok DIRSIZ name →
  ∃ s', lrep (lt s') V ∅ L ∅ ∧ same_fs s s' ∧
    dirlookup dsw dp name s =
    match dir_find c name 0 n with
    | Some k => (ip ← iget 1 (inum_at c k); mret (Some (ip, Z.of_nat (sizeof_dirent * k)))) s'
    | None => Ok None s'
    end.
Proof.
  intros HL HY Hip Hdev Hty HR HD Hn. pose proof HR as (_ & Hsz & _).
  destruct (dirlookup_loop_run V L sb dp d bs c name n (S n) s 0) as (s' & HL' & Hs' & Hr); try done; try lia.
  { by rewrite Hty. }
  exists s'. split; [done|]. split; [done|]. unfold dirlookup. unfold mbind at 1, M_bind at 1, geti at 1.
  rewrite Hip, Hty, Z.eqb_refl. cbn [negb]. rewrite Hsz, (dir_fuel n c HD). rewrite Nat.sub_0_r, Hdev in Hr. exact Hr.
Qed.

Lemma dirlink_find_spec V L sb dp d bs c n : ∀ fuel s k,
  lrep (lt s) V ∅ L ∅ → layout s V sb → icache s !! dp = Some d → i_dev d = 1 → i_type d ≠ T_DEV →
  file_rep s V sb d bs c → dir_content n c → (k <= n)%nat → (n - k < fuel)%nat →
  wp (dirlink_find dsw fuel dp (Z.of_nat (sizeof_dirent * k))) (λ r s',
    r = Z.of_nat (sizeof_dirent * dir_slot c k (n - k)) ∧ lrep (lt s') V ∅ L ∅ ∧ same_fs s s') s.
Proof.
  induction fuel as [|fuel IH]; intros s k HL HY Hip Hdev Hty HR HD Hk Hf; [lia|].
  pose proof HR as (HF & Hsz & _). pose proof HD as [Hdl _].
  cbn [dirlink_find]. apply wp_bind. eapply wp_geti; [done|]. rewrite Hsz, Hdl. destruct (decide (k = n)) as [->|Hne].
  { rewrite Z.ltb_irrefl. apply wp_ret. unfold dir_slot. rewrite Nat.sub_diag, Nat.add_0_r. split; [done|]. split; [done|apply same_fs_refl]. }
  rewrite (proj2 (Z.ltb_lt _ _)) by (unfold sizeof_dirent; lia).
  destruct (readi_entry s V L sb dp d bs c n k HL HY Hip Hdev Hty HR HD ltac:(lia)) as (s1 & Hrun & HL1 & Hs1).
  apply wp_bind. unfold wp at 1. rewrite Hrun. cbn [fst snd]. rewrite Z.eqb_refl. cbn [negb].
  fold (inum_at c k). unfold dir_slot. replace (n - k)%nat with (S (n - S k)) by lia. cbn [seq List.find].
  destruct (Z.eqb_spec (inum_at c k) 0) as [Hz|Hz]; [by apply wp_ret|].
  replace (Z.of_nat (sizeof_dirent * k) + Z.of_nat sizeof_dirent) with (Z.of_nat (sizeof_dirent * S k)) by (unfold sizeof_dirent; lia).
  eapply wp_mono; [apply (IH s1 (S k)); try done; [|by destruct Hs1 as [-> _]| |lia|lia]|].
  - eapply layout_keep; [apply Hs1|done..].
  - destruct HR as (HF' & HR'). split; [|done]. destruct HF'. constructor; try done. intros b Hb. rewrite (same_fs_data _ _ _ _ Hs1). auto.
  - intros r s' (-> & HL' & Hs'). split; [|split; [done|by eapply same_fs_trans]]. unfold dir_slot.
    by replace (S k + (n - S k))%nat with (k + S (n - S k))%nat by lia.
Qed.

Lemma written_same s s1 V sb ip i bs c' s' V' L' i' bs' :
  same_fs s s1 → written s1 V sb ip i bs c' s' V' L' i' bs' → written s V sb ip i bs c' s' V' L' i' bs'.
Proof.
  intros Hs [W1 W2 W3 W4 W5 W6 W7 W8]. pose proof Hs as [Hic Hlog]. constructor; try done.
  - by eapply same_log_trans.
  - by rewrite W4, Hic.
  - destruct W8. constructor; try done. intros y Hy. apply of_frame. by rewrite (same_fs_in_log _ _ _ Hs).
Qed.

(** An entry lies in one block. *)
Lemma touched_entry k : touched (sizeof_dirent * k) sizeof_dirent = 1%nat.
Proof.
  unfold touched, sizeof_dirent. simpl Nat.eqb. cbv iota. destruct (div_BSIZE (16 * k)) as [Hd Hm].
  assert (blocks_for (16 * k + 16) <= S (16 * k / BSIZE))%nat.
  { apply blocks_for_le. unfold BSIZE in *. lia. }
  assert (16 * k / BSIZE < blocks_for (16 * k + 16))%nat by (apply blocks_for_lt; lia). lia.
Qed.

(** [dirlookup] in a directory: a name that no entry has gives the null
    pointer, and otherwise [iget] of the inode number of the first entry with
    the name, with the offset of that entry. Names are compared as strings of at
    most 14 bytes, unused entries are skipped, and no block changes. *)
Theorem dirlookup_correct s V L sb dp d bs c n name :
  lrep (lt s) V ∅ L ∅ → layout s V sb → icache s !! dp = Some d → i_dev d = 1 → i_type d = T_DIR →
  file_rep s V sb d bs c → dir_content n c → name_ok DIRSIZ name →
  ∃ s', lrep (lt s') V ∅ L ∅ ∧ same_fs s s' ∧
    match dir_map n c name with
    | None => dirlookup dsw dp name s = Ok None s'
    | Some inum => ∃ k, (k < n)%nat ∧ inum_at c k = inum ∧ inum ≠ 0 ∧ name_at c k = cname DIRSIZ name ∧
        (∀ j, (j < k)%nat → inum_at c j = 0 ∨ name_at c j ≠ cname DIRSIZ name) ∧
        dirlookup dsw dp name s = (ip ← iget 1 inum; mret (Some (ip, Z.of_nat (sizeof_dirent * k)))) s'
    end.
Proof.
  intros HL HY Hip Hdev Hty HR HD Hn.
  destruct (dirlookup_run s V L sb dp d bs c n name HL HY Hip Hdev Hty HR HD Hn) as (s' & HL' & Hs' & Hrun).
  exists s'. split; [done|]. split; [done|]. unfold dir_map.
  destruct (dir_find c name 0 n) as [k|] eqn:E; [|done]. simpl.
  pose proof E as Ef. apply List.find_some in E as [Hk%in_seq E]. apply andb_prop in E as [E1 E2].
  apply negb_true_iff, Z.eqb_neq in E1. apply bool_decide_eq_true in E2.
  exists k. split; [lia|]. split; [done|]. split; [done|]. split; [done|]. split; [|done].
  intros j Hj. pose proof (find_seq_first _ _ _ _ j Ef ltac:(lia)) as Hm. unfold dir_match in Hm.
  apply andb_false_iff in Hm as [Hm|Hm]; [left; by apply negb_false_iff, Z.eqb_eq in Hm|right].
  apply bool_decide_eq_false in Hm. intros E. by apply Hm.
Qed.

(** C8: [dirlink] inside a transaction. When the name is in the directory it
    releases the inode that it found and returns -1. Otherwise, if the log has
    room for two more blocks beside the bitmap and the indirect block and there
    is a free block for the directory to grow, it returns 0, and the directory,
    seen as a map from names to inode numbers, has gained exactly the new name;
    the entry, with the name padded by zeros, is written into the first unused
    slot, or behind the last one when all are in use, and the other bytes of the
    directory stay. Nothing else changes. *)
Theorem dirlink_correct s V L sb dp d bs c n name inum :
  let o := (sizeof_dirent * dir_slot c 0 n)%nat in
  in_txn s V L → layout s V sb → icache s !! dp = Some d → i_dev d = 1 → i_type d = T_DIR →
  0 ≤ i_inum d < sb_ninodes sb → file_rep s V sb d bs c → synced V d → dir_content n c →
  name_ok DIRSIZ name → 0 < inum < 2 ^ 16 →
  match dir_map n c name with
  | Some old => ∃ s', in_txn s' V L ∧ same_fs s s' ∧
      dirlink dsw dp name inum s = (ip ← iget 1 old; iput ip;; mret (-1)) s'
  | None =>
      Z.of_nat (o + sizeof_dirent) ≤ Z.of_nat (MAXFILE * BSIZE) → fits s (weight sb d L + 2) →
      (need d bs (o + sizeof_dirent) <= size (free_blocks s V sb))%nat →
      wp (dirlink dsw dp name inum) (λ r s', r = 0 ∧ ∃ V' L' d' bs' nm,
        let c' := splice o (mk_dirent inum nm) c in
        let n' := Nat.max n (S (dir_slot c 0 n)) in
        strncpy_name DIRSIZ name = Some nm ∧ written s V sb dp d bs c' s' V' L' d' bs' ∧ dir_content n' c' ∧
        (∀ k, (k < dir_slot c 0 n)%nat → inum_at c k ≠ 0) ∧
        ∀ q, dir_map n' c' q = if decide (cname DIRSIZ q = cname DIRSIZ name) then Some inum else dir_map n c q) s
  end.
Proof.
  intros o [HL Hb] HY Hip Hdev Hty Hn HR Hsy HD Hnm Hinum.
  destruct (dirlookup_run s V L sb dp d bs c n name HL HY Hip Hdev Hty HR HD Hnm) as (s1 & HL1 & Hs1 & Hrun).
  destruct (dir_map n c name) as [old|] eqn:E; unfold dir_map in E.
  - destruct (dir_find c name 0 n) as [k|]; [|done]. injection E as E. exists s1.
    split; [split; [done|by rewrite (same_fs_busy _ _ Hs1)]|]. split; [done|]. unfold dirlink. unfold mbind at 1, M_bind at 1. rewrite Hrun, E.
    unfold mbind, M_bind. by destruct (iget 1 old s1).
  - destruct (dir_find c name 0 n) as [k|] eqn:Ef; [done|]. intros Hmax Hfit Hneed.
    pose proof Hs1 as [Hic1 Hlog1]. destruct (strncpy_name_spec DIRSIZ name Hnm) as (nm & Hcpy & Hlnm & Hcn & Hbn).
    assert (HF1 : ∀ s', same_fs s s' → file_rep s' V sb d bs c).
    { intros s' Hs'. destruct HR as (HF & HR). split; [|done]. destruct HF. constructor; try done. intros b Hb'. rewrite (same_fs_data _ _ _ _ Hs'). auto. }
    assert (HY1 : ∀ s', same_fs s s' → layout s' V sb) by (intros s' Hs'; eapply layout_keep; [apply Hs'|done..]).
    assert (Hnd : i_type d ≠ T_DEV) by by rewrite Hty.
    unfold dirlink. apply wp_bind. unfold wp at 1. rewrite Hrun. apply wp_bind. eapply wp_geti; [by rewrite Hic1|].
    rewrite (proj1 (proj2 HR)), (dir_fuel n c HD). apply wp_bind.
    eapply wp_mono; [apply (dirlink_find_spec V L sb dp d bs c n (S n) s1 0); try done; [by apply HY1|by rewrite Hic1|by apply HF1|lia|lia]|].
    intros off s2 (-> & HL2 & Hs2). rewrite Nat.sub_0_r. fold o. rewrite Hcpy. apply wp_bind. simpl deref. apply wp_ret.
    assert (Hs02 : same_fs s s2) by by eapply same_fs_trans. pose proof Hs02 as [Hic2 Hlog2].
    destruct (link_slot n c nm HD Hlnm) as [Hsl1 Hsl2]. fold o in Hsl2.
    pose proof (length_mk_dirent nm inum Hlnm) as Hlm. set (c' := splice o (mk_dirent inum nm) c).
    apply wp_bind. eapply wp_mono; [apply (writei_ok dsw s2 V L sb dp d bs c (mk_dirent inum nm) o sizeof_dirent)|].
    + split; [done|by rewrite (same_fs_busy _ _ Hs02)].
    + by apply HY1.
    + by rewrite Hic2.
    + done.
    + done.
    + done.
    + by apply HF1.
    + done.
    + done.
    + by rewrite Hlm.
    + exact Hmax.
    + unfold o. rewrite touched_entry. eapply fits_same; [exact Hlog2|]. eapply fits_le; [|exact Hfit]. lia.
    + destruct Hlog2 as (Est & _). unfold free_blocks in *. by rewrite Est.
    + intros w s3 (-> & V' & L' & d' & bs' & HW & _). rewrite Z.eqb_refl. simpl negb. cbv iota. apply wp_ret. split; [done|].
      rewrite take_ge in HW by (by rewrite Hlm).
      exists V', L', d', bs', nm. cbv zeta. fold c'. split; [done|]. split; [by eapply written_same|].
      split; [by apply link_content|]. split; [intros k; apply dir_slot_first|]. intros q. by apply link_map.
Qed.

End dir.

(** ** The directory of [InodeProps.v] *)
Lemma dir_bytes_ok : dir_content 2 dir_bytes.
Proof. split; [reflexivity|]. repeat constructor; vm_compute; congruence. Qed.

Lemma dirlookup_correct_witness :
  ∃ s s', dirlookup no_devices 1 [97; 98; 99; 0] s = Ok (Some (0%nat, 0)) s' ∧
    ∃ s2, dirlookup no_devices 1 [97; 98; 0] s = Ok None s2.
Proof.
  destruct abc_txn as (s & V & HT & HY & _ & _ & Hic & _ & _ & HR & _). exists s.
  assert (Hip : icache s !! 1%nat = Some dir_inode) by (rewrite Hic; reflexivity).
  assert (Hn : ∀ l, 0 ∈ l → Forall is_byte l → name_ok DIRSIZ l) by (intros l H1 H2; split; [by right|done]).
  destruct (dirlookup_correct no_devices s V [] (mkSb 20 0 7 10) 1 dir_inode [5] dir_bytes 2 [97; 98; 99; 0] (it_lrep _ _ _ HT) HY Hip
    eq_refl eq_refl HR dir_bytes_ok) as (s1 & _ & [Hic1 _] & H1).
  { apply Hn; [set_solver|]. repeat constructor; vm_compute; congruence. }
  destruct (dirlookup_correct no_devices s V [] (mkSb 20 0 7 10) 1 dir_inode [5] dir_bytes 2 [97; 98; 0] (it_lrep _ _ _ HT) HY Hip
    eq_refl eq_refl HR dir_bytes_ok) as (s2 & _ & _ & H2).
  { apply Hn; [set_solver|]. repeat constructor; vm_compute; congruence. }
  replace (dir_map 2 dir_bytes [97; 98; 99; 0]) with (Some 1) in H1 by (vm_compute; reflexivity).
  replace (dir_map 2 dir_bytes [97; 98; 0]) with (@None Z) in H2 by (vm_compute; reflexivity).
  destruct H1 as (k & Hk & Hi & _ & _ & Hfirst & H1).
  assert (k = 0%nat) as ->.
  { destruct k as [|[|k]]; [done| |lia]. vm_compute in Hi. discriminate. }
  eexists. split; [|exists s2; exact H2]. rewrite H1. unfold iget, gets, mbind, M_bind. rewrite Hic1, Hic.
  replace (iget_scan _ _ _ _ _) with (@inl nat (option nat) 0%nat) by (vm_compute; reflexivity).
  unfold updi. rewrite Hic1, Hic. reflexivity.
Defined.

Lemma dirlink_correct_witness :
  ∃ s s', dirlink no_devices 1 [120; 121; 0] 5 s = Ok 0 s'.
Proof.
  destruct abc_txn as (s & V & HT & HY & Hsz & Hfree & Hic & _ & _ & HR & Hsy). exists s.
  assert (Hn : name_ok DIRSIZ [120; 121; 0]) by (split; [right; set_solver|repeat constructor; vm_compute; congruence]).
  pose proof (dirlink_correct no_devices s V [] (mkSb 20 0 7 10) 1 dir_inode [5] dir_bytes 2 [120; 121; 0] 5 HT HY) as H.
  replace (dir_map 2 dir_bytes [120; 121; 0]) with (@None Z) in H by (vm_compute; reflexivity).
  assert (Hw : wp (dirlink no_devices 1 [120; 121; 0] 5) (λ r _, r = 0) s).
  { eapply wp_mono; [apply H|].
    - rewrite Hic. reflexivity.
    - reflexivity.
    - reflexivity.
    - vm_compute. intuition congruence.
    - exact HR.
    - exact Hsy.
    - exact dir_bytes_ok.
    - exact Hn.
    - lia.
    - vm_compute. congruence.
    - unfold fits. rewrite Hsz. unfold weight. rewrite list_to_set_nil.
      replace (inds dir_inode) with (@nil Z) by reflexivity. rewrite list_to_set_nil, !union_empty_r_L, size_singleton.
      replace (spare dir_inode) with 1%nat by reflexivity. unfold LOGSIZE. lia.
    - replace (need _ _ _) with 0%nat by (vm_compute; reflexivity). lia.
    - intros r s' [-> _]. reflexivity. }
  apply wp_Ok in Hw as (r & s' & Hrun & ->). exists s'. exact Hrun.
Defined.
