(* ===== verification/Itrunc.v ===== *)
(** * Freeing an inode (itrunc and iput of fs.c)

    [itrunc] gives back every block of a file and empties the inode; [iput] of
    the last reference to an inode without links does so and frees the inode on
    disk. *)

From S2P Require Import Prelude Buf Bio Log Txn Fs FsProps Balloc Inode InodeProps.

Section itrunc.
Context `{BD : BlockDev}.

(** ** Giving blocks back *)

(** The contents change from [V] to [V'] when the blocks [F] are given back. *)
Record freed (s : fs) (sb : superblock) (V : Z → block) (F : list Z) (V' : Z → block) : Prop := {
  fr_frame : ∀ y, ¬ in_log (lg (lt s)) y → y ≠ bmblock sb → V' y = V y;
  fr_used : ∀ b, 0 ≤ b < sb_size sb → used V' (sb_ninodes sb) b = negb (bool_decide (b ∈ F)) && used V (sb_ninodes sb) b;
}.

(** In the middle of [itrunc], with the buffers [H] held and the blocks [F]
    given back since the state [s0]. *)
Record truncating (s0 : fs) (V0 : Z → block) (L0 : list Z) (sb : superblock) (H : gmap Z nat) (F : list Z)
    (s : fs) (V : Z → block) (L : list Z) : Prop := {
  tr_rep : lrep (lt s) V H L ∅;
  tr_log : same_log (lt s0) (lt s);
  tr_freed : freed s0 sb V0 F V;
  tr_L : list_to_set L ⊆ ({[bmblock sb]} ∪ list_to_set L0 : gset Z);
  tr_layout : layout s V sb;
  tr_data : ∀ b, b ∈ F → data s0 sb b;
}.

Lemma same_log_room s s' X n : same_log (lt s) (lt s') → room s X n → room s' X n.
Proof. intros (_ & E & _). unfold room. by rewrite E. Qed.

Lemma truncating_icache s0 V0 L0 sb H F s s' V L :
  lt s' = lt s → truncating s0 V0 L0 sb H F s V L → truncating s0 V0 L0 sb H F s' V L.
Proof.
  intros E []. constructor; rewrite ?E; try done. eapply layout_keep; [|done..]. rewrite E. apply same_log_refl.
Qed.

Lemma bfree_step s0 V0 L0 sb H F s V L b :
  truncating s0 V0 L0 sb H F s V L → layout s0 V0 sb → log_busy (lg (lt s0)) ≠ 0 →
  (∀ z, z ∈ dom H → data s0 sb z) → room s0 ({[bmblock sb]} ∪ (dom H ∪ list_to_set L0)) 1 →
  data s0 sb b → used V0 (sb_ninodes sb) b = true → b ∉ F →
  wp (bfree 1 b) (λ _ s', icache s' = icache s ∧ ∃ V' L', truncating s0 V0 L0 sb H (F ++ [b]) s' V' L') s.
Proof.
  intros [HL Hlog HFr HLs HY HFd] HY0 Hb0 HH Hr Hd Hu HbF. pose proof Hlog as (E1 & E2 & Ebusy & _).
  destruct (data_range _ _ _ HY0 _ Hd) as (Hb1 & Hb2 & Hb3). pose proof (bmblock_pos sb (ly_ninodes HY0)) as Hbm.
  pose proof (ly_start HY0) as Hst. unfold dstart in Hst. pose proof (ly_log HY0). pose proof (ly_log_size HY0).
  set (z := bmblock sb) in *.
  assert (Hroom : room s ({[z]} ∪ (dom H ∪ list_to_set L)) 1).
  { eapply room_mono; [|eapply same_log_room; [exact Hlog|exact Hr]]. set_solver. }
  pose proof (room_NBUF _ _ _ _ _ _ _ HL Hroom) as HN.
  assert (HN2 : (size (dom H ∪ list_to_set L) < NBUF)%nat).
  { pose proof (subseteq_size (dom H ∪ list_to_set L) ({[z]} ∪ (dom H ∪ list_to_set L))) as Hs. opose proof* Hs; [set_solver|]. lia. }
  assert (HzH : H !! z = None).
  { apply not_elem_of_dom. intros Hz. pose proof (data_range _ _ _ HY0 _ (HH _ Hz)). lia. }
  assert (H1H : H !! 1 = None).
  { apply not_elem_of_dom. intros Hz. pose proof (data_range _ _ _ HY0 _ (HH _ Hz)). lia. }
  assert (Hzh : home (lt s) z) by (eapply layout_home; [done|]; rewrite E1; lia).
  assert (HBB : BBLOCK b (sb_ninodes sb) = z) by (apply BBLOCK_one; pose proof (ly_size HY0); lia).
  unfold bfree. apply wp_bind. eapply wp_mono; [apply (fs_readsb _ _ _ _ HL); [by eapply layout_home_1|done|done]|].
  intros sb' s1 (-> & HL1 & Hs1). rewrite (ly_sb HY), HBB, (home_u32 _ _ _ _ _ _ HL Hzh). replace (u32 1) with 1 by done.
  apply wp_bind. eapply wp_mono; [apply fs_bread; [done|by rewrite (same_fs_home _ _ _ Hs1)|done|by right]|].
  intros bp s2 (HL2 & Hs2). apply wp_bind. eapply fs_getbuf; [exact HL2|apply lookup_insert_eq|]. intros B HB Hlen.
  rewrite HB, bit_test.
  assert (Hused : ∀ x, 0 ≤ x < sb_size sb → bit (V z) (x `mod` BPB) = used V (sb_ninodes sb) x).
  { intros x Hx. unfold used. rewrite BBLOCK_one; [done|]. pose proof (ly_size HY0). lia. }
  rewrite Hused, (fr_used _ _ _ _ _ HFr), Hu, bool_decide_false by (done || lia). simpl negb. cbv iota.
  assert (Hs : same_fs s s2) by (eapply same_fs_trans; [exact Hs1|exact Hs2]).
  eapply fs_logged_end; [exact HL2|apply lookup_insert_eq|rewrite (same_fs_busy _ _ Hs); by rewrite Ebusy| | |by rewrite length_clear_bit|].
  { eapply same_fs_room_set; [exact Hs|]. eapply room_mono; [|exact Hroom]. set_solver. }
  { rewrite dom_insert_L, <-union_assoc_L. lia. }
  intros s3 V3 HL3 Hs3 HV3. rewrite delete_insert_None in HL3 by done.
  assert (Hs03 : same_fs s s3) by (eapply same_fs_trans; [exact Hs|exact Hs3]). pose proof Hs03 as [Hic Hlog3].
  split; [done|]. exists V3, (log_add z L).
  assert (HV : ∀ y, ¬ in_log (lg (lt s0)) y → V3 y = (<[z := clear_bit (b `mod` BPB) (V z)]> V : Z → block) y).
  { intros y Hy. apply HV3. destruct Hs as [_ (F1 & F2 & _)]. unfold in_log in *. by rewrite F1, F2, E1, E2. }
  assert (Hznl : ¬ in_log (lg (lt s0)) z) by (unfold in_log; lia).
  assert (HlenV : length (V z) = BSIZE) by (eapply lrep_len; [exact HL|exact Hzh]).
  assert (HFr' : freed s0 sb V0 (F ++ [b]) V3).
  { constructor.
    - intros y Hy Hne. rewrite HV, fn_lookup_insert_ne by done. by apply (fr_frame _ _ _ _ _ HFr).
    - intros x Hx. unfold used at 1. rewrite BBLOCK_one by (pose proof (ly_size HY0); lia). fold z.
      rewrite HV, fn_lookup_insert by done. pose proof (ly_size HY0). rewrite !(Z.mod_small _ BPB) by lia.
      rewrite bit_clear by (rewrite ?HlenV; unfold BPB, BSIZE in *; lia).
      replace (bit (V z) x) with (used V (sb_ninodes sb) x) by (rewrite <-Hused, Z.mod_small by lia; done).
      rewrite (fr_used _ _ _ _ _ HFr) by done.
      rewrite andb_assoc. f_equal. rewrite <-negb_orb. f_equal. rewrite <-bool_decide_or. apply bool_decide_ext. set_solver. }
  assert (HFd' : ∀ x, x ∈ F ++ [b] → data s0 sb x).
  { intros x. rewrite elem_of_app, list_elem_of_singleton. intros [Hx| ->]; auto. }
  constructor; [done|by eapply same_log_trans|done|rewrite log_add_set; set_solver| |done].
  eapply layout_keep; [exact Hlog3|exact HY| |].
  - rewrite HV, fn_lookup_insert_ne; [done|lia|unfold in_log; lia].
  - intros x Hx _. pose proof (ly_meta HY0 x Hx) as Hux. unfold dstart in Hx.
    rewrite (fr_used _ _ _ _ _ HFr'), Hux by lia. rewrite andb_true_r. apply negb_true_iff, bool_decide_eq_false.
    intros Hin. pose proof (data_range _ _ _ HY0 _ (HFd' _ Hin)). lia.
Qed.

(** ** The blocks of the file, in order *)

(** The inode while its first [k] direct addresses are cleared. *)
Definition cleared (k : nat) (i : inode) : inode := set_addrs (replicate k 0 ++ drop k (i_addrs i)) i.

Lemma cleared_addr k i j : length (i_addrs i) = S NDIRECT → (k <= j < S NDIRECT)%nat →
  i_addrs (cleared k i) !!! j = i_addrs i !!! j.
Proof.
  intros Hl Hj. simpl. rewrite lookup_total_app_r by (rewrite length_replicate; lia).
  rewrite length_replicate, !list_lookup_total_alt, lookup_drop. do 2 f_equal. lia.
Qed.

Lemma cleared_next k i : length (i_addrs i) = S NDIRECT → (k < S NDIRECT)%nat →
  iset_addr k 0 (cleared k i) = cleared (S k) i.
Proof.
  intros Hl Hk. unfold iset_addr, cleared, set_addrs. simpl. f_equal.
  rewrite (drop_S _ (i_addrs i !!! k)) by (apply list_lookup_lookup_total_lt; lia).
  rewrite <-(length_replicate k 0) at 1. rewrite <-(Nat.add_0_r (length _)), insert_app_r.
  by rewrite app_comm_cons, replicate_cons_app, <-app_assoc.
Qed.

Lemma cleared_same k i : length (i_addrs i) = S NDIRECT → (k < S NDIRECT)%nat → i_addrs i !!! k = 0 →
  cleared k i = cleared (S k) i.
Proof.
  intros Hl Hk H0. rewrite <-cleared_next by done. unfold cleared, iset_addr, set_addrs. simpl. f_equal.
  symmetry. apply list_insert_id. rewrite lookup_app_r by (rewrite length_replicate; lia).
  rewrite length_replicate, lookup_drop. replace (k + (k - k))%nat with k by lia.
  rewrite <-H0. apply list_lookup_lookup_total_lt. lia.
Qed.

Lemma wp_forM_seq {S} (body : nat → M S unit) (I : nat → S → Prop) n : ∀ a s,
  I a s → (∀ k s', (a <= k < a + n)%nat → I k s' → wp (body k) (λ _ s'', I (Datatypes.S k) s'') s') →
  wp (forM (seq a n) body) (λ _ s', I (a + n)%nat s') s.
Proof.
  induction n as [|n IH]; intros a s HI Hstep; [by rewrite Nat.add_0_r|].
  simpl. apply wp_bind. eapply wp_mono; [apply Hstep; [lia|done]|]. intros ? s' HI'.
  rewrite Nat.add_succ_r. apply (IH (Datatypes.S a)); [done|]. intros k s'' Hk. apply Hstep. lia.
Qed.

Section blocks.
Context (s : fs) (V : Z → block) (L : list Z) (sb : superblock) (ip : nat) (i : inode) (bs : list Z).
Context (HL : lrep (lt s) V ∅ L ∅) (Hbusy : log_busy (lg (lt s)) ≠ 0) (HY : layout s V sb).
Context (Hip : icache s !! ip = Some i) (Hdev : i_dev i = 1) (HF : file_map s V sb i bs).
Context (Hroom : room s ({[bmblock sb]} ∪ (list_to_set (inds i) ∪ list_to_set L)) 1).

(** After the direct blocks below [k]. *)
Definition direct_inv (k : nat) (s' : fs) : Prop :=
  icache s' = <[ip := cleared k i]> (icache s) ∧ ∃ V' L', truncating s V L sb ∅ (take k bs) s' V' L'.

Lemma block_used b : b ∈ inds i ++ bs → data s sb b ∧ used V (sb_ninodes sb) b = true.
Proof. apply HF. Qed.

Lemma take_fresh k b : bs !! k = Some b → b ∉ take k bs.
Proof.
  intros Hk Hin. pose proof (fm_nodup HF) as Hnd. apply NoDup_app in Hnd as (_ & _ & Hnd).
  apply list_elem_of_lookup in Hin as [j Hj]. pose proof (lookup_lt_Some _ _ _ Hj) as Hjk. rewrite length_take in Hjk.
  rewrite lookup_take_lt in Hj by lia. pose proof (NoDup_lookup _ _ _ _ Hnd Hj Hk). lia.
Qed.

Lemma itrunc_direct :
  wp (forM (seq 0 NDIRECT) (λ k,
    i ← geti ip;
    if negb (i_addrs i !!! k =? 0) then
      bfree (i_dev i) (i_addrs i !!! k);;
      updi ip (iset_addr k 0)
    else mret tt)) (λ _ s', direct_inv NDIRECT s') s.
Proof.
  pose proof (fm_len HF) as Hlen.
  apply (wp_forM_seq _ direct_inv NDIRECT 0 s).
  { assert (cleared 0 i = i) as E by (unfold cleared, set_addrs; simpl; rewrite drop_0; by destruct i).
    split; [by rewrite E, list_insert_id|].
    exists V, L. rewrite take_0. constructor; [done|apply same_log_refl| |set_solver|done|set_solver].
    constructor; [done|]. intros b _. by rewrite bool_decide_false by set_solver. }
  intros k s1 Hk [Hic (V1 & L1 & HT)].
  assert (Hip1 : icache s1 !! ip = Some (cleared k i)).
  { rewrite Hic. apply list_lookup_insert_eq. by eapply lookup_lt_Some. }
  apply wp_bind. eapply wp_geti; [exact Hip1|]. rewrite cleared_addr, (fm_direct HF) by (done || lia). change (i_dev (cleared k i)) with (i_dev i).
  destruct (bs !! k) as [b|] eqn:Hb; cbn [default from_option id].
  - assert (Hin : b ∈ inds i ++ bs) by (apply elem_of_app; right; by eapply list_elem_of_lookup_2).
    destruct (block_used b Hin) as [Hd Hu]. pose proof (data_range _ _ _ HY _ Hd) as (_ & _ & Hpos).
    rewrite (proj2 (Z.eqb_neq b 0)) by lia. cbn [negb]. rewrite Hdev. apply wp_bind.
    eapply wp_mono; [apply (bfree_step s V L sb ∅ (take k bs) s1 V1 L1 b HT HY Hbusy)|].
    + intros z. rewrite dom_empty_L. set_solver.
    + eapply room_mono; [|exact Hroom]. rewrite dom_empty_L. set_solver.
    + done.
    + done.
    + by apply take_fresh.
    + intros _ s2 (Hic2 & V2 & L2 & HT2). eapply wp_updi; [by rewrite Hic2|].
      rewrite cleared_next by (done || lia). split; [simpl; by rewrite Hic2, Hic, list_insert_insert_eq|].
      exists V2, L2. rewrite (take_S_r _ _ b) by done.
      by apply (truncating_icache s V L sb ∅ _ s2).
  - simpl. apply wp_ret. apply lookup_ge_None in Hb.
    split; [rewrite <-cleared_same; [done|done|lia|]|].
    + rewrite (fm_direct HF) by lia. by rewrite lookup_ge_None_2.
    + exists V1, L1. rewrite !take_ge in * by lia. done.
Qed.

(** After the indirect blocks below [NDIRECT + j], with the buffer [bp] of the
    indirect block held. *)
Definition indirect_inv (bp : nat) (ic : list inode) (j : nat) (s' : fs) : Prop :=
  icache s' = ic ∧ ∃ V' L', truncating s V L sb {[ind i := bp]} (take (NDIRECT + j) bs) s' V' L'.

Lemma itrunc_indirect bp s1 :
  ind i ≠ 0 → indirect_inv bp (icache s1) 0 s1 →
  wp (forM (seq 0 NINDIRECT) (λ j,
       B ← lift (getbuf bp);
       let a := get_u32 (4 * j) (b_data B) in
       if negb (a =? 0) then bfree 1 a else mret tt)) (λ _ s', indirect_inv bp (icache s1) NINDIRECT s') s1.
Proof.
  intros Hi HI. apply (wp_forM_seq _ (indirect_inv bp (icache s1)) NINDIRECT 0 s1 HI).
  intros j s2 Hj [Hic (V2 & L2 & HT)]. pose proof HT as [HL2 Hlog HFr _ _ _].
  assert (Hii : ind i ∈ inds i ++ bs) by (apply elem_of_app; left; by apply elem_inds).
  destruct (block_used _ Hii) as [Hdi _]. pose proof (data_range _ _ _ HY _ Hdi) as (Hi1 & Hi2 & _).
  apply wp_bind. eapply fs_getbuf; [exact HL2|apply lookup_insert_eq|]. intros B HB _.
  rewrite HB, (fr_frame _ _ _ _ _ HFr), (fm_entries HF) by (done || lia).
  destruct (bs !! (NDIRECT + j)%nat) as [b|] eqn:Hb; cbn [default from_option id].
  - assert (Hin : b ∈ inds i ++ bs) by (apply elem_of_app; right; by eapply list_elem_of_lookup_2).
    destruct (block_used b Hin) as [Hd Hu]. pose proof (data_range _ _ _ HY _ Hd) as (_ & _ & Hpos).
    rewrite (proj2 (Z.eqb_neq b 0)) by lia. cbn [negb].
    eapply wp_mono; [apply (bfree_step s V L sb {[ind i := bp]} (take (NDIRECT + j) bs) s2 V2 L2 b HT HY Hbusy)|].
    + intros z. rewrite dom_singleton_L, elem_of_singleton. by intros ->.
    + eapply room_mono; [|exact Hroom]. rewrite dom_singleton_L.
      assert (ind i ∈ (list_to_set (inds i) : gset Z)) by (apply elem_of_list_to_set; by apply elem_inds). set_solver.
    + done.
    + done.
    + by apply take_fresh.
    + intros _ s3 (Hic3 & V3 & L3 & HT3). split; [congruence|]. exists V3, L3.
      rewrite Nat.add_succ_r, (take_S_r _ _ b) by done. done.
  - simpl. apply wp_ret. apply lookup_ge_None in Hb. split; [done|]. exists V2, L2. rewrite !take_ge in * by lia. done.
Qed.

(** The inode after [itrunc]. *)
Definition empty_inode : inode := iset_size 0 (set_addrs (replicate (S NDIRECT) 0) i).

(** What [itrunc] does: the file is empty, its blocks are free, and nothing else
    has changed. *)
Record truncated (s' : fs) (V' : Z → block) (L' : list Z) : Prop := {
  td_txn : in_txn s' V' L';
  td_log : same_log (lt s) (lt s');
  td_layout : layout s' V' sb;
  td_icache : icache s' = <[ip := empty_inode]> (icache s);
  td_rep : file_rep s' V' sb empty_inode [] [];
  td_synced : synced V' empty_inode;
  td_used : ∀ b, 0 ≤ b < sb_size sb →
    used V' (sb_ninodes sb) b = negb (bool_decide (b ∈ inds i ++ bs)) && used V (sb_ninodes sb) b;
  td_frame : ∀ y, ¬ in_log (lg (lt s)) y → y ≠ bmblock sb → y ≠ IBLOCK (i_inum i) → V' y = V y;
  td_inodes : ∀ k, (k < 8)%nat → k ≠ Z.to_nat (i_inum i `mod` IPB) →
    get_dinode (sizeof_dinode * k) (V' (IBLOCK (i_inum i))) = get_dinode (sizeof_dinode * k) (V (IBLOCK (i_inum i)));
  td_L : list_to_set L' ⊆ ({[IBLOCK (i_inum i); bmblock sb]} ∪ list_to_set L : gset Z);
}.

Context (Hinum : 0 ≤ i_inum i < sb_ninodes sb) (Hsy : synced V i).

Lemma empty_ind : ind empty_inode = 0.
Proof. reflexivity. Qed.

Lemma empty_map s' V' : layout s' V' sb → file_map s' V' sb empty_inode [].
Proof.
  intros HY'. constructor.
  - reflexivity.
  - simpl. lia.
  - intros k Hk. change (i_addrs empty_inode) with (replicate (S NDIRECT) 0). rewrite lookup_nil.
    apply list_lookup_total_correct, lookup_replicate_2. lia.
  - simpl. lia.
  - intros j Hj Hi. by destruct Hi.
  - intros b Hb. unfold inds in Hb. rewrite empty_ind in Hb. set_solver.
  - unfold inds. rewrite empty_ind. constructor.
Qed.

(** The end of [itrunc], when all blocks are given back. *)
Lemma itrunc_end F s1 V1 L1 :
  truncating s V L sb ∅ F s1 V1 L1 → icache s1 = <[ip := cleared (S NDIRECT) i]> (icache s) →
  (∀ b, b ∈ F ↔ b ∈ inds i ++ bs) →
  wp (updi ip (iset_size 0);; iupdate ip) (λ _ s', ∃ V' L', truncated s' V' L') s1.
Proof.
  intros HT Hic HF'. destruct HT as [HL1 Hlog HFr HLs HY1 HFd]. pose proof Hlog as (E1 & E2 & Ebusy & _).
  assert (Hcl : iset_size 0 (cleared (S NDIRECT) i) = empty_inode).
  { unfold cleared, empty_inode. rewrite drop_ge by (rewrite (fm_len HF); lia). by rewrite app_nil_r. }
  apply wp_bind. eapply wp_updi; [rewrite Hic; apply list_lookup_insert_eq; by eapply lookup_lt_Some|].
  rewrite Hcl, Hic, list_insert_insert_eq. set (s2 := mkFs (lt s1) _).
  assert (HY2 : layout s2 V1 sb) by by destruct HY1.
  eapply wp_mono; [apply (iupdate_effect s2 V1 L1 sb ip empty_inode)|].
  - done.
  - simpl. by rewrite Ebusy.
  - done.
  - apply list_lookup_insert_eq. by eapply lookup_lt_Some.
  - done.
  - done.
  - eapply (file_map_dinode_ok s2 V1 V sb empty_inode i []); [done|by apply empty_map|simpl; lia|done..].
  - eapply fits_same; [exact Hlog|]. destruct Hroom as [Hr1 Hr2].
    assert (Hsub : (list_to_set L1 : gset Z) ⊆ {[bmblock sb]} ∪ (list_to_set (inds i) ∪ list_to_set L)) by (clear -HLs; set_solver).
    pose proof (subseteq_size _ _ Hsub) as Hsz.
    rewrite (lrep_size _ _ _ _ _ HL1) in Hsz. split; lia.
  - change (i_inum empty_inode) with (i_inum i). intros _ s3 (V3 & HL3 & Hs3 & HY3 & Hsy3 & Hoth & Hbits & Hdin).
    pose proof Hs3 as [Hic3 Hlog3].
    pose proof (IBLOCK_range sb _ Hinum) as Hr. pose proof (ly_start HY) as Hst. unfold dstart in Hst.
    exists V3, (log_add (IBLOCK (i_inum i)) L1). constructor.
    + split; [done|]. rewrite (same_fs_busy _ _ Hs3). simpl. by rewrite Ebusy.
    + by eapply same_log_trans.
    + done.
    + by rewrite Hic3.
    + split; [by apply empty_map|]. done.
    + done.
    + intros b Hb. rewrite Hbits, (fr_used _ _ _ _ _ HFr) by done. do 2 f_equal. by apply bool_decide_ext.
    + intros y Hy Hm Hi. rewrite Hoth; [by apply (fr_frame _ _ _ _ _ HFr)| |done]. unfold in_log in *. simpl. by rewrite E1, E2.
    + intros k Hk Hne. rewrite Hdin by done. f_equal. apply (fr_frame _ _ _ _ _ HFr); [unfold in_log; lia|lia].
    + rewrite log_add_set. clear -HLs. set_solver.
Qed.

Lemma itrunc_spec : wp (itrunc ip) (λ _ s', ∃ V' L', truncated s' V' L') s.
Proof.
  pose proof (fm_len HF) as Hlen. pose proof (fm_max HF) as Hmax.
  unfold itrunc. apply wp_bind. eapply wp_mono; [apply itrunc_direct|]. intros _ s1 [Hic1 (V1 & L1 & HT1)].
  apply wp_bind. eapply wp_geti; [rewrite Hic1; apply list_lookup_insert_eq; by eapply lookup_lt_Some|].
  rewrite cleared_addr by (done || lia). fold (ind i). change (i_dev (cleared NDIRECT i)) with (i_dev i). rewrite Hdev.
  apply wp_bind. destruct (Z.eqb_spec (ind i) 0) as [Hi|Hi]; cbn [negb].
  - apply wp_ret. eapply itrunc_end; [exact HT1|by rewrite <-cleared_same by (done || lia)|].
    intros b. unfold inds. rewrite Hi. by rewrite take_ge by (by apply (fm_ind HF)).
  - assert (Hii : ind i ∈ inds i ++ bs) by (apply elem_of_app; left; by apply elem_inds).
    destruct (block_used _ Hii) as [Hdi Hui]. pose proof HT1 as [HL1 Hlog1 HFr1 HLs1 HY1 HFd1]. pose proof Hlog1 as (E1 & _).
    assert (Hdi1 : data s1 sb (ind i)) by (unfold data in *; by rewrite E1).
    apply wp_bind. eapply wp_mono; [apply fs_bread_first; [done|by eapply data_home]|]. intros bp s2 [HL2 Hs2].
    pose proof Hs2 as [Hic2 Hlog2]. apply wp_bind. eapply wp_mono; [apply (itrunc_indirect bp s2 Hi)|].
    { split; [done|]. exists V1, L1. rewrite Nat.add_0_r. constructor; try done; [by eapply same_log_trans|].
      eapply layout_keep; [exact Hlog2|done..]. }
    intros _ s3 [Hic3 (V3 & L3 & HT3)]. rewrite take_ge in HT3 by exact Hmax. pose proof HT3 as [HL3 Hlog3 HFr3 HLs3 HY3 HFd3].
    apply wp_bind. eapply wp_mono; [eapply fs_brelse; [exact HL3|apply lookup_insert_eq]|].
    intros _ s4 [HL4 Hs4]. rewrite delete_singleton_eq in HL4. pose proof Hs4 as [Hic4 Hlog4].
    assert (HT4 : truncating s V L sb ∅ bs s4 V3 L3).
    { constructor; try done; [by eapply same_log_trans|]. eapply layout_keep; [exact Hlog4|done..]. }
    apply wp_bind. eapply wp_mono; [apply (bfree_step s V L sb ∅ bs s4 V3 L3 (ind i) HT4 HY Hbusy)|].
    + intros z. rewrite dom_empty_L. set_solver.
    + eapply room_mono; [|exact Hroom]. rewrite dom_empty_L. set_solver.
    + done.
    + done.
    + pose proof (fm_nodup HF) as Hnd. apply NoDup_app in Hnd as (_ & Hdis & _). apply Hdis. by apply elem_inds.
    + intros _ s5 (Hic5 & V5 & L5 & HT5).
      assert (Hic : icache s5 = <[ip := cleared NDIRECT i]> (icache s)) by congruence.
      eapply wp_updi; [rewrite Hic; apply list_lookup_insert_eq; by eapply lookup_lt_Some|].
      rewrite cleared_next by (done || lia). rewrite Hic, list_insert_insert_eq.
      eapply itrunc_end; [by apply (truncating_icache s V L sb ∅ _ s5)|done|].
      intros b. unfold inds. rewrite (proj2 (Z.eqb_neq (ind i) 0)) by done. set_solver.
Qed.

End blocks.
(** ** iput *)

(** The inode [i] with the blocks [bs] is free on disk and in the cache, and
    nothing else has changed since [s] and [V]. *)
Record inode_freed (s : fs) (V : Z → block) (sb : superblock) (ip : nat) (i : inode) (bs : list Z)
    (s' : fs) (V' : Z → block) (L' : list Z) : Prop := {
  if_txn : in_txn s' V' L';
  if_log : same_log (lt s) (lt s');
  if_layout : layout s' V' sb;
  if_icache : ∃ i', icache s' = <[ip := i']> (icache s) ∧ i_ref i' = 0 ∧ i_flags i' = 0;
  if_type : d_type (get_dinode (dinode_off (i_inum i)) (V' (IBLOCK (i_inum i)))) = 0;
  if_used : ∀ b, 0 ≤ b < sb_size sb →
    used V' (sb_ninodes sb) b = negb (bool_decide (b ∈ inds i ++ bs)) && used V (sb_ninodes sb) b;
  if_frame : ∀ y, ¬ in_log (lg (lt s)) y → y ≠ bmblock sb → y ≠ IBLOCK (i_inum i) → V' y = V y;
  if_inodes : ∀ k, (k < 8)%nat → k ≠ Z.to_nat (i_inum i `mod` IPB) →
    get_dinode (sizeof_dinode * k) (V' (IBLOCK (i_inum i))) = get_dinode (sizeof_dinode * k) (V (IBLOCK (i_inum i)));
}.

Lemma set_free_type s V L sb ip i bs s' V' L' :
  truncated s V L sb ip i bs s' V' L' → icache s !! ip = Some i → i_dev i = 1 → i_ref i = 1 →
  0 ≤ i_inum i < sb_ninodes sb → layout s V sb →
  room s ({[IBLOCK (i_inum i); bmblock sb]} ∪ (list_to_set (inds i) ∪ list_to_set L)) 1 →
  wp (updi ip (iset_type 0);; iupdate ip;; updi ip (iset_flags 0))
    (λ _, wp (updi ip (λ i, iset_ref (i_ref i - 1) i)) (λ _ s', ∃ V' L', inode_freed s V sb ip i bs s' V' L')) s'.
Proof.
  intros [[HL' Hb'] Hlog HY' Hic HR' Hsy' Hused Hframe Hdin HLs] Hip Hdev Href Hinum HY Hroom.
  set (e := empty_inode i) in *. set (e0 := iset_type 0 e). pose proof Hlog as (E1 & E2 & Ebusy & _).
  assert (Hlt : (ip < length (icache s))%nat) by by eapply lookup_lt_Some.
  apply wp_bind. eapply wp_updi; [rewrite Hic; by apply list_lookup_insert_eq|]. fold e0.
  rewrite Hic, list_insert_insert_eq. set (s2 := mkFs (lt s') _).
  assert (HY2 : layout s2 V' sb) by by destruct HY'.
  assert (Hok : dinode_ok (dinode_of e)).
  { eapply (file_map_dinode_ok s' V' V' sb e e []); [done|apply HR'|simpl; lia|done..]. }
  apply wp_bind. eapply wp_mono; [apply (iupdate_effect s2 V' L' sb ip e0)|]; try done.
  { by apply list_lookup_insert_eq. }
  { destruct Hok as (? & ? & ? & ? & ? & ? & ?). unfold dinode_ok. simpl in *. split_and!; try done; lia. }
  { eapply fits_same; [exact Hlog|]. destruct Hroom as [Hr1 Hr2].
    assert (Hsub : (list_to_set L' : gset Z) ⊆ {[IBLOCK (i_inum i); bmblock sb]} ∪ (list_to_set (inds i) ∪ list_to_set L)) by (clear -HLs; set_solver).
    apply subseteq_size in Hsub. rewrite (lrep_size _ _ _ _ _ HL') in Hsub. split; lia. }
  change (i_inum e0) with (i_inum i). intros _ s3 (V3 & HL3 & Hs3 & HY3 & Hsy3 & Hoth & Hbits & Hdin3).
  pose proof Hs3 as [Hic3' Hlog3]. assert (Hic3 : icache s3 = <[ip := e0]> (icache s)) by exact Hic3'.
  eapply wp_updi; [rewrite Hic3; by apply list_lookup_insert_eq|].
  eapply wp_updi; [apply list_lookup_insert_eq; by rewrite Hic3, length_insert|].
  rewrite Hic3. cbn [icache lt]. rewrite !list_insert_insert_eq.
  eexists V3, _. constructor; cbn [lt icache].
  - split; [exact HL3|]. simpl. by rewrite (same_fs_busy _ _ Hs3).
  - by eapply same_log_trans.
  - by destruct HY3.
  - eexists. split; [reflexivity|]. simpl. split; [lia|done].
  - unfold synced in Hsy3. change (i_inum e0) with (i_inum i) in Hsy3. by rewrite Hsy3.
  - intros b Hb. by rewrite Hbits, Hused.
  - intros y Hy Hm Hi. rewrite Hoth; [by apply Hframe| |done]. unfold in_log in *. simpl. by rewrite E1, E2.
  - intros k Hk Hne. by rewrite Hdin3, Hdin.
Qed.


End itrunc.

