(* ===== verification/File.v ===== *)
(** * Open files and pipes as files (file.c, file.h, pipealloc of pipe.c)

    The file table over the file system, the pipes and the page allocator.
    [killed] is [proc->killed] of the calling process. A pipe operation that
    sleeps is the outcome [Sleep], with the pipe as it is at that moment. *)

From S2P Require Import Prelude Buf Bio Log Fs Pipe Kalloc.

Definition NFILE : nat := 100.

Inductive fdtype := FD_NONE | FD_PIPE | FD_INODE.
#[export] Instance fdtype_eq_dec : EqDecision fdtype.
Proof. solve_decision. Defined.

(** [struct file]; [f_pipe] is the address of the pipe's page. *)
Record file := mkFile {
  f_type : fdtype;
  f_ref : Z;
  f_readable : bool;
  f_writable : bool;
  f_pipe : Z;
  f_ip : nat;
  f_off : Z;
}.

Definition fset_ref (r : Z) (f : file) : file :=
  mkFile (f_type f) r (f_readable f) (f_writable f) (f_pipe f) (f_ip f) (f_off f).
Definition fset_type (t : fdtype) (f : file) : file :=
  mkFile t (f_ref f) (f_readable f) (f_writable f) (f_pipe f) (f_ip f) (f_off f).
Definition fset_off (o : Z) (f : file) : file :=
  mkFile (f_type f) (f_ref f) (f_readable f) (f_writable f) (f_pipe f) (f_ip f) o.

(** The state below the system calls. *)
Record ft := mkFt {
  fsys : fs;
  ftable : list file;
  pipes : gmap Z pipe;
  km : kmem;
}.

#[export] Instance fs_ft : Layer fs ft := {|
  low := fsys; set_low s t := mkFt s (ftable t) (pipes t) (km t);
  low_set := λ s t, eq_refl; set_set_low := λ s s' t, eq_refl;
|}.
#[export] Instance lst_ft : Layer lst ft := {|
  low := λ t, lt (fsys t);
  set_low s t := mkFt (mkFs s (icache (fsys t))) (ftable t) (pipes t) (km t);
  low_set := λ s t, eq_refl; set_set_low := λ s s' t, eq_refl;
|}.
#[export] Instance kmem_ft : Layer kmem ft := {|
  low := km; set_low s t := mkFt (fsys t) (ftable t) (pipes t) s;
  low_set := λ s t, eq_refl; set_set_low := λ s s' t, eq_refl;
|}.

Definition getf (f : nat) : M ft file := λ s,
  match ftable s !! f with Some x => Ok x s | None => Err Undef s end.
Definition updf (f : nat) (g : file → file) : M ft unit := λ s,
  match ftable s !! f with
  | Some x => Ok tt (mkFt (fsys s) (<[f := g x]> (ftable s)) (pipes s) (km s))
  | None => Err Undef s
  end.
Definition getpipe (p : Z) : M ft pipe := λ s,
  match pipes s !! p with Some x => Ok x s | None => Err Undef s end.
Definition putpipe (p : Z) (x : pipe) : M ft unit :=
  modify (λ s, mkFt (fsys s) (ftable s) (<[p := x]> (pipes s)) (km s)).
Definition delpipe (p : Z) : M ft unit :=
  modify (λ s, mkFt (fsys s) (ftable s) (delete p (pipes s)) (km s)).

(** The first entry with no references. *)
Fixpoint filealloc_scan (l : list file) (k : nat) : option nat :=
  match l with
  | [] => None
  | f :: l' => if f_ref f =? 0 then Some k else filealloc_scan l' (S k)
  end.

Definition filealloc : M ft (option nat) :=
  l ← gets ftable;
  match filealloc_scan l 0 with
  | Some f => updf f (fset_ref 1);; mret (Some f)
  | None => mret None
  end.

Definition filedup (f : nat) : M ft nat :=
  x ← getf f;
  if f_ref x <? 1 then panic "filedup" else
  updf f (λ x, fset_ref (f_ref x + 1) x);;
  mret f.

Section File.
Context `{BD : BlockDev} (dsw : devsw) (kend : Z).

(** [pipeclose] of pipe.c on the pipe at [p]; the page is freed when both ends
    are closed. *)
Definition do_pipeclose (p : Z) (writable : bool) : M ft unit :=
  x ← getpipe p;
  let '(x', fr) := pipeclose writable x in
  if fr then
    delpipe p;;
    lift (kfree kend p)
  else putpipe p x'.

Definition fileclose (f : nat) : M ft unit :=
  x ← getf f;
  if f_ref x <? 1 then panic "fileclose" else
  updf f (λ x, fset_ref (f_ref x - 1) x);;
  if 0 <? f_ref x - 1 then mret tt else
  ff ← getf f;
  updf f (fset_ref 0);;
  updf f (fset_type FD_NONE);;
  match f_type ff with
  | FD_PIPE => do_pipeclose (f_pipe ff) (f_writable ff)
  | FD_INODE =>
      lift begin_trans;;
      lift (iput (f_ip ff));;
      lift commit_trans
  | FD_NONE => mret tt
  end.

Definition filestat (f : nat) : M ft (option stat) :=
  x ← getf f;
  if bool_decide (f_type x = FD_INODE) then
    lift (ilock (f_ip x));;
    st ← lift (stati (f_ip x));
    lift (iunlock (f_ip x));;
    mret (Some st)
  else mret None.

Definition do_piperead (p : Z) (killed : bool) (n : Z) : M ft (Z * list Z) :=
  x ← getpipe p;
  let '(x', e) := piperead killed (Z.to_nat n) x in
  putpipe p x';;
  match e with
  | RDone l => mret (Z.of_nat (length l), l)
  | RFail => mret (-1, [])
  | RSleep => stopM (Sleep "pipe nread" (Z.to_nat p))
  end.

Definition do_pipewrite (p : Z) (killed : bool) (addr : list Z) (n : Z) : M ft Z :=
  x ← getpipe p;
  let '(x', e) := pipewrite killed (take (Z.to_nat n) addr) x in
  putpipe p x';;
  match e with
  | WDone => mret n
  | WFail => mret (-1)
  | WSleep _ => stopM (Sleep "pipe nwrite" (Z.to_nat p))
  end.

(** The return value, and the bytes stored at [addr]. *)
Definition fileread (killed : bool) (f : nat) (n : Z) : M ft (Z * list Z) :=
  x ← getf f;
  if negb (f_readable x) then mret (-1, []) else
  match f_type x with
  | FD_PIPE => do_piperead (f_pipe x) killed n
  | FD_INODE =>
      lift (ilock (f_ip x));;
      r ← lift (readi dsw (f_ip x) (f_off x) (u32 n));
      (if 0 <? r.1 then updf f (λ x, fset_off (u32 (f_off x + r.1)) x) else mret tt);;
      lift (iunlock (f_ip x));;
      mret r
  | FD_NONE => panic "fileread"
  end.

(** The most a single transaction of [filewrite] writes. *)
Definition filewrite_max : Z := (Z.of_nat LOGSIZE - 1 - 1 - 2) / 2 * 512.

(** The loop of [filewrite]: [i] bytes are written; returns the final [i]. *)
Fixpoint filewrite_loop (fuel : nat) (f : nat) (addr : list Z) (i n : Z) : M ft Z :=
  if i <? n then
    match fuel with
    | O => stopM NoFuel
    | S fuel' =>
        let n1 := if n - i >? filewrite_max then filewrite_max else n - i in
        lift begin_trans;;
        x ← getf f;
        lift (ilock (f_ip x));;
        r ← lift (writei dsw (f_ip x) (drop (Z.to_nat i) addr) (f_off x) (u32 n1));
        (if 0 <? r then updf f (λ x, fset_off (u32 (f_off x + r)) x) else mret tt);;
        lift (iunlock (f_ip x));;
        lift commit_trans;;
        if r <? 0 then mret i else
        if negb (r =? n1) then panic "short filewrite" else
        filewrite_loop fuel' f addr (i + r) n
    end
  else mret i.

Definition filewrite (killed : bool) (f : nat) (addr : list Z) (n : Z) : M ft Z :=
  x ← getf f;
  if negb (f_writable x) then mret (-1) else
  match f_type x with
  | FD_PIPE => do_pipewrite (f_pipe x) killed addr n
  | FD_INODE =>
      i ← filewrite_loop (Z.to_nat n) f addr 0 n;
      mret (if i =? n then n else -1)
  | FD_NONE => panic "filewrite"
  end.

(** pipe.c: [pipealloc]; the two files of a new pipe. *)
Definition pipealloc_bad (p : Z) (f0 f1 : option nat) : M ft (option (nat * nat)) :=
  (if negb (p =? 0) then lift (kfree kend p) else mret tt);;
  (match f0 with Some f => fileclose f | None => mret tt end);;
  (match f1 with Some f => fileclose f | None => mret tt end);;
  mret None.

Definition pipealloc : M ft (option (nat * nat)) :=
  f0 ← filealloc;
  match f0 with
  | None => pipealloc_bad 0 None None
  | Some g0 =>
      f1 ← filealloc;
      match f1 with
      | None => pipealloc_bad 0 f0 None
      | Some g1 =>
          p ← lift kalloc;
          if p =? 0 then pipealloc_bad 0 f0 f1 else
          pg ← gets (λ s, pages (km s) !!! p);
          putpipe p (pipe_init (slice 52 PIPESIZE pg));;
          updf g0 (λ x, mkFile FD_PIPE (f_ref x) true false p (f_ip x) (f_off x));;
          updf g1 (λ x, mkFile FD_PIPE (f_ref x) false true p (f_ip x) (f_off x));;
          mret (Some (g0, g1))
      end
  end.

End File.

(** ** The file table *)

(** Reference counts are not negative, and an unused entry has no type: the
    state [filealloc] relies on. *)
Definition ftable_ok (l : list file) : Prop :=
  ∀ k f, l !! k = Some f → 0 ≤ f_ref f ∧ (f_ref f = 0 → f_type f = FD_NONE).

Lemma filealloc_scan_spec l : ∀ k,
  match filealloc_scan l k with
  | Some j => ∃ i f, j = (k + i)%nat ∧ l !! i = Some f ∧ f_ref f = 0
  | None => ∀ f, f ∈ l → f_ref f ≠ 0
  end.
Proof.
  induction l as [|f l IH]; intros k; simpl; [set_solver|].
  destruct (Z.eqb_spec (f_ref f) 0) as [H|H].
  - exists 0%nat, f. split_and!; [lia|done|done].
  - specialize (IH (S k)). destruct (filealloc_scan l (S k)) as [j|].
    + destruct IH as (i & g & -> & Hi & Hg). exists (S i), g. split_and!; [lia|done|done].
    + set_solver.
Qed.
