(* ===== verification/FileProps.v ===== *)
(** * Writing to an open file (filewrite of file.c)

    [filewrite] splits a write into transactions that the log can hold. The
    theorem composes the transactions of the log, the lock of the inode and the
    contents of inodes. *)

From S2P Require Import Prelude Buf Bio Log Txn Fs Pipe Kalloc FsProps Balloc Inode InodeProps File.

(** The state between two system calls, seen from the open file [x] in entry
    [f]: no transaction is open, the inode is in the cache and unlocked, and
    stands for the bytes [c]; the offset is inside of them or at their end. *)
Record open_file (t : ft) (V : Z → block) (sb : superblock) (f : nat) (x : file) (i : inode) (bs c : list Z) : Prop := {
  op_entry : ftable t !! f = Some x;
  op_rep : lrep (lt (fsys t)) V ∅ [] ∅;
  op_idle : log_busy (lg (lt (fsys t))) = 0;
  op_layout : layout (fsys t) V sb;
  op_inode : icache (fsys t) !! f_ip x = Some i;
  op_dev : i_dev i = 1;
  op_type : i_type i ≠ T_DEV;
  op_inum : 0 ≤ i_inum i < sb_ninodes sb;
  op_ref : 1 ≤ i_ref i;
  op_flags : i_flags i = I_VALID;
  op_file : file_rep (fsys t) V sb i bs c;
  op_synced : synced V i;
  op_off : 0 ≤ f_off x ≤ Z.of_nat (length c);
}.
#[global] Arguments op_entry {_} {_} {_} {_} {_} {_} {_} {_} _.
#[global] Arguments op_rep {_} {_} {_} {_} {_} {_} {_} {_} _.
#[global] Arguments op_idle {_} {_} {_} {_} {_} {_} {_} {_} _.
#[global] Arguments op_layout {_} {_} {_} {_} {_} {_} {_} {_} _.
#[global] Arguments op_inode {_} {_} {_} {_} {_} {_} {_} {_} _.
#[global] Arguments op_file {_} {_} {_} {_} {_} {_} {_} {_} _.
#[global] Arguments op_off {_} {_} {_} {_} {_} {_} {_} {_} _.

Section filewrite.
Context `{BD : BlockDev} (dsw : devsw).

(** ** Locks of inodes that are in the cache *)
Lemma wp_ilock_valid s ip i (Q : unit → fs → Prop) :
  icache s !! ip = Some i → 1 ≤ i_ref i → i_flags i = I_VALID →
  Q tt (mkFs (lt s) (<[ip := iset_flags 3 i]> (icache s))) → wp (ilock ip) Q s.
Proof.
  intros Hip Hr Hf HQ. unfold ilock. apply wp_bind. eapply wp_geti; [done|].
  rewrite (proj2 (Z.ltb_ge _ _)) by lia. rewrite Hf. apply wp_bind. eapply wp_updi; [done|]. rewrite Hf. by apply wp_ret.
Qed.

Lemma wp_iunlock_busy s ip i (Q : unit → fs → Prop) :
  icache s !! ip = Some i → 1 ≤ i_ref i → i_flags i = 3 →
  Q tt (mkFs (lt s) (<[ip := iset_flags I_VALID i]> (icache s))) → wp (iunlock ip) Q s.
Proof.
  intros Hip Hr Hf HQ. unfold iunlock. apply wp_bind. eapply wp_geti; [done|]. rewrite Hf.
  rewrite (proj2 (Z.ltb_ge _ _)) by lia. simpl. eapply wp_updi; [done|]. by rewrite Hf.
Qed.

(** ** Contents that agree outside of the log *)
Lemma agree_used s V W sb b :
  layout s V sb → agree s W V → 0 ≤ b < sb_size sb → used W (sb_ninodes sb) b = used V (sb_ninodes sb) b.
Proof.
  intros HY HA Hb. eapply layout_used; [done| |done]. apply HA. pose proof (ly_start HY).
  pose proof (bmblock_pos sb (ly_ninodes HY)). unfold dstart, in_log in *. lia.
Qed.

Lemma layout_agree s V W sb : layout s V sb → agree s W V → layout s W sb.
Proof.
  intros HY HA. pose proof (bmblock_pos sb (ly_ninodes HY)). pose proof (ly_start HY) as Hst.
  pose proof (ly_log HY). pose proof (ly_log_size HY). unfold dstart in Hst.
  eapply layout_keep; [apply same_log_refl|exact HY| |].
  - apply HA. unfold in_log. lia.
  - intros b Hb Hu. unfold dstart in Hb. by rewrite (agree_used s V) by (done || lia).
Qed.

Lemma file_map_agree s V W sb i bs : layout s V sb → agree s W V → file_map s V sb i bs → file_map s W sb i bs.
Proof.
  intros HY HA HF. pose proof (fm_data HF) as Hd.
  assert (Hb : ∀ b, b ∈ inds i ++ bs → W b = V b ∧ used W (sb_ninodes sb) b = true).
  { intros b Hb. destruct (Hd b Hb) as [Hdb Hu]. destruct (data_range _ _ _ HY _ Hdb) as (? & ? & ?).
    split; [by apply HA|]. pose proof (bmblock_pos sb (ly_ninodes HY)). rewrite (agree_used s V) by (done || lia). done. }
  destruct HF. constructor; try done.
  - intros j Hj Hi. rewrite (proj1 (Hb (ind i) ltac:(apply elem_of_app; left; by apply elem_inds))). auto.
  - intros b Hb'. split; [by apply Hd|by apply Hb].
Qed.

Lemma file_rep_agree s V W sb i bs c : layout s V sb → agree s W V → file_rep s V sb i bs c → file_rep s W sb i bs c.
Proof.
  intros HY HA (HF & Hsz & Hlen & Hby). split; [by eapply file_map_agree|]. split; [done|]. split; [done|].
  intros x Hx. rewrite <-Hby by done. apply fbyte_kept. intros b Hb. apply HA.
  eapply data_range; [done|]. apply (fm_data HF), elem_of_app. by right.
Qed.

Lemma only_file_agree s sb inum V bl V' W bl' :
  layout s V sb → layout s V' sb → 0 ≤ inum < sb_ninodes sb → agree s W V' →
  only_file s sb inum V bl V' bl' → only_file s sb inum V bl W bl'.
Proof.
  intros HY HY' Hn HA [K F U Fr I]. constructor; try done.
  - intros b Hb. rewrite (agree_used s V') by done. by apply U.
  - intros y Hy Hm Hi Hb. rewrite HA by done. by apply Fr.
  - intros k Hk Hne. rewrite HA; [by apply I|]. pose proof (IBLOCK_range sb _ Hn). pose proof (ly_start HY).
    unfold dstart, in_log in *. lia.
Qed.

Lemma only_file_trans s sb inum V bl V1 bl1 V2 bl2 :
  (∀ b, b ∈ bl2 → 0 ≤ b < sb_size sb) → only_file s sb inum V bl V1 bl1 → only_file s sb inum V1 bl1 V2 bl2 →
  only_file s sb inum V bl V2 bl2.
Proof.
  intros Hr [K1 F1 U1 R1 I1] [K2 F2 U2 R2 I2]. constructor.
  - auto.
  - intros b Hb. destruct (F2 b Hb) as [Hb1|Hu]; [by apply F1|]. right. rewrite U1 in Hu by auto.
    by apply orb_false_elim in Hu as [_ ?].
  - intros b Hb. rewrite U2, U1, orb_assoc by done. f_equal.
    destruct (bool_decide (b ∈ bl1)) eqn:E; [|by rewrite orb_false_r].
    apply bool_decide_eq_true in E. rewrite bool_decide_true; [done|auto].
  - intros y Hy Hm Hi Hb. rewrite R2, R1; auto.
  - intros k Hk Hne. rewrite I2, I1; auto.
Qed.

(** ** States with the same geometry *)
Definition same_geo (s s' : fs) : Prop :=
  log_start (lg (lt s')) = log_start (lg (lt s)) ∧ log_size (lg (lt s')) = log_size (lg (lt s)) ∧
  length (disk (blk (lt s'))) = length (disk (blk (lt s))).

Lemma same_geo_trans s1 s2 s3 : same_geo s1 s2 → same_geo s2 s3 → same_geo s1 s3.
Proof. unfold same_geo. intuition congruence. Qed.
Lemma same_log_geo s s' : same_log (lt s) (lt s') → same_geo s s'.
Proof. unfold same_log, same_geo. tauto. Qed.
Lemma same_geo_sym s s' : same_geo s s' → same_geo s' s.
Proof. unfold same_geo. intuition congruence. Qed.

Lemma layout_geo s s' V sb : same_geo s s' → layout s V sb → layout s' V sb.
Proof. intros (E1 & E2 & E3) []. constructor; rewrite ?E1, ?E2, ?E3; done. Qed.
Lemma file_map_geo s s' V sb i bs : same_geo s s' → file_map s V sb i bs → file_map s' V sb i bs.
Proof. intros (E1 & _) []. constructor; try done. unfold data. rewrite E1. done. Qed.
Lemma file_rep_geo s s' V sb i bs c : same_geo s s' → file_rep s V sb i bs c → file_rep s' V sb i bs c.
Proof. intros Hs (HF & ?). split; [by eapply file_map_geo|done]. Qed.
Lemma only_file_geo s s' sb inum V bl V' bl' :
  same_geo s s' → only_file s sb inum V bl V' bl' → only_file s' sb inum V bl V' bl'.
Proof. intros (E1 & E2 & _) []. constructor; try done. unfold in_log in *. by rewrite E1, E2. Qed.
Lemma free_geo s s' V sb : same_geo s s' → free_blocks s' V sb = free_blocks s V sb.
Proof. intros (E & _). unfold free_blocks. by rewrite E. Qed.
Lemma agree_geo s s' V W : same_geo s s' → agree s V W → agree s' V W.
Proof. intros (E1 & E2 & _) HA y Hy. apply HA. unfold in_log in *. by rewrite <-E1, <-E2. Qed.
Lemma free_agree s V W sb : layout s V sb → agree s W V → free_blocks s W sb = free_blocks s V sb.
Proof.
  intros HY HA. pose proof (ly_log HY). pose proof (ly_log_size HY). apply set_eq. intros x. rewrite !elem_free_blocks.
  split; (intros [Hx Hu]; split; [done|]); [rewrite <-(agree_used s V W)|rewrite (agree_used s V W)]; done || lia.
Qed.

(** ** The log holds one turn of filewrite *)
Lemma weight_idle s V sb i bs : layout s V sb → file_map s V sb i bs → (weight sb i [] <= 2)%nat.
Proof.
  intros HY HF. unfold weight, spare. rewrite list_to_set_nil, union_empty_r_L. unfold inds.
  destruct (Z.eqb_spec (ind i) 0).
  - rewrite list_to_set_nil, union_empty_r_L, size_singleton. lia.
  - rewrite list_to_set_singleton. pose proof (size_union_le {[bmblock sb]} ({[ind i]} : gset Z)) as H.
    rewrite !size_singleton in H. lia.
Qed.

Lemma touched_max o m : Z.of_nat m ≤ filewrite_max → (touched o m <= 4)%nat.
Proof.
  intros Hm. assert (filewrite_max = 1536) as E by reflexivity. rewrite E in Hm.
  unfold touched. destruct (Nat.eqb_spec m 0); [lia|]. destruct (div_BSIZE o) as [Hd Hr].
  assert (blocks_for (o + m) <= o / BSIZE + 4)%nat; [|lia]. apply blocks_for_le. unfold BSIZE in *. lia.
Qed.

(** ** One turn of the loop *)
Lemma wp_getf t f x (Q : file → ft → Prop) : ftable t !! f = Some x → Q x t → wp (getf f) Q t.
Proof. intros Hf HQ. unfold wp, getf. by rewrite Hf. Qed.
Lemma wp_updf t f x g (Q : unit → ft → Prop) :
  ftable t !! f = Some x → Q tt (mkFt (fsys t) (<[f := g x]> (ftable t)) (pipes t) (km t)) → wp (updf f g) Q t.
Proof. intros Hf HQ. unfold wp, updf. by rewrite Hf. Qed.

(** What a write leaves alone: every other open file, the pipes, the pages, the
    other inodes in the cache, and what is not of the file on disk. *)
Record only_this (t : ft) (sb : superblock) (f : nat) (V : Z → block) (x : file) (i : inode) (bs : list Z)
    (t' : ft) (V' : Z → block) (x' : file) (i' : inode) (bs' : list Z) : Prop := {
  ot_geo : same_geo (fsys t) (fsys t');
  ot_ftable : ftable t' = <[f := x']> (ftable t);
  ot_pipes : pipes t' = pipes t;
  ot_km : km t' = km t;
  ot_icache : icache (fsys t') = <[f_ip x := i']> (icache (fsys t));
  ot_inode : i' = set_addrs (i_addrs i') (iset_size (i_size i') i);
  ot_disk : only_file (fsys t) sb (i_inum i) V (inds i ++ bs) V' (inds i' ++ bs');
  ot_free : (size (free_blocks (fsys t) V sb) + spare i' + length bs <=
             size (free_blocks (fsys t') V' sb) + spare i + length bs')%nat;
}.
#[local] Arguments ot_geo {_} {_} {_} {_} {_} {_} {_} {_} {_} {_} {_} {_} _.

Lemma filewrite_turn {A} t V sb f x i bs c src o m (rest : Z → M ft A) Q :
  open_file t V sb f x i bs c → f_off x = Z.of_nat o → 8 ≤ log_size (lg (lt (fsys t))) →
  (0 < m <= length src)%nat → Z.of_nat m ≤ filewrite_max → Z.of_nat (o + m) ≤ Z.of_nat (MAXFILE * BSIZE) →
  (blocks_for (o + m) - length bs + spare i <= size (free_blocks (fsys t) V sb))%nat →
  (∀ t' V' i' bs', let x' := fset_off (Z.of_nat (o + m)) x in
     open_file t' V' sb f x' i' bs' (splice o (take m src) c) → only_this t sb f V x i bs t' V' x' i' bs' →
     wp (rest (Z.of_nat m)) Q t') →
  wp (lift begin_trans;;
      x ← getf f;
      lift (ilock (f_ip x));;
      r ← lift (writei dsw (f_ip x) src (f_off x) (Z.of_nat m));
      (if 0 <? r then updf f (λ x, fset_off (u32 (f_off x + r)) x) else mret tt);;
      lift (iunlock (f_ip x));;
      lift commit_trans;;
      rest r) Q t.
Proof.
  intros HO Ho Hls Hm Hmax Hend Hfree Hrest. destruct HO as [Hf HL Hidle HY Hip Hdev Hty Hinum Href Hfl HR Hsy Hoff].
  apply wp_bind, wp_lift. eapply wp_begin; [exact HL|exact Hidle|]. intros HL1.
  apply wp_bind. eapply wp_getf; [exact Hf|]. apply wp_bind, wp_lift. eapply wp_ilock_valid; [exact Hip|done|done|].
  set (ib := iset_flags 3 i). set (s1 := mkFs _ _). simpl set_low.
  assert (HG1 : same_geo (fsys t) s1) by done.
  assert (HT1 : in_txn s1 V []) by by split.
  assert (HY1 : layout s1 V sb) by by eapply layout_geo.
  assert (HR1 : file_rep s1 V sb ib bs c).
  { destruct HR as ([] & ?). split; [by constructor|done]. }
  assert (Hip1 : icache s1 !! f_ip x = Some ib) by (apply list_lookup_insert_eq; by eapply lookup_lt_Some).
  apply wp_bind, wp_lift. simpl low. rewrite Ho. eapply wp_mono; [apply (writei_ok dsw s1 V [] sb (f_ip x) ib bs c src o m)|]; try done.
  { lia. } { lia. }
  { split; unfold LOGSIZE; simpl; pose proof (weight_idle s1 V sb ib bs HY1 (proj1 HR1)); pose proof (touched_max o m Hmax); lia. }
  { rewrite (free_geo _ _ _ _ HG1). unfold need. change (spare ib) with (spare i). case_match; lia. }
  intros r s2 (-> & V2 & L2 & i2 & bs2 & HW & Hfr2). simpl set_low.
  destruct HW as [HT2 HY2 Hlog2 Hic2 Hi2 HR2 Hsy2 HO2].
  rewrite (proj2 (Z.ltb_lt _ _)) by lia.
  assert (HMB : Z.of_nat (MAXFILE * BSIZE) = 71680) by reflexivity.
  assert (Hu : u32 (f_off x + Z.of_nat m) = Z.of_nat (o + m)) by (rewrite Ho, <-Nat2Z.inj_add, u32_small by lia; reflexivity).
  clear HMB Hend.
  apply wp_bind. eapply wp_updf; [exact Hf|]. rewrite Hu. simpl. set (x' := fset_off _ x).
  assert (Hip2 : icache s2 !! f_ip x = Some i2) by (rewrite Hic2; apply list_lookup_insert_eq; by eapply lookup_lt_Some).
  apply wp_bind, wp_lift. eapply wp_iunlock_busy; [exact Hip2|by rewrite Hi2|by rewrite Hi2|].
  set (i3 := iset_flags I_VALID i2). simpl.
  apply wp_bind, wp_lift. simpl low. eapply wp_mono; [apply (commit_trans_spec _ V2 L2); apply HT2|].
  intros _ t3 (V3 & HL3 & HV3 & Est & Esz & Hb3 & Hd3 & _). simpl set_low.
  set (s3 := mkFs t3 _).
  assert (HG2 : same_geo s1 s2) by by apply same_log_geo.
  assert (HG3 : same_geo s2 s3) by (unfold same_geo; simpl; by rewrite Est, Esz, Hd3, length_apply_writes).
  assert (HGt : same_geo (fsys t) s3) by (eapply same_geo_trans; [exact HG1|by eapply same_geo_trans]).
  assert (HA : agree s2 V3 V2).
  { intros y Hy. apply HV3. intros E. apply Hy. pose proof (ly_log_size HY2). unfold in_log. lia. }
  assert (Hi3 : i3 = set_addrs (i_addrs i3) (iset_size (i_size i3) i)).
  { unfold i3. rewrite Hi2. unfold ib. destruct i; simpl in *. by rewrite Hfl. }
  assert (HF3 : file_rep s3 V3 sb i3 bs2 (splice o (take m src) c)).
  { eapply file_rep_geo; [exact HG3|]. eapply file_rep_agree; [exact HY2|exact HA|]. destruct HR2 as ([] & ?). split; [by constructor|done]. }
  apply (Hrest _ V3 i3 bs2).
  - constructor; simpl; try done.
    + apply list_lookup_insert_eq. by eapply lookup_lt_Some.
    + eapply layout_geo; [exact HG3|]. by eapply layout_agree.
    + apply list_lookup_insert_eq. by eapply lookup_lt_Some.
    + by rewrite Hi2.
    + by rewrite Hi2.
    + by rewrite Hi2.
    + by rewrite Hi2.
    + unfold synced. simpl. rewrite HA; [exact Hsy2|]. rewrite Hi2. simpl.
      pose proof (IBLOCK_range sb _ Hinum). pose proof (ly_start HY2). unfold dstart, in_log in *. lia.
    + rewrite length_splice_le, length_take by lia. lia.
  - constructor; simpl; try done.
    + rewrite Hic2. unfold s1. simpl. by rewrite !list_insert_insert_eq.
    + eapply only_file_geo; [apply same_geo_sym; exact HG1|]. eapply only_file_agree; [exact HY1| |done| |exact HO2].
      * eapply layout_geo; [apply same_geo_sym; exact HG2|exact HY2].
      * eapply agree_geo; [apply same_geo_sym; exact HG2|exact HA].
    + rewrite (free_geo s2 s3) by done. rewrite (free_agree s2 V2 V3) by done. exact Hfr2.
Qed.

Lemma splice_app {A} o (d1 d2 l : list A) :
  (o <= length l)%nat → splice (o + length d1) d2 (splice o d1 l) = splice o (d1 ++ d2) l.
Proof.
  intros Ho. apply list_eq. intros x.
  rewrite lookup_splice_le by (rewrite length_splice_le by done; lia). rewrite !lookup_splice_le, length_app by done.
  destruct (decide (o + length d1 <= x < o + length d1 + length d2)%nat).
  - rewrite decide_True, lookup_app_r by lia. f_equal. lia.
  - destruct (decide (o <= x < o + length d1)%nat).
    + by rewrite decide_True, lookup_app_l by lia.
    + by rewrite decide_False by lia.
Qed.

Lemma only_this_refl t sb f V x i bs c :
  open_file t V sb f x i bs c → only_this t sb f V x i bs t V x i bs.
Proof.
  intros HO. constructor; try done.
  - by rewrite list_insert_id by apply HO.
  - by rewrite list_insert_id by apply HO.
  - by destruct i.
  - destruct (op_file HO) as (HF & _). constructor; try done.
    + by left.
    + intros b _. case_bool_decide as Hb; [|done]. by eapply file_map_used.
Qed.

Lemma only_this_trans t sb f V x i bs t1 V1 x1 i1 bs1 t2 V2 x2 i2 bs2 c2 :
  open_file t2 V2 sb f x2 i2 bs2 c2 → f_ip x1 = f_ip x →
  only_this t sb f V x i bs t1 V1 x1 i1 bs1 → only_this t1 sb f V1 x1 i1 bs1 t2 V2 x2 i2 bs2 →
  only_this t sb f V x i bs t2 V2 x2 i2 bs2.
Proof.
  intros HO Hipx [G1 F1 P1 K1 I1 N1 D1 S1] [G2 F2 P2 K2 I2 N2 D2 S2].
  assert (Hnum : i_inum i1 = i_inum i) by by rewrite N1.
  constructor.
  - by eapply same_geo_trans.
  - by rewrite F2, F1, list_insert_insert_eq.
  - congruence.
  - congruence.
  - by rewrite I2, I1, Hipx, list_insert_insert_eq.
  - rewrite N2, N1. done.
  - eapply only_file_trans; [|exact D1|].
    + intros b Hb. destruct (op_file HO) as (HF & _). destruct (fm_data HF _ Hb) as [Hd _].
      pose proof (data_range _ _ _ (op_layout HO) _ Hd) as (? & _). pose proof (bmblock_pos sb (ly_ninodes (op_layout HO))). lia.
    + rewrite <-Hnum. eapply only_file_geo; [apply same_geo_sym; exact G1|exact D2].
  - lia.
Qed.

Lemma filewrite_loop_spec sb f addr n : ∀ fuel t V x i bs c o k,
  open_file t V sb f x i bs c → f_off x = Z.of_nat o → 8 ≤ log_size (lg (lt (fsys t))) →
  (k <= n <= length addr)%nat → (n - k <= fuel)%nat → Z.of_nat (o + (n - k)) ≤ Z.of_nat (MAXFILE * BSIZE) →
  (blocks_for (o + (n - k)) - length bs + spare i <= size (free_blocks (fsys t) V sb))%nat →
  wp (filewrite_loop dsw fuel f addr (Z.of_nat k) (Z.of_nat n)) (λ r t', r = Z.of_nat n ∧ ∃ V' i' bs',
    let x' := fset_off (Z.of_nat (o + (n - k))) x in
    open_file t' V' sb f x' i' bs' (splice o (take (n - k) (drop k addr)) c) ∧
    only_this t sb f V x i bs t' V' x' i' bs') t.
Proof.
  induction fuel as [|fuel IH]; intros t V x i bs c o k HO Ho Hls Hk Hfuel Hend Hfree.
  all: destruct (decide (k = n)) as [->|Hne]; [|try lia].
  1, 2: cbn [filewrite_loop]; rewrite Z.ltb_irrefl; apply wp_ret; split; [done|]; exists V, i, bs;
    rewrite Nat.sub_diag, take_0, Nat.add_0_r; pose proof (op_off HO) as Hoc;
    assert (Hx : fset_off (Z.of_nat o) x = x) by (rewrite <-Ho; by destruct x);
    assert (Hc : splice o [] c = c) by (unfold splice; simpl; rewrite Nat.add_0_r; apply take_drop);
    rewrite Hx, Hc; split; [done|by eapply only_this_refl].
  cbn [filewrite_loop]. rewrite (proj2 (Z.ltb_lt _ _)) by lia. rewrite Z.gtb_ltb.
  assert (Hfm : filewrite_max = 1536) by reflexivity.
  set (m := Nat.min (n - k) 1536).
  assert ((if filewrite_max <? Z.of_nat n - Z.of_nat k then filewrite_max else Z.of_nat n - Z.of_nat k) = Z.of_nat m) as ->.
  { rewrite Hfm. unfold m. destruct (Z.ltb_spec 1536 (Z.of_nat n - Z.of_nat k)); lia. }
  assert (Hm : (0 < m <= n - k)%nat) by (unfold m; lia). assert (Hm2 : Z.of_nat m ≤ 1536) by (unfold m; lia). clearbody m.
  rewrite (u32_small (Z.of_nat m)) by lia. rewrite Nat2Z.id.
  assert (Hmono : (blocks_for (o + m) <= blocks_for (o + (n - k)))%nat).
  { apply blocks_for_mono. lia. }
  apply (filewrite_turn t V sb f x i bs c (drop k addr) o m
    (λ r, if r <? 0 then mret (Z.of_nat k) else if negb (r =? Z.of_nat m) then panic "short filewrite"
          else filewrite_loop dsw fuel f addr (Z.of_nat k + r) (Z.of_nat n))).
  - done.
  - done.
  - done.
  - rewrite length_drop. lia.
  - by rewrite Hfm.
  - lia.
  - lia.
  - intros t1 V1 i1 bs1 x1 HO1 HT1. rewrite (proj2 (Z.ltb_ge _ _)) by lia. rewrite Z.eqb_refl. simpl negb. cbv iota.
    rewrite <-Nat2Z.inj_add. pose proof (op_file HO) as (HF & _ & Hlen & _). pose proof (op_file HO1) as (HF1 & _ & Hlen1 & _).
    pose proof (op_off HO) as Hoc.
    assert (Hl1 : length (take m (drop k addr)) = m) by (rewrite length_take, length_drop; lia).
    rewrite length_splice_le, Hl1 in Hlen1 by lia.
    eapply wp_mono; [apply (IH t1 V1 x1 i1 bs1 _ (o + m)%nat (k + m)%nat HO1)|].
    + done.
    + destruct (ot_geo HT1) as (_ & E & _). by rewrite E.
    + lia.
    + lia.
    + replace (o + m + (n - (k + m)))%nat with (o + (n - k))%nat by lia. exact Hend.
    + replace (o + m + (n - (k + m)))%nat with (o + (n - k))%nat by lia. pose proof (ot_free _ _ _ _ _ _ _ _ _ _ _ _ HT1).
      rewrite blocks_for_max, <-Hlen in Hlen1. lia.
    + intros r t2 (-> & V2 & i2 & bs2 & HO2 & HT2). split; [done|]. exists V2, i2, bs2.
      replace (o + m + (n - (k + m)))%nat with (o + (n - k))%nat in * by lia.
      change (fset_off (Z.of_nat (o + (n - k))) x1) with (fset_off (Z.of_nat (o + (n - k))) x) in *.
      rewrite <-Hl1 in HO2 at 1. rewrite splice_app in HO2 by lia.
      replace (take m (drop k addr) ++ take (n - (k + m)) (drop (k + m) addr)) with (take (n - k) (drop k addr)) in HO2.
      2: { rewrite <-drop_drop. replace (n - k)%nat with (m + (n - (k + m)))%nat by lia. symmetry. apply take_take_drop. }
      split; [done|]. refine (only_this_trans _ _ _ _ _ _ _ _ _ x1 _ _ _ _ _ _ _ _ HO2 (eq_refl : f_ip x1 = f_ip x) HT1 HT2).
Qed.

(** C4: [filewrite] to an open file that is not a device, when the offset and
    the count stay below the largest file size and there are enough free blocks:
    the transactions that it splits the write into never fill the log, so that
    no [log_write] panics, whatever the alignment of the offset; it returns the
    count, the bytes of the file from the offset on are those written, the
    offset moves by the count, the log is idle, and nothing else changes: no
    other open file, inode in the cache, inode on disk, bit of the bitmap or
    block of another file. *)
Theorem filewrite_correct t V sb f x i bs c killed addr n :
  open_file t V sb f x i bs c → f_type x = FD_INODE → f_writable x = true → 8 ≤ log_size (lg (lt (fsys t))) →
  0 ≤ n ≤ Z.of_nat (length addr) → f_off x + n ≤ Z.of_nat (MAXFILE * BSIZE) →
  (blocks_for (Z.to_nat (f_off x + n)) - length bs + spare i <= size (free_blocks (fsys t) V sb))%nat →
  wp (filewrite dsw killed f addr n) (λ r t', r = n ∧ ∃ V' i' bs',
    let x' := fset_off (f_off x + n) x in
    open_file t' V' sb f x' i' bs' (splice (Z.to_nat (f_off x)) (take (Z.to_nat n) addr) c) ∧
    only_this t sb f V x i bs t' V' x' i' bs') t.
Proof.
  intros HO Hty Hw Hls Hn Hend Hfree. unfold filewrite. apply wp_bind. eapply wp_getf; [apply HO|]. rewrite Hw, Hty. simpl negb. cbv iota.
  pose proof (op_off HO). destruct (Z_of_nat_complete (f_off x)) as [o Ho]; [lia|]. destruct (Z_of_nat_complete n) as [m ->]; [lia|].
  rewrite Ho, <-Nat2Z.inj_add, !Nat2Z.id in *. apply wp_bind.
  eapply wp_mono; [apply (filewrite_loop_spec sb f addr m m t V x i bs c o 0 HO Ho Hls)|]; rewrite ?Nat.sub_0_r; try lia.
  - intros r t' (-> & V' & i' & bs' & HO' & HT'). apply wp_ret. rewrite Z.eqb_refl.
    split; [done|]. exists V', i', bs'. exact (conj HO' HT').
Qed.

End filewrite.

(** ** The file of [InodeProps.v], opened for writing at its end *)
Definition abc_file : file := mkFile FD_INODE 1 true true 0 0 3.

Lemma abc_open :
  ∃ t V, let sb := mkSb 20 0 7 10 in
    open_file t V sb 0 abc_file (iset_flags I_VALID abc_inode) [4] [97; 98; 99] ∧ log_size (lg (lt (fsys t))) = 10 ∧
    {[6; 7; 8; 9]} ⊆ free_blocks (fsys t) V sb.
Proof.
  destruct abc_boot as (t & V & HL & Hb & Hsz & Hall).
  set (s := mkFs t (<[0%nat := iset_flags I_VALID abc_inode]> icache0)).
  destruct (Hall s (or_introl eq_refl)) as (HY & Hfree & HR & Hsy & _).
  exists (mkFt s [abc_file] ∅ (mkKmem true 0 ∅)), V. split; [|done].
  constructor; try done.
  - destruct HR as ([] & ?). split; [by constructor|done].
Qed.

Lemma filewrite_correct_witness :
  ∃ t t', filewrite no_devices false 0 (replicate 2000 120) 2000 t = Ok 2000 t'.
Proof.
  destruct abc_open as (t & V & HO & Hls & Hfree). exists t.
  assert (Hw : wp (filewrite no_devices false 0 (replicate 2000 120) 2000) (λ r _, r = 2000) t).
  { eapply wp_mono; [apply (filewrite_correct no_devices t V (mkSb 20 0 7 10) 0 abc_file (iset_flags I_VALID abc_inode) [4]
      [97; 98; 99] false (replicate 2000 120) 2000 HO)|].
    - reflexivity.
    - reflexivity.
    - lia.
    - rewrite length_replicate. lia.
    - vm_compute. congruence.
    - apply subseteq_size in Hfree. etransitivity; [|exact Hfree]. vm_compute. lia.
    - intros r t' [-> _]. reflexivity. }
  apply wp_Ok in Hw as (r & t' & Hrun & ->). by exists t'.
Defined.
