(* ===== verification/Mkfs.v ===== *)
(** * The file system builder (mkfs.c)

    The program of the host that writes the first image of the disk: the super
    block, the root directory, one file for each argument and the bitmap. Its
    image is a list of sectors. A call of exit(1) and a failed assert are the
    outcome [Panic]. The host is little endian, as the conversions [xshort] and
    [xint] allow, and its files are given by what open and read return. *)

From S2P Require Import Prelude Cstring Buf Log Fs.

(** ** State *)
Definition nblocks : Z := 985.
Definition nlog : Z := Z.of_nat LOGSIZE.
Definition ninodes : Z := 200.
Definition fssize : Z := 1024.

(** The image behind [fsfd] and the global counters. *)
Record mk := mkMk {
  img : list block;
  freeblock : Z;
  usedblocks : Z;
  freeinode : Z;
}.

Definition set_img (f : list block → list block) (m : mk) : mk :=
  mkMk (f (img m)) (freeblock m) (usedblocks m) (freeinode m).

(** The bytes in memory of the result, read back by the host. *)
Definition xshort (x : Z) : Z := get_u16 0 [u8 x; u8 (Z.shiftr x 8)].
Definition xint (x : Z) : Z :=
  get_u32 0 [u8 x; u8 (Z.shiftr x 8); u8 (Z.shiftr x 16); u8 (Z.shiftr x 24)].

Definition assert (b : bool) : M mk unit := if b then mret tt else panic "assert".

(** ** Sectors *)

(** A write behind the end of the image fills the gap with zeros. *)
Definition wsect (sec : Z) (buf : block) : M mk unit :=
  modify (set_img (λ d,
    let k := Z.to_nat sec in
    if (k <? length d)%nat then <[k := buf]> d
    else d ++ replicate (k - length d) (replicate BSIZE 0) ++ [buf])).

Definition rsect (sec : Z) : M mk block :=
  m ← getM;
  match img m !! Z.to_nat sec with
  | Some b => mret b
  | None => panic "read"
  end.

(** ** Inodes *)
Definition i2b (inum : Z) : Z := inum / IPB + 2.

Definition winode (inum : Z) (ip : dinode) : M mk unit :=
  buf ← rsect (i2b inum);
  wsect (i2b inum) (put_dinode (dinode_off inum) ip buf).

Definition rinode (inum : Z) : M mk dinode :=
  buf ← rsect (i2b inum);
  mret (get_dinode (dinode_off inum) buf).

Definition mkfs_ialloc (type : Z) : M mk Z :=
  m ← getM;
  let inum := freeinode m in
  putM (mkMk (img m) (freeblock m) (usedblocks m) (u32 (inum + 1)));;
  winode inum (mkDinode (xshort type) 0 0 (xshort 1) (xint 0) (replicate (S NDIRECT) 0));;
  mret inum.

(** [freeblock++] with [usedblocks++]. *)
Definition take_block : M mk Z :=
  m ← getM;
  putM (mkMk (img m) (u32 (freeblock m + 1)) (u32 (usedblocks m + 1)) (freeinode m));;
  mret (freeblock m).

(** The bits of the first [used] blocks. *)
Definition bitmap_of (used : nat) : block :=
  foldl (λ buf i, <[(i / 8)%nat := Z.lor (buf !!! (i / 8)%nat) (Z.shiftl 1 (Z.of_nat i `mod` 8))]> buf)
    (replicate BSIZE 0) (seq 0 used).

Definition mkfs_balloc (used : Z) : M mk unit :=
  assert (used <? 512 * 8);;
  wsect (ninodes / IPB + 3) (bitmap_of (Z.to_nat used)).

Definition set_addr (k : nat) (a : Z) (di : dinode) : dinode :=
  mkDinode (d_type di) (d_major di) (d_minor di) (d_nlink di) (d_size di) (<[k := a]> (d_addrs di)).
Definition set_size (n : Z) (di : dinode) : dinode :=
  mkDinode (d_type di) (d_major di) (d_minor di) (d_nlink di) n (d_addrs di).

(** The sector of block [fbn] of the file, taken when it is not there yet. *)
Definition mkfs_bmap (din : dinode) (fbn : Z) : M mk (dinode * Z) :=
  if fbn <? Z.of_nat NDIRECT then
    let k := Z.to_nat fbn in
    din ← (if xint (d_addrs din !!! k) =? 0 then a ← take_block; mret (set_addr k (xint a) din)
           else mret din);
    mret (din, xint (d_addrs din !!! k))
  else
    din ← (if xint (d_addrs din !!! NDIRECT) =? 0 then
             a ← take_block; mret (set_addr NDIRECT (xint a) din)
           else mret din);
    indirect ← rsect (xint (d_addrs din !!! NDIRECT));
    let j := (4 * Z.to_nat (fbn - Z.of_nat NDIRECT))%nat in
    indirect ← (if get_u32 j indirect =? 0 then
                  a ← take_block;
                  let indirect := put_32 j (xint a) indirect in
                  wsect (xint (d_addrs din !!! NDIRECT)) indirect;;
                  mret indirect
                else mret indirect);
    mret (din, xint (get_u32 j indirect)).

(** The loop of [iappend]; every turn takes at least one of the [n] bytes, so
    their number is enough fuel. *)
Fixpoint iappend_loop (fuel : nat) (din : dinode) (off : Z) (p : list Z) : M mk (dinode * Z) :=
  match p with
  | [] => mret (din, off)
  | _ =>
      match fuel with
      | O => stopM NoFuel
      | S fuel' =>
          let fbn := off / 512 in
          assert (fbn <? Z.of_nat MAXFILE);;
          r ← mkfs_bmap din fbn;
          let n1 := min (Z.of_nat (length p)) ((fbn + 1) * 512 - off) in
          buf ← rsect r.2;
          wsect r.2 (splice (Z.to_nat (off - fbn * 512)) (take (Z.to_nat n1) p) buf);;
          iappend_loop fuel' r.1 (u32 (off + n1)) (drop (Z.to_nat n1) p)
      end
  end.

Definition iappend (inum : Z) (p : list Z) : M mk unit :=
  din ← rinode inum;
  r ← iappend_loop (length p) din (xint (d_size din)) p;
  winode inum (set_size (xint r.2) r.1).

(** ** main *)

(** An argument: its name, without the terminator, and what the host answers:
    [None] when open fails, otherwise the results of read. *)
Record hostfile := mkHost { h_name : list Z; h_reads : option (list (list Z)) }.

(** [while((cc = read(fd, buf, sizeof(buf))) > 0) iappend(inum, buf, cc)] *)
Fixpoint copy_file (inum : Z) (reads : list (list Z)) : M mk unit :=
  match reads with
  | [] | [] :: _ => mret tt
  | buf :: reads' => iappend inum buf;; copy_file inum reads'
  end.

Definition append_dirent (rootino inum : Z) (name : list Z) : M mk unit :=
  iappend rootino (mk_dirent (xshort inum) name).

(** The leading _ of the host's binaries is skipped. *)
Definition strip (name : list Z) : list Z := match name with 95 :: name' => name' | _ => name end.

Definition mkfs_file (rootino : Z) (f : hostfile) : M mk unit :=
  assert (bool_decide (47 ∉ h_name f));;
  match h_reads f with
  | None => panic "open"
  | Some reads =>
      inum ← mkfs_ialloc T_FILE;
      de_name ← deref (strncpy_name DIRSIZ (strip (h_name f) ++ [0]));
      append_dirent rootino inum de_name;;
      copy_file inum reads
  end.

Definition sb_bytes : block :=
  put_32 12 (xint nlog) (put_32 8 (xint ninodes) (put_32 4 (xint nblocks) (put_32 0 (xint fssize) (replicate BSIZE 0)))).

(** The part of [main] up to the root directory. *)
Definition mkfs_start : M mk Z :=
  let bitblocks := fssize / (512 * 8) + 1 in
  let used := ninodes / IPB + 3 + bitblocks in
  modify (λ m, mkMk (img m) used used (freeinode m));;
  assert (nblocks + used + nlog =? fssize);;
  forM (seqZ 0 (nblocks + used + nlog)) (λ i, wsect i (replicate BSIZE 0));;
  wsect 1 sb_bytes;;
  rootino ← mkfs_ialloc T_DIR;
  assert (rootino =? ROOTINO);;
  append_dirent rootino rootino (46 :: replicate 13 0);;
  append_dirent rootino rootino (46 :: 46 :: replicate 12 0);;
  mret rootino.

(** The part behind the files: the size of the root directory and the bitmap. *)
Definition mkfs_end (rootino : Z) : M mk unit :=
  din ← rinode rootino;
  let off := xint (d_size din) in
  let off := u32 ((off / Z.of_nat BSIZE + 1) * Z.of_nat BSIZE) in
  winode rootino (set_size (xint off) din);;
  m ← getM;
  mkfs_balloc (usedblocks m).

(** [main] with the arguments behind the name of the program: the image, which
    is truncated, and the files. *)
Definition mkfs_main (args : list hostfile) : M mk unit :=
  match args with
  | [] => panic "Usage: mkfs fs.img files..."
  | image :: files =>
      match h_reads image with
      | None => panic "open"
      | Some _ =>
          rootino ← mkfs_start;
          forM files (mkfs_file rootino);;
          mkfs_end rootino
      end
  end.

(** The state in which the program starts. *)
Definition mk0 : mk := mkMk [] 0 0 1.
