(* ===== verification/MkfsProps.v ===== *)
(** * Properties of the file system builder

    The image that mkfs writes is a well-formed file system: the kernel boots
    from it, and finds the files that were given as arguments, with their
    contents, in the root directory. *)

From S2P Require Import Prelude Cstring Buf Bio Log Txn Fs FsProps Balloc Inode InodeProps DirProps Mkfs.

(** ** Numbers and bits *)
Lemma xint_id x : 0 ≤ x < 2 ^ 32 → xint x = x.
Proof.
  intros Hx. unfold xint, u8. rewrite !Z.shiftr_div_pow2 by lia.
  transitivity (le_join (le_split 4 x)); [|rewrite le_join_split; by apply Z.mod_small].
  unfold get_u32, slice. simpl. rewrite !Z.div_div by lia. done.
Qed.
Lemma xshort_id x : 0 ≤ x < 2 ^ 16 → xshort x = x.
Proof.
  intros Hx. unfold xshort, u8. rewrite !Z.shiftr_div_pow2 by lia.
  transitivity (le_join (le_split 2 x)); [|rewrite le_join_split; by apply Z.mod_small]. done.
Qed.

Lemma get_u16_zeros n off : (off + 2 <= n)%nat → get_u16 off (replicate n 0) = 0.
Proof. intros H. unfold get_u16, slice. rewrite drop_replicate, take_replicate, Nat.min_l by lia. done. Qed.

Lemma bitmap_of_S u : bitmap_of (S u) = set_bit (Z.of_nat u) (bitmap_of u).
Proof.
  unfold bitmap_of, set_bit. rewrite seq_S, foldl_app. simpl. 
  replace (Z.to_nat (Z.of_nat u / 8)) with (u / 8)%nat; [done|].
  change 8 with (Z.of_nat 8). by rewrite <-Nat2Z.inj_div, Nat2Z.id.
Qed.

Lemma bitmap_of_spec u : (u <= 4096)%nat → length (bitmap_of u) = BSIZE ∧
  ∀ b, 0 ≤ b < 4096 → bit (bitmap_of u) b = bool_decide (b < Z.of_nat u).
Proof.
  induction u as [|u IH]; intros Hu.
  - split; [done|]. intros b Hb. rewrite bool_decide_false by lia. unfold bit. change (bitmap_of 0) with (replicate BSIZE 0).
    rewrite (list_lookup_total_correct _ _ 0); [apply Z.testbit_0_l|].
    apply lookup_replicate_2. unfold BSIZE. Z.to_euclidean_division_equations. lia.
  - destruct IH as [Hl Hb]; [lia|]. rewrite bitmap_of_S. split.
    + unfold set_bit. by rewrite length_insert.
    + intros b Hb'. rewrite bit_set; [|lia|rewrite Hl; unfold BSIZE; lia]. rewrite Hb by done.
      repeat case_bool_decide; simpl; lia || done.
Qed.

(** ** The image *)

Definition sb0 : superblock := mkSb 1024 985 200 10.

Lemma bmblock_sb0 : bmblock sb0 = 28.
Proof. done. Qed.
Lemma dstart_sb0 : dstart sb0 = 29.
Proof. done. Qed.

(** The inode on disk as [ilock] loads it. *)
Definition inode_of (inum : Z) (di : dinode) : inode := iset_dinode di (mkInode 1 inum 0 0 0 0 0 0 0 []).

(** The sectors as the kernel will see them: the bitmap, which is written last,
    has the bits of the blocks that were taken so far. *)
Definition vw (m : mk) (z : Z) : block :=
  if z =? 28 then bitmap_of (Z.to_nat (freeblock m)) else img m !!! Z.to_nat z.

Record minv (m : mk) : Prop := {
  mi_len : length (img m) = 1024%nat;
  mi_blk : ∀ k b, img m !! k = Some b → length b = BSIZE;
  mi_used : usedblocks m = freeblock m;
  mi_fb : 29 ≤ freeblock m ≤ 1014;
  mi_sb : img m !!! 1%nat = sb_bytes;
  mi_zero : ∀ z, freeblock m ≤ z < 1024 → img m !!! Z.to_nat z = replicate BSIZE 0;
}.

#[global] Arguments mi_len {_} _.
#[global] Arguments mi_blk {_} _ _ _ _.
#[global] Arguments mi_used {_} _.
#[global] Arguments mi_fb {_} _.
#[global] Arguments mi_sb {_} _.
#[global] Arguments mi_zero {_} _ _ _.

(** ** General facts *)

(** The blocks of a file of [n] bytes, the indirect one included. *)
Definition nblk (n : nat) : nat := blocks_for n + (if (NDIRECT <? blocks_for n)%nat then 1 else 0).

Lemma nblk_mono a b : (a <= b)%nat → (nblk a <= nblk b)%nat.
Proof.
  intros H. pose proof (blocks_for_mono _ _ H). unfold nblk.
  destruct (Nat.ltb_spec NDIRECT (blocks_for a)), (Nat.ltb_spec NDIRECT (blocks_for b)); lia.
Qed.

Lemma fbyte_snoc V bs a x :
  (x < BSIZE * length (bs ++ [a]))%nat →
  fbyte V (bs ++ [a]) x = if decide (x < BSIZE * length bs)%nat then fbyte V bs x else V a !! (x - BSIZE * length bs)%nat.
Proof.
  rewrite length_app. simpl length. intros Hx. destruct (div_BSIZE x) as [Hd Hm]. unfold fbyte. case_decide as Hlt.
  - rewrite lookup_app_l; [done|]. unfold BSIZE in *. lia.
  - destruct (div_BSIZE_unique x (length bs) (x - BSIZE * length bs)) as [-> ->]; [lia|unfold BSIZE in *; lia|].
    by rewrite lookup_app_r, Nat.sub_diag by lia.
Qed.

Lemma blocks_for_mul k : blocks_for (BSIZE * k) = k.
Proof.
  apply Nat.le_antisymm; [by apply blocks_for_le|]. destruct k as [|k]; [lia|].
  apply blocks_for_lt. unfold BSIZE. lia.
Qed.

Lemma iappend_turn (c : list Z) n : (0 < n)%nat → let k := turn (length c) n in
  Z.of_nat (length c) / 512 = Z.of_nat (length c / BSIZE) ∧
  min (Z.of_nat n) ((Z.of_nat (length c / BSIZE) + 1) * 512 - Z.of_nat (length c)) = Z.of_nat k ∧
  Z.of_nat (length c) - Z.of_nat (length c / BSIZE) * 512 = Z.of_nat (length c `mod` BSIZE) ∧
  (1 <= k <= n)%nat ∧ (length c `mod` BSIZE + k <= BSIZE)%nat.
Proof.
  intros Hn k. destruct (div_BSIZE (length c)) as [Hd Hm].
  assert (E : Z.of_nat BSIZE = 512) by done.
  split; [change 512 with (Z.of_nat BSIZE); by rewrite <-Nat2Z.inj_div|]. split; [|unfold k, turn; lia].
  unfold min, k, turn. destruct (Z.ltb_spec (Z.of_nat n) ((Z.of_nat (length c / BSIZE) + 1) * 512 - Z.of_nat (length c))); lia.
Qed.

Lemma IBLOCK_sb0 n : 0 ≤ n < 200 → 2 ≤ IBLOCK n < 28.
Proof. apply (IBLOCK_range sb0). Qed.

Lemma file_map_lt s1 s2 V sb i bs : lt s1 = lt s2 → file_map s1 V sb i bs → file_map s2 V sb i bs.
Proof. intros E HF. destruct HF. constructor; try done. unfold data in *. by rewrite <-E. Qed.

(** A file of the image: its type, its blocks and its bytes. *)
Record entry := mkEnt { e_type : Z; e_bs : list Z; e_bytes : list Z }.

Definition total (F : list entry) : nat := sum_list_with (λ e, nblk (length (e_bytes e))) F.

Lemma total_insert F k e e' :
  F !! k = Some e → (total (<[k := e']> F) + nblk (length (e_bytes e)) = total F + nblk (length (e_bytes e')))%nat.
Proof.
  unfold total. revert k. induction F as [|f F IH]; intros [|k] Hk; [done|done| |].
  - injection Hk as ->. simpl. lia.
  - simpl in *. specialize (IH k Hk). lia.
Qed.

Lemma total_app F G : total (F ++ G) = (total F + total G)%nat.
Proof. apply sum_list_with_app. Qed.

Lemma total_cons e F : total (e :: F) = (nblk (length (e_bytes e)) + total F)%nat.
Proof. done. Qed.

Lemma insert_last {A} (F : list A) x y : <[length F := y]> (F ++ [x]) = F ++ [y].
Proof. rewrite <-(Nat.add_0_r (length F)). by rewrite insert_app_r. Qed.

(** The bytes that [copy_file] copies: what comes before the end of the file. *)
Fixpoint file_bytes (reads : list (list Z)) : list Z :=
  match reads with
  | [] | [] :: _ => []
  | buf :: reads' => buf ++ file_bytes reads'
  end.

(** The name of a file in its directory entry. *)
Definition host_ok (f : hostfile) : Prop :=
  (47 ∉ h_name f) ∧ Forall is_byte (h_name f) ∧ ∃ reads, h_reads f = Some reads ∧ (length (file_bytes reads) <= BSIZE * MAXFILE)%nat.
Definition host_bytes (f : hostfile) : list Z := file_bytes (default [] (h_reads f)).
Definition host_name (f : hostfile) : list Z := default [] (strncpy_name DIRSIZ (strip (h_name f) ++ [0])).

Lemma host_name_ok f : host_ok f →
  strncpy_name DIRSIZ (strip (h_name f) ++ [0]) = Some (host_name f) ∧ length (host_name f) = DIRSIZ ∧
  cname DIRSIZ (host_name f) = cname DIRSIZ (strip (h_name f) ++ [0]) ∧ Forall is_byte (host_name f).
Proof.
  intros (_ & Hb & _). unfold host_name. destruct (strncpy_name_spec DIRSIZ (strip (h_name f) ++ [0])) as (l & -> & H); [|done].
  split; [right; set_solver|]. apply Forall_app. split; [|by repeat constructor].
  unfold strip. repeat case_match; try done. by apply Forall_cons in Hb as [_ Hb].
Qed.

Lemma length_dirent inum nm : length nm = DIRSIZ → length (mk_dirent inum nm) = sizeof_dirent.
Proof. intros H. unfold mk_dirent. rewrite length_app, H. done. Qed.

(** The entries of the root directory. *)
Fixpoint listing (n : Z) (files : list hostfile) : list (Z * list Z) :=
  match files with
  | [] => []
  | f :: files' => (n, host_name f) :: listing (n + 1) files'
  end.
Definition root_list (files : list hostfile) : list (Z * list Z) :=
  (1, 46 :: replicate 13 0) :: (1, 46 :: 46 :: replicate 12 0) :: listing 2 files.
Definition ents_bytes (es : list (Z * list Z)) : list Z := concat ((λ e, mk_dirent e.1 e.2) <$> es).
Definition host_blocks (files : list hostfile) : nat := sum_list_with (λ f, nblk (length (host_bytes f))) files.

Section image.
Context (s : fs) (Hst : log_start (lg (lt s)) = 1014) (Hsz : log_size (lg (lt s)) = 10).
Context (Hdk : 1024 ≤ Z.of_nat (length (disk (blk (lt s))))).

Lemma vw_used m b : minv m → 0 ≤ b < 1024 → used (vw m) 200 b = bool_decide (b < freeblock m).
Proof.
  intros HI Hb. pose proof (mi_fb HI). unfold used, BBLOCK.
  rewrite (Z.div_small b), (Z.mod_small b) by (unfold BPB; lia). unfold vw.
  change (0 + 200 `div` IPB + 3 =? 28) with true. cbv iota.
  rewrite (proj2 (bitmap_of_spec (Z.to_nat (freeblock m)) ltac:(lia))) by lia. apply bool_decide_ext. lia.
Qed.

Lemma vw_layout m : minv m → layout s (vw m) sb0.
Proof.
  intros HI. pose proof (mi_fb HI). constructor; rewrite ?Hst, ?Hsz; try (simpl; unfold BPB; lia).
  - change (vw m 1) with (img m !!! 1%nat). rewrite (mi_sb HI). vm_compute. reflexivity.
  - rewrite dstart_sb0. lia.
  - rewrite dstart_sb0. intros b Hb. rewrite vw_used by (done || lia). apply bool_decide_true. lia.
Qed.

Lemma vw_block m z : minv m → 0 ≤ z < 1024 → length (vw m z) = BSIZE.
Proof.
  intros HI Hz. pose proof (mi_fb HI). unfold vw. destruct (z =? 28); [apply bitmap_of_spec; lia|].
  eapply (mi_blk HI (Z.to_nat z)), list_lookup_lookup_total_lt. rewrite (mi_len HI). lia.
Qed.

(** ** Sectors *)
Lemma wp_wsect m sec buf Q :
  minv m → 0 ≤ sec < 1024 → Q tt (set_img (insert (Z.to_nat sec) buf) m) → wp (wsect sec buf) Q m.
Proof.
  intros HI Hs HQ. apply wp_modify. unfold set_img in *. rewrite (proj2 (Nat.ltb_lt _ _)); [done|].
  rewrite (mi_len HI). lia.
Qed.
Lemma wp_rsect m sec Q :
  minv m → 0 ≤ sec < 1024 → sec ≠ 28 → Q (vw m sec) m → wp (rsect sec) Q m.
Proof.
  intros HI Hs Hne HQ. unfold rsect. apply wp_bind, wp_get.
  rewrite (list_lookup_lookup_total_lt (img m) (Z.to_nat sec)) by (rewrite (mi_len HI); lia).
  apply wp_ret. unfold vw in HQ. by rewrite (proj2 (Z.eqb_neq _ _)) in HQ.
Qed.

(** The state after a write. *)
Definition put (a : Z) (d : block) (m : mk) : mk := set_img (insert (Z.to_nat a) d) m.

Lemma vw_put m a d y : minv m → 0 < a < 1024 → a ≠ 28 → vw (put a d m) y = (<[a := d]> (vw m)) y.
Proof.
  intros HI Ha Hne. unfold vw, put. simpl. destruct (Z.eqb_spec y 28) as [->|Hy].
  - by rewrite fn_lookup_insert_ne by lia.
  - destruct (decide (y = a)) as [->|Hya].
    + rewrite fn_lookup_insert, list_lookup_total_insert_eq; [done|]. rewrite (mi_len HI). lia.
    + rewrite fn_lookup_insert_ne, list_lookup_total_insert_ne by lia.
      by rewrite (proj2 (Z.eqb_neq _ _)).
Qed.

Lemma minv_put m a d : minv m → 1 < a < freeblock m → length d = BSIZE → minv (put a d m).
Proof.
  intros HI Ha Hd. pose proof (mi_fb HI). pose proof HI as [? Hblk]. constructor; simpl; try done.
  - by rewrite length_insert.
  - intros k b Hk. apply list_lookup_insert_Some in Hk as [(_ & <- & _)|[_ Hk]]; [done|by eapply Hblk].
  - rewrite list_lookup_total_insert_ne by lia. apply HI.
  - intros z Hz. rewrite list_lookup_total_insert_ne by lia. by apply (mi_zero HI).
Qed.

(** ** Taking a block *)
Definition taking (m : mk) : mk := mkMk (img m) (freeblock m + 1) (usedblocks m + 1) (freeinode m).

Lemma wp_take_block m Q :
  minv m → freeblock m < 1014 → Q (freeblock m) (taking m) → wp take_block Q m.
Proof.
  intros HI Hf HQ. unfold take_block. apply wp_bind, wp_get. pose proof (mi_fb HI).
  rewrite (mi_used HI), !u32_small by lia. unfold taking in HQ. by rewrite (mi_used HI) in HQ.
Qed.

Lemma minv_taking m : minv m → freeblock m < 1014 → minv (taking m).
Proof.
  intros HI Hf. pose proof (mi_fb HI). destruct HI. constructor; simpl; try done; [lia|lia|].
  intros z Hz. apply mi_zero0. lia.
Qed.

Lemma vw_taken m : minv m → freeblock m < 1014 → taken s sb0 (vw m) (freeblock m) (vw (taking m)).
Proof.
  intros HI Hf. pose proof (mi_fb HI). pose proof (minv_taking m HI Hf) as HI'. constructor.
  - unfold data. rewrite dstart_sb0, Hst. lia.
  - rewrite vw_used by (done || lia). apply bool_decide_false. lia.
  - unfold vw. rewrite (proj2 (Z.eqb_neq _ _)) by lia. apply (mi_zero HI). lia.
  - intros y _ _. rewrite bmblock_sb0. intros Hy. unfold vw. by rewrite (proj2 (Z.eqb_neq _ _)).
  - simpl. intros b Hb. rewrite !vw_used by (done || lia). simpl freeblock.
    repeat case_bool_decide; simpl; lia || done.
Qed.

(** ** The blocks of a file *)

(** An indirect block is taken only when it is needed. *)
Definition tight (i : inode) (bs : list Z) : Prop := ind i ≠ 0 → (NDIRECT < length bs)%nat.

(** How the image changes when a file grows. *)
Record ext (m : mk) (i : inode) (bs : list Z) (m' : mk) (i' : inode) (bs' : list Z) : Prop := {
  ex_bs : bs `prefix_of` bs';
  ex_ind : ind i ≠ 0 → ind i' = ind i;
  ex_inode : i' = set_addrs (i_addrs i') i;
  ex_fresh : ∀ b, b ∈ inds i' ++ bs' → b ∈ inds i ++ bs ∨ freeblock m ≤ b;
  ex_frame : ∀ y, y < 1014 → y ≠ 28 → y ∉ inds i' ++ bs' → vw m' y = vw m y;
  ex_fb : freeblock m' = freeblock m + Z.of_nat (length bs' - length bs) + Z.of_nat (spare i - spare i');
  ex_ino : freeinode m' = freeinode m;
}.

Lemma grown_ext m m' ip k s0 s1 L L' i i' bs bs' :
  minv m → lt s0 = lt s → file_map s (vw m') sb0 i' bs' →
  grown ip sb0 k s0 (vw m) L i bs s1 (vw m') L' i' bs' →
  freeblock m' = freeblock m + Z.of_nat (length bs' - length bs) + Z.of_nat (spare i - spare i') →
  freeinode m' = freeinode m → ext m i bs m' i' bs'.
Proof.
  intros HI E HF HG Hfb Hino. constructor; try apply HG; try done.
  - intros b Hb. destruct (gr_fresh HG b Hb) as [Ho|Hu]; [by left|right].
    destruct (fm_data HF b Hb) as [[Hd1 Hd2] _]. rewrite dstart_sb0 in Hd1. rewrite Hst in Hd2.
    simpl in Hu. rewrite vw_used in Hu by (done || lia). apply bool_decide_eq_false in Hu. lia.
  - intros y Hy Hm Hn. apply (gr_frame HG); [|done|done]. unfold in_log. rewrite E, Hst. lia.
Qed.

Lemma addr_small V i bs b : file_map s V sb0 i bs → b ∈ inds i ++ bs → 29 ≤ b < 1014.
Proof.
  intros HF Hb. destruct (fm_data HF b Hb) as [[Hd1 Hd2] _]. rewrite dstart_sb0 in Hd1. by rewrite Hst in Hd2.
Qed.

Lemma addr_taken m i bs b : minv m → file_map s (vw m) sb0 i bs → b ∈ inds i ++ bs → 29 ≤ b < freeblock m.
Proof.
  intros HI HF Hb. pose proof (addr_small _ _ _ _ HF Hb). split; [lia|].
  destruct (fm_data HF b Hb) as [_ Hu]. simpl in Hu. rewrite vw_used in Hu by (done || lia).
  by apply bool_decide_eq_true in Hu.
Qed.

Lemma mkfs_bmap_old m n din bs fbn a :
  minv m → file_map s (vw m) sb0 (inode_of n din) bs → bs !! fbn = Some a →
  wp (mkfs_bmap din (Z.of_nat fbn)) (λ r m', r = (din, a) ∧ m' = m) m.
Proof.
  intros HI HF Ha. assert (Hin : a ∈ inds (inode_of n din) ++ bs).
  { apply elem_of_app. right. by eapply list_elem_of_lookup_2. }
  pose proof (addr_small _ _ _ _ HF Hin) as Hr. pose proof (lookup_lt_Some _ _ _ Ha) as Hlt.
  unfold mkfs_bmap. destruct (Z.ltb_spec (Z.of_nat fbn) (Z.of_nat NDIRECT)) as [Hd|Hd].
  - assert (Ea : d_addrs din !!! fbn = a).
    { pose proof (fm_direct HF fbn ltac:(lia)) as E. rewrite Ha in E. exact E. }
    rewrite Nat2Z.id, Ea, xint_id, (proj2 (Z.eqb_neq a 0)) by lia. apply wp_bind, wp_ret, wp_ret.
    by rewrite Ea, xint_id by lia.
  - pose proof (fm_max HF) as Hmax. unfold MAXFILE in Hmax.
    assert (Hi : ind (inode_of n din) ≠ 0) by (intros E; apply (fm_ind HF) in E; lia).
    pose proof (addr_small _ _ _ _ HF ltac:(apply elem_of_app; left; by apply elem_inds)) as Hri.
    change (d_addrs din !!! NDIRECT) with (ind (inode_of n din)).
    rewrite xint_id, (proj2 (Z.eqb_neq _ _) Hi) by lia. apply wp_bind, wp_ret, wp_bind.
    change (d_addrs din !!! NDIRECT) with (ind (inode_of n din)). rewrite xint_id by lia.
    apply wp_rsect; [done|lia|lia|].
    replace (Z.to_nat (Z.of_nat fbn - Z.of_nat NDIRECT)) with (fbn - NDIRECT)%nat by lia.
    rewrite (fm_entries HF) by (done || lia). replace (NDIRECT + (fbn - NDIRECT))%nat with fbn by lia.
    rewrite Ha. simpl default. rewrite (proj2 (Z.eqb_neq a 0)) by lia. apply wp_bind, wp_ret, wp_ret.
    rewrite (fm_entries HF) by (done || lia). replace (NDIRECT + (fbn - NDIRECT))%nat with fbn by lia.
    rewrite Ha. simpl default. by rewrite xint_id by lia.
Qed.

(** What a turn of the loop gets from [mkfs_bmap]: the block [a], new and zero. *)
Definition gained (m : mk) (i : inode) (bs : list Z) (m' : mk) (i' : inode) (a : Z) : Prop :=
  minv m' ∧ file_map s (vw m') sb0 i' (bs ++ [a]) ∧ ext m i bs m' i' (bs ++ [a]) ∧
  vw m' a = replicate BSIZE 0 ∧ ∀ b, b ∈ bs → vw m' b = vw m b.

Lemma mkfs_direct m n din bs :
  minv m → file_map s (vw m) sb0 (inode_of n din) bs → (length bs < NDIRECT)%nat → freeblock m < 1014 →
  gained m (inode_of n din) bs (taking m) (inode_of n (set_addr (length bs) (freeblock m) din)) (freeblock m).
Proof.
  intros HI HF Hlt Hfb. pose proof (vw_layout m HI) as HY. pose proof (vw_taken m HI Hfb) as HT.
  set (i := inode_of n din) in *. set (i' := iset_addr (length bs) (freeblock m) i).
  change (inode_of n (set_addr _ _ _)) with i'.
  destruct (grow_direct 0 s (mkFs (lt s) (<[0%nat := i']> (icache s))) (vw m) (vw (taking m)) []
    [freeblock m; bmblock sb0] sb0 i bs (freeblock m) HY HF HT) as [HF' HG]; [apply same_log_refl|done|done|clear; set_solver|].
  apply (file_map_lt _ s) in HF'; [|done]. split; [by apply minv_taking|]. split; [done|].
  split; [|split; [apply HT|]].
  - eapply grown_ext; [done|reflexivity|done|exact HG| |done]. unfold i'.
    assert (E : spare (iset_addr (length bs) (freeblock m) i) = spare i).
    { unfold spare. rewrite ind_set_direct; [done|lia]. }
    rewrite E. simpl freeblock. rewrite length_app. simpl length. lia.
  - intros b Hb. eapply taken_keep; [done..|]. clear -Hb; set_solver.
Qed.

Lemma mkfs_ind m n din bs :
  minv m → file_map s (vw m) sb0 (inode_of n din) bs → ind (inode_of n din) = 0 → freeblock m < 1014 →
  let i := inode_of n din in let i' := inode_of n (set_addr NDIRECT (freeblock m) din) in
  minv (taking m) ∧ file_map s (vw (taking m)) sb0 i' bs ∧ ext m i bs (taking m) i' bs ∧
  ind i' = freeblock m ∧ ∀ b, b ∈ bs → vw (taking m) b = vw m b.
Proof.
  intros HI HF Hi Hfb i i'. pose proof (vw_layout m HI) as HY. pose proof (vw_taken m HI Hfb) as HT.
  pose proof (mi_fb HI) as Hr.
  destruct (grow_ind 0 s (mkFs (lt s) (<[0%nat := i']> (icache s))) (vw m) (vw (taking m)) []
    [freeblock m; bmblock sb0] sb0 i bs (freeblock m) HY HF HT) as [HF' HG]; [apply same_log_refl|done|done|clear; set_solver|].
  change (iset_addr NDIRECT (freeblock m) i) with i' in *.
  apply (file_map_lt _ s) in HF'; [|done]. split; [by apply minv_taking|]. split; [done|].
  assert (Hi' : ind i' = freeblock m).
  { unfold ind. simpl. rewrite list_lookup_total_insert_eq; [done|]. pose proof (fm_len HF) as E. simpl in E. rewrite E. lia. }
  split; [|split; [done|]].
  - eapply grown_ext; [done|reflexivity|done|exact HG| |done]. unfold spare. unfold i. rewrite Hi, Hi'. simpl.
    rewrite (proj2 (Z.eqb_neq (freeblock m) 0)) by lia. lia.
  - intros b Hb. eapply taken_keep; [done..|]. clear -Hb; set_solver.
Qed.

(** The entry in the indirect block. *)
Lemma mkfs_entry m n din bs :
  let i := inode_of n din in let j := (4 * (length bs - NDIRECT))%nat in
  minv m → file_map s (vw m) sb0 i bs → ind i ≠ 0 → (NDIRECT <= length bs < MAXFILE)%nat → freeblock m < 1014 →
  gained m i bs (put (ind i) (put_32 j (freeblock m) (vw m (ind i))) (taking m)) i (freeblock m).
Proof.
  intros i j HI HF Hi Hlen Hfb. pose proof (vw_layout m HI) as HY. pose proof (vw_taken m HI Hfb) as HT.
  pose proof (minv_taking m HI Hfb) as HI1.
  assert (Hin : ind i ∈ inds i ++ bs) by (apply elem_of_app; left; by apply elem_inds).
  pose proof (addr_taken _ _ _ _ HI HF Hin) as Hri. pose proof (mi_fb HI).
  pose proof (taken_keep _ _ _ _ _ _ _ _ HY HF HT Hin) as Hkeep.
  assert (HlenI : length (vw m (ind i)) = BSIZE) by (apply vw_block; [done|lia]).
  set (m' := put _ _ _).
  assert (HI' : minv m').
  { apply minv_put; [done|simpl; lia|]. rewrite length_put_32; [done|]. rewrite HlenI. unfold j, MAXFILE, NINDIRECT, BSIZE in *. lia. }
  assert (HV : ∀ y, vw m' y = (<[ind i := put_32 j (freeblock m) (vw m (ind i))]> (vw (taking m))) y).
  { intros y. apply vw_put; [done|lia|lia]. }
  set (s0 := mkFs (lt s) [i]).
  destruct (grow_indirect 0 s0 s0 (vw m) (vw (taking m)) (vw m') [] [ind i; freeblock m; bmblock sb0] sb0 i bs (freeblock m))
    as [HF' HG]; try done.
  { by destruct HY. } { by apply (file_map_lt s). } { by destruct HT. }
  { intros y _. rewrite HV, Hkeep. done. }
  { clear. set_solver. }
  apply (file_map_lt _ s) in HF'; [|done]. split; [done|]. split; [done|]. split; [|split].
  - eapply grown_ext; [done| |done|exact HG| |done]; [done|]. simpl. rewrite length_app. simpl. lia.
  - rewrite HV, fn_lookup_insert_ne by lia. apply HT.
  - intros b Hb. pose proof (fm_nodup HF) as Hnd. apply NoDup_app in Hnd as (_ & Hdis & _).
    assert (b ≠ ind i) by (intros E; rewrite E in Hb; apply (Hdis (ind i)); [by apply elem_inds|done]).
    rewrite HV, fn_lookup_insert_ne by done. eapply taken_keep; [done..|]. clear -Hb; set_solver.
Qed.

Lemma ext_trans m i bs m1 i1 bs1 m2 i2 bs2 :
  ext m i bs m1 i1 bs1 → ext m1 i1 bs1 m2 i2 bs2 → (spare i2 <= spare i1 <= spare i)%nat →
  (∀ b, b ∈ inds i1 ++ bs1 → b ∈ inds i2 ++ bs2) → freeblock m ≤ freeblock m1 → ext m i bs m2 i2 bs2.
Proof.
  intros H1 H2 Hs Hb Hfb. constructor.
  - etransitivity; [apply H1|apply H2].
  - intros Hi. rewrite (ex_ind _ _ _ _ _ _ H2); rewrite (ex_ind _ _ _ _ _ _ H1 Hi); done.
  - rewrite (ex_inode _ _ _ _ _ _ H2), (ex_inode _ _ _ _ _ _ H1). done.
  - intros b Hb2. destruct (ex_fresh _ _ _ _ _ _ H2 b Hb2) as [Hb1|]; [|right; lia].
    by apply (ex_fresh _ _ _ _ _ _ H1).
  - intros y Hy Hm Hn. rewrite (ex_frame _ _ _ _ _ _ H2) by done. apply (ex_frame _ _ _ _ _ _ H1); auto.
  - rewrite (ex_fb _ _ _ _ _ _ H2), (ex_fb _ _ _ _ _ _ H1).
    pose proof (prefix_length _ _ (ex_bs _ _ _ _ _ _ H1)). pose proof (prefix_length _ _ (ex_bs _ _ _ _ _ _ H2)). lia.
  - rewrite (ex_ino _ _ _ _ _ _ H2). apply H1.
Qed.

Lemma ext_spare m i bs m' i' bs' : ext m i bs m' i' bs' → (spare i' <= spare i)%nat.
Proof.
  intros H. unfold spare. destruct (Z.eqb_spec (ind i) 0) as [|Hi]; [by destruct (_ =? _); lia|].
  rewrite (ex_ind _ _ _ _ _ _ H Hi). by rewrite (proj2 (Z.eqb_neq _ _)).
Qed.
Lemma ext_blocks m i bs m' i' bs' b : ext m i bs m' i' bs' → b ∈ inds i ++ bs → b ∈ inds i' ++ bs'.
Proof.
  intros H. rewrite !elem_of_app. intros [Hb|Hb]; [left; eapply inds_mono; [apply H|done]|right].
  destruct (ex_bs _ _ _ _ _ _ H) as [l ->]. clear -Hb; set_solver.
Qed.
Lemma ext_step m i bs m1 i1 bs1 m2 i2 bs2 :
  ext m i bs m1 i1 bs1 → ext m1 i1 bs1 m2 i2 bs2 → ext m i bs m2 i2 bs2.
Proof.
  intros H1 H2. pose proof (ext_spare _ _ _ _ _ _ H1). pose proof (ext_spare _ _ _ _ _ _ H2).
  eapply ext_trans; [exact H1|exact H2|lia| |rewrite (ex_fb _ _ _ _ _ _ H1); lia].
  intros b Hb. by eapply ext_blocks.
Qed.
Lemma ext_refl m i bs : ext m i bs m i bs.
Proof. constructor; try done; [by destruct i|by left|lia]. Qed.

(** [mkfs_bmap] of the block behind the last one. *)
Lemma mkfs_bmap_new m n din bs :
  let i := inode_of n din in
  minv m → file_map s (vw m) sb0 i bs → tight i bs → (length bs < MAXFILE)%nat →
  freeblock m + 1 + (if decide (length bs = NDIRECT) then 1 else 0) ≤ 1014 →
  wp (mkfs_bmap din (Z.of_nat (length bs))) (λ r m', ∃ din', r.1 = din' ∧
    gained m i bs m' (inode_of n din') r.2 ∧ tight (inode_of n din') (bs ++ [r.2])) m.
Proof.
  intros i HI HF HT Hmax Hfb. pose proof (mi_fb HI) as Hr. unfold mkfs_bmap.
  destruct (Z.ltb_spec (Z.of_nat (length bs)) (Z.of_nat NDIRECT)) as [Hd|Hd].
  - rewrite decide_False in Hfb by lia.
    assert (E0 : d_addrs din !!! length bs = 0).
    { pose proof (fm_direct HF (length bs) ltac:(lia)) as E. rewrite lookup_ge_None_2 in E by lia. exact E. }
    rewrite Nat2Z.id, E0, xint_id, Z.eqb_refl by lia. apply wp_bind, wp_bind, wp_take_block; [done|lia|].
    apply wp_ret, wp_ret. rewrite !xint_id by lia. eexists. split; [reflexivity|].
    assert (Ea : d_addrs (set_addr (length bs) (freeblock m) din) !!! length bs = freeblock m).
    { simpl. rewrite list_lookup_total_insert_eq; [done|]. pose proof (fm_len HF) as E. simpl in E. lia. }
    cbn [fst snd]. rewrite Ea, xint_id by lia. split; [apply mkfs_direct; done || lia|].
    intros Hi. unfold ind in Hi. simpl in Hi. rewrite list_lookup_total_insert_ne in Hi by lia.
    pose proof (HT Hi). lia.
  - set (j := (4 * Z.to_nat (Z.of_nat (length bs) - Z.of_nat NDIRECT))%nat).
    assert (Hj : j = (4 * (length bs - NDIRECT))%nat) by (unfold j; lia). clearbody j. subst j.
    assert (Hmain : ∀ m1 din1, ext m i bs m1 (inode_of n din1) bs → minv m1 → file_map s (vw m1) sb0 (inode_of n din1) bs →
      ind (inode_of n din1) ≠ 0 → (∀ b, b ∈ bs → vw m1 b = vw m b) → freeblock m1 < 1014 → 
      wp (indirect ← rsect (xint (d_addrs din1 !!! NDIRECT));
        indirect ← (if get_u32 (4 * (length bs - NDIRECT)) indirect =? 0 then
                  a ← take_block;
                  let indirect := put_32 (4 * (length bs - NDIRECT)) (xint a) indirect in
                  wsect (xint (d_addrs din1 !!! NDIRECT)) indirect;;
                  mret indirect
                else mret indirect);
        mret (din1, xint (get_u32 (4 * (length bs - NDIRECT)) indirect))) (λ r m', ∃ din', r.1 = din' ∧
    gained m i bs m' (inode_of n din') r.2 ∧ tight (inode_of n din') (bs ++ [r.2])) m1).
    { intros m1 din1 HX HI1 HF1 Hi1 HV1 Hfb1. pose proof (mi_fb HI1) as Hr1. unfold MAXFILE in Hmax.
      change (d_addrs din1 !!! NDIRECT) with (ind (inode_of n din1)).
      pose proof (addr_taken _ _ _ _ HI1 HF1 ltac:(apply elem_of_app; left; by apply elem_inds)) as Hri.
      rewrite xint_id by lia. apply wp_bind, wp_rsect; [done|lia|lia|].
      rewrite (fm_entries HF1) by (done || lia). rewrite lookup_ge_None_2 by lia. simpl default.
      apply wp_bind. rewrite Z.eqb_refl. apply wp_bind, wp_take_block; [done|lia|].
      apply wp_bind, wp_wsect; [by apply minv_taking|lia|]. apply wp_ret, wp_ret. rewrite (xint_id (freeblock m1)) by lia. cbn [fst snd].
      pose proof (vw_block m1 (ind (inode_of n din1)) HI1 ltac:(lia)) as Hl.
      rewrite get_put_u32 by (rewrite Hl; unfold NINDIRECT, BSIZE in *; lia). rewrite u32_small, xint_id by lia.
      destruct (mkfs_entry m1 n din1 bs HI1 HF1 Hi1 ltac:(unfold MAXFILE; lia) Hfb1) as (G1 & G2 & G3 & G4 & G5).
      exists din1. split; [done|]. split.
      - split; [exact G1|]. split; [exact G2|]. split; [by eapply ext_step|]. split; [exact G4|].
        intros b Hb. rewrite <-HV1 by done. by apply G5.
      - intros _. rewrite length_app. simpl. lia. }
    destruct (decide (ind i = 0)) as [Hi|Hi].
    + assert (Hn : length bs = NDIRECT) by (pose proof (fm_ind HF Hi); lia).
      rewrite decide_True in Hfb by done.
      apply wp_bind. change (d_addrs din !!! NDIRECT) with (ind i). rewrite Hi, xint_id, Z.eqb_refl by lia.
      apply wp_bind, wp_take_block; [done|lia|]. apply wp_ret. rewrite xint_id by lia.
      destruct (mkfs_ind m n din bs HI HF Hi ltac:(lia)) as (G1 & G2 & G3 & G4 & G5).
      apply Hmain; [done|done|done| |done|simpl; lia]. rewrite G4. lia.
    + rewrite decide_False in Hfb by (pose proof (HT Hi); lia).
      pose proof (addr_taken _ _ _ _ HI HF ltac:(apply elem_of_app; left; by apply elem_inds)) as Hri.
      apply wp_bind. change (d_addrs din !!! NDIRECT) with (ind i). rewrite xint_id, (proj2 (Z.eqb_neq _ _) Hi) by lia.
      apply wp_ret. apply Hmain; [apply ext_refl|done|done|done|done|lia].
Qed.

(** ** Contents *)

(** The blocks [bs] hold the bytes [c], and zeros behind them. *)
Definition holds (m : mk) (bs c : list Z) : Prop :=
  ∀ x, (x < BSIZE * length bs)%nat → fbyte (vw m) bs x = Some (default 0 (c !! x)).

Lemma gained_holds m i bs m' i' a c :
  gained m i bs m' i' a → (length c <= BSIZE * length bs)%nat → holds m bs c → holds m' (bs ++ [a]) c.
Proof.
  intros (_ & _ & _ & Hz & Hk) Hc HH x Hx. rewrite fbyte_snoc by done.
  rewrite length_app in Hx. simpl length in Hx. case_decide as Hlt.
  - rewrite (fbyte_kept (vw m)) by done. by apply HH.
  - rewrite Hz, lookup_replicate_2 by lia. by rewrite lookup_ge_None_2 by lia.
Qed.

(** A store behind the end of the contents. *)
Lemma holds_store m i bs c p a :
  minv m → file_map s (vw m) sb0 i bs → holds m bs c → bs !! (length c / BSIZE)%nat = Some a →
  (length c `mod` BSIZE + length p <= BSIZE)%nat →
  let m' := put a (splice (length c `mod` BSIZE) p (vw m a)) m in
  minv m' ∧ file_map s (vw m') sb0 i bs ∧ holds m' bs (c ++ p) ∧ ext m i bs m' i bs.
Proof.
  intros HI HF HH Ha Hp m'. pose proof (vw_layout m HI) as HY. destruct (div_BSIZE (length c)) as [Hdiv Hmod].
  assert (Hin : a ∈ bs) by by eapply list_elem_of_lookup_2.
  assert (Hin' : a ∈ inds i ++ bs) by (apply elem_of_app; by right).
  pose proof (addr_taken _ _ _ _ HI HF Hin') as Hr. pose proof (mi_fb HI).
  pose proof (vw_block m a HI ltac:(lia)) as Hl.
  assert (Hd : length (splice (length c `mod` BSIZE) p (vw m a)) = BSIZE) by (rewrite length_splice_le; lia).
  assert (HV : agree s (vw m') (<[a := splice (length c `mod` BSIZE) p (vw m a)]> (vw m))).
  { intros y _. apply vw_put; [done|lia|lia]. }
  split; [apply minv_put; [done|lia|done]|].
  split; [by eapply file_map_stored; [..|apply same_fs_refl|exact HV]|]. split.
  - intros x Hx. rewrite (fbyte_stored s (vw m) (vw m') sb0 i bs a _ HY HF HV) by done.
    destruct (div_BSIZE x) as [Hdx Hmx]. case_decide as E.
    + assert (Eq : (x / BSIZE = length c / BSIZE)%nat).
      { pose proof (fm_nodup HF) as Hnd. apply NoDup_app in Hnd as (_ & _ & Hnd). by eapply NoDup_lookup. }
      rewrite lookup_splice_le by lia.
      assert (HHx : vw m a !! (x `mod` BSIZE)%nat = Some (default 0 (c !! x))).
      { pose proof (HH x Hx) as H0. unfold fbyte in H0. rewrite E in H0. exact H0. }
      case_decide as Hc.
      * rewrite lookup_app_r by lia. replace (x - length c)%nat with (x `mod` BSIZE - length c `mod` BSIZE)%nat by lia.
        destruct (lookup_lt_is_Some_2 p (x `mod` BSIZE - length c `mod` BSIZE)) as [v Hv]; [lia|]. by rewrite Hv.
      * rewrite HHx. destruct (decide (x < length c)%nat); [by rewrite lookup_app_l|].
        rewrite !(lookup_ge_None_2 _ x); [done|rewrite length_app; lia|lia].
    + rewrite HH by done. destruct (decide (x < length c)%nat); [by rewrite lookup_app_l|].
      rewrite !(lookup_ge_None_2 _ x); [done| |lia]. rewrite length_app.
      assert (x / BSIZE ≠ length c / BSIZE)%nat by congruence. unfold BSIZE in *. lia.
  - constructor; try done; [by destruct i|by left| |simpl; lia].
    intros y _ _ Hn. unfold m'. rewrite vw_put by (done || lia). apply fn_lookup_insert_ne. by intros ->.
Qed.

(** The inode [din] of number [n] has the contents [c]. *)
Record has (m : mk) (n : Z) (din : dinode) (bs c : list Z) : Prop := {
  ha_inv : minv m;
  ha_map : file_map s (vw m) sb0 (inode_of n din) bs;
  ha_tight : tight (inode_of n din) bs;
  ha_len : length bs = blocks_for (length c);
  ha_holds : holds m bs c;
}.

Lemma spare_tight V i bs : file_map s V sb0 i bs → tight i bs → spare i = if (NDIRECT <? length bs)%nat then 0%nat else 1%nat.
Proof.
  intros HF HT. unfold spare. destruct (Z.eqb_spec (ind i) 0) as [E|E].
  - pose proof (fm_ind HF E). by rewrite (proj2 (Nat.ltb_ge _ _)).
  - by rewrite (proj2 (Nat.ltb_lt _ _) (HT E)).
Qed.

(** The count of blocks is exact. *)
Lemma has_count m n din bs c m' din' bs' c' :
  has m n din bs c → has m' n din' bs' c' → ext m (inode_of n din) bs m' (inode_of n din') bs' →
  freeblock m' + Z.of_nat (nblk (length c)) = freeblock m + Z.of_nat (nblk (length c')).
Proof.
  intros H H' HX. rewrite (ex_fb _ _ _ _ _ _ HX).
  rewrite (spare_tight _ _ _ (ha_map _ _ _ _ _ H) (ha_tight _ _ _ _ _ H)).
  rewrite (spare_tight _ _ _ (ha_map _ _ _ _ _ H') (ha_tight _ _ _ _ _ H')).
  pose proof (prefix_length _ _ (ex_bs _ _ _ _ _ _ HX)). pose proof (ha_len _ _ _ _ _ H). pose proof (ha_len _ _ _ _ _ H').
  unfold nblk. rewrite <-(ha_len _ _ _ _ _ H), <-(ha_len _ _ _ _ _ H').
  destruct (Nat.ltb_spec NDIRECT (length bs)), (Nat.ltb_spec NDIRECT (length bs')); lia.
Qed.

(** The block that the next bytes go to. *)
Lemma mkfs_bmap_next m n din bs c k :
  has m n din bs c → (1 <= k)%nat → (length c `mod` BSIZE + k <= BSIZE)%nat → (length c + k <= BSIZE * MAXFILE)%nat →
  freeblock m + Z.of_nat (nblk (length c + k) - nblk (length c)) ≤ 1014 →
  wp (mkfs_bmap din (Z.of_nat (length c / BSIZE))) (λ r m', ∃ bs', minv m' ∧
    file_map s (vw m') sb0 (inode_of n r.1) bs' ∧ tight (inode_of n r.1) bs' ∧ bs' !! (length c / BSIZE)%nat = Some r.2 ∧
    length bs' = blocks_for (length c + k) ∧ holds m' bs' c ∧
    ext m (inode_of n din) bs m' (inode_of n r.1) bs') m.
Proof.
  intros [HI HF HT Hl HH] Hk Hm Hmax Hfb. destruct (div_BSIZE (length c)) as [Hdiv Hmod].
  assert (Hb : blocks_for (length c + k) = S (length c / BSIZE)).
  { apply Nat.le_antisymm; [apply blocks_for_le|apply blocks_for_lt]; lia. }
  pose proof (proj1 (blocks_for_le (length c) (length bs)) ltac:(lia)) as Hc.
  destruct (decide (length c `mod` BSIZE = 0)%nat) as [E|E].
  - assert (Hq : length bs = (length c / BSIZE)%nat).
    { rewrite Hl. apply Nat.le_antisymm; [apply blocks_for_le; lia|].
      pose proof (proj1 (blocks_for_le (length c) (blocks_for (length c)))). unfold BSIZE in *. lia. }
    rewrite <-Hq. eapply wp_mono; [apply (mkfs_bmap_new m n din bs HI HF HT)|].
    + assert (length bs < blocks_for (BSIZE * MAXFILE))%nat; [|]. 
      { apply blocks_for_lt. unfold BSIZE in *. lia. }
      enough (blocks_for (BSIZE * MAXFILE) <= MAXFILE)%nat by lia. by apply blocks_for_le.
    + unfold nblk in Hfb. rewrite Hb, <-Hl, Hq in Hfb. rewrite Hq. pose proof (mi_fb HI).
      case_decide; destruct (Nat.ltb_spec NDIRECT (S (length c / BSIZE))), (Nat.ltb_spec NDIRECT (length c / BSIZE)); lia.
    + intros [din' a] m' (d & <- & HG & HT'). cbn [fst snd] in *. exists (bs ++ [a]).
      pose proof (gained_holds _ _ _ _ _ _ c HG Hc HH) as HH'. destruct HG as (G1 & G2 & G3 & _).
      split; [done|]. split; [done|]. split; [done|]. split; [by rewrite lookup_app_r, Nat.sub_diag by lia|].
      split; [|by split]. rewrite Hb, length_app, Hq. cbn [length]. lia.
  - assert (Hlt : (length c / BSIZE < length bs)%nat) by (unfold BSIZE in *; lia).
    destruct (lookup_lt_is_Some_2 _ _ Hlt) as [a Ha].
    eapply wp_mono; [by apply (mkfs_bmap_old m n din bs _ a HI HF)|]. intros r m' [-> ->]. cbn [fst snd]. exists bs.
    split; [done|]. split; [done|]. split; [done|]. split; [done|]. split; [|split; [done|apply ext_refl]].
    rewrite Hb, Hl. apply Nat.le_antisymm; [apply blocks_for_le; lia|apply blocks_for_lt; unfold BSIZE in *; lia].
Qed.

Lemma iappend_loop_spec n : ∀ fuel m din bs c p,
  (length p <= fuel)%nat → has m n din bs c → (length c + length p <= BSIZE * MAXFILE)%nat →
  freeblock m + Z.of_nat (nblk (length c + length p) - nblk (length c)) ≤ 1014 →
  wp (iappend_loop fuel din (Z.of_nat (length c)) p) (λ r m', r.2 = Z.of_nat (length c + length p) ∧
    ∃ bs', has m' n r.1 bs' (c ++ p) ∧ ext m (inode_of n din) bs m' (inode_of n r.1) bs') m.
Proof.
  induction fuel as [|fuel IH]; intros m din bs c p Hf HA Hmax Hfb.
  - destruct p; [|simpl in Hf; lia]. apply wp_ret. split; [f_equal; simpl; lia|]. rewrite app_nil_r.
    exists bs. split; [done|apply ext_refl].
  - destruct (decide (p = [])) as [->|Hp].
    { apply wp_ret. split; [f_equal; simpl; lia|]. rewrite app_nil_r. exists bs. split; [done|apply ext_refl]. }
    assert (Hp0 : (0 < length p)%nat) by (destruct p; [done|simpl; lia]).
    destruct (iappend_turn c (length p) Hp0) as (E1 & E2 & E3 & Hk & Hm). set (k := turn (length c) (length p)) in *.
    assert (Hlt : Z.of_nat (length c / BSIZE) < Z.of_nat MAXFILE).
    { destruct (div_BSIZE (length c)). unfold BSIZE in *. lia. }
    assert (Hfb1 : freeblock m + Z.of_nat (nblk (length c + k) - nblk (length c)) ≤ 1014).
    { pose proof (nblk_mono (length c + k) (length c + length p) ltac:(lia)). lia. }
    assert (Hl : length (take k p) = k) by (rewrite length_take; lia).
    cbn [iappend_loop]. destruct p as [|v p']; [done|]. set (p := v :: p') in *. rewrite E1, E2, E3, !Nat2Z.id.
    apply wp_bind. unfold assert. rewrite (proj2 (Z.ltb_lt _ _) Hlt). apply wp_ret. apply wp_bind.
    eapply wp_mono; [apply (mkfs_bmap_next m n din bs c k HA); [lia|done|lia|done]|].
    intros [din1 a] m1 (bs1 & HI1 & HF1 & HT1 & Ha & Hl1 & HH1 & HX1). cbn [fst snd] in *.
    pose proof (addr_small _ _ _ _ HF1 ltac:(apply elem_of_app; right; by eapply list_elem_of_lookup_2)) as Hr.
    apply wp_bind, wp_rsect; [done|lia|lia|]. apply wp_bind, wp_wsect; [done|lia|].
    destruct (holds_store m1 _ bs1 c (take k p) a HI1 HF1 HH1 Ha ltac:(lia)) as (HI2 & HF2 & HH2 & HX2).
    change (set_img (insert (Z.to_nat a) ?d) m1) with (put a d m1). set (m2 := put _ _ _) in *.
    assert (HA2 : has m2 n din1 bs1 (c ++ take k p)).
    { constructor; try done. by rewrite length_app, Hl. }
    assert (HX : ext m (inode_of n din) bs m2 (inode_of n din1) bs1) by by eapply ext_step.
    pose proof (has_count _ _ _ _ _ _ _ _ _ HA HA2 HX) as Hcnt.
    assert (Hlc : length (c ++ take k p) = (length c + k)%nat) by by rewrite length_app, Hl. rewrite Hlc in Hcnt.
    assert (Hld : length (drop k p) = (length p - k)%nat) by apply length_drop.
    rewrite u32_small by (unfold MAXFILE, NDIRECT, NINDIRECT, BSIZE in *; lia).
    rewrite <-Nat2Z.inj_add, <-Hlc. eapply wp_mono; [apply (IH m2 din1 bs1 (c ++ take k p) (drop k p))|]; try done.
    + rewrite Hld. simpl length in *. lia.
    + rewrite Hlc, Hld. lia.
    + rewrite Hlc, Hld. replace (length c + k + (length p - k))%nat with (length c + length p)%nat by lia.
      pose proof (nblk_mono (length c) (length c + k) ltac:(lia)).
      pose proof (nblk_mono (length c + k) (length c + length p) ltac:(lia)). lia.
    + intros [din3 off3] m3 (-> & bs3 & HA3 & HX3). cbn [fst snd] in *. split; [f_equal; lia|]. exists bs3.
      rewrite <-(assoc_L (++)), take_drop in HA3. split; [done|by eapply ext_step].
Qed.

(** ** The inodes of the image *)
Definition dino (m : mk) (n : Z) : dinode := get_dinode (dinode_off n) (vw m (IBLOCK n)).

Lemma wp_rinode m n Q : minv m → 0 ≤ n < 200 → Q (dino m n) m → wp (rinode n) Q m.
Proof.
  intros HI Hn HQ. pose proof (IBLOCK_sb0 n Hn). unfold rinode. apply wp_bind.
  change (i2b n) with (IBLOCK n). by apply wp_rsect; [done|lia|lia|].
Qed.

Definition put_ino (n : Z) (di : dinode) (m : mk) : mk :=
  put (IBLOCK n) (put_dinode (dinode_off n) di (vw m (IBLOCK n))) m.

Lemma wp_winode m n di Q : minv m → 0 ≤ n < 200 → Q tt (put_ino n di m) → wp (winode n di) Q m.
Proof.
  intros HI Hn HQ. pose proof (IBLOCK_sb0 n Hn). unfold winode. apply wp_bind.
  change (i2b n) with (IBLOCK n). apply wp_rsect; [done|lia|lia|]. by apply wp_wsect; [done|lia|].
Qed.

Lemma put_ino_spec m n di :
  minv m → 0 ≤ n < 200 → dinode_ok di →
  minv (put_ino n di m) ∧ dino (put_ino n di m) n = di ∧
  (∀ n', 0 ≤ n' < 200 → n' ≠ n → dino (put_ino n di m) n' = dino m n') ∧
  ∀ y, 29 ≤ y → vw (put_ino n di m) y = vw m y.
Proof.
  intros HI Hn Hd. pose proof (IBLOCK_sb0 n Hn) as Hr. pose proof (mi_fb HI).
  pose proof (vw_block m (IBLOCK n) HI ltac:(lia)) as Hl.
  destruct (dinode_off_eq n) as [Ho Hk].
  assert (Hoff : (dinode_off n + 64 <= length (vw m (IBLOCK n)))%nat).
  { rewrite Hl, Ho. unfold sizeof_dinode, BSIZE. lia. }
  destruct (put_dinode_spec (dinode_off n) di (vw m (IBLOCK n)) Hoff Hd) as (Hlen & Hget & _).
  assert (HV : ∀ y, vw (put_ino n di m) y =
    (<[IBLOCK n := put_dinode (dinode_off n) di (vw m (IBLOCK n))]> (vw m)) y).
  { intros y. apply vw_put; [done|lia|lia]. }
  split; [apply minv_put; [done|lia|congruence]|]. split; [|split].
  - unfold dino. by rewrite HV, fn_lookup_insert.
  - intros n' Hn' Hne. unfold dino. rewrite HV. destruct (decide (IBLOCK n' = IBLOCK n)) as [E|E].
    + rewrite E, fn_lookup_insert. destruct (dinode_off_eq n') as [-> Hk']. rewrite Ho.
      apply put_dinode_other; [done|done|done|done|]. intros Ek. apply Hne. unfold IBLOCK, IPB in *.
      apply Z2Nat.inj in Ek; [|apply Z.mod_pos_bound; lia..]. rewrite (Z.div_mod n 8), (Z.div_mod n' 8) by lia. lia.
    + by rewrite fn_lookup_insert_ne by done.
  - intros y Hy. rewrite HV. apply fn_lookup_insert_ne. lia.
Qed.

(** A file keeps its contents when its blocks do. *)
Lemma has_frame m m' n din bs c :
  has m n din bs c → minv m' → freeblock m ≤ freeblock m' →
  (∀ b, b ∈ inds (inode_of n din) ++ bs → vw m' b = vw m b) → has m' n din bs c.
Proof.
  intros [HI HF HT Hl HH] HI' Hfb HV. constructor; try done.
  - pose proof (λ b, addr_taken m _ _ b HI HF) as Hr. destruct HF. constructor; try done.
    + intros j Hj Hi. rewrite HV by (apply elem_of_app; left; by apply elem_inds). auto.
    + intros b Hb. destruct (fm_data b Hb) as [Hd _]. split; [done|]. pose proof (Hr b Hb). pose proof (mi_fb HI).
      simpl. rewrite vw_used by (done || lia). apply bool_decide_true. lia.
  - intros x Hx. rewrite (fbyte_kept (vw m)); [by apply HH|]. intros b Hb. apply HV. apply elem_of_app. by right.
Qed.

Record fok (m : mk) (n : Z) (e : entry) : Prop := {
  fo_has : has m n (dino m n) (e_bs e) (e_bytes e);
  fo_type : d_type (dino m n) = e_type e;
  fo_nlink : d_nlink (dino m n) = 1;
  fo_size : d_size (dino m n) = Z.of_nat (length (e_bytes e));
}.

Definition own (m : mk) (n : Z) (e : entry) : list Z := inds (inode_of n (dino m n)) ++ e_bs e.

Record image (m : mk) (F : list entry) : Prop := {
  im_inv : minv m;
  im_ino : freeinode m = Z.of_nat (length F) + 1;
  im_len : (length F <= 199)%nat;
  im_file : ∀ k e, F !! k = Some e → fok m (Z.of_nat k + 1) e;
  im_disj : ∀ k k' e e' b, k ≠ k' → F !! k = Some e → F !! k' = Some e' →
    b ∈ own m (Z.of_nat k + 1) e → b ∉ own m (Z.of_nat k' + 1) e';
  im_count : freeblock m = 29 + Z.of_nat (total F);
  im_free : ∀ n, Z.of_nat (length F) + 1 ≤ n < 200 → d_type (dino m n) = 0;
}.

Lemma fok_frame m m' n e :
  fok m n e → minv m' → freeblock m ≤ freeblock m' → dino m' n = dino m n →
  (∀ b, b ∈ own m n e → vw m' b = vw m b) → fok m' n e.
Proof.
  intros [HA H1 H2 H3] HI Hfb Hd HV. constructor; rewrite Hd; try done. by apply (has_frame m).
Qed.

Lemma own_range m n e b : fok m n e → b ∈ own m n e → 29 ≤ b < freeblock m.
Proof. intros H Hb. destruct (fo_has _ _ _ H). by eapply addr_taken. Qed.

(** The inode after [iappend] fits on the disk. *)
Lemma grown_dinode_ok m m1 n din1 bs c sz :
  has m1 n din1 bs c → inode_of n din1 = set_addrs (d_addrs din1) (inode_of n (dino m n)) → 0 ≤ sz < 2 ^ 32 →
  dinode_ok (set_size sz din1).
Proof.
  intros HA E Hn. destruct HA as [HI HF _ _ _].
  apply (file_map_dinode_ok s (vw m1) (vw m) sb0 (inode_of n (set_size sz din1)) (inode_of n (dino m n)) bs).
  - by apply vw_layout.
  - by destruct HF.
  - done.
  - unfold synced, dino. by destruct (get_dinode _ _).
  - by injection E. - by injection E. - by injection E. - by injection E.
Qed.

Lemma has_size m n din bs c sz : has m n din bs c → has m n (set_size sz din) bs c.
Proof. intros [H1 H2 H3 H4 H5]. constructor; [exact H1|by destruct H2|exact H3|exact H4|exact H5]. Qed.

(** One file of the image changes. *)
Lemma image_update m F k e m' e' :
  let n := Z.of_nat k + 1 in
  image m F → F !! k = Some e → minv m' → freeblock m ≤ freeblock m' → freeinode m' = freeinode m →
  fok m' n e' → (∀ b, b ∈ own m' n e' → b ∈ own m n e ∨ freeblock m ≤ b) →
  (∀ n', 0 ≤ n' < 200 → n' ≠ n → dino m' n' = dino m n') →
  (∀ y, 29 ≤ y < freeblock m → y ∉ own m' n e' → vw m' y = vw m y) →
  freeblock m' + Z.of_nat (nblk (length (e_bytes e))) = freeblock m + Z.of_nat (nblk (length (e_bytes e'))) →
  image m' (<[k := e']> F).
Proof.
  intros n HM Hk HI' Hfb Hino HF' Hnew Hdin HV Hc. pose proof (lookup_lt_Some _ _ _ Hk) as Hlt.
  pose proof (im_len _ _ HM) as Hlen.
  assert (Hd : ∀ k' e', k ≠ k' → F !! k' = Some e' → dino m' (Z.of_nat k' + 1) = dino m (Z.of_nat k' + 1)).
  { intros k' e1 Hne Hk'. pose proof (lookup_lt_Some _ _ _ Hk'). apply Hdin; unfold n; lia. }
  assert (Hown : ∀ k' e', k ≠ k' → F !! k' = Some e' → own m' (Z.of_nat k' + 1) e' = own m (Z.of_nat k' + 1) e').
  { intros k' e1 Hne Hk'. unfold own. by rewrite (Hd k' e1). }
  assert (Hap : ∀ k' e1 b, k ≠ k' → F !! k' = Some e1 → b ∈ own m (Z.of_nat k' + 1) e1 → b ∉ own m' n e').
  { intros k' e1 b Hne Hk' Hb Hb'. pose proof (own_range _ _ _ _ (im_file _ _ HM _ _ Hk') Hb).
    destruct (Hnew b Hb') as [Ho|]; [|lia]. by eapply (im_disj _ _ HM k k' e e1 b). }
  constructor.
  - done.
  - rewrite length_insert, Hino. apply HM.
  - by rewrite length_insert.
  - intros k' e1 Hk'. apply list_lookup_insert_Some in Hk' as [(<- & <- & _)|[Hne Hk']]; [done|].
    pose proof (im_file _ _ HM k' e1 Hk') as Hf. apply (fok_frame m); [done|done|done|by eapply Hd|].
    intros b Hb. apply HV; [by eapply own_range|by eapply Hap].
  - intros k1 k2 e1 e2 b Hne H1 H2.
    apply list_lookup_insert_Some in H1 as [(<- & <- & _)|[Hk1 H1]];
      apply list_lookup_insert_Some in H2 as [(<- & <- & _)|[Hk2 H2]]; [done|..]; fold n.
    + rewrite (Hown k2 e2 Hk2 H2). intros Hb Hb2. by apply (Hap k2 e2 b).
    + rewrite (Hown k1 e1 Hk1 H1). by apply Hap.
    + rewrite (Hown k1 e1 Hk1 H1), (Hown k2 e2 Hk2 H2). by apply (im_disj _ _ HM).
  - pose proof (total_insert F k e e' Hk). pose proof (im_count _ _ HM). lia.
  - rewrite length_insert. intros n' Hn'. rewrite Hdin by (unfold n; lia). by apply (im_free _ _ HM).
Qed.

Lemma iappend_spec m F k e p :
  image m F → F !! k = Some e → (length (e_bytes e) + length p <= BSIZE * MAXFILE)%nat →
  29 + Z.of_nat (total (<[k := mkEnt (e_type e) [] (e_bytes e ++ p)]> F)) ≤ 1014 →
  wp (iappend (Z.of_nat k + 1) p) (λ _ m', ∃ bs', image m' (<[k := mkEnt (e_type e) bs' (e_bytes e ++ p)]> F)) m.
Proof.
  intros HM Hk Hmax Hfb. pose proof (lookup_lt_Some _ _ _ Hk) as Hlt. pose proof (im_len _ _ HM) as Hlen.
  pose proof (im_file _ _ HM k e Hk) as HFk. pose proof (fo_has _ _ _ HFk) as HA. pose proof (im_inv _ _ HM) as HI.
  set (n := Z.of_nat k + 1) in *. assert (Hn : 0 ≤ n < 200) by lia.
  pose proof (total_insert F k e (mkEnt (e_type e) [] (e_bytes e ++ p)) Hk) as Htot. cbn [e_bytes] in Htot.
  rewrite length_app in Htot. pose proof (im_count _ _ HM) as Hcnt.
  pose proof (nblk_mono (length (e_bytes e)) (length (e_bytes e) + length p) ltac:(lia)) as Hmono.
  unfold iappend. apply wp_bind, wp_rinode; [done|done|]. rewrite (fo_size _ _ _ HFk).
  assert (Hb32 : Z.of_nat (BSIZE * MAXFILE) < 2 ^ 32) by reflexivity.
  rewrite xint_id by lia. apply wp_bind.
  eapply wp_mono; [apply (iappend_loop_spec n (length p) m (dino m n) (e_bs e) (e_bytes e) p); [done|done|done|lia]|].
  intros [din1 off1] m1 (-> & bs1 & HA1 & HX). cbn [fst snd]. rewrite xint_id by lia.
  apply wp_winode; [apply HA1|done|]. set (di := set_size _ din1). exists bs1.
  pose proof (ex_inode _ _ _ _ _ _ HX) as Eino. change (i_addrs (inode_of n din1)) with (d_addrs din1) in Eino.
  assert (Hok : dinode_ok di) by (eapply grown_dinode_ok; [exact HA1|exact Eino|lia]).
  destruct (put_ino_spec m1 n di (ha_inv _ _ _ _ _ HA1) Hn Hok) as (HI2 & Hd2 & Hd2' & HV2). set (m2 := put_ino n di m1) in *.
  pose proof (has_count _ _ _ _ _ _ _ _ _ HA HA1 HX) as Hc1. rewrite length_app in Hc1.
  pose proof (mi_fb (ha_inv _ _ _ _ _ HA1)) as Hr1. pose proof (mi_fb HI) as Hr.
  assert (Hown : own m2 n (mkEnt (e_type e) bs1 (e_bytes e ++ p)) = inds (inode_of n din1) ++ bs1).
  { unfold own. by rewrite Hd2. }
  apply (image_update m F k e); fold n; rewrite ?Hown; [done|done|done|simpl; lia|apply HX| |apply HX| | |].
  - constructor; rewrite Hd2; cbn [e_bs e_bytes e_type].
    + pose proof (has_size _ _ _ _ _ (Z.of_nat (length (e_bytes e) + length p)) HA1) as HAd.
      eapply has_frame; [exact HAd|done|done|]. intros b Hb.
      apply HV2. pose proof (addr_small _ _ _ _ (ha_map _ _ _ _ _ HAd) Hb). lia.
    + rewrite <-(fo_type _ _ _ HFk). by injection Eino.
    + rewrite <-(fo_nlink _ _ _ HFk). by injection Eino.
    + by rewrite length_app.
  - intros n' Hn' Hne. rewrite Hd2' by done. unfold dino. pose proof (IBLOCK_sb0 n' Hn').
    rewrite (ex_frame _ _ _ _ _ _ HX); [done|lia|lia|]. intros Hb.
    pose proof (addr_small _ _ _ _ (ha_map _ _ _ _ _ HA1) Hb). lia.
  - intros y Hy Hn'. rewrite HV2 by lia. apply (ex_frame _ _ _ _ _ _ HX); [lia|lia|done].
  - cbn [e_bytes]. rewrite length_app. exact Hc1.
Qed.

Lemma ialloc_spec m F ty :
  image m F → (length F < 199)%nat → ty = T_DIR ∨ ty = T_FILE →
  wp (mkfs_ialloc ty) (λ n m', n = Z.of_nat (length F) + 1 ∧ image m' (F ++ [mkEnt ty [] []])) m.
Proof.
  intros HM Hlen Hty. pose proof (im_inv _ _ HM) as HI. pose proof (mi_fb HI) as Hr.
  unfold mkfs_ialloc. apply wp_bind, wp_get. rewrite (im_ino _ _ HM). set (n := Z.of_nat (length F) + 1).
  assert (Hn : 0 ≤ n < 200) by lia. apply wp_bind. cbv [putM wp]. fold (wp (S := mk) (A := Z)).
  set (m1 := mkMk _ _ _ _). rewrite !xshort_id, xint_id by (destruct Hty as [->| ->]; unfold T_DIR, T_FILE; lia).
  assert (HI1 : minv m1) by by destruct HI.
  apply (wp_bind (winode n _)). apply wp_winode; [done|done|]. apply wp_ret. split; [done|].
  set (di := mkDinode _ _ _ _ _ _). set (m' := put_ino n di m1).
  assert (Hok : dinode_ok di).
  { unfold dinode_ok. cbn [d_type d_major d_minor d_nlink d_size d_addrs di].
    split; [destruct Hty as [->| ->]; unfold T_DIR, T_FILE; lia|]. split_and!; try lia; [by rewrite length_replicate|].
    apply Forall_replicate. lia. }
  destruct (put_ino_spec m1 n di HI1 Hn Hok) as (HI2 & Hd2 & Hd2' & HV2). fold m' in HI2, Hd2, Hd2', HV2.
  assert (Hfile : fok m' n (mkEnt ty [] [])).
  { constructor; rewrite ?Hd2; try done. cbn [e_bs e_bytes]. 
    assert (Ha : ∀ j, (j < S NDIRECT)%nat → replicate (S NDIRECT) 0 !!! j = 0).
    { intros j Hj. by apply list_lookup_total_correct, lookup_replicate_2. }
    assert (Hind : ind (inode_of n di) = 0) by (apply Ha; lia).
    constructor; [done| |by intros E|done|intros x Hx; rewrite Nat.mul_0_r in Hx; lia]. constructor; try done.
    - unfold MAXFILE. simpl. lia.
    - intros j Hj. rewrite Ha by lia. done.
    - unfold NDIRECT. simpl. lia.
    - intros b Hb. unfold inds in Hb. rewrite Hind in Hb. simpl in Hb. by apply not_elem_of_nil in Hb.
    - unfold inds. rewrite Hind. apply NoDup_nil_2. }
  assert (Hold : ∀ k e, F !! k = Some e → dino m' (Z.of_nat k + 1) = dino m (Z.of_nat k + 1)).
  { intros k e Hk. pose proof (lookup_lt_Some _ _ _ Hk). rewrite Hd2' by (unfold n; lia). done. }
  assert (Hnew : own m' n (mkEnt ty [] []) = []).
  { unfold own. rewrite Hd2. unfold inds, ind. simpl. done. }
  constructor.
  - done.
  - rewrite length_app. simpl. unfold n. rewrite u32_small by lia. lia.
  - rewrite length_app. simpl. lia.
  - intros k e Hk. apply lookup_snoc_Some in Hk as [[Hlt Hk]|[-> <-]]; [|done].
    apply (fok_frame m); [by apply HM|done|done|by eapply Hold|].
    intros b Hb. pose proof (own_range _ _ _ _ (im_file _ _ HM _ _ Hk) Hb). rewrite HV2 by lia. done.
  - intros k1 k2 e1 e2 b Hne H1 H2.
    apply lookup_snoc_Some in H1 as [[L1 H1]|[E1 <-]]; apply lookup_snoc_Some in H2 as [[L2 H2]|[E2 <-]].
    + unfold own. rewrite (Hold _ _ H1), (Hold _ _ H2). by apply (im_disj _ _ HM k1 k2 e1 e2 b).
    + rewrite E2. fold n. rewrite Hnew. intros _. apply not_elem_of_nil.
    + rewrite E1. fold n. rewrite Hnew. intros Hb. by apply not_elem_of_nil in Hb.
    + congruence.
  - unfold total. rewrite sum_list_with_app. simpl. rewrite (im_count _ _ HM). unfold total. lia.
  - rewrite length_app. cbn [length]. intros n' Hn'. rewrite Hd2' by (unfold n; lia).
    apply (im_free _ _ HM n'). lia.
Qed.

(** ** The files *)

Lemma copy_file_spec reads : ∀ m F e,
  image m (F ++ [e]) → (length (e_bytes e) + length (file_bytes reads) <= BSIZE * MAXFILE)%nat →
  29 + Z.of_nat (total F + nblk (length (e_bytes e) + length (file_bytes reads))) ≤ 1014 →
  wp (copy_file (Z.of_nat (length F) + 1) reads)
    (λ _ m', ∃ bs, image m' (F ++ [mkEnt (e_type e) bs (e_bytes e ++ file_bytes reads)])) m.
Proof.
  assert (Hend : ∀ m F e, image m (F ++ [e]) → ∃ bs, image m (F ++ [mkEnt (e_type e) bs (e_bytes e ++ [])])).
  { intros m F [ty bs c] HM. exists bs. cbn [e_type e_bytes]. by rewrite app_nil_r. }
  induction reads as [|buf reads IH]; intros m F e HM Hmax Hfb; [by apply wp_ret, Hend|].
  destruct buf as [|v buf]; [by apply wp_ret, Hend|].
  set (b := v :: buf) in *. change (file_bytes (b :: reads)) with (b ++ file_bytes reads) in *.
  rewrite length_app in Hmax, Hfb. change (copy_file _ (b :: reads)) with
    (iappend (Z.of_nat (length F) + 1) b;; copy_file (Z.of_nat (length F) + 1) reads).
  apply wp_bind. eapply wp_mono; [apply (iappend_spec m (F ++ [e]) (length F) e b HM)|].
  - by rewrite lookup_app_r, Nat.sub_diag.
  - lia.
  - rewrite insert_last, total_app, total_cons. cbn [e_bytes]. rewrite length_app.
    pose proof (nblk_mono (length (e_bytes e) + length b) (length (e_bytes e) + (length b + length (file_bytes reads))) ltac:(lia)).
    change (total []) with 0%nat. lia.
  - intros _ m1 (bs & HM1). rewrite insert_last in HM1.
    eapply wp_mono; [apply (IH m1 F (mkEnt (e_type e) bs (e_bytes e ++ b)) HM1)|]; cbn [e_type e_bytes]; rewrite ?length_app.
    + lia.
    + by rewrite <-Nat.add_assoc.
    + intros _ m2 (bs2 & HM2). exists bs2. by rewrite (assoc_L (++)).
Qed.

Lemma mkfs_file_spec m r F f :
  image m (r :: F) → host_ok f → (length F < 198)%nat → (length (e_bytes r) + sizeof_dirent <= BSIZE * MAXFILE)%nat →
  29 + Z.of_nat (nblk (length (e_bytes r) + sizeof_dirent) + total F + nblk (length (host_bytes f))) ≤ 1014 →
  wp (mkfs_file 1 f) (λ _ m', ∃ bs0 bs, image m'
    (mkEnt (e_type r) bs0 (e_bytes r ++ mk_dirent (Z.of_nat (length F) + 2) (host_name f)) :: F ++
     [mkEnt T_FILE bs (host_bytes f)])) m.
Proof.
  intros HM Hf Hlen Hmax Hfb. destruct (host_name_ok f Hf) as (Hnm & Hnl & _). destruct Hf as (Hsl & _ & reads & Hr & Hrl).
  unfold host_bytes in *. rewrite Hr in *. cbn [default from_option id] in *.
  unfold mkfs_file. apply wp_bind. rewrite bool_decide_true by done. apply wp_ret. rewrite Hr.
  apply wp_bind. eapply wp_mono; [apply (ialloc_spec m (r :: F) T_FILE HM); [simpl; lia|by right]|].
  intros n m1 [-> HM1]. rewrite Hnm. apply wp_bind, wp_ret. apply wp_bind. unfold append_dirent.
  rewrite xshort_id by (simpl length; lia).
  replace (Z.of_nat (length (r :: F)) + 1) with (Z.of_nat (length F) + 2) by (simpl length; lia).
  set (de := mk_dirent _ _). assert (Hde : length de = sizeof_dirent) by by apply length_dirent.
  set (new := mkEnt T_FILE [] []) in *.
  eapply wp_mono; [apply (iappend_spec m1 ((r :: F) ++ [new]) 0 r de HM1 eq_refl)|].
  - by rewrite Hde.
  - cbn [app]. change (<[0%nat := ?x]> (r :: ?l)) with (x :: l). rewrite total_cons, total_app. cbn [e_bytes].
    rewrite length_app, Hde. change (total [new]) with 0%nat. lia.
  - intros _ m2 (bs0 & HM2). cbn [app] in HM2. change (<[0%nat := ?x]> (r :: ?l)) with (x :: l) in HM2.
    set (r' := mkEnt _ _ _) in HM2. replace (Z.of_nat (length F) + 2) with (Z.of_nat (length (r' :: F)) + 1) by (simpl length; lia).
    eapply wp_mono; [apply (copy_file_spec reads m2 (r' :: F) new)|]; [done|done| |].
    + rewrite total_cons. cbn [e_bytes r' new length]. rewrite length_app, Hde. simpl Nat.add. lia.
    + intros _ m3 (bs & HM3). exists bs0, bs. done.
Qed.

Lemma mkfs_files_spec files : ∀ m r F,
  image m (r :: F) → Forall host_ok files → (length F + length files <= 198)%nat →
  (length (e_bytes r) + sizeof_dirent * length files <= BSIZE * MAXFILE)%nat →
  29 + Z.of_nat (nblk (length (e_bytes r) + sizeof_dirent * length files) + total F + host_blocks files) ≤ 1014 →
  wp (forM files (mkfs_file 1)) (λ _ m', ∃ bs0 G, image m'
    (mkEnt (e_type r) bs0 (e_bytes r ++ ents_bytes (listing (Z.of_nat (length F) + 2) files)) :: F ++ G) ∧
    Forall2 (λ f e, e_type e = T_FILE ∧ e_bytes e = host_bytes f) files G) m.
Proof.
  induction files as [|f files IH]; intros m [ty bs0 c] F HM Hok Hlen Hmax Hfb; cbn [e_type e_bytes] in *.
  - apply wp_ret. exists bs0, []. split; [|constructor]. by rewrite !app_nil_r.
  - apply Forall_cons in Hok as [Hf Hok]. destruct (host_name_ok f Hf) as (_ & Hnl & _).
    cbn [length] in Hlen, Hmax, Hfb. unfold host_blocks in Hfb. cbn [sum_list_with] in Hfb. fold (host_blocks files) in Hfb.
    pose proof (nblk_mono (length c + sizeof_dirent) (length c + sizeof_dirent * S (length files)) ltac:(unfold sizeof_dirent; lia)) as Hmono.
    apply wp_bind. eapply wp_mono; [apply (mkfs_file_spec m _ F f HM Hf); cbn [e_bytes]; [lia|unfold sizeof_dirent in *; lia|lia]|].
    cbn [e_type e_bytes]. intros _ m1 (bs1 & bs & HM1).
    set (de := mk_dirent _ _) in HM1. assert (Hde : length de = sizeof_dirent) by by apply length_dirent.
    eapply wp_mono; [apply (IH m1 (mkEnt ty bs1 (c ++ de)) (F ++ [mkEnt T_FILE bs (host_bytes f)]) HM1 Hok)|];
      cbn [e_type e_bytes]; rewrite ?length_app, ?Hde; cbn [length].
    + lia.
    + unfold sizeof_dirent in *. lia.
    + rewrite total_app, total_cons. cbn [e_bytes]. change (total []) with 0%nat.
      replace (length c + sizeof_dirent + sizeof_dirent * length files)%nat
        with (length c + sizeof_dirent * S (length files))%nat by lia. lia.
    + intros _ m2 (bs2 & G & HM2 & HG). exists bs2, (mkEnt T_FILE bs (host_bytes f) :: G). split; [|by constructor].
      replace (Z.of_nat (length F + 1) + 2) with (Z.of_nat (length F) + 2 + 1) in HM2 by lia.
      rewrite <-!(assoc_L (++)) in HM2. exact HM2.
Qed.

(** ** The beginning and the end *)
Definition img0 : list block := replicate BSIZE 0 :: sb_bytes :: replicate 1022 (replicate BSIZE 0).

Lemma image0 : image (mkMk img0 29 29 1) [].
Proof.
  assert (Hz : ∀ z, 2 ≤ z < 1024 → img0 !!! Z.to_nat z = replicate BSIZE 0).
  { intros z Hz. apply list_lookup_total_correct. unfold img0. destruct (Z.to_nat z) as [|[|k]] eqn:E; [lia|lia|].
    change ((_ :: _ :: ?l) !! S (S k)) with (l !! k). apply lookup_replicate_2. lia. }
  assert (HI : minv (mkMk img0 29 29 1)).
  { constructor; cbn [img freeblock usedblocks]; try done.
    - intros k b Hb. apply list_elem_of_lookup_2 in Hb. unfold img0 in Hb. rewrite !elem_of_cons in Hb.
      destruct Hb as [->|[->|Hb]]; [done|vm_compute; reflexivity|].
      by apply elem_of_replicate in Hb as [-> _].
    - intros z Hz'. apply Hz. lia. }
  constructor; try done; [simpl; lia|].
  intros n Hn. cbn [length] in Hn. pose proof (IBLOCK_sb0 n ltac:(lia)) as Hr. unfold dino, vw.
  rewrite (proj2 (Z.eqb_neq _ _)) by lia. cbn [img]. rewrite Hz by lia.
  unfold get_dinode, get_s16. cbn [d_type]. destruct (dinode_off_eq n) as [-> Hk].
  rewrite get_u16_zeros; [done|]. unfold sizeof_dinode, BSIZE. lia.
Qed.

Lemma mkfs_start_spec :
  wp mkfs_start (λ r m, r = 1 ∧ ∃ bs, image m [mkEnt T_DIR bs (ents_bytes (root_list []))]) mk0.
Proof.
  unfold mkfs_start. cbv zeta. apply wp_bind, wp_modify. apply wp_bind, wp_ret. apply wp_bind.
  assert (E : forM (seqZ 0 (nblocks + (ninodes / IPB + 3 + (fssize / (512 * 8) + 1)) + nlog)) (λ i, wsect i (replicate BSIZE 0))
    (mkMk [] 29 29 1) = Ok tt (mkMk (replicate 1024 (replicate BSIZE 0)) 29 29 1)) by (vm_compute; reflexivity).
  unfold wp at 1. change (forM _ _ _) with (forM (seqZ 0 (nblocks + (ninodes / IPB + 3 + (fssize / (512 * 8) + 1)) + nlog)) (λ i, wsect i (replicate BSIZE 0))
    (mkMk [] 29 29 1)). rewrite E. apply wp_bind, wp_modify.
  change (set_img _ _) with (mkMk img0 29 29 1).
  apply wp_bind. eapply wp_mono; [apply (ialloc_spec _ [] T_DIR image0); [simpl; lia|by left]|].
  intros n m [-> HM]. apply wp_bind, wp_ret.
  set (d1 := mk_dirent 1 (46 :: replicate 13 0)). set (d2 := mk_dirent 1 (46 :: 46 :: replicate 12 0)).
  apply wp_bind. unfold append_dirent. change (xshort (Z.of_nat (length (@nil entry)) + 1)) with 1.
  fold d1 d2. eapply wp_mono; [apply (iappend_spec m _ 0 (mkEnt T_DIR [] []) d1 HM eq_refl)|].
  - apply leb_complete. vm_compute. reflexivity.
  - vm_compute. congruence.
  - intros _ m1 (bs1 & HM1). apply wp_bind.
    eapply wp_mono; [apply (iappend_spec m1 _ 0 (mkEnt T_DIR bs1 d1) d2 HM1 eq_refl)|].
    + apply leb_complete. vm_compute. reflexivity.
    + vm_compute. congruence.
    + intros _ m2 (bs2 & HM2). apply wp_ret. split; [done|]. exists bs2. exact HM2.
Qed.

(** The size of the root directory is rounded up, and the bitmap is written. *)
Lemma mkfs_end_spec m r F :
  image m (r :: F) → (length (e_bytes r) `mod` BSIZE ≠ 0)%nat →
  wp (mkfs_end 1) (λ _ m', ∃ m1, let c := e_bytes r ++ replicate (BSIZE * length (e_bs r) - length (e_bytes r)) 0 in
    image m1 (mkEnt (e_type r) (e_bs r) c :: F) ∧
    img m' = <[28%nat := bitmap_of (Z.to_nat (freeblock m1))]> (img m1)) m.
Proof.
  intros HM Hmod. pose proof (im_inv _ _ HM) as HI. pose proof (mi_fb HI) as Hr.
  pose proof (im_file _ _ HM 0 r eq_refl) as Hf. change (Z.of_nat 0 + 1) with 1 in Hf.
  pose proof (fo_has _ _ _ Hf) as HA. pose proof (fm_max (ha_map _ _ _ _ _ HA)) as Hmax. unfold MAXFILE, NDIRECT, NINDIRECT in Hmax.
  destruct (div_BSIZE (length (e_bytes r))) as [Hdiv Hlt].
  assert (Hb : length (e_bs r) = S (length (e_bytes r) / BSIZE)).
  { rewrite (ha_len _ _ _ _ _ HA). apply Nat.le_antisymm; [apply blocks_for_le|apply blocks_for_lt]; lia. }
  set (c := e_bytes r ++ _). assert (Hc : length c = (BSIZE * length (e_bs r))%nat).
  { unfold c. rewrite length_app, length_replicate. lia. }
  unfold mkfs_end. apply wp_bind, wp_rinode; [done|lia|]. rewrite (fo_size _ _ _ Hf).
  assert (Hsm : 0 ≤ Z.of_nat (length c) < 2 ^ 32) by (rewrite Hc; unfold BSIZE; lia).
  assert (Ec : (Z.of_nat (length (e_bytes r)) / Z.of_nat BSIZE + 1) * Z.of_nat BSIZE = Z.of_nat (length c)).
  { rewrite <-Nat2Z.inj_div, Hc, Hb. lia. }
  rewrite (xint_id (Z.of_nat (length (e_bytes r)))) by (unfold c in Hsm; rewrite length_app in Hsm; lia).
  rewrite Ec, u32_small, xint_id by done. apply wp_bind, wp_winode; [done|lia|].
  set (di := set_size _ _).
  assert (Hok : dinode_ok di) by (eapply (grown_dinode_ok m m 1); [exact HA|by destruct (dino m 1)|done]).
  destruct (put_ino_spec m 1 di HI ltac:(lia) Hok) as (HI1 & Hd1 & Hd1' & HV1). set (m1 := put_ino 1 di m) in *.
  assert (HM1 : image m1 (mkEnt (e_type r) (e_bs r) c :: F)).
  { apply (image_update m (r :: F) 0 r m1 (mkEnt (e_type r) (e_bs r) c) HM eq_refl HI1); change (Z.of_nat 0 + 1) with 1.
    - done.
    - done.
    - constructor; rewrite Hd1; cbn [e_bs e_bytes e_type].
      + apply (has_frame m); [|done|done|].
        * apply has_size. destruct HA as [A1 A2 A3 A4 A5]. constructor; try done.
          -- by rewrite Hc, blocks_for_mul.
          -- intros x Hx. rewrite A5 by done. f_equal. unfold c.
             destruct (decide (x < length (e_bytes r))%nat); [by rewrite lookup_app_l|].
             rewrite (lookup_ge_None_2 _ x), lookup_app_r by lia.
             rewrite lookup_replicate_2; [done|]. lia.
        * intros b Hbb. apply HV1. pose proof (addr_small _ _ _ _ (ha_map _ _ _ _ _ HA) Hbb). lia.
      + apply Hf.
      + apply Hf.
      + done.
    - intros b. unfold own. rewrite Hd1. by left.
    - intros n' Hn' Hne. by apply Hd1'.
    - intros y Hy _. apply HV1. lia.
    - cbn [e_bytes]. unfold nblk. by rewrite Hc, blocks_for_mul, (ha_len _ _ _ _ _ HA). }
  apply wp_bind, wp_get. unfold mkfs_balloc. apply wp_bind. rewrite (mi_used HI1). pose proof (mi_fb HI1).
  unfold assert. rewrite (proj2 (Z.ltb_lt _ _)) by lia. apply wp_ret. apply wp_wsect; [done|done|].
  exists m1. split; [exact HM1|done].
Qed.

(** When its entries fill their blocks, the size is one block more than the
    directory has. *)
Lemma mkfs_end_full m r F :
  image m (r :: F) → (length (e_bytes r) `mod` BSIZE = 0)%nat → (length (e_bytes r) / BSIZE < NDIRECT)%nat →
  wp (mkfs_end 1) (λ _ m', let di := get_dinode (dinode_off 1) (img m' !!! Z.to_nat (IBLOCK 1)) in
    d_size di = Z.of_nat (length (e_bytes r) + BSIZE) ∧ d_addrs di !!! (length (e_bytes r) / BSIZE)%nat = 0) m.
Proof.
  intros HM Hmod Hdir. pose proof (im_inv _ _ HM) as HI.
  pose proof (im_file _ _ HM 0 r eq_refl) as Hf. change (Z.of_nat 0 + 1) with 1 in Hf.
  pose proof (fo_has _ _ _ Hf) as HA. pose proof (ha_map _ _ _ _ _ HA) as HF.
  destruct (div_BSIZE (length (e_bytes r))) as [Hdiv Hlt]. rewrite Hmod in Hdiv.
  set (k := (length (e_bytes r) / BSIZE)%nat) in *.
  assert (Hb : length (e_bs r) = k).
  { rewrite (ha_len _ _ _ _ _ HA), Hdiv, Nat.add_0_r. apply blocks_for_mul. }
  assert (Hsm : 0 ≤ Z.of_nat (length (e_bytes r) + BSIZE) < 2 ^ 32) by (rewrite Hdiv; unfold NDIRECT, BSIZE in *; lia).
  unfold mkfs_end. apply wp_bind, wp_rinode; [done|lia|]. rewrite (fo_size _ _ _ Hf).
  assert (Ec : (Z.of_nat (length (e_bytes r)) / Z.of_nat BSIZE + 1) * Z.of_nat BSIZE = Z.of_nat (length (e_bytes r) + BSIZE)).
  { rewrite <-Nat2Z.inj_div. fold k. lia. }
  rewrite (xint_id (Z.of_nat (length (e_bytes r)))) by lia.
  rewrite Ec, u32_small, xint_id by done. apply wp_bind, wp_winode; [done|lia|].
  set (di := set_size _ _).
  assert (Hok : dinode_ok di) by (eapply (grown_dinode_ok m m 1); [exact HA|by destruct (dino m 1)|done]).
  destruct (put_ino_spec m 1 di HI ltac:(lia) Hok) as (HI1 & Hd1 & _). set (m1 := put_ino 1 di m) in *.
  apply wp_bind, wp_get. unfold mkfs_balloc. apply wp_bind. rewrite (mi_used HI1). pose proof (mi_fb HI1).
  unfold assert. rewrite (proj2 (Z.ltb_lt _ _)) by lia. apply wp_ret. apply wp_wsect; [done|done|].
  assert (E : get_dinode (dinode_off 1) (<[28%nat := bitmap_of (Z.to_nat (freeblock m1))]> (img m1) !!! Z.to_nat (IBLOCK 1)) = di).
  { rewrite <-Hd1. by rewrite list_lookup_total_insert_ne. }
  cbv zeta. change (img (set_img _ m1)) with (<[28%nat := bitmap_of (Z.to_nat (freeblock m1))]> (img m1)).
  rewrite E. split; [done|]. cbn [d_addrs di set_size]. change (d_addrs (dino m 1)) with (i_addrs (inode_of 1 (dino m 1))).
  rewrite (fm_direct HF) by done. by rewrite lookup_ge_None_2 by lia.
Qed.

End image.

(** ** The root directory as a map *)
Definition ent_ok (e : Z * list Z) : Prop := 0 < e.1 < 2 ^ 16 ∧ length e.2 = DIRSIZ ∧ Forall is_byte e.2.

Lemma ents_bytes_len es : Forall ent_ok es → length (ents_bytes es) = (sizeof_dirent * length es)%nat.
Proof.
  induction 1 as [|e es (_ & He & _) _ IH]; [done|]. unfold ents_bytes in *. cbn [fmap list_fmap concat].
  rewrite length_app, IH, length_dirent by done. cbn [length]. lia.
Qed.

Lemma dirent_at_ents es tail : ∀ k e, Forall ent_ok es → es !! k = Some e →
  dirent_at (ents_bytes es ++ tail) k = mk_dirent e.1 e.2.
Proof.
  induction es as [|a es IH]; intros k e Hok He; [done|]. apply Forall_cons in Hok as [(_ & Ha & _) Hok].
  unfold ents_bytes. cbn [fmap list_fmap concat]. fold (ents_bytes es). rewrite <-(assoc_L (++)).
  pose proof (length_dirent a.1 a.2 Ha) as Hl. unfold dirent_at, slice. destruct k as [|k].
  - injection He as ->. rewrite Nat.mul_0_r, drop_0, <-Hl. apply take_app_length.
  - replace (sizeof_dirent * S k)%nat with (length (mk_dirent a.1 a.2) + sizeof_dirent * k)%nat by lia.
    rewrite drop_app_add. by apply IH.
Qed.

Lemma find_listed {A} (f : nat → bool) (g : A → bool) (h : nat → Z) (h' : A → Z) (l : list A) : ∀ a,
  (∀ k e, l !! k = Some e → f (a + k)%nat = g e ∧ h (a + k)%nat = h' e) →
  h <$> List.find f (seq a (length l)) = h' <$> List.find g l.
Proof.
  induction l as [|x l IH]; intros a H; [done|]. cbn [length seq List.find].
  destruct (H O x eq_refl) as [E1 E2]. rewrite Nat.add_0_r in E1, E2. rewrite E1. destruct (g x); [simpl; by rewrite E2|].
  apply IH. intros k e He. replace (S a + k)%nat with (a + S k)%nat by lia. by apply H.
Qed.

Lemma dir_map_ents es k q : Forall ent_ok es →
  dir_map (length es + k) (ents_bytes es ++ replicate (sizeof_dirent * k) 0) q =
  fst <$> List.find (λ e, bool_decide (cname DIRSIZ q = cname DIRSIZ e.2)) es.
Proof.
  intros Hok. set (c := ents_bytes es ++ _). pose proof (ents_bytes_len es Hok) as Hl.
  unfold dir_map, dir_find. rewrite seq_app, find_app_l.
  - apply find_listed. intros j e He. cbn [Nat.add].
    pose proof (Forall_lookup_1 _ _ _ _ Hok He) as (Hi & Hn & _).
    assert (Ei : inum_at c j = e.1).
    { unfold inum_at, c. rewrite (dirent_at_ents es _ j e Hok He). unfold de_inum, get_u16, slice, mk_dirent.
      rewrite drop_0. change 2%nat with (length (le_split 2 e.1)) at 1. rewrite take_app_length, le_join_split.
      apply Z.mod_small. lia. }
    split; [|done]. unfold dir_match, name_at. rewrite Ei, (proj2 (Z.eqb_neq _ _)) by lia. cbn [negb andb].
    unfold c. rewrite (dirent_at_ents es _ j e Hok He). unfold de_name, mk_dirent, slice.
    change (drop 2 (le_split 2 e.1 ++ e.2)) with e.2. by rewrite take_ge by lia.
  - intros j Hj. apply elem_of_seq in Hj. unfold dir_match. assert (E : inum_at c j = 0).
    { unfold inum_at, dirent_at, slice, c.
      replace (sizeof_dirent * j)%nat with (length (ents_bytes es) + sizeof_dirent * (j - length es))%nat
        by (unfold sizeof_dirent in *; lia).
      rewrite drop_app_add, drop_replicate, take_replicate, Nat.min_l by (unfold sizeof_dirent; lia).
      apply get_u16_zeros. unfold sizeof_dirent. lia. }
    by rewrite E.
Qed.

Lemma ents_content es k : Forall ent_ok es →
  dir_content (length es + k) (ents_bytes es ++ replicate (sizeof_dirent * k) 0).
Proof.
  intros Hok. split; [rewrite length_app, length_replicate, ents_bytes_len by done; lia|].
  apply Forall_app. split; [|apply Forall_replicate; split; lia].
  induction Hok as [|e es (_ & _ & He) _ IH]; [done|]. unfold ents_bytes. cbn [fmap list_fmap concat].
  apply Forall_app. split; [|done]. apply Forall_app. split; [apply le_split_bytes|done].
Qed.

Lemma root_list_ok files : Forall host_ok files → (length files <= 198)%nat → Forall ent_ok (root_list files).
Proof.
  intros Hok Hlen.
  assert (Hl : ∀ n, 0 < n → n + Z.of_nat (length files) < 2 ^ 16 → Forall ent_ok (listing n files)).
  { clear Hlen. induction Hok as [|f files Hf _ IH]; intros n Hn Hle; [constructor|]. cbn [length] in Hle.
    destruct (host_name_ok f Hf) as (_ & Hnl & _ & Hnb). constructor; [split; [simpl; lia|done]|]. apply IH; lia. }
  constructor; [|constructor; [|apply Hl; lia]]; (split; [simpl; lia|split; [done|]]);
    repeat (constructor; [split; lia|]); constructor.
Qed.

Lemma length_listing files : ∀ n, length (listing n files) = length files.
Proof. induction files as [|f files IH]; intros n; [done|]. simpl. by rewrite IH. Qed.

(** ** The image boots *)
Section boot.
Context `{BD : BlockDev}.

Lemma listing_len files : Forall host_ok files → (length files <= 198)%nat →
  length (ents_bytes (root_list files)) = (sizeof_dirent * (2 + length files))%nat.
Proof.
  intros Hok Hlen. rewrite ents_bytes_len by by apply root_list_ok. unfold root_list. cbn [length].
  by rewrite length_listing.
Qed.

(** What [mkfs_main] leaves in the image. *)
Definition made (s : fs) (files : list hostfile) (d : list block) : Prop :=
  ∃ m bs G, let c := ents_bytes (root_list files) in
    image s m (mkEnt T_DIR bs (c ++ replicate (BSIZE * length bs - length c) 0) :: G) ∧
    Forall2 (λ f e, e_type e = T_FILE ∧ e_bytes e = host_bytes f) files G ∧ length bs = blocks_for (length c) ∧
    d = <[28%nat := bitmap_of (Z.to_nat (freeblock m))]> (img m).

(** Everything before the end of [main]. *)
Lemma mkfs_main_wp s host files Q :
  log_start (lg (lt s)) = 1014 → log_size (lg (lt s)) = 10 → 1024 ≤ Z.of_nat (length (disk (blk (lt s)))) →
  is_Some (h_reads host) → Forall host_ok files → (length files <= 198)%nat →
  let n := (sizeof_dirent * (2 + length files))%nat in
  29 + Z.of_nat (nblk n + host_blocks files) ≤ 1014 →
  (∀ m bs G, image s m (mkEnt T_DIR bs (ents_bytes (root_list files)) :: G) →
    Forall2 (λ f e, e_type e = T_FILE ∧ e_bytes e = host_bytes f) files G → wp (mkfs_end 1) Q m) →
  wp (mkfs_main (host :: files)) Q mk0.
Proof.
  intros Hst Hsz Hdk [rs Hh] Hok Hlen n Hfb HQ. unfold mkfs_main. rewrite Hh.
  apply wp_bind. eapply wp_mono; [apply (mkfs_start_spec s Hst Hsz Hdk)|]. intros r m [-> (bs0 & HM)].
  set (c0 := ents_bytes (root_list [])) in *. assert (Hc0 : length c0 = (sizeof_dirent * 2)%nat) by done.
  apply wp_bind. eapply wp_mono; [apply (mkfs_files_spec s Hst Hsz Hdk files m (mkEnt T_DIR bs0 c0) [] HM Hok)|]; cbn [e_type e_bytes].
  - simpl. lia.
  - rewrite Hc0. unfold sizeof_dirent, BSIZE, MAXFILE, NDIRECT, NINDIRECT. lia.
  - rewrite Hc0. replace (sizeof_dirent * 2 + sizeof_dirent * length files)%nat with n by (unfold n; lia).
    change (total []) with 0%nat. lia.
  - intros _ m1 (bs1 & G & HM1 & HG). cbn [length app] in HM1. change (Z.of_nat 0 + 2) with 2 in HM1.
    assert (E : c0 ++ ents_bytes (listing 2 files) = ents_bytes (root_list files)).
    { unfold c0, ents_bytes, root_list. cbn [fmap list_fmap concat listing]. rewrite <-!(assoc_L (++)). done. }
    rewrite E in HM1. by eapply HQ.
Qed.

Lemma mkfs_main_spec s host files :
  log_start (lg (lt s)) = 1014 → log_size (lg (lt s)) = 10 → 1024 ≤ Z.of_nat (length (disk (blk (lt s)))) →
  is_Some (h_reads host) → Forall host_ok files → (length files <= 198)%nat →
  let n := (sizeof_dirent * (2 + length files))%nat in
  (n `mod` BSIZE ≠ 0)%nat → 29 + Z.of_nat (nblk n + host_blocks files) ≤ 1014 →
  wp (mkfs_main (host :: files)) (λ _ m', made s files (img m')) mk0.
Proof.
  intros Hst Hsz Hdk Hh Hok Hlen n Hmod Hfb. apply (mkfs_main_wp s); try done. intros m1 bs1 G HM1 HG.
  pose proof (listing_len files Hok Hlen) as Hl. fold n in Hl.
  eapply wp_mono; [apply (mkfs_end_spec s Hst Hsz Hdk _ _ _ HM1); cbn [e_bytes]; by rewrite Hl|].
  cbn [e_bytes e_bs e_type]. intros _ m2 (m3 & HM3 & Himg). exists m3, bs1, G. split; [exact HM3|]. split; [exact HG|]. split; [|exact Himg].
  exact (ha_len _ _ _ _ _ _ (fo_has _ _ _ _ (im_file _ _ _ HM1 0 _ eq_refl))).
Qed.

Lemma made_disk s files d : made s files d → log_disk 1014 10 d.
Proof.
  intros (m & bs & G & HM & _ & _ & ->). pose proof (im_inv _ _ _ HM) as HI. pose proof (mi_fb HI) as Hr.
  set (d := <[28%nat := _]> (img m)). assert (Hl : length d = 1024%nat) by (unfold d; by rewrite length_insert, (mi_len HI)).
  assert (H1 : d !!! 1%nat = sb_bytes) by (unfold d; rewrite list_lookup_total_insert_ne by lia; apply HI).
  assert (H2 : d !!! Z.to_nat 1014 = replicate BSIZE 0).
  { unfold d. rewrite list_lookup_total_insert_ne by lia. apply (mi_zero HI). lia. }
  assert (H3 : get_s32 0 (d !!! Z.to_nat 1014) = 0) by by rewrite H2.
  unfold log_disk. rewrite H1, H3, Hl. split; [lia|]. split; [unfold NBUF; lia|]. split; [vm_compute; split; congruence|].
  split; [|split; [vm_compute; reflexivity|split; [vm_compute; reflexivity|]]].
  - intros i b Hb. apply list_lookup_insert_Some in Hb as [(_ & <- & _)|[_ Hb]]; [apply bitmap_of_spec; lia|].
    by apply (mi_blk HI i).
  - split; [lia|]. split; [lia|]. intros z Hz. simpl in Hz. by apply not_elem_of_nil in Hz.
Qed.

Lemma layout_ext s V V' sb : layout s V sb → log_start (lg (lt s)) ≤ 1014 → (∀ y, 0 ≤ y < 1014 → V' y = V y) → layout s V' sb.
Proof.
  intros HY Hst HV. pose proof (bmblock_pos sb (ly_ninodes HY)). pose proof (ly_start HY) as Hs. unfold dstart in Hs.
  eapply layout_keep; [apply same_log_refl|done|apply HV; lia|]. intros b Hb <-. unfold dstart in Hb.
  pose proof (ly_log HY). pose proof (ly_log_size HY). eapply layout_used; [done|apply HV; lia|lia].
Qed.

Lemma file_rep_ext s V V' sb i bs c :
  layout s V sb → log_start (lg (lt s)) ≤ 1014 → (∀ y, 0 ≤ y < 1014 → V' y = V y) →
  file_rep s V sb i bs c → file_rep s V' sb i bs c.
Proof.
  intros HY Hst HV (HF & Hs & Hl & Hb). pose proof (bmblock_pos sb (ly_ninodes HY)) as Hp.
  pose proof (ly_start HY) as Hd. unfold dstart in Hd.
  assert (Hin : ∀ b, b ∈ inds i ++ bs → V' b = V b).
  { intros b Hbb. destruct (fm_data HF b Hbb) as [[H1 H2] _]. unfold dstart in H1. apply HV. lia. }
  split; [|split; [done|split; [done|]]].
  - pose proof (fm_data HF) as Hdat. destruct HF. constructor; try done.
    + intros j Hj Hi. rewrite Hin by (apply elem_of_app; left; by apply elem_inds). auto.
    + intros b Hbb. destruct (Hdat b Hbb) as [D1 D2]. split; [done|]. rewrite <-D2.
      destruct (data_range _ _ _ HY _ D1) as (? & _). eapply layout_used; [done|apply HV; lia|lia].
  - intros x Hx. rewrite (fbyte_kept V); [by apply Hb|]. intros b Hbb. apply Hin, elem_of_app. by right.
Qed.

Lemma fok_rep s m n e : fok s m n e → file_rep s (vw m) sb0 (inode_of n (dino m n)) (e_bs e) (e_bytes e).
Proof.
  intros Hf. destruct (fo_has _ _ _ _ Hf) as [_ HF _ Hl HH]. split; [done|]. split; [apply Hf|]. split; [done|].
  intros x Hx. pose proof (proj1 (blocks_for_le (length (e_bytes e)) (length (e_bs e)))).
  destruct (lookup_lt_is_Some_2 _ _ Hx) as [v Hv]. rewrite Hv, HH, Hv by lia. done.
Qed.

(** The file system that the kernel finds. *)
Record filesystem (s : fs) (V : Z → block) (files : list hostfile) : Prop := {
  sy_layout : layout s V sb0;
  sy_used : ∀ b, 0 ≤ b < 1014 → used V 200 b =
    bool_decide (b < 29 + Z.of_nat (nblk (sizeof_dirent * (2 + length files)) + host_blocks files));
  sy_free : ∀ n, Z.of_nat (length files) + 2 ≤ n < 200 → d_type (get_dinode (dinode_off n) (V (IBLOCK n))) = 0;
  sy_root : ∃ i bs c k, i_inum i = ROOTINO ∧ i_type i = T_DIR ∧ i_nlink i = 1 ∧ synced V i ∧ file_rep s V sb0 i bs c ∧
    dir_content k c ∧ ∀ q, dir_map k c q =
      fst <$> List.find (λ e, bool_decide (cname DIRSIZ q = cname DIRSIZ e.2)) (root_list files);
  sy_files : ∀ k f, files !! k = Some f → ∃ i bs, i_inum i = Z.of_nat k + 2 ∧ i_type i = T_FILE ∧ i_nlink i = 1 ∧
    synced V i ∧ file_rep s V sb0 i bs (host_bytes f);
}.

Lemma made_total files G :
  Forall2 (λ f e, e_type e = T_FILE ∧ e_bytes e = host_bytes f) files G → total G = host_blocks files.
Proof. induction 1 as [|f e files G [_ He] _ IH]; [done|]. rewrite total_cons, IH, He. done. Qed.

Lemma made_filesystem s files d V :
  log_start (lg (lt s)) = 1014 → log_size (lg (lt s)) = 10 → 1024 ≤ Z.of_nat (length (disk (blk (lt s)))) →
  Forall host_ok files → (length files <= 198)%nat → made s files d →
  (∀ z, 0 ≤ z < 1014 → V z = d !!! Z.to_nat z) → filesystem s V files.
Proof.
  intros Hst Hsz Hdk Hok Hlen (m & bs & G & HM & HG & Hb0 & ->) HV0. pose proof (im_inv _ _ _ HM) as HI. pose proof (mi_fb HI) as Hr.
  assert (HV : ∀ y, 0 ≤ y < 1014 → V y = vw m y).
  { intros y Hy. rewrite HV0 by done. unfold vw. destruct (Z.eqb_spec y 28) as [->|Hne].
    - rewrite list_lookup_total_insert_eq; [done|]. rewrite (mi_len HI). lia.
    - by rewrite list_lookup_total_insert_ne by lia. }
  pose proof (vw_layout s Hst Hsz Hdk m HI) as HY. pose proof (Forall2_length _ _ _ HG) as HlG.
  assert (Hdi : ∀ n, 0 ≤ n < 200 → get_dinode (dinode_off n) (V (IBLOCK n)) = dino m n).
  { intros n Hn. pose proof (IBLOCK_sb0 n Hn). unfold dino. by rewrite HV by lia. }
  assert (Hsy : ∀ n, 0 ≤ n < 200 → synced V (inode_of n (dino m n))).
  { intros n Hn. unfold synced. simpl. rewrite Hdi by done. by destruct (dino m n). }
  set (es := root_list files). pose proof (root_list_ok files Hok Hlen) as Hes.
  assert (Hel : length es = (2 + length files)%nat) by (unfold es, root_list; cbn [length]; by rewrite length_listing).
  pose proof (ents_bytes_len es Hes) as Hbl. fold es in HM, Hb0. set (c := ents_bytes es) in *.
  pose proof (im_file _ _ _ HM 0 _ eq_refl) as Hroot. change (Z.of_nat 0 + 1) with 1 in Hroot.
  pose proof (ha_len _ _ _ _ _ _ (fo_has _ _ _ _ Hroot)) as Hbs. cbn [e_bs e_bytes] in Hbs.
  rewrite length_app, length_replicate in Hbs.
  assert (Hcb : (length c <= BSIZE * length bs)%nat).
  { apply blocks_for_le. rewrite Hbs. apply blocks_for_mono. lia. }
  constructor.
  - apply (layout_ext s (vw m)); [done|lia|done].
  - intros b Hb. rewrite (layout_used s (vw m) sb0 HY V (vw m)); [|by apply HV|simpl; lia]. simpl sb_ninodes.
    rewrite vw_used by (done || lia). apply bool_decide_ext. rewrite (im_count _ _ _ HM), total_cons, (made_total _ _ HG).
    cbn [e_bytes]. rewrite length_app, length_replicate.
    assert (E : nblk (length c + (BSIZE * length bs - length c)) = nblk (sizeof_dirent * (2 + length files))).
    { rewrite <-Hel, <-Hbl. unfold nblk. by rewrite <-Hbs, <-Hb0. }
    rewrite E. lia.
  - intros n Hn. rewrite Hdi by lia. apply (im_free _ _ _ HM). cbn [length]. lia.
  - set (k := (32 * length bs - length es)%nat).
    assert (Ek : (BSIZE * length bs - length c)%nat = (sizeof_dirent * k)%nat).
    { unfold k. unfold sizeof_dirent, BSIZE in *. lia. }
    exists (inode_of 1 (dino m 1)), bs, (c ++ replicate (sizeof_dirent * k) 0), (length es + k)%nat.
    split; [done|]. split; [apply Hroot|]. split; [apply Hroot|]. split; [apply Hsy; lia|].
    split; [|split; [by apply ents_content|intros q; by apply dir_map_ents]].
    apply (file_rep_ext s (vw m)); [done|lia|done|]. rewrite <-Ek. exact (fok_rep _ _ _ _ Hroot).
  - intros k f Hk. destruct (Forall2_lookup_l _ _ _ _ _ HG Hk) as (e & He & Ht & Hb).
    pose proof (lookup_lt_Some _ _ _ Hk) as Hlt. pose proof (im_file _ _ _ HM (S k) e He) as Hf.
    replace (Z.of_nat (S k) + 1) with (Z.of_nat k + 2) in Hf by lia.
    exists (inode_of (Z.of_nat k + 2) (dino m (Z.of_nat k + 2))), (e_bs e).
    split; [done|]. split; [rewrite <-Ht; apply Hf|]. split; [apply Hf|]. split; [apply Hsy; lia|].
    apply (file_rep_ext s (vw m)); [done|lia|done|]. rewrite <-Hb. by apply fok_rep.
Qed.

(** A state of the kernel, for the layout of the disk only. *)
Definition fs0 : fs := mkFs (mkLst (mkBst bcache0 (replicate 1024 []) []) (mkLog 1014 10 0 0 0 [])) [].

Lemma mkfs_boots host files :
  is_Some (h_reads host) → Forall host_ok files → (length files <= 198)%nat →
  let n := (sizeof_dirent * (2 + length files))%nat in
  (n `mod` BSIZE ≠ 0)%nat → 29 + Z.of_nat (nblk n + host_blocks files) ≤ 1014 →
  ∃ m t V, mkfs_main (host :: files) mk0 = Ok tt m ∧ boot (img m) = Ok tt t ∧
    lrep t V ∅ [] ∅ ∧ log_busy (lg t) = 0 ∧ ∀ s, lt s = t → filesystem s V files.
Proof.
  intros Hh Hok Hlen n Hmod Hfb.
  opose proof* (mkfs_main_spec fs0 host files) as H1; [done|done|simpl; lia|done|done|done|done|done|].
  apply wp_Ok in H1 as ([] & m & Hrun & Hmade0). pose proof (made_disk _ _ _ Hmade0) as Hd.
  destruct (boot_spec 1014 10 (img m) Hd) as (t & V & Hboot & HL & Hb & Hst & Hsz & Hdk & HV & _).
  exists m, t, V. split; [done|]. split; [done|]. split; [done|]. split; [done|]. intros s <-.
  assert (Hlen' : length (img m) = 1024%nat).
  { destruct Hmade0 as (m0 & ? & ? & HM0 & _ & _ & ->). rewrite length_insert. apply (im_inv _ _ _ HM0). }
  assert (Hdl : 1024 ≤ Z.of_nat (length (disk (blk (lt s))))) by (rewrite Hdk, length_apply_writes; lia).
  pose proof (mkfs_main_spec s host files Hst Hsz Hdl Hh Hok Hlen Hmod Hfb) as H2. unfold wp in H2. rewrite Hrun in H2.
  apply (made_filesystem s files (img m) V Hst Hsz Hdl Hok Hlen H2). intros z Hz. rewrite HV by lia. unfold redo.
  assert (E : get_s32 0 (img m !!! Z.to_nat 1014) = 0).
  { destruct Hmade0 as (m0 & ? & ? & HM0 & _ & _ & ->). pose proof (im_inv _ _ _ HM0) as HI0. pose proof (mi_fb HI0).
    rewrite list_lookup_total_insert_ne by lia. rewrite (mi_zero HI0) by lia. done. }
  by rewrite E.
Qed.

(** C5: The image that [mkfs_main] writes. Let the names have no slash and let
    the files fit: each into a file, all of them and the root directory into the
    blocks before the log, and into the inodes. Then mkfs does not fail. When the
    entries of the root directory do not fill its blocks exactly, the kernel
    boots from the image, with an empty log; the bitmap has exactly the blocks
    that are in use; the root directory, as a map, has ".", ".." and the names
    without their leading underscore; each file has exactly the bytes that were
    read; and the other inodes are free. When they fill them exactly (30 files,
    or 62, and so on) the inode of the root directory gets a size of one block
    more than it has: the address of the last block is 0. *)
Theorem mkfs_correct host files :
  is_Some (h_reads host) → Forall host_ok files → (length files <= 198)%nat →
  let n := (sizeof_dirent * (2 + length files))%nat in
  29 + Z.of_nat (nblk n + host_blocks files) ≤ 1014 →
  ((n `mod` BSIZE ≠ 0)%nat → ∃ m t V, mkfs_main (host :: files) mk0 = Ok tt m ∧ boot (img m) = Ok tt t ∧
    lrep t V ∅ [] ∅ ∧ log_busy (lg t) = 0 ∧ ∀ s, lt s = t → filesystem s V files) ∧
  ((n `mod` BSIZE = 0)%nat → ∃ m, mkfs_main (host :: files) mk0 = Ok tt m ∧
    let di := get_dinode (dinode_off ROOTINO) (img m !!! Z.to_nat (IBLOCK ROOTINO)) in
    d_size di = Z.of_nat (n + BSIZE) ∧ d_addrs di !!! (n / BSIZE)%nat = 0).
Proof.
  intros Hh Hok Hlen n Hfb. split; intros Hmod; [by apply mkfs_boots|].
  assert (wp (mkfs_main (host :: files)) (λ _ m, let di := get_dinode (dinode_off ROOTINO) (img m !!! Z.to_nat (IBLOCK ROOTINO)) in
    d_size di = Z.of_nat (n + BSIZE) ∧ d_addrs di !!! (n / BSIZE)%nat = 0) mk0) as H1.
  { apply (mkfs_main_wp fs0); [done|done|simpl; lia|done|done|done|done|]. intros m bs G HM _.
    pose proof (mkfs_end_full fs0 eq_refl eq_refl ltac:(simpl; lia) _ _ _ HM) as H. cbn [e_bytes] in H.
    rewrite listing_len in H by done. apply H; [done|]. apply (Nat.le_lt_trans _ 6); [|unfold NDIRECT; lia].
    unfold n, sizeof_dirent, BSIZE in *. apply Nat.lt_succ_r, Nat.Div0.div_lt_upper_bound. lia. }
  apply wp_Ok in H1 as ([] & m & Hrun & Hm). by exists m.
Qed.

End boot.

(** One file of three bytes, which the host reads in two pieces. *)
Lemma mkfs_correct_witness :
  ∃ m t V, mkfs_main [mkHost [] (Some []); mkHost [95; 97; 98] (Some [[1; 2]; [3]; []])] mk0 = Ok tt m ∧
    boot (img m) = Ok tt t ∧ ∃ i bs, i_inum i = 2 ∧ file_rep (mkFs t []) V sb0 i bs [1; 2; 3].
Proof.
  edestruct (mkfs_correct (mkHost [] (Some [])) [mkHost [95; 97; 98] (Some [[1; 2]; [3]; []])]) as [Hb _].
  - by eexists.
  - constructor; [|constructor]. split; [|split].
    + apply (bool_decide_eq_true_1 (47 ∉ [95; 97; 98])). vm_compute. reflexivity.
    + repeat constructor; lia.
    + eexists. split; [reflexivity|]. apply leb_complete. vm_compute. reflexivity.
  - apply leb_complete. reflexivity.
  - vm_compute. congruence.
  - destruct Hb as (m & t & V & H1 & H2 & _ & _ & H3); [vm_compute; congruence|].
    exists m, t, V. split; [exact H1|]. split; [exact H2|].
    destruct (sy_files _ _ _ (H3 (mkFs t []) eq_refl) 0 _ eq_refl) as (i & bs & Hi & _ & _ & _ & HR).
    exists i, bs. split; [exact Hi|exact HR].
Defined.
