(* ===== verification/Tedit.v ===== *)
(** * The text editor (tedit.c)

    The document is a doubly linked list of nodes of up to 80 characters, the
    lines on the screen. A node is an index into the list of all nodes; the head
    of the document, [f.head], has index 0, and malloc appends a node: the model
    does not run out of memory. Characters are signed. An access outside of the
    array [content] is undefined, but for the byte before it, which is the top
    byte of the pointer [next] and is read by [newpara]: [top] gives it. *)

From S2P Require Import Prelude.

Definition CONTENT_SIZE : Z := 80.
Definition BACKSPACE : Z := 8.
Definition TAB : Z := 9.
Definition KEY_UP : Z := 226.
Definition KEY_DOWN : Z := 227.
Definition KEY_LEFT : Z := 228.
Definition KEY_RIGHT : Z := 229.
Definition KEY_ESC : Z := 27.
Definition NL : Z := 10.

(** ** State *)
Record node := mkNode {
  n_prev : option nat;
  n_next : option nat;
  n_content : list Z;
  n_size : Z;
}.

Record ted := mkTed {
  nodes : list node;
  f_last : nat;
  f_size : Z;
  newfile : bool;
  linenum : Z;
  firstline_onscreen : Z;
  edit_mode : bool;
  ese_mode : bool;
  hlight_mode : bool;
}.

Definition set_nodes (f : list node → list node) (t : ted) : ted :=
  mkTed (f (nodes t)) (f_last t) (f_size t) (newfile t) (linenum t) (firstline_onscreen t) (edit_mode t) (ese_mode t) (hlight_mode t).
Definition set_last (l : nat) (t : ted) : ted :=
  mkTed (nodes t) l (f_size t) (newfile t) (linenum t) (firstline_onscreen t) (edit_mode t) (ese_mode t) (hlight_mode t).
Definition set_fsize (n : Z) (t : ted) : ted :=
  mkTed (nodes t) (f_last t) n (newfile t) (linenum t) (firstline_onscreen t) (edit_mode t) (ese_mode t) (hlight_mode t).
Definition set_first (n : Z) (t : ted) : ted :=
  mkTed (nodes t) (f_last t) (f_size t) (newfile t) (linenum t) n (edit_mode t) (ese_mode t) (hlight_mode t).
Definition set_edit (b : bool) (t : ted) : ted :=
  mkTed (nodes t) (f_last t) (f_size t) (newfile t) (linenum t) (firstline_onscreen t) b (ese_mode t) (hlight_mode t).
Definition set_ese (b : bool) (t : ted) : ted :=
  mkTed (nodes t) (f_last t) (f_size t) (newfile t) (linenum t) (firstline_onscreen t) (edit_mode t) b (hlight_mode t).
Definition set_hlight (b : bool) (t : ted) : ted :=
  mkTed (nodes t) (f_last t) (f_size t) (newfile t) (linenum t) (firstline_onscreen t) (edit_mode t) (ese_mode t) b.

(** ** Access to nodes *)
Definition getn (p : nat) : M ted node := t ← getM; deref (nodes t !! p).
Definition updn (p : nat) (f : node → node) : M ted unit :=
  _ ← getn p; modify (set_nodes (alter f p)).
(** The node behind a pointer that may be null. *)
Definition ptr (o : option nat) : M ted nat := deref o.

Definition nset_prev (q : option nat) (n : node) : node := mkNode q (n_next n) (n_content n) (n_size n).
Definition nset_next (q : option nat) (n : node) : node := mkNode (n_prev n) q (n_content n) (n_size n).
Definition nset_content (c : list Z) (n : node) : node := mkNode (n_prev n) (n_next n) c (n_size n).
Definition nset_size (z : Z) (n : node) : node := mkNode (n_prev n) (n_next n) (n_content n) z.

Section tedit.
Context (top : nat → Z).

Definition getc (p : nat) (i : Z) : M ted Z :=
  n ← getn p;
  if i =? -1 then mret (match n_next n with Some q => top q | None => 0 end) else
  if i <? 0 then undef else deref (n_content n !! Z.to_nat i).

Definition putc (p : nat) (i c : Z) : M ted unit :=
  n ← getn p;
  if (i <? 0) || (Z.of_nat (length (n_content n)) <=? i) then undef else
  updn p (λ n, nset_content (<[Z.to_nat i := s8 c]> (n_content n)) n).

(** [memset(p->content + i, 0, n)]; a negative [n] is a huge unsigned one. *)
Definition clear_content (p : nat) (i n : Z) : M ted unit :=
  x ← getn p;
  if (i <? 0) || (n <? 0) || (Z.of_nat (length (n_content x)) <? i + n) then undef else
  updn p (λ x, nset_content (splice (Z.to_nat i) (replicate (Z.to_nat n) 0) (n_content x)) x).

(** ** The list of nodes *)
Definition add_node (front : nat) : M ted nat :=
  fr ← getn front;
  t ← getM;
  let new_node := length (nodes t) in
  putM (set_nodes (λ l, l ++ [mkNode (Some front) (n_next fr) (replicate 81 0) 0]) t);;
  updn front (nset_next (Some new_node));;
  (match n_next fr with
   | Some q => updn q (nset_prev (Some new_node))
   | None => mret tt
   end);;
  mret new_node.

Definition pushback_node (front : nat) : M ted nat := add_node front.

(** A node that became empty is kept behind the last one. *)
Definition park (un : nat) : M ted unit :=
  t ← getM;
  updn un (nset_prev (Some (f_last t)));;
  l ← getn (f_last t);
  updn un (nset_next (n_next l));;
  match n_next l with
  | Some q => updn q (nset_prev (Some un))
  | None => mret tt
  end.

(** The loop of [newpara] that moves the rest of the paragraph up. *)
Fixpoint reflow (fuel : nat) (newnode : nat) : M ted unit :=
  match fuel with
  | O => stopM NoFuel
  | S fuel' =>
      n ← getn newnode;
      c ← getc newnode (n_size n - 1);
      if (c =? NL) || (c =? 0) then mret tt else
      t ← getM;
      if (newnode =? f_last t)%nat then mret tt else
      let len := CONTENT_SIZE - n_size n in
      nx ← ptr (n_next n);
      x ← getn nx;
      if n_size x <? CONTENT_SIZE - n_size n then
        forM (seqZ 0 (n_size x)) (λ i,
          n ← getn newnode;
          c ← getc nx i;
          putc newnode (n_size n) c;;
          updn newnode (nset_size (n_size n + 1)));;
        clear_content nx 0 (CONTENT_SIZE + 1);;
        updn nx (nset_size 0);;
        t ← getM;
        if negb (nx =? f_last t)%nat then
          x ← getn nx;
          updn newnode (nset_next (n_next x));;
          q ← ptr (n_next x);
          updn q (nset_prev (Some newnode));;
          updn nx (nset_next None);;
          updn nx (nset_prev None);;
          park nx;;
          t ← getM;
          updn (f_last t) (nset_next (Some nx))
        else
          x ← getn nx;
          q ← ptr (n_prev x);
          modify (set_last q)
      else
        forM (seqZ 0 len) (λ i,
          n ← getn newnode;
          c ← getc nx i;
          putc newnode (n_size n) c;;
          updn newnode (nset_size (n_size n + 1)));;
        x ← getn nx;
        forM (seqZ len (n_size x - len - len)) (λ i,
          c ← getc nx i;
          putc nx (i - len) c);;
        updn nx (nset_size (n_size x - len));;
        clear_content nx (n_size x - len) (CONTENT_SIZE - (n_size x - len));;
        reflow fuel' nx
  end.

(** Every turn of the loop goes to the next node. *)
Definition newpara (now : nat) (pos : Z) : M ted Z :=
  newnode ← add_node now;
  n ← getn now;
  forM (seqZ pos (n_size n - pos)) (λ i, c ← getc now i; putc newnode (i - pos) c);;
  putc now pos NL;;
  clear_content now (pos + 1) (CONTENT_SIZE - pos - 1);;
  updn newnode (nset_size (n_size n - pos));;
  updn now (nset_size (pos + 1));;
  c ← getc newnode (n_size n - pos - 1);
  t ← getM;
  if (c =? NL) || (f_last t =? now)%nat then
    (if (f_last t =? now)%nat then n ← getn now; q ← ptr (n_next n); modify (set_last q) else mret tt);;
    mret 1
  else
    reflow (length (nodes t)) newnode;;
    mret 0.

Definition addc_node (now : nat) (pos c : Z) : M ted Z :=
  if pos >? CONTENT_SIZE then mret (-1) else
  n ← getn now;
  if n_size n <? CONTENT_SIZE then
    if pos >=? n_size n then
      putc now (n_size n) c;;
      updn now (nset_size (n_size n + 1));;
      mret 0
    else
      forM (rev (seqZ (pos + 1) (n_size n - pos))) (λ i, c ← getc now (i - 1); putc now i c);;
      putc now pos c;;
      updn now (nset_size (n_size n + 1));;
      mret 0
  else
    lef ← getc now (n_size n - 1);
    forM (rev (seqZ (pos + 1) (n_size n - 1 - pos))) (λ i, c ← getc now (i - 1); putc now i c);;
    putc now pos c;;
    mret lef.

(** The loop of [addc]; a turn goes to the next node, or to a new one. *)
Fixpoint addc_loop (fuel : nat) (now : nat) (pos c : Z) : M ted bool :=
  match fuel with
  | O => stopM NoFuel
  | S fuel' =>
      c ← addc_node now pos c;
      if c =? -1 then mret false else
      if c =? 0 then mret true else
      if c =? NL then
        a ← add_node now;
        n ← getn a;
        putc a (n_size n) NL;;
        updn a (nset_size (n_size n + 1));;
        t ← getM;
        (if (f_last t =? now)%nat then modify (set_last a) else mret tt);;
        mret true
      else
        n ← getn now;
        (match n_next n with
         | None =>
             _ ← add_node now;
             t ← getM;
             n ← getn now;
             q ← ptr (n_next n);
             if (now =? f_last t)%nat then modify (set_last q) else mret tt
         | Some _ => mret tt
         end);;
        n ← getn now;
        now' ← ptr (n_next n);
        addc_loop fuel' now' 0 c
  end.

Definition addc (now : option nat) (pos c : Z) : M ted Z :=
  match now with
  | None => mret (-1)
  | Some now =>
      t ← getM;
      ok ← (if c =? NL then newpara now pos;; mret true
            else addc_loop (S (S (length (nodes t)))) now pos c);
      if negb ok then mret (-1) else
      t ← getM;
      putM (set_fsize (s32 (f_size t + 1)) t);;
      mret 0
  end.

Definition delete_node (now : nat) (pos : Z) : M ted Z :=
  n ← getn now;
  if (pos >? n_size n) || (n_size n =? 0) then mret (-1) else
  forM (seqZ pos (n_size n - 1 - pos)) (λ i, c ← getc now (i + 1); putc now i c);;
  putc now (n_size n - 1) 0;;
  updn now (nset_size (n_size n - 1));;
  if negb (n_size n - 1 =? 0) then
    c ← getc now (n_size n - 2);
    mret (if negb (c =? NL) && negb (c =? 0) then 1 else 0)
  else
    t ← getM;
    n ← getn now;
    (if negb (now =? f_last t)%nat then
       p ← ptr (n_prev n);
       updn p (nset_next (n_next n));;
       q ← ptr (n_next n);
       updn q (nset_prev (n_prev n));;
       updn now (nset_next None);;
       updn now (nset_prev None);;
       park now;;
       updn (f_last t) (nset_next (Some now))
     else
       p ← ptr (n_prev n);
       modify (set_last p));;
    mret 0.

(** The loop of [merge_para]. *)
Fixpoint merge_loop (fuel : nat) (now : nat) (pos : Z) : M ted unit :=
  t ← getM;
  if (now =? f_last t)%nat then mret tt else
  match fuel with
  | O => stopM NoFuel
  | S fuel' =>
      n ← getn now;
      un ← ptr (n_next n);
      x ← getn un;
      if CONTENT_SIZE - pos >=? n_size x then
        forM (seqZ 0 (n_size x)) (λ i,
          c ← getc un i;
          putc now (i + pos) c;;
          updn now (nset_size (i + pos + 1)));;
        clear_content un 0 (CONTENT_SIZE + 1);;
        updn un (nset_size 0);;
        if negb (un =? f_last t)%nat then
          x ← getn un;
          updn now (nset_next (n_next x));;
          q ← ptr (n_next x);
          updn q (nset_prev (Some now));;
          updn un (nset_next None);;
          updn un (nset_prev None);;
          l ← getn (f_last t);
          updn un (nset_next (n_next l));;
          updn un (nset_prev (Some (f_last t)));;
          (match n_next l with Some q => updn q (nset_prev (Some un)) | None => mret tt end);;
          modify (set_last un)
        else
          x ← getn un;
          p ← ptr (n_prev x);
          modify (set_last p)
      else
        forM (seqZ pos (CONTENT_SIZE - pos)) (λ i,
          c ← getc un (i - pos);
          putc now i c;;
          updn now (nset_size (i + 1)));;
        forM (seqZ (CONTENT_SIZE - pos) (n_size x - (CONTENT_SIZE - pos))) (λ i,
          c ← getc un i;
          putc un (i - CONTENT_SIZE + pos) c);;
        updn un (nset_size (n_size x - (CONTENT_SIZE - pos)));;
        x ← getn un;
        clear_content un (n_size x) (CONTENT_SIZE - n_size x);;
        c ← getc un (n_size x - 1);
        if c =? NL then mret tt else merge_loop fuel' un (n_size x)
  end.

Definition merge_para (now : nat) (pos : Z) : M ted Z :=
  t ← getM;
  (if (now =? f_last t)%nat then
     n ← getn now;
     updn now (nset_size (n_size n - 1));;
     putc now (n_size n - 1) 0
   else mret tt);;
  merge_loop (length (nodes t)) now pos;;
  mret 0.

(** The loop of [deletec], which moves one character up from each next node. *)
Fixpoint pull_loop (fuel : nat) (now : nat) : M ted unit :=
  t ← getM;
  if (now =? f_last t)%nat then mret tt else
  match fuel with
  | O => stopM NoFuel
  | S fuel' =>
      n ← getn now;
      nx ← ptr (n_next n);
      c ← getc nx 0;
      putc now (n_size n) c;;
      updn now (nset_size (n_size n + 1));;
      r ← delete_node nx 0;
      if negb (r =? 0) then
        x ← getn nx;
        now' ← ptr (n_next x);
        pull_loop fuel' now'
      else mret tt
  end.

Definition deletec (now : option nat) (pos : Z) : M ted Z :=
  match now with
  | None => mret (-1)
  | Some now =>
      n ← getn now;
      if pos >=? n_size n then mret (-1) else
      c ← getc now pos;
      (if negb (c =? NL) then
         r ← delete_node now pos;
         if r =? 0 then mret tt else
         t ← getM;
         pull_loop (length (nodes t)) now
       else merge_para now pos;; mret tt);;
      t ← getM;
      putM (set_fsize (s32 (f_size t - 1)) t);;
      mret 1
  end.

(** ** Files *)

(** The inner loop of [loadfile]. *)
Fixpoint load_chars (l : list Z) : M ted unit :=
  match l with
  | [] => mret tt
  | c :: l' =>
      t ← getM;
      n ← getn (f_last t);
      _ ← addc (Some (f_last t)) (n_size n) c;
      load_chars l'
  end.

(** [reads] are the results of read: [None] for an error, and no more of them
    at the end of the file. *)
Fixpoint load_reads (reads : list (option (list Z))) : M ted Z :=
  match reads with
  | [] | Some [] :: _ => t ← getM; mret (f_size t)
  | None :: _ => mret (-1)
  | Some buf :: reads' => load_chars buf;; load_reads reads'
  end.

(** [fd] is the answer of the first open; when it fails the file is created. *)
Definition openfile (fd : Z) : M ted unit :=
  if fd <? 0 then
    modify (λ t, mkTed (nodes t) (f_last t) (f_size t) true (linenum t) (firstline_onscreen t) (edit_mode t) (ese_mode t) (hlight_mode t))
  else mret tt.

Definition loadfile (reads : list (option (list Z))) : M ted Z :=
  t ← getM;
  if newfile t then mret 0 else load_reads reads.

(** The characters of a node that [savefile] writes. *)
Fixpoint saved (k : nat) (l : list Z) : list Z :=
  match k, l with
  | S k', c :: l' => if c =? 0 then [] else c :: saved k' l'
  | _, _ => []
  end.

(** The loop of [savefile] over the nodes; the result is what is written. *)
Fixpoint save_loop (fuel : nat) (nline : nat) : M ted (list Z) :=
  match fuel with
  | O => stopM NoFuel
  | S fuel' =>
      n ← getn nline;
      t ← getM;
      let out := saved (Z.to_nat (n_size n + 1)) (n_content n) in
      if (nline =? f_last t)%nat then mret out else
      nx ← ptr (n_next n);
      rest ← save_loop fuel' nx;
      mret (out ++ rest)
  end.

Definition savefile : M ted (list Z) := t ← getM; save_loop (length (nodes t)) 0.

(** [getpline]: the node of a line on the screen. *)
Fixpoint walk (k : nat) (lineptr : option nat) : M ted (option nat) :=
  match k with
  | O => mret lineptr
  | S k' => p ← ptr lineptr; n ← getn p; walk k' (n_next n)
  end.

Definition getpline (pos : Z) : M ted (option nat) :=
  t ← getM; walk (Z.to_nat (firstline_onscreen t + Z.quot pos 80)) (Some O).

(** ** The screen

    The calls on the screen that [main] makes are its result; [pos] and [last]
    are the answers of getpos and lstpos. *)
Inductive scr :=
| Setcln (line : Z) (content : list Z)
| Hlline (line : Z)
| Delhlt (line : Z)
| Clrscr
| Puts (text : string).

Definition draw (nline : nat) (line : Z) : M ted (list scr) :=
  n ← getn nline;
  t ← getM;
  mret (Setcln line (n_content n) :: if hlight_mode t then [Hlline line] else []).

(** The loop that shows the lines from [nline] on; there are 24 of them. *)
Fixpoint redraw (fuel : nat) (nline : nat) (pos : Z) : M ted (list scr) :=
  match fuel with
  | O => stopM NoFuel
  | S fuel' =>
      out ← draw nline (Z.quot pos 80 + 1);
      let pos := pos + 80 in
      t ← getM;
      if (pos >=? 80 * 24) || (nline =? f_last t)%nat then mret out else
      n ← getn nline;
      nx ← ptr (n_next n);
      rest ← redraw fuel' nx pos;
      mret (out ++ rest)
  end.

(** The same after a character was deleted: the lines below the document are
    cleared. *)
Fixpoint clear_lines (fuel : nat) (pos : Z) : list scr :=
  match fuel with
  | O => []
  | S fuel' => if pos <? 80 * 24 then Setcln (Z.quot pos 80 + 1) (replicate 80 0) :: clear_lines fuel' (pos + 80) else []
  end.

Fixpoint redraw_clear (fuel : nat) (nline : nat) (pos : Z) : M ted (list scr) :=
  match fuel with
  | O => stopM NoFuel
  | S fuel' =>
      out ← draw nline (Z.quot pos 80 + 1);
      let pos := pos + 80 in
      t ← getM;
      if pos >=? 80 * 24 then mret out else
      if (nline =? f_last t)%nat then mret (out ++ clear_lines fuel' pos) else
      n ← getn nline;
      nx ← ptr (n_next n);
      rest ← redraw_clear fuel' nx pos;
      mret (out ++ rest)
  end.

(** 24 lines, and the ones above the screen for a negative position. *)
Definition lines_left (pos : Z) : nat := Z.to_nat (26 - Z.quot pos 80).

(** [nline = getpline(pos)], with a new node at the end for a null pointer. *)
Definition line_or_new (pos : Z) : M ted nat :=
  nline ← getpline pos;
  match nline with
  | Some p => mret p
  | None =>
      t ← getM;
      _ ← add_node (f_last t);
      l ← getn (f_last t);
      q ← ptr (n_next l);
      modify (set_last q);;
      mret q
  end.

Definition key_newline (last b : Z) : M ted (list scr) :=
  t ← getM;
  last ← (if last >=? 23 * 80 then putM (set_first (firstline_onscreen t + 1) t);; mret (last - 80) else mret last);
  nline ← getpline last;
  _ ← addc nline (Z.rem last 80) b;
  p ← ptr nline;
  redraw (lines_left last) p last.

Definition key_up (pos : Z) : M ted (list scr) :=
  if pos <? 80 then
    t ← getM;
    putM (set_first (firstline_onscreen t - 1) t);;
    nline ← getpline pos;
    p ← ptr nline;
    redraw (lines_left pos) p pos
  else mret [].

Definition key_down (pos : Z) : M ted (list scr) :=
  if pos >=? 23 * 80 then
    nline ← getpline pos;
    t ← getM;
    if bool_decide (nline = Some (f_last t)) then mret [] else
    putM (set_first (firstline_onscreen t + 1) t);;
    nline ← getpline 0;
    p ← ptr nline;
    redraw (lines_left 0) p 0
  else mret [].

Definition key_delete (pos : Z) : M ted (list scr) :=
  nline ← getpline pos;
  _ ← deletec nline (Z.rem pos 80);
  p ← ptr nline;
  redraw_clear (lines_left pos) p pos.

Definition key_spaces (pos : Z) : M ted (list scr) :=
  let pos := pos - 4 in
  p ← line_or_new pos;
  forM (seq 0 4) (λ _, _ ← addc (Some p) (Z.rem pos 80) 32; mret tt);;
  n ← getn p;
  if n_size n <? 80 then draw p (Z.quot pos 80 + 1)
  else redraw (lines_left pos) p pos.

Definition key_char (pos b : Z) : M ted (list scr) :=
  let pos := pos - 1 in
  p ← line_or_new pos;
  n ← getn p;
  if n_size n <? 80 then
    _ ← addc (Some p) (Z.rem pos 80) b;
    draw p (Z.quot pos 80 + 1)
  else
    _ ← addc (Some p) (Z.rem pos 80) b;
    redraw (lines_left pos) p pos.

(** One turn of the loop of [main] that handles the input [b]; the second
    component says that it goes to the ending page. *)
Definition handle (pos last b : Z) : M ted (list scr * bool) :=
  t ← getM;
  if b =? 16 then
    putM (set_hlight (negb (hlight_mode t)) t);;
    mret ((if hlight_mode t then Delhlt else Hlline) <$> seqZ 1 24, false)
  else if b =? NL then
    if edit_mode t then out ← key_newline last b; mret (out, false) else mret ([], false)
  else if (b =? KEY_RIGHT) || (b =? KEY_LEFT) then mret ([], false)
  else if b =? KEY_UP then out ← key_up pos; mret (out, false)
  else if b =? KEY_DOWN then out ← key_down pos; mret (out, false)
  else if b =? BACKSPACE then
    if edit_mode t then out ← key_delete pos; mret (out, false) else mret ([], false)
  else if b =? TAB then
    if edit_mode t then out ← key_spaces pos; mret (out, false) else mret ([], false)
  else
    (if b =? KEY_ESC then putM (set_ese true (set_edit false t)) else mret tt);;
    t ← getM;
    if (b =? 105) && negb (edit_mode t) then putM (set_edit true t);; mret ([], false)
    else if (b =? 58) && negb (edit_mode t) && ese_mode t then mret ([], true)
    else if negb (edit_mode t) then mret ([], false)
    else out ← key_char pos b; mret (out, false).

(** The lines that [main] shows first. *)
Fixpoint count_lines (fuel : nat) (count : nat) : M ted Z :=
  t ← getM;
  if (count =? f_last t)%nat then mret 0 else
  match fuel with
  | O => stopM NoFuel
  | S fuel' =>
      n ← getn count;
      nx ← ptr (n_next n);
      k ← count_lines fuel' nx;
      mret (k + 1)
  end.

Fixpoint show (fuel : nat) (count : nat) (cc : Z) : M ted (list scr) :=
  match fuel with
  | O => stopM NoFuel
  | S fuel' =>
      out ← draw count cc;
      t ← getM;
      if (count =? f_last t)%nat || (cc >=? 24 * 80) then mret out else
      n ← getn count;
      nx ← ptr (n_next n);
      rest ← show fuel' nx (cc + 1);
      mret (out ++ rest)
  end.

(** [main] up to its loop; [None] when the file cannot be read. *)
Definition start (fd : Z) (reads : list (option (list Z))) : M ted (option (list scr)) :=
  openfile fd;;
  r ← loadfile reads;
  if r <? 0 then mret None else
  t ← getM;
  k ← count_lines (length (nodes t)) 0;
  modify (λ t, mkTed (nodes t) (f_last t) (f_size t) (newfile t) (linenum t + k)
    (if linenum t + k >? 24 then linenum t + k - 24 else firstline_onscreen t) (edit_mode t) (ese_mode t) (hlight_mode t));;
  c ← getpline 0;
  p ← ptr c;
  out ← show (length (nodes t)) p 1;
  mret (Some (Clrscr :: out)).

End tedit.

(** ** The ending page *)
Record ord := mkOrd { order : list Z; ordlen : nat; wrong_order : bool }.
Definition ord0 : ord := mkOrd (58 :: replicate 79 0) 1 false.

(** What the ending page does with its input: go on, leave, or save and leave. *)
Inductive ending := Go | Quit | SaveQuit.

Definition ending_key (b : Z) : M ord (list scr * ending) :=
  o ← getM;
  if b =? NL then
    if wrong_order o then putM ord0;; mret ([Clrscr; Puts ":"], Go)
    else
      let l := order o in
      if (l !!! 1%nat =? 113) && (l !!! 2%nat =? 0) then mret ([Puts "not save"; Clrscr], Quit)
      else if (l !!! 1%nat =? 119) && (l !!! 2%nat =? 113) && (l !!! 3%nat =? 0) then mret ([Puts "save"; Clrscr], SaveQuit)
      else
        putM (mkOrd l (ordlen o) true);;
        mret ([Clrscr; Puts "no match order,please input again,press enter to reinput"], Go)
  else if (b =? KEY_RIGHT) || (b =? KEY_LEFT) || (b =? KEY_UP) || (b =? KEY_DOWN) || (b =? BACKSPACE) then mret ([], Go)
  else if (80 <=? ordlen o)%nat then undef
  else
    let l := <[ordlen o := s8 b]> (order o) in
    putM (mkOrd l (S (ordlen o)) (wrong_order o));;
    mret ([Setcln 1 l], Go).

(** The state that [main] sets up before it loads the file. *)
Definition ted0 : ted := mkTed [mkNode None None (replicate 81 0) 0] 0 0 false 0 0 false false false.
