(* ===== verification/TeditProps.v ===== *)
(** * Properties of the text editor

    The nodes of the document stand for its text. Inserting a character inserts
    it into the text, also when it moves characters over to the next lines; and
    a file whose lines have less than 80 characters is saved as it was loaded. *)

From S2P Require Import Prelude Tedit.

(** ** Lists of nodes *)
Definition pad (l : list Z) : list Z := l ++ replicate (81 - length l) 0.

(** The nodes [ns] are linked, from [pv] to [nx], and hold the lines [ls]. *)
Fixpoint seg (h : list node) (pv : option nat) (ns : list nat) (ls : list (list Z)) (nx : option nat) : Prop :=
  match ns, ls with
  | [], [] => True
  | p :: ns', l :: ls' =>
      h !! p = Some (mkNode pv (match ns' with q :: _ => Some q | [] => nx end) (pad l) (Z.of_nat (length l))) ∧
      seg h (Some p) ns' ls' nx
  | _, _ => False
  end.

Definition first (ns : list nat) (nx : option nat) : option nat := match ns with q :: _ => Some q | [] => nx end.
Definition final (pv : option nat) (ns : list nat) : option nat := match last ns with Some q => Some q | None => pv end.

Lemma seg_app h ns1 ls1 : ∀ pv ns2 ls2 nx, length ns1 = length ls1 →
  seg h pv (ns1 ++ ns2) (ls1 ++ ls2) nx ↔ seg h pv ns1 ls1 (first ns2 nx) ∧ seg h (final pv ns1) ns2 ls2 nx.
Proof.
  revert ls1. induction ns1 as [|p ns1 IH]; intros [|l ls1] pv ns2 ls2 nx Hlen; try done.
  - simpl. unfold final. simpl. naive_solver.
  - injection Hlen as Hlen. cbn [app seg]. rewrite (IH ls1 (Some p) ns2 ls2 nx Hlen).
    assert (E : final (Some p) ns1 = final pv (p :: ns1)).
    { unfold final. rewrite last_cons. by destruct (last ns1). }
    rewrite E. destruct ns1 as [|q ns1]; [|naive_solver]. destruct ls1; [|done]. simpl. unfold first. naive_solver.
Qed.

Lemma seg_frame h h' ns : ∀ pv ls nx, (∀ p, p ∈ ns → h' !! p = h !! p) → seg h pv ns ls nx → seg h' pv ns ls nx.
Proof.
  induction ns as [|p ns IH]; intros pv [|l ls] nx Hh; try done. cbn [seg]. intros [H1 H2].
  split; [by rewrite Hh by set_solver|]. apply IH; [|done]. intros q Hq. apply Hh. set_solver.
Qed.

Lemma seg_len h ns : ∀ pv ls nx, seg h pv ns ls nx → length ns = length ls.
Proof. induction ns as [|p ns IH]; intros pv [|l ls] nx; try done. intros [_ H]. simpl. f_equal. by eapply IH. Qed.

Lemma seg_lt h ns : ∀ pv ls nx p, seg h pv ns ls nx → p ∈ ns → (p < length h)%nat.
Proof.
  induction ns as [|q ns IH]; intros pv [|l ls] nx p; try (intros; done || set_solver).
  intros [H1 H2] Hp. apply elem_of_cons in Hp as [->|Hp]; [by eapply lookup_lt_Some|by eapply IH].
Qed.

(** ** Documents *)
Definition ok_char (c : Z) : Prop := -128 ≤ c < 128 ∧ c ≠ 0 ∧ c ≠ -1.

(** The nodes [ns] of the heap [h] are a list with the lines [ls]. *)
Record linked (h : list node) (ns : list nat) (ls : list (list Z)) : Prop := {
  li_seg : seg h None ns ls None;
  li_nodup : NoDup ns;
  li_head : head ns = Some O;
  li_lines : Forall (λ l, (length l <= 80)%nat ∧ Forall ok_char l) ls;
}.

(** They are the document when [f.last] is the last of them. *)
Definition document (t : ted) (ns : list nat) (ls : list (list Z)) : Prop :=
  linked (nodes t) ns ls ∧ last ns = Some (f_last t).

Definition text (ls : list (list Z)) : list Z := concat ls.

Lemma s8_ok c : -128 ≤ c < 128 → s8 c = c.
Proof. intros H. unfold s8. rewrite Z.mod_small; lia. Qed.

(** ** Rules for the accesses *)
Lemma wp_getn t p n Q : nodes t !! p = Some n → Q n t → wp (getn p) Q t.
Proof. intros H HQ. unfold getn. apply wp_bind, wp_get. by eapply wp_deref. Qed.

Lemma wp_updn t p n f (Q : unit → ted → Prop) :
  nodes t !! p = Some n → Q tt (set_nodes (insert p (f n)) t) → wp (updn p f) Q t.
Proof.
  intros H HQ. unfold updn. apply wp_bind. eapply wp_getn; [done|]. apply wp_modify.
  unfold set_nodes in *. by rewrite (alter_insert f p (nodes t) n H).
Qed.

Lemma wp_node_ptr t p Q : Q p t → wp (ptr (Some p)) Q t.
Proof. done. Qed.

(** The state in which node [p] is [n]. *)
Definition at_node (p : nat) (n : node) (t : ted) : ted := set_nodes (insert p n) t.

Lemma at_node_at p n n' t : at_node p n (at_node p n' t) = at_node p n t.
Proof. unfold at_node, set_nodes. simpl. by rewrite list_insert_insert_eq. Qed.
Lemma at_node_lookup p n t : (p < length (nodes t))%nat → nodes (at_node p n t) !! p = Some n.
Proof. intros H. simpl. by apply list_lookup_insert_eq. Qed.
Lemma at_node_id p n t : nodes t !! p = Some n → at_node p n t = t.
Proof. intros H. unfold at_node, set_nodes. rewrite list_insert_id by done. by destruct t. Qed.

Section props.
Context (top : nat → Z).

Lemma wp_getc t p n i c Q :
  nodes t !! p = Some n → n_content n !! i = Some c → Q c t → wp (getc top p (Z.of_nat i)) Q t.
Proof.
  intros H Hc HQ. unfold getc. apply wp_bind. eapply wp_getn; [done|].
  rewrite (proj2 (Z.eqb_neq (Z.of_nat i) (-1))), (proj2 (Z.ltb_ge (Z.of_nat i) 0)) by lia. rewrite Nat2Z.id. by eapply wp_deref.
Qed.

Lemma wp_putc t p n i c (Q : unit → ted → Prop) :
  nodes t !! p = Some n → (i < length (n_content n))%nat → -128 ≤ c < 128 →
  Q tt (at_node p (nset_content (<[i := c]> (n_content n)) n) t) → wp (putc p (Z.of_nat i) c) Q t.
Proof.
  intros H Hi Hc HQ. unfold putc. apply wp_bind. eapply wp_getn; [done|].
  rewrite (proj2 (Z.ltb_ge (Z.of_nat i) 0)), (proj2 (Z.leb_gt _ (Z.of_nat i))) by lia. cbn [orb].
  eapply wp_updn; [done|]. by rewrite Nat2Z.id, s8_ok.
Qed.

(** The loop that makes room at [pos]. *)
Lemma shift_up p pos k : ∀ t n,
  nodes t !! p = Some n → (pos + k < length (n_content n))%nat → Forall (λ c, -128 ≤ c < 128) (n_content n) →
  let C := take (S pos) (n_content n) ++ take k (drop pos (n_content n)) ++ drop (S (pos + k)) (n_content n) in
  wp (forM (rev (seqZ (Z.of_nat pos + 1) (Z.of_nat k))) (λ i, c ← getc top p (i - 1); putc p i c))
    (λ _ t', t' = at_node p (nset_content C n) t) t.
Proof.
  induction k as [|k IH]; intros t n Hn Hlen Hch C.
  - apply wp_ret. replace C with (n_content n).
    + rewrite at_node_id; [done|]. rewrite Hn. by destruct n.
    + unfold C. rewrite take_0, Nat.add_0_r. cbn [app]. by rewrite take_drop.
  - replace (Z.of_nat (S k)) with (Z.of_nat k + 1) by lia. rewrite seqZ_app by lia. rewrite rev_app_distr.
    change (seqZ (Z.of_nat pos + 1 + Z.of_nat k) 1) with [Z.of_nat pos + 1 + Z.of_nat k]. cbn [rev app forM].
    replace (Z.of_nat pos + 1 + Z.of_nat k) with (Z.of_nat (S (pos + k))) by lia.
    replace (Z.of_nat (S (pos + k)) - 1) with (Z.of_nat (pos + k)) by lia.
    destruct (lookup_lt_is_Some_2 (n_content n) (pos + k)) as [c Hc]; [lia|].
    pose proof (Forall_lookup_1 _ _ _ _ Hch Hc) as Hcr.
    apply wp_bind, wp_bind. eapply wp_getc; [done|done|]. eapply wp_putc; [done|lia|done|].
    set (C1 := <[S (pos + k) := c]> (n_content n)).
    assert (HL : (p < length (nodes t))%nat) by by eapply lookup_lt_Some.
    eapply wp_mono; [apply (IH _ (nset_content C1 n)); [by apply at_node_lookup| |]|].
    + simpl. unfold C1. rewrite length_insert. lia.
    + simpl. by apply Forall_insert.
    + intros _ t' ->. rewrite at_node_at. f_equal. unfold nset_content. simpl. f_equal.
      unfold C, C1. rewrite take_insert_ge by lia.
      rewrite drop_insert_ge, take_insert_ge by lia.
      rewrite (drop_S _ c (S (pos + k))) by (apply list_lookup_insert_eq; lia).
      rewrite drop_insert_lt by lia.
      rewrite (take_S_r (drop pos (n_content n)) k c) by (by rewrite lookup_drop). rewrite <-(assoc_L (++)). cbn [app].
      by replace (pos + S k)%nat with (S (pos + k)) by lia.
Qed.

(** ** One node of the list *)
Definition node_at (ns1 : list nat) (l : list Z) (ns2 : list nat) : node :=
  mkNode (final None ns1) (first ns2 None) (pad l) (Z.of_nat (length l)).

Lemma linked_focus h ns1 p ns2 ls1 l ls2 :
  linked h (ns1 ++ p :: ns2) (ls1 ++ l :: ls2) → length ns1 = length ls1 → h !! p = Some (node_at ns1 l ns2).
Proof. intros [Hs _ _ _] Hl. apply seg_app in Hs as [_ Hs]; [|done]. by destruct Hs as [H _]. Qed.

Lemma linked_line h ns1 p ns2 ls1 l l' ls2 :
  linked h (ns1 ++ p :: ns2) (ls1 ++ l :: ls2) → length ns1 = length ls1 → (length l' <= 80)%nat → Forall ok_char l' →
  linked (<[p := node_at ns1 l' ns2]> h) (ns1 ++ p :: ns2) (ls1 ++ l' :: ls2).
Proof.
  intros HD Hl Hlen Hok. pose proof (linked_focus _ _ _ _ _ _ _ HD Hl) as Hp. apply lookup_lt_Some in Hp.
  destruct HD as [Hs Hnd Hh Hls]. constructor; try done.
  - apply seg_app in Hs as [H1 H2]; [|done]. apply seg_app; [done|]. pose proof Hnd as (_ & Hdis & Hnd2)%NoDup_app.
    apply NoDup_cons in Hnd2 as [Hp2 _]. destruct H2 as [_ H2]. split; [|split].
    + eapply seg_frame; [|exact H1]. intros q Hq. apply list_lookup_insert_ne. intros ->. apply (Hdis q Hq). set_solver.
    + by rewrite list_lookup_insert_eq.
    + eapply seg_frame; [|exact H2]. intros q Hq. apply list_lookup_insert_ne. by intros ->.
  - apply Forall_app in Hls as [H1 H2]. apply Forall_cons in H2 as [_ H2]. apply Forall_app. split; [done|]. by constructor.
Qed.

(** A new node behind [p]. *)
Lemma linked_add h ns1 p ns2 ls1 l ls2 :
  linked h (ns1 ++ p :: ns2) (ls1 ++ l :: ls2) → length ns1 = length ls1 →
  let new := length h in let h1 := h ++ [node_at (ns1 ++ [p]) [] ns2] in
  let h2 := <[p := nset_next (Some new) (node_at ns1 l ns2)]> h1 in
  ∃ h3, linked h3 (ns1 ++ p :: new :: ns2) (ls1 ++ l :: [] :: ls2) ∧ length h3 = S (length h) ∧
    h3 = match ns2, ls2 with
         | q :: ns3, l2 :: _ => <[q := nset_prev (Some new) (node_at (ns1 ++ [p]) l2 ns3)]> h2
         | _, _ => h2
         end.
Proof.
  intros HD Hl new h1 h2. pose proof (linked_focus _ _ _ _ _ _ _ HD Hl) as Hp. pose proof (lookup_lt_Some _ _ _ Hp) as Hplt.
  destruct HD as [Hs Hnd Hh Hls]. pose proof (λ x, seg_lt _ _ _ _ _ x Hs) as Hlt.
  assert (Hfresh : new ∉ ns1 ++ p :: ns2) by (intros Hx; apply Hlt in Hx; unfold new in Hx; lia).
  eexists. split; [|split; [|reflexivity]].
  - constructor.
    + apply seg_app in Hs as [H1 H2]; [|done]. pose proof Hnd as (_ & Hdis & Hnd2)%NoDup_app.
      apply NoDup_cons in Hnd2 as [Hp2 Hnd2]. destruct H2 as [_ H2].
      assert (Hh1 : ∀ x, (x < length h)%nat → h1 !! x = h !! x) by (intros x Hx; unfold h1; by rewrite lookup_app_l).
      assert (Hnew : h1 !! new = Some (node_at (ns1 ++ [p]) [] ns2)) by (unfold h1; by rewrite lookup_app_r, Nat.sub_diag).
      assert (Hh2 : ∀ x, x ≠ p → h2 !! x = h1 !! x) by (intros x Hx; by apply list_lookup_insert_ne).
      assert (Hp2' : h2 !! p = Some (nset_next (Some new) (node_at ns1 l ns2))).
      { apply list_lookup_insert_eq. unfold h1. rewrite length_app. lia. }
      assert (Hnp : new ≠ p) by (intros E; rewrite E in Hfresh; set_solver).
      assert (Efin : final None (ns1 ++ [p]) = Some p) by (unfold final; by rewrite last_snoc).
      apply seg_app; [done|]. cbn [first]. destruct ns2 as [|q ns3], ls2 as [|l2 ls3]; try done.
      * split; [|split; [|split]]; [|done| |done].
        -- eapply seg_frame; [|exact H1]. intros x Hx. rewrite Hh2, Hh1; [done|apply Hlt; set_solver|].
           intros ->. apply (Hdis p Hx). set_solver.
        -- rewrite Hh2, Hnew by done. unfold node_at. by rewrite Efin.
      * destruct H2 as [Hq H2]. apply NoDup_cons in Hnd2 as [Hq3 Hnd3].
        assert (Hqn : q ≠ new) by (intros ->; set_solver). assert (Hqp : q ≠ p) by (intros ->; set_solver).
        assert (Hkeep : ∀ x, x ≠ q → x ≠ p → (x < length h)%nat → 
          <[q := nset_prev (Some new) (node_at (ns1 ++ [p]) l2 ns3)]> h2 !! x = h !! x).
        { intros x Hxq Hxp Hx. rewrite list_lookup_insert_ne, Hh2, Hh1 by done. done. }
        split; [|split; [|split; [|split]]].
        -- eapply seg_frame; [|exact H1]. intros x Hx. apply Hkeep; [| |apply Hlt; set_solver]; intros ->; apply (Hdis _ Hx); set_solver.
        -- by rewrite list_lookup_insert_ne.
        -- rewrite list_lookup_insert_ne, Hh2, Hnew by done. unfold node_at. by rewrite Efin.
        -- rewrite list_lookup_insert_eq; [done|]. unfold h2, h1. rewrite length_insert, length_app.
           apply lookup_lt_Some in Hq. lia.
        -- eapply seg_frame; [|exact H2]. intros x Hx. apply Hkeep; [by intros ->|intros ->; set_solver|apply Hlt; set_solver].
    + clear -Hnd Hfresh. replace (ns1 ++ p :: new :: ns2) with ((ns1 ++ [p]) ++ [new] ++ ns2) by (by rewrite <-(assoc_L (++))).
      rewrite (Permutation_app_swap_app (ns1 ++ [p])). cbn [app]. rewrite <-(assoc_L (++)). cbn [app]. by constructor.
    + destruct ns1; done.
    + apply Forall_app in Hls as [H1 H2]. apply Forall_cons in H2 as [H2 H3]. apply Forall_app. split; [done|].
      constructor; [done|]. constructor; [split; [simpl; lia|constructor]|done].
  - destruct ns2, ls2; rewrite ?length_insert; unfold h2, h1; rewrite ?length_insert, length_app; simpl; lia.
Qed.

(** What an operation on the nodes does not touch. *)
Definition rest_of (t : ted) : Z * bool * Z * Z * bool * bool * bool :=
  (f_size t, newfile t, linenum t, firstline_onscreen t, edit_mode t, ese_mode t, hlight_mode t).

Lemma add_node_spec t ns1 p ns2 ls1 l ls2 :
  linked (nodes t) (ns1 ++ p :: ns2) (ls1 ++ l :: ls2) → length ns1 = length ls1 →
  wp (add_node p) (λ new t', linked (nodes t') (ns1 ++ p :: new :: ns2) (ls1 ++ l :: [] :: ls2) ∧
    length (nodes t') = S (length (nodes t)) ∧ f_last t' = f_last t ∧ rest_of t' = rest_of t) t.
Proof.
  intros HD Hl. pose proof (linked_focus _ _ _ _ _ _ _ HD Hl) as Hp. pose proof (lookup_lt_Some _ _ _ Hp) as Hplt.
  destruct (linked_add _ _ _ _ _ _ _ HD Hl) as (h3 & HD3 & Hl3 & E3). pose proof (seg_len _ _ _ _ _ (li_seg _ _ _ HD)) as Hlen.
  rewrite !length_app in Hlen. cbn [length] in Hlen.
  unfold add_node. apply wp_bind. eapply wp_getn; [done|]. apply wp_bind, wp_get. apply (wp_bind (putM _)), (wp_modify (λ _, _)).
  assert (Efin : final None (ns1 ++ [p]) = Some p) by (unfold final; by rewrite last_snoc).
  apply wp_bind. eapply wp_updn; [cbn; by rewrite lookup_app_l|]. apply wp_bind.
  assert (En : mkNode (Some p) (n_next (node_at ns1 l ns2)) (replicate 81 0) 0 = node_at (ns1 ++ [p]) [] ns2).
  { unfold node_at. by rewrite Efin. }
  rewrite En. destruct ns2 as [|q ns3], ls2 as [|l2 ls3]; try (cbn in Hlen; lia).
  - apply wp_ret, wp_ret. subst h3. done.
  - eapply (wp_updn _ q (node_at (ns1 ++ [p]) l2 ns3)).
    + replace (ns1 ++ p :: q :: ns3) with ((ns1 ++ [p]) ++ q :: ns3) in HD by (by rewrite <-(assoc_L (++))).
      replace (ls1 ++ l :: l2 :: ls3) with ((ls1 ++ [l]) ++ l2 :: ls3) in HD by (by rewrite <-(assoc_L (++))).
      pose proof (linked_focus _ _ _ _ _ _ _ HD ltac:(rewrite !length_app; cbn; lia)) as Hq.
      pose proof (lookup_lt_Some _ _ _ Hq). pose proof (li_nodup _ _ _ HD) as (_ & Hdis & _)%NoDup_app.
      cbn. rewrite list_lookup_insert_ne, lookup_app_l; [done|done|]. intros ->. apply (Hdis q); set_solver.
    + apply wp_ret. subst h3. done.
Qed.

(** ** A character into a node *)
Lemma length_pad l : (length l <= 81)%nat → length (pad l) = 81%nat.
Proof. intros H. unfold pad. rewrite length_app, length_replicate. lia. Qed.
Lemma pad_chars l : Forall ok_char l → Forall (λ c, -128 ≤ c < 128) (pad l).
Proof.
  intros H. apply Forall_app. split; [|apply Forall_replicate; lia].
  eapply Forall_impl; [exact H|]. by intros c [Hc _].
Qed.

Lemma pad_insert l pos c : (pos <= length l < 81)%nat →
  <[pos := c]> (take (S pos) (pad l) ++ take (length l - pos) (drop pos (pad l)) ++ drop (S (pos + (length l - pos))) (pad l))
  = pad (take pos l ++ c :: drop pos l).
Proof.
  intros H. unfold pad. rewrite drop_app_le, (take_app_le (drop pos l)) by (rewrite ?length_drop; lia).
  rewrite (take_ge (drop pos l)) by (rewrite length_drop; lia).
  replace (S (pos + (length l - pos))) with (length l + 1)%nat by lia. rewrite drop_app_add.
  rewrite drop_replicate. rewrite insert_app_l by (rewrite length_take, length_app, length_replicate; lia).
  rewrite length_app, length_take. cbn [length]. rewrite length_drop, <-(assoc_L (++)).
  replace (81 - (pos `min` length l + S (length l - pos)))%nat with (81 - length l - 1)%nat by lia.
  rewrite <-app_comm_cons. change (c :: ?x) with ([c] ++ x). rewrite (assoc_L (++) (take pos l)). f_equal.
  rewrite insert_take_drop by (rewrite length_take, length_app, length_replicate; lia).
  rewrite take_take, Nat.min_l, take_app_le by lia. rewrite drop_ge; [done|]. rewrite length_take. lia.
Qed.

(** The part of a full line that stays. *)
Definition keep79 (l : list Z) (pos : nat) (c : Z) : list Z := take pos l ++ c :: take (79 - pos) (drop pos l).

Lemma pad_full l pos c : (pos < 80)%nat → length l = 80%nat →
  <[pos := c]> (take (S pos) (pad l) ++ take (79 - pos) (drop pos (pad l)) ++ drop (S (pos + (79 - pos))) (pad l))
  = pad (keep79 l pos c).
Proof.
  intros H Hl. unfold pad, keep79. replace (S (pos + (79 - pos))) with (length l + 0)%nat by lia. rewrite drop_app_add, drop_0.
  rewrite (take_app_le l) by lia. rewrite (drop_app_le l), (take_app_le (drop pos l)) by (rewrite ?length_drop; lia).
  rewrite insert_app_l by (rewrite length_take; lia).
  rewrite insert_take_drop by (rewrite length_take; lia). rewrite take_take, Nat.min_l, drop_ge by (rewrite ?length_take; lia).
  rewrite !length_app, !length_take. cbn [length]. rewrite !length_take, !length_drop, Hl. rewrite <-!(assoc_L (++)). cbn [app].
  do 4 f_equal. lia.
Qed.

Lemma addc_node_spec t ns1 p ns2 l pos c :
  nodes t !! p = Some (node_at ns1 l ns2) → (length l <= 80)%nat → Forall ok_char l → -128 ≤ c < 128 →
  (pos <= length l)%nat → (pos < 80)%nat →
  wp (addc_node top p (Z.of_nat pos) c) (λ r t',
    if (length l <? 80)%nat then r = 0 ∧ t' = at_node p (node_at ns1 (take pos l ++ c :: drop pos l) ns2) t
    else l !! 79%nat = Some r ∧ t' = at_node p (node_at ns1 (keep79 l pos c) ns2) t) t.
Proof.
  intros Hp Hlen Hok Hc Hpos Hpos80. pose proof (lookup_lt_Some _ _ _ Hp) as Hplt.
  pose proof (length_pad l ltac:(lia)) as Hlp. pose proof (pad_chars l Hok) as Hpc.
  unfold addc_node. rewrite Z.gtb_ltb, (proj2 (Z.ltb_ge _ _)) by (unfold CONTENT_SIZE; lia).
  apply wp_bind. eapply wp_getn; [done|]. cbn [n_size node_at].
  assert (Hsz : (Z.of_nat (length l) <? CONTENT_SIZE) = (length l <? 80)%nat).
  { unfold CONTENT_SIZE. destruct (Z.ltb_spec (Z.of_nat (length l)) 80), (Nat.ltb_spec (length l) 80); lia || done. }
  rewrite Hsz. destruct (Nat.ltb_spec (length l) 80) as [Hlt|Hge].
  - rewrite Z.geb_leb. destruct (Z.leb_spec (Z.of_nat (length l)) (Z.of_nat pos)) as [Hle|Hgt].
    + assert (pos = length l) as -> by lia. apply wp_bind. eapply wp_putc; [done|cbn; lia|done|]. apply wp_bind.
      eapply wp_updn; [by apply at_node_lookup|]. apply wp_ret. split; [done|].
      change (set_nodes (insert p ?n) ?x) with (at_node p n x). rewrite at_node_at. f_equal. cbn. unfold nset_size, node_at. cbn. f_equal.
      * pose proof (pad_insert l (length l) c ltac:(lia)) as E. rewrite <-E. f_equal.
        rewrite Nat.sub_diag, take_0, Nat.add_0_r. cbn [app]. by rewrite take_drop.
      * rewrite take_ge, drop_ge, length_app by lia. cbn. lia.
    + apply wp_bind. replace (Z.of_nat (length l) - Z.of_nat pos) with (Z.of_nat (length l - pos)) by lia.
      eapply wp_mono; [eapply shift_up; [done|cbn; lia|done]|]. intros _ t1 ->. cbn [n_content node_at].
      apply wp_bind. eapply wp_putc; [by apply at_node_lookup| |done|].
      { cbn. rewrite !length_app, !length_take, !length_drop. lia. }
      rewrite at_node_at. apply wp_bind. eapply wp_updn; [by apply at_node_lookup|]. apply wp_ret. split; [done|].
      change (set_nodes (insert p ?n) ?x) with (at_node p n x). rewrite at_node_at. f_equal. cbn. unfold nset_size, nset_content, node_at.
      cbn. f_equal; [apply pad_insert; lia|]. rewrite length_app, length_take. cbn. rewrite length_drop. lia.
  - assert (Hl80 : length l = 80%nat) by lia. rewrite Hl80.
    destruct (lookup_lt_is_Some_2 l 79) as [x Hx]; [lia|].
    apply wp_bind. change (Z.of_nat 80 - 1) with (Z.of_nat 79). eapply wp_getc; [done|cbn; unfold pad; by rewrite lookup_app_l by lia|].
    apply wp_bind. replace (Z.of_nat 79 - Z.of_nat pos) with (Z.of_nat (79 - pos)) by lia.
    eapply wp_mono; [eapply shift_up; [done|cbn; lia|done]|]. intros _ t1 ->. cbn [n_content node_at].
    apply wp_bind. eapply wp_putc; [by apply at_node_lookup| |done|].
    { cbn. rewrite !length_app, !length_take, !length_drop. lia. }
    apply wp_ret. split; [done|]. rewrite at_node_at. f_equal. cbn. unfold nset_content, node_at. cbn. f_equal; [by apply pad_full|].
    unfold keep79. rewrite length_app, length_take. cbn. rewrite length_take, length_drop. lia.
Qed.

(** ** A character into the text *)
Lemma keep79_text l pos c x : (pos < 80)%nat → length l = 80%nat → l !! 79%nat = Some x →
  keep79 l pos c ++ [x] = take pos l ++ c :: drop pos l.
Proof.
  intros Hpos Hl Hx. unfold keep79. rewrite <-(assoc_L (++)), <-app_comm_cons. do 2 f_equal.
  rewrite <-(take_S_r (drop pos l) (79 - pos) x).
  - apply take_ge. rewrite length_drop. lia.
  - rewrite lookup_drop. by replace (pos + (79 - pos))%nat with 79%nat by lia.
Qed.

Lemma ok_insert l pos c : Forall ok_char l → ok_char c → Forall ok_char (take pos l ++ c :: drop pos l).
Proof. intros H Hc. apply Forall_app. split; [by apply Forall_take|]. constructor; [done|by apply Forall_drop]. Qed.

Lemma text_app a b : text (a ++ b) = text a ++ text b.
Proof. apply concat_app. Qed.
Lemma text_cons l ls : text (l :: ls) = l ++ text ls.
Proof. done. Qed.

Lemma linked_reassoc h ns1 p q ns2 ls1 l l2 ls2 :
  linked h (ns1 ++ p :: q :: ns2) (ls1 ++ l :: l2 :: ls2) ↔ linked h ((ns1 ++ [p]) ++ q :: ns2) ((ls1 ++ [l]) ++ l2 :: ls2).
Proof. by rewrite <-!(assoc_L (++)). Qed.

(** The last node when there is a new one behind [p]. *)
Lemma last_add (ns1 : list nat) p new ns2 fl :
  last (ns1 ++ p :: ns2) = Some fl → NoDup (ns1 ++ p :: ns2) →
  last (ns1 ++ p :: new :: ns2) = Some (if (fl =? p)%nat then new else fl).
Proof.
  intros Hl Hnd. replace (ns1 ++ p :: new :: ns2) with ((ns1 ++ [p]) ++ new :: ns2) by by rewrite <-(assoc_L (++)).
  rewrite last_app_cons in Hl |- *. rewrite last_cons in Hl |- *. apply NoDup_app in Hnd as (_ & _ & Hnd).
  apply NoDup_cons in Hnd as [Hp _]. destruct (last ns2) as [y|] eqn:E.
  - injection Hl as ->. rewrite (proj2 (Nat.eqb_neq _ _)); [done|]. intros ->. apply Hp.
    apply last_Some in E as [l ->]. set_solver.
  - injection Hl as ->. by rewrite Nat.eqb_refl.
Qed.

Lemma addc_loop_spec : ∀ fuel t ns1 p ns2 ls1 l ls2 pos c,
  document t (ns1 ++ p :: ns2) (ls1 ++ l :: ls2) → length ns1 = length ls1 → ok_char c →
  (pos <= length l)%nat → (pos < 80)%nat → (length ns2 + (if (length l <? 80)%nat then 0 else 1) < fuel)%nat →
  wp (addc_loop top fuel p (Z.of_nat pos) c) (λ b t', b = true ∧ rest_of t' = rest_of t ∧
    ∃ ns' ls', document t' (ns1 ++ p :: ns') ls' ∧ text ls' = text ls1 ++ take pos l ++ c :: drop pos l ++ text ls2) t.
Proof.
  induction fuel as [|fuel IH]; intros t ns1 p ns2 ls1 l ls2 pos c [HD Hlast] Hl Hc Hpos Hp80 Hfuel; [lia|].
  pose proof (linked_focus _ _ _ _ _ _ _ HD Hl) as Hp. pose proof (lookup_lt_Some _ _ _ Hp) as Hplt.
  pose proof (li_lines _ _ _ HD) as Hls. apply Forall_app in Hls as [_ Hls]. apply Forall_cons in Hls as [[Hlen Hok] _].
  cbn [addc_loop]. apply wp_bind. eapply wp_mono; [apply (addc_node_spec t ns1 p ns2 l pos c Hp Hlen Hok); [apply Hc|done|done]|].
  intros r t1 Hr. destruct (Nat.ltb_spec (length l) 80) as [Hlt|Hge].
  - destruct Hr as [-> ->]. cbn [Z.eqb]. apply wp_ret. split; [done|]. split; [done|].
    exists ns2, (ls1 ++ (take pos l ++ c :: drop pos l) :: ls2). split; [split; [|done]|].
    + apply (linked_line _ _ _ _ _ l); [done|done| |by apply ok_insert].
      rewrite length_app, length_take. cbn. rewrite length_drop. lia.
    + rewrite text_app, text_cons, <-(assoc_L (++)). done.
  - assert (Hl80 : length l = 80%nat) by lia. destruct Hr as [Hx ->]. pose proof (Forall_lookup_1 _ _ _ _ Hok Hx) as (Hxr & Hx0 & Hx1).
    rewrite (proj2 (Z.eqb_neq r (-1))), (proj2 (Z.eqb_neq r 0)) by done.
    set (l' := keep79 l pos c). pose proof (keep79_text l pos c r Hp80 Hl80 Hx) as Htx. fold l' in Htx.
    assert (Hok' : Forall ok_char l').
    { pose proof (ok_insert l pos c Hok Hc) as H. rewrite <-Htx in H. by apply Forall_app in H as [H _]. }
    assert (Hlen' : (length l' <= 80)%nat).
    { unfold l', keep79. rewrite length_app, length_take. cbn. rewrite length_take, length_drop. lia. }
    set (t1 := at_node p (node_at ns1 l' ns2) t).
    assert (HD1 : linked (nodes t1) (ns1 ++ p :: ns2) (ls1 ++ l' :: ls2)) by by apply (linked_line _ _ _ _ _ l).
    assert (Hfin : ∀ a b, text (ls1 ++ l' :: [r] :: a) = text ls1 ++ take pos l ++ c :: drop pos l ++ b ↔ text a = b).
    { intros a b. rewrite text_app, !text_cons, (assoc_L (++) l'), Htx, <-(assoc_L (++)). cbn [app]. split; [|by intros ->].
      intros H. apply app_inv_head, app_inv_head in H. injection H as H. by apply app_inv_head in H. }
    destruct (Z.eqb_spec r NL) as [->|Hnl].
    + apply wp_bind. eapply wp_mono; [by apply (add_node_spec t1 ns1 p ns2 ls1 l' ls2)|].
      intros new t2 (HD2 & Hl2 & Hf2 & Hr2). apply linked_reassoc in HD2.
      assert (Hl1 : length (ns1 ++ [p]) = length (ls1 ++ [l'])) by (rewrite !length_app; cbn; lia).
      pose proof (linked_focus _ _ _ _ _ _ _ HD2 Hl1) as Hnew. pose proof (lookup_lt_Some _ _ _ Hnew) as Hnlt.
      apply wp_bind. eapply wp_getn; [done|]. apply wp_bind. eapply (wp_putc _ _ _ 0); [done|cbn; lia|unfold NL; lia|].
      apply wp_bind. eapply wp_updn; [by apply at_node_lookup|]. change (set_nodes (insert new ?n) ?x) with (at_node new n x).
      rewrite at_node_at. set (t3 := at_node new _ t2).
      assert (HD3 : linked (nodes t3) ((ns1 ++ [p]) ++ new :: ns2) ((ls1 ++ [l']) ++ [NL] :: ls2)).
      { apply (linked_line _ _ _ _ _ [] [NL]); [done|done|cbn; lia|]. constructor; [done|constructor]. }
      apply linked_reassoc in HD3. apply wp_bind, wp_get. apply wp_bind. change (f_last t3) with (f_last t2). rewrite Hf2.
      pose proof (last_add ns1 p new ns2 _ Hlast (li_nodup _ _ _ HD)) as Hla.
      change (f_last t1) with (f_last t).
      destruct (f_last t =? p)%nat; [apply wp_modify|apply wp_ret]; apply wp_ret; (split; [done|]); (split; [exact Hr2|]);
        exists (new :: ns2), (ls1 ++ l' :: [NL] :: ls2); (split; [|by apply Hfin]); split; try done.
      cbn. by rewrite Hla, Hf2.
    + apply wp_bind. eapply wp_getn; [by apply at_node_lookup|]. cbn [n_next node_at].
      assert (Hok_r : ok_char r) by done.
      destruct ns2 as [|q ns3], ls2 as [|l2 ls3]; try (pose proof (seg_len _ _ _ _ _ (li_seg _ _ _ HD)) as H; rewrite !length_app in H; cbn in H; lia).
      * cbn [first]. apply wp_bind, wp_bind. eapply wp_mono; [by apply (add_node_spec t1 ns1 p [] ls1 l' [])|].
        intros new t2 (HD2 & Hl2 & Hf2 & Hr2). apply wp_bind, wp_get.
        pose proof (linked_focus _ _ _ _ _ _ _ HD2 Hl) as Hp2.
        apply wp_bind. eapply wp_getn; [done|]. cbn [n_next node_at first]. apply wp_bind, wp_node_ptr.
        rewrite Hf2. change (f_last t1) with (f_last t).
        assert (Hfp : f_last t = p) by (rewrite last_snoc in Hlast; congruence). rewrite Hfp, Nat.eqb_refl. apply wp_modify.
        apply wp_bind. eapply wp_getn; [exact Hp2|]. apply wp_bind, wp_node_ptr.
        apply linked_reassoc in HD2.
        eapply wp_mono; [apply (IH (set_last new t2) (ns1 ++ [p]) new [] (ls1 ++ [l']) [] [] 0%nat r)|]; try done.
        -- split; [exact HD2|]. by rewrite last_snoc.
        -- rewrite !length_app. cbn. lia.
        -- lia.
        -- cbn in Hfuel |- *. lia.
        -- intros b t' (-> & Hr' & ns' & ls' & HD' & Ht'). split; [done|]. split; [by rewrite Hr'|].
           exists (new :: ns'), ls'. split; [by rewrite <-(assoc_L (++)) in HD'|]. rewrite Ht', text_app, <-(assoc_L (++)).
           change (take 0 [] ++ r :: drop 0 [] ++ text []) with [r]. change (text [l']) with (l' ++ []).
           by rewrite !app_nil_r, Htx.
      * cbn [first]. apply wp_bind, wp_ret. apply wp_bind. eapply wp_getn; [by apply at_node_lookup|]. cbn [n_next node_at first].
        apply wp_bind, wp_node_ptr. apply linked_reassoc in HD1.
        eapply wp_mono; [apply (IH t1 (ns1 ++ [p]) q ns3 (ls1 ++ [l']) l2 ls3 0%nat r)|]; try done.
        -- split; [exact HD1|]. by rewrite <-(assoc_L (++)).
        -- rewrite !length_app. cbn. lia.
        -- lia.
        -- lia.
        -- cbn in Hfuel. destruct (length l2 <? 80)%nat; lia.
        -- intros b t' (-> & Hr' & ns' & ls' & HD' & Ht'). split; [done|]. split; [by rewrite Hr'|].
           exists (q :: ns'), ls'. split; [by rewrite <-(assoc_L (++)) in HD'|]. rewrite Ht', text_app, text_cons, <-(assoc_L (++)).
           change (take 0 l2 ++ r :: drop 0 l2 ++ text ls3) with ([r] ++ l2 ++ text ls3). change (text [l']) with (l' ++ []).
           by rewrite app_nil_r, (assoc_L (++) l'), Htx, <-(assoc_L (++)).
Qed.

(** ** Saving *)
Lemma saved_zeros k n : saved k (replicate n 0) = [].
Proof. by destruct k, n. Qed.

Lemma saved_pad l : (length l <= 80)%nat → Forall ok_char l → saved (S (length l)) (pad l) = l.
Proof.
  intros Hl Hok. unfold pad. generalize (81 - length l)%nat as k. intros k. clear Hl.
  enough (E : ∀ m, saved (length l + m) (l ++ replicate k 0) = l) by (rewrite <-(Nat.add_1_r (length l)); apply E).
  induction Hok as [|c l (_ & Hc & _) Hok IH]; intros m; [apply saved_zeros|].
  cbn [length app Nat.add saved]. rewrite (proj2 (Z.eqb_neq c 0)) by done. f_equal. apply IH.
Qed.

Lemma linked_count h ns ls : linked h ns ls → (length ns <= length h)%nat.
Proof.
  intros HD. rewrite <-(length_seq (length h) 0). apply submseteq_length, NoDup_submseteq; [apply HD|].
  intros x Hx. apply elem_of_seq. pose proof (seg_lt _ _ _ _ _ x (li_seg _ _ _ HD) Hx). lia.
Qed.

Lemma save_loop_spec : ∀ fuel t ns1 p ns2 ls1 l ls2,
  document t (ns1 ++ p :: ns2) (ls1 ++ l :: ls2) → length ns1 = length ls1 → (length ns2 < fuel)%nat →
  wp (save_loop fuel p) (λ r t', r = l ++ text ls2 ∧ t' = t) t.
Proof.
  induction fuel as [|fuel IH]; intros t ns1 p ns2 ls1 l ls2 [HD Hlast] Hl Hf; [lia|].
  pose proof (linked_focus _ _ _ _ _ _ _ HD Hl) as Hp. cbn [save_loop]. apply wp_bind. eapply wp_getn; [exact Hp|].
  apply wp_bind, wp_get. cbn [n_size n_content n_next node_at]. pose proof (li_lines _ _ _ HD) as Hls. apply Forall_app in Hls as [_ Hls]. apply Forall_cons in Hls as [[Hlen Hok] _].
  replace (Z.to_nat (Z.of_nat (length l) + 1)) with (S (length l)) by lia. rewrite saved_pad by done.
  pose proof (li_nodup _ _ _ HD) as Hnd.
  destruct ns2 as [|q ns3], ls2 as [|l2 ls3]; try (pose proof (seg_len _ _ _ _ _ (li_seg _ _ _ HD)) as H; rewrite !length_app in H; cbn in H; lia).
  - rewrite last_snoc in Hlast. injection Hlast as ->. rewrite Nat.eqb_refl. apply wp_ret. by rewrite app_nil_r.
  - assert (Hne : (p =? f_last t)%nat = false).
    { apply Nat.eqb_neq. intros E. rewrite last_app_cons, last_cons_cons in Hlast. apply NoDup_app in Hnd as (_ & _ & Hnd).
      apply NoDup_cons in Hnd as [Hnd _]. apply Hnd. rewrite E. apply last_Some in Hlast as [x ->]. set_solver. }
    rewrite Hne. cbn [first]. apply wp_bind, wp_node_ptr. apply linked_reassoc in HD. apply wp_bind.
    eapply wp_mono; [apply (IH t (ns1 ++ [p]) q ns3 (ls1 ++ [l]) l2 ls3)|].
    + split; [done|]. by rewrite <-(assoc_L (++)).
    + rewrite !length_app. cbn. lia.
    + cbn in Hf. lia.
    + intros r t' [-> ->]. by apply wp_ret.
Qed.

Lemma savefile_spec t ns ls : document t ns ls → savefile t = Ok (text ls) t.
Proof.
  intros HD. pose proof HD as [HL Hlast]. pose proof (li_head _ _ _ HL) as Hh. destruct ns as [|p ns]; [done|]. injection Hh as ->.
  pose proof (linked_count _ _ _ HL) as Hc. cbn in Hc. pose proof (seg_len _ _ _ _ _ (li_seg _ _ _ HL)) as H.
  destruct ls as [|l ls]; [done|]. unfold savefile, mbind, M_bind, getM.
  pose proof (save_loop_spec (length (nodes t)) t [] 0 ns [] l ls HD eq_refl ltac:(lia)) as Hw.
  by apply wp_Ok in Hw as (r & t' & -> & -> & ->).
Qed.

(** [addc] of a character that is not a newline. *)
Lemma addc_inserts t ns1 p ns2 ls1 l ls2 pos c :
  document t (ns1 ++ p :: ns2) (ls1 ++ l :: ls2) → length ns1 = length ls1 → ok_char c → c ≠ NL →
  (pos <= length l)%nat → (pos < 80)%nat →
  wp (addc top (Some p) (Z.of_nat pos) c) (λ r t', r = 0 ∧ rest_of t' = rest_of (set_fsize (s32 (f_size t + 1)) t) ∧
    ∃ ns' ls', document t' (ns1 ++ p :: ns') ls' ∧ text ls' = text ls1 ++ take pos l ++ c :: drop pos l ++ text ls2) t.
Proof.
  intros HD Hl Hc Hnl Hpos H80.
  assert (Hf : (length ns2 + (if (length l <? 80)%nat then 0 else 1) < S (S (length (nodes t))))%nat).
  { destruct HD as [HL _]. pose proof (linked_count _ _ _ HL) as H. rewrite length_app in H. cbn in H.
    destruct (length l <? 80)%nat; lia. }
  unfold addc. apply wp_bind, wp_get. rewrite (proj2 (Z.eqb_neq c NL)) by done. apply wp_bind.
  eapply wp_mono; [by apply (addc_loop_spec _ t ns1 p ns2 ls1 l ls2 pos c)|]. intros b t1 (-> & Hrest & ns' & ls' & HD' & Ht'). cbn [negb].
  apply wp_bind, wp_get. apply (wp_bind (putM _)), (wp_modify (λ _, _)), wp_ret. split; [done|].
  split; [|by exists ns', ls']. unfold rest_of in *. cbn. by injection Hrest as -> -> -> -> -> -> ->.
Qed.

(** ** Typing *)
Lemma getn_run t p n : nodes t !! p = Some n → getn p t = Ok n t.
Proof. intros H. unfold getn, mbind, M_bind, getM, deref. by rewrite H. Qed.

Lemma walk_spec t ns ls : document t ns ls → ∀ k j p q, ns !! j = Some q → ns !! (j + k)%nat = Some p → walk k (Some q) t = Ok (Some p) t.
Proof.
  intros [HL _]. pose proof HL as HD. induction k as [|k IH]; intros j p q Hq Hp.
  { rewrite Nat.add_0_r in Hp. assert (p = q) as -> by congruence. done. }
  cbn [walk]. unfold mbind, M_bind, ptr, deref, mret, M_ret.
  destruct (lookup_lt_is_Some_2 ns (S j)) as [q' Hq']; [apply lookup_lt_Some in Hp; lia|].
  pose proof (take_drop_middle _ _ _ Hq) as En. rewrite (drop_S _ _ _ Hq') in En.
  destruct (lookup_lt_is_Some_2 ls j) as [l Hlj]; [rewrite <-(seg_len _ _ _ _ _ (li_seg _ _ _ HD)); by eapply lookup_lt_Some|].
  pose proof (take_drop_middle _ _ _ Hlj) as El. rewrite <-En, <-El in HD.
  pose proof (linked_focus _ _ _ _ _ _ _ HD) as Hn. rewrite (getn_run _ _ _ (Hn ltac:(rewrite !length_take, <-(seg_len _ _ _ _ _ (li_seg _ _ _ HL)); done))).
  cbn [n_next node_at first]. apply (IH (S j)); [done|]. by rewrite <-Nat.add_succ_comm in Hp.
Qed.

Lemma getpline_spec t ns ls pos p : document t ns ls →
  ns !! Z.to_nat (firstline_onscreen t + Z.quot pos 80) = Some p → getpline pos t = Ok (Some p) t.
Proof.
  intros HD Hp. unfold getpline, mbind, M_bind, getM. eapply (walk_spec t ns ls HD _ 0); [|exact Hp].
  destruct HD as [HD _]. pose proof (li_head _ _ _ HD) as Hh. by destruct ns.
Qed.

Lemma draw_spec t p n line : nodes t !! p = Some n → ∃ out, draw p line t = Ok out t.
Proof. intros Hp. unfold draw, mbind, M_bind. rewrite (getn_run _ _ _ Hp). by eexists. Qed.

Lemma redraw_spec t ls : ∀ fuel ns1 p ns2 pos, document t (ns1 ++ p :: ns2) ls → 1920 ≤ pos + 80 * Z.of_nat fuel → (0 < fuel)%nat →
  ∃ out, redraw fuel p pos t = Ok out t.
Proof.
  induction fuel as [|fuel IH]; intros ns1 p ns2 pos HD Hpos Hf; [lia|]. cbn [redraw].
  pose proof HD as [HL Hlast]. pose proof (seg_len _ _ _ _ _ (li_seg _ _ _ HL)) as Hlen.
  destruct (lookup_lt_is_Some_2 ls (length ns1)) as [l Hlj]; [rewrite <-Hlen, length_app; cbn; lia|].
  pose proof (take_drop_middle _ _ _ Hlj) as El. rewrite <-El in HL.
  assert (Hp : nodes t !! p = Some (node_at ns1 l ns2)).
  { eapply linked_focus; [exact HL|]. rewrite length_take. apply lookup_lt_Some in Hlj. lia. }
  destruct (draw_spec t p _ (Z.quot pos 80 + 1) Hp) as (out & Hout). unfold mbind, M_bind. rewrite Hout. unfold getM, deref, ptr, mret, M_ret.
  rewrite Z.geb_leb. destruct (Z.leb_spec (80 * 24) (pos + 80)); [by eexists|]. cbn [orb].
  destruct (p =? f_last t)%nat eqn:Ep; [by eexists|]. rewrite (getn_run _ _ _ Hp). cbn [n_next node_at].
  destruct ns2 as [|q ns2]; [rewrite last_snoc in Hlast; injection Hlast as ->; by rewrite Nat.eqb_refl in Ep|]. cbn [first].
  destruct (IH (ns1 ++ [p]) q ns2 (pos + 80)) as (rest & Hrest); [by rewrite <-(assoc_L (++))|lia|lia|].
  cbn. rewrite Hrest. by eexists.
Qed.

(** The keys that insert themselves. *)
Definition typed (b : Z) : Prop := 0 < b < 128 ∧ b ∉ [16; NL; BACKSPACE; TAB; KEY_ESC].


(** ** Loading *)

(** A newline at the end of the document. *)
Lemma pad_clear l : (length l <= 80)%nat → splice (length l) (replicate (80 - length l) 0) (pad l) = pad l.
Proof.
  intros H. unfold splice, pad. rewrite take_app_length, length_replicate. f_equal.
  rewrite drop_app_add, drop_replicate, <-replicate_add. f_equal. lia.
Qed.

Lemma newpara_end t ns p ls l :
  document t (ns ++ [p]) (ls ++ [l]) → length ns = length ls → (length l < 80)%nat →
  wp (newpara top p (Z.of_nat (length l))) (λ _ t', rest_of t' = rest_of t ∧
    ∃ new, document t' (ns ++ p :: [new]) (ls ++ (l ++ [NL]) :: [[]])) t.
Proof.
  intros [HD Hlast] Hl Hlt. pose proof (li_lines _ _ _ HD) as Hls. apply Forall_app in Hls as [_ Hls]. apply Forall_cons in Hls as [[_ Hok] _].
  rewrite last_snoc in Hlast. injection Hlast as Hlast.
  unfold newpara. apply wp_bind. eapply wp_mono; [by apply (add_node_spec t ns p [] ls l [])|].
  intros new t1 (HD1 & Hl1 & Hf1 & Hr1). pose proof (linked_focus _ _ _ _ _ _ _ HD1 Hl) as Hp1.
  pose proof (lookup_lt_Some _ _ _ Hp1) as Hplt. pose proof (length_pad l ltac:(lia)) as Hlp.
  apply wp_bind. eapply wp_getn; [exact Hp1|]. cbn [n_size node_at]. rewrite Z.sub_diag. apply wp_bind, wp_ret.
  apply wp_bind. eapply wp_putc; [exact Hp1|cbn; lia|unfold NL; lia|]. cbn [n_content node_at].
  assert (E1 : <[length l := NL]> (pad l) = pad (l ++ [NL])).
  { pose proof (pad_insert l (length l) NL ltac:(lia)) as E. rewrite Nat.sub_diag, take_0, Nat.add_0_r in E.
    cbn [app] in E. by rewrite take_drop, take_ge, drop_ge in E by lia. }
  rewrite E1. apply wp_bind. unfold clear_content. apply wp_bind. eapply wp_getn; [by apply at_node_lookup|].
  cbn [n_content nset_content]. rewrite (proj2 (Z.ltb_ge (Z.of_nat (length l) + 1) 0)) by lia.
  unfold CONTENT_SIZE. rewrite (proj2 (Z.ltb_ge (80 - Z.of_nat (length l) - 1) 0)) by lia.
  rewrite (proj2 (Z.ltb_ge (Z.of_nat (length (pad (l ++ [NL])))) _)) by (rewrite length_pad by (rewrite length_app; cbn; lia); lia).
  cbn [orb]. eapply wp_updn; [by apply at_node_lookup|]. change (set_nodes (insert p ?n) ?x) with (at_node p n x).
  rewrite at_node_at. cbn [n_content nset_content].
  replace (Z.to_nat (Z.of_nat (length l) + 1)) with (length (l ++ [NL])) by (rewrite length_app; cbn; lia).
  replace (Z.to_nat (80 - Z.of_nat (length l) - 1)) with (80 - length (l ++ [NL]))%nat by (rewrite length_app; cbn; lia).
  rewrite pad_clear by (rewrite length_app; cbn; lia). set (t2 := at_node p _ t1).
  pose proof (proj1 (linked_reassoc _ _ _ _ _ _ _ _ _) HD1) as HD1'.
  assert (Hl' : length (ns ++ [p]) = length (ls ++ [l])) by (rewrite !length_app; cbn; lia).
  pose proof (linked_focus _ _ _ _ _ _ _ HD1' Hl') as Hn1. pose proof (li_nodup _ _ _ HD1') as Hnd.
  assert (Hne : p ≠ new). { apply NoDup_app in Hnd as (_ & Hdis & _). intros ->. apply (Hdis new); set_solver. }
  assert (Hn2 : nodes t2 !! new = Some (node_at (ns ++ [p]) [] [])) by (cbn; by rewrite list_lookup_insert_ne).
  apply wp_bind. eapply wp_updn; [exact Hn2|]. apply wp_bind. eapply wp_updn; [cbn; rewrite list_lookup_insert_ne by done; by apply at_node_lookup|].
  set (t3 := set_nodes _ _).
  assert (En : nset_size 0 (node_at (ns ++ [p]) [] []) = node_at (ns ++ [p]) [] []) by done.
  assert (HD3 : linked (nodes t3) (ns ++ p :: [new]) (ls ++ (l ++ [NL]) :: [[]])).
  { replace (nodes t3) with (<[p := node_at ns (l ++ [NL]) [new]]> (nodes t1)).
    - apply (linked_line _ _ _ _ _ l); [done|done|rewrite length_app; cbn; lia|].
      apply Forall_app. split; [done|]. constructor; [done|constructor].
    - cbn. change (mkNode _ _ _ 0) with (node_at (ns ++ [p]) [] []).
      rewrite (list_insert_id _ new) by (by rewrite list_lookup_insert_ne).
      rewrite list_insert_insert_eq. do 2 f_equal. unfold node_at, nset_size. cbn. f_equal. rewrite length_app. cbn. lia. }
  pose proof (proj1 (linked_reassoc _ _ _ _ _ _ _ _ _) HD3) as HD3'.
  pose proof (linked_focus _ _ _ _ _ _ _ HD3' ltac:(rewrite !length_app; cbn; lia)) as Hn3.
  apply wp_bind. unfold getc at 1. apply wp_bind. eapply wp_getn; [exact Hn3|]. cbn [Z.sub Z.add Z.opp Z.eqb Pos.eqb n_next node_at first].
  apply wp_ret. apply wp_bind, wp_get. assert (Hf3 : f_last t3 = p) by (cbn; congruence). rewrite Hf3, Nat.eqb_refl, orb_true_r.
  pose proof (linked_focus _ _ _ _ _ _ _ HD3 Hl) as Hp3.
  apply wp_bind, wp_bind. eapply wp_getn; [exact Hp3|]. cbn [n_next node_at first]. apply wp_bind, wp_node_ptr, wp_modify. apply wp_ret.
  split; [exact Hr1|]. exists new. split; [exact HD3|].
  replace (ns ++ p :: [new]) with ((ns ++ [p]) ++ [new]) by by rewrite <-(assoc_L (++)). by rewrite last_snoc.
Qed.

(** Every line, with its newline, has at most 80 characters; [k] are there. *)
Fixpoint short (k : nat) (l : list Z) : Prop :=
  match l with
  | [] => True
  | c :: l' => (k < 80)%nat ∧ short (if c =? NL then 0 else S k) l'
  end.

(** The column behind [l], from column [k] on. *)
Fixpoint column (k : nat) (l : list Z) : nat :=
  match l with [] => k | c :: l' => column (if c =? NL then 0 else S k) l' end.

Lemma load_chars_spec cs : ∀ t ns p ls l,
  document t (ns ++ [p]) (ls ++ [l]) → length ns = length ls → Forall ok_char cs → short (length l) cs →
  0 ≤ f_size t → f_size t + Z.of_nat (length cs) < 2 ^ 31 →
  wp (load_chars top cs) (λ _ t', f_size t' = f_size t + Z.of_nat (length cs) ∧
    ∃ ns' p' ls' l', document t' (ns' ++ [p']) (ls' ++ [l']) ∧ length ns' = length ls' ∧ length l' = column (length l) cs ∧
      text (ls' ++ [l']) = text ls ++ l ++ cs) t.
Proof.
  induction cs as [|c cs IH]; intros t ns p ls l HD Hl Hok Hsh Hsz0 Hsz.
  - apply wp_ret. split; [cbn; lia|]. exists ns, p, ls, l. split; [done|]. split; [done|]. split; [done|]. rewrite text_app. done.
  - apply Forall_cons in Hok as [Hc Hok]. cbn in Hsh. destruct Hsh as [Hlt Hsh]. cbn [length] in Hsz.
    pose proof HD as [HL Hlast]. pose proof (linked_focus _ _ _ _ _ _ _ HL Hl) as Hp.
    assert (Hfl : f_last t = p) by (rewrite last_snoc in Hlast; congruence).
    cbn [load_chars]. apply wp_bind, wp_get. rewrite Hfl. apply wp_bind. eapply wp_getn; [exact Hp|]. cbn [n_size node_at].
    apply wp_bind. unfold addc. apply wp_bind, wp_get.
    destruct (Z.eqb_spec c NL) as [->|Hne].
    + apply wp_bind, wp_bind. eapply wp_mono; [by apply newpara_end|]. intros r t1 (Hr1 & new & HD1).
      apply wp_ret. cbn [negb]. apply wp_bind, wp_get. apply (wp_bind (putM _)), (wp_modify (λ _, _)), wp_ret.
      assert (Hfs : f_size t1 = f_size t) by (by injection Hr1). rewrite Hfs, s32_small by lia.
      set (t2 := set_fsize _ t1).
      eapply wp_mono; [apply (IH t2 (ns ++ [p]) new (ls ++ [l ++ [NL]]) [])|]; [|rewrite !length_app; cbn; lia|done|done|cbn; lia|cbn; lia|].
      * rewrite <-!(assoc_L (++)). exact HD1.
      * intros _ t' (Hf' & ns' & p' & ls' & l' & HD' & Hl' & Hc' & Ht'). split; [rewrite Hf'; cbn; lia|]. exists ns', p', ls', l'.
        split; [done|]. split; [done|]. split; [done|]. rewrite Ht', text_app. change (text [l ++ [NL]]) with ((l ++ [NL]) ++ []). by rewrite app_nil_r, <-!(assoc_L (++)).
    + assert (Hf : (0 + (if (length l <? 80)%nat then 0 else 1) < S (S (length (nodes t))))%nat) by (destruct (length l <? 80)%nat; lia).
      apply wp_bind. cbn [addc_loop].
      pose proof (li_lines _ _ _ HL) as Hls. apply Forall_app in Hls as [_ Hls]. apply Forall_cons in Hls as [[Hlen Hokl] _].
      apply wp_bind. eapply wp_mono; [apply (addc_node_spec t ns p [] l (length l) c Hp Hlen Hokl); [apply Hc|lia|lia]|].
      intros r t1 Hr. rewrite (proj2 (Nat.ltb_lt _ _) Hlt) in Hr. destruct Hr as [-> ->]. rewrite take_ge, drop_ge by lia.
      cbn [Z.eqb]. apply wp_ret. cbn [negb]. apply wp_bind, wp_get. apply (wp_bind (putM _)), (wp_modify (λ _, _)), wp_ret.
      cbn [f_size at_node set_nodes]. rewrite s32_small by lia. set (t2 := set_fsize _ _).
      eapply wp_mono; [apply (IH t2 ns p ls (l ++ [c]))|]; [|done|done| |cbn; lia|cbn; lia|].
      * split; [|done]. apply (linked_line _ _ _ _ _ l); [done|done|rewrite length_app; cbn; lia|].
        apply Forall_app. split; [done|]. constructor; [done|constructor].
      * rewrite length_app. cbn. by rewrite Nat.add_1_r.
      * intros _ t' (Hf' & ns' & p' & ls' & l' & HD' & Hl' & Hc' & Ht'). split; [rewrite Hf'; cbn; lia|]. exists ns', p', ls', l'.
        split; [done|]. split; [done|]. rewrite length_app in Hc'. cbn [length] in Hc'. rewrite Nat.add_1_r in Hc'.
        cbn [column]. rewrite (proj2 (Z.eqb_neq c NL)) by done. split; [done|]. by rewrite Ht', <-(assoc_L (++)).
Qed.

(** What the reads return up to the end of the file. *)
Fixpoint read_bytes (reads : list (option (list Z))) : option (list Z) :=
  match reads with
  | [] | Some [] :: _ => Some []
  | None :: _ => None
  | Some buf :: reads' => (app buf) <$> read_bytes reads'
  end.

Lemma load_chars_app a b t : load_chars top (a ++ b) t = (load_chars top a;; load_chars top b) t.
Proof.
  revert t. induction a as [|c a IH]; intros t; [done|]. cbn [app load_chars]. unfold mbind, M_bind in *. unfold getM.
  destruct (getn (f_last t) t) as [n t1|]; [|done]. destruct (addc top (Some (f_last t)) (n_size n) c t1); [|done]. apply IH.
Qed.

Lemma load_reads_eq reads : ∀ cs t, read_bytes reads = Some cs →
  load_reads top reads t = (load_chars top cs;; t ← getM; mret (f_size t)) t.
Proof.
  induction reads as [|[[|c buf]|] reads IH]; intros cs t H; cbn in H; try (injection H as <-; done); [|done].
  destruct (read_bytes reads) as [cs'|] eqn:E; [|done]. injection H as <-. change (c :: buf ++ cs') with ((c :: buf) ++ cs').
  set (b := c :: buf). change (load_reads top (Some b :: reads) t) with ((load_chars top b;; load_reads top reads) t).
  unfold mbind, M_bind. rewrite load_chars_app. unfold mbind, M_bind. destruct (load_chars top b t) as [a s|]; [|done].
  by apply (IH cs').
Qed.

(** A newline behind 80 characters: the rest of the line has -1 bytes. *)
Lemma newpara_full t ns p ls l : document t (ns ++ [p]) (ls ++ [l]) → length ns = length ls → length l = 80%nat →
  ∃ t', newpara top p 80 t = Err Undef t'.
Proof.
  intros [HD _] Hl Hlen. pose proof (add_node_spec t ns p [] ls l [] HD Hl) as Hw.
  apply wp_Ok in Hw as (new & t1 & Hrun & HD1 & _). pose proof (linked_focus _ _ _ _ _ _ _ HD1 Hl) as Hp1.
  pose proof (lookup_lt_Some _ _ _ Hp1) as Hlt. pose proof (length_pad l ltac:(lia)) as Hlp.
  assert (Hput : wp (putc p 80 NL) (λ _ t2, t2 = at_node p (nset_content (<[80%nat := NL]> (pad l)) (node_at ns l [new])) t1) t1).
  { apply (wp_putc t1 p (node_at ns l [new]) 80 NL); [exact Hp1|cbn; lia|unfold NL; lia|done]. }
  apply wp_Ok in Hput as (r & t2 & Hput & ->).
  set (n2 := nset_content _ _) in Hput. exists (at_node p n2 t1). unfold newpara, mbind, M_bind. rewrite Hrun, (getn_run _ _ _ Hp1). cbn [n_size node_at]. rewrite Hlen.
  change (seqZ 80 (Z.of_nat 80 - 80)) with (@nil Z). cbn [forM mret M_ret]. rewrite Hput. unfold clear_content, mbind, M_bind.
  rewrite (getn_run _ _ n2 (at_node_lookup p n2 t1 Hlt)). reflexivity.
Qed.

(** C35: A file without characters 0 and -1 whose lines have at most 80 characters,
    counting their newlines, is saved as it was loaded, however the reads split
    it; [loadfile] returns the number of its characters. The bound is exact for
    newlines: when a newline follows on 80 characters, and the lines before it
    are short enough, loading the file ends in an access out of bounds. *)
Theorem tedit_roundtrip reads cs :
  read_bytes reads = Some cs → Forall ok_char cs → Z.of_nat (length cs) < 2 ^ 31 →
  (short 0 cs → ∃ t, loadfile top reads ted0 = Ok (Z.of_nat (length cs)) t ∧ savefile t = Ok cs t) ∧
  (∀ pre post, cs = pre ++ NL :: post → short 0 pre → column 0 pre = 80%nat → ∃ t, loadfile top reads ted0 = Err Undef t).
Proof.
  intros Hr Hok Hlen.
  assert (HD : document ted0 ([] ++ [O]) ([] ++ [[]])).
  { split; [|done]. constructor; [done|apply NoDup_singleton|done|]. constructor; [split; [cbn; lia|constructor]|constructor]. }
  assert (Hload : ∀ r, load_chars top cs ted0 = r → loadfile top reads ted0 = (match r with Ok _ t => Ok (f_size t) t | Err e t => Err e t end)).
  { intros r <-. unfold loadfile, mbind, M_bind, getM. change (newfile ted0) with false. cbv iota. rewrite (load_reads_eq reads cs) by done. done. }
  split.
  - intros Hsh. pose proof (load_chars_spec cs ted0 [] 0 [] [] HD eq_refl Hok Hsh) as Hw. opose proof* Hw as Hw1; [cbn; lia|cbn; lia|].
    apply wp_Ok in Hw1 as ([] & t & Hrun & Hsz & ns & p & ls & l & HD' & _ & _ & Ht). exists t. cbn in Ht, Hsz. split.
    + by rewrite (Hload _ Hrun), Hsz.
    + by rewrite (savefile_spec t _ _ HD'), Ht.
  - intros pre post -> Hsh Hcol. apply Forall_app in Hok as [Hok _]. rewrite length_app in Hlen. cbn [length] in Hlen.
    pose proof (load_chars_spec pre ted0 [] 0 [] [] HD eq_refl Hok Hsh) as Hw. opose proof* Hw as Hw1; [cbn; lia|cbn; lia|].
    apply wp_Ok in Hw1 as ([] & t & Hrun & _ & ns & p & ls & l & HD' & Hl' & Hc' & _). cbn [length] in Hc'. rewrite Hcol in Hc'.
    destruct (newpara_full t ns p ls l HD' Hl' Hc') as (t' & Hnew). exists t'.
    rewrite (Hload (Err Undef t')); [done|]. rewrite load_chars_app. unfold mbind, M_bind. rewrite Hrun. cbn [load_chars].
    pose proof (linked_focus _ _ _ _ _ _ _ (proj1 HD') Hl') as Hp. destruct HD' as [_ Hlast]. rewrite last_snoc in Hlast. injection Hlast as Hlast.
    unfold mbind, M_bind, getM. rewrite <-Hlast, (getn_run _ _ _ Hp). cbn [n_size node_at]. rewrite Hc'. unfold addc, mbind, M_bind, getM.
    cbn [Z.eqb Pos.eqb NL]. change (Z.of_nat 80) with 80. by rewrite Hnew.
Qed.

End props.

(** "ab", a newline, "cd" and a newline, in two reads. *)
Lemma tedit_roundtrip_witness :
  ∃ t, loadfile (λ _, 0) [Some [97; 98; 10; 99]; Some [100; 10]] ted0 = Ok 6 t ∧ savefile t = Ok [97; 98; 10; 99; 100; 10] t.
Proof.
  refine (proj1 (tedit_roundtrip (λ _, 0) [Some [97; 98; 10; 99]; Some [100; 10]] [97; 98; 10; 99; 100; 10] _ _ _) _).
  - reflexivity.
  - repeat (constructor; [unfold ok_char; lia|]). constructor.
  - cbn. lia.
  - cbn. lia.
Defined.

(** A full line: the last character goes to a new node. *)
Definition full_line : ted :=
  mkTed [mkNode None None (replicate 80 97 ++ [0]) 80] 0 80 false 0 0 true false false.


(** The bound on the length of the lines is needed: with 81 characters the last
    two are garbled, and with 80 and a newline [newpara] clears -1 bytes. *)
Lemma tedit_long_lines :
  let run := λ l, (_ ← loadfile (λ _, 0) [Some l]; savefile) ted0 in
  match run (replicate 80 97 ++ [98]) with Ok out _ => out = replicate 80 97 ++ [98; 97] | Err _ _ => False end ∧
  match run (replicate 80 97 ++ [10]) with Ok _ _ => False | Err e _ => e = Undef end.
Proof. split; vm_compute; reflexivity. Qed.

(** Moving the rest of a paragraph up garbles it: a newline in the middle of the
    first of two full lines replaces the end of the second by its beginning. *)
Lemma newpara_garbles :
  let run := (_ ← addc (λ _, 0) (Some O) 40 NL; savefile) in
  let line := λ a b, replicate 40 a ++ replicate 40 b in
  let t := mkTed [mkNode None (Some 1%nat) (line 97 98 ++ [0]) 80; mkNode (Some O) None (line 99 100 ++ [0]) 80] 1 160
    false 0 0 true false false in
  match run t with
  | Ok out _ => out = replicate 40 97 ++ [NL] ++ replicate 40 98 ++ replicate 80 99
  | Err _ _ => False
  end.
Proof. vm_compute. reflexivity. Qed.
