(* ===== verification/Snake.v ===== *)
(** * The game (snake.c)

    The globals of the program are a record, and what it asks of the kernel
    (characters on the screen, modes, the alarm) is recorded in [acts]. The
    kernel calls the handler that was last passed to alarm, so that a run is a
    sequence of such calls ([play]); the answer of gameget is an argument. A call
    is taken to be over before the next alarm; main itself only waits.
    An index outside of the array [body] is undefined. *)

From S2P Require Import Prelude.

Definition MAX : nat := 100.
Definition COL : Z := 40.
Definition ROW : Z := 20.

Inductive dir := UP | DOWN | LEFT | RIGHT.
Inductive shape := STRAIGHT | BEND.
(** The functions that are passed to alarm. *)
Inductive handler := Hmove | HgameRun | HacquireInput.

Inductive act :=
| Outexac (x y c : Z)
| Print (s : string)
| PrintInt (n : Z)
| Cmdmod (a b : Z)
| Clrscr
| Alarm (ticks : Z) (h : handler).

Record Pos := mkPos { px : Z; py : Z }.

(** [struct Snake snake], the other globals, the handler of the alarm, and
    whether the process has called exit. *)
Record game := mkGame {
  body : list Pos;
  len : nat;
  sstate : shape;
  dirc : dir;
  food : Pos;
  turningCount : Z;
  grade : Z;
  eatingCount : Z;
  level : Z;
  speed : Z;
  randSeed : Z;
  hand : option handler;
  exited : bool;
  acts : list act;
}.

(** Before [main]: static storage. *)
Definition game0 : game :=
  mkGame (replicate MAX (mkPos 0 0)) 0 STRAIGHT UP (mkPos 0 0) 0 0 0 1 10 0 None false [].

Definition set_body (b : list Pos) (n : nat) (g : game) : game :=
  mkGame b n (sstate g) (dirc g) (food g) (turningCount g) (grade g) (eatingCount g) (level g) (speed g) (randSeed g) (hand g) (exited g) (acts g).
Definition set_turn (st : shape) (n : Z) (g : game) : game :=
  mkGame (body g) (len g) st (dirc g) (food g) n (grade g) (eatingCount g) (level g) (speed g) (randSeed g) (hand g) (exited g) (acts g).
Definition set_dirc (d : dir) (g : game) : game :=
  mkGame (body g) (len g) (sstate g) d (food g) (turningCount g) (grade g) (eatingCount g) (level g) (speed g) (randSeed g) (hand g) (exited g) (acts g).
Definition set_food (p : Pos) (g : game) : game :=
  mkGame (body g) (len g) (sstate g) (dirc g) p (turningCount g) (grade g) (eatingCount g) (level g) (speed g) (randSeed g) (hand g) (exited g) (acts g).
Definition set_score (a b c d : Z) (g : game) : game :=
  mkGame (body g) (len g) (sstate g) (dirc g) (food g) (turningCount g) a b c d (randSeed g) (hand g) (exited g) (acts g).
Definition set_seed (r : Z) (g : game) : game :=
  mkGame (body g) (len g) (sstate g) (dirc g) (food g) (turningCount g) (grade g) (eatingCount g) (level g) (speed g) r (hand g) (exited g) (acts g).
Definition set_exited (g : game) : game :=
  mkGame (body g) (len g) (sstate g) (dirc g) (food g) (turningCount g) (grade g) (eatingCount g) (level g) (speed g) (randSeed g) (hand g) true (acts g).
Definition do_acts (l : list act) (g : game) : game :=
  mkGame (body g) (len g) (sstate g) (dirc g) (food g) (turningCount g) (grade g) (eatingCount g) (level g) (speed g) (randSeed g) (hand g) (exited g) (acts g ++ l).
Definition set_alarm (t : Z) (h : handler) (g : game) : game :=
  mkGame (body g) (len g) (sstate g) (dirc g) (food g) (turningCount g) (grade g) (eatingCount g) (level g) (speed g) (randSeed g) (Some h) (exited g) (acts g ++ [Alarm t h]).

Definition act_ (a : act) : M game unit := modify (do_acts [a]).
Definition alarm (t : Z) (h : handler) : M game unit := modify (set_alarm t h).
(** [snake.body[i]] *)
Definition cell (i : nat) : M game Pos := g ← getM; deref (body g !! i).
Definition put_cell (i : nat) (p : Pos) : M game unit :=
  g ← getM; if (i <? length (body g))%nat then putM (set_body (<[i := p]> (body g)) (len g) g) else undef.

(** ** The functions of the program *)
Definition rand : M game Z :=
  g ← getM;
  let r := u32 (randSeed g * 1103515245 + 12345) in
  putM (set_seed r g);;
  mret (Z.lor (u32 (Z.shiftl r 16)) (Z.land (Z.shiftr r 16) 65535)).

Definition map_row (i : Z) : list act :=
  ((λ j, Print (if (i =? 0) || (i =? ROW - 1) || (j =? 0) || (j =? COL - 1) then "*" else " ")) <$> seqZ 0 COL)
  ++ [Print (String (Ascii.ascii_of_nat 10) "")].
Definition printMap : M game unit := modify (do_acts (concat (map_row <$> seqZ 0 ROW))).

Definition printSnake : M game unit :=
  g ← getM;
  forM (seq 0 (len g)) (λ i, p ← cell i; act_ (Outexac (px p) (py p) 42)).

(** The characters of "Grade:" and "Level:" at their places. *)
Definition label (x y : Z) (l : list Z) : M game unit := modify (do_acts (imap (λ i c, Outexac (x + Z.of_nat i) y c) l)).
Definition printScore : M game unit :=
  label 50 10 [71; 114; 97; 100; 101; 58];;
  g ← getM;
  act_ (PrintInt (grade g));;
  label 50 14 [76; 101; 118; 101; 108; 58];;
  act_ (PrintInt (level g));;
  act_ (Outexac 49 18 32);;
  act_ (Print "Press 'q' to quit").

(** [time] is the answer of time(). *)
Definition initGame (time : Z) : M game unit :=
  act_ (Cmdmod 2 2);;
  act_ Clrscr;;
  modify (set_seed (u32 time));;
  printMap;;
  modify (λ g, set_dirc RIGHT (set_body (body g) 3 g));;
  forM (seq 0 3) (λ i, put_cell i (mkPos (2 + Z.of_nat i) 1));;
  printSnake;;
  x ← rand;
  y ← rand;
  let x := x `mod` (COL - 1) in
  let y := y `mod` (ROW - 1) in
  let x := if x =? 0 then x + 4 else x in
  let y := if y =? 0 then y + 4 else y in
  modify (set_food (mkPos x y));;
  act_ (Outexac x y 42);;
  printScore.

(** [snake.body[snake.len - 1]] *)
Definition the_head : M game Pos := g ← getM; cell (len g - 1).

Definition collision : M game bool :=
  h ← the_head;
  if (px h =? 0) || (px h =? COL - 1) || (py h =? 0) || (py h =? ROW - 1) then mret true else
  g ← getM;
  mret (existsb (λ p, (px p =? px h) && (py p =? py h)) (take (len g - 3) (body g))).

(** The next cell; the coordinates are ints. *)
Definition ahead (d : dir) (p : Pos) : Pos :=
  match d with
  | UP => mkPos (px p) (s32 (py p - 1))
  | DOWN => mkPos (px p) (s32 (py p + 1))
  | LEFT => mkPos (s32 (px p - 1)) (py p)
  | RIGHT => mkPos (s32 (px p + 1)) (py p)
  end.

(** "level up" *)
Definition level_up : M game unit :=
  modify (λ g, set_score (s32 (grade g + 10)) (s32 (eatingCount g + 1)) (level g) (speed g) g);;
  g ← getM;
  if eatingCount g >? 10 then
    putM (set_score (grade g) 0 (s32 (level g + 1)) (speed g) g);;
    if speed g >? 0 then
      modify (λ g, set_score (grade g) (eatingCount g) (level g) (speed g - 1) g);;
      alarm (speed g - 1) Hmove
    else mret tt
  else mret tt.

Definition eat : M game unit :=
  h ← the_head;
  g ← getM;
  if (px h =? px (food g)) && (py h =? py (food g)) then
    level_up;;
    printScore;;
    g ← getM;
    (if (len g <? MAX)%nat then
       put_cell (len g) (ahead (dirc g) h);;
       modify (λ g, set_body (body g) (S (len g)) g)
     else mret tt);;
    x ← rand;
    y ← rand;
    modify (set_food (mkPos (x `mod` COL) (y `mod` ROW)));;
    act_ (Outexac (x `mod` COL) (y `mod` ROW) 42)
  else mret tt.

Definition gameFail : M game unit := g ← getM; alarm (speed g) HacquireInput.

(** "check if the snake is already straight" *)
Definition straighten (g : game) : game :=
  match sstate g with
  | STRAIGHT => g
  | BEND => if turningCount g =? Z.of_nat (len g) then set_turn STRAIGHT 0 g else set_turn BEND (s32 (turningCount g + 1)) g
  end.

Definition move : M game unit :=
  eat;;
  c ← collision;
  (if c : bool then gameFail else mret tt);;
  p0 ← cell 0;
  act_ (Outexac (px p0) (py p0) 32);;
  g ← getM;
  forM (seq 0 (len g - 1)) (λ i, p ← cell (i + 1); put_cell i p);;
  h ← the_head;
  let h' := ahead (dirc g) h in
  put_cell (len g - 1) h';;
  act_ (Outexac (px h') (py h') 42);;
  modify straighten.

Definition exitGame : M game unit := act_ (Cmdmod 1 1);; act_ Clrscr;; modify set_exited.

(** The turn of the snake. *)
Definition turn_to (d : dir) : M game unit := modify (λ g, set_turn BEND 0 (set_dirc d g)).

Definition acquireInput (c : Z) : M game unit :=
  let input := s8 c in
  if input >? 0 then
    if input =? 119 then turn_to UP
    else if input =? 115 then turn_to DOWN
    else if input =? 97 then turn_to LEFT
    else if input =? 100 then turn_to RIGHT
    else if input =? 113 then exitGame
    else mret tt
  else mret tt.

Definition gameRun (c : Z) : M game unit := move;; acquireInput c.

(** [main] up to its endless loop. *)
Definition snake_main (time : Z) : M game unit :=
  initGame time;;
  g ← getM;
  alarm (speed g) HgameRun.

(** ** Runs *)

(** The kernel calls the handler; [c] is the answer of gameget. *)
Definition call_handler (c : Z) : M game unit :=
  g ← getM;
  match hand g with
  | None => mret tt
  | Some Hmove => move
  | Some HgameRun => gameRun c
  | Some HacquireInput => acquireInput c
  end.

(** A run of the program for a sequence of alarms with their inputs; after exit
    there are no more. *)
Fixpoint play (inputs : list Z) : M game unit :=
  match inputs with
  | [] => mret tt
  | c :: inputs' => g ← getM; if exited g then mret tt else call_handler c;; play inputs'
  end.

(** ** The snake stays in one piece *)
Definition inside (p : Pos) : Prop := 0 ≤ px p < COL ∧ 0 ≤ py p < ROW.

Record good (g : game) : Prop := {
  go_size : length (body g) = MAX;
  go_len : (3 <= len g <= MAX)%nat;
  go_linked : ∀ i p q, (S i < len g)%nat → body g !! i = Some p → body g !! S i = Some q → ∃ d, q = ahead d p;
  go_food : inside (food g);
}.

(** The fields that [good] is about. *)
Definition same_snake (g g' : game) : Prop := body g' = body g ∧ len g' = len g ∧ food g' = food g.
Lemma good_same g g' : good g → same_snake g g' → good g'.
Proof. intros [H1 H2 H3 H4] (E1 & E2 & E3). constructor; rewrite ?E1, ?E2, ?E3; done. Qed.

Lemma good_cell g i Q : good g → (i < MAX)%nat → (∀ p, body g !! i = Some p → Q p g) → wp (cell i) Q g.
Proof.
  intros Hg Hi HQ. destruct (lookup_lt_is_Some_2 (body g) i) as [p Hp]; [by rewrite (go_size _ Hg)|].
  unfold cell. apply wp_bind, wp_get. eapply wp_deref; [done|]. by apply HQ.
Qed.
Lemma wp_put_cell g i p (Q : unit → game → Prop) :
  (i < length (body g))%nat → Q tt (set_body (<[i := p]> (body g)) (len g) g) → wp (put_cell i p) Q g.
Proof. intros Hi HQ. unfold put_cell. apply wp_bind, wp_get. by rewrite (proj2 (Nat.ltb_lt _ _) Hi). Qed.
Lemma wp_put {S} (s s' : S) (Q : unit → S → Prop) : Q tt s' → wp (putM s') Q s.
Proof. done. Qed.

Lemma printScore_spec g : wp printScore (λ _ g', same_snake g g') g.
Proof. done. Qed.

Lemma level_up_spec g : wp level_up (λ _ g', same_snake g g' ∧ dirc g' = dirc g) g.
Proof.
  unfold level_up. apply wp_bind, wp_modify, wp_bind, wp_get. destruct (_ >? _); [|done]. apply wp_bind, wp_put.
  destruct (_ >? _); done.
Qed.

(** The body with a new head. *)
Lemma good_grow g d h :
  good g → (len g < MAX)%nat → body g !! (len g - 1)%nat = Some h →
  good (set_body (<[len g := ahead d h]> (body g)) (S (len g)) g).
Proof.
  intros [H1 H2 H3 H4] Hlt Hh. constructor; cbn [body len food set_body]; [by rewrite length_insert|lia| |done].
  intros i p q Hi Hp Hq. destruct (decide (S i = len g)) as [E|E].
  - rewrite E in Hq. rewrite list_lookup_insert_eq in Hq by lia. injection Hq as <-.
    rewrite list_lookup_insert_ne in Hp by lia. replace i with (len g - 1)%nat in Hp by lia. exists d. congruence.
  - rewrite list_lookup_insert_ne in Hp by lia. rewrite list_lookup_insert_ne in Hq by lia. apply (H3 i p q); [lia|done|done].
Qed.

Lemma wp_rand g (Q : Z → game → Prop) : (∀ r s, Q r (set_seed s g)) → wp rand Q g.
Proof. intros HQ. unfold rand. apply wp_bind, wp_get, wp_bind, wp_put, wp_ret, HQ. Qed.

Lemma good_food g p : good g → inside p → good (set_food p g).
Proof. intros [H1 H2 H3 H4] Hp. by constructor. Qed.
Lemma inside_mod x y : inside (mkPos (x `mod` COL) (y `mod` ROW)).
Proof. split; apply Z.mod_pos_bound; unfold COL, ROW; lia. Qed.

Lemma eat_spec g : good g → wp eat (λ _ g', good g') g.
Proof.
  intros Hg. pose proof (go_len _ Hg) as Hl. unfold eat. apply wp_bind. unfold the_head. apply wp_bind, wp_get.
  apply good_cell; [done|lia|]. intros h Hh. apply wp_bind, wp_get. destruct (_ && _); [|done].
  apply wp_bind. eapply wp_mono; [apply level_up_spec|]. intros _ g1 [Hs1 _].
  apply wp_bind. eapply wp_mono; [apply printScore_spec|]. intros [] g2 Hs2.
  assert (Hs : same_snake g g2) by (unfold same_snake in *; intuition congruence).
  assert (Hg2 : good g2) by by eapply good_same. destruct Hs as (E1 & E2 & _).
  apply wp_bind, wp_get, wp_bind.
  assert (Hend : ∀ g3, good g3 → wp (x ← rand; y ← rand; modify (set_food (mkPos (x `mod` COL) (y `mod` ROW)));;
    act_ (Outexac (x `mod` COL) (y `mod` ROW) 42)) (λ _ g', good g') g3).
  { intros g3 Hg3. apply wp_bind, wp_rand. intros x s. apply wp_bind, wp_rand. intros y s'.
    apply wp_bind, wp_modify, wp_modify.
    apply (good_same (set_food (mkPos (x `mod` COL) (y `mod` ROW)) g3)); [|done]. apply good_food; [done|apply inside_mod]. }
  destruct (Nat.ltb_spec (len g2) MAX) as [Hlt|Hge]; [|by apply wp_ret, Hend].
  apply wp_bind, wp_put_cell; [rewrite (go_size _ Hg2); lia|]. apply wp_modify, Hend.
  eapply good_same; [apply (good_grow g2 (dirc g2) h); [done|done|by rewrite E1, E2]|done].
Qed.

Lemma collision_spec g : good g → wp collision (λ _ g', g' = g) g.
Proof.
  intros Hg. pose proof (go_len _ Hg). unfold collision. apply wp_bind. unfold the_head. apply wp_bind, wp_get.
  apply good_cell; [done|lia|]. intros h Hh. destruct (_ || _); [done|]. by apply wp_bind, wp_get, wp_ret.
Qed.

(** The loop that moves every cell to the place of the next one. *)
Definition shifted (b : list Pos) (k : nat) (j : nat) : option Pos := if (j <? k)%nat then b !! S j else b !! j.

Lemma shift_spec n : ∀ k g b,
  length (body g) = MAX → (k + n < MAX)%nat → (∀ j, body g !! j = shifted b k j) →
  wp (forM (seq k n) (λ i, p ← cell (i + 1); put_cell i p)) (λ _ g',
    (∀ j, body g' !! j = shifted b (k + n) j) ∧ g' = set_body (body g') (len g) g ∧ length (body g') = MAX) g.
Proof.
  induction n as [|n IH]; intros k g b Hl Hk Hb.
  - apply wp_ret. rewrite Nat.add_0_r. split; [done|]. by destruct g.
  - cbn [seq forM]. apply wp_bind, wp_bind. destruct (lookup_lt_is_Some_2 (body g) (k + 1)) as [p Hp]; [lia|].
    unfold cell. apply wp_bind, wp_get. eapply wp_deref; [done|]. apply wp_put_cell; [lia|].
    eapply wp_mono; [apply (IH (S k) _ b); cbn [body set_body len]; [by rewrite length_insert|lia|]|].
    + intros j. destruct (decide (j = k)) as [->|Hne].
      * rewrite list_lookup_insert_eq by lia. unfold shifted. rewrite (proj2 (Nat.ltb_lt k (S k))) by lia.
        rewrite <-Hp, Hb. unfold shifted. rewrite (proj2 (Nat.ltb_ge (k + 1) k)) by lia. f_equal. lia.
      * rewrite list_lookup_insert_ne by done. rewrite Hb. unfold shifted.
        destruct (Nat.ltb_spec j k), (Nat.ltb_spec j (S k)); done || lia.
    + intros _ g' (H1 & H2 & H3). split; [|split; [|done]].
      * intros j. rewrite H1. by replace (S k + n)%nat with (k + S n)%nat by lia.
      * rewrite H2. done.
Qed.

Lemma good_moved g g' d h :
  good g → length (body g') = MAX → len g' = len g → food g' = food g → (∀ j, body g' !! j = shifted (body g) (len g - 1) j) →
  body g' !! (len g - 1)%nat = Some h → good (set_body (<[(len g - 1)%nat := ahead d h]> (body g')) (len g) g').
Proof.
  intros [H1 H2 H3 H4] Hl Hn Hf Hb Hh. constructor; cbn [body len food set_body]; [by rewrite length_insert|done| |by rewrite Hf].
  rewrite Hb in Hh. unfold shifted in Hh. rewrite (proj2 (Nat.ltb_ge _ _)) in Hh by lia.
  intros i p q Hi Hp Hq. rewrite list_lookup_insert_ne, Hb in Hp by lia. unfold shifted in Hp.
  rewrite (proj2 (Nat.ltb_lt _ _)) in Hp by lia. destruct (decide (S i = len g - 1)%nat) as [E|E].
  - rewrite E in Hq. rewrite list_lookup_insert_eq in Hq by lia. injection Hq as <-. rewrite E in Hp. exists d. congruence.
  - rewrite list_lookup_insert_ne, Hb in Hq by lia. unfold shifted in Hq. rewrite (proj2 (Nat.ltb_lt _ _)) in Hq by lia.
    apply (H3 (S i) p q); [lia|done|done].
Qed.

Lemma straighten_same g : same_snake g (straighten g).
Proof. unfold straighten. destruct (sstate g); [done|]. by destruct (_ =? _). Qed.

Lemma move_spec g : good g → wp move (λ _ g', good g') g.
Proof.
  intros Hg. unfold move. apply wp_bind. eapply wp_mono; [by apply eat_spec|]. intros [] g1 Hg1.
  apply wp_bind. eapply wp_mono; [by apply collision_spec|]. intros c ? ->. apply wp_bind.
  assert (Hrest : ∀ g2, good g2 → wp (p0 ← cell 0; act_ (Outexac (px p0) (py p0) 32);; g ← getM;
    forM (seq 0 (len g - 1)) (λ i, p ← cell (i + 1); put_cell i p);; h ← the_head; let h' := ahead (dirc g) h in
    put_cell (len g - 1) h';; act_ (Outexac (px h') (py h') 42);; modify straighten) (λ _ g', good g') g2).
  2: { destruct c; [|by apply wp_ret, Hrest]. unfold gameFail. apply wp_bind, wp_get, wp_modify, Hrest. by eapply good_same. }
  clear g Hg g1 Hg1 c. intros g Hg. pose proof (go_len _ Hg) as Hl. apply wp_bind, good_cell; [done|lia|]. intros p0 _.
  apply wp_bind, wp_modify, wp_bind, wp_get. set (g1 := do_acts _ g). assert (Hg1 : good g1) by by eapply good_same.
  apply wp_bind. eapply wp_mono; [apply (shift_spec (len g1 - 1) 0 g1 (body g1)); [apply Hg1|cbn; lia|done]|].
  intros _ g2 (Hb & Hg2 & Hl2). assert (En : len g2 = len g1) by by rewrite Hg2. assert (Ef : food g2 = food g1) by by rewrite Hg2.
  apply wp_bind. unfold the_head. apply wp_bind, wp_get. rewrite En. unfold cell. apply wp_bind, wp_get.
  destruct (lookup_lt_is_Some_2 (body g2) (len g1 - 1)) as [h Hh]; [cbn; lia|]. eapply wp_deref; [done|].
  apply wp_bind, wp_put_cell; [cbn; lia|]. apply wp_bind, wp_modify, wp_modify.
  eapply good_same; [|apply straighten_same]. eapply good_same; [apply (good_moved g1 g2 (dirc g1) h); done|].
  rewrite En. done.
Qed.

Lemma acquireInput_spec c g : good g → wp (acquireInput c) (λ _ g', good g') g.
Proof.
  intros Hg. unfold acquireInput, turn_to, exitGame. cbv zeta.
  repeat match goal with |- wp (if ?b then _ else _) _ _ => destruct b end; try done.
  all: by apply (good_same g).
Qed.

Lemma call_handler_spec c g : good g → wp (call_handler c) (λ _ g', good g') g.
Proof.
  intros Hg. unfold call_handler. apply wp_bind, wp_get. destruct (hand g) as [[]|]; [by apply move_spec| |by apply acquireInput_spec|done].
  unfold gameRun. apply wp_bind. eapply wp_mono; [by apply move_spec|]. intros [] g1 Hg1. by apply acquireInput_spec.
Qed.

Lemma play_spec inputs : ∀ g, good g → wp (play inputs) (λ _ g', good g') g.
Proof.
  induction inputs as [|c inputs IH]; intros g Hg; [done|]. cbn [play]. apply wp_bind, wp_get. destruct (exited g); [done|].
  apply wp_bind. eapply wp_mono; [by apply call_handler_spec|]. intros [] g1 Hg1. by apply IH.
Qed.

(** The first three cells. *)
Lemma first_cells g : body g = replicate MAX (mkPos 0 0) → len g = 3%nat →
  wp (forM (seq 0 3) (λ i, put_cell i (mkPos (2 + Z.of_nat i) 1))) (λ _ g', body g' =
    [mkPos 2 1; mkPos 3 1; mkPos 4 1] ++ replicate 97 (mkPos 0 0) ∧ len g' = 3%nat) g.
Proof.
  intros Hb Hl. cbn [seq forM]. assert (HL : length (body g) = 100%nat) by by rewrite Hb.
  do 3 (apply wp_bind, wp_put_cell; [cbn [body set_body]; rewrite ?length_insert, HL; lia|]). apply wp_ret. cbn [body len set_body]. rewrite Hb. done.
Qed.

Lemma initGame_spec time : wp (initGame time) (λ _ g, good g) game0.
Proof.
  unfold initGame. apply wp_bind, wp_modify. apply wp_bind, wp_modify. apply wp_bind, wp_modify. apply wp_bind, wp_modify.
  set (g0 := do_acts _ _). assert (H0 : body g0 = replicate MAX (mkPos 0 0)) by done. clearbody g0.
  apply wp_bind, wp_modify. apply wp_bind. eapply wp_mono; [by apply first_cells|]. intros [] g1 [Hb Hl].
  assert (Hgood : ∀ g, body g = body g1 → len g = len g1 → inside (food g) → good g).
  { intros g E1 E2 Hf. rewrite Hb in E1. rewrite Hl in E2. constructor; [by rewrite E1|rewrite E2; unfold MAX; lia| |done].
    rewrite E1, E2. intros [|[|i]] p q Hi Hp Hq; [| |lia]; injection Hp as <-; injection Hq as <-; by exists RIGHT. }
  apply wp_bind.
  assert (Hps : wp printSnake (λ _ g', body g' = body g1 ∧ len g' = len g1) g1).
  { unfold printSnake. apply wp_bind, wp_get. rewrite Hl. cbn [seq forM].
    repeat (apply wp_bind; unfold cell; apply wp_bind, wp_bind, wp_get; eapply wp_deref; [cbn; by rewrite Hb|]; apply wp_modify).
    by apply wp_ret. }
  eapply wp_mono; [exact Hps|]. intros [] g2 [Hb2 Hl2].
  apply wp_bind, wp_rand. intros x s. apply wp_bind, wp_rand. intros y s'. cbv zeta.
  apply wp_bind, wp_modify. apply wp_bind, wp_modify. eapply wp_mono; [apply printScore_spec|]. intros [] g3 (E1 & E2 & E3).
  apply Hgood; [by rewrite E1|by rewrite E2|]. rewrite E3. cbn [food do_acts set_food].
  pose proof (Z.mod_pos_bound x (COL - 1)). pose proof (Z.mod_pos_bound y (ROW - 1)). unfold COL, ROW in *.
  split; cbn [px py]; [destruct (Z.eqb_spec (x `mod` (40 - 1)) 0)|destruct (Z.eqb_spec (y `mod` (20 - 1)) 0)]; unfold COL, ROW; lia.
Qed.

Lemma snake_main_spec time : wp (snake_main time) (λ _ g, good g) game0.
Proof.
  unfold snake_main. apply wp_bind. eapply wp_mono; [apply initGame_spec|]. intros [] g Hg.
  apply wp_bind, wp_get, wp_modify. by apply (good_same g).
Qed.

(** C37: Whatever the clock says at the start and whatever is typed, the game
    never accesses the array of the snake out of its bounds; the snake always
    has between 3 and 100 cells, each next to the one before it, and the food is
    on the board. *)
Theorem snake_in_one_piece time inputs : wp (snake_main time;; play inputs) (λ _ g, good g) game0.
Proof.
  apply wp_bind. eapply wp_mono; [apply snake_main_spec|]. intros [] g Hg. by apply play_spec.
Qed.
