(* ===== verification/Rtc.v ===== *)
(** * The real-time clock (cmostime of lapic.c)

    The registers of the clock are read through ports: [rtc k reg] is the answer
    to the [k]-th read of a register, and the state counts the reads. The date
    is read until two readings agree, decoded, and moved to the time zone that
    is eight hours ahead. *)

From S2P Require Import Prelude.

(** date.h: [struct rtcdate]. *)
Record rtcdate := mkDate { second : Z; minute : Z; hour : Z; day : Z; month : Z; year : Z }.

#[export] Instance rtcdate_eq_dec : EqDecision rtcdate.
Proof. solve_decision. Defined.

Definition CMOS_STATA : Z := 10.
Definition CMOS_STATB : Z := 11.
Definition CMOS_UIP : Z := Z.shiftl 1 7.
Definition SECS : Z := 0.
Definition MINS : Z := 2.
Definition HOURS : Z := 4.
Definition DAY : Z := 7.
Definition MONTH : Z := 8.
Definition YEAR : Z := 9.

Section cmos.
Context (rtc : nat → Z → Z).

Definition cmos_read (reg : Z) : M nat Z :=
  k ← getM;
  putM (S k);;
  mret (rtc k reg).

Definition fill_rtcdate : M nat rtcdate :=
  s ← cmos_read SECS;
  m ← cmos_read MINS;
  h ← cmos_read HOURS;
  d ← cmos_read DAY;
  mo ← cmos_read MONTH;
  y ← cmos_read YEAR;
  mret (mkDate s m h d mo y).

(** The loop until two readings agree. *)
Fixpoint read_stable (fuel : nat) : M nat rtcdate :=
  match fuel with
  | O => stopM NoFuel
  | S fuel' =>
      t1 ← fill_rtcdate;
      a ← cmos_read CMOS_STATA;
      if negb (Z.land a CMOS_UIP =? 0) then read_stable fuel' else
      t2 ← fill_rtcdate;
      if bool_decide (t1 = t2) then mret t1 else read_stable fuel'
  end.

(** The macro CONV. *)
Definition conv (x : Z) : Z := Z.shiftr x 4 * 10 + Z.land x 15.
Definition conv_date (t : rtcdate) : rtcdate :=
  mkDate (conv (second t)) (conv (minute t)) (conv (hour t)) (conv (day t)) (conv (month t)) (conv (year t)).

(** The next day, as the switch over the month has it. *)
Definition next_day (r : rtcdate) : rtcdate :=
  let up := mkDate (second r) (minute r) (hour r) (day r + 1) (month r) (year r) in
  let over := mkDate (second r) (minute r) (hour r) 1 (month r + 1) (year r) in
  if bool_decide (month r ∈ [1; 3; 5; 7; 8; 10]) then
    if day r =? 31 then over else up
  else if month r =? 12 then
    if day r =? 31 then mkDate (second r) (minute r) (hour r) 1 1 (year r + 1) else up
  else if bool_decide (month r ∈ [4; 6; 9; 11]) then
    if day r =? 30 then over else up
  else if month r =? 2 then
    if ((year r `mod` 4 =? 0) && negb (year r `mod` 100 =? 0)) || (year r `mod` 400 =? 0) then
      if day r =? 29 then over else up
    else
      if day r =? 28 then over else up
  else r.

Definition set_hour (h : Z) (r : rtcdate) : rtcdate := mkDate (second r) (minute r) h (day r) (month r) (year r).

(** To local time. *)
Definition localize (t : rtcdate) : rtcdate :=
  let r := mkDate (second t) (minute t) (hour t + 8) (day t) (month t) (year t + 2000) in
  if hour r >=? 24 then next_day (set_hour (hour r `mod` 24) r) else r.

Definition cmostime (fuel : nat) : M nat rtcdate :=
  sb ← cmos_read CMOS_STATB;
  let bcd := Z.land sb (Z.shiftl 1 2) =? 0 in
  t1 ← read_stable fuel;
  let t1 := if bcd then conv_date t1 else t1 in
  mret (localize t1).

End cmos.

(** ** A calendar

    The reference: months have their lengths, and the days of the Gregorian
    calendar are numbered. *)
Definition leap (y : Z) : bool := ((y `mod` 4 =? 0) && negb (y `mod` 100 =? 0)) || (y `mod` 400 =? 0).
Definition month_days (y m : Z) : Z :=
  if m =? 2 then (if leap y then 29 else 28) else if bool_decide (m ∈ [4; 6; 9; 11]) then 30 else 31.
(** The days of the year before month [m]. *)
Fixpoint before_month (y : Z) (m : nat) : Z :=
  match m with
  | O | 1%nat => 0
  | S m' => before_month y m' + month_days y (Z.of_nat m')
  end.
(** The days before year [y]. *)
Definition before_year (y : Z) : Z := 365 * (y - 1) + (y - 1) / 4 - (y - 1) / 100 + (y - 1) / 400.
Definition days (r : rtcdate) : Z := before_year (year r) + before_month (year r) (Z.to_nat (month r)) + day r.
Definition seconds (r : rtcdate) : Z := ((days r * 24 + hour r) * 60 + minute r) * 60 + second r.

Definition valid (r : rtcdate) : Prop :=
  0 ≤ second r < 60 ∧ 0 ≤ minute r < 60 ∧ 0 ≤ hour r < 24 ∧ 1 ≤ month r ≤ 12 ∧
  1 ≤ day r ≤ month_days (year r) (month r) ∧ 0 < year r.

Lemma before_year_S y : before_year (y + 1) = before_year y + (if leap y then 366 else 365).
Proof.
  unfold before_year, leap. replace (y + 1 - 1) with y by lia.
  destruct (Z.eqb_spec (y `mod` 4) 0), (Z.eqb_spec (y `mod` 100) 0), (Z.eqb_spec (y `mod` 400) 0); cbn [negb andb orb];
    Z.to_euclidean_division_equations; lia.
Qed.

Lemma month_cases m : 1 ≤ m ≤ 12 → m ∈ [1; 2; 3; 4; 5; 6; 7; 8; 9; 10; 11; 12].
Proof. intros H. rewrite !elem_of_cons. lia. Qed.

Lemma year_days y : before_month y 12 + 31 = if leap y then 366 else 365.
Proof. cbn -[leap]. unfold month_days. cbn -[leap]. destruct (leap y); reflexivity. Qed.

(** The lengths of the months, and the days before them. *)
Definition lens (y : Z) : list Z := [31; if leap y then 29 else 28; 31; 30; 31; 30; 31; 31; 30; 31; 30; 31].

Lemma month_days_lens y m : 1 ≤ m ≤ 12 → lens y !! Z.to_nat (m - 1) = Some (month_days y m).
Proof.
  intros Hm. pose proof (month_cases m Hm) as Hin.
  repeat (apply elem_of_cons in Hin as [->|Hin]; [cbn; unfold month_days; cbn -[leap]; reflexivity|]). by apply not_elem_of_nil in Hin.
Qed.

Lemma before_month_S y m : (1 <= m)%nat → before_month y (S m) = before_month y m + month_days y (Z.of_nat m).
Proof. by destruct m; [lia|]. Qed.

(** The switch over the months is the calendar's. *)
Lemma next_day_eq r : 1 ≤ month r ≤ 12 →
  next_day r = if day r =? month_days (year r) (month r) then
      if month r =? 12 then mkDate (second r) (minute r) (hour r) 1 1 (year r + 1)
      else mkDate (second r) (minute r) (hour r) 1 (month r + 1) (year r)
    else mkDate (second r) (minute r) (hour r) (day r + 1) (month r) (year r).
Proof.
  destruct r as [s mi h d m y]. cbn [second minute hour day month year]. intros Hm. pose proof (month_cases m Hm) as Hin.
  unfold next_day, month_days. cbn [second minute hour day month year]. fold (leap y).
  repeat (apply elem_of_cons in Hin as [->|Hin]; [cbn -[leap Z.eqb]; try reflexivity; by destruct (leap y)|]).
  by apply not_elem_of_nil in Hin.
Qed.

(** The next day has the next number. *)
Lemma next_day_days r : valid r → days (next_day r) = days r + 1 ∧ valid (next_day r).
Proof.
  intros (Hs & Hmi & Hh & Hm & Hd & Hy). rewrite next_day_eq by done.
  assert (Hpos : ∀ y m, 28 ≤ month_days y m) by (intros y m; unfold month_days; repeat case_match; lia).
  destruct (Z.eqb_spec (day r) (month_days (year r) (month r))) as [E|E].
  - destruct (Z.eqb_spec (month r) 12) as [E12|E12].
    + split.
      * unfold days. cbn [year month day]. rewrite before_year_S, E, E12. pose proof (year_days (year r)) as H.
        change (Z.to_nat 12) with 12%nat. change (before_month (year r + 1) (Z.to_nat 1)) with 0.
        change (month_days (year r) 12) with 31. lia.
      * unfold valid. cbn [second minute hour day month year]. pose proof (Hpos (year r + 1) 1). lia.
    + split.
      * unfold days. cbn [year month day]. replace (Z.to_nat (month r + 1)) with (S (Z.to_nat (month r))) by lia.
        rewrite before_month_S, E by lia. rewrite Z2Nat.id by lia. lia.
      * unfold valid. cbn [second minute hour day month year]. pose proof (Hpos (year r) (month r + 1)). lia.
  - unfold days, valid. cbn [second minute hour day month year]. lia.
Qed.

(** Local time is eight hours later. *)
Lemma localize_spec t : let u := mkDate (second t) (minute t) (hour t) (day t) (month t) (year t + 2000) in
  valid u → seconds (localize t) = seconds u + 8 * 3600 ∧ valid (localize t).
Proof.
  intros u Hv. pose proof Hv as (Hs & Hmi & Hh & Hm & Hd & Hy). unfold u in *. cbn [second minute hour day month year] in *.
  unfold localize. cbn [hour]. rewrite Z.geb_leb. destruct (Z.leb_spec 24 (hour t + 8)) as [Hge|Hlt].
  - set (v := set_hour _ _). assert (Eh : (hour t + 8) `mod` 24 = hour t - 16).
    { replace (hour t + 8) with (hour t - 16 + 1 * 24) by lia. rewrite Z.mod_add, Z.mod_small by lia. done. }
    assert (Hvv : valid v) by (unfold valid, v, set_hour; cbn [second minute hour day month year]; rewrite Eh; lia).
    destruct (next_day_days v Hvv) as [Hn Hv']. split; [|done]. unfold seconds. rewrite Hn.
    assert (E : second (next_day v) = second t ∧ minute (next_day v) = minute t ∧ hour (next_day v) = hour t - 16).
    { rewrite next_day_eq by apply Hvv. repeat case_match; cbn; rewrite ?Eh; done. }
    destruct E as (-> & -> & ->). cbn [second minute hour]. change (days v) with (days u). unfold u. lia.
  - split; [unfold seconds, days; cbn [second minute hour day month year]; lia|].
    unfold valid. cbn [second minute hour day month year]. lia.
Qed.

(** ** Decoding *)
Definition bcd (x : Z) : Z := 16 * (x / 10) + x `mod` 10.

Lemma conv_bcd x : 0 ≤ x < 100 → conv (bcd x) = x.
Proof.
  intros H. unfold conv, bcd. rewrite Z.shiftr_div_pow2 by lia. change 15 with (Z.ones 4). rewrite Z.land_ones by lia.
  change (2 ^ 4) with 16. Z.to_euclidean_division_equations. lia.
Qed.

(** ** Reading *)
Section stable.
Context (rtc : nat → Z → Z) (t : rtcdate).
(** What the registers hold does not change while they are read, and at some
    time no update is in progress. *)
Context (Hs : ∀ k, rtc k SECS = second t) (Hm : ∀ k, rtc k MINS = minute t) (Hh : ∀ k, rtc k HOURS = hour t).
Context (Hd : ∀ k, rtc k DAY = day t) (Hmo : ∀ k, rtc k MONTH = month t) (Hy : ∀ k, rtc k YEAR = year t).
Context (n0 : nat) (Hup : ∀ k, (n0 <= k)%nat → Z.land (rtc k CMOS_STATA) CMOS_UIP = 0).

Lemma fill_stable k : fill_rtcdate rtc k = Ok t (k + 6)%nat.
Proof.
  unfold fill_rtcdate, cmos_read, mbind, M_bind, getM, putM, mret, M_ret. cbn -[Nat.add].
  rewrite Hs, Hm, Hh, Hd, Hmo, Hy. destruct t. f_equal. lia.
Qed.

Lemma read_stable_spec fuel : ∀ k, (0 < fuel)%nat → (n0 < k + 6 + fuel)%nat → ∃ k', read_stable rtc fuel k = Ok t k'.
Proof.
  induction fuel as [|fuel IH]; intros k Hf Hk; [lia|]. cbn [read_stable]. unfold mbind at 1, M_bind at 1. rewrite fill_stable.
  unfold mbind at 1, M_bind at 1, cmos_read at 1. unfold mbind at 1 2, M_bind at 1 2, getM, putM, mret at 1, M_ret at 1.
  destruct (Z.eqb_spec (Z.land (rtc (k + 6) CMOS_STATA) CMOS_UIP) 0) as [E|E]; cbn [negb].
  - unfold mbind, M_bind. rewrite fill_stable, bool_decide_true by done. by eexists.
  - apply IH; [|lia]. destruct (decide (n0 <= k + 6)%nat) as [Hle|]; [by rewrite Hup in E|lia].
Qed.

End stable.

(** The date as the registers have it: decimal digits in the halves of a byte,
    unless bit 2 of status register B is set. *)
Definition encode (sb : Z) (x : Z) : Z := if Z.land sb (Z.shiftl 1 2) =? 0 then bcd x else x.

(** C26: [cmostime] is right in every year from 2000 to 2099, across the ends of
    days, months and years and in leap years: when the registers hold the valid
    date [d], in either of their two encodings, and the update that may be in
    progress ends, it returns a valid date that is eight hours later, counted in
    seconds of the Gregorian calendar. *)
Theorem cmostime_correct rtc sb d n0 fuel :
  let u := mkDate (second d) (minute d) (hour d) (day d) (month d) (year d + 2000) in
  valid u → 0 ≤ year d < 100 → rtc O CMOS_STATB = sb →
  (∀ k, rtc k SECS = encode sb (second d)) → (∀ k, rtc k MINS = encode sb (minute d)) →
  (∀ k, rtc k HOURS = encode sb (hour d)) → (∀ k, rtc k DAY = encode sb (day d)) →
  (∀ k, rtc k MONTH = encode sb (month d)) → (∀ k, rtc k YEAR = encode sb (year d)) →
  (∀ k, (n0 <= k)%nat → Z.land (rtc k CMOS_STATA) CMOS_UIP = 0) → (n0 < fuel)%nat →
  ∃ r k, cmostime rtc fuel O = Ok r k ∧ valid r ∧ seconds r = seconds u + 8 * 3600.
Proof.
  intros u Hv Hy Hb H1 H2 H3 H4 H5 H6 Hup Hf. set (e := mkDate (encode sb (second d)) (encode sb (minute d)) (encode sb (hour d))
    (encode sb (day d)) (encode sb (month d)) (encode sb (year d))).
  destruct (read_stable_spec rtc e H1 H2 H3 H4 H5 H6 n0 Hup fuel 1 ltac:(lia) ltac:(lia)) as (k & Hk).
  exists (localize d), k. pose proof (localize_spec d Hv) as [Hsec Hval]. split; [|by split].
  unfold cmostime, mbind at 1, M_bind at 1, cmos_read at 1. unfold mbind at 1 2, M_bind at 1 2, getM, putM, mret at 1, M_ret at 1.
  unfold mbind, M_bind. rewrite Hk, Hb. unfold mret, M_ret. do 2 f_equal.
  destruct Hv as (A1 & A2 & A3 & A4 & A5 & _). cbn [second minute hour day month year u] in *.
  assert (day d < 100) by (unfold month_days in A5; repeat case_match; lia).
  unfold e, encode. destruct (Z.land sb (Z.shiftl 1 2) =? 0); [|by destruct d].
  unfold conv_date. cbn [second minute hour day month year]. rewrite !conv_bcd by lia. by destruct d.
Qed.

(** New Year's Eve 2023, 20:30:15, with an update in progress at the first read. *)
Lemma cmostime_correct_witness :
  let rtc := λ k reg, if reg =? CMOS_STATA then (if (k <? 9)%nat then 128 else 0) else
    if reg =? CMOS_STATB then 2 else if reg =? SECS then 21 else if reg =? MINS then 48 else
    if reg =? HOURS then 32 else if reg =? DAY then 49 else if reg =? MONTH then 18 else 35 in
  ∃ k, cmostime rtc 10 O = Ok (mkDate 15 30 4 1 1 2024) k ∧ seconds (mkDate 15 30 4 1 1 2024) = seconds (mkDate 15 30 20 31 12 2023) + 8 * 3600.
Proof.
  intros rtc. assert (H : ∃ r k, cmostime rtc 10 O = Ok r k ∧ valid r ∧ seconds r = seconds (mkDate 15 30 20 31 12 (23 + 2000)) + 8 * 3600).
  { apply (cmostime_correct rtc 2 (mkDate 15 30 20 31 12 23) 9 10).
    - unfold valid. vm_compute. intuition congruence.
    - cbn. lia.
    - reflexivity.
    - intros k. reflexivity.
    - intros k. reflexivity.
    - intros k. reflexivity.
    - intros k. reflexivity.
    - intros k. reflexivity.
    - intros k. reflexivity.
    - intros k Hk. unfold rtc. rewrite (proj2 (Nat.ltb_ge k 9)) by lia. reflexivity.
    - lia. }
  destruct H as (r & k & Hr & _ & Hs). assert (E : cmostime rtc 10 O = Ok (mkDate 15 30 4 1 1 2024) 21%nat) by (vm_compute; reflexivity).
  rewrite E in Hr. injection Hr as <- <-. exists 21%nat. split; [exact E|exact Hs].
Defined.
