(* ===== verification/Proc.v ===== *)
(** * Processes (proc.c, proc.h)

    The process table over the files, the file system and the page tables. The
    operations that run under [ptable.lock] are functions on the table; the
    whole system calls thread the full state. A pointer to a process is its
    index. The context switch itself is not modelled: [sched] is the point at
    which a run of the current process stops, so [exit] returns at its call of
    [sched], [sleep] is split into what happens before and after it, and
    [wait] is its scan of the table, run again after each wakeup. *)

From S2P Require Import Prelude Cstring Buf Bio Log Fs Pipe Kalloc Vm File.

Definition NPROC : nat := 64.
Definition NOFILE : nat := 16.
Definition KSTACKSIZE : Z := 4096.
Definition PATH_LEN : nat := 256.

Inductive procstate := UNUSED | EMBRYO | SLEEPING | RUNNABLE | RUNNING | ZOMBIE.
#[export] Instance procstate_eq_dec : EqDecision procstate.
Proof. solve_decision. Defined.

(** What processes sleep on: the addresses used as channels. *)
Inductive chan :=
| CProc (p : nat) | CInode (ip : nat) | CBuf (b : nat) | CLog | CPipeR (p : Z) | CPipeW (p : Z)
| CTicks | CInput.
#[export] Instance chan_eq_dec : EqDecision chan.
Proof. solve_decision. Defined.

(** [struct trapframe] of x86.h. *)
Record trapframe := mkTf {
  tf_edi : Z; tf_esi : Z; tf_ebp : Z; tf_oesp : Z; tf_ebx : Z; tf_edx : Z; tf_ecx : Z; tf_eax : Z;
  tf_gs : Z; tf_fs : Z; tf_es : Z; tf_ds : Z; tf_trapno : Z;
  tf_err : Z; tf_eip : Z; tf_cs : Z; tf_eflags : Z; tf_esp : Z; tf_ss : Z;
}.
Definition tf0 : trapframe := mkTf 0 0 0 0 0 0 0 0 0 0 0 0 0 0 0 0 0 0 0.
Definition set_eax (v : Z) (t : trapframe) : trapframe :=
  mkTf (tf_edi t) (tf_esi t) (tf_ebp t) (tf_oesp t) (tf_ebx t) (tf_edx t) (tf_ecx t) v
    (tf_gs t) (tf_fs t) (tf_es t) (tf_ds t) (tf_trapno t)
    (tf_err t) (tf_eip t) (tf_cs t) (tf_eflags t) (tf_esp t) (tf_ss t).

(** [struct proc]. *)
Record proc := mkProc {
  p_sz : Z;
  p_pgdir : Z;
  p_kstack : Z;
  p_state : procstate;
  p_pid : Z;
  p_parent : option nat;
  p_tf : trapframe;
  p_chan : option chan;
  p_killed : bool;
  p_ofile : list (option nat);
  p_cwd : option nat;
  p_name : list Z;
  p_npath : list Z;
  p_alarmticks : Z;
  p_alarmhandler : Z;
  p_curalarmtick : Z;
  p_keyboardHandler : Z;
}.

Definition proc0 : proc :=
  mkProc 0 0 0 UNUSED 0 None tf0 None false (replicate NOFILE None) None (replicate 16 0)
    (replicate PATH_LEN 0) 0 0 0 0.

Definition pset_state (x : procstate) (p : proc) : proc :=
  mkProc (p_sz p) (p_pgdir p) (p_kstack p) x (p_pid p) (p_parent p) (p_tf p) (p_chan p) (p_killed p)
    (p_ofile p) (p_cwd p) (p_name p) (p_npath p) (p_alarmticks p) (p_alarmhandler p) (p_curalarmtick p) (p_keyboardHandler p).
Definition pset_parent (x : option nat) (p : proc) : proc :=
  mkProc (p_sz p) (p_pgdir p) (p_kstack p) (p_state p) (p_pid p) x (p_tf p) (p_chan p) (p_killed p)
    (p_ofile p) (p_cwd p) (p_name p) (p_npath p) (p_alarmticks p) (p_alarmhandler p) (p_curalarmtick p) (p_keyboardHandler p).
Definition pset_pid (x : Z) (p : proc) : proc :=
  mkProc (p_sz p) (p_pgdir p) (p_kstack p) (p_state p) x (p_parent p) (p_tf p) (p_chan p) (p_killed p)
    (p_ofile p) (p_cwd p) (p_name p) (p_npath p) (p_alarmticks p) (p_alarmhandler p) (p_curalarmtick p) (p_keyboardHandler p).
Definition pset_chan (x : option chan) (p : proc) : proc :=
  mkProc (p_sz p) (p_pgdir p) (p_kstack p) (p_state p) (p_pid p) (p_parent p) (p_tf p) x (p_killed p)
    (p_ofile p) (p_cwd p) (p_name p) (p_npath p) (p_alarmticks p) (p_alarmhandler p) (p_curalarmtick p) (p_keyboardHandler p).
Definition pset_killed (x : bool) (p : proc) : proc :=
  mkProc (p_sz p) (p_pgdir p) (p_kstack p) (p_state p) (p_pid p) (p_parent p) (p_tf p) (p_chan p) x
    (p_ofile p) (p_cwd p) (p_name p) (p_npath p) (p_alarmticks p) (p_alarmhandler p) (p_curalarmtick p) (p_keyboardHandler p).
Definition pset_kstack (x : Z) (p : proc) : proc :=
  mkProc (p_sz p) (p_pgdir p) x (p_state p) (p_pid p) (p_parent p) (p_tf p) (p_chan p) (p_killed p)
    (p_ofile p) (p_cwd p) (p_name p) (p_npath p) (p_alarmticks p) (p_alarmhandler p) (p_curalarmtick p) (p_keyboardHandler p).
Definition pset_mem (pgdir sz : Z) (p : proc) : proc :=
  mkProc sz pgdir (p_kstack p) (p_state p) (p_pid p) (p_parent p) (p_tf p) (p_chan p) (p_killed p)
    (p_ofile p) (p_cwd p) (p_name p) (p_npath p) (p_alarmticks p) (p_alarmhandler p) (p_curalarmtick p) (p_keyboardHandler p).
Definition pset_tf (x : trapframe) (p : proc) : proc :=
  mkProc (p_sz p) (p_pgdir p) (p_kstack p) (p_state p) (p_pid p) (p_parent p) x (p_chan p) (p_killed p)
    (p_ofile p) (p_cwd p) (p_name p) (p_npath p) (p_alarmticks p) (p_alarmhandler p) (p_curalarmtick p) (p_keyboardHandler p).
Definition pset_ofile (fd : nat) (x : option nat) (p : proc) : proc :=
  mkProc (p_sz p) (p_pgdir p) (p_kstack p) (p_state p) (p_pid p) (p_parent p) (p_tf p) (p_chan p) (p_killed p)
    (<[fd := x]> (p_ofile p)) (p_cwd p) (p_name p) (p_npath p) (p_alarmticks p) (p_alarmhandler p) (p_curalarmtick p) (p_keyboardHandler p).
Definition pset_cwd (x : option nat) (p : proc) : proc :=
  mkProc (p_sz p) (p_pgdir p) (p_kstack p) (p_state p) (p_pid p) (p_parent p) (p_tf p) (p_chan p) (p_killed p)
    (p_ofile p) x (p_name p) (p_npath p) (p_alarmticks p) (p_alarmhandler p) (p_curalarmtick p) (p_keyboardHandler p).
Definition pset_name (x : list Z) (p : proc) : proc :=
  mkProc (p_sz p) (p_pgdir p) (p_kstack p) (p_state p) (p_pid p) (p_parent p) (p_tf p) (p_chan p) (p_killed p)
    (p_ofile p) (p_cwd p) x (p_npath p) (p_alarmticks p) (p_alarmhandler p) (p_curalarmtick p) (p_keyboardHandler p).
Definition pset_npath (x : list Z) (p : proc) : proc :=
  mkProc (p_sz p) (p_pgdir p) (p_kstack p) (p_state p) (p_pid p) (p_parent p) (p_tf p) (p_chan p) (p_killed p)
    (p_ofile p) (p_cwd p) (p_name p) x (p_alarmticks p) (p_alarmhandler p) (p_curalarmtick p) (p_keyboardHandler p).

(** ** Functions on the table *)
Definition ptable := list proc.

(** The scan of [allocproc]. *)
Fixpoint find_unused (l : list proc) (k : nat) : option nat :=
  match l with
  | [] => None
  | p :: l' => if bool_decide (p_state p = UNUSED) then Some k else find_unused l' (S k)
  end.

Definition wakeup1 (c : chan) (l : list proc) : list proc :=
  (λ p, if bool_decide (p_state p = SLEEPING) && bool_decide (p_chan p = Some c)
        then pset_state RUNNABLE p else p) <$> l.

(** The loop of [exit] that passes children to init; [k] counts the rest. *)
Fixpoint reparent (n k : nat) (me initproc : nat) (l : list proc) : list proc :=
  match n with
  | O => l
  | S n' =>
      let l' :=
        match l !! k with
        | Some p =>
            if bool_decide (p_parent p = Some me) then
              let l1 := <[k := pset_parent (Some initproc) p]> l in
              if bool_decide (p_state p = ZOMBIE) then wakeup1 (CProc initproc) l1 else l1
            else l
        | None => l
        end in
      reparent n' (S k) me initproc l'
  end.

(** The part of [exit] under the lock, up to [sched]. A process without a
    parent wakes nobody: no one sleeps on the null channel. *)
Definition exit_table (me initproc : nat) (l : list proc) : list proc :=
  let l := match p_parent <$> l !! me with Some (Some q) => wakeup1 (CProc q) l | _ => l end in
  let l := reparent (length l) 0 me initproc l in
  alter (pset_state ZOMBIE) me l.

(** The scan of [wait]: a zombie child, or whether there are children. *)
Fixpoint wait_scan (l : list proc) (k me : nat) (havekids : bool) : nat + bool :=
  match l with
  | [] => inr havekids
  | p :: l' =>
      if bool_decide (p_parent p ≠ Some me) then wait_scan l' (S k) me havekids
      else if bool_decide (p_state p = ZOMBIE) then inl k
      else wait_scan l' (S k) me true
  end.

(** The fields that [wait] resets in a zombie it reaps. *)
Definition reap (p : proc) : proc :=
  pset_killed false (pset_name (<[0%nat := 0]> (p_name p))
    (pset_parent None (pset_pid 0 (pset_state UNUSED p)))).

(** [sleep], up to [sched]. *)
Definition sleep_table (me : nat) (c : chan) (l : list proc) : list proc :=
  alter (λ p, pset_state SLEEPING (pset_chan (Some c) p)) me l.
(** [sleep], after [sched] returned. *)
Definition sleep_return (me : nat) (l : list proc) : list proc := alter (pset_chan None) me l.

Definition yield_table (me : nat) (l : list proc) : list proc := alter (pset_state RUNNABLE) me l.

(** The scheduler's choice from index [k] on. *)
Fixpoint sched_next (l : list proc) (k : nat) : option nat :=
  match l with
  | [] => None
  | p :: l' => if bool_decide (p_state p = RUNNABLE) then Some k else sched_next l' (S k)
  end.
Definition scheduler_run (p : nat) (l : list proc) : list proc := alter (pset_state RUNNING) p l.

(** [kill]: the first process with the pid. *)
Fixpoint kill_table (pid : Z) (l : list proc) : list proc * Z :=
  match l with
  | [] => ([], -1)
  | p :: l' =>
      if p_pid p =? pid then
        let p := pset_killed true p in
        ((if bool_decide (p_state p = SLEEPING) then pset_state RUNNABLE p else p) :: l', 0)
      else let '(l'', r) := kill_table pid l' in (p :: l'', r)
  end.

(** ** The system calls *)
Record ps := mkPs { files : ft; procs : list proc; nextpid : Z; initproc : nat }.

#[export] Instance ft_ps : Layer ft ps := {|
  low := files; set_low s t := mkPs s (procs t) (nextpid t) (initproc t);
  low_set := λ s t, eq_refl; set_set_low := λ s s' t, eq_refl;
|}.
#[export] Instance fs_ps : Layer fs ps := {|
  low := λ t, fsys (files t);
  set_low s t := mkPs (mkFt s (ftable (files t)) (pipes (files t)) (km (files t))) (procs t) (nextpid t) (initproc t);
  low_set := λ s t, eq_refl; set_set_low := λ s s' t, eq_refl;
|}.
#[export] Instance kmem_ps : Layer kmem ps := {|
  low := λ t, km (files t);
  set_low s t := mkPs (mkFt (fsys (files t)) (ftable (files t)) (pipes (files t)) s) (procs t) (nextpid t) (initproc t);
  low_set := λ s t, eq_refl; set_set_low := λ s s' t, eq_refl;
|}.

Definition getp (p : nat) : M ps proc := λ s,
  match procs s !! p with Some x => Ok x s | None => Err Undef s end.
Definition updp (p : nat) (f : proc → proc) : M ps unit := λ s,
  match procs s !! p with
  | Some x => Ok tt (mkPs (files s) (<[p := f x]> (procs s)) (nextpid s) (initproc s))
  | None => Err Undef s
  end.
Definition set_procs (f : list proc → list proc) : M ps unit :=
  modify (λ s, mkPs (files s) (f (procs s)) (nextpid s) (initproc s)).

(** The bytes up to the terminator of a string in an array. *)
Fixpoint until_nul (l : list Z) : option (list Z) :=
  match l with
  | [] => None
  | c :: l' => if c =? 0 then Some [] else (cons c) <$> until_nul l'
  end.

(** The bytes that [safestrcpy(s, t, n)] stores for a source string [l]: when
    the whole string fits, its terminator is written twice. *)
Definition safestr (n : nat) (l : list Z) : list Z :=
  if (length l <? n - 1)%nat then l ++ [0; 0] else take (n - 1) l ++ [0].

Section Proc.
Context `{BD : BlockDev} (dsw : devsw) (kend kdata : Z).

(** The trap frame on the new kernel stack is overwritten by both callers
    before it is read, and starts out as zero here. *)
Definition allocproc : M ps (option nat) :=
  l ← gets procs;
  match find_unused l 0 with
  | None => mret None
  | Some p =>
      n ← gets nextpid;
      updp p (λ x, pset_pid n (pset_state EMBRYO x));;
      modify (λ s, mkPs (files s) (procs s) (n + 1) (initproc s));;
      k ← lift kalloc;
      updp p (pset_kstack k);;
      if k =? 0 then
        updp p (pset_state UNUSED);;
        mret None
      else
        updp p (pset_tf tf0);;
        mret (Some p)
  end.

(** SEG_UCODE, SEG_UDATA, DPL_USER and FL_IF of mmu.h. *)
Definition user_cs : Z := Z.lor (Z.shiftl 4 3) 3.
Definition user_ds : Z := Z.lor (Z.shiftl 5 3) 3.
Definition FL_IF : Z := 0x200.

(** [initcode] is the embedded binary. *)
Definition userinit (initcode : list Z) : M ps unit :=
  r ← allocproc;
  p ← deref r;
  modify (λ s, mkPs (files s) (procs s) (nextpid s) p);;
  pgdir ← lift (setupkvm kdata);
  updp p (pset_mem pgdir 0);;
  if pgdir =? 0 then panic "userinit: out of memory?" else
  lift (inituvm pgdir initcode (Z.of_nat (length initcode)));;
  updp p (pset_mem pgdir PGSIZE);;
  updp p (pset_tf (mkTf 0 0 0 0 0 0 0 0 0 0 user_ds user_ds 0 0 0 user_cs FL_IF PGSIZE user_ds));;
  (* "initcode" *)
  updp p (λ x, pset_name (splice 0 (safestr 16 [105; 110; 105; 116; 99; 111; 100; 101]) (p_name x)) x);;
  cwd ← lift (namei dsw 0 [47; 0]);
  updp p (pset_cwd cwd);;
  updp p (λ x, pset_npath (<[2%nat := 0]> (<[0%nat := 126]> (p_npath x))) x);;
  updp p (pset_state RUNNABLE).

Definition growproc (me : nat) (n : Z) : M ps Z :=
  p ← getp me;
  sz ← (if 0 <? n then lift (allocuvm kend (p_pgdir p) (p_sz p) (u32 (p_sz p + n)))
        else if n <? 0 then lift (deallocuvm kend (p_pgdir p) (p_sz p) (u32 (p_sz p + n)))
        else mret (p_sz p));
  if negb (n =? 0) && (sz =? 0) then mret (-1) else
  updp me (λ x, pset_mem (p_pgdir x) sz x);;
  mret 0.

Definition fork (me : nat) : M ps Z :=
  r ← allocproc;
  match r with
  | None => mret (-1)
  | Some np =>
      p ← getp me;
      d ← lift (copyuvm kend kdata (p_pgdir p) (p_sz p));
      updp np (λ x, pset_mem d (p_sz x) x);;
      if d =? 0 then
        x ← getp np;
        lift (kfree kend (p_kstack x));;
        updp np (pset_kstack 0);;
        updp np (pset_state UNUSED);;
        mret (-1)
      else
        updp np (λ x, pset_mem d (p_sz p) x);;
        updp np (pset_parent (Some me));;
        updp np (pset_tf (set_eax 0 (p_tf p)));;
        forM (seq 0 NOFILE) (λ i,
          match p_ofile p !! i with
          | Some (Some f) => g ← lift (filedup f); updp np (pset_ofile i (Some g))
          | _ => mret tt
          end);;
        cwd ← deref (p_cwd p);
        c ← lift (idup cwd);
        updp np (pset_cwd (Some c));;
        path ← deref (until_nul (p_npath p));
        updp np (λ x, pset_npath (splice 0 (path ++ [0]) (p_npath x)) x);;
        x ← getp np;
        updp np (pset_state RUNNABLE);;
        nm ← deref (until_nul (p_name p ++ [0]));
        updp np (λ x, pset_name (splice 0 (safestr 16 nm) (p_name x)) x);;
        mret (p_pid x)
  end.

(** [exit] up to [sched]. *)
Definition exit (me : nat) : M ps unit :=
  ip ← gets initproc;
  if (me =? ip)%nat then panic "init exiting" else
  forM (seq 0 NOFILE) (λ fd,
    p ← getp me;
    match p_ofile p !! fd with
    | Some (Some f) => lift (fileclose kend f);; updp me (pset_ofile fd None)
    | _ => mret tt
    end);;
  p ← getp me;
  cwd ← deref (p_cwd p);
  lift (iput cwd);;
  updp me (pset_cwd None);;
  updp me (λ x, pset_npath (<[0%nat := 0]> (p_npath x)) x);;
  set_procs (exit_table me ip).

(** One round of the loop of [wait]; a round that would sleep puts the process
    to sleep on its own address. *)
Inductive waitend := WaitPid (pid : Z) | WaitNone | WaitSleep.

Definition wait (me : nat) : M ps waitend :=
  l ← gets procs;
  match wait_scan l 0 me false with
  | inl k =>
      z ← getp k;
      lift (kfree kend (p_kstack z));;
      updp k (pset_kstack 0);;
      lift (freevm kend (p_pgdir z));;
      updp k reap;;
      mret (WaitPid (p_pid z))
  | inr havekids =>
      p ← getp me;
      if negb havekids || p_killed p then mret WaitNone else
      set_procs (sleep_table me (CProc me));;
      mret WaitSleep
  end.

Definition kill (pid : Z) : M ps Z := λ s,
  let '(l, r) := kill_table pid (procs s) in Ok r (mkPs (files s) l (nextpid s) (initproc s)).

Definition wakeup (c : chan) : M ps unit := set_procs (wakeup1 c).

End Proc.

(** ** The life of processes

    The operations on the table, each atomic under [ptable.lock], in any order
    and by any processes. [ip] is the index of init. *)
Inductive tstep (ip : nat) (l : list proc) : list proc → Prop :=
| t_alloc k n :
    find_unused l 0 = Some k →
    tstep ip l (alter (λ x, pset_pid n (pset_state EMBRYO x)) k l)
| t_unalloc k p :
    l !! k = Some p → p_state p = EMBRYO → tstep ip l (alter (pset_state UNUSED) k l)
| t_fork me np p x :
    l !! me = Some p → p_state p = RUNNING → l !! np = Some x → p_state x = EMBRYO →
    tstep ip l (alter (pset_state RUNNABLE) np (alter (pset_parent (Some me)) np l))
| t_exit me p :
    l !! me = Some p → p_state p = RUNNING → me ≠ ip → tstep ip l (exit_table me ip l)
| t_reap me p k :
    l !! me = Some p → p_state p = RUNNING → wait_scan l 0 me false = inl k → tstep ip l (alter reap k l)
| t_waitsleep me p :
    l !! me = Some p → p_state p = RUNNING → wait_scan l 0 me false = inr true →
    tstep ip l (sleep_table me (CProc me) l)
| t_sleep me p c :
    l !! me = Some p → p_state p = RUNNING → (∀ q, c ≠ CProc q) → tstep ip l (sleep_table me c l)
| t_return me p :
    l !! me = Some p → p_state p = RUNNING → tstep ip l (sleep_return me l)
| t_wakeup c : tstep ip l (wakeup1 c l)
| t_kill pid : tstep ip l (kill_table pid l).1
| t_yield me p :
    l !! me = Some p → p_state p = RUNNING → tstep ip l (yield_table me l)
| t_run k p :
    l !! k = Some p → p_state p = RUNNABLE → tstep ip l (scheduler_run k l).

(** Init has been set up and is runnable. *)
Definition table0 (ip : nat) : list proc :=
  <[ip := pset_state RUNNABLE (pset_pid 1 proc0)]> (replicate NPROC proc0).

Inductive treach (ip : nat) : list proc → Prop :=
| tr_init : treach ip (table0 ip)
| tr_step l l' : treach ip l → tstep ip l l' → treach ip l'.

Definition in_wait (l : list proc) (q : nat) : Prop :=
  ∃ Q, l !! q = Some Q ∧ p_state Q = SLEEPING ∧ p_chan Q = Some (CProc q).

Record tinv (ip : nat) (l : list proc) : Prop := {
  ti_init : ∀ P, l !! ip = Some P → p_parent P = None ∧ p_state P ≠ UNUSED ∧ p_state P ≠ EMBRYO ∧ p_state P ≠ ZOMBIE;
  ti_self : ∀ c C, l !! c = Some C → p_parent C ≠ Some c;
  ti_wait : ∀ q c C, in_wait l q → l !! c = Some C → p_parent C = Some q → p_state C ≠ ZOMBIE;
}.

(** A step that changes one process. *)
Lemma tinv_alter ip l k p f :
  tinv ip l → l !! k = Some p →
  (k = ip → p_parent (f p) = None ∧ p_state (f p) ≠ UNUSED ∧ p_state (f p) ≠ EMBRYO ∧ p_state (f p) ≠ ZOMBIE) →
  p_parent (f p) ≠ Some k →
  (in_wait (alter f k l) k → ∀ c C, c ≠ k → l !! c = Some C → p_parent C = Some k → p_state C ≠ ZOMBIE) →
  (p_state (f p) = ZOMBIE → ∀ q, p_parent (f p) = Some q → in_wait l q → False) →
  tinv ip (alter f k l).
Proof.
  intros [Hi Hs Hw] Hk H1 H2 H3 H4.
  assert (Hlook : ∀ c C, alter f k l !! c = Some C → (c = k ∧ C = f p) ∨ (c ≠ k ∧ l !! c = Some C)).
  { intros c C. rewrite lookup_alter_if. case_decide as E; [|naive_solver].
    subst. rewrite Hk. simpl. intros [= <-]. by left. }
  constructor.
  - intros P [[<- ->]|[Hne HP]]%Hlook; auto.
  - intros c C [[-> ->]|[Hne HC]]%Hlook; [done|]. by apply (Hs c).
  - intros q c C Hin HC Hpar.
    destruct (decide (q = k)) as [->|Hq].
    + apply Hlook in HC as [[-> ->]|[Hc HC]]; [done|]. eauto.
    + assert (in_wait l q) as Hin'.
      { destruct Hin as (Q & HQ & Hst & Hch). apply Hlook in HQ as [[-> _]|[_ HQ]]; [done|]. by exists Q. }
      apply Hlook in HC as [[-> ->]|[Hc HC]]; [|eauto]. intros Hz. eauto.
Qed.

Lemma wakeup1_lookup c l k P' :
  wakeup1 c l !! k = Some P' → ∃ P, l !! k = Some P ∧ p_parent P' = p_parent P ∧ p_chan P' = p_chan P ∧
    (P' = P ∧ ¬ (p_state P = SLEEPING ∧ p_chan P = Some c) ∨ p_state P = SLEEPING ∧ p_state P' = RUNNABLE).
Proof.
  unfold wakeup1. rewrite list_lookup_fmap. intros (P & HP & ->)%fmap_Some. exists P. split; [done|].
  do 2 case_bool_decide; simpl; naive_solver.
Qed.

(** Nobody is asleep on a channel that was just woken. *)
Lemma wakeup1_wait c l q : in_wait (wakeup1 c l) q → in_wait l q ∧ c ≠ CProc q.
Proof.
  intros (Q & HQ & Hs & Hc). apply wakeup1_lookup in HQ as (P & HP & _ & Hch & [[-> Hno]|[_ ?]]); [|congruence].
  split; [by exists P|]. intros ->. apply Hno. done.
Qed.

(** A table in which some sleepers have been made runnable. *)
Definition woken (P P' : proc) : Prop :=
  p_parent P' = p_parent P ∧ p_chan P' = p_chan P ∧
  (p_state P' = p_state P ∨ p_state P = SLEEPING ∧ p_state P' = RUNNABLE).
Definition table_woken (l l' : list proc) : Prop :=
  ∀ k P', l' !! k = Some P' → ∃ P, l !! k = Some P ∧ woken P P'.

Lemma in_wait_woken l l' q : table_woken l l' → in_wait l' q → in_wait l q.
Proof.
  intros Hw (Q' & (Q & HQ & _ & Hc & Hst)%Hw & Hs & Hch). exists Q. split; [done|].
  destruct Hst as [?|[_ ?]]; split; congruence.
Qed.

Lemma tinv_woken ip l l' : table_woken l l' → tinv ip l → tinv ip l'.
Proof.
  intros Hwk [Hi Hs Hw]. constructor.
  - intros P' (P & HP & Hpar & _ & Hst)%Hwk. destruct (Hi P HP) as (?&?&?&?). rewrite Hpar.
    destruct Hst as [->|[_ ->]]; done.
  - intros k C' (C & HC & -> & _)%Hwk. by apply (Hs k).
  - intros q k C' Hq (C & HC & Hpar & _ & Hst)%Hwk Hp. rewrite Hpar in Hp.
    destruct Hst as [->|[_ ->]]; [|done]. eauto using in_wait_woken.
Qed.

Lemma wakeup1_woken c l : table_woken l (wakeup1 c l).
Proof.
  intros k P' (P & HP & Hpar & Hch & Hst)%wakeup1_lookup. exists P. split; [done|].
  split; [done|]. split; [done|]. destruct Hst as [[-> _]|[? ?]]; auto.
Qed.

Lemma kill_woken pid l : table_woken l (kill_table pid l).1.
Proof.
  induction l as [|p l IH]; [by intros k P'|]. intros k P'. simpl.
  destruct (p_pid p =? pid).
  - simpl. destruct k as [|k]; simpl; [|intros ?; exists P'; repeat split; auto].
    intros [= <-]. exists p. split; [done|]. unfold woken. case_bool_decide; simpl; auto.
  - destruct (kill_table pid l) as [l' r] eqn:E. simpl in *.
    destruct k as [|k]; simpl; [intros [= <-]; exists p; repeat split; auto|apply IH].
Qed.

(** One round of the loop of [exit] over its children. *)
Definition adopt (me ip k : nat) (l : list proc) : list proc :=
  match l !! k with
  | Some p =>
      if bool_decide (p_parent p = Some me) then
        let l1 := <[k := pset_parent (Some ip) p]> l in
        if bool_decide (p_state p = ZOMBIE) then wakeup1 (CProc ip) l1 else l1
      else l
  | None => l
  end.

Lemma reparent_adopt n k me ip l : reparent (S n) k me ip l = reparent n (S k) me ip (adopt me ip k l).
Proof. done. Qed.

Lemma insert_alter_lookup {A} (f : A → A) (l : list A) k p : l !! k = Some p → <[k := f p]> l = alter f k l.
Proof.
  intros Hk. apply list_eq. intros j. rewrite lookup_alter_if.
  case_decide as E; [subst; rewrite list_lookup_insert_eq by eauto using lookup_lt_Some; by rewrite Hk|].
  by rewrite list_lookup_insert_ne.
Qed.

Lemma wakeup1_alter_parent c x k l :
  wakeup1 c (alter (pset_parent x) k l) = alter (pset_parent x) k (wakeup1 c l).
Proof.
  unfold wakeup1. apply list_eq. intros j. rewrite list_lookup_fmap, !lookup_alter_if, list_lookup_fmap.
  case_decide; [|done]. destruct (l !! j) as [p|]; simpl; [|done].
  by destruct (bool_decide _ && bool_decide _).
Qed.

Lemma tinv_adopted ip l k p :
  tinv ip l → l !! k = Some p → p_parent p ≠ None → (p_state p = ZOMBIE → ¬ in_wait l ip) →
  tinv ip (alter (pset_parent (Some ip)) k l).
Proof.
  intros Hinv Hk Hpar Hz. assert (k ≠ ip).
  { intros ->. by destruct (ti_init _ _ Hinv p Hk) as [? _]. }
  apply (tinv_alter _ _ _ p); [done..| | | ]; simpl.
  - congruence.
  - intros (Q & HQ & Hst & Hch) c C Hc HC Hp. revert HQ. rewrite lookup_alter_if, decide_True, Hk by done.
    simpl. intros [= <-]. eapply (ti_wait _ _ Hinv); eauto. by exists p.
  - intros Hzs q [= <-]. by apply Hz.
Qed.

Lemma adopt_spec me ip k l :
  tinv ip l →
  tinv ip (adopt me ip k l) ∧ (∀ q, in_wait (adopt me ip k l) q → in_wait l q) ∧
  (∀ P, l !! me = Some P → p_state P = RUNNING →
    ∃ P', adopt me ip k l !! me = Some P' ∧ p_state P' = RUNNING ∧ p_parent P' = p_parent P).
Proof.
  intros Hinv. unfold adopt. destruct (l !! k) as [p|] eqn:Hk; [|eauto 10].
  case_bool_decide as Hpar; [|eauto 10].
  assert (Hme : k ≠ me) by (intros ->; by apply (ti_self _ _ Hinv me p Hk)).
  assert (Hin : ∀ l0 q, in_wait (alter (pset_parent (Some ip)) k l0) q → in_wait l0 q).
  { intros l0 q (Q & HQ & Hst & Hch). revert HQ. rewrite lookup_alter_if. case_decide; [|by exists Q].
    intros (Q0 & HQ0 & ->)%fmap_Some. by exists Q0. }
  rewrite (insert_alter_lookup (pset_parent (Some ip)) l k p Hk).
  assert (Hrun : ∀ P, l !! me = Some P → p_state P = RUNNING → wakeup1 (CProc ip) l !! me = Some P).
  { intros P HP Hst. unfold wakeup1. rewrite list_lookup_fmap, HP. simpl. by rewrite Hst. }
  case_bool_decide as Hz.
  - rewrite wakeup1_alter_parent. split; [|split].
    + pose proof (tinv_woken ip l _ (wakeup1_woken (CProc ip) l) Hinv) as Hinv'.
      assert (Hk' : wakeup1 (CProc ip) l !! k = Some p).
      { unfold wakeup1. rewrite list_lookup_fmap, Hk. simpl. by rewrite Hz. }
      apply (tinv_adopted ip _ k p); [done..|congruence|].
      by intros _ [_ ?]%wakeup1_wait.
    + intros q ?%Hin. eapply in_wait_woken; [apply wakeup1_woken|done].
    + intros P HP Hst. exists P. rewrite lookup_alter_if, decide_False by done. eauto.
  - split; [apply (tinv_adopted ip _ k p); [done..|congruence|done]|]. split; [by intros; apply Hin|].
    intros P HP Hst. exists P. by rewrite lookup_alter_if, decide_False by done.
Qed.

Lemma reparent_spec me ip n : ∀ k l,
  tinv ip l →
  tinv ip (reparent n k me ip l) ∧ (∀ q, in_wait (reparent n k me ip l) q → in_wait l q) ∧
  (∀ P, l !! me = Some P → p_state P = RUNNING →
    ∃ P', reparent n k me ip l !! me = Some P' ∧ p_state P' = RUNNING ∧ p_parent P' = p_parent P).
Proof.
  induction n as [|n IH]; intros k l Hinv; [simpl; eauto 10|]. rewrite reparent_adopt.
  destruct (adopt_spec me ip k l Hinv) as (H1 & H2 & H3).
  destruct (IH (S k) _ H1) as (J1 & J2 & J3). split; [done|]. split; [eauto|].
  intros P HP Hst. destruct (H3 P HP Hst) as (P1 & HP1 & Hs1 & Hp1).
  destruct (J3 P1 HP1 Hs1) as (P2 & HP2 & Hs2 & Hp2). exists P2. by rewrite Hp2.
Qed.

(** [exit]: the parent is awake by the time the process becomes a zombie. *)
Lemma tinv_exit ip l me p :
  tinv ip l → l !! me = Some p → p_state p = RUNNING → me ≠ ip → tinv ip (exit_table me ip l).
Proof.
  intros Hinv Hme Hrun Hip. unfold exit_table. rewrite Hme. simpl.
  set (l1 := match p_parent p with Some q => _ | None => _ end).
  assert (Hwk : table_woken l l1 ∧ l1 !! me = Some p ∧ ∀ q, p_parent p = Some q → ¬ in_wait l1 q).
  { subst l1. destruct (p_parent p) as [q|].
    - split; [apply wakeup1_woken|]. split; [unfold wakeup1; by rewrite list_lookup_fmap, Hme; simpl; rewrite Hrun|].
      by intros ? [= <-] [_ ?]%wakeup1_wait.
    - split; [|done]. intros k P HP. exists P. repeat split; auto. }
  destruct Hwk as (Hwk & Hme1 & Hno).
  destruct (reparent_spec me ip (length l1) 0 l1 (tinv_woken _ _ _ Hwk Hinv)) as (H1 & H2 & H3).
  destruct (H3 p Hme1 Hrun) as (P' & HP' & Hs' & Hp').
  apply (tinv_alter _ _ _ P'); [done..| | | ]; simpl.
  - rewrite Hp'. by apply (ti_self _ _ Hinv me p).
  - intros (Q & HQ & Hst & _). revert HQ. rewrite lookup_alter_if, decide_True, HP' by done.
    by intros [= <-].
  - intros _ q Hq Hin. rewrite Hp' in Hq. eapply Hno; eauto.
Qed.

(** The scan of [wait] finds a zombie child exactly when there is one. *)
Lemma wait_scan_spec l : ∀ k me b,
  match wait_scan l k me b with
  | inl j => ∃ i p, j = (k + i)%nat ∧ l !! i = Some p ∧ p_parent p = Some me ∧ p_state p = ZOMBIE ∧
      ∀ i' p', (i' < i)%nat → l !! i' = Some p' → p_parent p' = Some me → p_state p' ≠ ZOMBIE
  | inr b' => (∀ i p, l !! i = Some p → p_parent p = Some me → p_state p ≠ ZOMBIE) ∧
      (b' = true ↔ b = true ∨ ∃ i p, l !! i = Some p ∧ p_parent p = Some me)
  end.
Proof.
  induction l as [|p l IH]; intros k me b; simpl.
  { split; [done|]. split; [auto|]. by intros [?|(? & ? & ? & _)]. }
  case_bool_decide as Hpar; [|case_bool_decide as Hz].
  - specialize (IH (S k) me b). destruct (wait_scan l (S k) me b) as [j|b'].
    + destruct IH as (i & q & -> & Hi & Hq & Hz & Hmin). exists (S i), q. split; [lia|].
      repeat (split; [done|]). intros [|i'] p' Hlt Hp'; simpl in Hp'; [congruence|]. apply Hmin with i'; [lia|done].
    + destruct IH as [H1 H2]. split.
      * intros [|i] q; simpl; [congruence|apply H1].
      * rewrite H2. split; (intros [?|(i & q & Hi & Hq)]; [by left|right]); [by exists (S i), q|].
        destruct i as [|i]; simpl in Hi; [congruence|by exists i, q].
  - exists 0%nat, p. split; [lia|]. repeat (split; [done|]). intros; lia.
  - specialize (IH (S k) me true). destruct (wait_scan l (S k) me true) as [j|b'].
    + destruct IH as (i & q & -> & Hi & Hq & Hz' & Hmin). exists (S i), q. split; [lia|].
      repeat (split; [done|]). intros [|i'] p' Hlt Hp'; simpl in Hp'; [congruence|]. apply Hmin with i'; [lia|done].
    + destruct IH as [H1 H2]. split.
      * intros [|i] q; simpl; [congruence|apply H1].
      * rewrite H2. split; [intros _; right; by exists 0%nat, p|by left].
Qed.

Lemma find_unused_spec l : ∀ k j, find_unused l k = Some j → ∃ i p, j = (k + i)%nat ∧ l !! i = Some p ∧ p_state p = UNUSED.
Proof.
  induction l as [|p l IH]; intros k j; simpl; [done|]. case_bool_decide as H.
  - intros [= <-]. exists 0%nat, p. split; [lia|done].
  - intros (i & q & -> & ? & ?)%IH. exists (S i), q. split; [lia|done].
Qed.

(** A step of one live process that leaves it awake and not a zombie. *)
Lemma tinv_alter_awake ip l k p f :
  tinv ip l → l !! k = Some p → p_parent (f p) = p_parent p →
  (p_state (f p) = RUNNING ∨ p_state (f p) = RUNNABLE) →
  tinv ip (alter f k l).
Proof.
  intros Hinv Hk Hpar Hst. apply (tinv_alter _ _ _ p); [done..| | | | ]; rewrite ?Hpar.
  - intros ->. destruct (ti_init _ _ Hinv p Hk) as [? _]. destruct Hst as [->| ->]; done.
  - by apply (ti_self _ _ Hinv k p).
  - intros (Q & HQ & Hs & _). revert HQ. rewrite lookup_alter_if, decide_True, Hk by done.
    intros [= <-]. destruct Hst; congruence.
  - destruct Hst; congruence.
Qed.

Lemma tinv_sleep ip l me p c :
  tinv ip l → l !! me = Some p →  p_state p = RUNNING →
  (c = CProc me → ∀ i C, l !! i = Some C → p_parent C = Some me → p_state C ≠ ZOMBIE) →
  tinv ip (sleep_table me c l).
Proof.
  intros Hinv Hme Hrun Hc. apply (tinv_alter _ _ _ p); [done..| | | | ]; simpl.
  - intros ->. by destruct (ti_init _ _ Hinv p Hme) as [? _].
  - by apply (ti_self _ _ Hinv me p).
  - intros (Q & HQ & _ & Hch) i C _ HC. revert HQ. rewrite lookup_alter_if, decide_True, Hme by done.
    intros [= <-]. simpl in Hch. simplify_eq. by apply (Hc eq_refl i).
  - done.
Qed.

Lemma tinv_step ip l l' : tinv ip l → tstep ip l l' → tinv ip l'.
Proof.
  intros Hinv Hstep.
  assert (Hip : ∀ k p, l !! k = Some p → p_state p = UNUSED ∨ p_state p = EMBRYO ∨ p_state p = ZOMBIE → k ≠ ip).
  { intros k p Hk Hs ->. destruct (ti_init _ _ Hinv p Hk) as (_&?&?&?). naive_solver. }
  destruct Hstep as [k n Hk|k p Hk Hs|me np p x Hme Hr Hnp Hx|me p Hme Hr Hne|me p k Hme Hr Hscan|
    me p Hme Hr Hscan|me p c Hme Hr Hc|me p Hme Hr|c|pid|me p Hme Hr|k p Hk Hs].
  - apply find_unused_spec in Hk as (i & p & -> & Hi & Hs). simpl.
    apply (tinv_alter _ _ _ p); [done..| | | |]; simpl; [|by apply (ti_self _ _ Hinv i p)| |done].
    + intros ->. by destruct (Hip _ _ Hi (or_introl Hs)).
    + intros (Q & HQ & Hst & _). revert HQ. rewrite lookup_alter_if, decide_True, Hi by done. by intros [= <-].
  - apply (tinv_alter _ _ _ p); [done..| | | |]; simpl; [|by apply (ti_self _ _ Hinv k p)| |done].
    + intros ->. by destruct (Hip _ _ Hk (or_intror (or_introl Hs))).
    + intros (Q & HQ & Hst & _). revert HQ. rewrite lookup_alter_if, decide_True, Hk by done. by intros [= <-].
  - rewrite list_alter_alter_eq.
    apply (tinv_alter _ _ _ x); [done..| | | |]; simpl; [|congruence| |done].
    + intros ->. by destruct (Hip _ _ Hnp (or_intror (or_introl Hx))).
    + intros (Q & HQ & Hst & _). revert HQ. rewrite lookup_alter_if, decide_True, Hnp by done. by intros [= <-].
  - by apply (tinv_exit _ _ _ p).
  - pose proof (wait_scan_spec l 0 me false) as Hw. rewrite Hscan in Hw.
    destruct Hw as (i & q & -> & Hi & Hq & Hz & _). simpl.
    apply (tinv_alter _ _ _ q); [done..| | | |]; simpl; [|done| |done].
    + intros ->. by destruct (Hip _ _ Hi (or_intror (or_intror Hz))).
    + intros (Q & HQ & Hst & _). revert HQ. rewrite lookup_alter_if, decide_True, Hi by done. by intros [= <-].
  - pose proof (wait_scan_spec l 0 me false) as Hw. rewrite Hscan in Hw. destruct Hw as [Hw _].
    by apply (tinv_sleep _ _ _ p).
  - apply (tinv_sleep _ _ _ p); [done..|]. intros ->. by destruct (Hc me).
  - apply (tinv_alter_awake _ _ _ p); [done..|]. by left.
  - apply (tinv_woken _ l); [apply wakeup1_woken|done].
  - apply (tinv_woken _ l); [apply kill_woken|done].
  - apply (tinv_alter_awake _ _ _ p); [done..|]. by right.
  - apply (tinv_alter_awake _ _ _ p); [done..|]. by left.
Qed.

Lemma tinv_table0 ip : (ip < NPROC)%nat → tinv ip (table0 ip).
Proof.
  intros Hip.
  assert (Hl : ∀ c C, table0 ip !! c = Some C → p_parent C = None ∧ p_state C ≠ ZOMBIE ∧ p_chan C = None ∧ (c = ip → p_state C = RUNNABLE)).
  { intros c C HC. unfold table0 in HC. destruct (decide (c = ip)) as [->|Hne].
    - rewrite list_lookup_insert_eq in HC by (rewrite length_replicate; done). by simplify_eq.
    - rewrite list_lookup_insert_ne in HC by done. apply lookup_replicate in HC as [-> _]. done. }
  constructor.
  - intros P (-> & ? & _ & Hr)%Hl. by rewrite Hr.
  - intros c C (-> & _)%Hl. done.
  - intros q c C _ (-> & _)%Hl. done.
Qed.

(** C17: No wakeup is lost between [exit] and [wait]: in every process table
    that the operations of proc.c can produce from the boot-time table, in any
    order and by any processes, a process that sleeps in [wait] has no zombie
    child (the child would never be reaped), nobody is its own parent, and the
    process that orphans are given to is there to reap them. *)
Theorem wait_no_lost_wakeup ip l :
  (ip < NPROC)%nat → treach ip l →
  (∀ q c C, in_wait l q → l !! c = Some C → p_parent C = Some q → p_state C ≠ ZOMBIE) ∧
  (∀ c C, l !! c = Some C → p_parent C ≠ Some c) ∧
  (∀ P, l !! ip = Some P → p_state P ≠ ZOMBIE ∧ p_state P ≠ UNUSED).
Proof.
  intros Hip Hr. assert (tinv ip l) as [Hi Hs Hw].
  { induction Hr; [by apply tinv_table0|]. by eapply tinv_step. }
  split; [done|]. split; [done|]. intros P HP. by destruct (Hi P HP) as (_ & ? & _ & ?).
Qed.

(** Init runs, forks a child and waits; the child runs and exits. *)
Lemma wait_no_lost_wakeup_witness :
  ∃ l, treach 0 l ∧ (p_state <$> l !! 0%nat = Some RUNNABLE) ∧ (p_state <$> l !! 1%nat = Some ZOMBIE) ∧
    (∀ q c C, in_wait l q → l !! c = Some C → p_parent C = Some q → p_state C ≠ ZOMBIE).
Proof.
  assert (H0 : treach 0 (table0 0)) by constructor.
  assert (H1 : treach 0 (scheduler_run 0 (table0 0))) by (eapply tr_step; [exact H0|eapply t_run; reflexivity]).
  set (l1 := scheduler_run 0 (table0 0)) in *.
  assert (H2 : treach 0 (alter (λ x, pset_pid 2 (pset_state EMBRYO x)) 1%nat l1)).
  { eapply tr_step; [exact H1|]. apply t_alloc. vm_compute. reflexivity. }
  set (l2 := alter _ 1%nat l1) in *.
  assert (H3 : treach 0 (alter (pset_state RUNNABLE) 1%nat (alter (pset_parent (Some 0%nat)) 1%nat l2))).
  { eapply tr_step; [exact H2|]. eapply t_fork; reflexivity. }
  set (l3 := alter _ 1%nat (alter _ 1%nat l2)) in *.
  assert (H4 : treach 0 (sleep_table 0 (CProc 0) l3)).
  { eapply tr_step; [exact H3|]. eapply t_waitsleep; [reflexivity..|]. vm_compute. reflexivity. }
  set (l4 := sleep_table 0 (CProc 0) l3) in *.
  assert (H5 : treach 0 (scheduler_run 1 l4)).
  { eapply tr_step; [exact H4|]. eapply t_run; reflexivity. }
  set (l5 := scheduler_run 1 l4) in *.
  assert (H6 : treach 0 (exit_table 1 0 l5)).
  { eapply tr_step; [exact H5|]. eapply t_exit; [reflexivity..|lia]. }
  exists (exit_table 1 0 l5). split; [exact H6|]. split; [vm_compute; reflexivity|].
  split; [vm_compute; reflexivity|].
  apply (wait_no_lost_wakeup 0 (exit_table 1 0 l5)); [unfold NPROC; lia|exact H6].
Defined.
