(* ===== verification/Sched.v ===== *)
(** * The scheduler (scheduler of proc.c)

    Any number of processors run the loop of the scheduler over one process
    table. The lock of the table is held by the processor that goes over it; a
    process that runs works without it, and takes it for each of its steps on
    the table ([tstep] of [Proc.v]) and to give the processor back. *)

From Stdlib Require Import Sorted.
From S2P Require Import Prelude Buf Bio Log Fs Pipe Kalloc Vm File Proc.

(** Where a processor is: at the head of the endless loop, behind sti, at entry
    [k] of the table, or behind the switch to process [k]. *)
Inductive phase := Top | Ready | Scan (k : nat) | Run (k : nat).
#[export] Instance phase_eq_dec : EqDecision phase.
Proof. solve_decision. Defined.

(** A processor: its variable proc, the process whose page table is in cr3 (the
    kernel's own is [None]) and, while the scheduler has it, its interrupt flag. *)
Record scpu := mkScpu { c_phase : phase; c_proc : option nat; c_space : option nat; c_if : bool }.
Record smach := mkSmach { ptab : list proc; scpus : list scpu }.

(** The lock of the table is free. *)
Definition table_free (cs : list scpu) : Prop := ∀ j c k, cs !! j = Some c → c_phase c ≠ Scan k.

(** A process has given its processor back when it is not running any more: then
    the scheduler goes on, with the lock held. *)
Definition switch_back (l : list proc) (c : scpu) : scpu :=
  match c_phase c with
  | Run k =>
      if decide (p_state <$> l !! k = Some RUNNING) then c else mkScpu (Scan (S k)) None None false
  | _ => c
  end.

(** No process starts to run: the step is not a switch. *)
Definition no_switch (l l' : list proc) : Prop :=
  ∀ q p', l' !! q = Some p' → p_state p' = RUNNING → ∃ p, l !! q = Some p ∧ p_state p = RUNNING.

(** The steps, each with the choice of a process by a processor that it makes.
    What cpu->intena is at the release behind the loop depends on the processes
    that have run. *)
Inductive sstep (ip : nat) (m : smach) : list (nat * nat) → smach → Prop :=
| s_sti i c :
    scpus m !! i = Some c → c_phase c = Top →
    sstep ip m [] (mkSmach (ptab m) (<[i := mkScpu Ready (c_proc c) (c_space c) true]> (scpus m)))
| s_acquire i c :
    scpus m !! i = Some c → c_phase c = Ready → table_free (scpus m) →
    sstep ip m [] (mkSmach (ptab m) (<[i := mkScpu (Scan 0) (c_proc c) (c_space c) false]> (scpus m)))
| s_skip i c k p :
    scpus m !! i = Some c → c_phase c = Scan k → ptab m !! k = Some p → p_state p ≠ RUNNABLE →
    sstep ip m [] (mkSmach (ptab m) (<[i := mkScpu (Scan (S k)) (c_proc c) (c_space c) (c_if c)]> (scpus m)))
| s_switch i c k p :
    scpus m !! i = Some c → c_phase c = Scan k → ptab m !! k = Some p → p_state p = RUNNABLE →
    sstep ip m [(i, k)] (mkSmach (scheduler_run k (ptab m)) (<[i := mkScpu (Run k) (Some k) (Some k) (c_if c)]> (scpus m)))
| s_release i c k intena :
    scpus m !! i = Some c → c_phase c = Scan k → (length (ptab m) <= k)%nat →
    sstep ip m [] (mkSmach (ptab m) (<[i := mkScpu Top (c_proc c) (c_space c) intena]> (scpus m)))
| s_proc l :
    table_free (scpus m) → tstep ip (ptab m) l → no_switch (ptab m) l →
    sstep ip m [] (mkSmach l (switch_back l <$> scpus m)).

Definition cpu0 : scpu := mkScpu Top None None false.
Inductive sreach (ip n : nat) : smach → Prop :=
| sr_init : sreach ip n (mkSmach (table0 ip) (replicate n cpu0))
| sr_step m e m' : sreach ip n m → sstep ip m e m' → sreach ip n m'.

(** What all processors and processes do until processor [i] is at the head of
    its loop again, with the choices in their order. *)
Inductive pass (ip i : nat) : smach → list (nat * nat) → smach → Prop :=
| pass_done m c : scpus m !! i = Some c → c_phase c = Top → pass ip i m [] m
| pass_step m c e m1 t m' :
    scpus m !! i = Some c → c_phase c ≠ Top → sstep ip m e m1 → pass ip i m1 t m' → pass ip i m (e ++ t) m'.

(** The choices of processor [i]. *)
Definition own (i : nat) (t : list (nat * nat)) : list nat := (filter (λ x, x.1 = i) t).*2.

(** ** What a step on the table leaves alone *)

Definition InState (st : procstate) (l : list proc) (q : nat) : Prop := ∃ p, l !! q = Some p ∧ p_state p = st.
Definition Runnable : list proc → nat → Prop := InState RUNNABLE.

Lemma instate_alter st f k q l : (k = q → ∀ p, p_state (f p) = p_state p) → InState st l q → InState st (alter f k l) q.
Proof.
  intros Hf (p & Hp & Hs). destruct (decide (k = q)) as [-> |Hne].
  - exists (f p). rewrite list_lookup_alter_eq, Hp. split; [done|]. by rewrite Hf.
  - exists p. by rewrite list_lookup_alter_ne.
Qed.

Lemma instate_ne st l q k p : InState st l q → l !! k = Some p → p_state p ≠ st → k ≠ q.
Proof. intros (p' & Hp' & Hs) Hk Hne ->. congruence. Qed.

Section keeps.
Context (st : procstate) (Hst : st ≠ SLEEPING).

Lemma instate_wakeup1 c l q : InState st l q → InState st (wakeup1 c l) q.
Proof.
  intros (p & Hp & <-). exists p. unfold wakeup1. rewrite list_lookup_fmap, Hp. cbn.
  by rewrite (bool_decide_eq_false_2 (p_state p = SLEEPING)).
Qed.

Lemma instate_kill pid l : ∀ q, InState st l q → InState st (kill_table pid l).1 q.
Proof.
  induction l as [|x l IH]; intros q (p & Hp & Hs); [done|]. cbn [kill_table]. destruct (p_pid x =? pid).
  - destruct q as [|q]; [|by exists p]. injection Hp as ->. eexists. split; [done|]. cbn.
    by rewrite (bool_decide_eq_false_2 (p_state p = SLEEPING)) by congruence.
  - destruct (kill_table pid l) as [l' r] eqn:E. destruct q as [|q]; [by exists p|]. apply (IH q). by exists p.
Qed.

Lemma instate_reparent me ip q n : ∀ k l, InState st l q → InState st (reparent n k me ip l) q.
Proof.
  induction n as [|n IH]; intros k l Hq; [done|]. rewrite reparent_adopt. apply IH. unfold adopt. destruct (l !! k) as [p|] eqn:Hk; [|done].
  case_bool_decide; [|done]. rewrite (insert_alter_lookup (pset_parent (Some ip)) l k p Hk).
  assert (Ha : InState st (alter (pset_parent (Some ip)) k l) q) by by apply instate_alter. case_bool_decide; [by apply instate_wakeup1|done].
Qed.

Lemma instate_exit me ip l q : me ≠ q → InState st l q → InState st (exit_table me ip l) q.
Proof.
  intros Hne Hq. unfold exit_table. apply instate_alter; [done|]. apply instate_reparent.
  destruct (p_parent <$> l !! me) as [[|]|]; try done. by apply instate_wakeup1.
Qed.
End keeps.

(** A step changes the state of one process, and wakes sleepers; a process that
    waits for a processor gets it or waits on. *)
Lemma tstep_one ip l l' : tstep ip l l' →
  ∃ k, (∀ st q, st ≠ SLEEPING → q ≠ k → InState st l q → InState st l' q) ∧
    (Runnable l k → Runnable l' k ∨ l' = scheduler_run k l).
Proof.
  assert (Hone : ∀ k p f, l !! k = Some p → p_state p ≠ RUNNABLE → l' = alter f k l →
    ∃ k, (∀ st q, st ≠ SLEEPING → q ≠ k → InState st l q → InState st l' q) ∧ (Runnable l k → Runnable l' k ∨ l' = scheduler_run k l)).
  { intros k p f Hk Hs ->. exists k. split; [intros st q _ Hq; by apply instate_alter|]. intros Hr. by destruct (instate_ne _ _ _ _ _ Hr Hk Hs). }
  assert (Hall : ∀ k : nat, (∀ st q, st ≠ SLEEPING → InState st l q → InState st l' q) →
    ∃ k, (∀ st q, st ≠ SLEEPING → q ≠ k → InState st l q → InState st l' q) ∧ (Runnable l k → Runnable l' k ∨ l' = scheduler_run k l)).
  { intros k H. exists k. split; [intros st q ? _; by apply H|]. intros Hr. left. by apply H. }
  intros Ht. destruct Ht as [k n Hf|k p Hk Hs|me np p x Hp Hs Hx Hxs|me p Hp Hs Hip|me p k Hp Hs Hw|me p Hp Hs Hw|me p c Hp Hs Hc|me p Hp Hs|c|pid|me p Hp Hs|k p Hk Hs].
  - apply find_unused_spec in Hf as (i & p & -> & Hp & Hs). eapply (Hone i); [exact Hp|congruence|]. by rewrite Nat.add_0_l.
  - eapply Hone; [exact Hk|congruence|done].
  - exists np. split; [intros st q _ Hq Hi; by do 2 (apply instate_alter; [done|])|]. intros Hr.
    destruct (instate_ne _ _ _ _ _ Hr Hx); [congruence|done].
  - exists me. split; [intros st q Hst Hq; by apply instate_exit|]. intros Hr. destruct (instate_ne _ _ _ _ _ Hr Hp); [congruence|done].
  - pose proof (wait_scan_spec l 0 me false) as H. rewrite Hw in H. destruct H as (i & z & -> & Hz & _ & Hzs & _).
    eapply (Hone i); [exact Hz|congruence|]. by rewrite Nat.add_0_l.
  - eapply Hone; [exact Hp|congruence|reflexivity].
  - eapply Hone; [exact Hp|congruence|reflexivity].
  - apply (Hall 0%nat). intros st q _. by apply instate_alter.
  - apply (Hall 0%nat). intros st q Hst. by apply instate_wakeup1.
  - apply (Hall 0%nat). intros st q Hst. by apply instate_kill.
  - eapply Hone; [exact Hp|congruence|reflexivity].
  - exists k. split; [intros st q _ Hq; by apply instate_alter|]. by right.
Qed.

Lemma proc_runnable ip l l' q : tstep ip l l' → no_switch l l' → Runnable l q → Runnable l' q.
Proof.
  intros Ht Hn Hq. destruct (tstep_one ip l l' Ht) as (k & Hk1 & Hk2). destruct (decide (q = k)) as [-> |Hne]; [|by apply Hk1].
  destruct (Hk2 Hq) as [|E]; [done|]. destruct Hq as (p & Hp & Hs). destruct (Hn k (pset_state RUNNING p)) as (p' & Hp' & Hs').
  - rewrite E. unfold scheduler_run. by rewrite list_lookup_alter_eq, Hp.
  - done.
  - congruence.
Qed.

Lemma proc_one_stops ip l l' a b : tstep ip l l' →
  InState RUNNING l a → InState RUNNING l b → ~ InState RUNNING l' a → ~ InState RUNNING l' b → a = b.
Proof.
  intros Ht Ha Hb Ha' Hb'. destruct (tstep_one ip l l' Ht) as (k & Hk & _).
  assert (∀ q, InState RUNNING l q → ~ InState RUNNING l' q → q = k) as H; [|by rewrite (H a), (H b)].
  intros q Hq Hq'. destruct (decide (q = k)); [done|]. by destruct Hq'; apply Hk.
Qed.

(** ** Processors and processes *)

(** The variable proc and the page table belong to the process that runs; the
    flag is on behind sti and off under the lock. *)
Definition cpu_ok (c : scpu) : Prop :=
  match c_phase c with
  | Run k => c_proc c = Some k ∧ c_space c = Some k
  | Ready => c_proc c = None ∧ c_space c = None ∧ c_if c = true
  | Scan _ => c_proc c = None ∧ c_space c = None ∧ c_if c = false
  | Top => c_proc c = None ∧ c_space c = None
  end.

Record sinv (m : smach) : Prop := {
  si_cpu : ∀ i c, scpus m !! i = Some c → cpu_ok c;
  si_run : ∀ i c k, scpus m !! i = Some c → c_phase c = Run k → InState RUNNING (ptab m) k;
  si_on : ∀ k, InState RUNNING (ptab m) k → ∃ i c, scpus m !! i = Some c ∧ c_phase c = Run k;
  si_one : ∀ i j c d k, scpus m !! i = Some c → scpus m !! j = Some d → c_phase c = Run k → c_phase d = Run k → i = j;
  si_lock : ∀ i j c d k k', scpus m !! i = Some c → scpus m !! j = Some d → c_phase c = Scan k → c_phase d = Scan k' → i = j;
}.

(** A processor moves on while no process starts or stops to run. *)
Lemma sinv_move m i c c' : sinv m → scpus m !! i = Some c → cpu_ok c' →
  (∀ k, c_phase c ≠ Run k) → (∀ k, c_phase c' ≠ Run k) →
  (∀ k, c_phase c' = Scan k → table_free (scpus m) ∨ ∃ k', c_phase c = Scan k') →
  sinv (mkSmach (ptab m) (<[i := c']> (scpus m))).
Proof.
  intros [H1 H2 H3 H4 H5] Hi Hok Hr Hr' Hs. assert (Hlt := lookup_lt_Some _ _ _ Hi).
  assert (Hc : ∀ j d, <[i := c']> (scpus m) !! j = Some d → j = i ∧ d = c' ∨ j ≠ i ∧ scpus m !! j = Some d).
  { intros j d. destruct (decide (j = i)) as [-> |Hne]; [rewrite list_lookup_insert_eq by done; intros [= <-]; by left|].
    rewrite list_lookup_insert_ne by done. by right. }
  constructor; cbn [ptab scpus].
  - intros j d [[-> ->]|[_ Hd]]%Hc; [done|by eapply H1].
  - intros j d k [[-> ->]|[_ Hd]]%Hc Hk; [by destruct (Hr' k)|by eapply H2].
  - intros k (j & d & Hd & Hk)%H3. exists j, d. split; [|done]. rewrite list_lookup_insert_ne; [done|]. intros <-.
    destruct (Hr k). congruence.
  - intros j1 j2 d1 d2 k [[-> ->]|[_ Hd1]]%Hc [[-> ->]|[_ Hd2]]%Hc Hk1 Hk2; [done|by destruct (Hr' k)..|by eapply H4].
  - intros j1 j2 d1 d2 k1 k2 [[-> ->]|[_ Hd1]]%Hc [[-> ->]|[_ Hd2]]%Hc Hk1 Hk2; [done| | |by eapply H5].
    + destruct (Hs k1 Hk1) as [Hu|[k' Hk']]; [by destruct (Hu _ _ k2 Hd2)|by eapply H5].
    + destruct (Hs k2 Hk2) as [Hu|[k' Hk']]; [by destruct (Hu _ _ k1 Hd1)|by eapply H5].
Qed.

Lemma scheduler_run_state k l q : Runnable l k → InState RUNNING (scheduler_run k l) q ↔ q = k ∨ InState RUNNING l q.
Proof.
  intros (p & Hp & Hs). unfold scheduler_run. split.
  - intros (x & Hx & Hxs). destruct (decide (q = k)) as [|Hne]; [by left|right]. rewrite list_lookup_alter_ne in Hx by done. by exists x.
  - intros [->|(x & Hx & Hxs)].
    + eexists. by rewrite list_lookup_alter_eq, Hp.
    + exists x. rewrite list_lookup_alter_ne; [done|]. intros ->. congruence.
Qed.

Lemma sinv_switch m i c k : sinv m → scpus m !! i = Some c → c_phase c = Scan k → Runnable (ptab m) k →
  sinv (mkSmach (scheduler_run k (ptab m)) (<[i := mkScpu (Run k) (Some k) (Some k) (c_if c)]> (scpus m))).
Proof.
  intros [H1 H2 H3 H4 H5] Hi Hs Hrun. assert (Hlt := lookup_lt_Some _ _ _ Hi).
  assert (Hno : ~ InState RUNNING (ptab m) k) by (destruct Hrun as (p & ? & ?); intros (p' & ? & ?); congruence).
  set (c' := mkScpu _ _ _ _).
  assert (Hc : ∀ j d, <[i := c']> (scpus m) !! j = Some d → j = i ∧ d = c' ∨ j ≠ i ∧ scpus m !! j = Some d).
  { intros j d. destruct (decide (j = i)) as [-> |Hne]; [rewrite list_lookup_insert_eq by done; intros [= <-]; by left|].
    rewrite list_lookup_insert_ne by done. by right. }
  constructor; cbn [ptab scpus].
  - intros j d [[-> ->]|[_ Hd]]%Hc; [done|by eapply H1].
  - intros j d q [[-> ->]|[_ Hd]]%Hc Hq; apply scheduler_run_state; try done; [left; by injection Hq|right; by eapply H2].
  - intros q [->|(j & d & Hd & Hq)%H3]%scheduler_run_state; [| |done].
    + exists i, c'. by rewrite list_lookup_insert_eq.
    + exists j, d. rewrite list_lookup_insert_ne; [done|]. intros <-. congruence.
  - intros j1 j2 d1 d2 q [[-> ->]|[_ Hd1]]%Hc [[-> ->]|[_ Hd2]]%Hc Hk1 Hk2; [done| | |by eapply H4].
    + injection Hk1 as <-. destruct Hno. by eapply H2.
    + injection Hk2 as <-. destruct Hno. by eapply H2.
  - intros j1 j2 d1 d2 k1 k2 [[-> ->]|[_ Hd1]]%Hc [[-> ->]|[_ Hd2]]%Hc Hk1 Hk2; [done|done|done|by eapply H5].
Qed.

Lemma switch_back_run l c k : c_phase (switch_back l c) = Run k ↔ c_phase c = Run k ∧ InState RUNNING l k.
Proof.
  unfold switch_back, InState. destruct (c_phase c) as [| | |q] eqn:E; [rewrite E; split; [done|by intros []]..|].
  case_decide as Hd; cbn [c_phase].
  - rewrite E. apply fmap_Some in Hd as (p & Hp & Hs). naive_solver.
  - split; [done|]. intros [[= ->] (p & Hp & Hs)]. destruct Hd. by rewrite Hp, <-Hs.
Qed.

(** Who has the lock then had a process that gave the processor back. *)
Lemma switch_back_scan l c k : c_phase (switch_back l c) = Scan k →
  c_phase c = Scan k ∨ ∃ q, k = S q ∧ c_phase c = Run q ∧ ~ InState RUNNING l q.
Proof.
  unfold switch_back. destruct (c_phase c) as [| | |q] eqn:E; [rewrite E; by left..|]. case_decide as Hd; cbn [c_phase]; [congruence|].
  intros [= <-]. right. exists q. split_and!; [done|done|]. intros (p & Hp & Hs). destruct Hd. by rewrite Hp, <-Hs.
Qed.

Lemma sinv_proc ip m l : sinv m → table_free (scpus m) → tstep ip (ptab m) l → no_switch (ptab m) l →
  sinv (mkSmach l (switch_back l <$> scpus m)).
Proof.
  intros [H1 H2 H3 H4 H5] Hu Ht Hn. constructor; cbn [ptab scpus].
  - intros i c (d & -> & Hd)%list_lookup_fmap_Some. pose proof (H1 i d Hd) as Hok. unfold switch_back.
    destruct (c_phase d) eqn:E; try done. by case_decide.
  - by intros i c k (d & -> & Hd)%list_lookup_fmap_Some [_ ?]%switch_back_run.
  - intros k Hk. pose proof Hk as (p' & Hp' & Hs'). destruct (H3 k (Hn k p' Hp' Hs')) as (i & c & Hi & Hc).
    exists i, (switch_back l c). split; [by rewrite list_lookup_fmap, Hi|]. by apply switch_back_run.
  - intros i j c d k (c0 & -> & Hi)%list_lookup_fmap_Some (d0 & -> & Hj)%list_lookup_fmap_Some [Hc _]%switch_back_run [Hd _]%switch_back_run.
    by eapply H4.
  - intros i j c d k k' (c0 & -> & Hi)%list_lookup_fmap_Some (d0 & -> & Hj)%list_lookup_fmap_Some Hc Hd.
    apply switch_back_scan in Hc as [Hc|(a & -> & Hc & Ha)]; [by destruct (Hu _ _ k Hi)|].
    apply switch_back_scan in Hd as [Hd|(b & -> & Hd & Hb)]; [by destruct (Hu _ _ k' Hj)|].
    assert (a = b) as -> by (eapply proc_one_stops; [exact Ht|by apply (H2 i c0 a)|by apply (H2 j d0 b)|done|done]).
    by eapply H4.
Qed.

Lemma sinv_step ip m e m' : sinv m → sstep ip m e m' → sinv m'.
Proof.
  intros HI Hst. destruct Hst as [i c Hi Hp|i c Hi Hp Hu|i c k p Hi Hp Hk Hs|i c k p Hi Hp Hk Hs|i c k b Hi Hp Hl|l Hu Ht Hn].
  1-3,5: pose proof (si_cpu m HI i c Hi) as Hok; unfold cpu_ok in Hok; rewrite Hp in Hok;
    apply (sinv_move m i c); [done|done| |by rewrite Hp|done|]; [red; naive_solver|cbn; intros ? [=]; eauto].
  - eapply sinv_switch; [done..|]. by exists p.
  - by eapply sinv_proc.
Qed.

Lemma sinv_init ip n : sinv (mkSmach (table0 ip) (replicate n cpu0)).
Proof.
  constructor; cbn [ptab scpus].
  1: by intros i c [-> _]%lookup_replicate.
  1: by intros i c k [-> _]%lookup_replicate.
  2: by intros i j c d k [-> _]%lookup_replicate.
  2: by intros i j c d k k' [-> _]%lookup_replicate.
  intros k (p & Hp & Hs). unfold table0 in Hp. apply list_lookup_insert_Some in Hp as [(_ & <- & _)|(_ & Hp)]; [done|].
  apply lookup_replicate in Hp as [-> _]. done.
Qed.

Lemma sreach_inv ip n m : sreach ip n m → sinv m.
Proof. induction 1 as [|m e m' _ IH Hst]; [apply sinv_init|by eapply sinv_step]. Qed.

(** ** Fairness *)

(** Where the processor is does not change by the steps of the others. *)
Lemma sstep_phase ip m e m' i c : sstep ip m e m' → scpus m !! i = Some c → ∃ c', scpus m' !! i = Some c' ∧
  (c_phase c' = c_phase c ∧ own i e = [] ∨
   match c_phase c with
   | Top => c_phase c' = Ready ∧ own i e = []
   | Ready => c_phase c' = Scan 0 ∧ own i e = []
   | Scan k => c_phase c' = Run k ∧ own i e = [k] ∨
       own i e = [] ∧ ~ Runnable (ptab m) k ∧ (c_phase c' = Scan (S k) ∨ c_phase c' = Top ∧ (length (ptab m) <= k)%nat)
   | Run k => c_phase c' = Scan (S k) ∧ own i e = []
   end).
Proof.
  intros Hst Hi. destruct Hst as [j d Hj Hp|j d Hj Hp Hu|j d k p Hj Hp Hk Hs|j d k p Hj Hp Hk Hs|j d k b Hj Hp Hl|l Hu Ht Hn]; cbn [scpus].
  6: { exists (switch_back l c). split; [by rewrite list_lookup_fmap, Hi|]. unfold switch_back. destruct (c_phase c) as [| | |k] eqn:E; [left; by rewrite ?E..|].
       case_decide; [left; by rewrite ?E|right; done]. }
  all: assert (Hlt := lookup_lt_Some _ _ _ Hj); destruct (decide (j = i)) as [-> |Hne];
    [rewrite list_lookup_insert_eq by done; assert (d = c) as -> by congruence; eexists; split; [done|]; right; rewrite Hp; cbn [c_phase]
    |rewrite list_lookup_insert_ne by done; exists c; split; [done|]; left; split; [done|]; unfold own; rewrite ?filter_nil, ?filter_cons_False by done; done].
  - done.
  - done.
  - right. split; [done|]. split; [intros (p' & ? & ?); congruence|by left].
  - left. split; [done|]. unfold own. by rewrite filter_cons_True.
  - right. split; [done|]. split; [|by right]. intros (p' & Hp'%lookup_lt_Some & _). lia.
Qed.

Lemma sstep_runnable ip m e m' q : sstep ip m e m' → Runnable (ptab m) q → Runnable (ptab m') q ∨ ∃ j, (j, q) ∈ e.
Proof.
  intros Hst Hq. destruct Hst as [j d Hj Hp|j d Hj Hp Hu|j d k p Hj Hp Hk Hs|j d k p Hj Hp Hk Hs|j d k b Hj Hp Hl|l Hu Ht Hn]; cbn [ptab]; try by left.
  - destruct (decide (k = q)) as [-> |Hne]; [right; exists j; by left|left]. by apply instate_alter.
  - left. by eapply proc_runnable.
Qed.

(** The entries from where the processor is to the end are still to come. *)
Definition to_come (ph : phase) (q : nat) : Prop :=
  match ph with Scan k => (k <= q)%nat | Run k => (k < q)%nat | Ready => True | Top => False end.

Lemma pass_chooses ip i m t m' q c : pass ip i m t m' → sinv m → scpus m !! i = Some c → to_come (c_phase c) q → Runnable (ptab m) q →
  ∃ j, (j, q) ∈ t.
Proof.
  intros Hp. revert c. induction Hp as [m c0 Hc0 Ht|m c0 e m1 t m' Hc0 Hnt Hst Hp IH]; intros c HI Hc Ha Hq.
  { assert (c0 = c) as -> by congruence. by rewrite Ht in Ha. }
  assert (c0 = c) as -> by congruence. destruct (sstep_runnable _ _ _ _ _ Hst Hq) as [Hq1|[j Hj]]; [|exists j; apply elem_of_app; by left].
  destruct (sstep_phase _ _ _ _ _ _ Hst Hc) as (c1 & Hc1 & Hph).
  assert (to_come (c_phase c1) q ∨ ∃ j, (j, q) ∈ e) as [Ha1|[j Hj]].
  { destruct Hph as [[-> _]|Hph]; [by left|]. destruct (c_phase c) as [| |k|k] eqn:E; cbn in Ha.
    - done.
    - left. destruct Hph as [-> _]. cbn. lia.
    - destruct Hph as [[-> Hown]|(_ & Hno & [-> |[-> Hl]])].
      + destruct (decide (k = q)) as [-> |]; [|left; cbn; lia]. right. exists i. assert (q ∈ own i e) as Hin by (rewrite Hown; by left).
        unfold own in Hin. apply list_elem_of_fmap in Hin as ([j x] & -> & Hx). by apply list_elem_of_filter in Hx as [<- Hx].
      + left. cbn. assert (k ≠ q) by (intros ->; done). lia.
      + exfalso. destruct Hq as (p & Hp'%lookup_lt_Some & _). lia.
    - left. destruct Hph as [-> _]. cbn. lia. }
  - destruct (IH c1) as [j Hj]; [by eapply sinv_step|done..|]. exists j. apply elem_of_app. by right.
  - exists j. apply elem_of_app. by left.
Qed.

Lemma own_app i t t' : own i (t ++ t') = own i t ++ own i t'.
Proof. unfold own. by rewrite filter_app, fmap_app. Qed.

Lemma to_come_mono ph ph' q : to_come ph' q → (∀ k, ph = Scan k → ph' = Run k ∨ ph' = Scan (S k)) → (∀ k, ph = Run k → ph' = Scan (S k)) →
  ph ≠ Top → to_come ph q.
Proof.
  destruct ph as [| |k|k]; intros Ha H1 H2 Hne; [done|done| |].
  - destruct (H1 k eq_refl) as [-> | ->]; cbn in *; lia.
  - rewrite (H2 k eq_refl) in Ha. cbn in *. lia.
Qed.

(** A processor goes over the table in order. *)
Lemma pass_own ip i m t m' c : pass ip i m t m' → scpus m !! i = Some c →
  Forall (to_come (c_phase c)) (own i t) ∧ StronglySorted Nat.lt (own i t).
Proof.
  intros Hp. revert c. induction Hp as [m c0 Hc0 Ht|m c0 e m1 t m' Hc0 Hnt Hst Hp IH]; intros c Hc; [by split; constructor|].
  assert (c0 = c) as -> by congruence. destruct (sstep_phase _ _ _ _ _ _ Hst Hc) as (c1 & Hc1 & Hph).
  destruct (IH c1 Hc1) as [Hf Hs]. rewrite own_app. destruct Hph as [[<- ->]|Hph]; [done|].
  assert (Hnext : own i e = [] → (∀ k, c_phase c = Scan k → c_phase c1 = Scan (S k) ∨ c_phase c1 = Top) → (∀ k, c_phase c = Run k → c_phase c1 = Scan (S k)) →
    Forall (to_come (c_phase c)) (own i e ++ own i t) ∧ StronglySorted Nat.lt (own i e ++ own i t)).
  { intros -> H1 H2. split; [|done]. eapply Forall_impl; [exact Hf|]. intros q Hq. apply (to_come_mono _ (c_phase c1)); [done| |done|done].
    intros k Hk. destruct (H1 k Hk) as [E|E]; [by right|]. by rewrite E in Hq. }
  destruct (c_phase c) as [| |k|k] eqn:E; [done| | |].
  - apply Hnext; [apply Hph|done..].
  - destruct Hph as [[E1 ->]|(Hn & _ & Hph)]; [|apply Hnext; [done| |done]; intros ? [= <-]; naive_solver].
    rewrite E1 in Hf. split; cbn; constructor; try done; [cbn; lia|]. eapply Forall_impl; [exact Hf|]. cbn. lia.
  - apply Hnext; [apply Hph|done|]. intros ? [= <-]. apply Hph.
Qed.

(** Processor [j] runs process [k], with its page table. *)
Definition runs_on (m : smach) (j k : nat) : Prop :=
  ∃ c, scpus m !! j = Some c ∧ c_phase c = Run k ∧ c_proc c = Some k ∧ c_space c = Some k.

(** C20: Scheduling by any number of processors is exclusive and fair. Whatever
    the processors and the processes have done since the start, the running
    processes are exactly those that a processor runs, each of them on one
    processor only, which has it in its variable proc and its page table in
    cr3. When a processor starts a pass over the table, every process that is
    runnable then is chosen during this pass, by this processor or by another
    one; and a processor chooses no process twice in a pass, so that a runnable
    process waits for at most one turn of each other process. *)
Theorem scheduler_fair ip n m t m' i c q :
  sreach ip n m → scpus m !! i = Some c → c_phase c = Ready → pass ip i m t m' → Runnable (ptab m) q →
  (∀ k, InState RUNNING (ptab m) k ↔ exists! j, runs_on m j k) ∧ (∃ j, (j, q) ∈ t) ∧ NoDup (own i t).
Proof.
  intros Hr Hc Hph Hp Hq. pose proof (sreach_inv _ _ _ Hr) as HI. split_and!.
  - intros k. split.
    + intros (j & d & Hd & Hk)%(si_on m HI). pose proof (si_cpu m HI j d Hd) as Hok. unfold cpu_ok in Hok. rewrite Hk in Hok.
      exists j. split; [by exists d|]. intros j' (d' & Hd' & Hk' & _). by eapply (si_one m HI).
    + intros (j & (d & Hd & Hk & _) & _). by eapply (si_run m HI).
  - eapply pass_chooses; [done|done|done| |done]. by rewrite Hph.
  - destruct (pass_own _ _ _ _ _ _ Hp Hc) as [_ Hs]. clear -Hs. induction Hs as [|x u Hs IH Hx]; constructor; [|done]. intros Hin.
    rewrite Forall_forall in Hx. specialize (Hx x Hin). lia.
Qed.

(** A pass that finds nothing to run. *)
Lemma pass_idle ip i n : ∀ m c k, scpus m !! i = Some c → c_phase c = Scan k → (length (ptab m) <= k + n)%nat →
  (∀ q, (k <= q)%nat → ~ Runnable (ptab m) q) → ∃ m', pass ip i m [] m'.
Proof.
  induction n as [|n IH]; intros m c k Hc Hk Hn Hq.
  - exists (mkSmach (ptab m) (<[i := mkScpu Top (c_proc c) (c_space c) true]> (scpus m))). assert (Hlt := lookup_lt_Some _ _ _ Hc).
    eapply (pass_step ip i m c []); [done|by rewrite Hk|eapply (s_release ip m i c k); [done..|lia]|].
    eapply pass_done; cbn [scpus]; [by rewrite list_lookup_insert_eq|done].
  - destruct (ptab m !! k) as [p|] eqn:Hp; [|apply lookup_ge_None_1 in Hp; eapply (IH m c k); [done|done|lia|done]].
    assert (Hlt := lookup_lt_Some _ _ _ Hc).
    destruct (IH (mkSmach (ptab m) (<[i := mkScpu (Scan (S k)) (c_proc c) (c_space c) (c_if c)]> (scpus m)))
      (mkScpu (Scan (S k)) (c_proc c) (c_space c) (c_if c)) (S k)) as (m' & Hm').
    + cbn [scpus]. by rewrite list_lookup_insert_eq.
    + done.
    + cbn [ptab]. lia.
    + cbn [ptab]. intros q Hkq. apply Hq. lia.
    + exists m'. eapply (pass_step ip i m c []); [done|by rewrite Hk| |exact Hm']. eapply s_skip; [done..|]. intros E. apply (Hq k); [lia|by exists p].
Qed.

(** Two processors are about to start a pass; the second one is first and runs
    init, and the first one finds nothing more to run. *)
Lemma scheduler_fair_witness :
  let ready := mkScpu Ready None None true in
  ∃ m t m', sreach 0 2 m ∧ m = mkSmach (table0 0) [ready; ready] ∧ pass 0 0 m t m' ∧ ∃ j, (j, 0%nat) ∈ t.
Proof.
  intros ready. set (m0 := mkSmach (table0 0) [ready; ready]).
  assert (Hr : sreach 0 2 m0).
  { apply (sr_step 0 2 (mkSmach (table0 0) [ready; cpu0]) []); [|exact (s_sti 0 (mkSmach (table0 0) [ready; cpu0]) 1 cpu0 eq_refl eq_refl)].
    apply (sr_step 0 2 (mkSmach (table0 0) [cpu0; cpu0]) []); [apply sr_init|].
    exact (s_sti 0 (mkSmach (table0 0) [cpu0; cpu0]) 0 cpu0 eq_refl eq_refl). }
  set (m1 := mkSmach (table0 0) [ready; mkScpu (Scan 0) None None false]).
  set (m2 := mkSmach (scheduler_run 0 (table0 0)) [ready; mkScpu (Run 0) (Some 0%nat) (Some 0%nat) false]).
  set (m3 := mkSmach (scheduler_run 0 (table0 0)) [mkScpu (Scan 0) None None false; mkScpu (Run 0) (Some 0%nat) (Some 0%nat) false]).
  destruct (pass_idle 0 0 64 m3 (mkScpu (Scan 0) None None false) 0) as (m' & Hm'); [reflexivity|reflexivity|apply leb_complete; reflexivity| |].
  { intros q _ (p & Hp & Hs). unfold m3, table0, scheduler_run in Hp. cbn [ptab] in Hp. destruct q as [|q].
    - rewrite list_lookup_alter_eq in Hp. injection Hp as <-. discriminate Hs.
    - rewrite list_lookup_alter_ne, list_lookup_insert_ne in Hp by discriminate. apply lookup_replicate in Hp as [-> _]. discriminate Hs. }
  assert (Hp : pass 0 0 m0 ([] ++ [(1, 0)%nat] ++ [] ++ []) m').
  { eapply (pass_step 0 0 m0 ready [] m1); [reflexivity|discriminate| |].
    - refine (s_acquire 0 m0 1 ready eq_refl eq_refl _). intros [|[|j]] c k [= <-]; discriminate.
    - eapply (pass_step 0 0 m1 ready _ m2); [reflexivity|discriminate|exact (s_switch 0 m1 1 (mkScpu (Scan 0) None None false) 0 _ eq_refl eq_refl eq_refl eq_refl)|].
      eapply (pass_step 0 0 m2 ready _ m3); [reflexivity|discriminate| |exact Hm'].
      refine (s_acquire 0 m2 0 ready eq_refl eq_refl _). intros [|[|j]] c k [= <-]; discriminate. }
  exists m0, [(1, 0)%nat], m'. split; [exact Hr|]. split; [reflexivity|]. split; [exact Hp|].
  refine (proj1 (proj2 (scheduler_fair 0 2 m0 [(1, 0)%nat] m' 0 ready 0 Hr eq_refl eq_refl Hp _))). eexists. split; reflexivity.
Defined.
