(* ===== verification/Switch.v ===== *)
(** * Giving up the processor (sched, yield, sleep, forkret and pinit of proc.c)

    What a thread of the kernel does around the context switch: the locks it
    holds, the nesting of cli on the processor it is on, and the interrupt flag.
    The switch itself is an argument, [other]: all that happens until the
    scheduler, on whatever processor, switches back to the thread. [Sched.v]
    has the side of the scheduler. While a thread spins for a lock the other
    processors go on: [others] is what they do in a turn of its loop, and [turns]
    a number of turns, the fuel of the loop. *)

From S2P Require Import Prelude Spinlock Proc.

(** The lock of the process table, and the lock that a sleeper holds. *)
Inductive lockid := PTABLE | LK.
#[export] Instance lockid_eq_dec : EqDecision lockid.
Proof. solve_decision. Defined.

(** The processor that the thread is on with its state; the locks; the process;
    the variable first of forkret, and the state that initlog works on. *)
Record kst (L : Type) := mkK {
  k_id : nat; k_c : cpu; k_locks : lockid → spinlock; k_state : procstate; k_chan : Z; k_first : bool; k_log : L }.
Arguments mkK {L}.
Arguments k_id {L}. Arguments k_c {L}. Arguments k_locks {L}. Arguments k_state {L}. Arguments k_chan {L}.
Arguments k_first {L}. Arguments k_log {L}.

Section switch.
Context {L : Type} (initlog : M L unit) (other : kst L → kst L) (others : lockid → kst L → kst L) (turns : nat).

Definition kset_c c (s : kst L) := mkK (k_id s) c (k_locks s) (k_state s) (k_chan s) (k_first s) (k_log s).
Definition kset_lock l x (s : kst L) :=
  mkK (k_id s) (k_c s) (λ l', if decide (l' = l) then x else k_locks s l') (k_state s) (k_chan s) (k_first s) (k_log s).
Definition kset_state x (s : kst L) := mkK (k_id s) (k_c s) (k_locks s) x (k_chan s) (k_first s) (k_log s).
Definition kset_chan x (s : kst L) := mkK (k_id s) (k_c s) (k_locks s) (k_state s) x (k_first s) (k_log s).
Definition kset_first x (s : kst L) := mkK (k_id s) (k_c s) (k_locks s) (k_state s) (k_chan s) x (k_log s).
#[export] Instance cpu_kst : Layer cpu (kst L) := {|
  low := k_c; set_low := kset_c; low_set := λ s t, eq_refl; set_set_low := λ s s' t, eq_refl |}.
Definition kset_log (x : L) (s : kst L) : kst L := mkK (k_id s) (k_c s) (k_locks s) (k_state s) (k_chan s) (k_first s) x.
#[export] Instance log_kst : Layer L (kst L) := {|
  low := k_log; set_low := kset_log; low_set := λ s t, eq_refl; set_set_low := λ s s' t, eq_refl |}.

Definition pinit : M (kst L) unit := modify (kset_lock PTABLE initlock).

(** The exchange before the others go on. *)
Definition xchg_locked (l : lockid) (s : kst L) : kst L := kset_lock l (mkLock 1 (lk_cpu (k_locks s l))) s.
(** [while(xchg(&lk->locked, 1) != 0);] *)
Fixpoint spin (fuel : nat) (l : lockid) : M (kst L) unit :=
  match fuel with
  | O => stopM NoFuel
  | S fuel' =>
      s ← getM;
      modify (xchg_locked l);;
      if locked (k_locks s l) =? 0 then mret tt else modify (others l);; spin fuel' l
  end.
Definition acquire (l : lockid) : M (kst L) unit :=
  lift pushcli;;
  s ← getM;
  if holding (k_locks s l) (k_id s) then panic "acquire" else
  spin turns l;;
  modify (kset_lock l (mkLock 1 (Some (k_id s)))).
Definition release (l : lockid) : M (kst L) unit :=
  s ← getM;
  if negb (holding (k_locks s l) (k_id s)) then panic "release" else
  modify (kset_lock l (mkLock 0 None));;
  lift popcli.

Definition set_intena (b : bool) (c : cpu) : cpu := mkCpu (ncli c) b (fl_if c).

Definition sched : M (kst L) unit :=
  s ← getM;
  if negb (holding (k_locks s PTABLE) (k_id s)) then panic "sched ptable.lock" else
  if negb (ncli (k_c s) =? 1) then panic "sched locks" else
  if bool_decide (k_state s = RUNNING) then panic "sched running" else
  if fl_if (k_c s) then panic "sched interruptible" else
  let intena := intena (k_c s) in
  modify other;;
  modify (λ s, kset_c (set_intena intena (k_c s)) s).

Definition yield : M (kst L) unit :=
  acquire PTABLE;;
  modify (kset_state RUNNABLE);;
  sched;;
  release PTABLE.

(** [proc]: whether a process runs on the processor. [lk] may be the lock of the
    table itself; a null pointer is [None]. *)
Definition sleep (proc : bool) (chan : Z) (lk : option lockid) : M (kst L) unit :=
  if negb proc then panic "sleep" else
  lk ← (match lk with Some l => mret l | None => panic "sleep without lk" end);
  (if decide (lk = PTABLE) then mret tt else acquire PTABLE;; release lk);;
  modify (kset_chan chan);;
  modify (kset_state SLEEPING);;
  sched;;
  modify (kset_chan 0);;
  if decide (lk = PTABLE) then mret tt else release PTABLE;; acquire lk.

Definition forkret : M (kst L) unit :=
  release PTABLE;;
  s ← getM;
  if k_first s then
    modify (kset_first false);;
    lift initlog
  else mret tt.

(** ** Interrupts and locks across a switch *)

(** The thread holds the lock and no other one, with interrupts off; [b] is
    whether they were on before it took the lock. *)
Definition holds (l : lockid) (b : bool) (s : kst L) : Prop :=
  k_locks s l = mkLock 1 (Some (k_id s)) ∧ k_c s = mkCpu 1 b false ∧
  ∀ l', l' ≠ l → lk_cpu (k_locks s l') ≠ Some (k_id s).

(** The scheduler hands the processor over with the lock of the table held and
    nothing else. The rest, the processor and its intena included, may be
    anything. *)
Definition scheduled (s : kst L) : Prop := k_state s = RUNNING ∧ ∃ b, holds PTABLE b s.
Hypothesis Hother : ∀ s b, holds PTABLE b s → k_state s ≠ RUNNING → scheduled (other s).

(** While the thread spins, with interrupts off, the others leave its processor,
    the state of its process and its locks alone and take no lock in its name,
    and the lock that it waits for is free at the exchange of one of the [turns]
    turns. *)
Inductive frees (l : lockid) : nat → kst L → Prop :=
  | frees_now n s : locked (k_locks s l) = 0 → frees l (S n) s
  | frees_later n s : locked (k_locks s l) ≠ 0 → frees l n (others l (xchg_locked l s)) → frees l (S n) s.
Definition undisturbed (s s' : kst L) : Prop :=
  k_id s' = k_id s ∧ k_c s' = k_c s ∧ k_state s' = k_state s ∧ k_chan s' = k_chan s ∧
  ∀ l, (lk_cpu (k_locks s l) = Some (k_id s) → k_locks s' l = k_locks s l) ∧
       (lk_cpu (k_locks s l) ≠ Some (k_id s) → lk_cpu (k_locks s' l) ≠ Some (k_id s)).
Hypothesis Hothers : ∀ l s, undisturbed s (others l s).
Hypothesis Hfrees : ∀ l s, lk_cpu (k_locks s l) ≠ Some (k_id s) → frees l turns s.

(** No lock is held. *)
Definition unlocked (b : bool) (s : kst L) : Prop :=
  ncli (k_c s) = 0 ∧ fl_if (k_c s) = b ∧ ∀ l, lk_cpu (k_locks s l) ≠ Some (k_id s).

Lemma not_holding lk i : lk_cpu lk ≠ Some i → holding lk i = false.
Proof. intros H. unfold holding. rewrite bool_decide_eq_false_2 by done. apply andb_false_r. Qed.

Lemma undisturbed_trans s1 s2 s3 : undisturbed s1 s2 → undisturbed s2 s3 → undisturbed s1 s3.
Proof.
  intros (I1 & C1 & T1 & W1 & L1) (I2 & C2 & T2 & W2 & L2). split_and!; try congruence. intros l.
  destruct (L1 l) as [A1 B1], (L2 l) as [A2 B2]. rewrite I1 in A2, B2. split; intros H.
  - rewrite A2; [by apply A1|]. by rewrite A1.
  - by apply B2, B1.
Qed.
Lemma xchg_undisturbed l s : lk_cpu (k_locks s l) ≠ Some (k_id s) → undisturbed s (xchg_locked l s).
Proof.
  intros Hl. split_and!; try done. intros l'. simpl. destruct (decide (l' = l)) as [->|]; [|done]. split; [congruence|done].
Qed.

(** The loop ends, with the lock not recorded for another processor of ours. *)
Lemma spin_spec l n s : frees l n s → lk_cpu (k_locks s l) ≠ Some (k_id s) →
  ∃ s', spin n l s = Ok tt s' ∧ undisturbed s s'.
Proof.
  induction 1 as [n s Hf|n s Hf _ IH]; intros Hl; simpl; unfold mbind, M_bind; simpl.
  - rewrite Hf. simpl. eexists. split; [reflexivity|]. by apply xchg_undisturbed.
  - rewrite (proj2 (Z.eqb_neq _ _) Hf).
    pose proof (xchg_undisturbed l s Hl) as Hx. pose proof (Hothers l (xchg_locked l s)) as Ho.
    pose proof (undisturbed_trans _ _ _ Hx Ho) as Hu. destruct IH as (s' & E & Hu').
    + destruct Hu as (-> & _ & _ & _ & HL). by apply (HL l).
    + exists s'. split; [exact E|]. by eapply undisturbed_trans.
Qed.

Lemma acquire_spec l s : lk_cpu (k_locks s l) ≠ Some (k_id s) →
  ∃ s', acquire l s = Ok tt s' ∧ k_id s' = k_id s ∧ k_locks s' l = mkLock 1 (Some (k_id s)) ∧
    k_c s' = mkCpu (ncli (k_c s) + 1) (if ncli (k_c s) =? 0 then fl_if (k_c s) else intena (k_c s)) false ∧
    k_state s' = k_state s ∧ k_chan s' = k_chan s ∧
    ∀ l', l' ≠ l → (lk_cpu (k_locks s l') = Some (k_id s) → k_locks s' l' = k_locks s l') ∧
      (lk_cpu (k_locks s l') ≠ Some (k_id s) → lk_cpu (k_locks s' l') ≠ Some (k_id s)).
Proof.
  intros Hl. unfold acquire, mbind, M_bind, lift. simpl. rewrite not_holding by done.
  edestruct (spin_spec l turns) as (s' & -> & I1 & C1 & T1 & W1 & L1); [by apply Hfrees|done|]. simpl in *.
  eexists. split; [reflexivity|]. simpl. rewrite decide_True by done. split_and!; try done.
  intros l' Hne. rewrite decide_False by done. apply L1.
Qed.

Lemma lock_spec l b s : unlocked b s →
  ∃ s', acquire l s = Ok tt s' ∧ holds l b s' ∧ k_state s' = k_state s ∧ k_chan s' = k_chan s.
Proof.
  intros (Hn & Hf & Hl). destruct (acquire_spec l s (Hl l)) as (s' & E & I1 & K1 & C1 & T1 & W1 & L1).
  rewrite Hn, Hf in C1. exists s'. unfold holds. rewrite I1. split_and!; try done.
  intros l' Hne. apply L1; [done|apply Hl].
Qed.

Lemma unlock_spec l b s : holds l b s →
  ∃ s', release l s = Ok tt s' ∧ unlocked b s' ∧ k_state s' = k_state s ∧ k_chan s' = k_chan s ∧ k_first s' = k_first s ∧
    k_log s' = k_log s ∧ k_locks s' l = mkLock 0 None.
Proof.
  intros (Hk & Hc & Hl). unfold release, mbind, M_bind, lift. simpl.
  assert (holding (k_locks s l) (k_id s) = true) as ->.
  { rewrite Hk. unfold holding. simpl. by rewrite bool_decide_eq_true_2. }
  simpl. rewrite Hc.
  assert (∀ l', lk_cpu (if decide (l' = l) then mkLock 0 None else k_locks s l') ≠ Some (k_id s)) as Hl'.
  { intros l'. destruct (decide (l' = l)); [done|]. by apply Hl. }
  destruct b; (eexists; split; [reflexivity|]); (split; [split; [done|split; [done|exact Hl']]|]); simpl; by rewrite decide_True.
Qed.

Lemma sched_spec b s : holds PTABLE b s → k_state s ≠ RUNNING →
  ∃ s', sched s = Ok tt s' ∧ holds PTABLE b s' ∧ k_state s' = RUNNING.
Proof.
  intros Hh Hr. pose proof Hh as (Hk & Hc & Hl). unfold sched, mbind, M_bind. simpl.
  assert (holding (k_locks s PTABLE) (k_id s) = true) as ->.
  { rewrite Hk. unfold holding. simpl. by rewrite bool_decide_eq_true_2. }
  simpl. rewrite Hc. simpl. rewrite bool_decide_eq_false_2 by done.
  destruct (Hother s b Hh Hr) as (Hr' & b' & Hk' & Hc' & Hl').
  eexists. split; [reflexivity|]. split; [|done]. split_and!; [done| |done]. simpl. by rewrite Hc'.
Qed.

Lemma bind_ok {A B} (m : M (kst L) A) (f : A → M (kst L) B) a s s' : m s = Ok a s' → (m ≫= f) s = f a s'.
Proof. unfold mbind, M_bind. by intros ->. Qed.

(** The lock of the sleeper is exchanged for that of the table. *)
Lemma swap_locks b s : holds LK b s →
  ∃ s', (acquire PTABLE;; release LK) s = Ok tt s' ∧ holds PTABLE b s' ∧ k_state s' = k_state s.
Proof.
  intros (Hk & Hc & Hl). destruct (acquire_spec PTABLE s) as (s' & E & I1 & K1 & C1 & T1 & _ & L1); [by apply Hl|].
  rewrite (bind_ok _ _ _ _ _ E). rewrite Hc in C1. simpl in C1.
  destruct (L1 LK) as [HLK _]; [done|]. rewrite Hk in HLK. specialize (HLK eq_refl).
  unfold release, mbind, M_bind, lift. simpl. rewrite I1, HLK. unfold holding. simpl.
  rewrite bool_decide_eq_true_2 by done. simpl. rewrite C1. simpl.
  eexists. split; [reflexivity|]. split; [|done]. unfold holds. simpl. rewrite I1. split_and!; [done|done|]. by intros [] Hne.
Qed.

(** C21: the interrupt flag belongs to the thread, not to the processor. When a
    thread gives up the processor, none of the checks of sched stops it, and
    when it goes on, perhaps on another processor, where intena may have been
    set by other threads, interrupts are on exactly if they were on when it gave
    up the processor. A thread that sleeps with a lock has this lock again, and
    no other one, and will turn interrupts on at the end of it exactly if they
    were on before; it sleeps with the lock of the process table held alone.
    With any other lock held as well, sched panics. What is assumed: the
    scheduler switches back to the thread with the lock of the table held, and a
    lock that the thread spins for is free at one of its exchanges. *)
Theorem switch_keeps_interrupts :
  (∀ b s, unlocked b s → ∃ s', yield s = Ok tt s' ∧ unlocked b s' ∧ k_state s' = RUNNING) ∧
  (∀ b s lk chan, holds lk b s → ∃ s', sleep true chan (Some lk) s = Ok tt s' ∧ holds lk b s' ∧ k_state s' = RUNNING ∧ k_chan s' = 0) ∧
  (∀ s, ncli (k_c s) ≠ 1 → holding (k_locks s PTABLE) (k_id s) = true → sched s = Err (Panic "sched locks") s).
Proof.
  split_and!.
  - intros b s Hu. unfold yield. destruct (lock_spec PTABLE b s Hu) as (s1 & E1 & H1 & _). rewrite (bind_ok _ _ _ _ _ E1).
    destruct (sched_spec b (kset_state RUNNABLE s1)) as (s2 & E2 & H2 & Hr); [done..|].
    rewrite (bind_ok _ _ tt _ (kset_state RUNNABLE s1)) by done. rewrite (bind_ok _ _ _ _ _ E2).
    destruct (unlock_spec PTABLE b s2 H2) as (s3 & E3 & H3 & Hr3 & _). exists s3. by rewrite E3, Hr3.
  - intros b s lk chan Hh. unfold sleep. cbn [negb]. rewrite (bind_ok _ _ lk s s) by done.
    assert (∃ s1, (if decide (lk = PTABLE) then mret tt else acquire PTABLE;; release lk) s = Ok tt s1 ∧ holds PTABLE b s1) as (s1 & E1 & H1).
    { destruct lk; simpl; [by exists s|]. destruct (swap_locks b s Hh) as (s1 & E1 & H1 & _). by exists s1. }
    rewrite (bind_ok _ _ _ _ _ E1). rewrite (bind_ok _ _ tt _ (kset_chan chan s1)) by done.
    rewrite (bind_ok _ _ tt _ (kset_state SLEEPING (kset_chan chan s1))) by done.
    destruct (sched_spec b (kset_state SLEEPING (kset_chan chan s1))) as (s2 & E2 & H2 & Hr2); [done..|].
    rewrite (bind_ok _ _ _ _ _ E2). rewrite (bind_ok _ _ tt _ (kset_chan 0 s2)) by done.
    destruct lk; simpl; [by exists (kset_chan 0 s2)|].
    destruct (unlock_spec PTABLE b (kset_chan 0 s2) H2) as (s3 & E3 & H3 & Hr3 & Hc3 & _). rewrite (bind_ok _ _ _ _ _ E3).
    destruct (lock_spec LK b s3 H3) as (s4 & E4 & H4 & Hr4 & Hc4). exists s4. by rewrite E4, Hr4, Hr3, Hc4, Hc3.
  - intros s Hn Hh. unfold sched, mbind, M_bind. simpl. rewrite Hh. simpl. by rewrite (proj2 (Z.eqb_neq _ _)).
Qed.

(** The first process that runs initialises the log, and no other one does. *)
Lemma forkret_first b s log' : holds PTABLE b s → (k_first s = true → initlog (k_log s) = Ok tt log') →
  ∃ s', forkret s = Ok tt s' ∧ unlocked b s' ∧ k_first s' = false ∧ k_log s' = if k_first s then log' else k_log s.
Proof.
  intros Hh Hi. unfold forkret. destruct (unlock_spec PTABLE b s Hh) as (s1 & E1 & H1 & _ & _ & Hf & Hlog & _).
  rewrite (bind_ok _ _ _ _ _ E1). unfold mbind, M_bind, lift. simpl. rewrite Hf. destruct (k_first s) eqn:E; simpl.
  - rewrite Hlog, Hi by done. by eexists.
  - exists s1. by rewrite Hf.
Qed.
End switch.

(** A thread that goes on on the second processor, where interrupts were on. *)
Definition move (s : kst unit) : kst unit :=
  mkK 1%nat (mkCpu 1 true false) (λ l, if decide (l = PTABLE) then mkLock 1 (Some 1%nat) else mkLock 0 None)
    RUNNING (k_chan s) (k_first s) (k_log s).

(** The others release the lock that is waited for. *)
Definition let_go (l : lockid) (s : kst unit) : kst unit :=
  if decide (lk_cpu (k_locks s l) = Some (k_id s)) then s else kset_lock l (mkLock 0 None) s.

Lemma let_go_undisturbed l s : undisturbed s (let_go l s).
Proof.
  unfold let_go. destruct (decide _) as [E|E]; [by repeat split|]. split_and!; try done. intros l'. simpl.
  destruct (decide (l' = l)) as [->|]; [|done]. by split.
Qed.
Lemma let_go_frees l s : lk_cpu (k_locks s l) ≠ Some (k_id s) → frees let_go l 2 s.
Proof.
  intros Hl. destruct (decide (locked (k_locks s l) = 0)); [by apply frees_now|]. apply frees_later, frees_now; [done|].
  unfold let_go. simpl. repeat (case_decide; simpl in *; try done).
Qed.

(** Another processor holds the lock of the table at first. *)
Lemma switch_keeps_interrupts_witness :
  ∃ s', yield move let_go 2 (mkK 0%nat (mkCpu 0 false false) (λ _, mkLock 1 (Some 3%nat)) RUNNING 0 false tt) = Ok tt s' ∧
    unlocked false s' ∧ k_state s' = RUNNING.
Proof.
  apply (proj1 (switch_keeps_interrupts move let_go 2 ltac:(intros s b _ _; split; [done|]; exists true; split; [done|]; split; [done|];
    by intros []) let_go_undisturbed let_go_frees)).
  by repeat split.
Defined.
