(* ===== verification/Exec.v ===== *)
(** * Program loading (exec.c, elf.h, loaduvm of vm.c)

    The argument strings and the path are in the memory of the old image, which
    is not changed before the new image is committed; they are passed as lists
    of bytes with their terminators. [proc] is the index [me] of the calling
    process. *)

From S2P Require Import Prelude Cstring Buf Bio Log Fs Spinlock Pipe Kalloc Vm File Proc.

Definition MAXARG : nat := 32.
Definition ELF_MAGIC : Z := 0x464C457F.
Definition ELF_PROG_LOAD : Z := 1.
Definition sizeof_elfhdr : Z := 52.
Definition sizeof_proghdr : Z := 32.

(** [struct elfhdr] and [struct proghdr], the fields that are read. *)
Record elfhdr := mkElf { e_magic : Z; e_entry : Z; e_phoff : Z; e_phnum : Z }.
Definition get_elfhdr (b : list Z) : elfhdr :=
  mkElf (get_u32 0 b) (get_u32 24 b) (get_u32 28 b) (get_u16 44 b).
Record proghdr := mkPh {
  ph_type : Z; ph_off : Z; ph_vaddr : Z; ph_paddr : Z; ph_filesz : Z; ph_memsz : Z; ph_flags : Z; ph_align : Z }.
Definition get_proghdr (b : list Z) : proghdr :=
  mkPh (get_u32 0 b) (get_u32 4 b) (get_u32 8 b) (get_u32 12 b) (get_u32 16 b) (get_u32 20 b) (get_u32 24 b) (get_u32 28 b).

Section Exec.
Context `{BD : BlockDev} (dsw : devsw) (kend kdata : Z).

(** vm.c: the loop of [loaduvm]; [fuel] bounds the pages. *)
Fixpoint loaduvm_loop (fuel : nat) (pgdir addr : Z) (ip : nat) (offset sz i : Z) : M ps Z :=
  if i <? sz then
    match fuel with
    | O => stopM NoFuel
    | S fuel' =>
        r ← lift (walkpgdir pgdir (u32 (addr + i)) false);
        match r with
        | None => panic "loaduvm: address should exist"
        | Some (pg, idx) =>
            pte ← lift (rdword pg idx);
            let pa := PTE_ADDR pte in
            let n := if sz - i <? PGSIZE then sz - i else PGSIZE in
            r ← lift (readi dsw ip (u32 (offset + i)) n);
            lift (updpage (p2v pa) (splice 0 r.2));;
            if negb (u32 r.1 =? n) then mret (-1)
            else loaduvm_loop fuel' pgdir addr ip offset sz (u32 (i + PGSIZE))
        end
    end
  else mret 0.

Definition loaduvm (pgdir addr : Z) (ip : nat) (offset sz : Z) : M ps Z :=
  if negb (addr `mod` PGSIZE =? 0) then panic "loaduvm: addr must be page aligned" else
  loaduvm_loop (Z.to_nat (sz / PGSIZE + 1)) pgdir addr ip offset sz 0.

(** The label [bad]; a null [pgdir] is 0. *)
Definition exec_bad (pgdir : Z) (ip : option nat) : M ps Z :=
  (if negb (pgdir =? 0) then lift (freevm kend pgdir) else mret tt);;
  (match ip with Some i => lift (iunlockput i) | None => mret tt end);;
  mret (-1).

(** The loop over the program headers, [n] of them left; [None] is a jump to
    [bad]. *)
Fixpoint exec_load (n : nat) (pgdir : Z) (ip : nat) (off sz : Z) : M ps (option Z) :=
  match n with
  | O => mret (Some sz)
  | S n' =>
      r ← lift (readi dsw ip (u32 off) sizeof_proghdr);
      if negb (u32 r.1 =? sizeof_proghdr) then mret None else
      let ph := get_proghdr r.2 in
      if negb (ph_type ph =? ELF_PROG_LOAD) then exec_load n' pgdir ip (s32 (off + sizeof_proghdr)) sz else
      if ph_memsz ph <? ph_filesz ph then mret None else
      sz ← lift (allocuvm kend pgdir sz (u32 (ph_vaddr ph + ph_memsz ph)));
      if sz =? 0 then mret None else
      l ← loaduvm pgdir (ph_vaddr ph) ip (ph_off ph) (ph_filesz ph);
      if l <? 0 then mret None else
      exec_load n' pgdir ip (s32 (off + sizeof_proghdr)) sz
  end.

(** The loop that pushes the argument strings: the new stack pointer and the
    pointers to the strings, the last one first in [acc]. *)
Fixpoint push_args (pgdir : Z) (argv : list (list Z)) (argc : nat) (sp : Z) (acc : list Z)
  : M ps (option (Z * list Z)) :=
  match argv with
  | [] => mret (Some (sp, rev acc))
  | a :: argv' =>
      if (MAXARG <=? argc)%nat then mret None else
      nm ← deref (until_nul a);
      let len := Z.of_nat (length nm) + 1 in
      let sp := Z.land (u32 (sp - len)) (Z.lnot 3) in
      c ← lift (copyout pgdir sp a len);
      if c <? 0 then mret None else push_args pgdir argv' (S argc) sp (sp :: acc)
  end.

(** The element after the last slash. *)
Fixpoint last_elem (path last : list Z) : list Z :=
  match path with
  | [] => last
  | c :: path' => last_elem path' (if c =? 47 then path' else last)
  end.

Definition pset_image (pgdir sz eip esp : Z) (p : proc) : proc :=
  let t := p_tf p in
  pset_mem pgdir sz (pset_tf
    (mkTf (tf_edi t) (tf_esi t) (tf_ebp t) (tf_oesp t) (tf_ebx t) (tf_edx t) (tf_ecx t) (tf_eax t)
       (tf_gs t) (tf_fs t) (tf_es t) (tf_ds t) (tf_trapno t)
       (tf_err t) eip (tf_cs t) (tf_eflags t) esp (tf_ss t)) p).

(** From the stack of the new image on. *)
Definition exec_stack (me : nat) (path : list Z) (argv : list (list Z)) (elf : elfhdr) (pgdir sz : Z) : M ps Z :=
  let sz := PGROUNDUP sz in
  sz ← lift (allocuvm kend pgdir sz (u32 (sz + 2 * PGSIZE)));
  if sz =? 0 then exec_bad pgdir None else
  lift (clearpteu pgdir (sz - 2 * PGSIZE));;
  r ← push_args pgdir argv 0 sz [];
  match r with
  | None => exec_bad pgdir None
  | Some (sp, ptrs) =>
      let argc := Z.of_nat (length ptrs) in
      let ustack := [0xffffffff; argc; u32 (sp - (argc + 1) * 4)] ++ ptrs ++ [0] in
      let sp := u32 (sp - (3 + argc + 1) * 4) in
      c ← lift (copyout pgdir sp (concat (map (le_split 4) ustack)) ((3 + argc + 1) * 4));
      if c <? 0 then exec_bad pgdir None else
      nm ← deref (until_nul path);
      updp me (λ x, pset_name (splice 0 (safestr 16 (last_elem nm nm)) (p_name x)) x);;
      p ← getp me;
      updp me (pset_image pgdir sz (e_entry elf) sp);;
      lift (freevm kend (p_pgdir p));;
      mret 0
  end.

(** A return value of [readi] is compared with [sizeof(elf)] as an unsigned
    number, so that the error value goes on to an uninitialised [elf]. *)
Definition exec (me : nat) (path : list Z) (argv : list (list Z)) : M ps Z :=
  p ← getp me;
  cwd ← deref (p_cwd p);
  root ← lift (namei dsw cwd [47; 0]);
  ip ← lift (namei dsw cwd path);
  ip ← (match ip with
        | Some i => mret (Some i)
        | None =>
            root ← deref root;
            r ← lift (dirlookup dsw root path);
            mret (fst <$> r)
        end);
  match ip with
  | None => mret (-1)
  | Some ip =>
      lift (ilock ip);;
      r ← lift (readi dsw ip 0 sizeof_elfhdr);
      if u32 r.1 <? sizeof_elfhdr then exec_bad 0 (Some ip) else
      if r.1 <? 0 then undef else
      let elf := get_elfhdr r.2 in
      if negb (e_magic elf =? ELF_MAGIC) then exec_bad 0 (Some ip) else
      pgdir ← lift (setupkvm kdata);
      if pgdir =? 0 then exec_bad 0 (Some ip) else
      l ← exec_load (Z.to_nat (e_phnum elf)) pgdir ip (s32 (e_phoff elf)) 0;
      match l with
      | None => exec_bad pgdir (Some ip)
      | Some sz =>
          lift (iunlockput ip);;
          exec_stack me path argv elf pgdir sz
      end
  end.

End Exec.
