(* ===== verification/Syscall.v ===== *)
(** * System calls (syscall.c, sysfile.c, sysproc.c)

    [me] is the index of the calling process. Its memory is reached through its
    page table: a byte that is not mapped is a fault ([Undef]). A function that
    returns a value through a pointer returns an option; [None] is its error
    value. The transfer of bytes to the caller's memory happens at the end of
    the call. *)

From S2P Require Import Prelude Cstring Buf Bio Log Fs Spinlock Pipe Kalloc Vm File Proc Exec FsProps.

Definition O_RDONLY : Z := 0.
Definition O_WRONLY : Z := 1.
Definition O_RDWR : Z := 2.
Definition O_CREATE : Z := 0x200.
Definition sizeof_stat : Z := 20.

#[export] Instance lst_ps : Layer lst ps := {|
  low := λ t, lt (fsys (files t));
  set_low s t := mkPs (mkFt (mkFs s (icache (fsys (files t)))) (ftable (files t)) (pipes (files t)) (km (files t)))
                   (procs t) (nextpid t) (initproc t);
  low_set := λ s t, eq_refl; set_set_low := λ s s' t, eq_refl;
|}.

(** ** The memory of the caller *)
Definition uaddr (pgdir va : Z) : M kmem (Z * nat) :=
  pde ← rdword pgdir (PDX va);
  if Z.land pde PTE_P =? 0 then undef else
  pte ← rdword (p2v (PTE_ADDR pde)) (PTX va);
  if Z.land pte PTE_P =? 0 then undef else
  mret (p2v (PTE_ADDR pte), Z.to_nat (va `mod` PGSIZE)).
Definition uload (pgdir va : Z) : M kmem Z :=
  a ← uaddr pgdir va;
  k ← getM;
  d ← deref (pages k !! a.1);
  mret (d !!! a.2).
Definition ustore (pgdir va c : Z) : M kmem unit :=
  a ← uaddr pgdir va; updpage a.1 <[a.2 := c]>.
(** [n] bytes from [va] on. *)
Fixpoint uloads (n : nat) (pgdir va : Z) : M kmem (list Z) :=
  match n with
  | O => mret []
  | S n' => c ← uload pgdir va; l ← uloads n' pgdir (u32 (va + 1)); mret (c :: l)
  end.
Fixpoint ustores (l : list Z) (pgdir va : Z) : M kmem unit :=
  match l with
  | [] => mret tt
  | c :: l' => ustore pgdir va c;; ustores l' pgdir (u32 (va + 1))
  end.

(** ** Arguments *)
Definition fetchint (me : nat) (addr : Z) : M ps (option Z) :=
  p ← getp me;
  if (addr >=? p_sz p) || (u32 (addr + 4) >? p_sz p) then mret None else
  l ← lift (uloads 4 (p_pgdir p) addr);
  mret (Some (s32 (le_join l))).

(** The scan for the terminator, [n] bytes left before the end of the memory. *)
Fixpoint fetchstr_scan (n : nat) (pgdir s : Z) : M kmem (option Z) :=
  match n with
  | O => mret None
  | S n' =>
      c ← uload pgdir s;
      if c =? 0 then mret (Some s) else fetchstr_scan n' pgdir (s + 1)
  end.
(** The address and the length of the string. *)
Definition fetchstr (me : nat) (addr : Z) : M ps (option (Z * Z)) :=
  p ← getp me;
  if addr >=? p_sz p then mret None else
  e ← lift (fetchstr_scan (Z.to_nat (p_sz p - addr)) (p_pgdir p) addr);
  mret ((λ s, (addr, s - addr)) <$> e).

Definition argint (me : nat) (n : Z) : M ps (option Z) :=
  p ← getp me; fetchint me (u32 (tf_esp (p_tf p) + 4 + 4 * n)).

(** The size is converted to unsigned in the comparison. *)
Definition argptr (me : nat) (n size : Z) : M ps (option Z) :=
  i ← argint me n;
  match i with
  | None => mret None
  | Some i =>
      p ← getp me;
      if (u32 i >=? p_sz p) || (u32 (u32 i + size) >? p_sz p) then mret None
      else mret (Some (u32 i))
  end.

Definition argstr (me : nat) (n : Z) : M ps (option (Z * Z)) :=
  a ← argint me n;
  match a with None => mret None | Some a => fetchstr me (u32 a) end.

(** The bytes of a string argument, with the terminator. *)
Definition ustring (me : nat) (s : Z * Z) : M ps (list Z) :=
  p ← getp me; lift (uloads (Z.to_nat (s.2 + 1)) (p_pgdir p) s.1).

Definition argfd (me : nat) (n : Z) : M ps (option (nat * nat)) :=
  fd ← argint me n;
  match fd with
  | None => mret None
  | Some fd =>
      if (fd <? 0) || (fd >=? Z.of_nat NOFILE) then mret None else
      p ← getp me;
      mret ((λ f, (Z.to_nat fd, f)) <$> mjoin (p_ofile p !! Z.to_nat fd))
  end.

Fixpoint free_fd (l : list (option nat)) (fd : nat) : option nat :=
  match l with
  | [] => None
  | Some _ :: l' => free_fd l' (S fd)
  | None :: _ => Some fd
  end.
Definition fdalloc (me f : nat) : M ps (option nat) :=
  p ← getp me;
  match free_fd (p_ofile p) 0 with
  | Some fd => updp me (pset_ofile fd (Some f));; mret (Some fd)
  | None => mret None
  end.

(** ** Dispatch: a table of system calls by number, over any state with processes. *)
Definition syscall {T} `{!Layer ps T} (syscalls : list (option (M T Z))) (me : nat) : M T unit :=
  p ← lift (getp me);
  let num := s32 (tf_eax (p_tf p)) in
  match (if (0 <? num) && (num <? Z.of_nat (length syscalls)) then mjoin (syscalls !! Z.to_nat num) else None) with
  | Some f => r ← f; lift (updp me (λ x, pset_tf (set_eax (u32 r) (p_tf x)) x))
  | None => lift (updp me (λ x, pset_tf (set_eax (u32 (-1)) (p_tf x)) x))
  end.

Section Syscalls.
Context `{BD : BlockDev} (dsw : devsw) (kend kdata : Z).

(** ** Files *)
Definition sys_dup (me : nat) : M ps Z :=
  a ← argfd me 0;
  match a with
  | None => mret (-1)
  | Some (_, f) =>
      fd ← fdalloc me f;
      match fd with
      | None => mret (-1)
      | Some fd => lift (filedup f);; mret (Z.of_nat fd)
      end
  end.

(** The arguments of [sys_read] and [sys_write]: the file, the buffer and its
    length. *)
Definition rw_args (me : nat) : M ps (option (nat * Z * Z)) :=
  a ← argfd me 0;
  match a with
  | None => mret None
  | Some (_, f) =>
      n ← argint me 2;
      match n with
      | None => mret None
      | Some n => p ← argptr me 1 n; mret ((λ p, (f, p, n)) <$> p)
      end
  end.

Definition sys_read (me : nat) : M ps Z :=
  a ← rw_args me;
  match a with
  | None => mret (-1)
  | Some (f, p, n) =>
      P ← getp me;
      r ← lift (fileread dsw (p_killed P) f n);
      lift (ustores r.2 (p_pgdir P) p);;
      mret r.1
  end.

Definition sys_write (me : nat) : M ps Z :=
  a ← rw_args me;
  match a with
  | None => mret (-1)
  | Some (f, p, n) =>
      P ← getp me;
      l ← lift (uloads (Z.to_nat n) (p_pgdir P) p);
      lift (filewrite dsw (p_killed P) f l n)
  end.

Definition sys_close (me : nat) : M ps Z :=
  a ← argfd me 0;
  match a with
  | None => mret (-1)
  | Some (fd, f) =>
      updp me (pset_ofile fd None);;
      lift (fileclose kend f);;
      mret 0
  end.

(** [struct stat] in memory, with the padding left as it was. *)
Definition put_stat (st : stat) (old : list Z) : list Z :=
  put_32 16 (st_size st) (put_16 12 (st_nlink st) (put_32 8 (st_ino st) (put_32 4 (st_dev st) (put_16 0 (st_type st) old)))).

Definition sys_fstat (me : nat) : M ps Z :=
  a ← argfd me 0;
  match a with
  | None => mret (-1)
  | Some (_, f) =>
      p ← argptr me 1 sizeof_stat;
      match p with
      | None => mret (-1)
      | Some p =>
          st ← lift (filestat f);
          match st with
          | None => mret (-1)
          | Some st =>
              P ← getp me;
              old ← lift (uloads (Z.to_nat sizeof_stat) (p_pgdir P) p);
              lift (ustores (put_stat st old) (p_pgdir P) p);;
              mret 0
          end
      end
  end.

(** ** Names *)
Definition cwd_of (me : nat) : M ps nat := p ← getp me; deref (p_cwd p).

(** A name buffer on the stack: its bytes are not read before they are
    written. *)
Definition name_buf : list Z := replicate DIRSIZ 0.

Definition link_bad (ip : nat) : M ps Z :=
  lift (ilock ip);;
  lift (updi ip (λ i, iset_nlink (s16 (i_nlink i - 1)) i));;
  lift (iupdate ip);;
  lift (iunlockput ip);;
  lift commit_trans;;
  mret (-1).

Definition sys_link (me : nat) : M ps Z :=
  old ← argstr me 0;
  match old with None => mret (-1) | Some old =>
  new ← argstr me 1;
  match new with None => mret (-1) | Some new =>
  oldp ← ustring me old; newp ← ustring me new;
  cwd ← cwd_of me;
  r ← lift (namei dsw cwd oldp);
  match r with None => mret (-1) | Some ip =>
  lift begin_trans;;
  lift (ilock ip);;
  i ← lift (geti ip);
  if i_type i =? T_DIR then
    lift (iunlockput ip);;
    lift commit_trans;;
    mret (-1)
  else
  lift (updi ip (λ i, iset_nlink (s16 (i_nlink i + 1)) i));;
  lift (iupdate ip);;
  lift (iunlock ip);;
  r ← lift (nameiparent dsw cwd newp name_buf);
  match r with
  | (None, _) => link_bad ip
  | (Some dp, name) =>
      lift (ilock dp);;
      d ← lift (geti dp);
      i ← lift (geti ip);
      ok ← (if negb (i_dev d =? i_dev i) then mret false else
            l ← lift (dirlink dsw dp name (i_inum i)); mret (negb (l <? 0)));
      if negb ok then lift (iunlockput dp);; link_bad ip else
      lift (iunlockput dp);;
      lift (iput ip);;
      lift commit_trans;;
      mret 0
  end end end end.

(** The loop of [isdirempty]; an entry takes 16 bytes. *)
Fixpoint isdirempty_loop (fuel : nat) (dp : nat) (off : Z) : M fs bool :=
  d ← geti dp;
  if off <? i_size d then
    match fuel with
    | O => stopM NoFuel
    | S fuel' =>
        r ← readi dsw dp off (Z.of_nat sizeof_dirent);
        if negb (r.1 =? Z.of_nat sizeof_dirent) then panic "isdirempty: readi" else
        if negb (de_inum r.2 =? 0) then mret false
        else isdirempty_loop fuel' dp (off + Z.of_nat sizeof_dirent)
    end
  else mret true.
Definition isdirempty (dp : nat) : M fs bool :=
  d ← geti dp; isdirempty_loop (Z.to_nat (i_size d / 16 + 1)) dp (2 * Z.of_nat sizeof_dirent).

Definition unlink_bad (dp : nat) : M ps Z :=
  lift (iunlockput dp);; lift commit_trans;; mret (-1).

Definition sys_unlink (me : nat) : M ps Z :=
  path ← argstr me 0;
  match path with None => mret (-1) | Some path =>
  pathp ← ustring me path;
  cwd ← cwd_of me;
  r ← lift (nameiparent dsw cwd pathp name_buf);
  match r with
  | (None, _) => mret (-1)
  | (Some dp, name) =>
      lift begin_trans;;
      lift (ilock dp);;
      d1 ← deref (namecmp name [46; 0]);
      d2 ← (if d1 =? 0 then mret 0 else deref (namecmp name [46; 46; 0]));
      if d2 =? 0 then unlink_bad dp else
      r ← lift (dirlookup dsw dp name);
      match r with
      | None => unlink_bad dp
      | Some (ip, off) =>
          lift (ilock ip);;
          i ← lift (geti ip);
          if i_nlink i <? 1 then panic "unlink: nlink < 1" else
          empty ← (if i_type i =? T_DIR then lift (isdirempty ip) else mret true);
          if negb empty then lift (iunlockput ip);; unlink_bad dp else
          w ← lift (writei dsw dp (replicate sizeof_dirent 0) off (Z.of_nat sizeof_dirent));
          if negb (w =? Z.of_nat sizeof_dirent) then panic "unlink: writei" else
          (if i_type i =? T_DIR then
             lift (updi dp (λ d, iset_nlink (s16 (i_nlink d - 1)) d));;
             lift (iupdate dp)
           else mret tt);;
          lift (iunlockput dp);;
          lift (updi ip (λ i, iset_nlink (s16 (i_nlink i - 1)) i));;
          lift (iupdate ip);;
          lift (iunlockput ip);;
          lift commit_trans;;
          mret 0
      end
  end end.

Definition create (me : nat) (path : list Z) (type major minor : Z) : M ps (option nat) :=
  cwd ← cwd_of me;
  r ← lift (nameiparent dsw cwd path name_buf);
  match r with
  | (None, _) => mret None
  | (Some dp, name) =>
      lift (ilock dp);;
      r ← lift (dirlookup dsw dp name);
      match r with
      | Some (ip, _) =>
          lift (iunlockput dp);;
          lift (ilock ip);;
          i ← lift (geti ip);
          if (type =? T_FILE) && (i_type i =? T_FILE) then mret (Some ip) else
          lift (iunlockput ip);;
          mret None
      | None =>
          d ← lift (geti dp);
          ip ← lift (ialloc (i_dev d) type);
          lift (ilock ip);;
          lift (updi ip (λ i, iset_nlink 1 (iset_minor minor (iset_major major i))));;
          lift (iupdate ip);;
          i ← lift (geti ip);
          (if type =? T_DIR then
             lift (updi dp (λ d, iset_nlink (s16 (i_nlink d + 1)) d));;
             lift (iupdate dp);;
             l1 ← lift (dirlink dsw ip [46; 0] (i_inum i));
             if l1 <? 0 then panic "create dots" else
             l2 ← lift (dirlink dsw ip [46; 46; 0] (i_inum d));
             if l2 <? 0 then panic "create dots" else mret tt
           else mret tt);;
          l ← lift (dirlink dsw dp name (i_inum i));
          if l <? 0 then panic "create: dirlink" else
          lift (iunlockput dp);;
          mret (Some ip)
      end
  end.

(** The inode that [sys_open] opens, locked. *)
Definition open_inode (me : nat) (pathp : list Z) (omode : Z) : M ps (option nat) :=
  if negb (Z.land omode O_CREATE =? 0) then
    lift begin_trans;;
    ip ← create me pathp T_FILE 0 0;
    lift commit_trans;;
    mret ip
  else
    cwd ← cwd_of me;
    r ← lift (namei dsw cwd pathp);
    match r with
    | None => mret None
    | Some ip =>
        lift (ilock ip);;
        i ← lift (geti ip);
        if (i_type i =? T_DIR) && negb (omode =? O_RDONLY) then
          lift (iunlockput ip);; mret None
        else mret (Some ip)
    end.

Definition sys_open (me : nat) : M ps Z :=
  path ← argstr me 0;
  match path with None => mret (-1) | Some path =>
  omode ← argint me 1;
  match omode with None => mret (-1) | Some omode =>
  pathp ← ustring me path;
  r ← open_inode me pathp omode;
  match r with None => mret (-1) | Some ip =>
  f ← lift filealloc;
  match f with
  | None => lift (iunlockput ip);; mret (-1)
  | Some f =>
      fd ← fdalloc me f;
      match fd with
      | None =>
          lift (fileclose kend f);;
          lift (iunlockput ip);;
          mret (-1)
      | Some fd =>
          lift (iunlock ip);;
          let wr := negb (Z.land omode O_WRONLY =? 0) in
          let rw := negb (Z.land omode O_RDWR =? 0) in
          lift (updf f (λ x, mkFile FD_INODE (f_ref x) (negb wr) (wr || rw) (f_pipe x) ip 0));;
          mret (Z.of_nat fd)
      end
  end end end end.

Definition sys_mkdir (me : nat) : M ps Z :=
  lift begin_trans;;
  path ← argstr me 0;
  ip ← (match path with
        | None => mret None
        | Some path => pathp ← ustring me path; create me pathp T_DIR 0 0
        end);
  match ip with
  | None => lift commit_trans;; mret (-1)
  | Some ip => lift (iunlockput ip);; lift commit_trans;; mret 0
  end.

Definition sys_mknod (me : nat) : M ps Z :=
  lift begin_trans;;
  path ← argstr me 0;
  ip ← (match path with None => mret None | Some path =>
        major ← argint me 1;
        match major with None => mret None | Some major =>
        minor ← argint me 2;
        match minor with None => mret None | Some minor =>
        pathp ← ustring me path;
        create me pathp T_DEV (s16 major) (s16 minor)
        end end end);
  match ip with
  | None => lift commit_trans;; mret (-1)
  | Some ip => lift (iunlockput ip);; lift commit_trans;; mret 0
  end.

(** The path kept for the prompt is extended by the argument; a byte past its
    array would be a write out of bounds. *)
Definition npath_append (npath path : list Z) : option (list Z) :=
  old ← until_nul npath;
  nm ← until_nul path;
  let new := old ++ [47] ++ nm ++ [0] in
  if (length new <=? length npath)%nat then Some (splice 0 new npath) else None.

Definition sys_chdir (me : nat) : M ps Z :=
  path ← argstr me 0;
  match path with None => mret (-1) | Some path =>
  pathp ← ustring me path;
  cwd ← cwd_of me;
  r ← lift (namei dsw cwd pathp);
  match r with None => mret (-1) | Some ip =>
  lift (ilock ip);;
  i ← lift (geti ip);
  if negb (i_type i =? T_DIR) then lift (iunlockput ip);; mret (-1) else
  lift (iunlock ip);;
  lift (iput cwd);;
  updp me (pset_cwd (Some ip));;
  p ← getp me;
  np ← deref (npath_append (p_npath p) pathp);
  updp me (pset_npath np);;
  mret 0
  end end.

(** The loop of [sys_exec] over the argument vector: [None] is an error
    return, otherwise the strings in order. *)
Fixpoint exec_args (n : nat) (me : nat) (uargv i : Z) : M ps (option (list (list Z))) :=
  match n with
  | O => mret None
  | S n' =>
      uarg ← fetchint me (u32 (uargv + 4 * i));
      match uarg with
      | None => mret None
      | Some uarg =>
          if uarg =? 0 then mret (Some []) else
          s ← fetchstr me (u32 uarg);
          match s with
          | None => mret None
          | Some s =>
              a ← ustring me s;
              rest ← exec_args n' me uargv (i + 1);
              mret (cons a <$> rest)
          end
      end
  end.

Definition sys_exec (me : nat) : M ps Z :=
  path ← argstr me 0;
  match path with None => mret (-1) | Some path =>
  uargv ← argint me 1;
  match uargv with None => mret (-1) | Some uargv =>
  pathp ← ustring me path;
  argv ← exec_args MAXARG me (u32 uargv) 0;
  match argv with
  | None => mret (-1)
  | Some argv => exec dsw kend kdata me pathp argv
  end end end.

Definition sys_pipe (me : nat) : M ps Z :=
  fd ← argptr me 0 8;
  match fd with None => mret (-1) | Some fd =>
  r ← lift (pipealloc kend);
  match r with None => mret (-1) | Some (rf, wf) =>
  fd0 ← fdalloc me rf;
  fd1 ← (match fd0 with Some _ => fdalloc me wf | None => mret None end);
  match fd0, fd1 with
  | Some fd0, Some fd1 =>
      p ← getp me;
      lift (ustores (le_split 4 (Z.of_nat fd0) ++ le_split 4 (Z.of_nat fd1)) (p_pgdir p) fd);;
      mret 0
  | _, _ =>
      (match fd0 with Some fd0 => updp me (pset_ofile fd0 None) | None => mret tt end);;
      lift (fileclose kend rf);;
      lift (fileclose kend wf);;
      mret (-1)
  end end end.

(** ** Processes *)
Definition sys_fork (me : nat) : M ps Z := fork kend kdata me.
(** [exit] does not return; here the run ends at its switch to the scheduler. *)
Definition sys_exit (me : nat) : M ps Z := exit kend me;; stopM (Sleep "zombie" me).
Definition sys_wait (me : nat) : M ps Z :=
  r ← wait kend me;
  match r with
  | WaitPid pid => mret pid
  | WaitNone => mret (-1)
  | WaitSleep => stopM (Sleep "proc" me)
  end.
Definition sys_kill (me : nat) : M ps Z :=
  pid ← argint me 0;
  match pid with None => mret (-1) | Some pid => kill pid end.
Definition sys_getpid (me : nat) : M ps Z := p ← getp me; mret (p_pid p).
Definition sys_sbrk (me : nat) : M ps Z :=
  n ← argint me 0;
  match n with
  | None => mret (-1)
  | Some n =>
      p ← getp me;
      g ← growproc kend me n;
      if g <? 0 then mret (-1) else mret (s32 (p_sz p))
  end.
Definition sys_alarm (me : nat) : M ps Z :=
  ticks ← argint me 0;
  match ticks with None => mret (-1) | Some ticks =>
  handler ← argptr me 1 1;
  match handler with None => mret (-1) | Some handler =>
  updp me (λ p, mkProc (p_sz p) (p_pgdir p) (p_kstack p) (p_state p) (p_pid p) (p_parent p) (p_tf p) (p_chan p)
    (p_killed p) (p_ofile p) (p_cwd p) (p_name p) (p_npath p) ticks handler (p_curalarmtick p) (p_keyboardHandler p));;
  mret 0
  end end.
Definition sys_time (me : nat) : M ps Z := p ← getp me; mret (p_curalarmtick p).

End Syscalls.

(** ** The checks on arguments *)

(** Every address below [sz] is mapped. *)
Definition mapped (k : kmem) (pgdir sz : Z) : Prop :=
  ∀ va, 0 ≤ va < sz → ∃ c, uload pgdir va k = Ok c k.
(** The byte at a mapped address. *)
Definition ubyte (k : kmem) (pgdir va : Z) : Z :=
  match uload pgdir va k with Ok c _ => c | Err _ _ => 0 end.

Lemma mapped_load k pgdir sz va :
  mapped k pgdir sz → 0 ≤ va < sz → uload pgdir va k = Ok (ubyte k pgdir va) k.
Proof. intros Hm Hva. destruct (Hm va Hva) as [c Hc]. unfold ubyte. by rewrite Hc. Qed.

Lemma fetchstr_scan_spec k pgdir sz : mapped k pgdir sz → ∀ n s,
  0 ≤ s → s + Z.of_nat n = sz →
  ∃ r, fetchstr_scan n pgdir s k = Ok r k ∧
    match r with
    | Some e => s ≤ e < sz ∧ ubyte k pgdir e = 0 ∧ ∀ a, s ≤ a < e → ubyte k pgdir a ≠ 0
    | None => ∀ a, s ≤ a < sz → ubyte k pgdir a ≠ 0
    end.
Proof.
  intros Hm n. induction n as [|n IH]; intros s Hs Hn.
  - exists None. split; [done|]. lia.
  - simpl. unfold mbind, M_bind. rewrite (mapped_load _ _ _ _ Hm) by lia.
    destruct (Z.eqb_spec (ubyte k pgdir s) 0) as [H0|H0].
    + exists (Some s). split; [done|]. split; [lia|]. split; [done|]. lia.
    + destruct (IH (s + 1)) as (r & Hr & Hspec); [lia..|]. exists r. split; [done|].
      assert (Hstep : ∀ a, s ≤ a → a = s ∨ s + 1 ≤ a) by lia.
      destruct r as [e|].
      * destruct Hspec as (? & ? & Hne). split; [lia|]. split; [done|].
        intros a Ha. destruct (Hstep a) as [->|?]; [lia|done|]. apply Hne. lia.
      * intros a Ha. destruct (Hstep a) as [->|?]; [lia|done|]. apply Hspec. lia.
Qed.

Lemma lift_ro {A} (m : M kmem A) (s : ps) a :
  m (km (files s)) = Ok a (km (files s)) → lift m s = Ok a s.
Proof. intros H. unfold lift. simpl. rewrite H. by destruct s as [[]]. Qed.

(** [fetchstr] on a process whose memory below [sz] is mapped: it changes
    nothing, does not fault, and returns a string exactly when the address is
    in the process and a terminator follows it before the end of the memory;
    the string and its terminator then lie inside the process and the length is
    the distance to the first terminator. *)
Theorem fetchstr_correct me addr s p :
  procs s !! me = Some p → 0 ≤ addr → mapped (km (files s)) (p_pgdir p) (p_sz p) →
  ∃ r, fetchstr me addr s = Ok r s ∧
    (∀ pp len, r = Some (pp, len) →
       pp = addr ∧ 0 ≤ len ∧ addr + len < p_sz p ∧
       ubyte (km (files s)) (p_pgdir p) (addr + len) = 0 ∧
       ∀ j, 0 ≤ j < len → ubyte (km (files s)) (p_pgdir p) (addr + j) ≠ 0) ∧
    (r = None ↔ ∀ a, addr ≤ a < p_sz p → ubyte (km (files s)) (p_pgdir p) a ≠ 0).
Proof.
  intros Hp Haddr Hm. unfold fetchstr, mbind, M_bind, getp. rewrite Hp. rewrite Z.geb_leb.
  destruct (Z.leb_spec (p_sz p) addr) as [Hle|Hlt].
  { exists None. split; [done|]. split; [done|]. split; [lia|done]. }
  destruct (fetchstr_scan_spec _ _ _ Hm (Z.to_nat (p_sz p - addr)) addr) as (r & Hr & Hspec); [lia..|].
  rewrite (lift_ro _ _ _ Hr). exists ((λ e, (addr, e - addr)) <$> r). split; [done|].
  destruct r as [e|]; simpl; [|split; [done|]; split; [done|done]].
  destruct Hspec as (He & H0 & Hne). split.
  - intros pp len [= <- <-]. replace (addr + (e - addr)) with e by lia.
    repeat (split; [lia||done|]). intros j Hj. apply Hne. lia.
  - split; [done|]. intros Hall. by destruct (Hall e He).
Qed.

(** A process with 32 bytes of memory: a saved program counter at 4, the first
    argument 20 at 8, and the string "hi" at 20. *)
Definition user_page : list Z := splice 8 [20; 0; 0; 0] (splice 20 [104; 105; 0] zero_page).
Definition small_kmem : kmem :=
  mkKmem false 0 (<[KERNBASE + 0x1000 := put_32 0 0x2007 zero_page]>
    (<[KERNBASE + 0x2000 := put_32 0 0x3007 zero_page]>
    (<[KERNBASE + 0x3000 := user_page]> ∅))).
Definition small_proc : proc :=
  pset_mem (KERNBASE + 0x1000) 32 (pset_state RUNNING (pset_tf
    (mkTf 0 0 0 0 0 0 0 0 0 0 0 0 0 0 0 0 0 4 0) proc0)).
Definition small_ps : ps := mkPs (mkFt (fs0 []) [] ∅ small_kmem) [small_proc] 2 0.

Lemma rdword_ro pg idx k w k' : rdword pg idx k = Ok w k' → k' = k.
Proof. unfold rdword. destruct (pages k !! pg); [|done]. by intros [= _ <-]. Qed.

Lemma uload_ro pgdir va k c k' : uload pgdir va k = Ok c k' → k' = k.
Proof.
  unfold uload, uaddr, mbind, M_bind.
  destruct (rdword pgdir (PDX va) k) as [pde k1|] eqn:E1; [|done].
  apply rdword_ro in E1 as ->. destruct (Z.land pde PTE_P =? 0); [done|].
  destruct (rdword _ (PTX va) k) as [pte k2|] eqn:E2; [|done].
  apply rdword_ro in E2 as ->. destruct (Z.land pte PTE_P =? 0); [done|].
  unfold getM, deref. simpl. destruct (pages k !! _); [|done]. by intros [= _ <-].
Qed.

Lemma small_mapped : mapped small_kmem (KERNBASE + 0x1000) 32.
Proof.
  intros va Hva.
  assert (H : forallb (λ n, match uload (KERNBASE + 0x1000) (Z.of_nat n) small_kmem with
                            | Ok c k => true | Err _ _ => false end) (seq 0 32) = true)
    by (vm_compute; reflexivity).
  rewrite forallb_forall in H. specialize (H (Z.to_nat va)).
  rewrite Z2Nat.id in H by lia.
  destruct (uload _ va small_kmem) as [c k|] eqn:E.
  - exists c. by rewrite (uload_ro _ _ _ _ _ E).
  - discriminate H. apply in_seq. lia.
Qed.

Lemma fetchstr_correct_witness :
  ∃ r, fetchstr 0 20 small_ps = Ok r small_ps ∧
    (∀ pp len, r = Some (pp, len) → pp = 20 ∧ 0 ≤ len ∧ 20 + len < 32).
Proof.
  destruct (fetchstr_correct 0 20 small_ps small_proc) as (r & Hr & Hs & _).
  - reflexivity.
  - lia.
  - apply small_mapped.
  - exists r. split; [exact Hr|]. intros pp len E. destruct (Hs pp len E) as (H1 & H2 & H3 & _).
    split; [exact H1|]. split; [exact H2|exact H3].
Defined.

(** C32: [argptr] with a size that is not negative, in a process that lies
    below the kernel: a pointer it returns is the argument, and the whole block
    lies inside the process. *)
Theorem argptr_in_bounds me n size s s' p q :
  procs s !! me = Some p → p_sz p ≤ KERNBASE → 0 ≤ size < 2 ^ 31 →
  argptr me n size s = Ok (Some q) s' →
  0 ≤ q ∧ q + size ≤ p_sz p ∧ ∃ i, argint me n s = Ok (Some i) s' ∧ q = u32 i.
Proof.
  intros Hp Hsz Hsize. unfold argptr, mbind, M_bind.
  destruct (argint me n s) as [[i|] s1|e s1] eqn:Hi; [|done|done].
  unfold getp. destruct (procs s1 !! me) as [p1|] eqn:Hp1; [|done].
  assert (procs s1 = procs s) as Heq.
  { revert Hi. unfold argint, fetchint, mbind, M_bind, getp. rewrite Hp, Hp.
    destruct (_ || _); [by intros [= _ <-]|]. unfold lift.
    destruct (uloads _ _ _ _); [|done]. by intros [= _ <-]. }
  rewrite Heq, Hp in Hp1. simplify_eq.
  destruct (_ || _) eqn:Hc; [done|]. intros [= <- <-].
  apply orb_false_iff in Hc as [Hc1 Hc2]. rewrite Z.geb_leb in Hc1. rewrite Z.gtb_ltb in Hc2.
  apply Z.leb_gt in Hc1. apply Z.ltb_ge in Hc2.
  pose proof (u32_bound i). unfold KERNBASE in Hsz.
  rewrite (u32_small (u32 i + size)) in Hc2 by lia.
  split; [lia|]. split; [lia|]. by exists i.
Qed.

Lemma argptr_in_bounds_witness : ∃ q, argptr 0 0 4 small_ps = Ok (Some q) small_ps ∧ 0 ≤ q ∧ q + 4 ≤ 32.
Proof.
  assert (E : argptr 0 0 4 small_ps = Ok (Some 20) small_ps) by (vm_compute; reflexivity).
  exists 20. split; [exact E|].
  destruct (argptr_in_bounds 0 0 4 small_ps small_ps small_proc 20) as (H1 & H2 & _).
  - reflexivity.
  - vm_compute. congruence.
  - lia.
  - exact E.
  - split; [exact H1|exact H2].
Defined.

(** The comparison of [argptr] is unsigned, so that a negative size passes it
    for every pointer into the process: here the block of "-1 bytes" at 20.
    [sys_read] hands such a length on to [fileread]. *)
Lemma argptr_negative_size : argptr 0 0 (-1) small_ps = Ok (Some 20) small_ps.
Proof. vm_compute. reflexivity. Qed.

(** ** Reference counts of files *)

(** The number of descriptors that refer to file [f]. *)
Definition refers (f : nat) (o : option nat) : nat := if bool_decide (o = Some f) then 1 else 0.
Definition ocount (f : nat) (l : list (option nat)) : nat := sum_list_with (refers f) l.
Definition frefs (f : nat) (l : list proc) : nat := sum_list_with (λ p, ocount f (p_ofile p)) l.

(** Descriptors refer to entries of the table, and every entry counts its
    descriptors. *)
Record refs_ok (s : ps) : Prop := {
  ro_valid : ∀ k p fd f, procs s !! k = Some p → p_ofile p !! fd = Some (Some f) → (f < length (ftable (files s)))%nat;
  ro_count : ∀ f F, ftable (files s) !! f = Some F → f_ref F = Z.of_nat (frefs f (procs s));
}.

Lemma sum_insert {A} (g : A → nat) (l : list A) k x y :
  l !! k = Some x → (sum_list_with g (<[k := y]> l) + g x = sum_list_with g l + g y)%nat.
Proof.
  revert k. induction l as [|a l IH]; intros [|k]; simpl; [done..|intros [= ->]; lia|].
  intros H%IH. lia.
Qed.
Lemma sum_lookup_le {A} (g : A → nat) (l : list A) k x : l !! k = Some x → (g x <= sum_list_with g l)%nat.
Proof.
  revert k. induction l as [|a l IH]; intros [|k]; simpl; [done..|intros [= ->]; lia|].
  intros H%IH. lia.
Qed.

Lemma refers_same f : refers f (Some f) = 1%nat.
Proof. unfold refers. by rewrite bool_decide_true. Qed.
Lemma refers_other f g : g ≠ f → refers g (Some f) = 0%nat.
Proof. intros. unfold refers. rewrite bool_decide_false; congruence. Qed.

Lemma free_fd_spec l : ∀ k,
  match free_fd l k with
  | Some fd => ∃ i, fd = (k + i)%nat ∧ l !! i = Some None ∧ ∀ j, (j < i)%nat → ∃ f, l !! j = Some (Some f)
  | None => ∀ j, (j < length l)%nat → ∃ f, l !! j = Some (Some f)
  end.
Proof.
  induction l as [|o l IH]; intros k; simpl; [intros; lia|]. destruct o as [f|].
  - specialize (IH (S k)). destruct (free_fd l (S k)) as [fd|].
    + destruct IH as (i & -> & Hi & Hlow). exists (S i). split; [lia|]. split; [done|].
      intros [|j] Hj; simpl; [eauto|]. apply Hlow. lia.
    + intros [|j] Hj; simpl; [eauto|]. apply IH. lia.
  - exists 0%nat. split; [lia|]. split; [done|]. intros; lia.
Qed.

Lemma argint_procs me n s r s' : argint me n s = Ok r s' → procs s' = procs s ∧ ftable (files s') = ftable (files s).
Proof.
  unfold argint, fetchint, mbind, M_bind, getp. destruct (procs s !! me) as [p|] eqn:Hp; [|done]. rewrite Hp.
  destruct (_ || _); [by intros [= _ <-]|]. unfold lift.
  destruct (uloads _ _ _ _); [|done]. by intros [= _ <-].
Qed.

Lemma argfd_spec me n s r s' :
  argfd me n s = Ok r s' → procs s' = procs s ∧ ftable (files s') = ftable (files s) ∧
    ∀ fd f, r = Some (fd, f) → ∃ p, procs s !! me = Some p ∧ p_ofile p !! fd = Some (Some f).
Proof.
  unfold argfd, mbind, M_bind. destruct (argint me n s) as [[fd|] s1|] eqn:E; [| |done].
  - apply argint_procs in E as [Hp Hf]. destruct (_ || _); [by intros [= <- <-]|].
    unfold getp. rewrite Hp. destruct (procs s !! me) as [p|]; [|done].
    intros [= <- <-]. split; [done|]. split; [done|]. intros fd' f Hr.
    destruct (p_ofile p !! Z.to_nat fd) as [[f0|]|] eqn:Eo; simpl in Hr; [|done|done].
    simplify_eq. by exists p.
  - apply argint_procs in E as [Hp Hf]. by intros [= <- <-].
Qed.

(** Giving a free descriptor to a file, and counting it. *)
Lemma refs_ok_dup s me p fd f F :
  refs_ok s → procs s !! me = Some p → p_ofile p !! fd = Some None → ftable (files s) !! f = Some F →
  refs_ok (mkPs (mkFt (fsys (files s)) (<[f := fset_ref (f_ref F + 1) F]> (ftable (files s))) (pipes (files s)) (km (files s)))
    (<[me := pset_ofile fd (Some f) p]> (procs s)) (nextpid s) (initproc s)).
Proof.
  intros [Hv Hc] Hp Hfd HF. constructor; simpl.
  - intros k q fd' g Hq Hg. rewrite length_insert.
    destruct (decide (k = me)) as [->|Hne]; [|rewrite list_lookup_insert_ne in Hq by done; eauto].
    rewrite list_lookup_insert_eq in Hq by eauto using lookup_lt_Some. simplify_eq. simpl in Hg.
    destruct (decide (fd' = fd)) as [->|Hne]; [|rewrite list_lookup_insert_ne in Hg by done; eauto].
    rewrite list_lookup_insert_eq in Hg by eauto using lookup_lt_Some. simplify_eq. by eapply lookup_lt_Some.
  - intros g G HG.
    pose proof (sum_insert (λ p, ocount g (p_ofile p)) (procs s) me p (pset_ofile fd (Some f) p) Hp) as H1.
    pose proof (sum_insert (refers g) (p_ofile p) fd None (Some f) Hfd) as H2.
    cbv beta in H1. unfold frefs, ocount in *. simpl p_ofile in *.
    change (refers g None) with 0%nat in H2.
    destruct (decide (g = f)) as [->|Hne].
    + rewrite list_lookup_insert_eq in HG by eauto using lookup_lt_Some. simplify_eq. simpl.
      rewrite refers_same in H2. rewrite (Hc f F HF). unfold frefs, ocount. lia.
    + rewrite list_lookup_insert_ne in HG by done. rewrite (Hc g G HG).
      rewrite refers_other in H2 by done. unfold frefs, ocount. lia.
Qed.

(** [sys_dup] under exact reference counts: it stops only where reading
    its argument faults (so [filedup] does not panic), it keeps the counts
    exact, and when it returns a descriptor this is the lowest free one and now
    refers to the file of the argument. *)
Theorem sys_dup_refs me s p :
  procs s !! me = Some p → refs_ok s →
  match sys_dup me s with
  | Err e s' => argfd me 0 s = Err e s'
  | Ok r s' =>
      refs_ok s' ∧
      (r = -1 ∨ ∃ fd f old p', r = Z.of_nat fd ∧ p_ofile p !! old = Some (Some f) ∧
        p_ofile p !! fd = Some None ∧ (∀ j, (j < fd)%nat → p_ofile p !! j ≠ Some None) ∧
        procs s' !! me = Some p' ∧ p_ofile p' = <[fd := Some f]> (p_ofile p))
  end.
Proof.
  intros Hp Hok. unfold sys_dup, mbind, M_bind.
  destruct (argfd me 0 s) as [r s1|] eqn:E; [|done].
  apply argfd_spec in E as (Hpr & Hft & Hr).
  assert (Hok1 : refs_ok s1).
  { destruct Hok as [Hv Hc]. constructor; [rewrite Hpr, Hft; apply Hv|rewrite Hpr, Hft; apply Hc]. }
  destruct r as [[old f]|]; [|split; [done|by left]].
  destruct (Hr old f eq_refl) as (p1 & Hp1 & Ho). rewrite Hp in Hp1. simplify_eq.
  unfold fdalloc, mbind, M_bind, getp. rewrite Hpr, Hp.
  pose proof (free_fd_spec (p_ofile p1) 0) as Hfree.
  destruct (free_fd (p_ofile p1) 0) as [fd|]; [|split; [done|by left]].
  destruct Hfree as (i & -> & Hi & Hlow). simpl. unfold updp. rewrite Hpr, Hp. simpl.
  unfold filedup, lift, mbind, M_bind, getf. simpl.
  pose proof (ro_valid _ Hok1 me p1 old f) as Hlt. rewrite Hpr in Hlt. specialize (Hlt Hp Ho).
  destruct (lookup_lt_is_Some_2 _ _ Hlt) as [F HF]. rewrite HF.
  assert (Href : 1 ≤ f_ref F).
  { rewrite (ro_count _ Hok1 f F HF), Hpr.
    pose proof (sum_lookup_le (λ p, ocount f (p_ofile p)) _ me p1 Hp) as H1.
    pose proof (sum_lookup_le (refers f) _ old _ Ho) as H2.
    rewrite refers_same in H2. cbv beta in H1. unfold frefs, ocount in *. lia. }
  destruct (Z.ltb_spec (f_ref F) 1); [lia|]. unfold updf. simpl. rewrite HF. simpl.
  split; [rewrite <-Hpr; apply (refs_ok_dup s1 me p1 i f F); try done; by rewrite Hpr|].
  right. exists i, f, old, (pset_ofile i (Some f) p1). split; [done|]. split; [done|]. split; [done|].
  split; [intros j Hj HN; destruct (Hlow j Hj); congruence|].
  rewrite list_lookup_insert_eq by eauto using lookup_lt_Some. done.
Qed.

(** One process with file 0 open as descriptor 0; its first argument is 0. *)
Definition dup_ps : ps :=
  mkPs (mkFt (fs0 []) [mkFile FD_INODE 1 true true 0 0 0] ∅ small_kmem)
    [pset_ofile 0 (Some 0%nat) (pset_tf (mkTf 0 0 0 0 0 0 0 0 0 0 0 0 0 0 0 0 0 20 0) small_proc)] 2 0.

Lemma dup_ps_ok : refs_ok dup_ps.
Proof.
  constructor.
  - intros [|k] p fd f; simpl; [|done]. intros [= <-]. simpl.
    intros H. destruct fd as [|fd]; [simpl in H; simplify_eq; lia|].
    change (replicate 15 (@None nat) !! fd = Some (Some f)) in H.
    apply lookup_replicate in H as [? _]. done.
  - intros [|f] F; simpl; [|done]. intros [= <-]. vm_compute. reflexivity.
Qed.

Lemma sys_dup_refs_witness :
  ∃ s', sys_dup 0 dup_ps = Ok 1 s' ∧ refs_ok s'.
Proof.
  destruct (sys_dup 0 dup_ps) as [r s'|e s'] eqn:E; [|exfalso; vm_compute in E; congruence].
  exists s'. assert (r = 1) as -> by (vm_compute in E; congruence). split; [reflexivity|].
  epose proof (sys_dup_refs 0 dup_ps _ eq_refl dup_ps_ok) as H. rewrite E in H. exact (proj1 H).
Defined.
