(* ===== verification/Umalloc.v ===== *)
(** * The user memory allocator (umalloc.c)

    The allocator of Kernighan and Ritchie. The memory of the process is a
    function from addresses to 32-bit words; a load or store outside the
    variable [base] and the heap, or one that is not aligned, is a fault. A
    header is two words: [s.ptr] at its address and [s.size] four bytes above.
    Pointers are unsigned 32-bit addresses; adding [n] to a [Header] pointer
    adds [8 * n] to the address. The free list is circular, kept in increasing
    order of addresses, and [freep] is any of its elements. *)

From stdpp Require Import sorting.
From S2P Require Import Prelude Spinlock Kalloc.

Record mst := mkMst { mem : Z → Z; freep : Z; brk : Z }.

Definition set_mem (a v : Z) (s : mst) : mst := mkMst (λ x, if x =? a then v else mem s x) (freep s) (brk s).
Definition set_freep (p : Z) (s : mst) : mst := mkMst (mem s) p (brk s).
(** [sizeof(Header)] *)
Definition HSIZE : Z := 8.

Section umalloc.
(** The address of the static variable [base] and the start of the heap. *)
Context (base heap0 : Z).

Definition valid (s : mst) (a : Z) : bool :=
  (a `mod` 4 =? 0) && ((base <=? a) && (a <? base + HSIZE) || (heap0 <=? a) && (a <? brk s)).
Definition ld (a : Z) : M mst Z := λ s, if valid s a then Ok (mem s a) s else Err Undef s.
Definition st (a v : Z) : M mst unit := λ s, if valid s a then Ok tt (set_mem a v s) else Err Undef s.
Definition ptr_of (p : Z) : M mst Z := ld p.
Definition size_of (p : Z) : M mst Z := ld (u32 (p + 4)).
Definition set_ptr (p v : Z) : M mst unit := st p v.
Definition set_size (p v : Z) : M mst unit := st (u32 (p + 4)) v.
(** [p + n] for a pointer to [Header]. *)
Definition hadd (p n : Z) : Z := u32 (p + HSIZE * n).

(** The system call, as [sys_sbrk] and [growproc] answer it: [ok] says whether
    the kernel has the pages. New pages are zero. *)
Definition sbrk (ok : bool) (n : Z) : M mst Z := λ s,
  let b := brk s in
  if 0 <? n then
    if ok && (b + n <? KERNBASE)
    then Ok b (mkMst (λ a, if (PGROUNDUP b <=? a) && (a <? b + n) then 0 else mem s a) (freep s) (b + n))
    else Ok (2 ^ 32 - 1) s
  else if n <? 0 then
    let b' := u32 (b + n) in
    if b <=? b' then Ok b s
    else if b' =? 0 then Ok (2 ^ 32 - 1) s
    else Ok b (mkMst (mem s) (freep s) b')
  else Ok b s.

(** The loop of [free]; [n] bounds the number of blocks of the free list. *)
Fixpoint free_find (n : nat) (bp p : Z) : M mst Z :=
  nx ← ptr_of p;
  if (p <? bp) && (bp <? nx) then mret p
  else if (nx <=? p) && ((p <? bp) || (bp <? nx)) then mret p
  else match n with O => stopM NoFuel | S n' => free_find n' bp nx end.

(** There are no more blocks than units of the heap, and [base]. *)
Definition blocks (s : mst) : nat := S (Z.to_nat ((brk s - heap0) / HSIZE)).

Definition free (ap : Z) : M mst unit :=
  let bp := u32 (ap - HSIZE) in
  s ← getM;
  p ← free_find (blocks s) bp (freep s);
  nx ← ptr_of p;
  bs ← size_of bp;
  (if hadd bp bs =? nx then
     ns ← size_of nx;
     set_size bp (u32 (bs + ns));;
     nnx ← ptr_of nx;
     set_ptr bp nnx
   else set_ptr bp nx);;
  psz ← size_of p;
  (if hadd p psz =? bp then
     bs ← size_of bp;
     set_size p (u32 (psz + bs));;
     bn ← ptr_of bp;
     set_ptr p bn
   else set_ptr p bp);;
  modify (set_freep p).

Definition morecore (ok : bool) (nu : Z) : M mst Z :=
  let nu := if nu <? 4096 then 4096 else nu in
  p ← sbrk ok (s32 (u32 (nu * HSIZE)));
  if p =? 2 ^ 32 - 1 then mret 0 else
  set_size p nu;;
  free (hadd p 1);;
  gets freep.

(** The part of [malloc] that takes [nunits] units of the block [p], of size
    [sz], after [prevp]. *)
Definition malloc_take (prevp p sz nunits : Z) : M mst Z :=
  p ← (if sz =? nunits then
         nx ← ptr_of p; set_ptr prevp nx;; mret p
       else
         set_size p (u32 (sz - nunits));;
         sz' ← size_of p;
         let p := hadd p sz' in
         set_size p nunits;; mret p);
  modify (set_freep prevp);;
  mret (hadd p 1).

(** The loop of [malloc]; [n] bounds its rounds. *)
Fixpoint malloc_loop (n : nat) (ok : bool) (nunits prevp p : Z) : M mst Z :=
  sz ← size_of p;
  if nunits <=? sz then
    malloc_take prevp p sz nunits
  else
    f ← gets freep;
    p' ← (if p =? f then morecore ok nunits else mret p);
    if (p =? f) && (p' =? 0) then mret 0 else
    nx ← ptr_of p';
    match n with O => stopM NoFuel | S n' => malloc_loop n' ok nunits p' nx end.

Definition nunits_of (nbytes : Z) : Z := u32 (u32 (nbytes + HSIZE - 1) / HSIZE + 1).

Definition malloc (ok : bool) (nbytes : Z) : M mst Z :=
  let nunits := nunits_of nbytes in
  f ← gets freep;
  prevp ← (if f =? 0 then
             set_ptr base base;; modify (set_freep base);; set_size base 0;; mret base
           else mret f);
  p ← ptr_of prevp;
  s ← getM;
  malloc_loop (2 * blocks s + 2) ok nunits prevp p.
End umalloc.

(** ** The free list *)

(** A block: the address of its header and its size in units. *)
Abbreviation blk := (Z * Z)%type.
Definition hd_addr (l : list blk) (nxt : Z) : Z := match l with [] => nxt | b :: _ => b.1 end.
(** The headers of [l] in memory, linked in this order and on to [nxt]. *)
Fixpoint chain (m : Z → Z) (l : list blk) (nxt : Z) : Prop :=
  match l with
  | [] => True
  | b :: l' => m b.1 = hd_addr l' nxt ∧ m (b.1 + 4) = b.2 ∧ chain m l' nxt
  end.
(** [b] ends before [c] begins, with a gap between them. *)
Definition before (b c : blk) : Prop := b.1 + HSIZE * b.2 < c.1.
Definition disj (b c : blk) : Prop := b.1 + HSIZE * b.2 ≤ c.1 ∨ c.1 + HSIZE * c.2 ≤ b.1.

Lemma hd_addr_app l1 l2 nxt : hd_addr (l1 ++ l2) nxt = hd_addr l1 (hd_addr l2 nxt).
Proof. by destruct l1. Qed.
Lemma links_app m l1 l2 nxt : chain m (l1 ++ l2) nxt ↔ chain m l1 (hd_addr l2 nxt) ∧ chain m l2 nxt.
Proof. induction l1 as [|b l1 IH]; simpl; [tauto|]. rewrite hd_addr_app, IH. tauto. Qed.
Lemma links_ext m m' l nxt : (∀ b, b ∈ l → m' b.1 = m b.1 ∧ m' (b.1 + 4) = m (b.1 + 4)) → chain m l nxt → chain m' l nxt.
Proof.
  induction l as [|b l IH]; simpl; [done|]. intros He (H1 & H2 & H3).
  destruct (He b) as [-> ->]; [set_solver|]. split; [done|]. split; [done|]. apply IH; [set_solver|done].
Qed.
(** A ring can be entered anywhere. *)
Lemma chain_rotate m l1 l2 : chain m (l1 ++ l2) (hd_addr (l1 ++ l2) 0) → chain m (l2 ++ l1) (hd_addr (l2 ++ l1) 0).
Proof.
  rewrite !links_app, !hd_addr_app. intros [H1 H2]. destruct l1 as [|b l1], l2 as [|c l2]; try done.
Qed.

Lemma sorted_split l a :
  StronglySorted before l → Forall (λ b, 0 ≤ b.2) l → (∀ b, b ∈ l → b.1 ≠ a) →
  ∃ l1 l2, l = l1 ++ l2 ∧ (∀ b, b ∈ l1 → b.1 < a) ∧ (∀ b, b ∈ l2 → a < b.1).
Proof.
  induction 1 as [|b l Hl IH Hb]; intros Hp Hne; [by exists [], []; set_solver|].
  apply Forall_cons in Hp as [Hp0 Hp]. destruct (decide (b.1 < a)) as [Hlt|Hge].
  - destruct IH as (l1 & l2 & -> & H1 & H2); [done|set_solver|]. exists (b :: l1), l2. split; [done|].
    split; [|done]. by intros c [->|?]%elem_of_cons; [|apply H1].
  - exists [], (b :: l). split; [done|]. split; [set_solver|].
    assert (b.1 ≠ a) by set_solver. rewrite Forall_forall in Hb.
    intros c [->|Hc]%elem_of_cons; [lia|]. apply Hb in Hc. unfold before, HSIZE in Hc. lia.
Qed.

Section proofs.
Context (base heap0 : Z).
(** The variable [base] lies below the heap, which starts at a multiple of the
    size of a header. *)
Hypothesis Hbase : 0 < base ∧ base `mod` 4 = 0 ∧ base + HSIZE ≤ heap0 ∧ heap0 `mod` 8 = 0.

(** A block inside the heap. *)
Definition inside (s : mst) (b : blk) : Prop := heap0 ≤ b.1 ∧ 1 ≤ b.2 ∧ b.1 + HSIZE * b.2 ≤ brk s ∧ b.1 `mod` 8 = 0.

(** The heap with the free blocks [bs] and the allocated blocks [A], a map
    from the addresses of headers to sizes. Free blocks do not touch. *)
Record heap (s : mst) (bs : list blk) (A : gmap Z Z) : Prop := {
  hp_brk : heap0 ≤ brk s ≤ KERNBASE ∧ brk s `mod` 8 = 0;
  hp_chain : chain (mem s) ((base, 0) :: bs) base;
  hp_freep : ∃ n, (freep s, n) ∈ (base, 0) :: bs;
  hp_sorted : StronglySorted before bs;
  hp_inside : Forall (inside s) bs;
  hp_alloc : ∀ a n, A !! a = Some n → inside s (a, n) ∧ mem s (a + 4) = n;
  hp_disj : ∀ a n b, A !! a = Some n → b ∈ bs → disj (a, n) b;
  hp_apart : ∀ a n a' n', A !! a = Some n → A !! a' = Some n' → a ≠ a' → disj (a, n) (a', n');
}.

(** A header that can be accessed. *)
Definition hdr (s : mst) (p : Z) : Prop := valid base heap0 s p = true ∧ valid base heap0 s (p + 4) = true ∧ 0 < p < 2 ^ 31.

Lemma hdr_base s : heap0 ≤ brk s ≤ KERNBASE → hdr s base.
Proof.
  intros Hs. destruct Hbase as (H1 & H2 & H3 & _). unfold hdr, valid, KERNBASE, HSIZE in *.
  rewrite !andb_true_iff, !orb_true_iff, !andb_true_iff. Z.to_euclidean_division_equations. lia.
Qed.
Lemma hdr_inside s b : brk s ≤ KERNBASE → inside s b → hdr s b.1.
Proof.
  intros Hs (H1 & H2 & H3 & H4). destruct Hbase as (H5 & _ & H6 & _). unfold hdr, valid, KERNBASE, HSIZE in *.
  rewrite !andb_true_iff, !orb_true_iff, !andb_true_iff. Z.to_euclidean_division_equations. lia.
Qed.

Lemma hdr_bounds s b : brk s ≤ KERNBASE → inside s b → 0 ≤ b.2 < 2 ^ 28 ∧ 0 < b.1.
Proof.
  intros Hs (H1 & H2 & H3 & _). destruct Hbase as (H4 & _ & H5 & _). unfold KERNBASE, HSIZE in *. lia.
Qed.
Lemma wp_ptr s p Q : hdr s p → Q (mem s p) s → wp (ptr_of base heap0 p) Q s.
Proof. intros (H & _) HQ. unfold wp, ptr_of, ld. by rewrite H. Qed.
Lemma wp_set_ptr s p v Q : hdr s p → Q tt (set_mem p v s) → wp (set_ptr base heap0 p v) Q s.
Proof. intros (H & _) HQ. unfold wp, set_ptr, st. by rewrite H. Qed.
Lemma u32_hdr s p : hdr s p → u32 (p + 4) = p + 4.
Proof. intros (_ & _ & H). apply u32_small. lia. Qed.
Lemma wp_size s p Q : hdr s p → Q (mem s (p + 4)) s → wp (size_of base heap0 p) Q s.
Proof. intros H HQ. unfold wp, size_of, ld. rewrite (u32_hdr s) by done. destruct H as (_ & H & _). by rewrite H. Qed.
Lemma wp_set_size s p v Q : hdr s p → Q tt (set_mem (p + 4) v s) → wp (set_size base heap0 p v) Q s.
Proof. intros H HQ. unfold wp, set_size, st. rewrite (u32_hdr s) by done. destruct H as (_ & H & _). by rewrite H. Qed.

Lemma before_lt b l : Forall (before b) l → 0 ≤ b.2 → ∀ c, c ∈ l → b.1 < c.1.
Proof. intros Hl H0 c Hc. rewrite Forall_forall in Hl. apply Hl in Hc. unfold before, HSIZE in Hc. lia. Qed.

(** *** The search of [free] *)
Lemma find_up s bp q Y : ∀ X n,
  StronglySorted before (X ++ q :: Y) → Forall (λ b, 0 ≤ b.2) (X ++ q :: Y) → Forall (λ b, hdr s b.1) (X ++ q :: Y) →
  chain (mem s) (X ++ q :: Y) base → (∀ b, b ∈ X ++ [q] → b.1 < bp) → (∀ b, b ∈ Y → bp < b.1) → base ≤ q.1 →
  (length X <= n)%nat →
  wp (free_find base heap0 n bp (hd_addr (X ++ q :: Y) base)) (λ r s', r = q.1 ∧ s' = s) s.
Proof.
  induction X as [|b X IH]; intros n Hso Hp Hh Hc Hlo Hhi Hb Hn.
  - simpl in *. destruct Hc as (Hq & _). apply Forall_cons in Hh as [Hh _]. assert (q.1 < bp) by (apply Hlo; set_solver).
    destruct n; simpl; apply wp_bind, wp_ptr; try done; rewrite Hq; (destruct Y as [|c Y]; simpl;
      [replace (_ && _) with false by (symmetry; apply andb_false_iff; lia);
       by replace (_ && _) with true by (symmetry; rewrite andb_true_iff, orb_true_iff; lia)|]);
      assert (bp < c.1) by (apply Hhi; set_solver);
      by replace (_ && _) with true by (symmetry; rewrite andb_true_iff; lia).
  - destruct n as [|n]; [simpl in Hn; lia|]. simpl in *. destruct Hc as (Hq & _ & Hc).
    apply Forall_cons in Hh as [Hh Hht]. apply Forall_cons in Hp as [Hp0 Hp]. apply StronglySorted_cons in Hso as [Hbs Hso].
    apply wp_bind, wp_ptr; [done|]. rewrite Hq.
    assert (Hx : ∃ x, x ∈ X ++ [q] ∧ hd_addr (X ++ q :: Y) base = x.1).
    { destruct X as [|x X]; simpl; [exists q|exists x]; set_solver. }
    destruct Hx as (x & Hx & Ex). assert (x.1 < bp) by (apply Hlo; set_solver).
    assert (b.1 < x.1) by (eapply before_lt; [done|done|set_solver]).
    replace (_ && _) with false by (symmetry; rewrite andb_false_iff; lia).
    replace (_ && _) with false by (symmetry; rewrite andb_false_iff; lia).
    apply IH; try done; [set_solver|lia].
Qed.

Lemma find_high s bp (Q : Z → mst → Prop) n : ∀ Y,
  StronglySorted before Y → Forall (λ b, 0 ≤ b.2) Y → Forall (λ b, hdr s b.1) Y → chain (mem s) Y base →
  (∀ b, b ∈ Y → bp < b.1) → base < bp →
  wp (free_find base heap0 n bp base) Q s → wp (free_find base heap0 (length Y + n) bp (hd_addr Y base)) Q s.
Proof.
  induction Y as [|b Y IH]; intros Hso Hp Hh Hc Hhi Hb HQ; [done|]. simpl in *. destruct Hc as (Hq & _ & Hc).
  apply Forall_cons in Hh as [Hh Hht]. apply Forall_cons in Hp as [Hp0 Hp]. apply StronglySorted_cons in Hso as [Hbs Hso].
  apply wp_bind, wp_ptr; [done|]. rewrite Hq. assert (bp < b.1) by (apply Hhi; set_solver).
  replace (_ && _) with false by (symmetry; rewrite andb_false_iff; lia).
  replace (_ && _) with false.
  { apply IH; try done. set_solver. }
  symmetry. rewrite andb_false_iff, orb_false_iff. destruct Y as [|c Y]; simpl; [lia|].
  assert (b.1 < c.1) by (eapply before_lt; [done|done|set_solver]). lia.
Qed.

Lemma find_spec s bp q X Y n f :
  StronglySorted before (X ++ q :: Y) → Forall (λ b, 0 ≤ b.2) (X ++ q :: Y) → Forall (λ b, hdr s b.1) (X ++ q :: Y) →
  chain (mem s) (X ++ q :: Y) base → hd_addr (X ++ q :: Y) 0 = base →
  (∀ b, b ∈ X ++ [q] → b.1 < bp) → (∀ b, b ∈ Y → bp < b.1) → f ∈ X ++ q :: Y → (length (X ++ q :: Y) <= n)%nat →
  wp (free_find base heap0 n bp f.1) (λ r s', r = q.1 ∧ s' = s) s.
Proof.
  intros Hso Hp Hh Hc Hhd Hlo Hhi Hf Hn. rewrite length_app in Hn. simpl in Hn.
  assert (Hbq : base ≤ q.1).
  { destruct X as [|x X]; simpl in *; [lia|]. apply StronglySorted_cons in Hso as [Hx _]. apply Forall_cons in Hp as [Hp _].
    pose proof (before_lt _ _ Hx Hp q). set_solver by lia. }
  assert (Hup : ∀ X1 X2 k, X = X1 ++ X2 → (length X2 <= k)%nat →
    wp (free_find base heap0 k bp (hd_addr (X2 ++ q :: Y) base)) (λ r s', r = q.1 ∧ s' = s) s).
  { intros X1 X2 k -> Hk. rewrite <-app_assoc in *. apply find_up; try done.
    - by apply StronglySorted_app in Hso as (_ & _ & ?).
    - by apply Forall_app in Hp as [_ ?].
    - by apply Forall_app in Hh as [_ ?].
    - by apply links_app in Hc as [_ ?].
    - intros b Hb. apply Hlo. set_solver. }
  apply elem_of_app in Hf as [Hf|[->|Hf]%elem_of_cons].
  - apply list_elem_of_split in Hf as (X1 & X2 & ->). apply (Hup X1 (f :: X2)); [done|].
    rewrite length_app in Hn. simpl in *. lia.
  - apply (Hup X []); [by rewrite app_nil_r|simpl; lia].
  - apply list_elem_of_split in Hf as (Y1 & Y2 & ->).
    assert (E : X ++ q :: Y1 ++ f :: Y2 = (X ++ q :: Y1) ++ f :: Y2) by (by rewrite <-app_assoc).
    rewrite length_app in Hn. simpl in Hn.
    replace n with (length (f :: Y2) + (n - length (f :: Y2)))%nat by (simpl; lia).
    apply (find_high _ _ _ _ (f :: Y2)).
    + rewrite E in Hso. by apply StronglySorted_app in Hso as (_ & _ & ?).
    + rewrite E in Hp. by apply Forall_app in Hp as [_ ?].
    + rewrite E in Hh. by apply Forall_app in Hh as [_ ?].
    + rewrite E in Hc. by apply links_app in Hc as [_ ?].
    + intros b Hb. apply Hhi. set_solver.
    + assert (q.1 < bp) by (apply Hlo; set_solver). lia.
    + pose proof (Hup [] X (n - length (f :: Y2))%nat eq_refl) as H. rewrite hd_addr_app in H, Hhd. simpl in *.
      assert (hd_addr X q.1 = base) as Hb0 by done. rewrite Hb0 in H. apply H. lia.
Qed.

(** *** Joining a block with its neighbours *)

(** The block [(a, n)] in front of [L], joined with the first block of [L] when
    they touch. *)
Definition joinr (a n : Z) (L : list blk) (n1 : Z) (L1 : list blk) : Prop :=
  (n1 = n ∧ L1 = L ∧ ∀ c, c ∈ L → before (a, n) c) ∨ (∃ cs, L = (a + HSIZE * n, cs) :: L1 ∧ n1 = n + cs).
(** The blocks [l] in front of [(a, n1)], the last joined with it when they
    touch. *)
Definition joinl (l : list blk) (a n1 : Z) (L1 r : list blk) : Prop :=
  (r = l ++ (a, n1) :: L1 ∧ ∀ b, b ∈ l → before b (a, n1)) ∨
  (∃ X q, l = X ++ [q] ∧ q.1 + HSIZE * q.2 = a ∧ r = X ++ (q.1, q.2 + n1) :: L1).

Definition units (l : list blk) : Z := foldr (λ b z, b.2 + z) 0 l.
Lemma units_app l1 l2 : units (l1 ++ l2) = units l1 + units l2.
Proof. induction l1 as [|b l1 IH]; simpl; lia. Qed.
Lemma join_units l a n L n1 L1 r : joinr a n L n1 L1 → joinl l a n1 L1 r →
  units r = units (l ++ L) + n ∧ (length r <= S (length (l ++ L)))%nat.
Proof.
  intros [(-> & -> & _)|(cs & -> & ->)] [[-> _]|(X & q & -> & _ & ->)]; rewrite !units_app, !length_app; simpl;
    rewrite ?length_app; simpl; lia.
Qed.

(** What the code sees of the memory outside the header [p]. *)
Definition same_but (ps : list Z) (s s' : mst) : Prop :=
  brk s' = brk s ∧ freep s' = freep s ∧ ∀ x, (∀ p, p ∈ ps → x ≠ p ∧ x ≠ p + 4) → mem s' x = mem s x.

Definition sized (s : mst) (a n : Z) : Prop := inside s (a, n) ∧ mem s (a + 4) = n.

Lemma inside_hadd s a n : brk s ≤ KERNBASE → inside s (a, n) → hadd a n = a + HSIZE * n.
Proof. intros Hs (H1 & H2 & H3 & _). destruct Hbase as (? & _ & ? & _). unfold hadd, HSIZE, KERNBASE in *. simpl in *. apply u32_small. lia. Qed.

Lemma free_right s a n L :
  brk s ≤ KERNBASE → sized s a n → Forall (inside s) L → StronglySorted before L → chain (mem s) L base →
  (∀ c, c ∈ L → a < c.1 ∧ disj (a, n) c) →
  wp (if hadd a n =? hd_addr L base then
        ns ← size_of base heap0 (hd_addr L base);
        set_size base heap0 a (u32 (n + ns));;
        nnx ← ptr_of base heap0 (hd_addr L base);
        set_ptr base heap0 a nnx
      else set_ptr base heap0 a (hd_addr L base))
     (λ _ s', ∃ n1 L1, joinr a n L n1 L1 ∧ chain (mem s') ((a, n1) :: L1) base ∧ same_but [a] s s') s.
Proof.
  intros Hs [Ha Hn] HL Hso Hc Hd. rewrite (inside_hadd s) by done.
  pose proof (hdr_inside s (a, n) Hs Ha) as Hh. simpl in Hh.
  assert (Hfar : ∀ c, c ∈ L → a + HSIZE * n ≤ c.1).
  { intros c Hcl. destruct (Hd c Hcl) as [Hlt Hdj]. destruct Ha as (_ & Ha & _). unfold disj, HSIZE in *. simpl in *.
    rewrite Forall_forall in HL. destruct (HL c Hcl) as (_ & ? & _). lia. }
  destruct L as [|[c cs] L]; simpl.
  - replace (_ =? _) with false.
    + apply wp_set_ptr; [done|]. exists n, []. split; [by left; split_and!; set_solver|]. split.
      * simpl. rewrite Z.eqb_refl. split; [done|]. split; [|done]. rewrite (proj2 (Z.eqb_neq (a + 4) a)) by lia. done.
      * split; [done|]. split; [done|]. simpl. intros x Hx. rewrite (proj2 (Z.eqb_neq x a)); [done|]. by apply Hx; set_solver.
    + symmetry. apply Z.eqb_neq. destruct Ha as (? & ? & _), Hbase as (_ & _ & ? & _). unfold HSIZE in *. simpl in *. lia.
  - assert (Hca : a + HSIZE * n ≤ c) by (apply (Hfar (c, cs)); set_solver).
    destruct Hc as (Hc1 & Hc2 & Hc). simpl in Hc1, Hc2. apply StronglySorted_cons in Hso as [Hb Hso].
    apply Forall_cons in HL as [Hci HL]. pose proof (hdr_inside s (c, cs) Hs Hci) as Hhc. simpl in Hhc.
    assert (Hext : ∀ m', (∀ x, x ≠ a → x ≠ a + 4 → m' x = mem s x) → chain m' L base).
    { intros m' Hm. eapply links_ext; [|exact Hc]. intros b Hbl.
      assert (a + HSIZE * n ≤ b.1) by (apply Hfar; set_solver). destruct Ha as (_ & ? & _). unfold HSIZE in *. simpl in *.
      split; apply Hm; lia. }
    destruct (Z.eqb_spec (a + HSIZE * n) c) as [<-|Hne].
    + assert (Hu : u32 (n + cs) = n + cs).
      { destruct Ha as (? & ? & _), Hci as (_ & ? & ? & _), Hbase as (? & _ & ? & _). unfold KERNBASE, HSIZE in *. simpl in *. apply u32_small. lia. }
      apply wp_bind, wp_size; [done|]. apply wp_bind, wp_set_size; [done|]. apply wp_bind, wp_ptr; [done|].
      apply wp_set_ptr; [done|]. exists (n + cs), L. split; [right; exists cs; done|].
      assert (a < a + HSIZE * n) by (destruct Ha as (_ & ? & _); unfold HSIZE in *; simpl in *; lia).
      split; [|split; [done|split; [done|]]].
      * simpl. rewrite Z.eqb_refl. rewrite (proj2 (Z.eqb_neq (a + HSIZE * n) (a + 4))) by (unfold HSIZE; lia).
        split; [done|]. rewrite (proj2 (Z.eqb_neq (a + 4) a)), Z.eqb_refl by lia. split; [by rewrite Hc2, Hu|].
        apply Hext. intros x H1 H2. by rewrite (proj2 (Z.eqb_neq x a)), (proj2 (Z.eqb_neq x (a + 4))).
      * simpl. intros x Hx. destruct (Hx a) as [? ?]; [set_solver|].
        by rewrite (proj2 (Z.eqb_neq x a)), (proj2 (Z.eqb_neq x (a + 4))).
    + apply wp_set_ptr; [done|]. exists n, ((c, cs) :: L). split; [|split; [|split; [done|split; [done|]]]].
      * left. split; [done|]. split; [done|]. intros b [->|Hbl]%elem_of_cons; unfold before in *; simpl; [lia|].
        rewrite Forall_forall in Hb. apply Hb in Hbl. destruct Hci as (_ & ? & _). unfold HSIZE in *. simpl in *. lia.
      * simpl. rewrite Z.eqb_refl. rewrite (proj2 (Z.eqb_neq (a + 4) a)) by lia. split; [done|]. split; [done|].
        assert (a + 8 ≤ c) by (destruct Ha as (_ & ? & _); unfold HSIZE in *; simpl in *; lia).
        rewrite (proj2 (Z.eqb_neq c a)), (proj2 (Z.eqb_neq (c + 4) a)) by lia. split; [done|]. split; [done|].
        apply Hext. intros x H1 _. by rewrite (proj2 (Z.eqb_neq x a)).
      * simpl. intros x Hx. destruct (Hx a) as [? ?]; [set_solver|]. by rewrite (proj2 (Z.eqb_neq x a)).
Qed.

(** Memory after stores: compare the address with each of them. *)
Ltac mem_upd := simpl; repeat first [rewrite Z.eqb_refl | rewrite (proj2 (Z.eqb_neq _ _)) by lia].

Lemma free_left s X q a n1 L1 :
  hdr s q.1 → hdr s a → hadd q.1 q.2 = q.1 + HSIZE * q.2 → 0 ≤ q.2 → 0 ≤ n1 → q.2 + n1 < 2 ^ 32 →
  chain (mem s) X q.1 → mem s (q.1 + 4) = q.2 → chain (mem s) ((a, n1) :: L1) base →
  (∀ b, b ∈ X → b.1 + 8 ≤ q.1 ∧ before b q) → q.1 + 8 ≤ a → q.1 + HSIZE * q.2 ≤ a → (∀ c, c ∈ L1 → a < c.1) →
  wp (psz ← size_of base heap0 q.1;
      if hadd q.1 psz =? a then
        bs ← size_of base heap0 a;
        set_size base heap0 q.1 (u32 (psz + bs));;
        bn ← ptr_of base heap0 a;
        set_ptr base heap0 q.1 bn
      else set_ptr base heap0 q.1 a)
     (λ _ s', ∃ r, joinl (X ++ [q]) a n1 L1 r ∧ chain (mem s') r base ∧ same_but [q.1] s s') s.
Proof.
  intros Hh Ha Hadd Hq0 Hn0 Hu Hc1 Hq Hc2 HX Hqa Hqe HL1. destruct Hc2 as (Hca & Hcs & Hc2). simpl in Hca, Hcs.
  assert (Hext : ∀ m', (∀ x, x ≠ q.1 → x ≠ q.1 + 4 → m' x = mem s x) → chain m' X q.1 ∧ chain m' L1 base).
  { intros m' Hm. split; (eapply links_ext; [|eassumption]); intros b Hb; split; apply Hm;
      solve [destruct (HX b Hb); lia | specialize (HL1 b Hb); lia]. }
  apply wp_bind, wp_size; [done|]. rewrite Hq, Hadd. destruct (Z.eqb_spec (q.1 + HSIZE * q.2) a) as [E|Hne].
  - apply wp_bind, wp_size; [done|]. apply wp_bind, wp_set_size; [done|]. apply wp_bind, wp_ptr; [done|].
    apply wp_set_ptr; [done|]. rewrite Hcs, u32_small by lia.
    exists (X ++ (q.1, q.2 + n1) :: L1). split; [right; by exists X, q|]. split; [|split; [done|split; [done|]]].
    + destruct (Hext (mem (set_mem q.1 (mem (set_mem (q.1 + 4) (q.2 + n1) s) a) (set_mem (q.1 + 4) (q.2 + n1) s)))) as [H1 H2].
      { intros x ? ?. by mem_upd. }
      apply links_app. split; [exact H1|]. split; [|split; [|exact H2]]; by mem_upd.
    + intros x Hx. destruct (Hx q.1) as [? ?]; [set_solver|]. by mem_upd.
  - apply wp_set_ptr; [done|]. exists (X ++ [q] ++ (a, n1) :: L1). rewrite app_assoc.
    split; [left; split; [done|]|split; [|split; [done|split; [done|]]]].
    + intros b [Hb| ->%list_elem_of_singleton]%elem_of_app; unfold before in *; simpl; [destruct (HX b Hb); unfold HSIZE in *; lia|lia].
    + destruct (Hext (mem (set_mem q.1 a s))) as [H1 H2].
      { intros x ? ?. by mem_upd. }
      rewrite <-app_assoc. apply links_app. split; [exact H1|]. simpl.
      split; [by mem_upd|]. split; [by mem_upd|]. split; [by mem_upd|]. split; [by mem_upd|exact H2].
    + intros x Hx. destruct (Hx q.1) as [? ?]; [set_solver|]. by mem_upd.
Qed.

(** *** The free list after the joins *)

(** [x] does not overlap the blocks of [l]. *)
Definition clear (x : blk) (l : list blk) : Prop := ∀ b, b ∈ l → disj x b.

Lemma joinr_wf s a n L n1 L1 :
  joinr a n L n1 L1 → inside s (a, n) → Forall (inside s) L → StronglySorted before L →
  inside s (a, n1) ∧ n ≤ n1 ∧ Forall (inside s) L1 ∧ StronglySorted before L1 ∧ (∀ c, c ∈ L1 → before (a, n1) c) ∧
  ∀ x, 1 ≤ x.2 → disj x (a, n) → clear x L → clear x ((a, n1) :: L1).
Proof.
  intros [(-> & -> & Hb)|(cs & -> & ->)] Ha HL Hso.
  - split_and!; try done. intros x _ Hx Hc b [->|Hbl]%elem_of_cons; [done|by apply Hc].
  - apply Forall_cons in HL as [Hc HL]. apply StronglySorted_cons in Hso as [Hb Hso]. rewrite Forall_forall in Hb.
    destruct Ha as (? & ? & ? & ?), Hc as (? & ? & ? & ?). unfold inside, before, disj, HSIZE in *. simpl in *.
    split; [lia|]. split; [lia|]. split; [done|]. split; [done|]. split.
    + intros c Hc. specialize (Hb c Hc). simpl in Hb. lia.
    + intros x Hx0 Hx Hcl b [->|Hbl]%elem_of_cons; simpl.
      * specialize (Hcl (a + 8 * n, cs)). unfold disj, HSIZE in Hcl |- *. simpl in Hcl |- *. specialize (Hcl ltac:(set_solver)). lia.
      * apply Hcl. set_solver.
Qed.

Lemma joinl_wf s l a n1 L1 r :
  joinl ((base, 0) :: l) a n1 L1 r → inside s (a, n1) → Forall (inside s) L1 → StronglySorted before L1 →
  (∀ c, c ∈ L1 → before (a, n1) c) → Forall (inside s) l → StronglySorted before l →
  ∃ bs', r = (base, 0) :: bs' ∧ StronglySorted before bs' ∧ Forall (inside s) bs' ∧ (∃ b, b ∈ bs' ∧ n1 ≤ b.2) ∧
    ∀ x, 1 ≤ x.2 → clear x l → clear x ((a, n1) :: L1) → clear x bs'.
Proof.
  intros Hj Ha HL1 HsL Hb Hl Hsl. destruct Hj as [[-> Hbl]|(X & q & E & Hqa & ->)].
  - exists (l ++ (a, n1) :: L1). split; [done|]. split; [|split; [by apply Forall_app; split; [|constructor]|split]].
    + apply StronglySorted_app. split; [|split; [done|]].
      * intros x y Hx [->|Hy]%elem_of_cons; [apply Hbl; set_solver|].
        assert (before x (a, n1)) by (apply Hbl; set_solver). specialize (Hb y Hy). destruct Ha as (_ & ? & _).
        unfold before, HSIZE in *. simpl in *. lia.
      * apply StronglySorted_cons. split; [by apply Forall_forall|done].
    + exists (a, n1). split; [set_solver|simpl; lia].
    + intros x _ H1 H2 b [Hb1|Hb1]%elem_of_app; auto.
  - destruct X as [|x0 X]; simplify_eq/=.
    { destruct Ha as (Ha & _), Hbase as (_ & _ & ? & _). unfold HSIZE in *. simpl in *. lia. }
    apply StronglySorted_app in Hsl as (Hbq & HsX & _). apply Forall_app in Hl as [HX Hq].
    rewrite Forall_singleton in Hq.
    destruct Hq as (? & ? & ? & ?), Ha as (? & ? & ? & ?).
    exists (X ++ (q.1, q.2 + n1) :: L1). split; [done|]. split; [|split; [|split]].
    + apply StronglySorted_app. split; [|split; [done|]].
      * intros x y Hx Hy. assert (before x q) as Hxq by (apply Hbq; set_solver).
        apply elem_of_cons in Hy as [->|Hy]; [done|]. specialize (Hb y Hy). unfold before, HSIZE in *. simpl in *. lia.
      * apply StronglySorted_cons. split; [|done]. apply Forall_forall. intros y Hy. specialize (Hb y Hy).
        unfold before, HSIZE in *. simpl in *. lia.
    + apply Forall_app. split; [done|]. constructor; [|done]. unfold inside, HSIZE in *. simpl in *. lia.
    + exists (q.1, q.2 + n1). split; [set_solver|]. simpl. lia.
    + intros x Hx0 Hk1 Hk2 b [Hb1|[->|Hb1]%elem_of_cons]%elem_of_app; [apply Hk1; set_solver| |apply Hk2; set_solver].
      specialize (Hk1 q ltac:(set_solver)). specialize (Hk2 (q.1 + HSIZE * q.2, n1) ltac:(set_solver)).
      unfold disj, HSIZE in *. simpl in *. lia.
Qed.

(** The free list has no more blocks than the heap has units. *)
Lemma sorted_length s bs : ∀ lo, heap0 ≤ lo → lo ≤ brk s → Forall (inside s) bs → StronglySorted before bs →
  (∀ b, b ∈ bs → lo ≤ b.1) → Z.of_nat (length bs) ≤ (brk s - lo) / HSIZE.
Proof.
  induction bs as [|b bs IH]; intros lo Hlo Hbrk Hin Hso Hge; unfold HSIZE in *.
  - simpl. Z.to_euclidean_division_equations. lia.
  - apply Forall_cons in Hin as [Hb Hin]. apply StronglySorted_cons in Hso as [Hbb Hso].
    assert (lo ≤ b.1) by (apply Hge; set_solver). destruct Hb as (? & ? & ? & ?). unfold HSIZE in *.
    assert (Hi : Z.of_nat (length bs) ≤ (brk s - (b.1 + 8 * b.2)) / 8).
    { apply IH; try lia; try done. intros c Hc. rewrite Forall_forall in Hbb. apply Hbb in Hc. unfold before, HSIZE in Hc. lia. }
    simpl length. Z.to_euclidean_division_equations. lia.
Qed.

Lemma heap_fuel s bs A : heap s bs A → (S (length bs) <= blocks heap0 s)%nat.
Proof.
  intros H. destruct (hp_brk _ _ _ H) as [? _].
  assert (Z.of_nat (length bs) ≤ (brk s - heap0) / HSIZE).
  { apply (sorted_length s); try lia; [apply H|apply H|]. intros b Hb. pose proof (hp_inside _ _ _ H) as Hi.
    rewrite Forall_forall in Hi. by destruct (Hi b Hb). }
  unfold blocks. simpl. lia.
Qed.

Lemma heap_sorted s bs A : heap s bs A → StronglySorted before ((base, 0) :: bs) ∧ Forall (λ b, 0 ≤ b.2) ((base, 0) :: bs) ∧
  Forall (λ b, hdr s b.1) ((base, 0) :: bs).
Proof.
  intros H. pose proof (hp_inside _ _ _ H) as Hi. destruct (hp_brk _ _ _ H) as [? _]. split_and!.
  - apply StronglySorted_cons. split; [|apply H]. eapply Forall_impl; [exact Hi|]. intros b (? & _).
    destruct Hbase as (_ & _ & ? & _). unfold before, HSIZE in *. simpl. lia.
  - constructor; [done|]. eapply Forall_impl; [exact Hi|]. intros b (_ & ? & _). lia.
  - constructor; [apply hdr_base; lia|]. eapply Forall_impl; [exact Hi|]. intros b. apply hdr_inside. lia.
Qed.

(** Headers of the free list do not overlap. *)
Lemma heap_order s bs A L R x y : heap s bs A → (base, 0) :: bs = L ++ R → x ∈ L → y ∈ R → x.1 + 8 ≤ y.1.
Proof.
  intros H E Hx Hy. destruct (heap_sorted _ _ _ H) as (Hso & _). pose proof (hp_inside _ _ _ H) as Hi.
  rewrite Forall_forall in Hi. rewrite E in Hso. pose proof (StronglySorted_app_1_elem_of _ _ _ _ _ Hso Hx Hy) as Hb.
  assert (x ∈ (base, 0) :: bs) as Hx' by (rewrite E; apply elem_of_app; by left).
  assert (y ∈ (base, 0) :: bs) as Hy' by (rewrite E; apply elem_of_app; by right).
  destruct Hbase as (_ & _ & ? & _). unfold before, HSIZE in *.
  apply elem_of_cons in Hx' as [->|Hx']; [|destruct (Hi x Hx') as (_ & ? & _); lia].
  apply elem_of_cons in Hy' as [->|Hy']; simpl in *; [lia|]. destruct (Hi y Hy') as (? & _). lia.
Qed.

(** The blocks [l] in front of an address, their last one apart. *)
Lemma snoc_case {A} (x : A) l : ∃ X q, x :: l = X ++ [q].
Proof. destruct (exists_last (l := x :: l)) as (X & q & E); [done|]. eauto. Qed.

Definition keeps (A : gmap Z Z) (s s' : mst) : Prop :=
  ∀ a n, A !! a = Some n → ∀ x, a ≤ x < a + HSIZE * n → mem s' x = mem s x.

(** An address inside an allocated block is no word of another header. *)
Lemma off_free s bs A a n x q : heap s bs A → A !! a = Some n → a ≤ x < a + HSIZE * n → q ∈ (base, 0) :: bs → x ≠ q.1 ∧ x ≠ q.1 + 4.
Proof.
  intros H Ha Hx [->|Hq]%elem_of_cons.
  - destruct (hp_alloc _ _ _ H a n Ha) as [(? & _) _], Hbase as (_ & _ & ? & _). unfold HSIZE in *. simpl in *. lia.
  - pose proof (hp_disj _ _ _ H _ _ _ Ha Hq) as Hd. pose proof (hp_inside _ _ _ H) as Hi. rewrite Forall_forall in Hi.
    destruct (Hi q Hq) as (_ & ? & _). unfold disj, HSIZE in *. simpl in *. lia.
Qed.
Lemma off_alloc s bs A a n x a' n' : heap s bs A → A !! a = Some n → a ≤ x < a + HSIZE * n → A !! a' = Some n' → a ≠ a' → x ≠ a' ∧ x ≠ a' + 4.
Proof.
  intros H Ha Hx Ha' Hne. pose proof (hp_apart _ _ _ H _ _ _ _ Ha Ha' Hne) as Hd.
  destruct (hp_alloc _ _ _ H a' n' Ha') as [(_ & ? & _) _]. unfold disj, HSIZE in *. simpl in *. lia.
Qed.

(** The heap after [free], from what the joins promise. *)
Lemma free_heap s s' l1 l2 A a n n1 L1 r f :
  heap s (l1 ++ l2) A → A !! a = Some n →
  joinr a n l2 n1 L1 → joinl ((base, 0) :: l1) a n1 L1 r → chain (mem s') r base →
  brk s' = brk s → (∃ k, (f, k) ∈ r) → freep s' = f → keeps (delete a A) s s' →
  ∃ bs', heap s' bs' (delete a A) ∧ units bs' = units (l1 ++ l2) + n ∧ (length bs' <= S (length (l1 ++ l2)))%nat ∧
    ∃ b, b ∈ bs' ∧ n ≤ b.2.
Proof.
  intros H Ha Hr Hl Hc Hbrk Hf Hfp Hk. destruct (hp_alloc _ _ _ H a n Ha) as [Hin _].
  pose proof (hp_sorted _ _ _ H) as Hso. apply StronglySorted_app in Hso as (_ & Hs1 & Hs2).
  pose proof (hp_inside _ _ _ H) as Hi. apply Forall_app in Hi as [Hi1 Hi2].
  destruct (joinr_wf s _ _ _ _ _ Hr Hin Hi2 Hs2) as (Hin1 & Hle & HL1 & HsL & HbL & Hdj).
  destruct (joinl_wf s _ _ _ _ _ Hl Hin1 HL1 HsL HbL Hi1 Hs1) as (bs' & -> & Hso' & Hi' & (b & Hb & Hbn) & Hdj').
  destruct (join_units _ _ _ _ _ _ _ Hr Hl) as [Hu Hlen]. simpl in Hu, Hlen.
  exists bs'. split; [|split; [lia|split; [lia|exists b; split; [done|lia]]]].
  assert (Hins : ∀ x, inside s x → inside s' x) by (unfold inside; by rewrite Hbrk).
  assert (Hdel : ∀ a' n', delete a A !! a' = Some n' → a' ≠ a ∧ A !! a' = Some n').
  { intros a' n' Hd. apply lookup_delete_Some in Hd as [? ?]. done. }
  split; try done.
  - rewrite Hbrk. apply H.
  - by rewrite Hfp.
  - eapply Forall_impl; [exact Hi'|exact Hins].
  - intros a' n' Hd. destruct (Hdel a' n' Hd) as [Hne Ha']. destruct (hp_alloc _ _ _ H a' n' Ha') as [Hia' Hsz'].
    split; [by apply Hins|]. rewrite (Hk a' n' Hd); [done|]. destruct Hia' as (_ & ? & _). unfold HSIZE in *. simpl in *. lia.
  - intros a' n' c Hd Hcb. destruct (Hdel a' n' Hd) as [Hne Ha']. destruct (hp_alloc _ _ _ H a' n' Ha') as [Hia' _].
    assert (1 ≤ (a', n').2) by apply Hia'. assert (Hcl : clear (a', n') (l1 ++ l2)) by (intros ? ?; by eapply hp_disj).
    apply Hdj'; [done|intros ? ?; apply Hcl; set_solver| |done].
    apply Hdj; [done|by eapply hp_apart|intros ? ?; apply Hcl; set_solver].
  - intros a1 k1 a2 k2 H1 H2. apply Hdel in H1 as [_ H1]. apply Hdel in H2 as [_ H2]. by eapply hp_apart.
Qed.

(** Where the allocated block [a] belongs in the free list: after [q]. *)
Lemma free_place s bs A a n :
  heap s bs A → A !! a = Some n →
  ∃ l1 l2 X q, bs = l1 ++ l2 ∧ (base, 0) :: l1 = X ++ [q] ∧ (∀ b, b ∈ l2 → a < b.1) ∧
    ∀ b, b ∈ X ++ [q] → b.1 < a ∧ b.1 + 8 ≤ a ∧ b.1 + HSIZE * b.2 ≤ a ∧ hadd b.1 b.2 = b.1 + HSIZE * b.2.
Proof.
  intros H Ha. destruct (heap_sorted _ _ _ H) as (_ & HpF & _). destruct (hp_brk _ _ _ H) as [Hbrk _].
  destruct (hp_alloc _ _ _ H a n Ha) as [Hin _]. pose proof (hp_inside _ _ _ H) as Hi. rewrite Forall_forall in Hi.
  destruct (sorted_split bs a) as (l1 & l2 & -> & Hl1 & Hl2); [apply H|by apply Forall_cons in HpF as [_ ?]| |].
  { intros b Hb E. pose proof (hp_disj _ _ _ H _ _ b Ha Hb) as Hd.
    destruct (Hi b Hb) as (_ & ? & _), Hin as (_ & ? & _). unfold disj, HSIZE in Hd. simpl in *. lia. }
  destruct (snoc_case (base, 0) l1) as (X & q & EX). exists l1, l2, X, q. split; [done|]. split; [done|]. split; [done|].
  rewrite <-EX. destruct Hin as (? & ? & ? & _), Hbase as (? & _ & ? & _). unfold HSIZE, KERNBASE in *. simpl in *.
  intros b [->|Hb]%elem_of_cons; simpl.
  - split; [lia|]. split; [lia|]. split; [lia|]. apply u32_small. unfold HSIZE. lia.
  - pose proof (hp_disj _ _ _ H a n b Ha ltac:(set_solver)) as Hd. pose proof (Hi b ltac:(set_solver)) as Hib.
    specialize (Hl1 b Hb). pose proof (inside_hadd s b.1 b.2) as Hadd. destruct b as [b bn]. simpl in *.
    rewrite Hadd by (done || unfold KERNBASE; lia).
    destruct Hib as (_ & ? & _). unfold disj, HSIZE in *. simpl in *. lia.
Qed.

Lemma free_spec s bs A a n :
  heap s bs A → A !! a = Some n →
  wp (free base heap0 (a + HSIZE)) (λ _ s', ∃ bs', heap s' bs' (delete a A) ∧ brk s' = brk s ∧
    keeps (delete a A) s s' ∧ units bs' = units bs + n ∧ (length bs' <= S (length bs))%nat ∧ ∃ b, b ∈ bs' ∧ n ≤ b.2) s.
Proof.
  intros H Ha. destruct (heap_sorted _ _ _ H) as (HsF & HpF & HhF). destruct (hp_brk _ _ _ H) as [Hbrk _].
  destruct (hp_alloc _ _ _ H a n Ha) as [Hin Hsz].
  pose proof (hdr_inside s (a, n) ltac:(lia) Hin) as Hha. simpl in Hha. pose proof (heap_fuel _ _ _ H) as Hfuel.
  destruct (free_place s bs A a n H Ha) as (l1 & l2 & X & q & -> & EX & Hl2 & Hle).
  pose proof (hp_inside _ _ _ H) as Hi. rewrite Forall_forall in Hi.
  assert (EF : (base, 0) :: l1 ++ l2 = X ++ q :: l2) by (by rewrite app_comm_cons, EX, <-app_assoc).
  pose proof (hp_chain _ _ _ H) as Hc. pose proof (hp_freep _ _ _ H) as [fk Hfp].
  rewrite EF in HsF, HpF, HhF, Hc, Hfp.
  assert (Hhd : hd_addr (X ++ q :: l2) 0 = base) by by rewrite <-EF.
  assert (Hhq : hdr s q.1) by (apply Forall_app in HhF as [_ HhF]; by apply Forall_cons in HhF as [? _]).
  destruct (Hle q ltac:(set_solver)) as (_ & Hq8 & Hqe & Hqh).
  unfold free. replace (a + HSIZE - HSIZE) with a by lia. rewrite u32_small by (destruct Hha; lia).
  apply wp_bind, wp_get, wp_bind. eapply wp_mono.
  { apply (find_spec s a q X l2 (blocks heap0 s) (freep s, fk)); try done; [by apply Hle|].
    apply (f_equal length) in EF. simpl in EF. rewrite <-EF. lia. }
  intros p s0 [-> ->]. apply links_app in Hc as [HcX (Hq1 & Hq2 & Hc2)].
  apply wp_bind, wp_ptr; [done|]. rewrite Hq1. apply wp_bind, wp_size; [done|]. rewrite Hsz.
  pose proof (hp_sorted _ _ _ H) as Hso. apply StronglySorted_app in Hso as (_ & _ & Hs2).
  assert (Hi2 : Forall (inside s) l2) by (apply Forall_forall; intros; apply Hi; set_solver).
  apply wp_bind. eapply wp_mono; [apply (free_right s a n l2); try done; [lia|]|].
  { intros c Hcl. split; [by apply Hl2|]. eapply hp_disj; [exact H|done|set_solver]. }
  intros _ s1 (n1 & L1 & Hjr & Hc1 & Hb1 & Hf1 & Hm1).
  destruct (joinr_wf s _ _ _ _ _ Hjr Hin Hi2 Hs2) as (Hin1 & Hn1 & _ & _ & HbL & _).
  assert (Hh1 : ∀ x, hdr s x → hdr s1 x) by (unfold hdr, valid; by rewrite Hb1).
  assert (HX : ∀ b, b ∈ X → b.1 + 8 ≤ q.1 ∧ before b q).
  { intros b Hb. split; [|apply StronglySorted_app in HsF as (HsF & _); apply HsF; set_solver].
    eapply (heap_order _ _ _ X (q :: l2)); [done|done|done|set_solver]. }
  assert (Hq0 : 0 ≤ q.2) by (rewrite Forall_forall in HpF; apply HpF; set_solver).
  assert (Hqb : 0 < q.1) by apply Hhq.
  destruct (hdr_bounds s (a, n1) ltac:(lia) Hin1) as [Hn1' _]. simpl in Hn1'.
  assert (Ha31 : 0 < a < 2 ^ 31) by apply Hha.
  apply wp_bind. eapply wp_mono; [eapply wp_bind_inv, (free_left s1 X q a n1 L1); try done; auto|].
  - lia.
  - unfold HSIZE in Hqe. lia.
  - eapply links_ext; [|exact HcX]. intros b Hb. destruct (HX b Hb). split; apply Hm1; intros ? ->%list_elem_of_singleton; lia.
  - rewrite Hm1; [done|]. intros ? ->%list_elem_of_singleton; lia.
  - intros c Hcl. specialize (HbL c Hcl). unfold before, HSIZE in HbL. simpl in HbL. lia.
  - intros psz s2 Hw. apply wp_bind. eapply wp_mono; [exact Hw|].
    intros _ s3 (r & Hjl & Hc3 & Hb3 & Hf3 & Hm3). apply wp_modify.
    assert (Hk : keeps (delete a A) s (set_freep q.1 s3)).
    { intros a' n' [Hne Ha']%lookup_delete_Some x Hx. simpl.
      destruct (off_free _ _ _ _ _ x q H Ha' Hx) as [? ?]; [rewrite EF; set_solver|].
      destruct (off_alloc _ _ _ _ _ x a n H Ha' Hx Ha) as [? ?]; [done|].
      rewrite Hm3, Hm1; [done|by intros ? ->%list_elem_of_singleton..]. }
    rewrite <-EX in Hjl.
    destruct (free_heap s (set_freep q.1 s3) l1 l2 A a n n1 L1 r q.1) as (bs' & HH & Hu & Hlen & Hbig); try done.
    + simpl. congruence.
    + rewrite EX in Hjl. destruct Hjl as [[-> _]|(X' & q' & E & _ & ->)].
      * exists q.2. rewrite <-surjective_pairing. set_solver.
      * apply app_inj_tail in E as [_ <-]. eexists. apply elem_of_app. right. left.
    + exists bs'. split; [done|]. split; [simpl; congruence|done].
Qed.



(** *** Taking a block *)

(** [nun] units are taken from the end of the block [p]. *)
Definition remains (p : blk) (nun : Z) : list blk := if p.2 =? nun then [] else [(p.1, p.2 - nun)].

Lemma take_wf s l1 p l2 nun :
  StronglySorted before (l1 ++ p :: l2) → Forall (inside s) (l1 ++ p :: l2) → 1 ≤ nun ≤ p.2 →
  StronglySorted before (l1 ++ remains p nun ++ l2) ∧ Forall (inside s) (l1 ++ remains p nun ++ l2) ∧
  (∀ x, 1 ≤ x.2 → clear x (l1 ++ p :: l2) → clear x (l1 ++ remains p nun ++ l2)) ∧
  clear (p.1 + HSIZE * (p.2 - nun), nun) (l1 ++ remains p nun ++ l2) ∧
  units (l1 ++ remains p nun ++ l2) = units (l1 ++ p :: l2) - nun.
Proof.
  intros Hso Hi Hn. apply StronglySorted_app in Hso as (Hb & Hs1 & Hs2). apply StronglySorted_cons in Hs2 as [Hp Hs2].
  apply Forall_app in Hi as [Hi1 Hi2]. apply Forall_cons in Hi2 as [Hip Hi2]. rewrite Forall_forall in Hp.
  assert (Hout : ∀ b, b ∈ l1 ++ l2 → disj (p.1 + HSIZE * (p.2 - nun), nun) b).
  { intros b [Hb1|Hb1]%elem_of_app; unfold disj, before, HSIZE in *; simpl.
    - specialize (Hb b p Hb1 ltac:(set_solver)). lia.
    - specialize (Hp b Hb1). lia. }
  unfold remains. destruct (Z.eqb_spec (p.2) nun) as [E|Hne]; simpl.
  - split; [apply StronglySorted_app; split; [|done]; intros; apply Hb; set_solver|].
    split; [by apply Forall_app|]. split; [intros x _ Hx b Hbl; apply Hx; set_solver|]. split; [done|].
    rewrite !units_app. simpl. lia.
  - split; [|split; [|split; [|split]]].
    + apply StronglySorted_app. split; [|split; [done|]].
      * intros x y Hx [->|Hy]%elem_of_cons; [by apply (Hb x p); set_solver|apply Hb; set_solver].
      * apply StronglySorted_cons. split; [|done]. apply Forall_forall. intros y Hy. specialize (Hp y Hy).
        unfold before, HSIZE in *. simpl. lia.
    + apply Forall_app. split; [done|]. constructor; [|done]. destruct Hip as (? & ? & ? & ?). unfold inside, HSIZE in *. simpl. lia.
    + intros x Hx0 Hx b Hbl. assert (b ∈ l1 ++ l2 ∨ b = (p.1, p.2 - nun)) as [Hbl' | ->] by set_solver; [apply Hx; set_solver|].
      specialize (Hx p ltac:(set_solver)). unfold disj, HSIZE in *. simpl. lia.
    + intros b Hbl. assert (b ∈ l1 ++ l2 ∨ b = (p.1, p.2 - nun)) as [Hbl' | ->] by set_solver; [by apply Hout|].
      unfold disj, HSIZE. simpl. lia.
    + rewrite !units_app. simpl. lia.
Qed.

Lemma heap_take s s' l1 p l2 A nun :
  heap s (l1 ++ p :: l2) A → 1 ≤ nun ≤ p.2 → let a := p.1 + HSIZE * (p.2 - nun) in
  chain (mem s') ((base, 0) :: l1 ++ remains p nun ++ l2) base → brk s' = brk s → keeps A s s' →
  mem s' (a + 4) = nun → (∃ k, (freep s', k) ∈ (base, 0) :: l1) →
  A !! a = None ∧ heap s' (l1 ++ remains p nun ++ l2) (<[a := nun]> A) ∧
  units (l1 ++ remains p nun ++ l2) = units (l1 ++ p :: l2) - nun.
Proof.
  intros H Hn a Hc Hbrk Hk Ha [k Hf].
  destruct (take_wf s l1 p l2 nun (hp_sorted _ _ _ H) (hp_inside _ _ _ H) Hn) as (Hso & Hi & Hcl & Hnew & Hu).
  pose proof (hp_inside _ _ _ H) as Hip. rewrite Forall_forall in Hip. specialize (Hip p ltac:(set_solver)).
  assert (Hina : inside s (a, nun)).
  { destruct Hip as (? & ? & ? & ?). unfold inside, a, HSIZE in *. simpl. split; [lia|]. split; [lia|]. split; [lia|].
    Z.to_euclidean_division_equations. lia. }
  assert (Hda : ∀ a' n', A !! a' = Some n' → disj (a', n') (a, nun)).
  { intros a' n' Ha'. pose proof (hp_disj _ _ _ H _ _ p Ha' ltac:(set_solver)) as Hd.
    destruct (hp_alloc _ _ _ H _ _ Ha') as [(_ & ? & _) _]. unfold disj, a, HSIZE in *. simpl in *. lia. }
  assert (Hins : ∀ x, inside s x → inside s' x) by (unfold inside; by rewrite Hbrk).
  split; [|split; [|done]].
  { destruct (A !! a) as [n'|] eqn:E; [|done]. specialize (Hda _ _ E).
    destruct (hp_alloc _ _ _ H _ _ E) as [(_ & ? & _) _]. unfold disj, HSIZE in *. simpl in *. lia. }
  assert (Hcls : ∀ a' n', A !! a' = Some n' → clear (a', n') (l1 ++ remains p nun ++ l2)).
  { intros a' n' Ha'. apply Hcl; [by destruct (hp_alloc _ _ _ H _ _ Ha') as [(_ & ? & _) _]|]. intros ? ?. by eapply hp_disj. }
  split; try done.
  - rewrite Hbrk. apply H.
  - exists k. rewrite app_comm_cons. apply elem_of_app. by left.
  - eapply Forall_impl; [exact Hi|exact Hins].
  - intros a' n' [[<- <-]|[Hne Ha']]%lookup_insert_Some; [split; [by apply Hins|done]|].
    destruct (hp_alloc _ _ _ H _ _ Ha') as [Hia' Hsz]. split; [by apply Hins|]. rewrite (Hk _ _ Ha'); [done|].
    destruct Hia' as (_ & ? & _). unfold HSIZE in *. simpl in *. lia.
  - intros a' n' b [[<- <-]|[Hne Ha']]%lookup_insert_Some Hb; [by apply Hnew|by apply (Hcls _ _ Ha')].
  - intros a1 n1 a2 n2 [[<- <-]|[Hne1 Ha1]]%lookup_insert_Some [[<- <-]|[Hne2 Ha2]]%lookup_insert_Some Hne; try done.
    + specialize (Hda _ _ Ha2). unfold disj in *. tauto.
    + by apply Hda.
    + by eapply hp_apart.
Qed.

(** What a successful call of [malloc] promises: a new block of [nun] units. *)
Definition got (s : mst) (A : gmap Z Z) (u nun r : Z) (s' : mst) : Prop :=
  ∃ a bs', r = a + HSIZE ∧ A !! a = None ∧ heap s' bs' (<[a := nun]> A) ∧ keeps A s s' ∧ units bs' = u - nun.

(** The place of [q] in the free list, with the block after it. *)
Lemma next_split s bs A q : heap s bs A → q ∈ (base, 0) :: bs → 1 ≤ mem s (mem s q.1 + 4) →
  ∃ X l1 p l2, bs = l1 ++ p :: l2 ∧ (base, 0) :: l1 = X ++ [q] ∧ mem s q.1 = p.1 ∧ mem s (p.1 + 4) = p.2 ∧
    mem s p.1 = hd_addr l2 base.
Proof.
  intros H Hq Hn. pose proof (hp_chain _ _ _ H) as Hc. apply list_elem_of_split in Hq as (X & V & E).
  rewrite E in Hc. apply links_app in Hc as [_ (Hq & _ & Hc)].
  assert (H0 : mem s (base + 4) = 0) by apply (hp_chain _ _ _ H).
  destruct V as [|p V]; simpl in Hq; [rewrite Hq in Hn; lia|]. destruct Hc as (Hp & Hp4 & _).
  assert (∃ l1, bs = l1 ++ p :: V ∧ (base, 0) :: l1 = X ++ [q]) as (l1 & -> & E').
  { destruct X as [|x X]; simpl in E; simplify_eq; [by exists []|]. exists (X ++ [q]). by rewrite <-app_assoc. }
  by exists X, l1, p, V.
Qed.

(** The stores of [malloc_take]. *)
Lemma malloc_take_run s (q p : blk) nun Q :
  hdr s q.1 → hdr s p.1 → 1 ≤ nun ≤ p.2 → p.2 < 2 ^ 28 → p.1 + HSIZE * p.2 < 2 ^ 32 →
  let a := p.1 + HSIZE * (p.2 - nun) in (nun < p.2 → hdr s a) →
  Q (hadd a 1) (set_freep q.1 (if p.2 =? nun then set_mem q.1 (mem s p.1) s
                               else set_mem (a + 4) nun (set_mem (p.1 + 4) (p.2 - nun) s))) →
  wp (malloc_take base heap0 q.1 p.1 p.2 nun) Q s.
Proof.
  intros Hq Hp Hn Hp2 Hp32 a Ha HQ. assert (0 < p.1) by apply Hp. unfold malloc_take. unfold a, HSIZE in *.
  destruct (Z.eqb_spec p.2 nun) as [E|Hne].
  - apply wp_bind. apply wp_bind, wp_ptr; [done|]. apply wp_bind, wp_set_ptr; [done|]. apply wp_ret.
    apply wp_bind, wp_modify, wp_ret. rewrite E in HQ. replace (nun - nun) with 0 in HQ by lia.
    by rewrite Z.mul_0_r, Z.add_0_r in HQ.
  - rewrite u32_small by lia. apply wp_bind. apply wp_bind, wp_set_size; [done|]. apply wp_bind, wp_size; [done|].
    simpl. rewrite Z.eqb_refl. assert (Eh : hadd p.1 (p.2 - nun) = p.1 + 8 * (p.2 - nun)) by (apply u32_small; unfold HSIZE; lia).
    rewrite Eh. apply wp_bind, wp_set_size; [apply Ha; lia|]. by apply wp_ret, wp_bind, wp_modify, wp_ret.
Qed.

Lemma malloc_found s bs A q nun ok n :
  heap s bs A → q ∈ (base, 0) :: bs → 1 ≤ nun ≤ mem s (mem s q.1 + 4) →
  wp (malloc_loop base heap0 n ok nun q.1 (mem s q.1)) (λ r s', got s A (units bs) nun r s' ∧ brk s' = brk s) s.
Proof.
  intros H Hq Hn. destruct (next_split s bs A q H Hq ltac:(lia)) as (X & l1 & p & l2 & -> & EX & Hqp & Hp4 & Hp).
  rewrite Hqp in *. rewrite Hp4 in Hn. destruct (heap_sorted _ _ _ H) as (HsF & _ & HhF).
  rewrite Forall_forall in HhF. pose proof (HhF _ Hq) as Hhq. assert (Hhp : hdr s p.1) by (apply HhF; set_solver).
  pose proof (hp_inside _ _ _ H) as Hip. rewrite Forall_forall in Hip. specialize (Hip p ltac:(set_solver)).
  destruct (hp_brk _ _ _ H) as [Hbrk _]. pose proof (hp_chain _ _ _ H) as Hc.
  rewrite app_comm_cons, EX in Hc. apply links_app in Hc as [HcX (_ & _ & Hc2)]. apply links_app in HcX as [HcX (_ & Hq4 & _)].
  assert (EF : (base, 0) :: l1 ++ p :: l2 = X ++ [q] ++ p :: l2) by (by rewrite app_comm_cons, EX, <-app_assoc).
  assert (HXq : ∀ b, b ∈ X → b.1 + 8 ≤ q.1) by (intros b Hb; eapply (heap_order _ _ _ X ([q] ++ p :: l2)); [done|done|done|set_solver]).
  assert (Hqp8 : ∀ b, b ∈ X ++ [q] → b.1 + 8 ≤ p.1).
  { intros b Hb. eapply (heap_order _ _ _ (X ++ [q]) (p :: l2)); [done|by rewrite <-app_assoc|done|set_solver]. }
  assert (Hpl : ∀ b, b ∈ l2 → p.1 + HSIZE * p.2 < b.1).
  { pose proof (hp_sorted _ _ _ H) as Hso. apply StronglySorted_app in Hso as (_ & _ & Hso).
    apply StronglySorted_cons in Hso as [Hso _]. by rewrite Forall_forall in Hso. }
  destruct (hdr_bounds s p ltac:(lia) Hip) as [Hp28 Hp0]. destruct Hip as (Hip1 & _ & Hip2 & Hip8).
  assert (Hp31 : p.1 < 2 ^ 31) by apply Hhp. set (a := p.1 + HSIZE * (p.2 - nun)).
  assert (Hq8 : q.1 + 8 ≤ p.1) by (apply Hqp8; set_solver).
  assert (Ha8 : p.1 ≤ a ∧ a + HSIZE ≤ p.1 + HSIZE * p.2) by (unfold a, HSIZE; lia).
  assert (Hret : hadd a 1 = a + HSIZE) by (unfold hadd, KERNBASE, HSIZE in *; rewrite u32_small; lia).
  assert (Hfin : ∀ s', brk s' = brk s → freep s' = q.1 → chain (mem s') ((X ++ [q]) ++ remains p nun ++ l2) base → keeps A s s' →
    mem s' (a + 4) = nun → got s A (units (l1 ++ p :: l2)) nun (hadd a 1) s' ∧ brk s' = brk s).
  { intros s' Hb Hf Hch Hk Hsz. destruct (heap_take s s' l1 p l2 A nun H Hn) as (HA & HH & Hu); try done.
    - by rewrite app_comm_cons, EX.
    - exists q.2. rewrite Hf, EX, <-surjective_pairing. set_solver.
    - split; [|done]. exists a, (l1 ++ remains p nun ++ l2). done. }
  assert (Hw : wp (malloc_take base heap0 q.1 p.1 p.2 nun) (λ r s', got s A (units (l1 ++ p :: l2)) nun r s' ∧ brk s' = brk s) s).
  { apply malloc_take_run; try done; [lia|unfold KERNBASE, HSIZE in *; lia| |].
    { intros _. apply (hdr_inside s (a, nun)); [lia|]. unfold inside, a, HSIZE in *. simpl.
      split; [lia|]. split; [lia|]. split; [lia|]. Z.to_euclidean_division_equations. lia. }
    fold a.
    apply Hfin; unfold remains; destruct (Z.eqb_spec p.2 nun) as [E|Hne]; try done.
    - rewrite <-app_assoc. apply links_app. split; [|simpl; split; [|split]].
      + eapply links_ext; [|exact HcX]. intros b Hb. specialize (HXq b Hb). split; by mem_upd.
      + by mem_upd.
      + by mem_upd.
      + eapply links_ext; [|exact Hc2]. intros b Hb. specialize (Hpl b Hb). unfold HSIZE in *. split; by mem_upd.
    - rewrite <-app_assoc. apply links_app. split; [|simpl; split; [|split; [|split; [|split]]]].
      + eapply links_ext; [|exact HcX]. intros b Hb. specialize (HXq b Hb). split; by mem_upd.
      + by mem_upd.
      + by mem_upd.
      + by mem_upd.
      + assert (p.1 ≠ a) by (unfold a, HSIZE; lia). by mem_upd.
      + eapply links_ext; [|exact Hc2]. intros b Hb. specialize (Hpl b Hb). unfold HSIZE in *. split; by mem_upd.
    - intros a' n' Ha' x Hx. destruct (off_free _ _ _ _ _ x q H Ha' Hx Hq). by mem_upd.
    - intros a' n' Ha' x Hx. pose proof (hp_disj _ _ _ H a' n' p Ha' ltac:(set_solver)) as Hd.
      unfold disj, HSIZE in *. simpl in Hd. by mem_upd.
    - assert (a = p.1) as -> by (unfold a; rewrite E; lia). mem_upd. by rewrite Hp4.
    - by mem_upd. }
  destruct n; simpl; (apply wp_bind, wp_size; [done|]); rewrite Hp4;
    (destruct (Z.leb_spec nun p.2); [exact Hw|lia]).
Qed.




(** *** The search of [malloc]

    From [prev] over the blocks [L] to the block of [freep]: it ends at the
    first block that is large enough, or at [freep]. *)
Lemma malloc_walk s ok nun fb (Q : Z → mst → Prop) z : ∀ L prev n,
  chain (mem s) (prev :: L ++ [fb]) z → freep s = fb.1 → (∀ b, b ∈ L → b.1 ≠ fb.1) →
  Forall (λ b, hdr s b.1) (prev :: L ++ [fb]) → (length L <= n)%nat →
  (∀ q n', q ∈ prev :: L → nun ≤ mem s (mem s q.1 + 4) → wp (malloc_loop base heap0 n' ok nun q.1 (mem s q.1)) Q s) →
  (∀ q n', q ∈ prev :: L → (n - length L <= n')%nat → mem s q.1 = fb.1 → Forall (λ b, b.2 < nun) (L ++ [fb]) →
    wp (malloc_loop base heap0 n' ok nun q.1 fb.1) Q s) →
  wp (malloc_loop base heap0 n ok nun prev.1 (mem s prev.1)) Q s.
Proof.
  induction L as [|b L IH]; intros prev n Hc Hf Hne Hh Hn Hfound Hnone; simpl in Hc.
  - destruct Hc as (Hp & _ & Hfb & Hfb4 & _). simpl in Hfb. destruct (decide (nun ≤ fb.2)) as [Hle|Hgt].
    + apply Hfound; [set_solver|]. rewrite Hp. simpl. lia.
    + rewrite Hp. apply Hnone; [set_solver|simpl; lia|done|]. simpl. constructor; [lia|done].
  - destruct Hc as (Hp & Hp4 & Hc). simpl in Hp. pose proof Hc as Hc0. destruct Hc as (Hb & Hb4 & Hc).
    destruct (decide (nun ≤ b.2)) as [Hle|Hgt]; [apply Hfound; [set_solver|rewrite Hp; lia]|].
    apply Forall_cons in Hh as [_ Hh]. pose proof Hh as Hh0. apply Forall_cons in Hh0 as [Hhb _].
    destruct n as [|n]; [simpl in Hn; lia|]. simpl. rewrite Hp.
    apply wp_bind, wp_size; [done|]. rewrite Hb4. destruct (Z.leb_spec nun b.2); [lia|].
    apply wp_bind, wp_gets, wp_bind. rewrite Hf. destruct (Z.eqb_spec b.1 fb.1) as [E|_]; [exfalso; eapply Hne, E; set_solver|].
    apply wp_ret. simpl. apply wp_bind, wp_ptr; [done|].
    apply IH; [exact Hc0|done|set_solver|done|simpl in Hn; lia| |].
    + intros q n' Hq. apply Hfound. apply elem_of_cons. by right.
    + intros q n' Hq Hn' Hqf Hall. apply Hnone; [apply elem_of_cons; by right|simpl; lia|done|]. simpl. constructor; [lia|done].
Qed.

Lemma malloc_search s bs A ok nun (Q : Z → mst → Prop) n :
  heap s bs A → (length bs <= n)%nat →
  (∀ q n', q ∈ (base, 0) :: bs → nun ≤ mem s (mem s q.1 + 4) → wp (malloc_loop base heap0 n' ok nun q.1 (mem s q.1)) Q s) →
  (∀ q n', (n - length bs <= n')%nat → Forall (λ b, b.2 < nun) bs → mem s (freep s + 4) < nun → hdr s (freep s) →
    wp (malloc_loop base heap0 n' ok nun q (freep s)) Q s) →
  wp (malloc_loop base heap0 n ok nun (freep s) (mem s (freep s))) Q s.
Proof.
  intros H Hn Hfound Hnone. destruct (heap_sorted _ _ _ H) as (HsF & _ & HhF). pose proof (hp_chain _ _ _ H) as Hc.
  destruct (hp_freep _ _ _ H) as [k Hf]. set (fb := (freep s, k)) in *.
  apply list_elem_of_split in Hf as (P & T & E). assert (Hlen : length bs = length (T ++ P)).
  { apply (f_equal length) in E. rewrite length_app in *. simpl in E. lia. }
  assert (Hmem : ∀ b, b ∈ (base, 0) :: bs ↔ b ∈ fb :: T ++ P) by (intros b; rewrite E; set_solver).
  assert (Hc' : chain (mem s) (fb :: T ++ P) (freep s)).
  { change (freep s) with (hd_addr ((fb :: T) ++ P) 0). apply (chain_rotate _ P (fb :: T)). rewrite <-E. exact Hc. }
  pose proof Hc' as Hc2. destruct Hc2 as (_ & Hf4 & _).
  change (freep s) with (fb.1) at 1 2. apply (malloc_walk s ok nun fb Q (hd_addr (T ++ P) (freep s)) (T ++ P)).
  - rewrite app_comm_cons. apply links_app. split; [exact Hc'|]. simpl. split; [apply Hc'|]. done.
  - done.
  - intros b Hb Eb. rewrite E in HsF. pose proof (heap_order s bs A) as Ho.
    apply elem_of_app in Hb as [Hb|Hb].
    + specialize (Ho (P ++ [fb]) T fb b H). rewrite <-app_assoc in Ho. specialize (Ho E ltac:(set_solver) Hb). lia.
    + specialize (Ho P (fb :: T) b fb H E Hb ltac:(set_solver)). lia.
  - apply Forall_forall. rewrite Forall_forall in HhF. intros b Hb. apply HhF, Hmem. set_solver.
  - lia.
  - intros q n' Hq. apply Hfound. by apply Hmem.
  - intros q n' Hq Hn' _ Hall. apply Hnone; [lia| | |].
    + rewrite Forall_forall in Hall |- *. intros b Hb. apply Hall. assert (b ∈ fb :: T ++ P) by (apply Hmem; set_solver). set_solver.
    + change (freep s) with (fb.1). rewrite Hf4. rewrite Forall_forall in Hall. apply Hall. set_solver.
    + rewrite Forall_forall in HhF. apply (HhF fb), Hmem. set_solver.
Qed.

(** *** Growing the heap *)
Lemma heap_grow s bs A b m :
  heap s bs A → brk s ≤ b ≤ KERNBASE → b `mod` 8 = 0 → (∀ x, x < brk s → m x = mem s x) → heap (mkMst m (freep s) b) bs A.
Proof.
  intros H Hb Hb8 Hm. pose proof (hp_inside _ _ _ H) as Hi. rewrite Forall_forall in Hi. destruct (hp_brk _ _ _ H) as [Hbrk _].
  assert (Hins : ∀ x, inside s x → inside (mkMst m (freep s) b) x) by (unfold inside; simpl; intros x (? & ? & ? & ?); split_and!; lia).
  split; cbn [mem freep brk set_mem]; try apply H.
  - lia.
  - eapply links_ext; [|apply H]. intros x [->|Hx]%elem_of_cons; simpl.
    + destruct Hbase as (_ & _ & ? & _). unfold HSIZE in *. split; apply Hm; lia.
    + destruct (Hi x Hx) as (_ & ? & ? & _). unfold HSIZE in *. split; apply Hm; lia.
  - apply Forall_forall. auto.
  - intros a n Ha. destruct (hp_alloc _ _ _ H a n Ha) as [Hia Hsz]. split; [by apply Hins|]. rewrite Hm; [done|].
    destruct Hia as (_ & ? & ? & _). unfold HSIZE in *. simpl in *. lia.
Qed.

(** A block at the end of the heap that belongs to nobody yet. *)
Lemma heap_adopt s bs A a n :
  heap s bs A → inside s (a, n) → (∀ b, b ∈ bs → b.1 + HSIZE * b.2 ≤ a) → (∀ a' n', A !! a' = Some n' → a' + HSIZE * n' ≤ a) →
  heap (set_mem (a + 4) n s) bs (<[a := n]> A).
Proof.
  intros H Ha Hb HA. pose proof (hp_inside _ _ _ H) as Hi. rewrite Forall_forall in Hi.
  assert (Hne : ∀ a' n', A !! a' = Some n' → a' + 8 ≤ a).
  { intros a' n' Ha'. destruct (hp_alloc _ _ _ H a' n' Ha') as [(_ & ? & _) _]. specialize (HA _ _ Ha'). unfold HSIZE in *. simpl in *. lia. }
  split; cbn [mem freep brk set_mem]; try apply H.
  - eapply links_ext; [|apply H]. intros x [->|Hx]%elem_of_cons; simpl.
    + destruct Hbase as (_ & _ & ? & _), Ha as (? & _). unfold HSIZE in *. simpl in *. split; by mem_upd.
    + destruct (Hi x Hx) as (_ & ? & _). specialize (Hb x Hx). unfold HSIZE in *. split; by mem_upd.
  - intros a' n' [[<- <-]|[Hne' Ha']]%lookup_insert_Some; [split; [done|by mem_upd]|].
    destruct (hp_alloc _ _ _ H a' n' Ha') as [Hia Hsz]. split; [done|]. specialize (Hne _ _ Ha'). by mem_upd.
  - intros a' n' b [[<- <-]|[Hne' Ha']]%lookup_insert_Some Hbb; [right; by apply Hb|by eapply hp_disj].
  - intros a1 n1 a2 n2 [[<- <-]|[Hn1 H1]]%lookup_insert_Some [[<- <-]|[Hn2 H2]]%lookup_insert_Some Hd; try done.
    + right. by apply HA.
    + left. by apply HA.
    + by eapply hp_apart.
Qed.

Lemma PGROUNDUP_ge b : 0 ≤ b ≤ KERNBASE → b ≤ PGROUNDUP b.
Proof.
  intros Hb. rewrite PGROUNDUP_spec by (unfold KERNBASE, PGSIZE in *; lia). unfold PGSIZE.
  Z.to_euclidean_division_equations. lia.
Qed.

Lemma morecore_spec s bs A ok nu :
  heap s bs A → 1 ≤ nu → nu * HSIZE < 2 ^ 31 →
  wp (morecore base heap0 ok nu) (λ r s',
    (r = 0 ∧ s' = s ∧ (ok = false ∨ KERNBASE ≤ brk s + HSIZE * Z.max nu 4096)) ∨
    (r = freep s' ∧ ∃ bs', heap s' bs' A ∧ keeps A s s' ∧ (∃ b, b ∈ bs' ∧ nu ≤ b.2) ∧ (length bs' <= S (length bs))%nat ∧
      brk s' = brk s + HSIZE * (units bs' - units bs))) s.
Proof.
  intros H Hnu Hnu31. destruct (hp_brk _ _ _ H) as [Hbrk Hb8]. unfold morecore. set (nu' := if nu <? 4096 then 4096 else nu).
  assert (Hnu' : nu ≤ nu' ∧ nu' * HSIZE < 2 ^ 31) by (unfold nu', HSIZE in *; destruct (Z.ltb_spec nu 4096); lia).
  assert (Hb0 : 0 < brk s) by (destruct Hbase as (? & _ & ? & _); unfold HSIZE in *; lia).
  rewrite u32_small, s32_small by (unfold HSIZE in *; lia). apply wp_bind. unfold wp at 1, sbrk.
  destruct (Z.ltb_spec 0 (nu' * HSIZE)); [|unfold HSIZE in *; lia].
  destruct (ok && (brk s + nu' * HSIZE <? KERNBASE)) eqn:Eok.
  2: { rewrite Z.eqb_refl. left. split; [done|]. split; [done|]. destruct ok; [right|by left]. simpl in Eok.
       apply Z.ltb_ge in Eok. unfold nu', HSIZE in *. destruct (Z.ltb_spec nu 4096); lia. }
  apply andb_true_iff in Eok as [_ Hlt%Z.ltb_lt].
  destruct (Z.eqb_spec (brk s) (2 ^ 32 - 1)) as [E|_]; [unfold KERNBASE in *; lia|].
  set (s1 := mkMst _ _ _).
  assert (H1 : heap s1 bs A).
  { apply heap_grow; [done|unfold HSIZE in *; lia| |].
    - unfold HSIZE in *. Z.to_euclidean_division_equations. lia.
    - intros x Hx. pose proof (PGROUNDUP_ge (brk s) ltac:(lia)). destruct (Z.leb_spec (PGROUNDUP (brk s)) x); [lia|done]. }
  assert (Hin1 : inside s1 (brk s, nu')) by (unfold inside, s1, HSIZE in *; simpl; lia).
  assert (Hend : ∀ a n, A !! a = Some n → a + HSIZE * n ≤ brk s) by (intros a n Ha; apply (hp_alloc _ _ _ H a n Ha)).
  assert (H2 : heap (set_mem (brk s + 4) nu' s1) bs (<[brk s := nu']> A)).
  { apply heap_adopt; [done..| |done]. intros b Hb. pose proof (hp_inside _ _ _ H) as Hi. rewrite Forall_forall in Hi. by apply Hi. }
  assert (HAb : A !! brk s = None).
  { destruct (A !! brk s) as [n|] eqn:E; [|done]. specialize (Hend _ _ E). destruct (hp_alloc _ _ _ H _ _ E) as [(_ & ? & _) _].
    unfold HSIZE in *. simpl in *. lia. }
  apply wp_bind, wp_set_size; [by apply (hdr_inside s1 (brk s, nu')); [apply (hp_brk _ _ _ H1)|]|].
  replace (hadd (brk s) 1) with (brk s + HSIZE) by (unfold hadd, KERNBASE, HSIZE in *; rewrite u32_small; lia).
  apply wp_bind. eapply wp_mono; [eapply free_spec; [exact H2|apply lookup_insert_eq]|].
  intros _ s' (bs' & H' & Hb' & Hk' & Hu' & Hlen' & (b & Hb & Hbn)). apply wp_gets. right. split; [done|].
  rewrite delete_insert_id in H', Hk' by done. exists bs'. split; [done|]. split; [|split; [exists b; split; [done|lia]|split; [done|]]].
  - intros a n Ha x Hx. rewrite (Hk' a n Ha x Hx). specialize (Hend a n Ha). simpl. mem_upd.
    pose proof (PGROUNDUP_ge (brk s) ltac:(lia)). destruct (Z.leb_spec (PGROUNDUP (brk s)) x); [lia|done].
  - rewrite Hb'. simpl. unfold HSIZE in *. lia.
Qed.

(** *** The functions *)

(** The state before the first call of [malloc], or a heap. *)
Definition uheap (s : mst) (bs : list blk) (A : gmap Z Z) : Prop :=
  heap s bs A ∨ (freep s = 0 ∧ bs = [] ∧ A = ∅ ∧ heap0 ≤ brk s ≤ KERNBASE ∧ brk s `mod` 8 = 0).

(** [malloc] on a heap: a block, or no block because the kernel refuses. *)
Definition malloc_post (ok : bool) (nun : Z) (s : mst) (bs : list blk) (A : gmap Z Z) (r : Z) (s' : mst) : Prop :=
  (r = 0 ∧ heap s' bs A ∧ keeps A s s' ∧ brk s' = brk s ∧ Forall (λ b, b.2 < nun) bs ∧
    (ok = false ∨ KERNBASE ≤ brk s + HSIZE * Z.max nun 4096)) ∨
  (∃ a bs', r = a + HSIZE ∧ A !! a = None ∧ heap s' bs' (<[a := nun]> A) ∧ keeps A s s' ∧
    brk s' - HSIZE * (units bs' + nun) = brk s - HSIZE * units bs).

Lemma malloc_go s bs A ok nun n :
  heap s bs A → 1 ≤ nun → nun * HSIZE < 2 ^ 31 → (2 * length bs + 2 <= n)%nat →
  wp (malloc_loop base heap0 n ok nun (freep s) (mem s (freep s))) (malloc_post ok nun s bs A) s.
Proof.
  intros H Hnun Hnun31 Hn. eapply malloc_search; [exact H|lia| |].
  - intros q n' Hq Hle. eapply wp_mono; [by eapply malloc_found|]. intros r s' [(a & bs' & -> & HA & H' & Hk & Hu) Hb].
    right. exists a, bs'. split_and!; try done. lia.
  - intros q n' Hn' Hall Hf Hhf. destruct n' as [|n']; [lia|]. simpl. apply wp_bind, wp_size; [done|].
    destruct (Z.leb_spec nun (mem s (freep s + 4))); [lia|]. apply wp_bind, wp_gets, wp_bind. rewrite Z.eqb_refl.
    eapply wp_mono; [by eapply morecore_spec|].
    intros r s' [(-> & -> & Hno)|(-> & bs' & H' & Hk & (b & Hb & Hbn) & Hlen & Hbrk)].
    { left. by split_and!. }
    destruct (heap_sorted _ _ _ H') as (_ & _ & HhF). destruct (hp_freep _ _ _ H') as [k Hfp].
    rewrite Forall_forall in HhF. specialize (HhF _ Hfp). simpl in HhF. assert (0 < freep s') by apply HhF.
    destruct (Z.eqb_spec (freep s') 0); [lia|]. simpl. apply wp_bind, wp_ptr; [done|].
    eapply malloc_search; [exact H'|lia| |].
    + intros q' n'' Hq Hle. eapply wp_mono; [by eapply malloc_found|]. intros r s2 [(a & bs2 & -> & HA & H2 & Hk2 & Hu) Hb2].
      right. exists a, bs2. split; [done|]. split; [done|]. split; [done|]. split; [|unfold HSIZE in *; lia].
      intros a' n2 Ha' x Hx. by rewrite (Hk2 _ _ Ha' x Hx), (Hk _ _ Ha' x Hx).
    + intros q' n'' _ Hall'. rewrite Forall_forall in Hall'. specialize (Hall' b Hb). lia.
Qed.

Lemma nunits_small nbytes : 0 ≤ nbytes ≤ 2 ^ 31 - 16 ∨ 2 ^ 32 - HSIZE < nbytes < 2 ^ 32 →
  let nun := nunits_of nbytes in 1 ≤ nun ∧ nun * HSIZE < 2 ^ 31 ∧ if nbytes <=? 2 ^ 31 - 16 then nbytes ≤ HSIZE * (nun - 1) else nun = 1.
Proof.
  unfold nunits_of, HSIZE. destruct (Z.leb_spec nbytes (2 ^ 31 - 16)) as [Hle|Hgt]; intros Hn.
  - rewrite (u32_small (nbytes + 8 - 1)) by lia. rewrite u32_small; Z.to_euclidean_division_equations; lia.
  - unfold u32. replace (nbytes + 8 - 1) with (nbytes + 7 - 2 ^ 32 + 1 * 2 ^ 32) by lia. rewrite Z.mod_add, (Z.mod_small (nbytes + 7 - 2 ^ 32)) by lia.
    rewrite Z.div_small by lia. done.
Qed.

(** The first call makes the ring of [base] alone. *)
Lemma heap_init s : heap0 ≤ brk s ≤ KERNBASE → brk s `mod` 8 = 0 →
  heap (set_mem (base + 4) 0 (set_freep base (set_mem base base s))) [] ∅.
Proof.
  intros Hb Hb8. split; try done; simpl.
  - split_and!; try done; by mem_upd.
  - exists 0. apply elem_of_cons. by left.
  - constructor.
Qed.

(** C13: [malloc] for a request of at most 2^31 - 16 bytes returns on every heap
    of the allocator: with a block that was not allocated, large enough and
    disjoint from all other blocks, whose payload no other block overlaps, and
    the contents of all allocated blocks unchanged; or with the null pointer,
    only when no free block is large enough and the kernel does not grow the
    heap. No unit of the heap is lost: what is neither in the free list nor
    allocated does not change. For a request of more than 2^32 - 8 bytes the
    number of units wraps around, and [malloc] does the same for a block of one
    unit, which is only its header. *)
Theorem malloc_correct s bs A ok nbytes :
  uheap s bs A → 0 ≤ nbytes ≤ 2 ^ 31 - 16 ∨ 2 ^ 32 - HSIZE < nbytes < 2 ^ 32 →
  ∃ r s', malloc base heap0 ok nbytes s = Ok r s' ∧
    (if nbytes <=? 2 ^ 31 - 16 then nbytes ≤ HSIZE * (nunits_of nbytes - 1) else nunits_of nbytes = 1) ∧
    malloc_post ok (nunits_of nbytes) s bs A r s'.
Proof.
  intros Hu Hn. destruct (nunits_small nbytes Hn) as (Hn1 & Hn2 & Hn3).
  assert (Hgo : wp (malloc base heap0 ok nbytes) (malloc_post ok (nunits_of nbytes) s bs A) s).
  { unfold malloc. apply wp_bind, wp_gets, wp_bind. destruct Hu as [H|(Hf & -> & -> & Hb & Hb8)].
    - destruct (heap_sorted _ _ _ H) as (_ & _ & HhF). destruct (hp_freep _ _ _ H) as [k Hfp].
      rewrite Forall_forall in HhF. specialize (HhF _ Hfp). simpl in HhF.
      destruct (Z.eqb_spec (freep s) 0) as [E|_]; [rewrite E in HhF; destruct HhF; lia|]. apply wp_ret, wp_bind, wp_ptr; [done|].
      apply wp_bind, wp_get, malloc_go; try done. pose proof (heap_fuel _ _ _ H). lia.
    - rewrite Hf. simpl. pose proof (hdr_base s Hb) as Hhb.
      apply wp_bind, wp_set_ptr; [done|]. apply wp_bind, wp_modify, wp_bind, wp_set_size; [done|]. apply wp_ret, wp_bind, wp_ptr; [done|].
      apply wp_bind, wp_get. set (s1 := set_mem _ _ _).
      pose proof (malloc_go s1 [] ∅ ok (nunits_of nbytes) (2 * blocks heap0 s1 + 2) (heap_init s Hb Hb8) Hn1 Hn2) as Hw.
      eapply wp_mono; [apply Hw; simpl; lia|]. intros r s' Hp.
      assert (Hk0 : keeps ∅ s s') by (intros a n Ea; by rewrite lookup_empty in Ea).
      destruct Hp as [(? & ? & _ & ?)|(a & bs' & ? & ? & ? & _ & ?)]; [left|right; exists a, bs'];
        repeat (split; [done|]); done. }
  apply wp_Ok in Hgo as (r & s' & Hrun & Hpost). by exists r, s'.
Qed.

(** C14: [free] of an allocated block returns on every heap of the allocator: the
    block leaves the allocated blocks, its units are back in the free list,
    which stays sorted with no two free blocks touching, and the contents of all
    other allocated blocks are unchanged. *)
Theorem free_correct s bs A a n :
  uheap s bs A → A !! a = Some n →
  ∃ s' bs', free base heap0 (a + HSIZE) s = Ok tt s' ∧ heap s' bs' (delete a A) ∧ brk s' = brk s ∧
    keeps (delete a A) s s' ∧ units bs' = units bs + n.
Proof.
  intros [H|(_ & _ & -> & _)] Ha; [|by rewrite lookup_empty in Ha].
  pose proof (free_spec s bs A a n H Ha) as Hw. apply wp_Ok in Hw as ([] & s' & Hrun & bs' & H' & Hb & Hk & Hu & _).
  exists s', bs'. done.
Qed.

(** The program may store anything in its blocks. *)
Lemma heap_store s bs A a n x v :
  heap s bs A → A !! a = Some n → a + HSIZE ≤ x < a + HSIZE * n → heap (set_mem x v s) bs A.
Proof.
  intros H Ha Hx. split; cbn [mem freep brk set_mem]; try apply H.
  - eapply links_ext; [|apply H]. intros b Hb. destruct (off_free _ _ _ _ _ x b H Ha ltac:(unfold HSIZE in *; lia) Hb). split; by mem_upd.
  - intros a' n' Ha'. destruct (hp_alloc _ _ _ H a' n' Ha') as [Hi Hsz]. split; [done|].
    destruct (decide (a = a')) as [<-|Hne]; [unfold HSIZE in *; by mem_upd|].
    destruct (off_alloc _ _ _ _ _ x a' n' H Ha ltac:(unfold HSIZE in *; lia) Ha' Hne). by mem_upd.
Qed.

End proofs.

(** ** Concrete runs *)

(** A process whose heap starts, empty, at 0x4000. *)
Definition mst0 : mst := mkMst (λ _, 0) 0 0x4000.

Lemma malloc_correct_witness :
  ∃ r s', malloc 0x1000 0x4000 true 20 mst0 = Ok r s' ∧ 20 ≤ HSIZE * (nunits_of 20 - 1) ∧
    malloc_post 0x1000 0x4000 true (nunits_of 20) mst0 [] ∅ r s'.
Proof.
  apply (malloc_correct 0x1000 0x4000).
  - split_and!; done.
  - right. split_and!; done.
  - left. lia.
Defined.

(** A heap of one unit, allocated. *)
Definition mst1 : mst := mkMst (λ x, if x =? 0x1000 then 0x1000 else if x =? 0x4004 then 1 else 0) 0x1000 0x4008.
Lemma mst1_heap : heap 0x1000 0x4000 mst1 [] {[0x4000 := 1]}.
Proof.
  split; try (intros; set_solver).
  - by split.
  - constructor.
  - intros a n [<- <-]%lookup_singleton_Some. done.
  - intros a n a' n' [<- <-]%lookup_singleton_Some [<- <-]%lookup_singleton_Some. done.
Qed.
Lemma free_correct_witness :
  ∃ s' bs', free 0x1000 0x4000 0x4008 mst1 = Ok tt s' ∧ heap 0x1000 0x4000 s' bs' (delete 0x4000 {[0x4000 := 1]}) ∧
    brk s' = 0x4008 ∧ keeps (delete 0x4000 {[0x4000 := 1]}) mst1 s' ∧ units bs' = 1.
Proof.
  apply (free_correct 0x1000 0x4000 ltac:(split_and!; done) mst1 [] {[0x4000 := 1]} 0x4000 1).
  - left. apply mst1_heap.
  - reflexivity.
Defined.

(** The number of units wraps around: a request for 2^32 - 1 bytes returns a
    block of one unit, which has no payload. *)
Theorem malloc_wraps :
  match malloc 0x1000 0x4000 true (2 ^ 32 - 1) mst0 with
  | Ok r s' => r = 0xC000 ∧ brk s' = 0xC000 ∧ mem s' (r - 4) = 1
  | Err _ _ => False
  end.
Proof. vm_compute. repeat split. Qed.
