(* ===== verification/Console.v ===== *)
(** * The console (console.c)

    The screen memory with the cursor registers of the display controller, the
    input ring with the line editing, the command history, and the modes that
    the other programs switch. Integer operators are those of C: [Z.rem] and
    [Z.quot] truncate, comparisons of an [int] with an [unsigned] are unsigned.
    An access outside of the screen memory or of an array is [Undef]. The
    characters sent to the serial port are collected in [serial], and calls of
    [wakeup(&input.r)] are counted. *)

From S2P Require Import Prelude.

Definition INPUT_BUF : Z := 128.
Definition COMMAND_BUF : Z := 128.
Definition CMDNUM : nat := 16.
Definition BACKSPACE : Z := 0x100.
Definition TAB : Z := 9.
Definition UPARROW : Z := 226.
Definition DOWNARROW : Z := 227.
Definition LEFTARROW : Z := 228.
Definition RIGHTARROW : Z := 229.
(** [C(x)] *)
Definition Ctl (x : Z) : Z := x - 64.
(** The text memory of the display has 32 KB. *)
Definition CRTSIZE : nat := (64 * 256)%nat.

(** The key words and the commands, with their terminators. *)
Definition cstr (s : string) : list Z := map (λ a, Z.of_nat (Ascii.nat_of_ascii a)) (String.list_ascii_of_string s) ++ [0].
Definition C_Key : list (list Z) := map cstr
  ["int"; "int*"; "double"; "double*"; "char"; "char*"; "bool"; "for"; "while"; "if"; "return"; "static";
   "void"; "do"; "else"; "switch"; "case"; "break"; "continue"; "#define"; "default"]%string.
Definition Command : list (list Z) := map cstr
  ["cat"; "date"; "echo"; "forktest"; "grep"; "init"; "kill"; "ln"; "ls"; "mkdir"; "rm"; "sh"; "snake";
   "stressfs"; "usertests"; "wc"; "zombie"; "hilight"; "tedit"]%string.

(** ** State *)
Record screen := mkScreen { crt : list Z; cursor : Z; lastblank : Z; inputPos : Z; lastpos : Z }.
Record modes := mkModes {
  panicked : bool; hlighttype : Z; isConsole : Z; edit_mode : Z; esc_mode : Z; gameInput : Z; gameGet : Z }.
Record input := mkInput { i_buf : list Z; i_r : Z; i_w : Z; i_e : Z }.
(** [struct commandLine] as the arrays of its fields, and [command]. *)
Record command := mkCommand {
  c_init : bool; c_first : bool;
  c_buf : list (list Z); c_next : list (option nat); c_pre : list (option nat);
  c_head : nat; c_tail : nat; c_current : nat; c_size : Z }.
Record con := mkCon {
  scr : screen; md : modes; inp : input; cmds : command; serial : list Z; wakes : nat }.

Definition on_scr (f : screen → screen) (t : con) : con := mkCon (f (scr t)) (md t) (inp t) (cmds t) (serial t) (wakes t).
Definition on_md (f : modes → modes) (t : con) : con := mkCon (scr t) (f (md t)) (inp t) (cmds t) (serial t) (wakes t).
Definition on_inp (f : input → input) (t : con) : con := mkCon (scr t) (md t) (f (inp t)) (cmds t) (serial t) (wakes t).
Definition on_cmd (f : command → command) (t : con) : con := mkCon (scr t) (md t) (inp t) (f (cmds t)) (serial t) (wakes t).
Definition set_crt i v (s : screen) := mkScreen (<[i := v]> (crt s)) (cursor s) (lastblank s) (inputPos s) (lastpos s).
Definition set_cells l (s : screen) := mkScreen l (cursor s) (lastblank s) (inputPos s) (lastpos s).
Definition set_cursor p (s : screen) := mkScreen (crt s) p (lastblank s) (inputPos s) (lastpos s).
Definition set_lastblank b (s : screen) := mkScreen (crt s) (cursor s) b (inputPos s) (lastpos s).
Definition set_inputPos p (s : screen) := mkScreen (crt s) (cursor s) (lastblank s) p (lastpos s).
Definition set_lastpos p (s : screen) := mkScreen (crt s) (cursor s) (lastblank s) (inputPos s) p.
Definition set_edit e x (m : modes) :=
  mkModes (panicked m) (hlighttype m) (isConsole m) e x (gameInput m) (gameGet m).
Definition set_game i g (m : modes) :=
  mkModes (panicked m) (hlighttype m) (isConsole m) (edit_mode m) (esc_mode m) i g.
Definition set_ibuf i v (s : input) := mkInput (<[i := v]> (i_buf s)) (i_r s) (i_w s) (i_e s).
Definition set_r v (s : input) := mkInput (i_buf s) v (i_w s) (i_e s).
Definition set_w v (s : input) := mkInput (i_buf s) (i_r s) v (i_e s).
Definition set_e v (s : input) := mkInput (i_buf s) (i_r s) (i_w s) v.

(** ** The screen *)
Definition crt_at (i : Z) : M con Z := λ t,
  if (0 <=? i) && (i <? Z.of_nat CRTSIZE) then Ok (crt (scr t) !!! Z.to_nat i) t else Err Undef t.
Definition set_crt_at (i v : Z) : M con unit := λ t,
  if (0 <=? i) && (i <? Z.of_nat CRTSIZE) then Ok tt (on_scr (set_crt (Z.to_nat i) (u16 v)) t) else Err Undef t.
(** The registers 14 and 15 of the controller hold the two bytes of the cursor. *)
Definition getpos : M con Z := gets (λ t, cursor (scr t)).
Definition putpos (pos : Z) : M con unit :=
  modify (on_scr (set_cursor (Z.lor (Z.shiftl (u8 (Z.shiftr pos 8)) 8) (u8 pos)))).
(** A cell with the white attribute. *)
Definition white (c : Z) : Z := Z.lor c 0x0700.

(** [n] cells from [i] on get their red attribute. *)
Fixpoint red_cells (n : nat) (i : Z) : M con unit :=
  match n with
  | O => mret tt
  | S n' => c ← crt_at i; set_crt_at i (Z.lor (c `mod` 256) 0x0400);; red_cells n' (i + 1)
  end.

Fixpoint getkey_loop (n : nat) (i : Z) (str2 : list Z) : M con bool :=
  match n, str2 with
  | O, c :: _ => mret (c =? 0)
  | S n', c :: str2' =>
      b ← gets (λ t, lastblank (scr t));
      x ← crt_at (b + 1 + i);
      if negb (x `mod` 256 =? c) || (c =? 0) then mret false else getkey_loop n' (i + 1) str2'
  | _, [] => undef
  end.
Definition getkey (len : Z) (str2 : list Z) : M con bool := getkey_loop (Z.to_nat len) 0 str2.

Fixpoint checkkeys (keys : list (list Z)) (len : Z) : M con bool :=
  match keys with
  | [] => mret false
  | k :: keys' => b ← getkey len k; if (b : bool) then mret true else checkkeys keys' len
  end.
(** [for(;pos<lastblank;)lastblank-=80] *)
Fixpoint lower_blank (n : nat) (pos b : Z) : Z :=
  match n with O => b | S n' => if pos <? b then lower_blank n' pos (b - 80) else b end.
Definition checkkey (pos : Z) : M con bool :=
  b ← gets (λ t, lastblank (scr t));
  if b =? -2 then modify (on_scr (set_lastblank pos));; mret false
  else
    let b := lower_blank (Z.to_nat (b - pos)) pos b in
    modify (on_scr (set_lastblank b));;
    checkkeys C_Key (pos - b - 1).
Definition dkey (pos : Z) : M con bool := c ← crt_at (pos - 1); mret (c / 256 =? 4).

(** [if((pos/80) >= 24)]: scroll up by a line. The length of the [memset] is
    unsigned. *)
Definition scroll (pos : Z) : M con Z :=
  if 24 <=? Z.quot pos 80 then
    let pos := pos - 80 in
    if 24 * 80 <? pos then undef else
    modify (on_scr (λ s, set_cells
      (let l := take 1840 (drop 80 (crt s)) ++ drop 1840 (crt s) in
       take (Z.to_nat pos) l ++ replicate (Z.to_nat (24 * 80 - pos)) 0 ++ drop 1920 l) s));;
    mret pos
  else mret pos.

(** The loops of the backspace: remove the red attribute to the left; the
    blank to the left. *)
Fixpoint unred (n : nat) (i : Z) : M con Z :=
  c ← crt_at i;
  if c / 256 =? 4 then
    match n with O => undef | S n' => set_crt_at i (Z.lor (c `mod` 256) 0x0700);; unred n' (i - 1) end
  else mret i.
Fixpoint to_blank (n : nat) (i : Z) : M con Z :=
  c ← crt_at i;
  if negb (c `mod` 256 =? 32) then match n with O => undef | S n' => to_blank n' (i - 1) end else mret i.

Definition cgaputc_h (c : Z) : M con unit :=
  pos ← getpos;
  pos ← (if c =? 10 then
           k ← checkkey pos;
           b ← gets (λ t, lastblank (scr t));
           (if (k : bool) then red_cells (Z.to_nat (pos - (b + 1))) (b + 1) else mret tt);;
           let pos := pos + (80 - Z.rem pos 80) in
           modify (on_scr (set_lastblank (pos - 1)));; mret pos
         else if c =? BACKSPACE then
           let pos := if 0 <? pos then pos - 1 else pos in
           d ← dkey pos;
           (if (d : bool) then i ← unred (Z.to_nat pos) (pos - 1); modify (on_scr (set_lastblank i)) else mret tt);;
           x ← crt_at pos;
           (if x `mod` 256 =? 32 then i ← to_blank (Z.to_nat pos) (pos - 2); modify (on_scr (set_lastblank i)) else mret tt);;
           mret pos
         else if c =? 32 then
           k ← checkkey pos;
           b ← gets (λ t, lastblank (scr t));
           (if (k : bool) then red_cells (Z.to_nat (pos - (b + 1))) (b + 1) else mret tt);;
           set_crt_at pos (white (Z.land c 0xff));;
           modify (on_scr (set_lastblank (pos + 1 - 1)));; mret (pos + 1)
         else set_crt_at pos (white (Z.land c 0xff));; mret (pos + 1));
  pos ← scroll pos;
  putpos pos;;
  set_crt_at pos (white 32).

(** The loops of [cgaputc]: shift the line to the left from [i] on; go left over
    empty cells; go left over empty cells and line ends; shift cells right. *)
Fixpoint shift_left (n : nat) (i : Z) : M con unit :=
  if Z.rem i 80 =? 0 then mret tt else
  match n with
  | O => stopM NoFuel
  | S n' => x ← crt_at (i + 1); set_crt_at i x;; shift_left n' (i + 1)
  end.
Fixpoint back_empty (n : nat) (pos : Z) : M con Z :=
  c ← crt_at pos;
  if c `mod` 256 =? 0 then match n with O => undef | S n' => back_empty n' (pos - 1) end else mret pos.
(** [off] is the distance of the cell that is tested to the left of [pos]. *)
Fixpoint back_end (n : nat) (off pos : Z) : M con Z :=
  c ← crt_at (pos - off);
  if (c `mod` 256 =? 0) || (c `mod` 256 =? 10) then match n with O => undef | S n' => back_end n' off (pos - 1) end
  else mret pos.
Fixpoint shift_right (n : nat) (i pos : Z) : M con unit :=
  if pos + 1 <=? i then
    match n with
    | O => stopM NoFuel
    | S n' => x ← crt_at (i - 1); set_crt_at i x;; shift_right n' (i - 1) pos
    end
  else mret tt.
(** The first ':' of the line before the cursor. *)
Fixpoint find_colon (n : nat) (j : Z) : M con Z :=
  match n with
  | O => mret j
  | S n' => c ← crt_at j; if c =? white 58 then mret j else find_colon n' (j + 1)
  end.

(** [cgaputc] up to the scrolling: the new [pos] and [move], or an early
    return. *)
Definition cga_char (c pos : Z) : M con (option (Z * Z)) :=
  console ← gets (λ t, isConsole (md t));
  ip ← gets (λ t, inputPos (scr t));
  let setlast p := modify (on_scr (set_lastpos p)) in
  if c =? 10 then setlast pos;; mret (Some (pos + (80 - Z.rem pos 80), 0))
  else if c =? BACKSPACE then
    if negb (console =? 0) then
      (if ip <? 0 then shift_left 80 (pos - 1) else mret tt);;
      if 0 <? pos then setlast pos;; mret (Some (pos - 1, 0)) else mret (Some (pos, 0))
    else if negb (Z.rem pos 80 =? 0) then setlast pos;; mret (Some (pos - 1, 0))
    else setlast pos;; p ← back_empty (Z.to_nat pos) (pos - 1); mret (Some (p, 0))
  else if c =? LEFTARROW then
    if negb (console =? 0) then mret (Some (pos, -1))
    else if 0 <? pos then
      if negb (Z.rem pos 80 =? 0) then mret (Some (pos, -1))
      else setlast pos;; p ← back_end (Z.to_nat pos) 1 (pos - 1); mret (Some (p, 0))
    else mret (Some (pos, 0))
  else if c =? RIGHTARROW then
    x ← crt_at pos;
    if negb (console =? 0) then
      y ← (if negb (x =? white 32) then mret true else y ← crt_at (pos + 1); mret (negb (y =? white 32)));
      mret (Some (pos, if (y : bool) then 1 else 0))
    else if negb (x =? white 0) && negb (x =? white 10) then mret (Some (pos, 1))
    else
      let nl := (Z.quot pos 80 + 1) * 80 in
      y ← crt_at nl;
      if negb (y `mod` 256 =? 0) || ((y `mod` 256 =? 0) && (x =? white 10))
      then setlast pos;; mret (Some (nl, 0)) else mret (Some (pos, 0))
  else if c =? UPARROW then
    if negb (console =? 0) then mret None
    else if 80 <=? pos then
      setlast pos;;
      let pos := pos - 80 in
      x ← crt_at pos;
      if x `mod` 256 =? 0 then p ← back_end (S (Z.to_nat pos)) 0 pos; mret (Some (p + 1, 0)) else mret (Some (pos, 0))
    else mret (Some (pos, 0))
  else if c =? DOWNARROW then
    setlast pos;;
    if negb (console =? 0) then mret None
    else if pos <? 80 * 23 then
      let last := pos in
      let pos := pos + 80 in
      x ← crt_at pos;
      pos ← (if x `mod` 256 =? 0 then p ← back_end (S (Z.to_nat pos)) 0 pos; mret (p + 1) else mret pos);
      if Z.quot pos 80 <=? Z.quot last 80 then
        x ← crt_at pos;
        mret (Some (if x `mod` 256 =? 10 then (Z.quot pos 80 + 1) * 80 else pos, 0))
      else mret (Some (pos, 0))
    else mret (Some (pos, 0))
  else
    (if ip <? 0 then shift_right (Z.to_nat (- ip)) (pos - ip) pos else mret tt);;
    set_crt_at pos (white (Z.land c 0xff));; mret (Some (pos + 1, 0)).

Definition cgaputc (c : Z) : M con unit :=
  pos ← getpos;
  r ← cga_char c pos;
  match r with
  | None => mret tt
  | Some (pos, move) =>
      pos ← scroll pos;
      console ← gets (λ t, isConsole (md t));
      let shift := modify (on_scr (λ s, set_inputPos (inputPos s + move) s)) in
      pos ← (if negb (console =? 0) then
               let start := pos - Z.rem pos 80 in
               j ← find_colon (Z.to_nat (pos - start)) start;
               if negb (Z.rem (pos + move - (j - start)) 80 =? 0) then shift;; mret (pos + move) else mret pos
             else if 0 <=? pos + move then shift;; mret (pos + move) else mret pos);
      putpos pos;;
      ip ← gets (λ t, inputPos (scr t));
      if (ip =? 0) && negb (console =? 0) then set_crt_at pos (white 32) else mret tt
  end.

(** A processor that prints after a panic spins for ever. *)
Definition uartputc (c : Z) : M con unit :=
  modify (λ t, mkCon (scr t) (md t) (inp t) (cmds t) (serial t ++ [u8 c]) (wakes t)).
Definition consputc (c : Z) : M con unit :=
  m ← gets md;
  if panicked m then stopM NoFuel else
  (if c =? BACKSPACE then uartputc 8;; uartputc 32;; uartputc 8 else uartputc c);;
  if negb (hlighttype m =? 0) then cgaputc_h c else cgaputc c.

Fixpoint consputs (l : list Z) : M con unit := match l with [] => mret tt | c :: l' => consputc c;; consputs l' end.

(** ** Printing *)

(** The digits of [printint], the lowest first; [x] has 32 bits. *)
Definition digit_char (d : Z) : Z := if d <? 10 then 48 + d else 97 + (d - 10).
Fixpoint digits_of (n : nat) (x base : Z) : list Z :=
  match n with
  | O => []
  | S n' => digit_char (x `mod` base) :: (if x / base =? 0 then [] else digits_of n' (x / base) base)
  end.
Definition printint (xx base : Z) (sign : bool) : M con unit :=
  let neg := sign && (xx <? 0) in
  let x := u32 (if neg then - xx else xx) in
  consputs (rev (digits_of 32 x base ++ if neg then [45] else [])).

(** The words of the argument list; the string at an address is given by
    [str]. The format string ends with its terminator. *)
Fixpoint cprintf (str : Z → list Z) (fmt : list Z) (argp : list Z) : M con unit :=
  match fmt with
  | [] => undef
  | c :: fmt' =>
      if c =? 0 then mret tt
      else if negb (c =? 37) then consputc c;; cprintf str fmt' argp
      else match fmt' with
      | [] => undef
      | c :: fmt' =>
          if c =? 0 then mret tt
          else if c =? 100 then a ← deref (head argp); printint (s32 a) 10 true;; cprintf str fmt' (tail argp)
          else if (c =? 120) || (c =? 112) then
            a ← deref (head argp); printint (s32 a) 16 false;; cprintf str fmt' (tail argp)
          else if c =? 115 then
            a ← deref (head argp);
            consputs (if a =? 0 then [40; 110; 117; 108; 108; 41] else str a);; cprintf str fmt' (tail argp)
          else if c =? 37 then consputc 37;; cprintf str fmt' argp
          else consputc 37;; consputc c;; cprintf str fmt' argp
      end
  end.

(** ** The input ring *)
Definition ibuf_at (i : Z) : M con Z := λ t,
  if (0 <=? i) && (i <? INPUT_BUF) then Ok (i_buf (inp t) !!! Z.to_nat i) t else Err Undef t.
(** A [char] is signed. *)
Definition set_ibuf_at (i c : Z) : M con unit := λ t,
  if (0 <=? i) && (i <? INPUT_BUF) then Ok tt (on_inp (set_ibuf (Z.to_nat i) (s8 c)) t) else Err Undef t.
Definition wakeup_r : M con unit := modify (λ t, mkCon (scr t) (md t) (inp t) (cmds t) (serial t) (S (wakes t))).
Definition ring : M con input := gets inp.
(** [input.buf[input.e++ % INPUT_BUF] = c] *)
Definition put_e (c : Z) : M con unit :=
  s ← ring; set_ibuf_at (i_e s `mod` INPUT_BUF) c;; modify (on_inp (set_e (u32 (i_e s + 1)))).
(** The character goes to the program at once. *)
Definition post (c : Z) : M con unit :=
  put_e c;; s ← ring; modify (on_inp (set_w (i_e s)));; wakeup_r.

(** [while(input.e != input.w && input.buf[(input.e-1) % INPUT_BUF] != '\n')],
    with or without the erasure on the screen. *)
Fixpoint kill_line (n : nat) (show : bool) : M con unit :=
  s ← ring;
  if i_e s =? i_w s then mret tt else
  c ← ibuf_at (u32 (i_e s - 1) `mod` INPUT_BUF);
  if c =? 10 then mret tt else
  match n with
  | O => stopM NoFuel
  | S n' => modify (on_inp (set_e (u32 (i_e s - 1))));; (if show then consputc BACKSPACE else mret tt);; kill_line n' show
  end.
Definition killline (show : bool) : M con unit := s ← ring; kill_line (Z.to_nat (u32 (i_e s - i_w s))) show.

(** [for(i = a; i < b; ++i) input.buf[i] = input.buf[i+1]], unsigned bounds. *)
Fixpoint ring_left (n : nat) (i b : Z) : M con unit :=
  if u32 i <? b then
    match n with O => stopM NoFuel | S n' => x ← ibuf_at (i + 1); set_ibuf_at i x;; ring_left n' (i + 1) b end
  else mret tt.
(** [for(i = a; i > b; --i) input.buf[i] = input.buf[i-d]], unsigned bounds. *)
Fixpoint ring_right (n : nat) (i b d : Z) : M con unit :=
  if b <? u32 i then
    match n with O => stopM NoFuel | S n' => x ← ibuf_at (i - d); set_ibuf_at i x;; ring_right n' (i - 1) b d end
  else mret tt.

Definition key_backspace (c : Z) : M con unit :=
  m ← gets md;
  if negb (isConsole m =? 0) then
    s ← ring;
    ip ← gets (λ t, inputPos (scr t));
    if u32 (i_e s + ip) =? i_w s then mret tt else
    (if ip <? 0 then
       ring_left 256 (s32 (i_e s `mod` INPUT_BUF + ip - 1)) (u32 (i_e s - 1) `mod` INPUT_BUF)
     else mret tt);;
    modify (on_inp (λ s, set_e (u32 (i_e s - 1)) s));;
    consputc BACKSPACE
  else consputc BACKSPACE;; post c.

(** *** Completion *)

(** The commands that begin with [src], among the first [CMDNUM]. *)
Fixpoint prefix_of (src cmd : list Z) : bool :=
  match src, cmd with
  | s :: src', c :: cmd' => if s =? 0 then true else if c =? 0 then false else if s =? c then prefix_of src' cmd' else false
  | _, _ => false
  end.
Definition matchCommand (src : list Z) : list (list Z) := List.filter (prefix_of src) (take CMDNUM Command).

(** The characters before the cursor: [n] of them, from the last one back. *)
Fixpoint read_back (n : nat) (endPos : Z) (acc : list Z) : M con (list Z) :=
  match n with
  | O => mret acc
  | S n' => x ← ibuf_at endPos; read_back n' (endPos - 1) (x :: acc)
  end.

(** The rest of the command from index [i] on. *)
Fixpoint complete (rest : list Z) : M con unit :=
  match rest with
  | [] => undef
  | c :: rest' =>
      if c =? 0 then mret tt else
      s ← ring; ip ← gets (λ t, inputPos (scr t));
      set_ibuf_at (u32 (i_e s + ip) `mod` INPUT_BUF) c;;
      modify (on_inp (set_e (u32 (i_e s + 1))));; consputc c;; complete rest'
  end.

Definition key_tab (c : Z) : M con unit :=
  m ← gets md;
  if negb (isConsole m =? 0) then
    s ← ring;
    ip ← gets (λ t, inputPos (scr t));
    if u32 (i_e s - i_r s) <? INPUT_BUF then
      let endPos := s32 (u32 (i_e s + ip)) in
      let pos := s32 (u32 (endPos - i_r s)) in
      if (pos <? 0) || (INPUT_BUF <=? pos) then undef else
      fore ← read_back (Z.to_nat pos) (endPos - 1) [0];
      match matchCommand fore with
      | [m0] =>
          let len := s32 (u32 (Z.of_nat (length m0) - 1 - u32 (u32 (i_e s + ip) - i_r s) + 1)) in
          let a := i_e s `mod` INPUT_BUF in
          ring_right 256 (s32 (u32 (a - 1 + len))) (u32 (a + ip + len) - 1) len;;
          complete (drop (Z.to_nat (u32 (u32 (i_e s + ip) - i_r s))) m0);;
          s ← ring;
          set_ibuf_at (u32 (i_e s + ip) `mod` INPUT_BUF) 32;;
          modify (on_inp (set_e (u32 (i_e s + 1))));;
          consputc 32
      | ms =>
          consputc 10;;
          forM ms (λ m, consputs (removelast m);; consputc 32);;
          killline false;;
          put_e 10;;
          consputc 10;;
          s ← ring; modify (on_inp (set_w (i_e s)));;
          modify (on_scr (set_inputPos 0));;
          wakeup_r
      end
    else mret tt
  else if negb (edit_mode m =? 0) then cgaputc 32;; cgaputc 32;; cgaputc 32;; cgaputc 32;; post c
  else mret tt.

(** *** The command history *)
Definition cset {A} (i : nat) (v : A) (l : list A) : option (list A) := if (i <? length l)%nat then Some (<[i := v]> l) else None.
Definition upd_cmd (f : command → option command) : M con unit := λ t,
  match f (cmds t) with Some c => Ok tt (on_cmd (λ _, c) t) | None => Err Undef t end.
Definition set_links (nx pr : list (option nat)) (c : command) : command :=
  mkCommand (c_init c) (c_first c) (c_buf c) nx pr (c_head c) (c_tail c) (c_current c) (c_size c).
Definition set_next (i : nat) (v : option nat) (c : command) : option command :=
  nx ← cset i v (c_next c); Some (set_links nx (c_pre c) c).
Definition set_pre (i : nat) (v : option nat) (c : command) : option command :=
  pr ← cset i v (c_pre c); Some (set_links (c_next c) pr c).
Definition set_head h (c : command) : command :=
  mkCommand (c_init c) (c_first c) (c_buf c) (c_next c) (c_pre c) h (c_tail c) (c_current c) (c_size c).
Definition set_tail h (c : command) : command :=
  mkCommand (c_init c) (c_first c) (c_buf c) (c_next c) (c_pre c) (c_head c) h (c_current c) (c_size c).
Definition set_current h (c : command) : command :=
  mkCommand (c_init c) (c_first c) (c_buf c) (c_next c) (c_pre c) (c_head c) (c_tail c) h (c_size c).
Definition set_size z (c : command) : command :=
  mkCommand (c_init c) (c_first c) (c_buf c) (c_next c) (c_pre c) (c_head c) (c_tail c) (c_current c) z.
Definition set_first b (c : command) : command :=
  mkCommand (c_init c) b (c_buf c) (c_next c) (c_pre c) (c_head c) (c_tail c) (c_current c) (c_size c).
Definition set_bufs b (c : command) : command :=
  mkCommand (c_init c) (c_first c) b (c_next c) (c_pre c) (c_head c) (c_tail c) (c_current c) (c_size c).

(** [n] characters of the input from [i] on, to the buffer of line [k] from
    [j] on; [wrap] says whether the source takes [i % INPUT_BUF]. *)
Fixpoint save_line (n : nat) (wrap : bool) (k : nat) (i j : Z) : M con unit :=
  match n with
  | O => mret tt
  | S n' =>
      x ← ibuf_at (if wrap then Z.rem (s32 i) INPUT_BUF else s32 i);
      if (0 <=? j) && (j <? INPUT_BUF) then
        upd_cmd (λ c, b ← c_buf c !! k; bs ← cset k (<[Z.to_nat j := x]> b) (c_buf c); Some (set_bufs bs c));;
        save_line n' wrap k (i + 1) (j + 1)
      else undef
  end.
(** [for (int i = input.r; i < input.e - 1; ++i)], an unsigned comparison. *)
Definition save (wrap : bool) (k : nat) : M con unit :=
  s ← ring; save_line (Z.to_nat (u32 (i_e s - 1) - i_r s)) wrap k (i_r s) 0.

(** The line that ends is stored. *)
Definition history : M con unit :=
  c ← gets cmds;
  if c_size c =? 0 then
    save false 0;;
    upd_cmd (λ c, Some (set_size (u32 (c_size c + 1)) c));;
    upd_cmd (λ c, set_pre (c_head c) (Some (c_tail c)) c);;
    upd_cmd (λ c, set_next (c_head c) (Some (c_tail c)) c)
  else
    let k := Z.to_nat (c_size c `mod` COMMAND_BUF) in
    if (c_current c =? c_tail c)%nat then
      (if (k =? c_head c)%nat then upd_cmd (λ c, h ← mjoin (c_next c !! c_head c); Some (set_head h c)) else mret tt);;
      save true k;;
      upd_cmd (λ c, set_next (c_tail c) (Some k) c);;
      upd_cmd (λ c, set_pre k (Some (c_tail c)) c);;
      upd_cmd (λ c, Some (set_tail k c));;
      upd_cmd (λ c, set_next (c_tail c) (Some (c_head c)) c);;
      upd_cmd (λ c, set_pre (c_head c) (Some (c_tail c)) c);;
      upd_cmd (λ c, Some (set_current (c_tail c) c));;
      upd_cmd (λ c, Some (set_size (u32 (c_size c + 1)) c))
    else
      let cu := c_current c in
      save true cu;;
      upd_cmd (λ c, if (cu =? c_head c)%nat then h ← mjoin (c_next c !! c_head c); Some (set_head h c) else Some c);;
      upd_cmd (λ c, p ← mjoin (c_pre c !! cu); n ← mjoin (c_next c !! cu); set_next p (Some n) c);;
      upd_cmd (λ c, n ← mjoin (c_next c !! cu); p ← mjoin (c_pre c !! cu); set_pre n (Some p) c);;
      upd_cmd (λ c, set_pre cu (Some (c_tail c)) c);;
      upd_cmd (λ c, set_next cu (Some (c_head c)) c);;
      upd_cmd (λ c, set_next (c_tail c) (Some cu) c);;
      upd_cmd (λ c, set_pre (c_head c) (Some cu) c);;
      upd_cmd (λ c, Some (set_tail cu c)).

(** The up and down arrows in the shell: the line is replaced by the previous
    or the next command. *)
Fixpoint retype (l : list Z) : M con unit :=
  match l with
  | [] => undef
  | x :: l' => if x =? 0 then mret tt else put_e x;; consputc x;; retype l'
  end.
Definition recall (dir : command → list (option nat)) : M con unit :=
  c ← gets cmds;
  if c_size c =? 0 then mret tt else
  (if c_first c then upd_cmd (λ c, Some (set_first false c))
   else upd_cmd (λ c, p ← mjoin (dir c !! c_current c); Some (set_current p c)));;
  killline true;;
  c ← gets cmds;
  b ← deref (c_buf c !! c_current c);
  retype b.
Definition key_arrow (c : Z) (dir : command → list (option nat)) : M con unit :=
  m ← gets md;
  if negb (isConsole m =? 0) then recall dir else cgaputc c;; post c.
Definition key_side (c : Z) : M con unit :=
  m ← gets md; cgaputc c;; if negb (isConsole m =? 0) then mret tt else post c.

(** A character in the shell. *)
Definition insert_char (c : Z) : M con unit :=
  s ← ring;
  ip ← gets (λ t, inputPos (scr t));
  if (ip <? 0) && negb (c =? 10) then
    let a := i_e s `mod` INPUT_BUF in
    ring_right 256 a (u32 (a + ip)) 1;;
    set_ibuf_at (u32 (a + ip)) c;;
    modify (on_inp (λ s, set_e (u32 (i_e s + 1)) s))
  else put_e c.
Definition key_shell (c : Z) : M con unit :=
  s ← ring;
  if negb (c =? 0) && (u32 (i_e s - i_r s) <? INPUT_BUF) then
    let c := if c =? 13 then 10 else c in
    insert_char c;;
    consputc c;;
    s ← ring;
    if (c =? 10) || (c =? Ctl 68) || (i_e s =? u32 (i_r s + INPUT_BUF)) then
      modify (on_scr (set_inputPos 0));;
      upd_cmd (λ c, Some (set_first true c));;
      modify (on_inp (λ s, set_w (i_e s) s));;
      history;;
      wakeup_r
    else mret tt
  else mret tt.
(** A character in a program that has taken over the console. *)
Definition key_program (c : Z) : M con unit :=
  m ← gets md;
  s ← ring;
  if negb (c =? 0) && (u32 (i_e s - i_r s) <? INPUT_BUF) then
    let nl := if c =? 13 then 10 else c in
    if (edit_mode m =? 0) && (c =? 105) then modify (on_md (λ m, set_edit 1 (esc_mode m) m));; post c
    else if negb (edit_mode m =? 0) && (c =? 27) then modify (on_md (set_edit 0 1));; post c
    else if negb (edit_mode m =? 0) then
      put_e nl;; consputc nl;; s ← ring; modify (on_inp (set_w (i_e s)));; wakeup_r
    else if negb (esc_mode m =? 0) then post nl
    else mret tt
  else mret tt.
Definition key_default (c : Z) : M con unit :=
  m ← gets md;
  if isConsole m =? 1 then key_shell c
  else if isConsole m =? 2 then if 0 <? c then modify (on_md (set_game c 0)) else mret tt
  else key_program c.

Section consoleintr.
(** The bytes that [procdump] prints. *)
Context (procdump : con → list Z).

Definition key (c : Z) : M con unit :=
  m ← gets md;
  if c =? Ctl 80 then
    if negb (isConsole m =? 0) then l ← gets procdump; consputs l else post c
  else if c =? Ctl 85 then if negb (isConsole m =? 0) then killline true else mret tt
  else if (c =? Ctl 72) || (c =? 0x7f) then key_backspace c
  else if c =? TAB then key_tab c
  else if (c =? LEFTARROW) || (c =? RIGHTARROW) then key_side c
  else if c =? UPARROW then key_arrow c c_pre
  else if c =? DOWNARROW then key_arrow c c_next
  else key_default c.

Definition init_cmd (c : command) : command :=
  if c_init c then c else
  mkCommand true (c_first c) (c_buf c) (c_next c) (c_pre c) 0 0 0 0.
(** [getc] returns the characters [cs] and then a negative number. *)
Definition consoleintr (cs : list Z) : M con unit :=
  modify (on_cmd init_cmd);;
  forM cs key.
End consoleintr.

(** ** The device *)

(** [consoleread] from its call or a wakeup on: it returns the bytes stored so
    far, and the result or nothing when it sleeps. *)
Inductive rdres := RDone (ret : Z) | RSleep.
Fixpoint consoleread (killed : bool) (n : nat) (target : nat) (dst : list Z) (s : input) : input * list Z * rdres :=
  match n with
  | O => (s, dst, RDone (Z.of_nat target))
  | S n' =>
      if i_r s =? i_w s then (s, dst, if killed then RDone (-1) else RSleep) else
      let c := i_buf s !!! Z.to_nat (i_r s `mod` INPUT_BUF) in
      let s' := set_r (u32 (i_r s + 1)) s in
      if c =? Ctl 68 then
        ((if (n <? target)%nat then s else s'), dst, RDone (Z.of_nat target - Z.of_nat n))
      else if c =? 10 then (s', dst ++ [u8 c], RDone (Z.of_nat target - Z.of_nat n'))
      else consoleread killed n' target (dst ++ [u8 c]) s'
  end.

Definition consolewrite (buf : list Z) : M con Z :=
  consputs (map (λ c, Z.land c 0xff) buf);; mret (Z.of_nat (length buf)).

(** ** What the system calls on the screen do *)
Definition clearscreen : M con unit :=
  modify (on_scr (set_inputPos 0));;
  modify (on_scr (λ s, set_cells (replicate 1920 0x700 ++ drop 1920 (crt s)) s));;
  putpos 0;;
  set_crt_at 0 (white 32).
Definition printat (x y word : Z) : M con unit :=
  let pos := 80 * y + x in
  modify (on_scr (set_inputPos 0));;
  set_crt_at pos (Z.lor word 0x700);;
  putpos (pos + 1).
(** The 80 characters of [line]. *)
Fixpoint setline_loop (line : list Z) (i : Z) : M con unit :=
  match line with [] => mret tt | c :: line' => set_crt_at i (white c);; setline_loop line' (i + 1) end.
Definition setline (line : list Z) (nline : Z) : M con unit :=
  if (length line <? 80)%nat then undef else setline_loop (take 80 line) ((nline - 1) * 80).
Fixpoint updatehlight_loop (n : nat) (pos : Z) : M con unit :=
  c ← crt_at pos;
  if c `mod` 256 =? 0 then mret tt else
  (if (c `mod` 256 =? 32) || (c `mod` 256 =? 10) then
     k ← checkkey pos;
     b ← gets (λ t, lastblank (scr t));
     (if (k : bool) then red_cells (Z.to_nat (pos - (b + 1))) (b + 1) else mret tt);;
     modify (on_scr (set_lastblank pos))
   else mret tt);;
  match n with O => stopM NoFuel | S n' => updatehlight_loop n' (pos + 1) end.
Definition updatehlight (nline : Z) : M con unit :=
  let pos := (nline - 1) * 80 in
  modify (on_scr (set_lastblank (pos - 1)));;
  updatehlight_loop CRTSIZE pos.
Fixpoint deletehlight_loop (n : nat) (i : Z) : M con unit :=
  match n with
  | O => mret tt
  | S n' => c ← crt_at i; set_crt_at i (white (c `mod` 256));; deletehlight_loop n' (i + 1)
  end.
Definition deletehlight (nline : Z) : M con unit := deletehlight_loop 80 ((nline - 1) * 80).

(** ** The system calls on the console (sysfile.c and sysproc.c)

    An argument is what [argint] or [argstr] returns, [None] for their error. *)
Definition set_hlight h (m : modes) :=
  mkModes (panicked m) h (isConsole m) (edit_mode m) (esc_mode m) (gameInput m) (gameGet m).
Definition set_console c e (m : modes) :=
  mkModes (panicked m) (hlighttype m) c (edit_mode m) e (gameInput m) (gameGet m).
Definition sys_hlight (ty : option Z) : M con Z :=
  match ty with None => mret 0 | Some ty => modify (on_md (set_hlight ty));; mret 1 end.
(** [type] keeps the value [junk] of the stack when its [argint] fails. *)
Definition sys_cmdmod (ty otype : option Z) (junk : Z) : M con Z :=
  match ty, otype with
  | None, None => mret (-1)
  | _, _ =>
      let ty := default junk ty in
      modify (on_md (λ m, set_console ty (if negb (ty =? 0) then 0 else esc_mode m) m));; mret 0
  end.
Definition sys_ingame (ty : option Z) : M con Z :=
  match ty with None => mret (-1) | Some ty => modify (on_md (λ m, set_console ty (esc_mode m) m));; mret 0 end.
Definition sys_clrscr : M con Z := clearscreen;; mret 0.
Definition sys_getpos : M con Z := getpos.
Definition sys_setcln (nline : option Z) (line : option (list Z)) : M con Z :=
  match line, nline with Some l, Some n => setline l n;; mret 0 | _, _ => mret (-1) end.
Definition sys_lstpos : M con Z := gets (λ t, lastpos (scr t)).
Definition sys_hlline (nline : option Z) : M con Z :=
  match nline with None => mret (-1) | Some n => updatehlight n;; mret 1 end.
Definition sys_delhlt (nline : option Z) : M con Z :=
  match nline with None => mret (-1) | Some n => deletehlight n;; mret 1 end.
Definition sys_outexac (x y word : option Z) : M con Z :=
  match x, y, word with
  | Some x, Some y, Some w => printat x y w;; mret 0
  | _, _, _ => mret (-1)
  end.
Definition sys_gameget : M con Z :=
  m ← gets md;
  if gameGet m =? 0 then modify (on_md (set_game (gameInput m) 1));; mret (gameInput m) else mret (-1).

(** The state at boot: the variables as they are initialised, the screen as the
    boot loader leaves it. *)
Definition con0 (cells : list Z) (pos : Z) : con :=
  mkCon (mkScreen cells pos (-2) 0 0) (mkModes false 0 1 0 0 5 1) (mkInput (replicate 128 0) 0 0 0)
    (mkCommand false true (replicate 128 (replicate 128 0)) (replicate 128 None) (replicate 128 None) 0 0 0 0) [] 0.
