(* ===== verification/ConsoleProps.v ===== *)
(** * Properties of the console

    The screen against a reference terminal, and the input ring with its line
    editing against a reference line discipline. Both are for the shell's mode
    with the cursor at the end of the line, that is without Tab and the left and
    right arrows; what goes wrong after a left arrow is shown on concrete runs. *)

From S2P Require Import Prelude Console.

(** ** The screen as a terminal

    A screen of 24 lines of 80 cells and a cursor: characters are written at
    the cursor, a line end moves to the next line, a backspace moves back, and
    the screen scrolls by a line when the cursor leaves it. The cell under the
    cursor is blank. *)
Record term := mkTerm { cells : list Z; tpos : nat }.
Definition term_char (c : Z) (g : term) : term :=
  if c =? 10 then mkTerm (cells g) (tpos g + (80 - tpos g mod 80))
  else if c =? BACKSPACE then mkTerm (cells g) (tpos g - 1)
  else mkTerm (<[tpos g := white c]> (cells g)) (S (tpos g)).
Definition term_scroll (g : term) : term :=
  if (1920 <=? tpos g)%nat then mkTerm (drop 80 (cells g) ++ replicate 80 0) (tpos g - 80) else g.
Definition term_blank (g : term) : term := mkTerm (<[tpos g := white 32]> (cells g)) (tpos g).
(** The up and down arrows of the driver do nothing. *)
Definition term_put (g : term) (c : Z) : term :=
  if (c =? UPARROW) || (c =? DOWNARROW) then g else term_blank (term_scroll (term_char c g)).

Definition term_of (s : screen) : term := mkTerm (take 1920 (crt s)) (Z.to_nat (cursor s)).

(** The shell has the console, with the cursor at the end of the line. *)
Definition shell_modes (m : modes) : Prop := panicked m = false ∧ hlighttype m = 0 ∧ isConsole m = 1.
Definition screen_ok (s : screen) : Prop := length (crt s) = CRTSIZE ∧ 0 ≤ cursor s < 1920 ∧ inputPos s = 0.
Definition plain (c : Z) : Prop := 0 ≤ c < 256 ∧ c ≠ LEFTARROW ∧ c ≠ RIGHTARROW ∨ c = BACKSPACE.

Lemma wp_crt_at t i Q : 0 ≤ i < Z.of_nat CRTSIZE → Q (crt (scr t) !!! Z.to_nat i) t → wp (crt_at i) Q t.
Proof.
  intros Hi HQ. unfold wp, crt_at. destruct (Z.leb_spec 0 i), (Z.ltb_spec i (Z.of_nat CRTSIZE)); try lia. done.
Qed.
Lemma wp_set_crt_at t i v Q :
  0 ≤ i < Z.of_nat CRTSIZE → Q tt (on_scr (set_crt (Z.to_nat i) (u16 v)) t) → wp (set_crt_at i v) Q t.
Proof.
  intros Hi HQ. unfold wp, set_crt_at. destruct (Z.leb_spec 0 i), (Z.ltb_spec i (Z.of_nat CRTSIZE)); try lia. done.
Qed.
Lemma wp_find_colon t n j Q : 0 ≤ j → j + Z.of_nat n ≤ Z.of_nat CRTSIZE → (∀ k, Q k t) → wp (find_colon n j) Q t.
Proof.
  revert j. induction n as [|n IH]; intros j H0 Hn HQ; simpl; [by apply wp_ret|].
  apply wp_bind, wp_crt_at; [lia|]. destruct (_ =? _); [by apply wp_ret|]. apply IH; [lia|lia|done].
Qed.

Lemma white_small c : 0 ≤ c < 256 → u16 (white (Z.land c 0xff)) = white c.
Proof.
  intros Hc. change 0xff with (Z.ones 8). rewrite Z.land_ones by lia. rewrite Z.mod_small by lia.
  apply u16_small. unfold white. split; [apply Z.lor_nonneg; lia|].
  apply Z.log2_lt_cancel. rewrite Z.log2_pow2 by lia. rewrite Z.log2_lor by lia.
  assert (Z.log2 c < 8) by (destruct (decide (c = 0)) as [->|]; [done|apply Z.log2_lt_pow2; lia]).
  change (Z.log2 0x700) with 10. lia.
Qed.
Lemma putpos_small p t : 0 ≤ p < 2 ^ 16 → putpos p t = Ok tt (on_scr (set_cursor p) t).
Proof.
  intros Hp. unfold putpos, modify. do 3 f_equal. unfold u8. rewrite Z.shiftr_div_pow2, Z.shiftl_mul_pow2 by lia.
  rewrite (Z.mod_small (p / 2 ^ 8)) by (Z.to_euclidean_division_equations; lia).
  apply Z.bits_inj'. intros i Hi. rewrite Z.lor_spec.
  destruct (decide (i < 8)).
  - rewrite Z.mul_pow2_bits_low, Z.mod_pow2_bits_low by lia. done.
  - rewrite Z.mul_pow2_bits_add || rewrite Z.mul_pow2_bits by lia.
    rewrite Z.mod_pow2_bits_high, orb_false_r by lia. rewrite Z.div_pow2_bits by lia. f_equal. lia.
Qed.

(** The steps of [cgaputc] against those of the terminal. *)
Definition shows (t : con) (g : term) (t' : con) : Prop :=
  ∃ s', t' = on_scr (λ _, s') t ∧ length (crt s') = CRTSIZE ∧ inputPos s' = 0 ∧
    take 1920 (crt s') = cells g ∧ drop 1920 (crt s') = drop 1920 (crt (scr t)).

Lemma cga_char_plain t c :
  isConsole (md t) = 1 → screen_ok (scr t) → plain c → (c =? UPARROW) || (c =? DOWNARROW) = false →
  let g := term_char c (term_of (scr t)) in
  wp (cga_char c (cursor (scr t))) (λ r t', r = Some (Z.of_nat (tpos g), 0) ∧ shows t g t' ∧ (tpos g <= 1920)%nat) t.
Proof.
  intros Hm (Hlen & Hcur & Hip) Hc [Hup Hdown]%orb_false_iff g. unfold cga_char. do 2 apply wp_bind, wp_gets. rewrite Hm, Hip. simpl negb.
  set (pos := cursor (scr t)) in *. unfold g, term_char, term_of. clear g. fold pos. cbn [cells tpos].
  assert (Hsame : shows t (mkTerm (take 1920 (crt (scr t))) 0) (on_scr (set_lastpos pos) t)) by (by eexists; split_and!).
  destruct (Z.eqb_spec c 10) as [->|H10].
  { apply wp_bind, wp_modify, wp_ret. cbn [cells tpos]. split; [|split; [by eexists; split_and!|]].
    - rewrite Z.rem_mod_nonneg by lia. pose proof (Nat.mod_upper_bound (Z.to_nat pos) 80).
      rewrite Nat2Z.inj_add, Nat2Z.inj_sub, Nat2Z.inj_mod, Z2Nat.id by lia. done.
    - assert (Z.to_nat pos < 1920)%nat by lia. pose proof (Nat.mod_upper_bound (Z.to_nat pos) 80).
      assert (Z.to_nat pos = 80 * (Z.to_nat pos / 80) + Z.to_nat pos mod 80)%nat by (apply Nat.div_mod_eq). lia. }
  destruct (Z.eqb_spec c BACKSPACE) as [->|HB].
  { apply wp_bind, wp_ret. cbn [cells tpos]. destruct (Z.ltb_spec 0 pos).
    - apply wp_bind, wp_modify, wp_ret. split; [do 2 f_equal; lia|]. split; [by eexists; split_and!|lia].
    - apply wp_ret. split; [do 2 f_equal; lia|]. split; [|lia]. exists (scr t). destruct t. by split_and!. }
  destruct Hc as [(Hc & Hl & Hr)|]; [|done].
  rewrite (proj2 (Z.eqb_neq c _) Hl), (proj2 (Z.eqb_neq c _) Hr), Hup, Hdown.
  apply wp_bind, wp_ret, wp_bind, wp_set_crt_at; [unfold CRTSIZE; lia|]. rewrite white_small by done.
  apply wp_ret. cbn [cells tpos]. split; [do 2 f_equal; lia|]. split; [|lia].
  eexists. split; [reflexivity|]. simpl. rewrite length_insert. split; [done|]. split; [done|].
  split; [apply take_insert_lt; lia|apply drop_insert_lt; lia].
Qed.

Lemma scroll_cells (l : list Z) : length l = CRTSIZE →
  let l1 := take 1840 (drop 80 l) ++ drop 1840 l in
  let l2 := take 1840 l1 ++ replicate 80 0 ++ drop 1920 l1 in
  length l2 = CRTSIZE ∧ take 1920 l2 = drop 80 (take 1920 l) ++ replicate 80 0 ∧ drop 1920 l2 = drop 1920 l.
Proof.
  intros Hlen l1 l2. assert (Hbig : (1920 <= CRTSIZE)%nat) by (apply Nat.leb_le; vm_compute; reflexivity).
  assert (H1 : take 1840 l1 = take 1840 (drop 80 l)).
  { unfold l1. rewrite take_app_le by (rewrite length_take, length_drop; lia). by rewrite take_take, Nat.min_id. }
  assert (H2 : drop 1920 l1 = drop 1920 l).
  { unfold l1. rewrite drop_app_ge by (rewrite length_take; lia). rewrite length_take, length_drop, drop_drop.
    f_equal. lia. }
  assert (H3 : length (take 1840 (drop 80 l)) = 1840%nat) by (rewrite length_take, length_drop; lia).
  unfold l2. rewrite H1, H2. split; [|split].
  - rewrite !length_app, length_replicate, length_drop, H3. lia.
  - rewrite app_assoc, take_app_le by (rewrite length_app, length_replicate; lia).
    rewrite take_ge by (rewrite length_app, length_replicate; lia). f_equal.
    by rewrite take_drop_commute.
  - rewrite app_assoc, drop_app_ge by (rewrite length_app, length_replicate; lia).
    by rewrite length_app, length_replicate, H3.
Qed.

Lemma scroll_term t0 t g :
  shows t0 g t → (tpos g <= 1920)%nat → wp (scroll (Z.of_nat (tpos g))) (λ p t',
    p = Z.of_nat (tpos (term_scroll g)) ∧ shows t0 (term_scroll g) t' ∧ (tpos (term_scroll g) < 1920)%nat) t.
Proof.
  intros (s & -> & Hlen & Hip & Htk & Hdr) Hp. unfold scroll, term_scroll.
  rewrite Z.quot_div_nonneg by lia. destruct (Nat.leb_spec 1920 (tpos g)) as [H|H].
  - assert (tpos g = 1920%nat) as E by lia. rewrite E. simpl.
    apply wp_bind, wp_modify, wp_ret. split; [done|]. split; [|lia].
    destruct (scroll_cells (crt s) Hlen) as (H1 & H2 & H3).
    eexists. split; [reflexivity|]. cbn [crt set_cells inputPos cells].
    split; [exact H1|]. split; [done|]. split; [rewrite <-Htk; exact H2|]. by rewrite <-Hdr.
  - destruct (Z.leb_spec 24 (Z.of_nat (tpos g) / 80)) as [Hd|_].
    { exfalso. Z.to_euclidean_division_equations. lia. }
    apply wp_ret. split; [done|]. split; [by exists s|done].
Qed.

Lemma cga_char_up t c : isConsole (md t) = 1 → (c =? UPARROW) || (c =? DOWNARROW) = true →
  ∃ lp, cga_char c (cursor (scr t)) t = Ok None (on_scr (set_lastpos lp) t).
Proof.
  intros Hm Hc. unfold cga_char, mbind, M_bind, gets. rewrite Hm. apply orb_true_iff in Hc as [->%Z.eqb_eq| ->%Z.eqb_eq].
  - exists (lastpos (scr t)). by destruct t as [[]].
  - by exists (cursor (scr t)).
Qed.

Lemma cgaputc_term t c :
  isConsole (md t) = 1 → screen_ok (scr t) → plain c →
  wp (cgaputc c) (λ _ t', ∃ s', t' = on_scr (λ _, s') t ∧ screen_ok s' ∧ term_of s' = term_put (term_of (scr t)) c ∧
    drop 1920 (crt s') = drop 1920 (crt (scr t))) t.
Proof.
  intros Hm Hs Hc. unfold cgaputc, term_put. apply wp_bind, wp_gets, wp_bind.
  destruct ((c =? UPARROW) || (c =? DOWNARROW)) eqn:Eup.
  { destruct (cga_char_up t c Hm Eup) as (lp & Hrun). unfold wp at 1. rewrite Hrun. apply wp_ret.
    exists (set_lastpos lp (scr t)). destruct Hs as (? & ? & ?). by split_and!. }
  eapply wp_mono; [by apply cga_char_plain|]. intros r t1 (-> & Hsh & Hp). apply wp_bind.
  eapply wp_mono; [by apply (scroll_term t t1)|]. clear Hsh Hp. intros p t2 (-> & Hsh & Hp).
   set (g := term_scroll (term_char c (term_of (scr t)))) in *. destruct Hsh as (s2 & -> & Hlen & Hip & Htk & Hdr).
  apply wp_bind, wp_gets. cbn [on_scr md scr]. rewrite Hm. simpl negb. apply wp_bind.
  set (p := Z.of_nat (tpos g)) in *. assert (Hbig : (1920 <= CRTSIZE)%nat) by (apply Nat.leb_le; vm_compute; reflexivity).
  assert (Hfin : ∀ s, length (crt s) = CRTSIZE → inputPos s = 0 → take 1920 (crt s) = cells g →
    drop 1920 (crt s) = drop 1920 (crt (scr t)) →
    wp (putpos p;; ip ← gets (λ t, inputPos (scr t)); if (ip =? 0) && true then set_crt_at p (white 32) else mret tt)
      (λ _ t', ∃ s', t' = on_scr (λ _, s') t ∧ screen_ok s' ∧ term_of s' = term_blank g ∧
        drop 1920 (crt s') = drop 1920 (crt (scr t))) (on_scr (λ _, s) t)).
  { intros s Hl Hi Ht Hd. apply wp_bind. unfold wp at 1. rewrite putpos_small by lia. apply wp_bind, wp_gets. simpl.
    rewrite Hi. simpl. apply wp_set_crt_at; [lia|]. eexists. split; [reflexivity|]. simpl.
    unfold screen_ok, term_of, term_blank. simpl. rewrite length_insert. unfold p. rewrite Nat2Z.id.
    split; [split; [done|split; [lia|done]]|]. split.
    - rewrite take_insert_lt by lia. by rewrite Ht.
    - by rewrite drop_insert_lt by lia. }
  apply wp_bind, wp_find_colon; [rewrite Z.rem_mod_nonneg by lia; Z.to_euclidean_division_equations; lia|
    rewrite Z.rem_mod_nonneg by lia; Z.to_euclidean_division_equations; lia|].
  intros j. destruct (negb _).
  - apply wp_bind, wp_modify, wp_ret. rewrite Z.add_0_r. apply Hfin; simpl; try done. lia.
  - apply wp_ret. by apply Hfin.
Qed.

(** The serial port gets every character, a backspace as three. *)
Definition serial_of (c : Z) : list Z := if c =? BACKSPACE then [8; 32; 8] else [c].

(** The state after some output: the screen, the modes and the serial port. *)
Definition printed (t : con) (g : term) (out : list Z) (t' : con) : Prop :=
  screen_ok (scr t') ∧ term_of (scr t') = g ∧ drop 1920 (crt (scr t')) = drop 1920 (crt (scr t)) ∧
  md t' = md t ∧ inp t' = inp t ∧ cmds t' = cmds t ∧ serial t' = serial t ++ out ∧ wakes t' = wakes t.

Lemma consputc_term t c :
  shell_modes (md t) → screen_ok (scr t) → plain c →
  wp (consputc c) (λ _, printed t (term_put (term_of (scr t)) c) (serial_of c)) t.
Proof.
  intros (Hp & Hh & Hm) Hs Hc. unfold consputc. apply wp_bind, wp_gets. rewrite Hp, Hh. simpl negb.
  assert (Hgo : ∀ t1, scr t1 = scr t → md t1 = md t → inp t1 = inp t → cmds t1 = cmds t → wakes t1 = wakes t →
    serial t1 = serial t ++ serial_of c → wp (cgaputc c) (λ _, printed t (term_put (term_of (scr t)) c) (serial_of c)) t1).
  { intros t1 E1 E2 E3 E4 E5 E6. eapply wp_mono; [apply cgaputc_term; [by rewrite E2|by rewrite E1|done]|].
    intros _ t' (s' & -> & Hok & Hterm & Hd). rewrite E1 in Hterm, Hd. unfold printed. simpl. by split_and!. }
  unfold serial_of in *. destruct (Z.eqb_spec c BACKSPACE) as [->|HB].
  - apply wp_bind. do 2 apply wp_bind, wp_modify. apply wp_modify. apply Hgo; try done. simpl. by rewrite <-!app_assoc.
  - destruct Hc as [[Hc _]|]; [|done]. apply wp_bind, wp_modify. apply Hgo; try done. simpl. unfold u8. by rewrite Z.mod_small by lia.
Qed.

Lemma printed_trans t g out t' g' out' t'' :
  printed t g out t' → printed t' g' out' t'' → printed t g' (out ++ out') t''.
Proof.
  intros (? & ? & D & ? & ? & ? & S & ?) (? & ? & D' & ? & ? & ? & S' & ?). unfold printed.
  rewrite D', D, S', S, app_assoc. split_and!; congruence.
Qed.

Lemma consputs_term l : ∀ t, shell_modes (md t) → screen_ok (scr t) → Forall plain l →
  wp (consputs l) (λ _, printed t (foldl term_put (term_of (scr t)) l) (concat (map serial_of l))) t.
Proof.
  induction l as [|c l IH]; intros t Hm Hs Hl; simpl.
  - apply wp_ret. unfold printed. by rewrite app_nil_r.
  - apply Forall_cons in Hl as [Hc Hl]. apply wp_bind. eapply wp_mono; [by apply consputc_term|].
    intros [] t1 Hp. destruct (id Hp) as (Hs1 & Hg1 & ? & Hm1 & ?). eapply wp_mono; [apply IH; [by rewrite Hm1|done|done]|].
    intros [] t2 Hp2. rewrite Hg1 in Hp2. by eapply printed_trans.
Qed.



(** A blank screen with the cursor in the top left corner. *)
Definition blank_con : con := con0 (replicate CRTSIZE 0) 0.

(** A program can crash the kernel by its output: the driver takes the byte
    228 for the left arrow also when a program writes it, and moves the cursor
    from the top left corner to position -1, which is 65535 in the cursor
    registers; the next character is stored outside of the screen memory. *)
Theorem left_arrow_leaves_screen :
  match (clearscreen;; consolewrite [228; 97]) blank_con with
  | Ok _ _ => False
  | Err e t => e = Undef ∧ cursor (scr t) = 65535
  end.
Proof. vm_compute. split; reflexivity. Qed.

(** A left arrow before anything was typed makes the next character be
    stored in front of the input buffer, over the lock: the distance of the
    cursor is not compared with the length of the input. *)
Theorem left_arrow_underflows_input :
  match consoleintr (λ _, []) [228; 120] (con0 (replicate CRTSIZE 0) 5) with
  | Ok _ _ => False
  | Err e t => e = Undef ∧ inputPos (scr t) = -1 ∧ i_e (inp t) = 0
  end.
Proof. vm_compute. repeat split. Qed.

(** ** The line discipline

    The bytes that readers may take, and the line that is still edited. A
    character is added when the ring has room; a line end, an end of file or a
    full ring hands the line over; backspace removes a character and ^U all of
    them; ^P prints and edits nothing. *)
Definition cook (st : list Z * list Z) (c : Z) : list Z * list Z :=
  let '(com, line) := st in
  if c =? Ctl 80 then st
  else if c =? Ctl 85 then (com, [])
  else if (c =? Ctl 72) || (c =? 0x7f) then (com, removelast line)
  else if negb (c =? 0) && (length com + length line <? 128)%nat then
    let c := if c =? 13 then 10 else c in
    let line := line ++ [c] in
    if (c =? 10) || (c =? Ctl 68) || (length com + length line =? 128)%nat then (com ++ line, []) else (com, line)
  else st.

(** Keys other than the completion and the cursor keys; the process listing is
    printed without arrows. *)
Definition typing (pd : con → list Z) (c : Z) : Prop := 0 ≤ c < 128 ∧ c ≠ TAB ∧ (c = Ctl 80 → ∀ t, Forall plain (pd t)).

(** The ring holds [l] from the read index on. *)
Definition ring_at (s : input) (l : list Z) : Prop :=
  ∀ k x, l !! k = Some x → i_buf s !! Z.to_nat ((i_r s + Z.of_nat k) `mod` INPUT_BUF) = Some x.
Definition ring_ok (s : input) (com line : list Z) : Prop :=
  length (i_buf s) = 128%nat ∧ 0 ≤ i_r s ∧ i_w s = i_r s + Z.of_nat (length com) ∧
  i_e s = i_w s + Z.of_nat (length line) ∧ i_e s < 2 ^ 31 ∧ (length com + length line <= 128)%nat ∧ ring_at s (com ++ line).

Lemma ring_index_lt r k : 0 ≤ (r + k) `mod` INPUT_BUF < 128.
Proof. apply Z.mod_pos_bound. done. Qed.
Lemma ring_index_inj r (j k : nat) : (j < 128)%nat → (k < 128)%nat →
  Z.to_nat ((r + Z.of_nat j) `mod` INPUT_BUF) = Z.to_nat ((r + Z.of_nat k) `mod` INPUT_BUF) → j = k.
Proof.
  intros Hj Hk E. pose proof (ring_index_lt r (Z.of_nat j)). pose proof (ring_index_lt r (Z.of_nat k)).
  unfold INPUT_BUF in *. assert ((r + Z.of_nat j) `mod` 128 = (r + Z.of_nat k) `mod` 128) as E' by lia.
  Z.to_euclidean_division_equations. lia.
Qed.
Lemma ring_at_snoc s l c : length (i_buf s) = 128%nat → (length l < 128)%nat → ring_at s l →
  ring_at (set_ibuf (Z.to_nat ((i_r s + Z.of_nat (length l)) `mod` INPUT_BUF)) c s) (l ++ [c]).
Proof.
  intros Hb Hl Hr k x Hk. simpl. destruct (decide (k = length l)) as [->|Hne].
  - rewrite lookup_app_r, Nat.sub_diag in Hk by done. simplify_eq/=. apply list_lookup_insert_eq.
    rewrite Hb. pose proof (ring_index_lt (i_r s) (Z.of_nat (length l))). lia.
  - assert (k < length l)%nat. { apply lookup_lt_Some in Hk. rewrite length_app in Hk. simpl in Hk. lia. }
    rewrite lookup_app_l in Hk by done. rewrite list_lookup_insert_ne; [by apply Hr|].
    intros E. apply ring_index_inj in E; lia.
Qed.
Lemma ring_at_prefix s l l' : ring_at s (l ++ l') → ring_at s l.
Proof. intros H k x Hk. apply H. by apply lookup_app_l_Some. Qed.

Lemma wp_ibuf_at t i Q : 0 ≤ i < INPUT_BUF → Q (i_buf (inp t) !!! Z.to_nat i) t → wp (ibuf_at i) Q t.
Proof. intros Hi HQ. unfold wp, ibuf_at. destruct (Z.leb_spec 0 i), (Z.ltb_spec i INPUT_BUF); try lia. done. Qed.
Lemma wp_set_ibuf_at t i c Q : 0 ≤ i < INPUT_BUF → Q tt (on_inp (set_ibuf (Z.to_nat i) (s8 c)) t) → wp (set_ibuf_at i c) Q t.
Proof. intros Hi HQ. unfold wp, set_ibuf_at. destruct (Z.leb_spec 0 i), (Z.ltb_spec i INPUT_BUF); try lia. done. Qed.

Lemma put_e_ring t com line c :
  ring_ok (inp t) com line → (length com + length line < 128)%nat → i_e (inp t) + 1 < 2 ^ 31 → 0 ≤ c < 128 →
  wp (put_e c) (λ _ t', ∃ s', t' = on_inp (λ _, s') t ∧ ring_ok s' com (line ++ [c]) ∧ i_r s' = i_r (inp t)) t.
Proof.
  intros (Hb & Hr & Hw & He & He31 & Hlen & Hat) Hroom Hnext Hc. unfold put_e. apply wp_bind, wp_gets, wp_bind.
  apply wp_set_ibuf_at; [by apply Z.mod_pos_bound|]. apply wp_modify. eexists. split; [reflexivity|]. simpl.
  split; [|done]. assert (Hs8 : s8 c = c) by (unfold s8; rewrite Z.mod_small; lia).
  assert (Ee : i_e (inp t) = i_r (inp t) + Z.of_nat (length (com ++ line))) by (rewrite length_app; lia).
  rewrite u32_small by lia. unfold ring_ok. simpl. rewrite length_insert, length_app, app_assoc. simpl.
  do 3 (split; [done|]). split; [lia|]. split; [lia|]. split; [lia|]. rewrite Hs8, Ee.
  apply (ring_at_snoc (inp t)); [done|rewrite length_app; lia|done].
Qed.

(** Dropping the last character of the line. *)
Lemma ring_drop s com line c : ring_ok s com (line ++ [c]) →
  ring_ok (set_e (u32 (i_e s - 1)) s) com line ∧ i_w s < i_e s ∧
  i_buf s !!! Z.to_nat (u32 (i_e s - 1) `mod` INPUT_BUF) = c.
Proof.
  intros (Hb & Hr & Hw & He & He31 & Hlen & Hat). rewrite length_app in He, Hlen. simpl in He, Hlen.
  rewrite u32_small by lia. split; [|split; [lia|]].
  - unfold ring_ok. simpl. do 3 (split; [done|]). split; [lia|]. split; [lia|]. split; [lia|].
    rewrite app_assoc in Hat. by apply ring_at_prefix in Hat.
  - assert (Hk : (com ++ line ++ [c]) !! (length com + length line)%nat = Some c).
    { rewrite lookup_app_r by lia. replace (_ + _ - _)%nat with (length line) by lia. by apply list_lookup_middle. }
    apply Hat in Hk. apply list_lookup_total_correct. rewrite <-Hk. do 3 f_equal. lia.
Qed.

(** Editing keeps everything but the line and the screen. *)
Definition edits (t t' : con) : Prop :=
  md t' = md t ∧ cmds t' = cmds t ∧ wakes t' = wakes t ∧ i_r (inp t') = i_r (inp t) ∧ i_e (inp t') ≤ i_e (inp t) ∧
  screen_ok (scr t').
Lemma edits_trans t t' t'' : edits t t' → edits t' t'' → edits t t''.
Proof. unfold edits. intros; destruct_and!; split_and!; try congruence; lia. Qed.

Lemma erase_char t com line c Q :
  shell_modes (md t) → screen_ok (scr t) → ring_ok (inp t) com (line ++ [c]) →
  (∀ t', edits t t' → ring_ok (inp t') com line → Q tt t') →
  wp (modify (on_inp (set_e (u32 (i_e (inp t) - 1))));; consputc BACKSPACE) Q t.
Proof.
  intros Hm Hs Hr HQ. destruct (ring_drop _ _ _ _ Hr) as (Hr' & Hlt & _). apply wp_bind, wp_modify.
  eapply wp_mono; [apply consputc_term; [done|done|by right]|].
  intros [] t' (Hs' & _ & _ & Hm' & Hi' & Hc' & _ & Hw'). simpl in *. apply HQ; [|by rewrite Hi'].
  unfold edits. rewrite Hi'. simpl. split_and!; try done. destruct Hr' as (_ & _ & _ & He' & _). simpl in He'.
  destruct Hr as (_ & _ & _ & He & _ & _). rewrite length_app in He. simpl in He. lia.
Qed.

Lemma kill_line_ring line : ∀ n t com,
  shell_modes (md t) → screen_ok (scr t) → ring_ok (inp t) com line → 10 ∉ line → (length line <= n)%nat →
  wp (kill_line n true) (λ _ t', edits t t' ∧ ring_ok (inp t') com []) t.
Proof.
  induction line as [|c line IH] using rev_ind; intros n t com Hm Hs Hr Hnl Hn.
  - assert (E : i_e (inp t) = i_w (inp t)) by (destruct Hr as (_ & _ & _ & He & _); simpl in He; lia).
    destruct n; simpl; apply wp_bind, wp_gets; rewrite E, Z.eqb_refl; apply wp_ret; (split; [|done]); unfold edits; by split_and!.
  - rewrite length_app in Hn. simpl in Hn. destruct n as [|n]; [lia|]. destruct (ring_drop _ _ _ _ Hr) as (Hr' & Hlt & Hc).
    simpl. apply wp_bind, wp_gets. destruct (Z.eqb_spec (i_e (inp t)) (i_w (inp t))); [lia|].
    apply wp_bind, wp_ibuf_at; [by apply Z.mod_pos_bound|]. rewrite Hc.
    destruct (Z.eqb_spec c 10) as [->|]; [set_solver|].
    pose proof (erase_char t com line c (λ _ t', edits t t' ∧ ring_ok (inp t') com line) Hm Hs Hr) as Hw.
    apply wp_bind. apply wp_bind_inv in Hw; [|auto]. eapply wp_mono; [exact Hw|]. intros [] t1 Hw1. apply wp_bind.
    eapply wp_mono; [exact Hw1|]. intros [] t2 [He2 Hr2]. eapply wp_mono.
    + apply (IH n t2 com); [|by apply He2|done|set_solver|lia]. destruct He2 as (-> & _). done.
    + intros [] t3 [He3 Hr3]. split; [by eapply edits_trans|done].
Qed.

(** *** The history *)

(** The first [U] nodes are linked to each other. *)
Definition links_ok (U : nat) (l : list (option nat)) : Prop :=
  length l = 128%nat ∧ ∀ k, (k < U)%nat → ∃ x, l !! k = Some (Some x) ∧ (x < U)%nat.
Definition hist_ok (c : command) (r : Z) (com : list Z) : Prop :=
  let U := Nat.min (Z.to_nat (c_size c)) 128 in
  c_init c = true ∧ length (c_buf c) = 128%nat ∧ 0 ≤ c_size c < 2 ^ 31 ∧
  links_ok U (c_next c) ∧ links_ok U (c_pre c) ∧
  (c_size c = 0 → r = 0 ∧ com = [] ∧ c_head c = 0%nat ∧ c_tail c = 0%nat ∧ c_current c = 0%nat) ∧
  (0 < c_size c → (c_head c < U)%nat ∧ (c_tail c < U)%nat ∧ (c_current c < U)%nat).

Lemma links_set U l k x : links_ok U l → (x < U)%nat → links_ok U (<[k := Some x]> l).
Proof.
  intros [Hl H] Hx. split; [by rewrite length_insert|]. intros j Hj. destruct (decide (k = j)) as [->|Hne].
  - exists x. destruct (H j Hj) as (y & Hy & _). split; [|done]. apply list_lookup_insert_eq. by eapply lookup_lt_Some.
  - rewrite list_lookup_insert_ne by done. by apply H.
Qed.
(** A new node [U], linked to [x]. *)
Lemma links_grow U l x : links_ok U l → (U < 128)%nat → (x <= U)%nat → links_ok (S U) (<[U := Some x]> l).
Proof.
  intros [Hl H] HU Hx. split; [by rewrite length_insert|]. intros j Hj. destruct (decide (j = U)) as [->|Hne].
  - exists x. split; [apply list_lookup_insert_eq; lia|lia].
  - rewrite list_lookup_insert_ne by done. destruct (H j) as (y & Hy & ?); [lia|]. exists y. split; [done|lia].
Qed.
Lemma links_get U l k : links_ok U l → (k < U)%nat → ∃ x, mjoin (l !! k) = Some x ∧ (x < U)%nat.
Proof. intros [_ H] Hk. destruct (H k Hk) as (x & E & Hx). exists x. by rewrite E. Qed.

Lemma wp_upd_cmd t f c Q : f (cmds t) = Some c → Q tt (on_cmd (λ _, c) t) → wp (upd_cmd f) Q t.
Proof. intros Hf HQ. unfold wp, upd_cmd. by rewrite Hf. Qed.
Lemma cset_some {A} i (v : A) l : (i < length l)%nat → cset i v l = Some (<[i := v]> l).
Proof. intros Hi. unfold cset. by destruct (Nat.ltb_spec i (length l)); [|lia]. Qed.

(** Saving a line changes the text of a node only. *)
Lemma save_line_spec wrap k n : ∀ t i j,
  (k < 128)%nat → length (c_buf (cmds t)) = 128%nat → 0 ≤ i → i + Z.of_nat n < 2 ^ 31 → (wrap = false → i + Z.of_nat n ≤ 128) →
  0 ≤ j → j + Z.of_nat n ≤ 128 →
  wp (save_line n wrap k i j) (λ _ t', ∃ bs, length bs = 128%nat ∧ t' = on_cmd (set_bufs bs) t) t.
Proof.
  induction n as [|n IH]; intros t i j Hk Hb Hi Hi31 Hwr Hj Hj'; simpl.
  - apply wp_ret. exists (c_buf (cmds t)). split; [done|]. by destruct t as [? ? ? []].
  - rewrite s32_small by lia. apply wp_bind, wp_ibuf_at.
    { unfold INPUT_BUF. destruct wrap; [apply Z.rem_bound_pos; lia|]. specialize (Hwr eq_refl). lia. }
    unfold INPUT_BUF. destruct (Z.leb_spec 0 j), (Z.ltb_spec j 128); try lia. simpl.
    destruct (lookup_lt_is_Some_2 (c_buf (cmds t)) k ltac:(lia)) as [b Eb].
    apply wp_bind. eapply wp_upd_cmd; [rewrite Eb; simpl; rewrite cset_some by lia; reflexivity|].
    eapply wp_mono; [apply IH; try done; simpl; rewrite ?length_insert; try lia|].
    { intros E. specialize (Hwr E). lia. }
    intros [] t' (bs & Hbs & ->). exists bs. done.
Qed.

Lemma save_spec wrap k t com :
  (k < 128)%nat → length (c_buf (cmds t)) = 128%nat → ring_ok (inp t) com [] → com ≠ [] → (wrap = false → i_r (inp t) = 0) →
  wp (save wrap k) (λ _ t', ∃ bs, length bs = 128%nat ∧ t' = on_cmd (set_bufs bs) t) t.
Proof.
  intros Hk Hb (_ & Hr & Hw & He & He31 & Hlen & _) Hne Hwr. simpl in He, Hlen. unfold save. apply wp_bind, wp_gets.
  destruct com as [|x com]; [done|]. simpl in *. rewrite u32_small by lia.
  apply save_line_spec; try done; try lia. intros E. specialize (Hwr E). lia.
Qed.

Lemma hist_intro c r com U :
  U = Nat.min (Z.to_nat (c_size c)) 128 → c_init c = true → length (c_buf c) = 128%nat → 0 < c_size c < 2 ^ 31 →
  links_ok U (c_next c) → links_ok U (c_pre c) → (c_head c < U)%nat → (c_tail c < U)%nat → (c_current c < U)%nat → hist_ok c r com.
Proof. intros -> ? ? ? ? ? ? ? ?. unfold hist_ok. split_and!; try done; lia. Qed.

(** The pointer updates: all of them succeed. *)
Ltac con_simpl :=
  cbn [set_links set_head set_tail set_current set_size set_bufs on_cmd
    scr md inp cmds serial wakes c_init c_first c_buf c_next c_pre c_head c_tail c_current c_size] in *.
Ltac upd :=
  eapply wp_upd_cmd; [cbn; unfold set_next, set_pre; con_simpl; rewrite ?cset_some by (rewrite ?length_insert; lia); reflexivity|con_simpl].

Lemma history_spec t com com0 r0 :
  hist_ok (cmds t) r0 com0 → ring_ok (inp t) com [] → com ≠ [] → i_r (inp t) = r0 → c_size (cmds t) + 1 < 2 ^ 31 →
  wp history (λ _ t', ∃ c', t' = on_cmd (λ _, c') t ∧ hist_ok c' r0 com ∧ c_size c' ≤ c_size (cmds t) + 1) t.
Proof.
  destruct t as [sc m ip [ini fi bf nx pr hd tl cu sz] sr wk].
  intros (Hin & Hb & Hsz & Hnx & Hpr & H0 & Hp) Hr Hne Er Hsz1. unfold history. apply wp_bind, wp_gets. con_simpl.
  assert (Hnl : length nx = 128%nat) by apply Hnx. assert (Hpl : length pr = 128%nat) by apply Hpr.
  destruct (Z.eqb_spec sz 0) as [->|Hnz].
  - destruct (H0 eq_refl) as (Hr0 & -> & -> & -> & ->). apply wp_bind.
    eapply wp_mono; [eapply (save_spec false 0); [lia|done|done|done|intros _; simpl; congruence]|].
    intros [] t1 (bs & Hbs & ->). con_simpl. apply wp_bind. upd. apply wp_bind. upd. upd.
    eexists. split; [reflexivity|]. rewrite u32_small by lia. split; [|con_simpl; lia].
    eapply (hist_intro _ _ _ 1); con_simpl; try done; try lia.
    + apply (links_grow 0); [done|lia|lia].
    + apply (links_grow 0); [done|lia|lia].
  - assert (Hpos : 0 < sz) by lia. specialize (Hp Hpos). set (U := Nat.min (Z.to_nat sz) 128) in *. destruct Hp as (Hh & Ht & Hc).
    set (k := Z.to_nat (sz `mod` COMMAND_BUF)).
    assert (Hk : (k < 128)%nat) by (unfold k, COMMAND_BUF; pose proof (Z.mod_pos_bound sz 128); lia).
    destruct (Nat.eqb_spec cu tl) as [->|Hct].
    + apply wp_bind.
      assert (HU : (Nat.min (Z.to_nat (sz + 1)) 128 = S U ∧ k = U ∧ U < 128 ∨ Nat.min (Z.to_nat (sz + 1)) 128 = U ∧ k < U)%nat).
      { unfold k, COMMAND_BUF, U. destruct (decide (sz < 128)) as [Hlt|Hge]; [left; rewrite Z.mod_small by lia; lia|right].
        pose proof (Z.mod_pos_bound sz 128). lia. }
      apply (wp_mono _ (λ _ t', ∃ hd', t' = mkCon sc m ip (mkCommand ini fi bf nx pr hd' tl tl sz) sr wk ∧ (hd' < U)%nat)).
      { destruct (Nat.eqb_spec k hd) as [Ek|_]; [|by apply wp_ret; exists hd].
        destruct (links_get _ _ hd Hnx Hh) as (x & Ex & Hx).
        eapply wp_upd_cmd; [con_simpl; rewrite Ex; reflexivity|]. con_simpl. by exists x. }
      intros [] t1 (hd' & -> & Hhd'). apply wp_bind.
      eapply wp_mono; [eapply (save_spec true k); [lia|done|done|done|done]|].
      intros [] t2 (bs & Hbs & ->). con_simpl. do 6 (apply wp_bind; upd). upd.
      eexists. split; [reflexivity|]. rewrite u32_small by lia. split; [|con_simpl; lia].
      eapply hist_intro; con_simpl; try done; try lia.
      * destruct HU as [(-> & -> & HU)|[-> HU]]; [|by apply links_set; [apply links_set|]].
        rewrite list_insert_insert_ne by lia. apply links_set; [apply links_grow; [done|lia|lia]|lia].
      * destruct HU as [(-> & -> & HU)|[-> HU]]; [|by apply links_set; [apply links_set|]].
        apply links_set; [apply links_grow; [done|lia|lia]|lia].
    + apply wp_bind. eapply wp_mono; [eapply (save_spec true cu); [lia|done|done|done|done]|].
      intros [] t1 (bs & Hbs & ->). con_simpl.
      assert (Hhd : ∃ hd', (if (cu =? hd)%nat then mjoin (nx !! hd) else Some hd) = Some hd' ∧ (hd' < U)%nat).
      { destruct (cu =? hd)%nat; [by apply links_get|by exists hd]. }
      destruct Hhd as (hd' & Ehd & Hhd').
      apply wp_bind. eapply (wp_upd_cmd _ _ (mkCommand ini fi bs nx pr hd' tl cu sz)).
      { con_simpl. destruct (cu =? hd)%nat; [by rewrite Ehd|by simplify_eq]. }
      destruct (links_get _ _ cu Hpr Hc) as (p & Ep & Hpu). destruct (links_get _ _ cu Hnx Hc) as (n & En & Hnu).
      con_simpl. apply wp_bind. eapply wp_upd_cmd.
      { cbn. rewrite Ep. cbn. rewrite En. unfold set_next. cbn. rewrite cset_some by lia. reflexivity. }
      con_simpl. pose proof (links_set U nx p n Hnx Hnu) as Hnx1.
      destruct (links_get _ _ cu Hnx1 Hc) as (n1 & En1 & Hn1).
      apply wp_bind. eapply wp_upd_cmd.
      { cbn. rewrite En1. cbn. rewrite Ep. unfold set_pre. cbn. rewrite cset_some by lia. reflexivity. }
      con_simpl. do 4 (apply wp_bind; upd). upd.
      eexists. split; [reflexivity|]. split; [|con_simpl; lia]. eapply hist_intro; con_simpl; try done; try lia.
      * by repeat apply links_set.
      * by repeat apply links_set.
Qed.


(** *** The keys *)
Definition line_state (t : con) (st : list Z * list Z) : Prop :=
  shell_modes (md t) ∧ screen_ok (scr t) ∧ ring_ok (inp t) st.1 st.2 ∧ (10 ∉ st.2) ∧ hist_ok (cmds t) (i_r (inp t)) st.1.
(** A key moves the edit index and the history by one at most, and wakes the
    readers when it hands over the line. *)
Definition key_post (t : con) (st st' : list Z * list Z) (t' : con) : Prop :=
  line_state t' st' ∧ i_r (inp t') = i_r (inp t) ∧ i_e (inp t') ≤ i_e (inp t) + 1 ∧
  c_size (cmds t') ≤ c_size (cmds t) + 1 ∧ (st'.1 ≠ st.1 → wakes t' = S (wakes t)).

Lemma edits_post t com line line' t' :
  line_state t (com, line) → edits t t' → ring_ok (inp t') com line' → 10 ∉ line' → key_post t (com, line) (com, line') t'.
Proof.
  intros (Hm & Hs & Hr & Hnl & Hh) (Em & Ec & Ew & Er & He & Hs') Hr' Hnl'. unfold key_post, line_state. simpl in *.
  rewrite Em, Ec, Er. split_and!; try done; lia.
Qed.

Lemma killline_spec t com line :
  line_state t (com, line) → wp (killline true) (λ _ t', key_post t (com, line) (com, []) t') t.
Proof.
  intros Hst. destruct (id Hst) as (Hm & Hs & Hr & Hnl & _). simpl in *. unfold killline. apply wp_bind, wp_gets.
  eapply wp_mono; [apply (kill_line_ring line _ t com); try done|].
  - destruct Hr as (_ & ? & ? & He & ? & _). rewrite u32_small by lia. lia.
  - intros [] t' [He Hr']. eapply edits_post; [done|done|done|set_solver].
Qed.

Lemma key_backspace_spec t com line c :
  line_state t (com, line) → wp (key_backspace c) (λ _ t', key_post t (com, line) (com, removelast line) t') t.
Proof.
  intros Hst. destruct (id Hst) as (Hm & Hs & Hr & Hnl & _). simpl in *. unfold key_backspace.
  apply wp_bind, wp_gets. destruct (id Hm) as (_ & _ & Hcon). rewrite Hcon. simpl negb. do 2 apply wp_bind, wp_gets.
  destruct (id Hs) as (_ & _ & Hip). rewrite Hip, Z.add_0_r. destruct (id Hr) as (_ & ? & Ew & Ee & ? & _).
  rewrite u32_small by lia. destruct line as [|x line _] using rev_ind.
  - simpl in *. rewrite (proj2 (Z.eqb_eq _ _)) by lia. apply wp_ret. eapply edits_post; [done| |done|set_solver]. unfold edits. by split_and!.
  - rewrite removelast_last. rewrite length_app in Ee. simpl in Ee. rewrite (proj2 (Z.eqb_neq _ _)) by lia. simpl.
    apply wp_bind, wp_ret. apply (erase_char t com line x); try done. intros t' He Hr'. eapply edits_post; [done|done|done|set_solver].
Qed.

(** The end of [key_shell]: the line is handed over. *)
Lemma hand_over t com line r0 com0 :
  shell_modes (md t) → screen_ok (scr t) → ring_ok (inp t) com line → line ≠ [] → hist_ok (cmds t) r0 com0 → i_r (inp t) = r0 →
  c_size (cmds t) + 1 < 2 ^ 31 →
  wp (modify (on_scr (set_inputPos 0));; upd_cmd (λ c, Some (set_first true c));;
      modify (on_inp (λ s, set_w (i_e s) s));; history;; wakeup_r)
    (λ _ t', line_state t' (com ++ line, []) ∧ i_r (inp t') = r0 ∧ i_e (inp t') = i_e (inp t) ∧
      c_size (cmds t') ≤ c_size (cmds t) + 1 ∧ wakes t' = S (wakes t)) t.
Proof.
  intros Hm Hs Hr Hne Hh Er Hsz. apply wp_bind, wp_modify, wp_bind. eapply wp_upd_cmd; [reflexivity|].
  apply wp_bind, wp_modify, wp_bind.
  eapply wp_mono; [eapply (history_spec _ (com ++ line) com0 r0)|].
  - exact Hh.
  - destruct Hr as (? & ? & Ew & Ee & ? & ? & Hat). unfold ring_ok. simpl. rewrite length_app, app_nil_r.
    split_and!; try done; lia.
  - by destruct com, line.
  - done.
  - done.
  - intros [] t1 (c' & -> & Hh' & Hsz'). apply wp_modify. unfold line_state. simpl in *.
    split; [|split_and!; done]. split; [done|]. split; [by destruct Hs as (? & ? & ?)|]. split; [|split; [set_solver|by rewrite Er]].
    destruct Hr as (? & ? & Ew & Ee & ? & ? & Hat). unfold ring_ok. simpl. rewrite length_app, app_nil_r. split_and!; try done; lia.
Qed.

Lemma key_shell_spec t com line c :
  line_state t (com, line) → 0 ≤ c < 128 → c ≠ Ctl 80 → c ≠ Ctl 85 → c ≠ Ctl 72 → c ≠ 0x7f → i_e (inp t) + 1 < 2 ^ 31 →
  c_size (cmds t) + 1 < 2 ^ 31 → wp (key_shell c) (λ _ t', key_post t (com, line) (cook (com, line) c) t') t.
Proof.
  intros Hst Hc H0 H1 H2 H3 He31 Hsz. destruct (id Hst) as (Hm & Hs & Hr & Hnl & Hh). simpl in *.
  unfold key_shell, cook. rewrite (proj2 (Z.eqb_neq _ _) H0), (proj2 (Z.eqb_neq _ _) H1), (proj2 (Z.eqb_neq _ _) H2), (proj2 (Z.eqb_neq _ _) H3). simpl orb.
  apply wp_bind, wp_gets. destruct (id Hr) as (_ & ? & Ew & Ee & _ & Hlen & _).
  replace (u32 (i_e (inp t) - i_r (inp t)) <? INPUT_BUF) with (length com + length line <? 128)%nat.
  2: { rewrite u32_small by lia. unfold INPUT_BUF.
       destruct (Nat.ltb_spec (length com + length line) 128), (Z.ltb_spec (i_e (inp t) - i_r (inp t)) 128); try done; lia. }
  destruct (Z.eqb_spec c 0) as [->|Hc0]; simpl.
  { apply wp_ret. eapply edits_post; [done| |done|done]. unfold edits. split_and!; try done; lia. }
  destruct (Nat.ltb_spec (length com + length line) 128) as [Hroom|_].
  2: { apply wp_ret. eapply edits_post; [done| |done|done]. unfold edits. split_and!; try done; lia. }
  set (c' := if c =? 13 then 10 else c). assert (Hc' : 0 < c' < 128) by (unfold c'; destruct (c =? 13); lia).
  apply wp_bind. unfold insert_char. do 2 apply wp_bind, wp_gets. destruct (id Hs) as (_ & _ & Hip). rewrite Hip. simpl.
  eapply wp_mono; [by apply put_e_ring; try done; lia|].
  intros [] t1 (s1 & -> & Hr1 & Er1). apply wp_bind.
  eapply wp_mono; [apply consputc_term; [done|done|left; unfold LEFTARROW, RIGHTARROW; lia]|].
  intros [] t2 (Hs2 & _ & _ & Em2 & Ei2 & Ec2 & _ & Ew2). simpl in Em2, Ei2, Ec2, Ew2. apply wp_bind, wp_gets.
  destruct (id Hr1) as (_ & _ & Ew1 & Ee1 & He31' & Hlen1 & _). rewrite length_app in Ee1, Hlen1 |- *. simpl in Ee1, Hlen1 |- *.
  replace (i_e (inp t2) =? u32 (i_r (inp t2) + INPUT_BUF)) with (length com + (length line + 1) =? 128)%nat.
  2: { rewrite Ei2, u32_small by (unfold INPUT_BUF; lia). unfold INPUT_BUF.
       destruct (Nat.eqb_spec (length com + (length line + 1)) 128), (Z.eqb_spec (i_e s1) (i_r s1 + 128)); try done; lia. }
  destruct (_ || _) eqn:Eend.
  - eapply wp_mono; [apply (hand_over t2 com (line ++ [c']) (i_r (inp t)) com)|].
    + by rewrite Em2.
    + done.
    + by rewrite Ei2.
    + by destruct line.
    + by rewrite Ec2.
    + by rewrite Ei2.
    + by rewrite Ec2.
    + intros [] t3 (Hst3 & Er3 & Ee3 & Hsz3 & Hw3). unfold key_post. simpl. rewrite Ei2 in Ee3. rewrite Ec2 in Hsz3.
      split_and!; try done; [lia|congruence].
  - apply wp_ret. unfold key_post, line_state. simpl. rewrite Em2, Ei2, Ec2, Er1.
    apply orb_false_iff in Eend as [Eend _]. apply orb_false_iff in Eend as [E10%Z.eqb_neq _].
    split; [split_and!; try done; set_solver|]. split_and!; try done; lia.
Qed.

Lemma key_spec pd t st c :
  line_state t st → typing pd c → i_e (inp t) + 1 < 2 ^ 31 → c_size (cmds t) + 1 < 2 ^ 31 →
  wp (key pd c) (λ _, key_post t st (cook st c)) t.
Proof.
  destruct st as [com line]. intros Hst Hty He Hsz. destruct (id Hty) as (Hc & Htab & H80).
  destruct (id Hst) as ((_ & _ & Hcon) & _). unfold key. apply wp_bind, wp_gets. rewrite Hcon. simpl negb.
  destruct (Z.eqb_spec c (Ctl 80)) as [-> |Hn80].
  { destruct (id Hst) as (Hm & Hs & Hr & Hnl & Hh). apply wp_bind, wp_gets.
    eapply wp_mono; [apply consputs_term; [done|done|by apply H80]|]. intros [] t' (Hs' & _ & _ & Hm' & Hi' & Hc' & _ & Hw').
    unfold key_post, line_state. rewrite Hm', Hi', Hc'. split_and!; try done; lia. }
  rewrite (proj2 (Z.eqb_neq _ _) Htab).
  rewrite !(proj2 (Z.eqb_neq c (LEFTARROW))), !(proj2 (Z.eqb_neq c (RIGHTARROW))), !(proj2 (Z.eqb_neq c UPARROW)),
    !(proj2 (Z.eqb_neq c DOWNARROW)) by (unfold LEFTARROW, RIGHTARROW, UPARROW, DOWNARROW; lia).
  destruct (Z.eqb_spec c (Ctl 85)) as [->|H85]; [by apply killline_spec|].
  destruct (Z.eqb_spec c (Ctl 72)) as [->|H72]; [by apply key_backspace_spec|].
  destruct (Z.eqb_spec c 0x7f) as [->|H7f]; [by apply key_backspace_spec|]. simpl orb. cbv iota.
  unfold key_default. apply wp_bind, wp_gets. rewrite Hcon. by apply key_shell_spec.
Qed.

Lemma keys_spec pd cs : ∀ t st,
  line_state t st → Forall (typing pd) cs → i_e (inp t) + Z.of_nat (length cs) < 2 ^ 31 →
  c_size (cmds t) + Z.of_nat (length cs) < 2 ^ 31 →
  wp (forM cs (key pd)) (λ _ t', line_state t' (foldl cook st cs) ∧ i_r (inp t') = i_r (inp t)) t.
Proof.
  induction cs as [|c cs IH]; intros t st Hst Hcs He Hsz; simpl; [by apply wp_ret|].
  apply Forall_cons in Hcs as [Hc Hcs]. cbn [length] in He, Hsz. apply wp_bind. eapply wp_mono; [apply key_spec; try done; lia|].
  intros [] t1 (Hst1 & Er1 & He1 & Hsz1 & _). eapply wp_mono; [apply IH; [done|done|lia|lia]|].
  intros [] t2 [Hst2 Er2]. split; [done|congruence].
Qed.


(** The state at boot, with nothing typed. *)
Lemma boot_line_state : line_state (on_cmd init_cmd (con0 (replicate CRTSIZE 0) 0)) ([], []).
Proof.
  split; [done|]. split; [split; [apply length_replicate|split; [simpl; lia|done]]|].
  split; [|split; [set_solver|]].
  - unfold ring_ok. simpl. do 4 (split; [done|]). split; [lia|]. split; [lia|]. intros k x Hk. by rewrite lookup_nil in Hk.
  - unfold hist_ok, links_ok. simpl. do 3 (split; [done|]). split; [split; [done|lia]|]. split; [split; [done|lia]|]. split; [done|lia].
Qed.


(** ** Reading

    The reference reader takes bytes from the finished lines: up to a line end,
    up to an end of file, which it leaves for the next call when it has read
    something, or [n] of them; it waits when there are none left. *)
Fixpoint read_line (n target : nat) (com : list Z) : list Z * list Z * bool :=
  match n, com with
  | O, _ => ([], com, true)
  | _, [] => ([], [], false)
  | S n', c :: com' =>
      if c =? Ctl 68 then ([], if (n <? target)%nat then com else com', true)
      else if c =? 10 then ([c], com', true)
      else let '(out, rest, done) := read_line n' target com' in (c :: out, rest, done)
  end.

Lemma ring_at_cons s c com line : ring_ok s (c :: com) line →
  i_buf s !!! Z.to_nat (i_r s `mod` INPUT_BUF) = c ∧ i_r s < i_w s ∧ ring_ok (set_r (u32 (i_r s + 1)) s) com line.
Proof.
  intros (Hb & Hr & Hw & He & He31 & Hlen & Hat). cbn [length] in Hw, Hlen. split; [|split; [lia|]].
  - apply list_lookup_total_correct. rewrite <-(Hat 0%nat c eq_refl). by rewrite Z.add_0_r.
  - rewrite u32_small by lia. unfold ring_ok. simpl. split; [done|]. split; [lia|]. split; [lia|]. split; [lia|]. split; [lia|].
    split; [lia|]. intros k x Hk. simpl. rewrite <-(Hat (S k) x Hk). do 3 f_equal. lia.
Qed.

(** [consoleread] from its call or a wakeup on takes from the ring what the
    reference reader takes from the finished lines: it stores the same bytes
    after those it already has, leaves the same bytes and the edited line in the
    ring, and returns the number of bytes or sleeps exactly when the reference
    reader does; a killed process gets -1 instead of sleeping. *)
Theorem consoleread_refines killed n target dst s com line :
  ring_ok s com line → Forall (λ c, 0 ≤ c < 256) com → (length dst + n = target)%nat →
  let '(out, rest, done) := read_line n target com in
  ∃ s', consoleread killed n target dst s =
      (s', dst ++ out, if done then RDone (Z.of_nat (length dst + length out)) else if killed then RDone (-1) else RSleep) ∧
    ring_ok s' rest line.
Proof.
  revert n dst s. induction com as [|c com IH]; intros n dst s Hr Hb Hn.
  - destruct n as [|n]; simpl.
    + exists s. split; [|done]. rewrite app_nil_r. do 2 f_equal. lia.
    + assert (i_r s = i_w s) as E by (destruct Hr as (_ & _ & Hw & _); simpl in Hw; lia).
      rewrite E, Z.eqb_refl. exists s. by rewrite app_nil_r.
  - destruct n as [|n]; simpl.
    { exists s. split; [|done]. rewrite app_nil_r. do 2 f_equal. lia. }
    destruct (ring_at_cons _ _ _ _ Hr) as (Ec & Hlt & Hr'). rewrite (proj2 (Z.eqb_neq (i_r s) (i_w s))) by lia. rewrite Ec.
    apply Forall_cons in Hb as [Hc Hb]. assert (Hu : u8 c = c) by (unfold u8; by apply Z.mod_small).
    destruct (c =? Ctl 68).
    { exists (if (S n <? target)%nat then s else set_r (u32 (i_r s + 1)) s). split; [|by destruct (S n <? target)%nat].
      rewrite app_nil_r. simpl length. do 2 f_equal. lia. }
    destruct (c =? 10).
    { eexists. split; [|exact Hr']. rewrite Hu. simpl length. do 2 f_equal. lia. }
    specialize (IH n (dst ++ [u8 c]) _ Hr' Hb). rewrite length_app in IH. simpl in IH. specialize (IH ltac:(lia)).
    destruct (read_line n target com) as [[out rest] dn]. destruct IH as (s' & Hrun & Hrest).
    exists s'. split; [|done]. rewrite Hrun, Hu, <-app_assoc. simpl. do 2 f_equal. destruct dn; [|done]. f_equal. lia.
Qed.

(** The line "ls" is in the ring, across the end of the buffer. *)
Definition ring1 : input := mkInput (<[0%nat := 115]> (<[1%nat := 10]> (<[127%nat := 108]> (replicate 128 0)))) 127 130 130.
Lemma consoleread_refines_witness :
  ∃ s', consoleread false 8 8 [] ring1 = (s', [108; 115; 10], RDone 3) ∧ ring_ok s' [] [].
Proof.
  apply (consoleread_refines false 8 8 [] ring1 [108; 115; 10] []).
  - unfold ring_ok, ring_at. simpl. do 4 (split; [reflexivity || lia|]). split; [lia|]. split; [lia|].
    intros k x Hk. do 3 (destruct k as [|k]; [simpl in Hk |- *; injection Hk as <-; reflexivity|]). discriminate Hk.
  - repeat (apply Forall_cons; split; [lia|]). apply Forall_nil. exact I.
  - reflexivity.
Defined.

(** ** The system calls

    [sys_outexac] does not compare its coordinates with the size of the screen:
    outside of it the program stores a word of its choice in the kernel's
    memory. *)
Theorem outexac_unchecked x y w t :
  ¬ (0 ≤ 80 * y + x < Z.of_nat CRTSIZE) → ∃ t', sys_outexac (Some x) (Some y) (Some w) t = Err Undef t'.
Proof.
  intros Hout. unfold sys_outexac, printat, mbind, M_bind, modify, set_crt_at.
  destruct (Z.leb_spec 0 (80 * y + x)), (Z.ltb_spec (80 * y + x) (Z.of_nat CRTSIZE)); try lia; simpl; eauto.
Qed.
