(* ===== verification/Dump.v ===== *)
(** * Messages of the kernel (procdump of proc.c, panic of console.c)

    What [cprintf] prints for a format is a text that goes to the console one
    character after the other ([cfmt]); the listing of the processes and the
    message of a panic are such texts. *)

From S2P Require Import Prelude Spinlock Proc Console.

(** ** The text of a format *)
Definition int_text (xx base : Z) (sign : bool) : list Z :=
  let neg := sign && (xx <? 0) in
  rev (digits_of 32 (u32 (if neg then - xx else xx)) base ++ if neg then [45] else []).

Fixpoint cfmt (str : Z → list Z) (fmt : list Z) (argp : list Z) : option (list Z) :=
  match fmt with
  | [] => None
  | c :: fmt' =>
      if c =? 0 then Some []
      else if negb (c =? 37) then cons c <$> cfmt str fmt' argp
      else match fmt' with
      | [] => None
      | c :: fmt' =>
          if c =? 0 then Some []
          else if c =? 100 then a ← head argp; app (int_text (s32 a) 10 true) <$> cfmt str fmt' (tail argp)
          else if (c =? 120) || (c =? 112) then a ← head argp; app (int_text (s32 a) 16 false) <$> cfmt str fmt' (tail argp)
          else if c =? 115 then
            a ← head argp; app (if a =? 0 then [40; 110; 117; 108; 108; 41] else str a) <$> cfmt str fmt' (tail argp)
          else if c =? 37 then cons 37 <$> cfmt str fmt' argp
          else (λ l, 37 :: c :: l) <$> cfmt str fmt' argp
      end
  end.

Lemma consputs_app a b t : consputs (a ++ b) t = (consputs a;; consputs b) t.
Proof.
  revert t. induction a as [|c a IH]; intros t; [done|]. simpl. unfold mbind, M_bind in *.
  destruct (consputc c t) as [[] t'|]; [|done]. apply IH.
Qed.

Lemma bind_ext {S A B} (m : M S A) (f g : A → M S B) t : (∀ a t', f a t' = g a t') → (m ≫= f) t = (m ≫= g) t.
Proof. intros H. unfold mbind, M_bind. destruct (m t); [apply H|done]. Qed.

(** The rest of a format is printed behind the beginning. *)
Lemma cga_text_app (m : M con unit) a b t : (∀ t', m t' = consputs b t') → (consputs a;; m) t = consputs (a ++ b) t.
Proof. intros H. rewrite consputs_app. apply bind_ext. intros _ t'. apply H. Qed.

Lemma cprintf_text str n : ∀ fmt argp txt t, (length fmt ≤ n)%nat → cfmt str fmt argp = Some txt →
  cprintf str fmt argp t = consputs txt t.
Proof.
  induction n as [|n IH]; intros [|c fmt] argp txt t Hn H; simpl in Hn, H; try done; [lia|].
  cbn [cprintf]. destruct (c =? 0); [by simplify_eq|]. destruct (negb (c =? 37)).
  { destruct (cfmt str fmt argp) as [o|] eqn:E; simplify_eq/=. apply bind_ext. intros _ t'. eapply IH; [lia|done]. }
  destruct fmt as [|d fmt]; [done|]. simpl in Hn. destruct (d =? 0); [by simplify_eq|].
  destruct (d =? 100); [|destruct ((d =? 120) || (d =? 112)); [|destruct (d =? 115); [|destruct (d =? 37)]]].
  1-3: destruct (head argp) as [a|]; [|done]; cbn [mbind option_bind] in H;
    destruct (cfmt str fmt (tail argp)) as [o|] eqn:E; simplify_eq/=;
    unfold deref; (unfold mbind at 1, M_bind at 1); cbv beta; cbn [mret M_ret];
    apply cga_text_app; intros t'; (eapply IH; [lia|done]).
  - destruct (cfmt str fmt argp) as [o|] eqn:E; simplify_eq/=. apply bind_ext. intros _ t'. eapply IH; [lia|done].
  - destruct (cfmt str fmt argp) as [o|] eqn:E; simplify_eq/=. apply bind_ext. intros _ t'. apply bind_ext. intros _ t2. eapply IH; [lia|done].
Qed.

Definition text (s : string) : list Z := (λ a, Z.of_nat (Ascii.nat_of_ascii a)) <$> String.list_ascii_of_string s.
Definition fmt (s : string) : list Z := text s ++ [0].

(** A list of addresses. *)
Lemma pcs_text l : ∀ t, forM l (λ pc, cprintf (λ _, []) (fmt " %p") [pc]) t = consputs (l ≫= λ pc, 32 :: int_text (s32 pc) 16 false) t.
Proof.
  induction l as [|pc l IH]; intros t; [done|]. cbn [forM]. rewrite bind_cons. unfold mbind at 1, M_bind at 1.
  rewrite (cprintf_text _ 4 _ _ (32 :: int_text (s32 pc) 16 false)); [|done|].
  - rewrite consputs_app. unfold mbind, M_bind. destruct (consputs _ t) as [[] t2|]; [apply IH|done].
  - simpl. by rewrite app_nil_r.
Qed.

(** ** procdump *)

Fixpoint until0 (l : list Z) : list Z := match l with [] => [] | c :: l' => if c =? 0 then [] else c :: until0 l' end.
Definition state_name (s : procstate) : list Z :=
  match s with
  | UNUSED => text "unused" | EMBRYO => text "embryo" | SLEEPING => text "sleep "
  | RUNNABLE => text "runble" | RUNNING => text "run   " | ZOMBIE => text "zombie"
  end.

Section dump.
(** A word of memory, and the ebp in the context of each process. *)
Context (word : Z → Z) (ebp : nat → Z).

(** The saved program counters up to the first zero. *)
Fixpoint nonzero (l : list Z) : list Z := match l with [] => [] | c :: l' => if c =? 0 then [] else c :: nonzero l' end.

(** [%s] takes the strings of this process: 1 is its state and 2 its name. *)
Definition procdump_one (k : nat) (p : proc) : M con unit :=
  if bool_decide (p_state p = UNUSED) then mret tt else
  cprintf (λ a, if a =? 1 then state_name (p_state p) else until0 (p_name p)) (fmt "%d %s %s") [p_pid p; 1; 2];;
  (if bool_decide (p_state p = SLEEPING) then
     forM (nonzero (getcallerpcs word (u32 (ebp k + 8)))) (λ pc, cprintf (λ _, []) (fmt " %p") [pc])
   else mret tt);;
  cprintf (λ _, []) [10; 0] [].
Fixpoint procdump_from (k : nat) (l : list proc) : M con unit :=
  match l with [] => mret tt | p :: l' => procdump_one k p;; procdump_from (S k) l' end.
Definition procdump (l : list proc) : M con unit := procdump_from 0 l.

(** The line of a process. *)
Definition dump_line (k : nat) (p : proc) : list Z :=
  if bool_decide (p_state p = UNUSED) then [] else
  int_text (s32 (p_pid p)) 10 true ++ [32] ++ state_name (p_state p) ++ [32] ++ until0 (p_name p) ++
  (if bool_decide (p_state p = SLEEPING) then
     nonzero (getcallerpcs word (u32 (ebp k + 8))) ≫= λ pc, 32 :: int_text (s32 pc) 16 false
   else []) ++ [10].

Lemma dump_one k p t : procdump_one k p t = consputs (dump_line k p) t.
Proof.
  unfold procdump_one, dump_line. destruct (bool_decide (p_state p = UNUSED)); [done|].
  set (L := int_text (s32 (p_pid p)) 10 true ++ [32] ++ state_name (p_state p) ++ [32] ++ until0 (p_name p)).
  assert (∀ t, cprintf (λ a, if a =? 1 then state_name (p_state p) else until0 (p_name p)) (fmt "%d %s %s") [p_pid p; 1; 2] t = consputs L t) as H1.
  { intros t'. apply (cprintf_text _ 9); [done|]. subst L. simpl. by rewrite app_nil_r. }
  transitivity (consputs (L ++ (if bool_decide (p_state p = SLEEPING) then nonzero (getcallerpcs word (u32 (ebp k + 8))) ≫= λ pc, 32 :: int_text (s32 pc) 16 false else []) ++ [10]) t).
  - rewrite consputs_app. unfold mbind at 1, M_bind at 1. unfold mbind at 2, M_bind at 2. rewrite H1. destruct (consputs L t) as [[] t'|]; [|done].
    rewrite consputs_app. unfold mbind, M_bind. destruct (bool_decide (p_state p = SLEEPING)); [rewrite pcs_text|].
    + destruct (consputs _ t') as [[] t2|]; [|done]. done.
    + done.
  - subst L. by rewrite <-!app_assoc.
Qed.

Fixpoint dump_lines (k : nat) (l : list proc) : list Z :=
  match l with [] => [] | p :: l' => dump_line k p ++ dump_lines (S k) l' end.

(** The listing has one line for each process in use, in the order of the table,
    with the program counters of those that sleep. *)
Theorem procdump_lines l t : procdump l t = consputs (dump_lines 0 l) t.
Proof.
  unfold procdump. generalize 0%nat as k. revert t. induction l as [|p l IH]; intros t k; [done|].
  cbn [procdump_from dump_lines]. rewrite consputs_app. unfold mbind, M_bind. rewrite dump_one.
  destruct (consputs (dump_line k p) t) as [[] t2|]; [apply IH|done].
Qed.
End dump.

(** ** panic *)

Definition set_panicked (m : modes) : modes :=
  mkModes true (hlighttype m) (isConsole m) (edit_mode m) (esc_mode m) (gameInput m) (gameGet m).
(** [msg] is the format of the second call; [pcs] are the program counters that
    getcallerpcs finds. It ends in a loop that never ends. *)
Definition kpanic (cpuid : Z) (msg : list Z) (pcs : list Z) : M con unit :=
  cprintf (λ _, []) (fmt "cpu%d: panic: ") [cpuid];;
  cprintf (λ _, []) (msg ++ [0]) [];;
  cprintf (λ _, []) [10; 0] [];;
  forM pcs (λ pc, cprintf (λ _, []) (fmt " %p") [pc]);;
  modify (on_md set_panicked);;
  stopM NoFuel.

(** The message is printed, and after it no processor prints any more. *)
Lemma kpanic_freezes cpuid msg pcs t t1 : Forall (λ c, c ≠ 0 ∧ c ≠ 37) msg →
  consputs (text "cpu" ++ int_text (s32 cpuid) 10 true ++ text ": panic: " ++ msg ++ [10] ++
    (pcs ≫= λ pc, 32 :: int_text (s32 pc) 16 false)) t = Ok tt t1 →
  kpanic cpuid msg pcs t = Err NoFuel (on_md set_panicked t1) ∧
  ∀ c, consputc c (on_md set_panicked t1) = Err NoFuel (on_md set_panicked t1).
Proof.
  intros Hm Ht. split; [|done]. unfold kpanic.
  assert (cfmt (λ _, []) (msg ++ [0]) [] = Some msg) as Hmsg.
  { clear Ht. induction Hm as [|c msg [H0 H37] _ IH]; [done|]. simpl. by rewrite (proj2 (Z.eqb_neq c 0)), (proj2 (Z.eqb_neq c 37)), IH. }
  rewrite 2!app_assoc in Ht. rewrite consputs_app in Ht. unfold mbind at 1, M_bind at 1 in Ht. unfold mbind at 1, M_bind at 1.
  rewrite (cprintf_text _ 15 _ _ ((text "cpu" ++ int_text (s32 cpuid) 10 true) ++ text ": panic: ")); [|by vm_compute; lia|by simpl].
  destruct (consputs ((text "cpu" ++ _) ++ _) t) as [[] t2|]; [|done].
  rewrite consputs_app in Ht. unfold mbind at 1, M_bind at 1 in Ht. unfold mbind at 1, M_bind at 1.
  rewrite (cprintf_text _ (length (msg ++ [0])) _ _ msg) by done. destruct (consputs msg t2) as [[] t3|]; [|done].
  rewrite consputs_app in Ht. unfold mbind at 1, M_bind at 1 in Ht. unfold mbind at 1, M_bind at 1.
  rewrite (cprintf_text _ 2 _ _ [10]) by done. destruct (consputs [10] t3) as [[] t4|]; [|done].
  unfold mbind at 1, M_bind at 1. rewrite pcs_text, Ht. done.
Qed.
