(* ===== verification/Kbd.v ===== *)
(** * The keyboard and the serial port (kbd.c, kbd.h, uart.c)

    The keyboard sends scan codes, which [kbdgetc] turns into characters with
    the state of the shift keys; the console takes the characters. The state of
    the model is the variable [shift] and the bytes that wait in the controller.
    The theorems read scan codes as events of keys, with the modifiers as
    booleans, and go through to the line that a reader of the console gets. *)

From S2P Require Import Prelude Console ConsoleProps.

(** ** kbd.h *)
Definition KBS_DIB : Z := 1.
Definition NO : Z := 0.
Definition SHIFT : Z := Z.shiftl 1 0.
Definition CTL : Z := Z.shiftl 1 1.
Definition ALT : Z := Z.shiftl 1 2.
Definition CAPSLOCK : Z := Z.shiftl 1 3.
Definition NUMLOCK : Z := Z.shiftl 1 4.
Definition SCROLLLOCK : Z := Z.shiftl 1 5.
Definition E0ESC : Z := Z.shiftl 1 6.

Definition KEY_HOME : Z := 0xE0.
Definition KEY_END : Z := 0xE1.
Definition KEY_UP : Z := 0xE2.
Definition KEY_DN : Z := 0xE3.
Definition KEY_LF : Z := 0xE4.
Definition KEY_RT : Z := 0xE5.
Definition KEY_PGUP : Z := 0xE6.
Definition KEY_PGDN : Z := 0xE7.
Definition KEY_INS : Z := 0xE8.
Definition KEY_DEL : Z := 0xE9.

(** [C('A')] is control-A. *)
Definition C (x : Z) : Z := x - 64.

(** An array of 256 bytes from an initialiser: the first elements and those with
    a designator; the rest is zero. *)
Definition table (first : list Z) (des : list (nat * Z)) : list Z :=
  foldl (λ t p, <[p.1 := p.2]> t) (first ++ replicate (256 - length first) 0) des.

Definition shiftcode : list Z :=
  table [] [(0x1D, CTL); (0x2A, SHIFT); (0x36, SHIFT); (0x38, ALT); (0x9D, CTL); (0xB8, ALT)]%nat.
Definition togglecode : list Z :=
  table [] [(0x3A, CAPSLOCK); (0x45, NUMLOCK); (0x46, SCROLLLOCK)]%nat.

(** The keys of the extended range that all maps share. *)
Definition extended : list (nat * Z) :=
  [(0xC8, KEY_UP); (0xD0, KEY_DN); (0xC9, KEY_PGUP); (0xD1, KEY_PGDN); (0xCB, KEY_LF); (0xCD, KEY_RT);
   (0x97, KEY_HOME); (0xCF, KEY_END); (0xD2, KEY_INS); (0xD3, KEY_DEL)]%nat.

Definition normalmap : list Z := table
  [NO; 0x1B; 49; 50; 51; 52; 53; 54;        (* 1 2 3 4 5 6 *)
   55; 56; 57; 48; 45; 61; 8; 9;            (* 7 8 9 0 - = backspace tab *)
   113; 119; 101; 114; 116; 121; 117; 105;  (* q w e r t y u i *)
   111; 112; 91; 93; 10; NO; 97; 115;       (* o p [ ] newline, a s *)
   100; 102; 103; 104; 106; 107; 108; 59;   (* d f g h j k l ; *)
   39; 96; NO; 92; 122; 120; 99; 118;       (* ' ` and \ z x c v *)
   98; 110; 109; 44; 46; 47; NO; 42;        (* b n m , . / and the star *)
   NO; 32; NO; NO; NO; NO; NO; NO;
   NO; NO; NO; NO; NO; NO; NO; 55;          (* 7 *)
   56; 57; 45; 52; 53; 54; 43; 49;          (* 8 9 - 4 5 6 + 1 *)
   50; 51; 48; 46; NO; NO; NO; NO]          (* 2 3 0 . *)
  ([(0x9C%nat, 10); (0xB5%nat, 47)] ++ extended).

Definition shiftmap : list Z := table
  [NO; 27; 33; 64; 35; 36; 37; 94;          (* ! @ # $ % ^ *)
   38; 42; 40; 41; 95; 43; 8; 9;            (* & star parentheses _ + backspace tab *)
   81; 87; 69; 82; 84; 89; 85; 73;          (* Q W E R T Y U I *)
   79; 80; 123; 125; 10; NO; 65; 83;        (* O P braces newline, A S *)
   68; 70; 71; 72; 74; 75; 76; 58;          (* D F G H J K L : *)
   34; 126; NO; 124; 90; 88; 67; 86;        (* double quote, tilde, bar, Z X C V *)
   66; 78; 77; 60; 62; 63; NO; 42;          (* B N M < > ? and the star *)
   NO; 32; NO; NO; NO; NO; NO; NO;
   NO; NO; NO; NO; NO; NO; NO; 55;
   56; 57; 45; 52; 53; 54; 43; 49;
   50; 51; 48; 46; NO; NO; NO; NO]
  ([(0x9C%nat, 10); (0xB5%nat, 47)] ++ extended).

Definition ctlmap : list Z := table
  [NO; NO; NO; NO; NO; NO; NO; NO;
   NO; NO; NO; NO; NO; NO; NO; NO;
   C 81; C 87; C 69; C 82; C 84; C 89; C 85; C 73;
   C 79; C 80; NO; NO; 13; NO; C 65; C 83;
   C 68; C 70; C 71; C 72; C 74; C 75; C 76; NO;
   NO; NO; NO; C 92; C 90; C 88; C 67; C 86;
   C 66; C 78; C 77; NO; NO; u8 (C 47); NO; NO]
  ([(0x9C%nat, 13); (0xB5%nat, u8 (C 47))] ++ extended).

(** ** kbdgetc *)
Record kbd := mkKbd { kshift : Z; pending : list Z }.

#[export] Instance kbd_eq_dec : EqDecision kbd.
Proof. solve_decision. Defined.

Definition charcode (i : Z) : list Z :=
  if i =? 0 then normalmap else if i =? 1 then shiftmap else ctlmap.

(** The controller has data while bytes are pending; a read of the data port
    takes the next one. *)
Definition kbdgetc (k : kbd) : kbd * Z :=
  match pending k with
  | [] => (k, -1)
  | data :: rest =>
      let shift := kshift k in
      if data =? 0xE0 then (mkKbd (Z.lor shift E0ESC) rest, 0)
      else if negb (Z.land data 0x80 =? 0) then
        let data := if negb (Z.land shift E0ESC =? 0) then data else Z.land data 0x7F in
        (mkKbd (Z.land shift (u32 (Z.lnot (Z.lor (shiftcode !!! Z.to_nat data) E0ESC)))) rest, 0)
      else
        let '(data, shift) := if negb (Z.land shift E0ESC =? 0)
          then (Z.lor data 0x80, Z.land shift (u32 (Z.lnot E0ESC))) else (data, shift) in
        let shift := Z.lor shift (shiftcode !!! Z.to_nat data) in
        let shift := Z.lxor shift (togglecode !!! Z.to_nat data) in
        let c := charcode (Z.land shift (Z.lor CTL SHIFT)) !!! Z.to_nat data in
        let c := if negb (Z.land shift CAPSLOCK =? 0) then
            if (97 <=? c) && (c <=? 122) then c + (65 - 97)
            else if (65 <=? c) && (c <=? 90) then c + (97 - 65) else c
          else c in
        (mkKbd shift rest, c)
  end.

(** The results of [kbdgetc] up to the first negative one; every call before it
    takes a byte. *)
Fixpoint kbd_chars (fuel : nat) (k : kbd) : kbd * list Z :=
  match fuel with
  | O => (k, [])
  | S fuel' =>
      let '(k, c) := kbdgetc k in
      if c <? 0 then (k, []) else let '(k, l) := kbd_chars fuel' k in (k, c :: l)
  end.

(** The handler of the interrupt: [consoleintr] takes characters until there are
    none. *)
Definition kbdintr (procdump : con → list Z) (k : kbd) : M con kbd :=
  let '(k, cs) := kbd_chars (S (length (pending k))) k in
  consoleintr procdump cs;; mret k.

(** ** Keys

    The reference: a key has a number and is plain or extended; the modifiers
    are booleans. The keys of either hand do the same. *)
Record mods := mkMods { m_shift : bool; m_ctl : bool; m_alt : bool; m_caps : bool; m_num : bool; m_scroll : bool }.

#[export] Instance mods_eq_dec : EqDecision mods.
Proof. solve_decision. Defined.

Inductive kev := Press (ext : bool) (code : Z) | Release (ext : bool) (code : Z).

(** What the keyboard sends. *)
Definition scan (e : kev) : list Z :=
  match e with
  | Press x n => (if x then [0xE0] else []) ++ [n]
  | Release x n => (if x then [0xE0] else []) ++ [n + 128]
  end.
Definition is_key (e : kev) : Prop :=
  match e with Press _ n => 0 ≤ n < 128 | Release _ n => 0 ≤ n < 128 ∧ n ≠ 0x60 end.

(** The modifier keys. *)
Definition is_shift (x : bool) (n : Z) : bool := negb x && ((n =? 0x2A) || (n =? 0x36)).
Definition is_ctl (n : Z) : bool := n =? 0x1D.
Definition is_alt (n : Z) : bool := n =? 0x38.
Definition is_lock (x : bool) (n k : Z) : bool := negb x && (n =? k).

Definition press (x : bool) (n : Z) (m : mods) : mods :=
  mkMods (m_shift m || is_shift x n) (m_ctl m || is_ctl n) (m_alt m || is_alt n)
    (xorb (m_caps m) (is_lock x n 0x3A)) (xorb (m_num m) (is_lock x n 0x45)) (xorb (m_scroll m) (is_lock x n 0x46)).
Definition release (x : bool) (n : Z) (m : mods) : mods :=
  mkMods (m_shift m && negb (is_shift x n)) (m_ctl m && negb (is_ctl n)) (m_alt m && negb (is_alt n))
    (m_caps m) (m_num m) (m_scroll m).

(** The letters, in the rows of the keyboard. *)
Definition letter_rows : list (Z * string) := [(0x10, "qwertyuiop"); (0x1E, "asdfghjkl"); (0x2C, "zxcvbnm")].
Definition letter (x : bool) (n : Z) : option Z :=
  if x then None else
  foldr (λ p r, if (p.1 <=? n) && (n <? p.1 + Z.of_nat (String.length p.2))
    then cstr p.2 !! Z.to_nat (n - p.1) else r) None letter_rows.

(** The character of a key: a letter is large when exactly one of shift and caps
    lock is on, and a control character with control; other keys do not depend on
    caps lock. *)
Definition keychar (x : bool) (n : Z) (m : mods) : Z :=
  match letter x n with
  | Some c => if m_ctl m then c - 96 else if xorb (m_shift m) (m_caps m) then c - 32 else c
  | None => (if m_ctl m then ctlmap else if m_shift m then shiftmap else normalmap) !!! Z.to_nat (if x then n + 128 else n)
  end.

Definition after (m : mods) (e : kev) : mods := match e with Press x n => press x n m | Release x n => release x n m end.

(** The characters that the events stand for; prefixes, releases and keys
    without a character are zeros. *)
Fixpoint typed (m : mods) (es : list kev) : list Z :=
  match es with
  | [] => []
  | Press x n :: es' => (if x then [0] else []) ++ keychar x n (press x n m) :: typed (press x n m) es'
  | Release x n :: es' => (if x then [0] else []) ++ 0 :: typed (release x n m) es'
  end.

(** The byte of the modifiers. *)
Definition mask (m : mods) : Z :=
  (if m_shift m then 1 else 0) + (if m_ctl m then 2 else 0) + (if m_alt m then 4 else 0) +
  (if m_caps m then 8 else 0) + (if m_num m then 16 else 0) + (if m_scroll m then 32 else 0).

Definition all_mods : list mods :=
  let b := [false; true] in
  s ← b; c ← b; a ← b; p ← b; n ← b; l ← b; [mkMods s c a p n l].
Definition all_codes : list Z := Z.of_nat <$> seq 0 128.

(** One event, for every state and key. *)
Definition press_ok (m : mods) (x : bool) (n : Z) : bool :=
  bool_decide (kbdgetc (mkKbd (if x then Z.lor (mask m) E0ESC else mask m) [n]) = (mkKbd (mask (press x n m)) [], keychar x n (press x n m)))
    && (0 <=? keychar x n (press x n m)) && (keychar x n (press x n m) <=? 255).
Definition release_ok (m : mods) (x : bool) (n : Z) : bool :=
  bool_decide (kbdgetc (mkKbd (if x then Z.lor (mask m) E0ESC else mask m) [n + 128]) = (mkKbd (mask (release x n m)) [], 0)).

Definition over (P : mods → bool → Z → bool) : bool :=
  forallb (λ m, forallb (λ x, forallb (P m x) all_codes) [false; true]) all_mods.

Lemma over_spec P m x n : over P = true → 0 ≤ n < 128 → P m x n = true.
Proof.
  unfold over. intros H Hn. rewrite forallb_forall in H. assert (Hm : In m all_mods).
  { destruct m as [[] [] [] [] [] []]; vm_compute; tauto. }
  specialize (H m Hm). rewrite forallb_forall in H. specialize (H x). assert (Hx : In x [false; true]) by (destruct x; simpl; tauto).
  specialize (H Hx). rewrite forallb_forall in H. apply H.
  unfold all_codes. apply list_elem_of_In, list_elem_of_fmap. exists (Z.to_nat n). split; [lia|]. apply elem_of_seq. lia.
Qed.

Lemma press_all : over press_ok = true.
Proof. vm_compute. reflexivity. Qed.
Lemma release_all : over (λ m x n, (n =? 0x60) || release_ok m x n) = true.
Proof. vm_compute. reflexivity. Qed.

(** The rest of the pending bytes plays no part. *)
Lemma kbdgetc_rest s n rest : kbdgetc (mkKbd s (n :: rest)) =
  (mkKbd (kshift (kbdgetc (mkKbd s [n])).1) rest, (kbdgetc (mkKbd s [n])).2).
Proof. unfold kbdgetc. simpl. repeat case_match; try done; by simplify_eq. Qed.

Lemma press_spec m (x : bool) n rest : 0 ≤ n < 128 →
  kbdgetc (mkKbd (if x then Z.lor (mask m) E0ESC else mask m) (n :: rest)) = (mkKbd (mask (press x n m)) rest, keychar x n (press x n m)) ∧
  0 ≤ keychar x n (press x n m) ≤ 255.
Proof.
  intros Hn. pose proof (over_spec _ m x n press_all Hn) as H. unfold press_ok in H.
  apply andb_prop in H as [H H2]. apply andb_prop in H as [H H1]. apply bool_decide_eq_true in H. rewrite kbdgetc_rest, H. split; [done|lia].
Qed.

Lemma release_spec m (x : bool) n rest : 0 ≤ n < 128 → n ≠ 0x60 →
  kbdgetc (mkKbd (if x then Z.lor (mask m) E0ESC else mask m) (n + 128 :: rest)) = (mkKbd (mask (release x n m)) rest, 0).
Proof.
  intros Hn Hne. pose proof (over_spec _ m x n release_all Hn) as H. cbn beta in H.
  apply orb_prop in H as [H|H]; [lia|]. unfold release_ok in H. apply bool_decide_eq_true in H. by rewrite kbdgetc_rest, H.
Qed.

Lemma prefix_spec m rest : kbdgetc (mkKbd (mask m) (0xE0 :: rest)) = (mkKbd (Z.lor (mask m) E0ESC) rest, 0).
Proof. done. Qed.

(** ** Sequences of events *)
Definition bytes (es : list kev) : list Z := concat (scan <$> es).

Lemma kbd_chars_step fuel k k' c : kbdgetc k = (k', c) → 0 ≤ c →
  kbd_chars (S fuel) k = ((kbd_chars fuel k').1, c :: (kbd_chars fuel k').2).
Proof. intros E Hc. cbn [kbd_chars]. rewrite E. destruct (Z.ltb_spec c 0); [lia|]. by destruct (kbd_chars fuel k'). Qed.

Lemma kbd_chars_scan fuel e m rest : is_key e → (length (scan e ++ rest) < fuel)%nat →
  ∃ fuel', (length rest < fuel')%nat ∧
    kbd_chars fuel (mkKbd (mask m) (scan e ++ rest)) =
      ((kbd_chars fuel' (mkKbd (mask (after m e)) rest)).1, typed m [e] ++ (kbd_chars fuel' (mkKbd (mask (after m e)) rest)).2).
Proof.
  intros He Hf. destruct e as [x n|x n]; cbn [scan is_key typed after] in *.
  - destruct x; cbn [app length] in *.
    + destruct fuel as [|[|fuel]]; [lia|lia|]. exists fuel. split; [lia|]. destruct (press_spec m true n rest He) as [Hp ?].
      rewrite (kbd_chars_step _ _ _ _ (prefix_spec m _)) by lia. by rewrite (kbd_chars_step _ _ _ _ Hp) by lia.
    + destruct fuel as [|fuel]; [lia|]. exists fuel. split; [lia|]. destruct (press_spec m false n rest He) as [Hp ?].
      by rewrite (kbd_chars_step _ _ _ _ Hp) by lia.
  - destruct He as [He Hne]. destruct x; cbn [app length] in *.
    + destruct fuel as [|[|fuel]]; [lia|lia|]. exists fuel. split; [lia|]. pose proof (release_spec m true n rest He Hne) as Hp.
      rewrite (kbd_chars_step _ _ _ _ (prefix_spec m _)) by lia. by rewrite (kbd_chars_step _ _ _ _ Hp) by lia.
    + destruct fuel as [|fuel]; [lia|]. exists fuel. split; [lia|]. pose proof (release_spec m false n rest He Hne) as Hp.
      by rewrite (kbd_chars_step _ _ _ _ Hp) by lia.
Qed.

Lemma typed_cons m e es : typed m (e :: es) = typed m [e] ++ typed (after m e) es.
Proof. destruct e as [[] ?|[] ?]; done. Qed.

Lemma kbd_chars_events es : ∀ m fuel, Forall is_key es → (length (bytes es) < fuel)%nat →
  kbd_chars fuel (mkKbd (mask m) (bytes es)) = (mkKbd (mask (foldl after m es)) [], typed m es).
Proof.
  induction es as [|e es IH]; intros m fuel Hes Hf.
  - destruct fuel as [|fuel]; [cbn in Hf; lia|]. done.
  - apply Forall_cons in Hes as [He Hes]. change (bytes (e :: es)) with (scan e ++ bytes es) in *.
    destruct (kbd_chars_scan fuel e m (bytes es) He Hf) as (f' & Hf' & ->). rewrite (IH _ _ Hes Hf'). rewrite (typed_cons m e es). done.
Qed.

(** The keyboard decoder implements its reference on every sequence of key
    presses and releases: the variable [shift] holds exactly the modifiers that
    are down or locked, with the prefix of extended keys gone at the end of each
    event, and the characters are those of the keys: letters are large when
    exactly one of shift and caps lock is on and control characters with
    control, and caps lock changes no other key. *)
Theorem kbdgetc_decodes m es :
  Forall is_key es →
  kbd_chars (S (length (bytes es))) (mkKbd (mask m) (bytes es)) = (mkKbd (mask (foldl after m es)) [], typed m es).
Proof. intros Hes. apply kbd_chars_events; [done|lia]. Qed.

(** Caps lock, "a", shift down, "a", shift up, the right control down, "c". *)
Lemma kbdgetc_decodes_witness :
  kbd_chars 13 (mkKbd 0 [0x3A; 0xBA; 0x1E; 0x2A; 0x1E; 0xAA; 0xE0; 0x1D; 0x2E; 0xAE; 0xE0; 0x9D]) =
    (mkKbd 8 [], [0; 0; 65; 0; 97; 0; 0; 0; 3; 0; 0; 0]).
Proof.
  apply (kbdgetc_decodes (mkMods false false false false false false)
    [Press false 0x3A; Release false 0x3A; Press false 0x1E; Press false 0x2A; Press false 0x1E; Release false 0x2A;
     Press true 0x1D; Press false 0x2E; Release false 0x2E; Release true 0x1D]).
  repeat (apply Forall_cons; split; [cbn; lia|]). apply Forall_nil. exact I.
Defined.

(** ** Typing a text *)
Definition typeable (c : Z) : bool := ((32 <=? c) && (c <=? 126)) || (c =? 10).
Definition find_key (t : list Z) (c : Z) : option Z := head (filter (λ n, t !!! Z.to_nat n = c) all_codes).

(** The strokes for a character, with caps lock on or off. *)
Definition strokes (caps : bool) (c : Z) : list kev :=
  let hit n := [Press false n; Release false n] in
  let with_shift n := [Press false 0x2A; Press false n; Release false n; Release false 0x2A] in
  match find_key normalmap c with
  | Some n => if is_Some_dec (letter false n) then if caps then with_shift n else hit n else hit n
  | None => match find_key shiftmap c with
            | Some n => if is_Some_dec (letter false n) then if caps then hit n else with_shift n else with_shift n
            | None => []
            end
  end.
Definition type_text (caps : bool) (l : list Z) : list kev := l ≫= strokes caps.

(** No modifier is held. *)
Definition idle (m : mods) : Prop := m_shift m = false ∧ m_ctl m = false.

Definition strokes_ok (m : mods) (c : Z) (es : list kev) : bool :=
  let l := typed m es in
  bool_decide (filter (λ x, x ≠ 0) l = [c]) && (length l <=? 4)%nat && forallb (λ x, (x =? 0) || typeable x) l &&
  bool_decide (foldl after m es = m) &&
  forallb (λ e, match e with Press _ n => (0 <=? n) && (n <? 128) | Release _ n => (0 <=? n) && (n <? 128) && negb (n =? 0x60) end) es.
Definition characters : list Z := filter typeable all_codes.
Definition idle_mods (caps : bool) : list mods :=
  let b := [false; true] in a ← b; n ← b; l ← b; [mkMods false false a caps n l].

Lemma strokes_all : forallb (λ caps, forallb (λ c, let es := strokes caps c in
  forallb (λ m, strokes_ok m c es) (idle_mods caps)) characters) [false; true] = true.
Proof. vm_compute. reflexivity. Qed.

Lemma strokes_spec m c : idle m → typeable c = true →
  let es := strokes (m_caps m) c in
  filter (λ x, x ≠ 0) (typed m es) = [c] ∧ (length (typed m es) <= 4)%nat ∧ Forall (λ x, x = 0 ∨ typeable x = true) (typed m es) ∧
  foldl after m es = m ∧ Forall is_key es.
Proof.
  intros [Hs Hc] Ht es. pose proof strokes_all as H. rewrite forallb_forall in H. specialize (H (m_caps m)).
  rewrite forallb_forall in H. specialize (H ltac:(destruct (m_caps m); simpl; tauto) c). cbv zeta in H. fold es in H.
  assert (Hin : In c characters).
  { apply list_elem_of_In, list_elem_of_filter. split; [by rewrite Ht|]. unfold all_codes. apply list_elem_of_fmap. exists (Z.to_nat c).
    unfold typeable in Ht. split; [lia|]. apply elem_of_seq. lia. }
  specialize (H Hin). rewrite forallb_forall in H. specialize (H m). 
  assert (Hm : In m (idle_mods (m_caps m))).
  { destruct m as [? ? a p n l]. cbn in Hs, Hc |- *. subst. destruct a, n, l; tauto. }
  specialize (H Hm). unfold strokes_ok in H. rewrite !andb_true_iff in H. destruct H as ((((H1 & H2) & H3) & H4) & H5).
  rewrite bool_decide_eq_true in H1, H4. apply Nat.leb_le in H2. split_and!; try done.
  - rewrite forallb_forall in H3. apply Forall_forall. intros x Hx. apply list_elem_of_In in Hx. specialize (H3 x Hx).
    apply orb_prop in H3 as [H3|H3]; [left; lia|by right].
  - rewrite forallb_forall in H5. apply Forall_forall. intros x Hx. apply list_elem_of_In in Hx. specialize (H5 x Hx).
    destruct x as [y n|y n]; cbn; lia.
Qed.

Lemma typed_app es1 : ∀ m es2, typed m (es1 ++ es2) = typed m es1 ++ typed (foldl after m es1) es2.
Proof.
  induction es1 as [|e es1 IH]; intros m es2; [done|].
  cbn [app foldl]. by rewrite (typed_cons m e (es1 ++ es2)), (typed_cons m e es1), IH, (assoc_L (++)).
Qed.

Lemma type_text_spec m l : idle m → Forall typeable l →
  let es := type_text (m_caps m) l in
  filter (λ x, x ≠ 0) (typed m es) = l ∧ (length (typed m es) <= 4 * length l)%nat ∧ Forall (λ x, x = 0 ∨ typeable x = true) (typed m es) ∧
  foldl after m es = m ∧ Forall is_key es.
Proof.
  intros Hm. induction 1 as [|c l Hc _ (I1 & I2 & I3 & I4 & I5)]; intros es; [by split_and!; try constructor|].
  apply Is_true_true_1 in Hc. destruct (strokes_spec m c Hm Hc) as (S1 & S2 & S3 & S4 & S5).
  subst es. unfold type_text in *. cbn [mbind list_bind]. rewrite typed_app, foldl_app, S4, filter_app, S1, I1, length_app.
  cbn [length]. split_and!; [done|lia|by apply Forall_app|done|by apply Forall_app].
Qed.

Lemma cook_nonzero l : ∀ st, foldl cook st l = foldl cook st (filter (λ x, x ≠ 0) l).
Proof.
  induction l as [|c l IH]; intros st; [done|]. rewrite filter_cons. cbn [foldl]. destruct (decide (c ≠ 0)) as [|Hz]; [apply IH|].
  apply dec_stable in Hz as ->. rewrite IH. by destruct st.
Qed.

Lemma cook_text l : ∀ com line, Forall typeable l → 10 ∉ l → (length com + length line + length l < 128)%nat →
  foldl cook (com, line) l = (com, line ++ l).
Proof.
  induction l as [|c l IH]; intros com line Ht Hn Hl; [by rewrite app_nil_r|].
  apply Forall_cons in Ht as [Hc Ht]. apply not_elem_of_cons in Hn as [Hne Hn]. cbn [length] in Hl. apply Is_true_true_1 in Hc.
  unfold typeable in Hc. assert (E : cook (com, line) c = (com, line ++ [c])).
  { unfold cook, Ctl. rewrite length_app. cbn [length].
    repeat match goal with |- context [?a =? ?b] => destruct (Z.eqb_spec a b); [lia|] end. cbn [orb negb andb].
    destruct (Nat.ltb_spec (length com + length line) 128); [|lia].
    repeat match goal with |- context [?a =? ?b] => destruct (Z.eqb_spec a b); [lia|] end. cbn [orb].
    destruct (Nat.eqb_spec (length com + (length line + 1)) 128); [lia|done]. }
  cbn [foldl]. rewrite E, IH, <-(assoc_L (++)); [done|done|done|]. rewrite length_app. cbn [length]. lia.
Qed.

Lemma cook_line com line l : Forall typeable l → 10 ∉ l → (length com + length line + length l < 128)%nat →
  foldl cook (com, line) (l ++ [10]) = (com ++ line ++ l ++ [10], []).
Proof.
  intros Ht Hn Hl. rewrite foldl_app, cook_text by done. cbn [foldl cook]. rewrite length_app.
  destruct (Nat.ltb_spec (length com + (length line + length l)) 128); [|lia]. cbn. by rewrite <-(assoc_L (++)).
Qed.

(** C24: From the keys to the reader: while the shell has the console, typing a
    line of printable characters and the enter key, with the shift key as each
    character needs it and caps lock on or off, hands over exactly the text of
    the line. Scan codes, decoder, interrupt handler and line discipline work
    together; the handler returns, and the modifiers are as before. *)
Theorem keyboard_types_line pd m l t com line :
  idle m → Forall typeable l → 10 ∉ l →
  line_state (on_cmd init_cmd t) (com, line) → (length com + length line + length l < 128)%nat →
  i_e (inp t) + 4 * Z.of_nat (length l + 1) < 2 ^ 31 → c_size (init_cmd (cmds t)) + 4 * Z.of_nat (length l + 1) < 2 ^ 31 →
  ∃ t', kbdintr pd (mkKbd (mask m) (bytes (type_text (m_caps m) (l ++ [10])))) t = Ok (mkKbd (mask m) []) t' ∧
    line_state t' (com ++ line ++ l ++ [10], []) ∧ i_r (inp t') = i_r (inp t).
Proof.
  intros Hm Hl Hn Hst Hlen He Hc.
  destruct (type_text_spec m (l ++ [10]) Hm) as (T1 & T2 & T3 & T4 & T5); [by apply Forall_app; split; [|repeat constructor]|].
  rewrite length_app in T2. cbn [length] in T2. unfold kbdintr.
  cbn [pending]. rewrite kbd_chars_events, T4 by (done || lia). set (cs := typed m (type_text (m_caps m) (l ++ [10]))) in *.
  assert (Hw : wp (consoleintr pd cs) (λ _ t', line_state t' (com ++ line ++ l ++ [10], []) ∧ i_r (inp t') = i_r (inp t)) t).
  { unfold consoleintr. apply wp_bind, wp_modify. eapply wp_mono; [apply (keys_spec pd cs _ (com, line) Hst)|].
    - eapply Forall_impl; [exact T3|]. intros x [-> |Hx]; unfold typing, TAB, Ctl; [by split_and!|]. unfold typeable in Hx. split_and!; try lia.
    - cbn. lia.
    - cbn. lia.
    - intros [] t' [H1 H2]. split; [|done]. by rewrite cook_nonzero, T1, cook_line in H1. }
  apply wp_Ok in Hw as ([] & t' & Hrun & Hp & Er). exists t'. split; [|done]. unfold mbind, M_bind. by rewrite Hrun.
Qed.

(** "Ls;" with caps lock on, at boot. *)
Lemma keyboard_types_line_witness :
  ∃ t', kbdintr (λ _, []) (mkKbd 8 [0x26; 0xA6; 0x2A; 0x1F; 0x9F; 0xAA; 0x27; 0xA7; 0x1C; 0x9C]) (con0 (replicate CRTSIZE 0) 0) =
      Ok (mkKbd 8 []) t' ∧ line_state t' ([76; 115; 59; 10], []) ∧ i_r (inp t') = 0.
Proof.
  apply (keyboard_types_line (λ _, []) (mkMods false false false true false false) [76; 115; 59] (con0 (replicate CRTSIZE 0) 0) [] []).
  - split; reflexivity.
  - repeat (apply Forall_cons; split; [exact I|]). apply Forall_nil. exact I.
  - vm_compute. intros H. repeat (apply elem_of_cons in H as [H|H]; [discriminate H|]). apply elem_of_nil in H. exact H.
  - exact boot_line_state.
  - cbn. lia.
  - cbn. lia.
  - cbn. lia.
Defined.
