(* ===== verification/Intr.v ===== *)
(** * Interrupt controllers, timer and serial port (picirq.c, ioapic.c, lapic.c, timer.c, uart.c)

    These parts program devices. The state has the variables of the kernel, the
    writes to ports and device registers in their order, and the number of reads
    so far; what a read returns is [dev], an argument. The theorems interpret the
    writes with the rules of the 8259A controller and of the redirection table. *)

From S2P Require Import Prelude Ide Console.

Definition T_SYSCALL : Z := 64.
Definition T_IRQ0 : Z := 32.
Definition IRQ_TIMER : Z := 0.
Definition IRQ_KBD : Z := 1.
Definition IRQ_COM1 : Z := 4.
Definition IRQ_IDE : Z := 14.
Definition IRQ_ERROR : Z := 19.
Definition IRQ_SPURIOUS : Z := 31.

(** What is read, and what is written. *)
Inductive src := InPort (p : Z) | IoReg (r : Z) | LapReg (i : Z).
Inductive ev :=
| Out (port v : Z)
| IoW (reg v : Z)
| LapW (i v : Z)
| Wr16 (a v : Z)
| Cprintf (msg : string).

Record mach := mkMach {
  irqmask : Z; ismp : bool; ioapicid : Z; lapic : bool; uart : bool; cpu_n : Z;
  nin : nat; io : list ev }.

Definition on_io (f : list ev → list ev) (m : mach) : mach :=
  mkMach (irqmask m) (ismp m) (ioapicid m) (lapic m) (uart m) (cpu_n m) (nin m) (f (io m)).
Definition set_irqmask (x : Z) (m : mach) : mach :=
  mkMach x (ismp m) (ioapicid m) (lapic m) (uart m) (cpu_n m) (nin m) (io m).
Definition set_uart (x : bool) (m : mach) : mach :=
  mkMach (irqmask m) (ismp m) (ioapicid m) (lapic m) x (cpu_n m) (nin m) (io m).
Definition set_cpu_n (x : Z) (m : mach) : mach :=
  mkMach (irqmask m) (ismp m) (ioapicid m) (lapic m) (uart m) x (nin m) (io m).
Definition set_nin (x : nat) (m : mach) : mach :=
  mkMach (irqmask m) (ismp m) (ioapicid m) (lapic m) (uart m) (cpu_n m) x (io m).

Definition emit (e : ev) : M mach unit := modify (on_io (λ l, l ++ [e])).
Definition outb (port v : Z) : M mach unit := emit (Out port (u8 v)).

(** ** picirq.c *)
Definition IO_PIC1 : Z := 0x20.
Definition IO_PIC2 : Z := 0xA0.
Definition IRQ_SLAVE : Z := 2.
Definition irqmask0 : Z := Z.land 0xFFFF (u32 (Z.lnot (Z.shiftl 1 IRQ_SLAVE))).

Definition picsetmask (mask : Z) : M mach unit :=
  let mask := u16 mask in
  modify (set_irqmask mask);;
  outb (IO_PIC1 + 1) mask;;
  outb (IO_PIC2 + 1) (Z.shiftr mask 8).

Definition picenable (irq : Z) : M mach unit :=
  m ← gets irqmask;
  picsetmask (Z.land m (Z.lnot (Z.shiftl 1 irq))).

Definition picinit : M mach unit :=
  outb (IO_PIC1 + 1) 0xFF;;
  outb (IO_PIC2 + 1) 0xFF;;
  outb IO_PIC1 0x11;;
  outb (IO_PIC1 + 1) T_IRQ0;;
  outb (IO_PIC1 + 1) (Z.shiftl 1 IRQ_SLAVE);;
  outb (IO_PIC1 + 1) 0x3;;
  outb IO_PIC2 0x11;;
  outb (IO_PIC2 + 1) (T_IRQ0 + 8);;
  outb (IO_PIC2 + 1) IRQ_SLAVE;;
  outb (IO_PIC2 + 1) 0x3;;
  outb IO_PIC1 0x68;;
  outb IO_PIC1 0x0a;;
  outb IO_PIC2 0x68;;
  outb IO_PIC2 0x0a;;
  m ← gets irqmask;
  if negb (m =? 0xFFFF) then picsetmask m else mret tt.

(** ** timer.c *)
Definition IO_TIMER1 : Z := 0x40.
Definition TIMER_FREQ : Z := 1193182.
Definition TIMER_DIV (x : Z) : Z := (TIMER_FREQ + x / 2) / x.
Definition TIMER_MODE : Z := IO_TIMER1 + 3.
Definition TIMER_SEL0 : Z := 0.
Definition TIMER_RATEGEN : Z := 4.
Definition TIMER_16BIT : Z := 0x30.

Definition timerinit : M mach unit :=
  outb TIMER_MODE (Z.lor (Z.lor TIMER_SEL0 TIMER_RATEGEN) TIMER_16BIT);;
  outb IO_TIMER1 (TIMER_DIV 100 `mod` 256);;
  outb IO_TIMER1 (TIMER_DIV 100 / 256);;
  picenable IRQ_TIMER.

Section dev.
(** The answer to the [k]-th read. *)
Context (dev : nat → src → Z).

Definition input_from (s : src) : M mach Z :=
  k ← gets nin;
  modify (set_nin (S k));;
  mret (dev k s).
Definition inb (port : Z) : M mach Z := input_from (InPort port).

(** ** ioapic.c *)
Definition REG_ID : Z := 0.
Definition REG_VER : Z := 1.
Definition REG_TABLE : Z := 0x10.
Definition INT_DISABLED : Z := 0x10000.

Definition ioapicread (reg : Z) : M mach Z := input_from (IoReg reg).
Definition ioapicwrite (reg data : Z) : M mach unit := emit (IoW reg (u32 data)).

Definition ioapicinit : M mach unit :=
  mp ← gets ismp;
  if negb mp then mret tt else
  v ← ioapicread REG_VER;
  let maxintr := Z.land (Z.shiftr v 16) 0xFF in
  r ← ioapicread REG_ID;
  let id := Z.shiftr r 24 in
  want ← gets ioapicid;
  (if negb (id =? want) then emit (Cprintf "ioapicinit: id isn't equal to ioapicid; not a MP") else mret tt);;
  forM (Z.of_nat <$> seq 0 (Z.to_nat maxintr + 1)) (λ i,
    ioapicwrite (REG_TABLE + 2 * i) (Z.lor INT_DISABLED (T_IRQ0 + i));;
    ioapicwrite (REG_TABLE + 2 * i + 1) 0).

Definition ioapicenable (irq cpunum : Z) : M mach unit :=
  mp ← gets ismp;
  if negb mp then mret tt else
  ioapicwrite (REG_TABLE + 2 * irq) (T_IRQ0 + irq);;
  ioapicwrite (REG_TABLE + 2 * irq + 1) (Z.shiftl cpunum 24).

(** ** lapic.c *)
Definition ID : Z := 0x20 / 4.
Definition VER : Z := 0x30 / 4.
Definition TPR : Z := 0x80 / 4.
Definition EOI : Z := 0xB0 / 4.
Definition SVR : Z := 0xF0 / 4.
Definition ENABLE : Z := 0x100.
Definition ESR : Z := 0x280 / 4.
Definition ICRLO : Z := 0x300 / 4.
Definition INIT : Z := 0x500.
Definition STARTUP : Z := 0x600.
Definition DELIVS : Z := 0x1000.
Definition ASSERT : Z := 0x4000.
Definition LEVEL : Z := 0x8000.
Definition BCAST : Z := 0x80000.
Definition ICRHI : Z := 0x310 / 4.
Definition TIMER : Z := 0x320 / 4.
Definition X1 : Z := 0xB.
Definition PERIODIC : Z := 0x20000.
Definition PCINT : Z := 0x340 / 4.
Definition LINT0 : Z := 0x350 / 4.
Definition LINT1 : Z := 0x360 / 4.
Definition ERROR : Z := 0x370 / 4.
Definition MASKED : Z := 0x10000.
Definition TICR : Z := 0x380 / 4.
Definition TDCR : Z := 0x3E0 / 4.

(** A write, and a read that waits for it. *)
Definition lapicw (index value : Z) : M mach unit :=
  emit (LapW index (u32 value));;
  input_from (LapReg ID);;
  mret tt.

Fixpoint wait_delivs (fuel : nat) : M mach unit :=
  match fuel with
  | O => stopM NoFuel
  | S fuel' =>
      v ← input_from (LapReg ICRLO);
      if negb (Z.land v DELIVS =? 0) then wait_delivs fuel' else mret tt
  end.

Definition lapicinit (fuel : nat) : M mach unit :=
  p ← gets lapic;
  if negb p then mret tt else
  lapicw SVR (Z.lor ENABLE (T_IRQ0 + IRQ_SPURIOUS));;
  lapicw TDCR X1;;
  lapicw TIMER (Z.lor PERIODIC (T_IRQ0 + IRQ_TIMER));;
  lapicw TICR 10000000;;
  lapicw LINT0 MASKED;;
  lapicw LINT1 MASKED;;
  v ← input_from (LapReg VER);
  (if 4 <=? Z.land (Z.shiftr v 16) 0xFF then lapicw PCINT MASKED else mret tt);;
  lapicw ERROR (T_IRQ0 + IRQ_ERROR);;
  lapicw ESR 0;;
  lapicw ESR 0;;
  lapicw EOI 0;;
  lapicw ICRHI 0;;
  lapicw ICRLO (Z.lor (Z.lor BCAST INIT) LEVEL);;
  wait_delivs fuel;;
  lapicw TPR 0.

(** [ifl]: whether interrupts are enabled. *)
Definition cpunum (ifl : bool) : M mach Z :=
  (if (ifl : bool) then
    n ← gets cpu_n;
    modify (set_cpu_n (n + 1));;
    if n =? 0 then emit (Cprintf "cpu called with interrupts enabled") else mret tt
  else mret tt : M mach unit);;
  p ← gets lapic;
  if (p : bool) then v ← input_from (LapReg ID); mret (Z.shiftr v 24) else mret 0.

Definition lapiceoi : M mach unit :=
  p ← gets lapic;
  if (p : bool) then lapicw EOI 0 else mret tt.

Definition IO_RTC : Z := 0x70.
Definition WARM_RESET : Z := 0x80000000 + Z.lor (Z.shiftl 0x40 4) 0x67.

Definition lapicstartap (apicid addr : Z) : M mach unit :=
  outb IO_RTC 0xF;;
  outb (IO_RTC + 1) 0x0A;;
  emit (Wr16 WARM_RESET 0);;
  emit (Wr16 (WARM_RESET + 2) (u16 (Z.shiftr addr 4)));;
  lapicw ICRHI (Z.shiftl apicid 24);;
  lapicw ICRLO (Z.lor (Z.lor INIT LEVEL) ASSERT);;
  lapicw ICRLO (Z.lor INIT LEVEL);;
  forM [0; 1] (λ _,
    lapicw ICRHI (Z.shiftl apicid 24);;
    lapicw ICRLO (Z.lor STARTUP (Z.shiftr addr 12))).

(** ** uart.c *)
Definition COM1 : Z := 0x3f8.

(** The wait of [uartputc] for the transmitter, 128 times at most. *)
Fixpoint uart_wait (n : nat) : M mach unit :=
  match n with
  | O => mret tt
  | S n' => s ← inb (COM1 + 5); if Z.land s 0x20 =? 0 then uart_wait n' else mret tt
  end.

Definition uartputc (c : Z) : M mach unit :=
  u ← gets uart;
  if negb u then mret tt else
  uart_wait 128;;
  outb (COM1 + 0) c.

Definition uartgetc : M mach Z :=
  u ← gets uart;
  if negb u then mret (-1) else
  s ← inb (COM1 + 5);
  if Z.land s 0x01 =? 0 then mret (-1) else inb (COM1 + 0).

(** "xv6..." and a line end *)
Definition banner : list Z := [120; 118; 54; 46; 46; 46; 10].

Definition uartinit : M mach unit :=
  outb (COM1 + 2) 0;;
  outb (COM1 + 3) 0x80;;
  outb (COM1 + 0) (115200 / 9600);;
  outb (COM1 + 1) 0;;
  outb (COM1 + 3) 0x03;;
  outb (COM1 + 4) 0;;
  outb (COM1 + 1) 0x01;;
  s ← inb (COM1 + 5);
  if s =? 0xFF then mret tt else
  modify (set_uart true);;
  inb (COM1 + 2);;
  inb (COM1 + 0);;
  picenable IRQ_COM1;;
  ioapicenable IRQ_COM1 0;;
  forM banner uartputc.

(** ** The start of the disk (ide.c) *)

Fixpoint idewait (fuel : nat) (checkerr : bool) : M mach Z :=
  match fuel with
  | O => stopM NoFuel
  | S fuel' =>
      r ← inb 0x1f7;
      if negb (Z.land r (Z.lor IDE_BSY IDE_DRDY) =? IDE_DRDY) then idewait fuel' checkerr
      else if checkerr && negb (Z.land r (Z.lor IDE_DF IDE_ERR) =? 0) then mret (-1) else mret 0
  end.

(** The second disk is there when its status is not zero in [n] reads. *)
Fixpoint probe_disk1 (n : nat) : M mach bool :=
  match n with
  | O => mret false
  | S n' => r ← inb 0x1f7; if negb (r =? 0) then mret true else probe_disk1 n'
  end.

(** [havedisk1] is the result. *)
Definition ideinit (fuel : nat) (ncpu : Z) : M mach bool :=
  picenable IRQ_IDE;;
  ioapicenable IRQ_IDE (ncpu - 1);;
  idewait fuel false;;
  outb 0x1f6 (Z.lor 0xe0 (Z.shiftl 1 4));;
  h ← probe_disk1 1000;
  outb 0x1f6 (Z.lor 0xe0 (Z.shiftl 0 4));;
  mret h.

(** The characters that [consoleintr] takes in [uartintr]. *)
Fixpoint uart_chars (fuel : nat) : M mach (list Z) :=
  match fuel with
  | O => stopM NoFuel
  | S fuel' =>
      c ← uartgetc;
      if c <? 0 then mret [] else l ← uart_chars fuel'; mret (c :: l)
  end.

End dev.

(** ** The 8259A

    A controller with its vector offset, the lines of its neighbour and the mask.
    A write with bit 4 set to the first port starts the initialisation, which
    takes the next three writes to the second port; otherwise a write to the
    second port sets the mask. *)
Record pic := mkPic { p_step : nat; p_base : Z; p_lines : Z; p_mode : Z; p_mask : Z }.

Definition pic_write (base : Z) (p : pic) (e : ev) : pic :=
  match e with
  | Out port v =>
      if port =? base then
        if Z.testbit v 4 then mkPic 1 (p_base p) (p_lines p) (p_mode p) 0 else p
      else if port =? base + 1 then
        match p_step p with
        | 1%nat => mkPic 2 v (p_lines p) (p_mode p) (p_mask p)
        | 2%nat => mkPic 3 (p_base p) v (p_mode p) (p_mask p)
        | 3%nat => mkPic 0 (p_base p) (p_lines p) v (p_mask p)
        | _ => mkPic 0 (p_base p) (p_lines p) (p_mode p) v
        end
      else p
  | _ => p
  end.
Definition pic_state (base : Z) (p : pic) (l : list ev) : pic := foldl (pic_write base) p l.

(** Whether the controllers let an interrupt through. *)
Definition unmasked (m s : pic) (irq : Z) : bool :=
  if irq <? 8 then negb (Z.testbit (p_mask m) irq) else negb (Z.testbit (p_mask s) (irq - 8)) && negb (Z.testbit (p_mask m) IRQ_SLAVE).

(** The redirection table: the last value written to a register. *)
Definition io_write (f : Z → option Z) (e : ev) : Z → option Z :=
  match e with IoW r v => λ x, if x =? r then Some v else f x | _ => f end.
Definition io_regs (f : Z → option Z) (l : list ev) : Z → option Z := foldl io_write f l.

(** A driver enables its interrupt in both controllers. *)
Definition enable_irq (r : Z * Z) : M mach unit := picenable r.1;; ioapicenable r.1 r.2.

Section routes.
Context (p1 p2 : pic) (f0 : Z → option Z) (maxintr : Z).

(** What the controllers have after the writes, for a set of routes. *)
Definition routed (rt : gmap Z Z) (m : mach) : Prop :=
  ismp m = true ∧ 0 ≤ irqmask m < 2 ^ 16 ∧
  (∀ i, 0 ≤ i < 16 → Z.testbit (irqmask m) i = negb ((i =? 2) || bool_decide (is_Some (rt !! i)))) ∧
  pic_state IO_PIC1 p1 (io m) = mkPic 0 32 4 3 (irqmask m `mod` 256) ∧
  pic_state IO_PIC2 p2 (io m) = mkPic 0 40 2 3 (irqmask m / 256) ∧
  (∀ i, 0 ≤ i ≤ maxintr → io_regs f0 (io m) (REG_TABLE + 2 * i) =
     Some (if bool_decide (is_Some (rt !! i)) then T_IRQ0 + i else Z.lor INT_DISABLED (T_IRQ0 + i)) ∧
   io_regs f0 (io m) (REG_TABLE + 2 * i + 1) = Some (match rt !! i with Some c => Z.shiftl c 24 | None => 0 end)).

(** One more write to each controller. *)
Lemma routed_enable rt m irq cpu : routed rt m → 0 ≤ irq < 16 → irq ≤ maxintr → 0 ≤ cpu < 256 →
  wp (enable_irq (irq, cpu)) (λ _ m', routed (<[irq := cpu]> rt) m') m.
Proof.
  intros (Hmp & Hb & Hbits & H1 & H2 & Ht) Hirq Hmax Hcpu.
  set (k := Z.land (irqmask m) (Z.lnot (Z.shiftl 1 irq))).
  assert (Hk : 0 ≤ k < 2 ^ 16). { assert (0 ≤ k) by (apply Z.land_nonneg; lia). split; [done|]. apply Z.bounded_iff_bits_nonneg; [lia|done|]. intros l Hl.
    unfold k. rewrite Z.land_spec. rewrite (proj1 (Z.bounded_iff_bits_nonneg 16 (irqmask m) ltac:(lia) ltac:(lia))) by lia. done. }
  assert (Ek : ∀ i, 0 ≤ i → Z.testbit k i = Z.testbit (irqmask m) i && negb (i =? irq)).
  { intros i Hi. unfold k. rewrite Z.land_spec, Z.lnot_spec by lia. f_equal. f_equal.
    rewrite Z.shiftl_spec by lia. destruct (Z.eqb_spec i irq) as [-> |]; [by rewrite Z.sub_diag|].
    destruct (decide (i < irq)); [by rewrite Z.testbit_neg_r by lia|]. apply (Z.bits_above_log2 1); [lia|]. cbn. lia. }
  unfold enable_irq, picenable. cbn [fst snd]. apply wp_bind, wp_bind, wp_gets. fold k. unfold picsetmask. rewrite u16_small by done.
  do 2 (apply wp_bind, wp_modify). apply wp_modify. unfold ioapicenable. apply wp_bind, wp_gets. cbn [ismp on_io set_irqmask]. rewrite Hmp. cbn [negb].
  apply wp_bind, wp_modify, wp_modify. unfold routed. cbn [ismp on_io set_irqmask irqmask io].
  rewrite <-!app_assoc. cbn [app]. unfold pic_state, io_regs in *. rewrite !foldl_app. split; [done|]. split; [done|].
  split_and!.
  - intros i Hi. rewrite Ek, Hbits by lia. destruct (Z.eqb_spec i irq) as [-> |Hne].
    + rewrite lookup_insert_eq, (bool_decide_true (is_Some (Some cpu))) by done. by rewrite andb_false_r, orb_true_r.
    + rewrite lookup_insert_ne by done. by rewrite andb_true_r.
  - rewrite H1. done.
  - rewrite H2. cbn [foldl pic_write]. cbn -[Z.shiftr u8]. f_equal. rewrite Z.shiftr_div_pow2 by lia. unfold u8. apply Z.mod_small.
    split; [apply Z.div_pos; lia|apply Z.div_lt_upper_bound; lia].
  - intros i Hi. cbn [foldl io_write]. destruct (Ht i Hi) as [Ha Hc]. unfold REG_TABLE, T_IRQ0 in *.
    destruct (decide (i = irq)) as [-> |Hne].
    + rewrite lookup_insert_eq, (bool_decide_true (is_Some (Some cpu))) by done.
      rewrite (u32_small (32 + irq)), (u32_small (Z.shiftl cpu 24)) by (rewrite ?Z.shiftl_mul_pow2; lia).
      repeat match goal with |- context [?a =? ?b] => destruct (Z.eqb_spec a b); try lia end. done.
    + rewrite lookup_insert_ne by done. rewrite <-Ha, <-Hc.
      repeat match goal with |- context [?a =? ?b] => destruct (Z.eqb_spec a b); try lia end. done.
Qed.

Lemma routes_enable rts : ∀ rt m, routed rt m → Forall (λ r, 0 ≤ r.1 < 16 ∧ r.1 ≤ maxintr ∧ 0 ≤ r.2 < 256) rts →
  wp (forM rts enable_irq) (λ _ m', routed (foldl (λ t r, <[r.1 := r.2]> t) rt rts) m') m.
Proof.
  induction rts as [|[irq cpu] rts IH]; intros rt m Hr Hf; [by apply wp_ret|]. apply Forall_cons in Hf as [(Hi & Hm & Hc) Hf].
  cbn [fst snd] in Hi, Hm, Hc. cbn [forM foldl fst snd]. apply wp_bind.
  eapply wp_mono; [apply (routed_enable rt m irq cpu); done|]. intros [] m' Hr'. by apply IH.
Qed.

(** The writes of the loop of [ioapicinit]. *)
Definition table_writes (i : Z) : list ev :=
  [IoW (REG_TABLE + 2 * i) (u32 (Z.lor INT_DISABLED (T_IRQ0 + i))); IoW (REG_TABLE + 2 * i + 1) (u32 0)].

Lemma ioapic_loop l : ∀ m, wp (forM l (λ i,
    ioapicwrite (REG_TABLE + 2 * i) (Z.lor INT_DISABLED (T_IRQ0 + i));;
    ioapicwrite (REG_TABLE + 2 * i + 1) 0)) (λ _ m', m' = on_io (λ o, o ++ (l ≫= table_writes)) m) m.
Proof.
  induction l as [|i l IH]; intros m; cbn [forM].
  - apply wp_ret. destruct m. unfold on_io. cbn. by rewrite app_nil_r.
  - do 2 apply wp_bind. apply wp_modify, wp_modify. eapply wp_mono; [apply IH|]. intros [] m' ->. destruct m. unfold on_io. cbn. by rewrite <-!app_assoc.
Qed.

Lemma pic_writes_io base p l : foldl (pic_write base) p (l ≫= table_writes) = p.
Proof. induction l as [|i l IH]; [done|]. exact IH. Qed.

(** Values of the initial table. *)
Lemma lor_disabled i : 0 ≤ i < 256 → 0 ≤ Z.lor INT_DISABLED (T_IRQ0 + i) < 2 ^ 32.
Proof.
  intros Hi. assert (0 ≤ Z.lor INT_DISABLED (T_IRQ0 + i)) by (apply Z.lor_nonneg; unfold INT_DISABLED, T_IRQ0; lia). split; [done|].
  apply Z.bounded_iff_bits_nonneg; [lia|done|]. intros k Hk. rewrite Z.lor_spec.
  rewrite (proj1 (Z.bounded_iff_bits_nonneg 32 INT_DISABLED ltac:(lia) ltac:(unfold INT_DISABLED; lia))), (proj1 (Z.bounded_iff_bits_nonneg 32 (T_IRQ0 + i) ltac:(lia) ltac:(unfold T_IRQ0; lia)));
    unfold INT_DISABLED, T_IRQ0; done || lia.
Qed.

Lemma table_spec n : ∀ k g i, 0 ≤ i < Z.of_nat (k + n) → (k + n <= 256)%nat →
  (i < Z.of_nat k → g (REG_TABLE + 2 * i) = Some (Z.lor INT_DISABLED (T_IRQ0 + i)) ∧ g (REG_TABLE + 2 * i + 1) = Some 0) →
  let h := io_regs g ((Z.of_nat <$> seq k n) ≫= table_writes) in
  h (REG_TABLE + 2 * i) = Some (Z.lor INT_DISABLED (T_IRQ0 + i)) ∧ h (REG_TABLE + 2 * i + 1) = Some 0.
Proof.
  induction n as [|n IH]; intros k g i Hi Hk Hg; cbn [seq fmap list_fmap mbind list_bind].
  - apply Hg. lia.
  - cbn zeta. unfold io_regs. rewrite foldl_app. apply (IH (S k)); [lia|lia|]. intros Hi'. cbn [table_writes foldl io_write].
    unfold REG_TABLE in *. destruct (decide (i = Z.of_nat k)) as [-> |Hne].
    + rewrite (u32_small (Z.lor _ _)) by (apply lor_disabled; lia).
      repeat match goal with |- context [?a =? ?b] => destruct (Z.eqb_spec a b); try lia end. done.
    + repeat match goal with |- context [?a =? ?b] => destruct (Z.eqb_spec a b); try lia end. apply Hg. lia.
Qed.

End routes.

Definition mach0 (mp : bool) (id : Z) (lap : bool) : mach := mkMach irqmask0 mp id lap false 0 0 [].

Lemma init_routed dev p1 p2 f0 id lap : 
  let maxintr := Z.land (Z.shiftr (dev O (IoReg REG_VER)) 16) 0xFF in
  wp (picinit;; ioapicinit dev) (λ _ m, routed p1 p2 f0 maxintr ∅ m) (mach0 true id lap).
Proof.
  intros maxintr. assert (Hmax : 0 ≤ maxintr < 256).
  { unfold maxintr. change 0xFF with (Z.ones 8). rewrite Z.land_ones by lia. apply Z.mod_pos_bound. lia. }
  apply wp_bind. set (m1 := on_io (λ _, [Out 33 255; Out 161 255; Out 32 17; Out 33 32; Out 33 4; Out 33 3; Out 160 17; Out 161 40; Out 161 2; Out 161 3;
    Out 32 104; Out 32 10; Out 160 104; Out 160 10; Out 33 251; Out 161 255]) (mach0 true id lap)).
  assert (E : picinit (mach0 true id lap) = Ok tt m1) by reflexivity. unfold wp at 1. rewrite E.
  unfold ioapicinit. apply wp_bind, wp_gets. cbn [m1 on_io mach0 ismp negb].
  do 2 apply wp_bind. apply wp_gets, wp_bind, wp_modify, wp_ret. fold maxintr. do 2 apply wp_bind. apply wp_gets, wp_bind, wp_modify, wp_ret, wp_bind, wp_gets, wp_bind.
  set (m2 := set_nin _ _). set (l := (Z.of_nat <$> seq 0 (Z.to_nat maxintr + 1)) ≫= table_writes).
  assert (Hfin : ∀ m, ismp m = true → irqmask m = irqmask0 → (∃ o, Forall (λ e, ∃ t, e = Cprintf t) o ∧ io m = io m1 ++ o) →
    wp (forM (Z.of_nat <$> seq 0 (Z.to_nat maxintr + 1)) (λ i,
      ioapicwrite (REG_TABLE + 2 * i) (Z.lor INT_DISABLED (T_IRQ0 + i));; ioapicwrite (REG_TABLE + 2 * i + 1) 0))
      (λ _ m', routed p1 p2 f0 maxintr ∅ m') m).
  { intros m Hm1 Hm2 (o & Ho & Hm3). eapply wp_mono; [apply ioapic_loop|]. intros [] m' ->. fold l. unfold routed. cbn [on_io ismp irqmask io].
    rewrite Hm1, Hm2, Hm3. unfold pic_state. rewrite !foldl_app.
    assert (Ho' : ∀ b p, foldl (pic_write b) p o = p) by (clear -Ho; intros b; induction Ho as [|e o' [t ->] _ IH]; intros p; [done|apply IH]).
    rewrite !Ho'. unfold l. rewrite !pic_writes_io. split_and!; try done.
    - intros i Hi. rewrite lookup_empty, bool_decide_false by (intros [? ?]; done).
      assert (Hin : i ∈ Z.of_nat <$> seq 0 16) by (apply list_elem_of_fmap; exists (Z.to_nat i); split; [lia|apply elem_of_seq; lia]).
      vm_compute in Hin. repeat (apply elem_of_cons in Hin as [-> |Hin]; [reflexivity|]). by apply elem_of_nil in Hin.
    - intros i Hi. rewrite lookup_empty, bool_decide_false by (intros [? ?]; done). unfold io_regs. rewrite foldl_app.
      apply table_spec; lia. }
  destruct (negb (_ =? _)).
  - apply wp_modify, Hfin; [done|done|]. eexists. split; [by apply Forall_singleton; eexists|done].
  - apply wp_ret, Hfin; [done|done|]. exists []. split; [constructor|done].
Qed.

(** C28: After [picinit] and [ioapicinit], and after any drivers have enabled
    their interrupts, an interrupt line is let through by the two 8259A exactly
    when a driver enabled it (or it is the line of the second controller), the
    controllers raise vectors 32 to 47, and in the redirection table exactly the
    enabled interrupts are on, with their vector and the chosen processor; all
    others are disabled. *)
Theorem interrupts_routed dev p1 p2 f0 id lap rts :
  let maxintr := Z.land (Z.shiftr (dev O (IoReg REG_VER)) 16) 0xFF in
  let rt := foldl (λ t r, <[r.1 := r.2]> t) (∅ : gmap Z Z) rts in
  Forall (λ r, 0 ≤ r.1 < 16 ∧ r.1 ≤ maxintr ∧ 0 ≤ r.2 < 256) rts →
  ∃ m, (picinit;; ioapicinit dev;; forM rts enable_irq) (mach0 true id lap) = Ok tt m ∧
    let P := pic_state IO_PIC1 p1 (io m) in let Q := pic_state IO_PIC2 p2 (io m) in
    p_base P = T_IRQ0 ∧ p_base Q = T_IRQ0 + 8 ∧
    (∀ irq, 0 ≤ irq < 16 → unmasked P Q irq = true ↔ irq = IRQ_SLAVE ∨ is_Some (rt !! irq)) ∧
    (∀ i, 0 ≤ i ≤ maxintr → io_regs f0 (io m) (REG_TABLE + 2 * i) =
        Some (if bool_decide (is_Some (rt !! i)) then T_IRQ0 + i else Z.lor INT_DISABLED (T_IRQ0 + i)) ∧
      io_regs f0 (io m) (REG_TABLE + 2 * i + 1) = Some (match rt !! i with Some c => Z.shiftl c 24 | None => 0 end)).
Proof.
  intros maxintr rt Hf.
  assert (Hw : wp (picinit;; ioapicinit dev;; forM rts enable_irq) (λ _ m, routed p1 p2 f0 maxintr rt m) (mach0 true id lap)).
  { pose proof (init_routed dev p1 p2 f0 id lap) as Hi. cbn zeta in Hi. fold maxintr in Hi. apply wp_bind_inv in Hi.
    apply wp_bind. eapply wp_mono; [exact Hi|]. intros [] m1 H1. apply wp_bind. eapply wp_mono; [exact H1|]. intros [] m2 H2.
    by apply routes_enable. }
  apply wp_Ok in Hw as ([] & m & Hrun & _ & Hb & Hbits & H1 & H2 & Ht). exists m. split; [exact Hrun|].
  cbn zeta. rewrite H1, H2. cbn [p_base]. split; [done|]. split; [done|]. split; [|exact Ht].
  intros irq Hirq. unfold unmasked. cbn [p_mask].
  assert (Hbit : ∀ i, 0 ≤ i < 16 → negb (Z.testbit (irqmask m) i) = true ↔ i = IRQ_SLAVE ∨ is_Some (rt !! i)).
  { intros i Hi. rewrite Hbits, negb_involutive, orb_true_iff, Z.eqb_eq, bool_decide_eq_true by done. done. }
  change 256 with (2 ^ 8). destruct (Z.ltb_spec irq 8).
  - rewrite Z.mod_pow2_bits_low by lia. by apply Hbit.
  - rewrite (Z.mod_pow2_bits_low _ 8 IRQ_SLAVE) by (unfold IRQ_SLAVE; lia). rewrite Z.div_pow2_bits by lia. replace (irq - 8 + 8) with irq by lia.
    rewrite andb_true_iff, (Hbit irq Hirq), (Hbit IRQ_SLAVE ltac:(unfold IRQ_SLAVE; lia)). tauto.
Qed.

(** The keyboard, the serial port and the disk. *)
Lemma interrupts_routed_witness :
  ∃ m, (picinit;; ioapicinit (λ _ _, 0x170011);; forM [(IRQ_KBD, 0); (IRQ_COM1, 0); (IRQ_IDE, 1)] enable_irq) (mach0 true 0 true) = Ok tt m ∧
    unmasked (pic_state IO_PIC1 (mkPic 0 0 0 0 0) (io m)) (pic_state IO_PIC2 (mkPic 0 0 0 0 0) (io m)) IRQ_IDE = true ∧
    io_regs (λ _, None) (io m) (REG_TABLE + 2 * IRQ_IDE) = Some 46.
Proof.
  destruct (interrupts_routed (λ _ _, 0x170011) (mkPic 0 0 0 0 0) (mkPic 0 0 0 0 0) (λ _, None) 0 true
    [(IRQ_KBD, 0); (IRQ_COM1, 0); (IRQ_IDE, 1)]) as (m & Hm & _ & _ & Hu & Ht).
  - repeat (apply Forall_cons; split; [vm_compute; intuition congruence|]). apply Forall_nil. exact I.
  - exists m. split; [exact Hm|]. split; [|apply (Ht IRQ_IDE); vm_compute; intuition congruence].
    apply (Hu IRQ_IDE); [vm_compute; intuition congruence|]. right. vm_compute. exists 1. reflexivity.
Defined.
