(* ===== verification/Mp.v ===== *)
(** * The multiprocessor tables (mp.c, mp.h)

    The BIOS leaves a structure in memory that says where the table of
    processors is. [mem] is the memory, by physical address; the globals that
    [mpinit] sets are its state. *)

From S2P Require Import Prelude.

(** The globals, the identifiers of [cpus] and the writes to the IMCR. *)
Record mpstate := mkMp {
  bcpu : nat; mp_ismp : bool; ncpu : nat; mp_ioapicid : Z; mp_lapic : Z; cpu_ids : list Z; imcr : list (Z * Z) }.

Definition NCPU : nat := 8.
Definition mp0 : mpstate := mkMp 0 false 0 0 0 (replicate NCPU 0) [].

Definition set_ismp (b : bool) (s : mpstate) := mkMp (bcpu s) b (ncpu s) (mp_ioapicid s) (mp_lapic s) (cpu_ids s) (imcr s).
Definition set_lapic (a : Z) (s : mpstate) := mkMp (bcpu s) (mp_ismp s) (ncpu s) (mp_ioapicid s) a (cpu_ids s) (imcr s).
Definition set_ioapicid (a : Z) (s : mpstate) := mkMp (bcpu s) (mp_ismp s) (ncpu s) a (mp_lapic s) (cpu_ids s) (imcr s).
Definition set_bcpu (n : nat) (s : mpstate) := mkMp n (mp_ismp s) (ncpu s) (mp_ioapicid s) (mp_lapic s) (cpu_ids s) (imcr s).
Definition set_imcr (l : list (Z * Z)) (s : mpstate) := mkMp (bcpu s) (mp_ismp s) (ncpu s) (mp_ioapicid s) (mp_lapic s) (cpu_ids s) l.
(** [cpus[ncpu].id = ncpu; ncpu++] *)
Definition add_cpu (s : mpstate) :=
  mkMp (bcpu s) (mp_ismp s) (S (ncpu s)) (mp_ioapicid s) (mp_lapic s) (<[ncpu s := Z.of_nat (ncpu s)]> (cpu_ids s)) (imcr s).

Definition mpbcpu (s : mpstate) : nat := bcpu s.

Definition MPPROC : Z := 0.
Definition MPBUS : Z := 1.
Definition MPIOAPIC : Z := 2.
Definition MPIOINTR : Z := 3.
Definition MPLINTR : Z := 4.
Definition MPBOOT : Z := 2.
(** The sizes of the structures. *)
Definition sz_mp : Z := 16.
Definition sz_mpconf : Z := 44.
Definition sz_mpproc : Z := 20.
Definition sz_mpioapic : Z := 8.

Section mp.
Context (mem : Z → Z).

Definition rd16 (a : Z) : Z := mem a + 256 * mem (a + 1).
Definition rd32 (a : Z) : Z := rd16 a + 65536 * rd16 (a + 2).
(** [memcmp] with the four bytes of a signature. *)
Definition sig4 (a : Z) (s : list Z) : bool := bool_decide ((λ i, mem (a + i)) <$> [0; 1; 2; 3] = s).

(** [sum]: the checksum of [len] bytes. *)
Fixpoint sum_loop (a : Z) (len : nat) (acc : Z) : Z :=
  match len with O => acc | S len' => sum_loop (a + 1) len' (acc + mem a) end.
Definition sum (a : Z) (len : Z) : Z := u8 (sum_loop a (Z.to_nat len) 0).

Definition MP_SIG : list Z := [95; 77; 80; 95].
Definition PCMP_SIG : list Z := [80; 67; 77; 80].

(** The search in steps of the structure's size. *)
Fixpoint mpsearch_loop (n : nat) (p : Z) : option Z :=
  match n with
  | O => None
  | S n' => if sig4 p MP_SIG && (sum p sz_mp =? 0) then Some p else mpsearch_loop n' (p + sz_mp)
  end.
Definition mpsearch1 (a len : Z) : option Z := mpsearch_loop (Z.to_nat ((len + sz_mp - 1) / sz_mp)) a.

Definition mpsearch : option Z :=
  let bda := 0x400 in
  let p := Z.shiftl (Z.lor (Z.shiftl (mem (bda + 0x0F)) 8) (mem (bda + 0x0E))) 4 in
  if negb (p =? 0) then
    match mpsearch1 p 1024 with Some mp => Some mp | None => mpsearch1 0xF0000 0x10000 end
  else
    let p := Z.lor (Z.shiftl (mem (bda + 0x14)) 8) (mem (bda + 0x13)) * 1024 in
    match mpsearch1 (u32 (p - 1024)) 1024 with Some mp => Some mp | None => mpsearch1 0xF0000 0x10000 end.

(** The fields of the structures. *)
Definition mp_physaddr (mp : Z) : Z := rd32 (mp + 4).
Definition mp_imcrp (mp : Z) : Z := mem (mp + 12).
Definition conf_length (c : Z) : Z := rd16 (c + 4).
Definition conf_version (c : Z) : Z := mem (c + 6).
Definition conf_lapicaddr (c : Z) : Z := rd32 (c + 36).

Definition mpconfig : option (Z * Z) :=
  match mpsearch with
  | None => None
  | Some mp =>
      if mp_physaddr mp =? 0 then None else
      let conf := mp_physaddr mp in
      if negb (sig4 conf PCMP_SIG) then None
      else if negb (conf_version conf =? 1) && negb (conf_version conf =? 4) then None
      else if negb (sum conf (conf_length conf) =? 0) then None
      else Some (mp, conf)
  end.

(** The loop over the entries; an entry of an unknown type is not skipped. *)
Fixpoint mpinit_loop (fuel : nat) (p e : Z) : M mpstate unit :=
  match fuel with
  | O => stopM NoFuel
  | S fuel' =>
      if negb (p <? e) then mret tt else
      let t := mem p in
      if t =? MPPROC then
        n ← gets ncpu;
        (if negb (Z.of_nat n =? mem (p + 1)) then modify (set_ismp false) else mret tt);;
        (if negb (Z.land (mem (p + 3)) MPBOOT =? 0) then modify (set_bcpu n) else mret tt);;
        if (n <? NCPU)%nat then modify add_cpu;; mpinit_loop fuel' (p + sz_mpproc) e else undef
      else if t =? MPIOAPIC then
        modify (set_ioapicid (mem (p + 1)));;
        mpinit_loop fuel' (p + sz_mpioapic) e
      else if (t =? MPBUS) || (t =? MPIOINTR) || (t =? MPLINTR) then mpinit_loop fuel' (p + 8) e
      else modify (set_ismp false);; mpinit_loop fuel' p e
  end.

(** [in23]: what port 0x23 answers. *)
Definition mpinit (in23 : Z) (fuel : nat) : M mpstate unit :=
  modify (set_bcpu 0);;
  match mpconfig with
  | None => mret tt
  | Some (mp, conf) =>
      modify (set_ismp true);;
      modify (set_lapic (conf_lapicaddr conf));;
      mpinit_loop fuel (conf + sz_mpconf) (conf + conf_length conf);;
      s ← getM;
      if negb (mp_ismp s) then
        putM (mkMp (bcpu s) false 1 0 0 (cpu_ids s) (imcr s))
      else if negb (mp_imcrp mp =? 0) then
        modify (set_imcr (imcr s ++ [(0x22, 0x70); (0x23, Z.lor in23 1)]))
      else mret tt
  end.

End mp.

(** ** The table, from its entries *)
Inductive mpentry :=
| EProc (apicid version flags : Z) (rest : list Z)
| EIoapic (apicno : Z) (rest : list Z)
| EOther (type : Z) (rest : list Z).

Definition enc (e : mpentry) : list Z :=
  match e with
  | EProc a v f r => [MPPROC; a; v; f] ++ r
  | EIoapic n r => [MPIOAPIC; n] ++ r
  | EOther t r => t :: r
  end.
Definition entry_ok (e : mpentry) : Prop :=
  match e with
  | EProc _ _ _ r => length r = 16%nat
  | EIoapic _ r => length r = 6%nat
  | EOther t r => length r = 7%nat ∧ t ∈ [MPBUS; MPIOINTR; MPLINTR]
  end.

(** The processors with their flags, and the last I/O APIC. *)
Definition procs (es : list mpentry) : list (Z * Z) :=
  omap (λ e, match e with EProc a _ f _ => Some (a, f) | _ => None end) es.
Definition ioapics (es : list mpentry) : list Z := omap (λ e, match e with EIoapic n _ => Some n | _ => None end) es.
(** The processors that the table marks as the bootstrap processor. *)
Definition boots (n : nat) (ps : list (Z * Z)) : list nat :=
  (λ p, p.1) <$> filter (λ p, Z.land p.2.2 MPBOOT ≠ 0) (zip (seq n (length ps)) ps).

Section entries.
Context (mem : Z → Z).

Definition mem_at (a : Z) (l : list Z) : Prop := ∀ k x, l !! k = Some x → mem (a + Z.of_nat k) = x.

Lemma mem_at_cons a x l : mem_at a (x :: l) → mem a = x ∧ mem_at (a + 1) l.
Proof.
  intros H. split; [by rewrite <-(H 0%nat x eq_refl), Z.add_0_r|]. intros k y Hk. rewrite <-(H (S k) y Hk). f_equal. lia.
Qed.
Lemma mem_at_app a l l' : mem_at a (l ++ l') → mem_at a l ∧ mem_at (a + Z.of_nat (length l)) l'.
Proof.
  intros H. split.
  - intros k x Hk. apply H. by apply lookup_app_l_Some.
  - intros k x Hk. rewrite <-(H (length l + k)%nat x); [f_equal; lia|]. rewrite lookup_app_r by lia. by replace (length l + k - length l)%nat with k by lia.
Qed.

(** What the loop leaves, for the entries that are still to come. *)
Definition loop_post (es : list mpentry) (s s' : mpstate) : Prop :=
  ncpu s' = (ncpu s + length (procs es))%nat ∧
  mp_ismp s' = mp_ismp s && bool_decide ((procs es).*1 = Z.of_nat <$> seq (ncpu s) (length (procs es))) ∧
  bcpu s' = default (bcpu s) (last (boots (ncpu s) (procs es))) ∧
  mp_ioapicid s' = default (mp_ioapicid s) (last (ioapics es)) ∧
  mp_lapic s' = mp_lapic s ∧ imcr s' = imcr s ∧ length (cpu_ids s') = length (cpu_ids s) ∧
  ((∀ i, (i < ncpu s)%nat → cpu_ids s !! i = Some (Z.of_nat i)) → ∀ i, (i < ncpu s')%nat → cpu_ids s' !! i = Some (Z.of_nat i)).

Lemma default_last {A} (d x : A) l : default d (last (x :: l)) = default x (last l).
Proof. destruct l as [|y l]; [done|]. by rewrite last_cons_cons, (last_cons y l); destruct (last l). Qed.

Lemma boots_cons n a f ps : boots n ((a, f) :: ps) = if negb (Z.land f MPBOOT =? 0) then n :: boots (S n) ps else boots (S n) ps.
Proof. unfold boots. cbn [length seq zip zip_with]. rewrite filter_cons. cbn [fst snd]. by case_decide; destruct (Z.eqb_spec (Z.land f MPBOOT) 0). Qed.

Lemma ids_eq n a ps b : (b && (Z.of_nat n =? a)) && bool_decide (ps.*1 = Z.of_nat <$> seq (S n) (length ps)) =
  b && bool_decide (((a, 0) :: ps).*1 = Z.of_nat <$> seq n (length ((a, 0) :: ps))).
Proof.
  rewrite <-andb_assoc. f_equal. cbn [length seq fmap list_fmap fst]. destruct (Z.eqb_spec (Z.of_nat n) a) as [-> |Hne]; cbn [andb].
  - apply bool_decide_ext. by split; [intros ->|intros [= ->]].
  - symmetry. apply bool_decide_false. congruence.
Qed.

Lemma loop_post_proc s a v f r es s' : 
  let s1 := if negb (Z.of_nat (ncpu s) =? a) then set_ismp false s else s in
  let s2 := if negb (Z.land f MPBOOT =? 0) then set_bcpu (ncpu s) s1 else s1 in
  (ncpu s < length (cpu_ids s))%nat → loop_post es (add_cpu s2) s' → loop_post (EProc a v f r :: es) s s'.
Proof.
  intros s1 s2 Hlt (P1 & P2 & P3 & P4 & P5 & P6 & P7 & P8).
  assert (E : ncpu s2 = ncpu s ∧ mp_ismp s2 = mp_ismp s && (Z.of_nat (ncpu s) =? a) ∧ mp_ioapicid s2 = mp_ioapicid s ∧ mp_lapic s2 = mp_lapic s ∧
    imcr s2 = imcr s ∧ cpu_ids s2 = cpu_ids s ∧ bcpu s2 = if negb (Z.land f MPBOOT =? 0) then ncpu s else bcpu s).
  { unfold s2, s1. destruct (_ =? a), (_ =? 0); cbn; by rewrite ?andb_true_r, ?andb_false_r. }
  clearbody s2. destruct E as (E1 & E2 & E3 & E4 & E5 & E6 & E7). unfold loop_post, add_cpu in *. cbn [ncpu mp_ismp bcpu mp_ioapicid mp_lapic imcr cpu_ids] in *.
  destruct s2. cbn [ncpu mp_ismp bcpu mp_ioapicid mp_lapic imcr cpu_ids] in *. subst. rewrite length_insert in P7.
  change (procs (EProc a v f r :: es)) with ((a, f) :: procs es). change (ioapics (EProc a v f r :: es)) with (ioapics es).
  split; [rewrite P1; cbn [length]; lia|]. split; [rewrite P2; apply (ids_eq (ncpu s) a (procs es))|].
  split; [rewrite P3, boots_cons; destruct (negb (Z.land f MPBOOT =? 0)); by rewrite ?default_last|]. split_and!; try done.
  intros Hids. apply P8. intros i Hi. destruct (decide (i = ncpu s)) as [-> |]; [by rewrite list_lookup_insert_eq|].
  rewrite list_lookup_insert_ne by done. apply Hids. lia.
Qed.

(** One round of the loop, at a processor. *)
Lemma mpinit_loop_proc fuel p e s a f : p < e → mem p = MPPROC → mem (p + 1) = a → mem (p + 3) = f →
  let s1 := if negb (Z.of_nat (ncpu s) =? a) then set_ismp false s else s in
  let s2 := if negb (Z.land f MPBOOT =? 0) then set_bcpu (ncpu s) s1 else s1 in
  mpinit_loop mem (S fuel) p e s =
    if (ncpu s <? NCPU)%nat then mpinit_loop mem fuel (p + sz_mpproc) e (add_cpu s2) else Err Undef s2.
Proof.
  intros Hp Ht <- <- s1 s2. cbn [mpinit_loop]. rewrite (proj2 (Z.ltb_lt p e) Hp), Ht. unfold s2, s1, mbind, M_bind, gets.
  cbn [negb Z.eqb MPPROC]. destruct (Z.of_nat (ncpu s) =? mem (p + 1)), (Z.land (mem (p + 3)) MPBOOT =? 0); cbn [negb mret M_ret modify];
    by destruct (ncpu s <? NCPU)%nat.
Qed.

(** The loop goes over the entries to what follows them. *)
Lemma mpinit_loop_run es : ∀ p s fuel e, Forall entry_ok es → mem_at p (concat (enc <$> es)) →
  p + Z.of_nat (length (concat (enc <$> es))) ≤ e → length (cpu_ids s) = NCPU → (ncpu s + length (procs es) <= NCPU)%nat →
  ∃ s', loop_post es s s' ∧
    mpinit_loop mem (length es + fuel) p e s = mpinit_loop mem fuel (p + Z.of_nat (length (concat (enc <$> es)))) e s'.
Proof.
  induction es as [|x es IH]; intros p s fuel e Hok Hmem He Hlen Hn.
  - exists s. cbn. rewrite Z.add_0_r. split; [|done]. unfold loop_post, boots. cbn. rewrite Nat.add_0_r, andb_true_r. split_and!; done.
  - apply Forall_cons in Hok as [Hx Hok]. cbn [fmap list_fmap concat length Nat.add] in *. apply mem_at_app in Hmem as [Hm1 Hm2].
    rewrite length_app in *. set (L := length (concat (enc <$> es))) in *.
    replace (p + Z.of_nat (length (enc x) + L)) with (p + Z.of_nat (length (enc x)) + Z.of_nat L) in * by lia.
    assert (Hpos : (0 < length (enc x))%nat) by (destruct x; cbn; lia). assert (Hp : p < e) by lia.
    destruct x as [a v f r|a r|t r]; cbn [entry_ok enc app] in *.
    + apply mem_at_cons in Hm1 as [Et Hm1]. apply mem_at_cons in Hm1 as [E1 Hm1]. apply mem_at_cons in Hm1 as [_ Hm1]. apply mem_at_cons in Hm1 as [E3 _].
      replace (p + 1 + 1 + 1) with (p + 3) in E3 by lia. cbn [length] in *. rewrite Hx in *.
      change (procs (EProc a v f r :: es)) with ((a, f) :: procs es) in Hn. cbn [length] in Hn.
      rewrite (mpinit_loop_proc _ _ _ _ a f Hp Et E1 E3). destruct (Nat.ltb_spec (ncpu s) NCPU); [|lia]. set (s2 := if negb (Z.land f MPBOOT =? 0) then _ else _).
      assert (ncpu s2 = ncpu s ∧ cpu_ids s2 = cpu_ids s) as [En Ei] by (unfold s2; destruct (_ =? a), (_ =? 0); done).
      destruct (IH (p + 20) (add_cpu s2) fuel e) as (s' & Hpost & Hrun); [done|exact Hm2|lia|unfold add_cpu; cbn; by rewrite length_insert, Ei|
        unfold add_cpu; cbn; rewrite En; lia|].
      exists s'. split; [by apply loop_post_proc; [lia|]|exact Hrun].
    + apply mem_at_cons in Hm1 as [Et Hm1]. apply mem_at_cons in Hm1 as [E1 _]. cbn [length] in *. rewrite Hx in *.
      destruct (IH (p + 8) (set_ioapicid a s) fuel e) as (s' & (P1 & P2 & P3 & P4 & P5 & P6 & P7 & P8) & Hrun); [done|exact Hm2|lia|done|done|].
      exists s'. split.
      * cbn in P1, P2, P3, P4, P5, P6, P7, P8. unfold loop_post. change (procs (EIoapic a r :: es)) with (procs es).
        change (ioapics (EIoapic a r :: es)) with (a :: ioapics es). rewrite default_last. by split_and!.
      * cbn [mpinit_loop]. rewrite (proj2 (Z.ltb_lt p e) Hp), Et, E1. cbn [negb Z.eqb MPPROC MPIOAPIC]. exact Hrun.
    + destruct Hx as [Hx Ht]. apply mem_at_cons in Hm1 as [Et _]. cbn [length] in *. rewrite Hx in *.
      assert (E : (t =? MPPROC) = false ∧ (t =? MPIOAPIC) = false ∧ (t =? MPBUS) || (t =? MPIOINTR) || (t =? MPLINTR) = true).
      { repeat (apply elem_of_cons in Ht as [-> |Ht]; [done|]). by apply elem_of_nil in Ht. }
      destruct (IH (p + 8) s fuel e) as (s' & Hpost & Hrun); [done|exact Hm2|lia|done|done|]. exists s'. split; [done|].
      cbn [mpinit_loop]. rewrite (proj2 (Z.ltb_lt p e) Hp), Et. destruct E as (-> & -> & ->). exact Hrun.
Qed.

End entries.

Lemma wp_tt {S} (m : M S unit) (Q : S → Prop) s : wp m (λ _ s', Q s') s → ∃ s', m s = Ok tt s' ∧ Q s'.
Proof. intros H. apply wp_Ok in H as ([] & s' & H). by exists s'. Qed.

(** The search finds the first structure with the signature and a right
    checksum. *)
Lemma mpsearch_loop_spec mem n : ∀ p, match mpsearch_loop mem n p with
  | Some a => ∃ k, (k < n)%nat ∧ a = p + 16 * Z.of_nat k ∧ sig4 mem a MP_SIG = true ∧ sum mem a 16 = 0 ∧
      ∀ j, (j < k)%nat → sig4 mem (p + 16 * Z.of_nat j) MP_SIG && (sum mem (p + 16 * Z.of_nat j) 16 =? 0) = false
  | None => ∀ j, (j < n)%nat → sig4 mem (p + 16 * Z.of_nat j) MP_SIG && (sum mem (p + 16 * Z.of_nat j) 16 =? 0) = false
  end.
Proof.
  induction n as [|n IH]; intros p; cbn [mpsearch_loop]; [intros; lia|].
  change (sum mem p sz_mp) with (sum mem p 16). destruct (sig4 mem p MP_SIG && (sum mem p 16 =? 0)) eqn:E.
  - exists O. rewrite andb_true_iff, Z.eqb_eq in E. split_and!; [lia|lia|tauto|tauto|lia].
  - specialize (IH (p + sz_mp)). unfold sz_mp in *.
    assert (S16 : ∀ j, p + 16 + 16 * Z.of_nat j = p + 16 * Z.of_nat (S j)) by lia. 
    destruct (mpsearch_loop mem n (p + 16)) as [a|].
    + destruct IH as (k & Hk & -> & H1 & H2 & H3). exists (S k). rewrite <-S16. split_and!; [lia|done|done|done|].
      intros [|j] Hj; [by rewrite Z.mul_0_r, Z.add_0_r|]. rewrite <-S16. apply H3. lia.
    + intros [|j] Hj; [by rewrite Z.mul_0_r, Z.add_0_r|]. rewrite <-S16. apply IH. lia.
Qed.

(** An entry of an unknown type makes [mpinit] loop for ever. *)
Lemma unknown_entry_loops mem p e s fuel : p < e → mem p ∉ [MPPROC; MPIOAPIC; MPBUS; MPIOINTR; MPLINTR] →
  ∃ s', mpinit_loop mem fuel p e s = Err NoFuel s'.
Proof.
  intros Hp Ht. revert s. induction fuel as [|fuel IH]; intros s; cbn [mpinit_loop]; [by eexists|].
  destruct (Z.ltb_spec p e); [|lia]. cbn [negb]. rewrite !not_elem_of_cons in Ht.
  destruct (Z.eqb_spec (mem p) MPPROC), (Z.eqb_spec (mem p) MPIOAPIC), (Z.eqb_spec (mem p) MPBUS), (Z.eqb_spec (mem p) MPIOINTR),
    (Z.eqb_spec (mem p) MPLINTR); try tauto. apply IH.
Qed.

(** More fuel changes nothing but the want of fuel. *)
Lemma mpinit_loop_fuel mem fuel : ∀ p e s,
  (∃ s', mpinit_loop mem fuel p e s = Err NoFuel s') ∨ ∀ k, mpinit_loop mem (fuel + k) p e s = mpinit_loop mem fuel p e s.
Proof.
  induction fuel as [|fuel IH]; intros p e s; [left; by eexists|]. cbn [mpinit_loop Nat.add].
  destruct (negb (p <? e)); [by right|].
  destruct (mem p =? MPPROC).
  { unfold mbind, M_bind, gets. destruct (negb (Z.of_nat (ncpu s) =? _)), (negb (Z.land _ MPBOOT =? 0)); cbn [modify mret M_ret];
      (destruct (ncpu s <? NCPU)%nat; [apply IH|by right]). }
  destruct (mem p =? MPIOAPIC); [unfold mbind, M_bind; apply IH|]. destruct (_ || _ || _); [apply IH|]. unfold mbind, M_bind. apply IH.
Qed.

(** [mpinit] up to its loop. *)
Lemma mpinit_stops mem mp conf in23 fuel err s :
  let s0 := set_lapic (conf_lapicaddr mem conf) (set_ismp true (set_bcpu 0 mp0)) in
  mpconfig mem = Some (mp, conf) → mpinit_loop mem fuel (conf + sz_mpconf) (conf + conf_length mem conf) s0 = Err err s →
  mpinit mem in23 fuel mp0 = Err err s.
Proof. intros s0 Hc Hr. unfold mpinit, mbind, M_bind, modify. rewrite Hc. fold s0. by rewrite Hr. Qed.

(** C27: [mpinit] on a table that consists of entries of the five known types,
    with up to eight processors among them, and perhaps of an entry of another
    type behind them. Without the latter [mpinit] returns, and when the
    processors have the identifiers 0, 1, ... in this order it has found all of
    them, the last one marked as the bootstrap processor, the last I/O APIC and
    the address of the local APIC; otherwise it falls back to one processor
    without any of these. At an entry of an unknown type it never gets on, so
    that it does not return however long it runs, and at a ninth processor it
    writes behind the array of processors. *)
Theorem mpinit_correct mem es tail mp conf in23 :
  mpconfig mem = Some (mp, conf) → Forall entry_ok es → mem_at mem (conf + sz_mpconf) (concat (enc <$> es) ++ tail) →
  conf_length mem conf = sz_mpconf + Z.of_nat (length (concat (enc <$> es) ++ tail)) → (length (procs es) <= NCPU)%nat →
  match tail with
  | [] => ∀ fuel, (length es < fuel)%nat → ∃ s, mpinit mem in23 fuel mp0 = Ok tt s ∧
      if bool_decide ((procs es).*1 = Z.of_nat <$> seq 0 (length (procs es))) then
        mp_ismp s = true ∧ ncpu s = length (procs es) ∧ (∀ i, (i < length (procs es))%nat → cpu_ids s !! i = Some (Z.of_nat i)) ∧
        mpbcpu s = default O (last (boots 0 (procs es))) ∧ mp_ioapicid s = default 0 (last (ioapics es)) ∧ mp_lapic s = conf_lapicaddr mem conf
      else mp_ismp s = false ∧ ncpu s = 1%nat ∧ mp_ioapicid s = 0 ∧ mp_lapic s = 0
  | t :: _ =>
      (t ∉ [MPPROC; MPIOAPIC; MPBUS; MPIOINTR; MPLINTR] → ∀ fuel, ∃ s, mpinit mem in23 fuel mp0 = Err NoFuel s) ∧
      (t = MPPROC → length (procs es) = NCPU → ∀ fuel, (length es < fuel)%nat → ∃ s, mpinit mem in23 fuel mp0 = Err Undef s)
  end.
Proof.
  intros Hc Hok Hmem Hlen Hn. apply mem_at_app in Hmem as [Hmem Htail]. rewrite length_app in Hlen.
  set (s0 := set_lapic (conf_lapicaddr mem conf) (set_ismp true (set_bcpu 0 mp0))). set (L := length (concat (enc <$> es))) in *.
  assert (Hloop : ∀ fuel, ∃ s', loop_post es s0 s' ∧
    mpinit_loop mem (length es + fuel) (conf + sz_mpconf) (conf + conf_length mem conf) s0 =
    mpinit_loop mem fuel (conf + sz_mpconf + Z.of_nat L) (conf + conf_length mem conf) s').
  { intros fuel. apply mpinit_loop_run; [done|done|rewrite Hlen; lia|done|exact Hn]. }
  destruct tail as [|t tail].
  - intros fuel Hf. destruct (Hloop (fuel - length es)%nat) as (s & (P1 & P2 & P3 & P4 & P5 & P6 & P7 & P8) & Hrun).
    replace (length es + (fuel - length es))%nat with fuel in Hrun by lia. cbn in P1, P2, P3, P4, P5, P6, P8.
    assert (Hend : mpinit_loop mem (fuel - length es) (conf + sz_mpconf + Z.of_nat L) (conf + conf_length mem conf) s = Ok tt s).
    { destruct (fuel - length es)%nat eqn:E; [lia|]. cbn [mpinit_loop]. rewrite Hlen. cbn [length].
      by rewrite (proj2 (Z.ltb_ge _ _)) by lia. }
    rewrite Hend in Hrun. apply wp_tt. unfold mpinit. apply wp_bind, wp_modify. rewrite Hc. do 2 (apply wp_bind, wp_modify). apply wp_bind. fold s0.
    unfold wp at 1. rewrite Hrun. apply wp_bind, wp_get. unfold mpbcpu.
    destruct (bool_decide ((procs es).*1 = Z.of_nat <$> seq 0 (length (procs es)))); cbn in P2; rewrite P2; cbn [negb]; [|done].
    assert (Hids : ∀ i, (i < length (procs es))%nat → cpu_ids s !! i = Some (Z.of_nat i)) by (intros i Hi; apply P8; lia).
    destruct (negb _); [apply wp_modify; cbn|apply wp_ret]; split_and!; done.
  - apply mem_at_cons in Htail as [Et _]. cbn [length] in Hlen.
    assert (Hlt : conf + sz_mpconf + Z.of_nat L < conf + conf_length mem conf) by lia. split.
    + intros Ht fuel. destruct (Hloop fuel) as (s & _ & Hrun).
      destruct (unknown_entry_loops mem (conf + sz_mpconf + Z.of_nat L) (conf + conf_length mem conf) s fuel Hlt) as (s' & Hs'); [by rewrite Et|].
      rewrite Hs' in Hrun. destruct (mpinit_loop_fuel mem fuel (conf + sz_mpconf) (conf + conf_length mem conf) s0) as [(s1 & H1)|H1].
      * exists s1. by eapply mpinit_stops.
      * exists s'. eapply mpinit_stops; [done|]. fold s0. by rewrite <-(H1 (length es)), Nat.add_comm.
    + intros -> Hfull fuel Hf. destruct (Hloop (fuel - length es)%nat) as (s & (P1 & _) & Hrun).
      replace (length es + (fuel - length es))%nat with fuel in Hrun by lia. destruct (fuel - length es)%nat eqn:E; [lia|].
      rewrite (mpinit_loop_proc mem _ _ _ s _ _ Hlt Et eq_refl eq_refl) in Hrun. cbn in P1. rewrite P1, Hfull in Hrun. cbn [Nat.ltb Nat.leb NCPU] in Hrun.
      eexists. eapply mpinit_stops; [done|exact Hrun].
Qed.

(** Two processors and an I/O APIC. *)
Definition sample_mp : list Z := [95; 77; 80; 95; 0; 16; 0; 0; 1; 4; 144; 0; 0; 0; 0; 0].
Definition sample_entries : list mpentry :=
  [EProc 0 20 3 (replicate 16 0); EProc 1 20 1 (replicate 16 0); EIoapic 2 [17; 1; 0; 0; 192; 254]].
Definition sample_conf : list Z :=
  [80; 67; 77; 80; 92; 0; 4; 145] ++ replicate 28 0 ++ [0; 0; 224; 254; 0; 0; 0; 0] ++ concat (enc <$> sample_entries).
Definition sample_mem (a : Z) : Z :=
  if (0xF0000 <=? a) && (a <? 0xF0010) then sample_mp !!! Z.to_nat (a - 0xF0000)
  else if (0x1000 <=? a) && (a <? 0x105C) then sample_conf !!! Z.to_nat (a - 0x1000) else 0.

Lemma mpinit_correct_witness :
  ∃ s, mpinit sample_mem 0 4 mp0 = Ok tt s ∧ mp_ismp s = true ∧ ncpu s = 2%nat ∧ mpbcpu s = O ∧ mp_ioapicid s = 2 ∧ mp_lapic s = 0xFEE00000.
Proof.
  destruct (mpinit_correct sample_mem sample_entries [] 0xF0000 0x1000 0) with (fuel := 4%nat) as (s & Hs & Hp).
  - vm_compute. reflexivity.
  - repeat (apply Forall_cons; split; [reflexivity|]). apply Forall_nil. exact I.
  - intros k x Hk. assert (Hlt := lookup_lt_Some _ _ _ Hk). vm_compute in Hlt.
    do 48 (destruct k as [|k]; [injection Hk as <-; reflexivity|]). lia.
  - reflexivity.
  - vm_compute. lia.
  - vm_compute. lia.
  - exists s. split; [exact Hs|]. change (bool_decide _) with true in Hp. destruct Hp as (A & B & _ & D & E & F). auto.
Defined.
