(* ===== verification/Trap.v ===== *)
(** * Traps and the clock (trap.c, and sleep, uptime and kbevent of sysproc.c)

    [trap] is called with the frame that the hardware and trapasm.S pushed; it
    may change the frame, and the interrupted code goes on with it. The state
    has the processes, the counter of clock ticks and the calls of the handlers
    of the devices, which work on states of their own ([Ide.v], [Kbd.v],
    [Intr.v]). [me] is the process that runs on the processor, if any. A run
    stops where the processor is given up: in [exit], or in [yield], after which
    [trap_resume] goes on. *)

From S2P Require Import Prelude Cstring Buf Bio Log Fs Spinlock Pipe Kalloc Vm VmProps File Proc Exec FsProps Syscall Intr Rtc.

Inductive hcall := Ideintr | Kbdintr | Uartintr | Spurious | Eoi.
Record ts := mkTs { tps : ps; ticks : Z; calls : list hcall }.

#[export] Instance ps_ts : Layer ps ts := {|
  low := tps; set_low s t := mkTs s (ticks t) (calls t);
  low_set := λ s t, eq_refl; set_set_low := λ s s' t, eq_refl;
|}.

Definition callh (h : hcall) : M ts unit := modify (λ t, mkTs (tps t) (ticks t) (calls t ++ [h])).

Inductive tend := TReturn (tf : trapframe) | TExit | TYield (tf : trapframe).

Definition DPL_USER : Z := 3.
(** The privilege level of the interrupted code. *)
Definition cpl (tf : trapframe) : Z := Z.land (tf_cs tf) 3.

Definition set_frame (esp eip : Z) (t : trapframe) : trapframe :=
  mkTf (tf_edi t) (tf_esi t) (tf_ebp t) (tf_oesp t) (tf_ebx t) (tf_edx t) (tf_ecx t) (tf_eax t)
    (tf_gs t) (tf_fs t) (tf_es t) (tf_ds t) (tf_trapno t)
    (tf_err t) eip (tf_cs t) (tf_eflags t) esp (tf_ss t).

Definition pset_cur (x : Z) (p : proc) : proc :=
  mkProc (p_sz p) (p_pgdir p) (p_kstack p) (p_state p) (p_pid p) (p_parent p) (p_tf p) (p_chan p) (p_killed p)
    (p_ofile p) (p_cwd p) (p_name p) (p_npath p) (p_alarmticks p) (p_alarmhandler p) x (p_keyboardHandler p).

(** The part of the clock interrupt for the process: after [alarmticks] ticks in
    user mode the handler is called, with a return address on the stack. *)
Definition alarm_tick (me : nat) (tf : trapframe) : M ps trapframe :=
  p ← getp me;
  let cur := s32 (p_curalarmtick p + 1) in
  updp me (pset_cur cur);;
  if p_alarmticks p =? cur then
    updp me (pset_cur 0);;
    let esp := u32 (tf_esp tf - 4) in
    lift (ustores (le_split 4 (tf_eip tf)) (p_pgdir p) esp);;
    mret (set_frame esp (p_alarmhandler p) tf)
  else mret tf.

(** The count of the ticks, on the first processor. *)
Definition clock_tick (cpuid : Z) : M ts unit :=
  if cpuid =? 0 then
    modify (λ t, mkTs (tps t) (u32 (ticks t + 1)) (calls t));;
    lift (wakeup CTicks)
  else mret tt.

(** ** The interrupt descriptor table *)
Record gatedesc := mkGate {
  off_15_0 : Z; g_cs : Z; g_args : Z; g_rsv1 : Z; g_type : Z; g_s : Z; g_dpl : Z; g_p : Z; off_31_16 : Z }.
Definition STS_IG32 : Z := 0xE.
Definition STS_TG32 : Z := 0xF.
Definition SEG_KCODE : Z := 1.
Definition SETGATE (istrap : bool) (sel off d : Z) : gatedesc :=
  mkGate (Z.land off 0xffff) sel 0 0 (if istrap then STS_TG32 else STS_IG32) 0 d 1 (Z.shiftr off 16).

(** [vectors] are the entry points of vectors.S. *)
Definition tvinit (vectors : Z → Z) : list gatedesc :=
  let idt := (λ i, SETGATE false (Z.shiftl SEG_KCODE 3) (vectors (Z.of_nat i)) 0) <$> seq 0 256 in
  <[Z.to_nat T_SYSCALL := SETGATE true (Z.shiftl SEG_KCODE 3) (vectors T_SYSCALL) DPL_USER]> idt.

(** Every vector enters the kernel at its own entry; a program can raise only
    the one of system calls, which is also the only one that leaves interrupts
    on. *)
Lemma tvinit_gates vectors i : (∀ k, 0 ≤ vectors k < 2 ^ 32) → 0 ≤ i < 256 → ∃ g, tvinit vectors !! Z.to_nat i = Some g ∧
  off_15_0 g + 65536 * off_31_16 g = vectors i ∧ g_cs g = 8 ∧ g_p g = 1 ∧
  (g_dpl g = DPL_USER ↔ i = T_SYSCALL) ∧ (g_type g = STS_TG32 ↔ i = T_SYSCALL).
Proof.
  intros Hv Hi. assert (Hoff : Z.land (vectors i) 0xffff + 65536 * Z.shiftr (vectors i) 16 = vectors i).
  { change 0xffff with (Z.ones 16). rewrite Z.land_ones, Z.shiftr_div_pow2 by lia. change 65536 with (2 ^ 16). 
    pose proof (Z.div_mod (vectors i) (2 ^ 16) ltac:(lia)). lia. }
  unfold tvinit. destruct (decide (i = T_SYSCALL)) as [-> |Hne].
  - rewrite list_lookup_insert_eq by (rewrite length_fmap, length_seq; unfold T_SYSCALL; lia). by eexists.
  - rewrite list_lookup_insert_ne by (unfold T_SYSCALL in *; lia). rewrite list_lookup_fmap, lookup_seq_lt by lia. cbn [fmap option_fmap option_map].
    rewrite Nat.add_0_l, Z2Nat.id by lia. eexists. split; [done|]. cbn. split_and!; try done.
Qed.

Section trap.
Context `{BD : BlockDev} (kend : Z) (syscalls : list (option (M ts Z))).

(** The switch over the number of an interrupt or exception. *)
Definition trap_switch (cpuid : Z) (me : option nat) (tf : trapframe) : M ts trapframe :=
  let n := tf_trapno tf in
  if n =? T_IRQ0 + IRQ_TIMER then
    clock_tick cpuid;;
    tf ← (match me with
          | Some p => if cpl tf =? 3 then lift (alarm_tick p tf) else mret tf
          | None => mret tf
          end);
    callh Eoi;; mret tf
  else if n =? T_IRQ0 + IRQ_IDE then callh Ideintr;; callh Eoi;; mret tf
  else if n =? T_IRQ0 + IRQ_IDE + 1 then mret tf
  else if n =? T_IRQ0 + IRQ_KBD then callh Kbdintr;; callh Eoi;; mret tf
  else if n =? T_IRQ0 + IRQ_COM1 then callh Uartintr;; callh Eoi;; mret tf
  else if (n =? T_IRQ0 + 7) || (n =? T_IRQ0 + IRQ_SPURIOUS) then callh Spurious;; callh Eoi;; mret tf
  else
    match me with
    | Some p => if cpl tf =? 0 then panic "trap" else lift (updp p (pset_killed true));; mret tf
    | None => panic "trap"
    end.

Definition exit_now (p : nat) : M ts tend := lift (exit kend p);; mret TExit.

(** What follows [yield]. *)
Definition trap_resume (me : option nat) (tf : trapframe) : M ts tend :=
  match me with
  | Some p =>
      x ← lift (getp p);
      if p_killed x && (cpl tf =? DPL_USER) then exit_now p else mret (TReturn tf)
  | None => mret (TReturn tf)
  end.

Definition trap (cpuid : Z) (me : option nat) (tf : trapframe) : M ts tend :=
  if tf_trapno tf =? T_SYSCALL then
    p ← deref me;
    x ← lift (getp p);
    if (p_killed x : bool) then exit_now p else
    lift (updp p (pset_tf tf));;
    syscall syscalls p;;
    x ← lift (getp p);
    if (p_killed x : bool) then exit_now p else mret (TReturn (p_tf x))
  else
    tf ← trap_switch cpuid me tf;
    match me with
    | Some p =>
        x ← lift (getp p);
        if p_killed x && (cpl tf =? DPL_USER) then exit_now p
        else if bool_decide (p_state x = RUNNING) && (tf_trapno tf =? T_IRQ0 + IRQ_TIMER) then
          lift (set_procs (yield_table p));; mret (TYield tf)
        else trap_resume me tf
    | None => mret (TReturn tf)
    end.

(** ** The clock in system calls *)

(** One round of the loop of [sys_sleep]: the result, or the process sleeps. The
    number of ticks is compared as unsigned. *)
Definition sleep_round (me : nat) (n ticks0 : Z) : M ts (option Z) :=
  t ← gets ticks;
  if u32 (t - ticks0) <? u32 n then
    x ← lift (getp me);
    if (p_killed x : bool) then mret (Some (-1)) else
    lift (set_procs (sleep_table me CTicks));; mret None
  else mret (Some 0).

(** [sys_sleep] up to its end or its first sleep, with the ticks at its start. *)
Definition sys_sleep (me : nat) : M ts (option Z * Z) :=
  a ← lift (argint me 0);
  t ← gets ticks;
  match a with
  | None => mret (Some (-1), t)
  | Some n => r ← sleep_round me n t; mret (r, t)
  end.

Definition sys_uptime : M ts Z := t ← gets ticks; mret (s32 t).

Definition sys_kbevent (me : nat) : M ps Z :=
  h ← argptr me 0 1;
  match h with
  | None => mret (-1)
  | Some h =>
      updp me (λ p, mkProc (p_sz p) (p_pgdir p) (p_kstack p) (p_state p) (p_pid p) (p_parent p) (p_tf p) (p_chan p)
        (p_killed p) (p_ofile p) (p_cwd p) (p_name p) (p_npath p) (p_alarmticks p) (p_alarmhandler p) (p_curalarmtick p) h);;
      mret 0
  end.

(** The six words of [struct rtcdate]. *)
Definition date_words (r : rtcdate) : list Z := [second r; minute r; hour r; day r; month r; year r].

Definition sys_date (rtc : nat → Z → Z) (fuel : nat) (me : nat) : M ps Z :=
  a ← argptr me 0 24;
  match a with
  | None => mret (-1)
  | Some val =>
      match cmostime rtc fuel O with
      | Ok r _ => p ← getp me; lift (ustores (date_words r ≫= le_split 4) (p_pgdir p) val);; mret 0
      | Err e _ => stopM e
      end
  end.

End trap.

(** ** Stores to a page of the process *)

(** Page [n] of the process is in the frame [pg], which is none of its page
    tables. *)
Definition stack_ok (k : kmem) (pgdir n pg : Z) : Prop :=
  0 ≤ n < 2 ^ 20 ∧ ∃ pde pte d,
    rdword pgdir (n / 1024) k = Ok pde k ∧ Z.land pde PTE_P ≠ 0 ∧
    rdword (p2v (PTE_ADDR pde)) (n `mod` 1024) k = Ok pte k ∧ Z.land pte PTE_P ≠ 0 ∧
    p2v (PTE_ADDR pte) = pg ∧ pg ≠ pgdir ∧ pg ≠ p2v (PTE_ADDR pde) ∧
    pages k !! pg = Some d ∧ length d = 4096%nat.

Definition set_page (pg : Z) (d : list Z) (k : kmem) : kmem := mkKmem (use_lock k) (freelist k) (<[pg := d]> (pages k)).

Lemma stack_ok_set k pgdir n pg d : stack_ok k pgdir n pg → length d = 4096%nat → stack_ok (set_page pg d k) pgdir n pg.
Proof.
  intros (Hn & pde & pte & d0 & R1 & P1 & R2 & P2 & Ep & N1 & N2 & Hd & Hl) Hl'. split; [done|]. exists pde, pte, d.
  assert (Hrd : ∀ q i w, q ≠ pg → rdword q i k = Ok w k → rdword q i (set_page pg d k) = Ok w (set_page pg d k)).
  { intros q i w Hq. unfold rdword, set_page. cbn [pages]. rewrite lookup_insert_ne by done. destruct (pages k !! q); [|done]. intros E. f_equal. congruence. }
  split_and!; try done.
  - by apply Hrd.
  - by apply Hrd.
  - unfold set_page. cbn. by rewrite lookup_insert_eq.
Qed.

Lemma uaddr_stack k pgdir n pg o : stack_ok k pgdir n pg → 0 ≤ o < PGSIZE → uaddr pgdir (PGSIZE * n + o) k = Ok (pg, Z.to_nat o) k.
Proof.
  intros (Hn & pde & pte & d0 & R1 & P1 & R2 & P2 & Ep & _) Ho. unfold uaddr, mbind, M_bind. rewrite PDX_spec, PTX_spec by lia.
  rewrite R1. destruct (Z.eqb_spec (Z.land pde PTE_P) 0); [done|]. rewrite R2. destruct (Z.eqb_spec (Z.land pte PTE_P) 0); [done|].
  rewrite Ep. unfold mret, M_ret. do 3 f_equal. unfold PGSIZE in *. rewrite Z.mul_comm, Z.add_comm, Z.mod_add, Z.mod_small by lia. done.
Qed.

Lemma ustores_stack l : ∀ k pgdir n pg o d, stack_ok k pgdir n pg → pages k !! pg = Some d → 0 ≤ o → o + Z.of_nat (length l) ≤ PGSIZE →
  ustores l pgdir (PGSIZE * n + o) k = Ok tt (match l with [] => k | _ => set_page pg (splice (Z.to_nat o) l d) k end).
Proof.
  induction l as [|c l IH]; intros k pgdir n pg o d Hs Hd Ho Hl; [done|]. cbn [length] in Hl. cbn [ustores].
  assert (Hld : length d = 4096%nat) by (destruct Hs as (_ & ? & ? & ? & _ & _ & _ & _ & _ & _ & _ & E & ?); congruence).
  assert (Hn : 0 ≤ n < 2 ^ 20) by apply Hs.
  unfold mbind, M_bind. unfold ustore, mbind at 1, M_bind at 1. rewrite (uaddr_stack k pgdir n pg o Hs) by lia.
  unfold updpage. cbn [fst snd]. rewrite Hd. fold (set_page pg (<[Z.to_nat o:=c]> d) k).
  unfold PGSIZE in *.
  assert (Hov : l ≠ [] → u32 (4096 * n + o + 1) = 4096 * n + (o + 1)).
  { intros Hne. rewrite u32_small; [lia|]. destruct l; [done|]. cbn [length] in Hl. lia. }
  destruct l as [|c' l'].
  - cbn [ustores mret M_ret]. f_equal. f_equal. unfold splice. cbn [length app]. rewrite Nat.add_1_r. apply insert_take_drop. lia.
  - rewrite Hov by done. rewrite (IH _ pgdir n pg (o + 1) (<[Z.to_nat o := c]> d)).
    + f_equal. unfold set_page. cbn. rewrite insert_insert_eq. f_equal. f_equal. apply list_eq. intros i.
      rewrite !lookup_splice by (rewrite ?length_insert; cbn [length] in *; lia). cbn [length]. rewrite list_lookup_insert.
      replace (Z.to_nat (o + 1)) with (S (Z.to_nat o)) by lia.
      repeat case_decide; try lia; try done; [|replace (i - Z.to_nat o)%nat with O by lia; done].
      by replace (i - Z.to_nat o)%nat with (S (i - S (Z.to_nat o)))%nat by lia.
    + apply stack_ok_set; [done|]. by rewrite length_insert.
    + unfold set_page. cbn. by rewrite lookup_insert_eq.
    + lia.
    + cbn [length] in *. lia.
Qed.

Lemma uloads_stack m : ∀ k pgdir n pg o d, stack_ok k pgdir n pg → pages k !! pg = Some d → 0 ≤ o → o + Z.of_nat m ≤ PGSIZE →
  uloads m pgdir (PGSIZE * n + o) k = Ok (slice (Z.to_nat o) m d) k.
Proof.
  induction m as [|m IH]; intros k pgdir n pg o d Hs Hd Ho Hm; [done|]. cbn [uloads].
  assert (Hld : length d = 4096%nat) by (destruct Hs as (_ & ? & ? & ? & _ & _ & _ & _ & _ & _ & _ & E & ?); congruence).
  assert (Hn : 0 ≤ n < 2 ^ 20) by apply Hs. unfold mbind, M_bind. unfold uload, mbind at 1, M_bind at 1.
  rewrite (uaddr_stack k pgdir n pg o Hs) by lia. unfold mbind, M_bind, getM, deref. cbn [fst snd]. rewrite Hd. cbn [mret M_ret].
  unfold PGSIZE in *. assert (Hc : d !! Z.to_nat o = Some (d !!! Z.to_nat o)) by (apply list_lookup_lookup_total_lt; lia).
  assert (E : ∀ l, l = slice (S (Z.to_nat o)) m d → d !!! Z.to_nat o :: l = slice (Z.to_nat o) (S m) d).
  { intros l ->. unfold slice. by rewrite (drop_S d _ _ Hc). }
  destruct m as [|m]; [by rewrite <-(E []) by done|].
  replace (u32 (4096 * n + o + 1)) with (4096 * n + (o + 1)) by (rewrite u32_small; lia).
  rewrite (IH k pgdir n pg (o + 1) d) by (done || lia). cbn [mret M_ret]. f_equal. apply E. f_equal. lia.
Qed.

(** The word that the code at [esp] finds on top of its stack. *)
Definition top (s : ts) (pgdir esp : Z) : option Z :=
  match uloads 4 pgdir esp (km (files (tps s))) with Ok l _ => Some (le_join l) | Err _ _ => None end.

(** ** The alarm *)
Section alarm.
Context `{BD : BlockDev} (kend : Z) (syscalls : list (option (M ts Z))).
(** A process with an alarm of [n] ticks and a page of its stack. *)
Context (me : nat) (n h pgdir vpn pg : Z) (Hn : 0 < n < 2 ^ 31).

(** [c] ticks have been counted. *)
Definition alarm_inv (st : procstate) (c : Z) (s : ts) : Prop :=
  ∃ p, procs (tps s) !! me = Some p ∧ p_alarmticks p = n ∧ p_alarmhandler p = h ∧ p_curalarmtick p = c ∧
    p_killed p = false ∧ p_state p = st ∧ p_pgdir p = pgdir ∧ stack_ok (km (files (tps s))) pgdir vpn pg.

(** The interrupts of the devices. *)
Definition irqs : list Z :=
  (λ k, T_IRQ0 + k) <$> [IRQ_TIMER; IRQ_IDE; IRQ_IDE + 1; IRQ_KBD; IRQ_COM1; 7; IRQ_SPURIOUS].
(** A clock interrupt of user code. *)
Definition user_tick (tf : trapframe) : bool := (tf_trapno tf =? T_IRQ0 + IRQ_TIMER) && (cpl tf =? 3).
(** An interrupt of user or kernel code; the stack pointer of user code is in the
    page. *)
Definition irq_frame (tf : trapframe) : Prop :=
  tf_trapno tf ∈ irqs ∧
  (user_tick tf = true → PGSIZE * vpn + 4 ≤ tf_esp tf ≤ PGSIZE * (vpn + 1) ∧ 0 ≤ tf_eip tf < 2 ^ 32).

(** The frame that the process goes on with, when [c] ticks have been counted
    before this interrupt, and the count after it. *)
Definition delivered (c : Z) (tf : trapframe) : trapframe :=
  if user_tick tf && (c + 1 =? n) then set_frame (tf_esp tf - 4) h tf else tf.
Definition next (c : Z) (tf : trapframe) : Z :=
  if user_tick tf then if c + 1 =? n then 0 else c + 1 else c.

Lemma alarm_tick_spec c s tf : alarm_inv RUNNING c s → 0 ≤ c < 2 ^ 31 - 1 → irq_frame tf → user_tick tf = true →
  wp (lift (alarm_tick me tf)) (λ tf' s', tf' = delivered c tf ∧ alarm_inv RUNNING (next c tf) s' ∧
    (c + 1 = n → top s' pgdir (tf_esp tf') = Some (tf_eip tf)) ∧ ticks s' = ticks s) s.
Proof.
  intros (p & Hp & Ha & Hh & Hc & Hk & Hst & Hpg & Hs) Hcn [_ Htf] Hu. destruct (Htf Hu) as [Hesp Heip].
  apply wp_lift. unfold alarm_tick. apply wp_bind. unfold wp at 1, getp. cbn [low ps_ts]. rewrite Hp.
  rewrite Hc, Ha, s32_small by lia. apply wp_bind. unfold wp at 1, updp. rewrite Hp. unfold delivered, next. rewrite Hu. cbn [andb].
  assert (Hl : (me < length (procs (tps s)))%nat) by by eapply lookup_lt_Some.
  rewrite (Z.eqb_sym n). destruct (Z.eqb_spec (c + 1) n) as [E|E].
  - apply wp_bind. unfold wp at 1, updp. cbn [procs files nextpid initproc]. rewrite list_lookup_insert_eq, list_insert_insert_eq by done.
    set (o := tf_esp tf - 4 - PGSIZE * vpn). replace (u32 (tf_esp tf - 4)) with (PGSIZE * vpn + o).
    2:{ rewrite u32_small; [lia|]. destruct Hs as [? _]. unfold PGSIZE in *. lia. }
    destruct (id Hs) as (Hv & pde & pte & d & _ & _ & _ & _ & _ & _ & _ & Hd & Hld).
    apply wp_bind, wp_lift. cbn [low]. unfold wp at 1. cbn [low kmem_ps km files].
    assert (Ho : 0 ≤ o ∧ o + Z.of_nat (length (le_split 4 (tf_eip tf))) ≤ PGSIZE) by (rewrite length_le_split; unfold o, PGSIZE in *; lia).
    rewrite Hpg, (ustores_stack _ _ _ vpn pg o d Hs Hd) by apply Ho. apply wp_ret. cbn [low set_low kmem_ps ps_ts].
    destruct (le_split 4 (tf_eip tf)) as [|b0 bs] eqn:Eb; [by apply (f_equal length) in Eb; rewrite length_le_split in Eb|]. rewrite <-Eb in *.
    set (d' := splice (Z.to_nat o) (le_split 4 (tf_eip tf)) d).
    assert (Hld' : length d' = 4096%nat) by (unfold d'; rewrite length_splice; unfold PGSIZE in *; lia).
    pose proof (stack_ok_set _ _ _ _ d' Hs Hld') as Hs'. split; [unfold o; rewrite Hh; f_equal; lia|]. split_and!.
    + eexists. cbn [tps procs files km]. rewrite list_lookup_insert_eq by done. split; [done|]. destruct p; cbn in *. split_and!; try done; lia.
    + intros _. unfold top. cbn [tps files km set_low tf_esp set_frame].
      rewrite (uloads_stack 4 _ _ vpn pg o d' Hs') by first [unfold set_page; cbn; by rewrite lookup_insert_eq|rewrite length_le_split in Ho; lia].
      f_equal. unfold d'. replace 4%nat with (length (le_split 4 (tf_eip tf))) at 1 by apply length_le_split.
      rewrite slice_splice by (rewrite Hld; unfold PGSIZE in *; lia). rewrite le_join_split. apply Z.mod_small. change (256 ^ Z.of_nat 4) with (2 ^ 32). lia.
    + done.
  - apply wp_ret. split; [done|]. split_and!.
    + eexists. cbn [tps procs files km low set_low ps_ts]. rewrite list_lookup_insert_eq by done. split; [done|]. destruct p; cbn in *. by split_and!.
    + lia.
    + done.
Qed.

Lemma clock_tick_spec cpuid c s : alarm_inv RUNNING c s →
  wp (clock_tick cpuid) (λ _ s', alarm_inv RUNNING c s' ∧ ticks s' = if cpuid =? 0 then u32 (ticks s + 1) else ticks s) s.
Proof.
  intros Hi. unfold clock_tick. destruct (cpuid =? 0); [|by apply wp_ret]. destruct Hi as (p & Hp & Ha & Hh & Hc & Hk & Hst & Hpg & Hs).
  apply wp_bind, wp_modify, wp_lift, wp_modify. split; [|done]. exists p. cbn. unfold wakeup1. rewrite list_lookup_fmap, Hp. cbn. by rewrite Hst.
Qed.

(** The switch of [trap]. *)
Lemma trap_switch_spec cpuid c s tf : alarm_inv RUNNING c s → 0 ≤ c < 2 ^ 31 - 1 → irq_frame tf →
  wp (trap_switch cpuid (Some me) tf) (λ tf' s', tf' = delivered c tf ∧ alarm_inv RUNNING (next c tf) s' ∧
    (user_tick tf = true → c + 1 = n → top s' pgdir (tf_esp tf') = Some (tf_eip tf))) s.
Proof.
  intros Hi Hc Hf. destruct (id Hf) as [Htr _].
  assert (Hcall : ∀ h', alarm_inv RUNNING c s → user_tick tf = false →
    wp (callh h';; callh Eoi;; mret tf) (λ tf' s', tf' = delivered c tf ∧ alarm_inv RUNNING (next c tf) s' ∧
      (user_tick tf = true → c + 1 = n → top s' pgdir (tf_esp tf') = Some (tf_eip tf))) s).
  { intros h' H Hu. apply wp_bind, wp_modify, wp_bind, wp_modify, wp_ret. unfold delivered, next. rewrite Hu. by split_and!. }
  assert (Hno : ∀ k, tf_trapno tf = T_IRQ0 + k → k ≠ 0 → user_tick tf = false).
  { intros k E Hk. unfold user_tick. rewrite E. unfold T_IRQ0, IRQ_TIMER. by rewrite (proj2 (Z.eqb_neq _ _)) by lia. }
  unfold irqs in Htr. apply list_elem_of_fmap in Htr as (k & Etr & Hk). unfold trap_switch. rewrite Etr.
  rewrite !elem_of_cons, elem_of_nil in Hk. destruct Hk as [-> |[-> |[-> |[-> |[-> |[-> |[-> |[]]]]]]]].
  2,4-7: pose proof (Hno _ Etr ltac:(done)) as Hu; cbn; by apply Hcall.
  2: pose proof (Hno _ Etr ltac:(done)) as Hu; cbn; apply wp_ret; unfold delivered, next; rewrite Hu; by split_and!.
  rewrite Z.eqb_refl. apply wp_bind. eapply wp_mono; [by apply clock_tick_spec|]. intros [] s1 [Hi1 _]. apply wp_bind.
  destruct (cpl tf =? 3) eqn:Ecpl.
  - assert (Hu : user_tick tf = true) by (unfold user_tick; by rewrite Etr, Z.eqb_refl, Ecpl).
    eapply wp_mono; [by apply alarm_tick_spec|]. intros tf' s2 (-> & Hi2 & Htop & _). apply wp_bind, wp_modify, wp_ret. by split_and!.
  - assert (Hu : user_tick tf = false) by (unfold user_tick; by rewrite Ecpl, andb_false_r).
    apply wp_ret, wp_bind, wp_modify, wp_ret. unfold delivered, next. rewrite Hu. by split_and!.
Qed.

(** The interrupt up to [yield], or to its end. *)
Lemma trap_tick_spec cpuid c s tf : alarm_inv RUNNING c s → 0 ≤ c < 2 ^ 31 - 1 → irq_frame tf →
  wp (trap kend syscalls cpuid (Some me) tf) (λ r s', (r = TYield (delivered c tf) ∧ alarm_inv RUNNABLE (next c tf) s' ∨
      r = TReturn (delivered c tf) ∧ alarm_inv RUNNING (next c tf) s') ∧
    (user_tick tf = true → c + 1 = n → top s' pgdir (tf_esp tf - 4) = Some (tf_eip tf))) s.
Proof.
  intros Hi Hc Htf. destruct (id Htf) as [Htr _]. unfold trap. rewrite (proj2 (Z.eqb_neq (tf_trapno tf) T_SYSCALL)).
  2:{ intros E. rewrite E in Htr. unfold irqs in Htr. apply (bool_decide_eq_true_2 _) in Htr. by vm_compute in Htr. }
  apply wp_bind. eapply wp_mono; [by apply trap_switch_spec|]. intros tf' s2 (-> & Hi2 & Htop0).
  assert (Htop : user_tick tf = true → c + 1 = n → top s2 pgdir (tf_esp tf - 4) = Some (tf_eip tf)).
  { intros Hu E. specialize (Htop0 Hu E). unfold delivered in Htop0. by rewrite Hu, (proj2 (Z.eqb_eq _ _) E) in Htop0. }
  destruct (id Hi2) as (p & Hp & Ha & Hh & Hcu & Hk & Hst & Hpg & Hs).
  apply wp_bind, wp_lift. unfold wp at 1, getp. cbn [low ps_ts tps]. rewrite Hp, Hk, Hst. cbn [andb]. rewrite bool_decide_true by done. cbn [andb].
  destruct (tf_trapno (delivered c tf) =? _).
  - apply wp_bind, wp_lift, wp_modify, wp_ret. split; [|done]. left. split; [done|].
    exists (pset_state RUNNABLE p). split; [unfold yield_table; cbn [tps procs low set_low ps_ts calls ticks]; by rewrite list_lookup_alter_eq, Hp|]. by destruct p.
  - unfold trap_resume. apply wp_bind, wp_lift. unfold wp at 1, getp. cbn [low set_low ps_ts tps]. 
    assert (E : set_low (tps s2) s2 = s2) by by destruct s2. cbn [set_low ps_ts] in E. rewrite E, Hp, Hk. cbn [andb].
    apply wp_ret. cbn [set_low ps_ts]. rewrite E. split; [|done]. by right.
Qed.

(** The scheduler chooses the process again, and the interrupt ends. *)
Definition resume (r : tend) : M ts trapframe :=
  match r with
  | TYield tf =>
      lift (set_procs (scheduler_run me));;
      r ← trap_resume kend (Some me) tf;
      match r with TReturn tf => mret tf | _ => panic "not returned" end
  | TReturn tf => mret tf
  | TExit => panic "exited"
  end.

Lemma resume_spec c s tf : alarm_inv RUNNABLE c s → wp (resume (TYield tf)) (λ tf' s', tf' = tf ∧ alarm_inv RUNNING c s' ∧
  ∀ esp, top s' pgdir esp = top s pgdir esp) s.
Proof.
  intros (p & Hp & Ha & Hh & Hcu & Hk & Hst & Hpg & Hs). unfold resume. apply wp_bind, wp_lift, wp_modify. unfold trap_resume.
  apply wp_bind, wp_bind, wp_lift. unfold wp at 1, getp. cbn [low set_low ps_ts tps procs files nextpid initproc]. 
  unfold scheduler_run. rewrite list_lookup_alter_eq, Hp. cbn [fmap option_fmap option_map]. destruct p; cbn in *. rewrite Hk. cbn [andb].
  do 2 apply wp_ret. split; [done|]. split; [|done]. eexists. cbn. rewrite list_lookup_alter_eq, Hp. cbn. split; [done|]. by split_and!.
Qed.

(** A run: interrupts with the frames of the interrupted code, and after each one
    anything else that happens. The result is the frame that the code goes on
    with and the word on top of its stack. *)
Fixpoint timer_run (l : list (Z * trapframe * (ts → ts))) : M ts (list (trapframe * option Z)) :=
  match l with
  | [] => mret []
  | (cpuid, tf, between) :: l' =>
      r ← trap kend syscalls cpuid (Some me) tf;
      tf' ← resume r;
      w ← gets (λ s, top s pgdir (tf_esp tf'));
      modify between;;
      rest ← timer_run l';
      mret ((tf', w) :: rest)
  end.

(** What happens in between leaves the alarm and the stack page of the process. *)
Definition harmless (f : ts → ts) : Prop := ∀ c s, alarm_inv RUNNING c s → alarm_inv RUNNING c (f s).

(** The clock ticks in user mode among the interrupts. *)
Fixpoint uticks (l : list (Z * trapframe * (ts → ts))) : Z :=
  match l with [] => 0 | x :: l' => (if user_tick x.1.2 then 1 else 0) + uticks l' end.
(** The handler is called when the [k]-th tick in user mode comes, after a start
    with [c] ticks counted. *)
Definition fires (c k : Z) : bool := (c <? n) && ((c + k) `mod` n =? 0).

Lemma fires_next c tf k : 0 ≤ c → 0 ≤ k → fires (next c tf) k = fires c ((if user_tick tf then 1 else 0) + k).
Proof.
  intros Hc Hk. unfold fires, next. destruct (user_tick tf); [|done].
  destruct (Z.ltb_spec c n), (Z.eqb_spec (c + 1) n) as [E|E]; cbn [andb]; try lia.
  - rewrite (proj2 (Z.ltb_lt 0 n)) by lia. cbn [andb]. f_equal. replace (c + (1 + k)) with (0 + k + 1 * n) by lia. by rewrite Z.mod_add by lia.
  - rewrite (proj2 (Z.ltb_lt (c + 1) n)) by lia. cbn [andb]. by rewrite <-Z.add_assoc.
Qed.

Lemma fires_first c : 0 ≤ c → fires c 1 = (c + 1 =? n).
Proof.
  intros Hc. unfold fires. destruct (Z.ltb_spec c n), (Z.eqb_spec (c + 1) n) as [E|E]; cbn [andb]; try done; try lia.
  - rewrite E, Z.mod_same by lia. done.
  - rewrite Z.mod_small by lia. by rewrite (proj2 (Z.eqb_neq _ _)) by lia.
Qed.

Lemma timer_run_spec l : ∀ c s, alarm_inv RUNNING c s → 0 ≤ c → c < n ∨ c + Z.of_nat (length l) < 2 ^ 31 →
  Forall (λ x, irq_frame x.1.2 ∧ harmless x.2) l →
  wp (timer_run l) (λ out _, length out = length l ∧ ∀ i x, l !! i = Some x → ∃ tf' w, out !! i = Some (tf', w) ∧
    if user_tick x.1.2 && fires c (uticks (take (S i) l))
    then tf' = set_frame (tf_esp x.1.2 - 4) h x.1.2 ∧ w = Some (tf_eip x.1.2) else tf' = x.1.2) s.
Proof.
  induction l as [|[[cpuid tf] between] l IH]; intros c s Hi Hc Hb Hl; [by apply wp_ret|].
  apply Forall_cons in Hl as [[Htf Hbe] Hl]. cbn [fst snd length] in *. cbn [timer_run].
  assert (Hnext : 0 ≤ next c tf ∧ (next c tf < n ∨ next c tf + Z.of_nat (length l) < 2 ^ 31)).
  { unfold next. destruct (user_tick tf); [destruct (Z.eqb_spec (c + 1) n)|]; lia. }
  assert (Hu0 : ∀ l', 0 ≤ uticks l') by (induction l' as [|x l' IHl]; cbn; [lia|destruct (user_tick x.1.2); lia]).
  apply wp_bind. eapply wp_mono; [apply (trap_tick_spec cpuid c s tf); [done|lia|done]|]. intros r s1 [H1 Htop].
  assert (Hres : wp (resume r) (λ tf' s', tf' = delivered c tf ∧ alarm_inv RUNNING (next c tf) s' ∧ ∀ esp, top s' pgdir esp = top s1 pgdir esp) s1).
  { destruct H1 as [[-> H1]|[-> H1]]; [by apply resume_spec|]. by apply wp_ret. }
  apply wp_bind. eapply wp_mono; [exact Hres|]. intros tf' s2 (-> & H2 & Ht).
  apply wp_bind, wp_gets. apply wp_bind, wp_modify. apply wp_bind.
  eapply wp_mono; [apply (IH (next c tf)); [by apply Hbe|apply Hnext|apply Hnext|done]|]. intros out s3 [Hlen Hout]. apply wp_ret.
  split; [cbn; by rewrite Hlen|]. intros [|i] x Hx.
  - injection Hx as <-. cbn [fst snd take uticks]. do 2 eexists. split; [done|]. unfold delivered. rewrite take_0. cbn [uticks].
    destruct (user_tick tf) eqn:Hu; cbn [andb]; [|done]. rewrite fires_first by done. destruct (Z.eqb_spec (c + 1) n) as [E|E]; [|done].
    split; [done|]. rewrite Ht, <-(Htop eq_refl E). done.
  - destruct (Hout i x Hx) as (tf' & w & Hw & Hww). exists tf', w. split; [done|]. cbn [take uticks fst snd].
    rewrite <-fires_next by auto. exact Hww.
Qed.

End alarm.

(** C19: The alarm is periodic. A process that has asked for an alarm every [n]
    ticks and has counted [c] of them is interrupted any number of times, by the
    clock and by devices, in user mode and in the kernel, with anything else in
    between that leaves its alarm, its count and the page of its stack. Exactly
    the clock ticks in user mode count. When [c] is below [n], the handler is
    called at those whose number, with [c], is a multiple of [n], and at no
    other interrupt: then the code goes on in the handler with the interrupted
    address on top of its stack, so that the handler returns there; at every
    other interrupt the frame is unchanged. A process that has already counted
    [n] ticks or more gets no alarm, unless the count wraps around. *)
Theorem alarm_periodic `{BD : BlockDev} kend syscalls me n h pgdir vpn pg c s l :
  0 < n < 2 ^ 31 → 0 ≤ c → c < n ∨ c + Z.of_nat (length l) < 2 ^ 31 → alarm_inv me n h pgdir vpn pg RUNNING c s →
  Forall (λ x, irq_frame vpn x.1.2 ∧ harmless me n h pgdir vpn pg x.2) l →
  ∃ out s', timer_run kend syscalls me pgdir l s = Ok out s' ∧ length out = length l ∧
    ∀ i x, l !! i = Some x → ∃ tf' w, out !! i = Some (tf', w) ∧
      if user_tick x.1.2 && (c <? n) && ((c + uticks (take (S i) l)) `mod` n =? 0)
      then tf' = set_frame (tf_esp x.1.2 - 4) h x.1.2 ∧ w = Some (tf_eip x.1.2)
      else tf' = x.1.2.
Proof.
  intros Hn Hc Hb Hi Hl. pose proof (timer_run_spec kend syscalls me n h pgdir vpn pg Hn l c s Hi Hc Hb Hl) as Hw.
  apply wp_Ok in Hw as (out & s' & Hrun & Hlen & Hout). exists out, s'. split; [done|]. split; [done|]. intros i x Hx.
  destruct (Hout i x Hx) as (tf' & w & Hw & Hww). exists tf', w. split; [done|]. by rewrite <-andb_assoc.
Qed.

(** A process with an alarm every two ticks: a tick in user mode, one in the
    kernel, the keyboard, and a second tick in user mode. *)
Definition alarm_proc : proc :=
  mkProc 4096 (KERNBASE + 0x1000) 0 RUNNING 1 None tf0 None false [] None [] [] 2 12 0 0.
Definition alarm_ts : ts := mkTs (mkPs (mkFt (fs0 []) [] ∅ small_kmem) [alarm_proc] 2 0) 0 [].
Definition irq_at (trapno cs eip : Z) : Z * trapframe * (ts → ts) :=
  (0, mkTf 0 0 0 0 0 0 0 0 0 0 0 0 trapno 0 eip cs 0 100 0, id).
Definition four_irqs : list (Z * trapframe * (ts → ts)) := [irq_at 32 27 40; irq_at 32 8 44; irq_at 33 27 44; irq_at 32 27 48].

Lemma alarm_periodic_witness :
  ∃ out s', timer_run (BD := memide) 0 [] 0 (KERNBASE + 0x1000) four_irqs alarm_ts = Ok out s' ∧
    fst <$> out = [(irq_at 32 27 40).1.2; (irq_at 32 8 44).1.2; (irq_at 33 27 44).1.2; set_frame 96 12 (irq_at 32 27 48).1.2] ∧
    snd <$> out !! 3%nat = Some (Some 48).
Proof.
  destruct (alarm_periodic (BD := memide) 0 [] 0 2 12 (KERNBASE + 0x1000) 0 (KERNBASE + 0x3000) 0 alarm_ts four_irqs) as (out & s' & Hr & Hlen & Ho).
  - lia.
  - lia.
  - left. lia.
  - exists alarm_proc. repeat (split; [reflexivity|]). split; [lia|].
    exists 0x2007, 0x3007, user_page. repeat (split; [first [reflexivity|vm_compute; congruence]|]). reflexivity.
  - repeat (apply Forall_cons; split; [split; [split; [apply (bool_decide_eq_true_1 _); vm_compute; reflexivity|
      intros _; split; vm_compute; intuition congruence]|intros c s Hs; exact Hs]|]).
    apply Forall_nil. exact I.
  - exists out, s'. split; [exact Hr|]. destruct (Ho 0%nat _ eq_refl) as (t0 & w0 & E0 & H0). destruct (Ho 1%nat _ eq_refl) as (t1 & w1 & E1 & H1).
    destruct (Ho 2%nat _ eq_refl) as (t2 & w2 & E2 & H2). destruct (Ho 3%nat _ eq_refl) as (t3 & w3 & E3 & H3).
    vm_compute in H0, H1, H2, H3, Hlen. destruct H3 as [-> ->]. subst t0 t1 t2.
    destruct out as [|x0 [|x1 [|x2 [|x3 [|x4 out]]]]]; try discriminate Hlen. injection E0 as ->. injection E1 as ->. injection E2 as ->. injection E3 as ->.
    split; reflexivity.
Defined.

(** [sys_alarm] does not reset the count: a process that has counted past the
    new number of ticks gets no alarm. *)
Lemma alarm_missed me tf s p : procs s !! me = Some p → p_alarmticks p ≤ p_curalarmtick p < 2 ^ 31 - 1 → 0 ≤ p_alarmticks p →
  alarm_tick me tf s = Ok tf (mkPs (files s) (<[me := pset_cur (p_curalarmtick p + 1) p]> (procs s)) (nextpid s) (initproc s)).
Proof.
  intros Hp Hc Ha. unfold alarm_tick, mbind, M_bind, getp, updp. rewrite Hp, s32_small, Hp by lia.
  by destruct (Z.eqb_spec (p_alarmticks p) (p_curalarmtick p + 1)); [lia|].
Qed.

(** ** Sleeping *)
Section sleeping.
Context (me : nat) (n t0 : Z).

(** The clock ticks; anything else happens; and the sleeper, when it has been
    woken, is run and does a round of its loop. *)
Fixpoint sleeper_run (l : list (ts → ts)) : M ts (option Z) :=
  match l with
  | [] => mret None
  | between :: l' =>
      clock_tick 0;;
      x ← lift (getp me);
      r ← (if bool_decide (p_state x = RUNNABLE) then
             lift (set_procs (λ ps, sleep_return me (scheduler_run me ps)));;
             sleep_round me n t0
           else mret None);
      match r with
      | Some v => mret (Some v)
      | None => modify between;; sleeper_run l'
      end
  end.

(** The process sleeps on the clock since [j] ticks. *)
Definition asleep (j : Z) (s : ts) : Prop :=
  ticks s = u32 (t0 + j) ∧ ∃ p, procs (tps s) !! me = Some p ∧ p_state p = SLEEPING ∧ p_chan p = Some CTicks ∧ p_killed p = false.

Lemma sleep_round_spec j s p : 0 ≤ j → procs (tps s) !! me = Some p → p_killed p = false → ticks s = u32 (t0 + j) → 0 ≤ n < 2 ^ 31 → j ≤ n →
  if j <? n then ∃ s', sleep_round me n t0 s = Ok None s' ∧ asleep j s' else sleep_round me n t0 s = Ok (Some 0) s.
Proof.
  intros Hj Hp Hk Ht Hn Hjn. unfold sleep_round, mbind, M_bind, gets. rewrite Ht.
  assert (E : u32 (u32 (t0 + j) - t0) = j).
  { unfold u32. rewrite Zminus_mod_idemp_l. replace (t0 + j - t0) with j by lia. apply Z.mod_small. lia. }
  rewrite E, (u32_small n) by lia. destruct (Z.ltb_spec j n); [|done]. unfold lift at 1, getp. cbn [low ps_ts]. rewrite Hp, Hk.
  eexists. split; [done|]. split; [done|]. exists (pset_state SLEEPING (pset_chan (Some CTicks) p)).
  unfold sleep_table. cbn [tps procs low set_low ps_ts]. rewrite list_lookup_alter_eq, Hp. by destruct p.
Qed.

Lemma sleeper_run_spec l : ∀ j s, 0 ≤ j < n → n < 2 ^ 31 → asleep j s →
  Forall (λ f : ts → ts, ∀ i s, asleep i s → asleep i (f s)) l →
  wp (sleeper_run l) (λ r _, r = if Z.of_nat (length l) <? n - j then None else Some 0) s.
Proof.
  induction l as [|f l IH]; intros j s Hj Hn Hs Hl.
  - apply wp_ret. destruct (Z.ltb_spec (Z.of_nat (length (@nil (ts → ts)))) (n - j)); [done|]. cbn in *. lia.
  - apply Forall_cons in Hl as [Hf Hl]. destruct Hs as (Ht & p & Hp & Hst & Hch & Hk). cbn [sleeper_run]. apply wp_bind. unfold clock_tick. cbn [Z.eqb].
    apply wp_bind, wp_modify, wp_lift, wp_modify. apply wp_bind, wp_lift. unfold wp at 1, getp. cbn [low set_low ps_ts tps procs].
    set (q := pset_state RUNNABLE p). assert (Hq : wakeup1 CTicks (procs (tps s)) !! me = Some q).
    { unfold wakeup1. rewrite list_lookup_fmap, Hp. cbn [fmap option_fmap option_map]. by rewrite Hst, Hch, !bool_decide_true by done. }
    rewrite Hq, bool_decide_true by by destruct p. apply wp_bind, wp_bind, wp_lift, wp_modify.
    cbn [low set_low ps_ts tps procs files nextpid initproc ticks calls].
    set (s1 := mkTs _ _ _). assert (Hp1 : procs (tps s1) !! me = Some (pset_chan None (pset_state RUNNING q))).
    { unfold s1, sleep_return, scheduler_run. cbn [tps procs]. by rewrite !list_lookup_alter_eq, Hq. }
    assert (Ht1 : ticks s1 = u32 (t0 + (j + 1))).
    { unfold s1. cbn [ticks]. rewrite Ht. unfold u32. rewrite Zplus_mod_idemp_l. f_equal. lia. }
    pose proof (sleep_round_spec (j + 1) s1 _ ltac:(lia) Hp1 ltac:(by destruct p) Ht1 ltac:(lia) ltac:(lia)) as Hr. cbn [length].
    unfold wp at 1. destruct (Z.ltb_spec (j + 1) n) as [Hlt|Hge].
    + destruct Hr as (s2 & -> & Hs2). apply wp_bind, wp_modify.
      eapply wp_mono; [apply (IH (j + 1)); [lia|done|by apply Hf|done]|]. intros r s3 ->.
      destruct (Z.ltb_spec (Z.of_nat (S (length l))) (n - j)), (Z.ltb_spec (Z.of_nat (length l)) (n - (j + 1))); lia || done.
    + rewrite Hr. apply wp_ret. destruct (Z.ltb_spec (Z.of_nat (S (length l))) (n - j)); [lia|done].
Qed.

End sleeping.

(** [sleep(n)] sleeps for exactly [n] ticks of the clock, also when the
    counter of ticks wraps around: the call puts the process to sleep, every
    tick wakes it, it goes back to sleep before the [n]-th tick and returns 0
    with it, whatever else happens in between. *)
Theorem sleep_exact me n s p l :
  procs (tps s) !! me = Some p → p_killed p = false → argint me 0 (tps s) = Ok (Some n) (tps s) → 0 < n < 2 ^ 31 → 0 ≤ ticks s < 2 ^ 32 →
  Forall (λ f : ts → ts, ∀ i s', asleep me (ticks s) i s' → asleep me (ticks s) i (f s')) l →
  ∃ s1 s', sys_sleep me s = Ok (None, ticks s) s1 ∧ asleep me (ticks s) 0 s1 ∧
    sleeper_run me n (ticks s) l s1 = Ok (if Z.of_nat (length l) <? n then None else Some 0) s'.
Proof.
  intros Hp Hk Ha Hn Ht Hl. assert (Ht0 : ticks s = u32 (ticks s + 0)) by (rewrite Z.add_0_r, u32_small; lia).
  pose proof (sleep_round_spec me n (ticks s) 0 s p ltac:(lia) Hp Hk Ht0 ltac:(lia) ltac:(lia)) as Hr.
  destruct (Z.ltb_spec 0 n); [|lia]. destruct Hr as (s1 & Hr & Hs1).
  pose proof (sleeper_run_spec me n (ticks s) l 0 s1 ltac:(lia) ltac:(lia) Hs1 Hl) as Hw. apply wp_Ok in Hw as (r & s' & Hs' & ->). rewrite Z.sub_0_r in Hs'.
  exists s1, s'. split; [|by split]. unfold sys_sleep, mbind, M_bind, lift at 1. cbn [low ps_ts]. rewrite Ha. unfold gets. cbn [set_low ps_ts ticks].
  assert (E : set_low (tps s) s = s) by by destruct s. cbn [set_low ps_ts] in E. rewrite E, Hr. done.
Qed.

(** The first argument of [small_ps] is 20; the counter wraps around after five
    ticks. *)
Lemma sleep_exact_witness :
  ∃ s1 s', sys_sleep 0 (mkTs small_ps (2 ^ 32 - 5) []) = Ok (None, 2 ^ 32 - 5) s1 ∧
    sleeper_run 0 20 (2 ^ 32 - 5) (replicate 20 id) s1 = Ok (Some 0) s'.
Proof.
  destruct (sleep_exact 0 20 (mkTs small_ps (2 ^ 32 - 5) []) small_proc (replicate 20 id)) as (s1 & s' & H1 & _ & H2).
  - reflexivity.
  - reflexivity.
  - vm_compute. reflexivity.
  - lia.
  - cbn. lia.
  - apply Forall_replicate. intros i s H. exact H.
  - exists s1, s'. split; [exact H1|exact H2].
Defined.
