(* ===== verification/Seg.v ===== *)
(** * Segments and the task state (mmu.h, x86.h; seginit, switchkvm, switchuvm
      of vm.c; idtinit of trap.c)

    Descriptors are records of bit fields. The processor sees them packed into
    64 bits, in the order of the fields from the lowest bit: [fields] packs and
    [bits] takes apart. The rules by which the processor uses descriptors, that
    is what a selector and an offset mean and what an interrupt does, are
    definitions of their own ([hw_segment], [hw_linear], [hw_interrupt]), so that
    the theorems say what the tables that the kernel fills in do. *)

From S2P Require Import Prelude Spinlock Kalloc Vm Proc Syscall Intr Trap.

(** ** Packed bit fields *)

(** Values with their widths, from the lowest bit. *)
Fixpoint fields (l : list (Z * Z)) : Z :=
  match l with
  | [] => 0
  | (w, v) :: l' => v + 2 ^ w * fields l'
  end.
Definition bits (off w z : Z) : Z := (z / 2 ^ off) `mod` 2 ^ w.
Definition fields_ok (l : list (Z * Z)) : Prop := Forall (λ f, 0 ≤ f.1 ∧ 0 ≤ f.2 < 2 ^ f.1) l.
Definition width (l : list (Z * Z)) : Z := foldr (λ f n, f.1 + n) 0 l.

Lemma fields_nonneg l : fields_ok l → 0 ≤ fields l.
Proof. induction 1 as [|[w v] l [? ?] _ IH]; simpl in *; [lia|]. pose proof (Z.pow_nonneg 2 w). nia. Qed.
Lemma width_nonneg l : fields_ok l → 0 ≤ width l.
Proof. induction 1 as [|[w v] l [? ?] _ IH]; simpl in *; lia. Qed.

(** Each field is found at the sum of the widths before it. *)
Lemma bits_fields l1 w v l2 : fields_ok (l1 ++ (w, v) :: l2) →
  bits (width l1) w (fields (l1 ++ (w, v) :: l2)) = v.
Proof.
  unfold bits. induction l1 as [|[w1 v1] l1 IH]; simpl; intros H.
  - apply Forall_cons in H as [[Hw Hv] _]. simpl in *. rewrite Z.div_1_r.
    rewrite (Z.mul_comm (2 ^ w)), Z_mod_plus_full. by apply Z.mod_small.
  - apply Forall_cons in H as [[Hw Hv] H]. simpl in *. pose proof (proj1 (Forall_app _ _ _) H) as [Hl _].
    rewrite Z.pow_add_r by (done || by apply width_nonneg). 
    rewrite <-Z.div_div by (try apply Z.pow_nonzero; try apply Z.pow_pos_nonneg; try lia; by apply width_nonneg).
    rewrite (Z.mul_comm (2 ^ w1)), Z.div_add by lia. rewrite (Z.div_small v1) by lia. by apply IH.
Qed.

(** ** Descriptors *)

Definition SEG_KDATA : Z := 2.
Definition SEG_KCPU : Z := 3.
Definition SEG_UCODE : Z := 4.
Definition SEG_UDATA : Z := 5.
Definition SEG_TSS : Z := 6.
Definition NSEGS : nat := 7.
Definition STA_X : Z := 0x8.
Definition STA_W : Z := 0x2.
Definition STA_R : Z := 0x2.
Definition STS_T32A : Z := 0x9.

Record segdesc := mkSeg {
  lim_15_0 : Z; base_15_0 : Z; base_23_16 : Z; sd_type : Z; sd_s : Z; sd_dpl : Z; sd_p : Z;
  lim_19_16 : Z; sd_avl : Z; sd_rsv1 : Z; sd_db : Z; sd_g : Z; base_31_24 : Z }.

(** An assignment to a bit field keeps the low bits. *)
Definition fit (w v : Z) : Z := v `mod` 2 ^ w.
Definition SEG (type base lim dpl : Z) : segdesc :=
  mkSeg (Z.land (Z.shiftr lim 12) 0xffff) (Z.land base 0xffff) (Z.land (Z.shiftr base 16) 0xff)
    (fit 4 type) 1 (fit 2 dpl) 1 (fit 4 (Z.shiftr lim 28)) 0 0 1 1 (fit 8 (Z.shiftr base 24)).
Definition SEG16 (type base lim dpl : Z) : segdesc :=
  mkSeg (Z.land lim 0xffff) (Z.land base 0xffff) (Z.land (Z.shiftr base 16) 0xff)
    (fit 4 type) 1 (fit 2 dpl) 1 (fit 4 (Z.shiftr lim 16)) 0 0 1 0 (fit 8 (Z.shiftr base 24)).
Definition set_s (x : Z) (d : segdesc) : segdesc :=
  mkSeg (lim_15_0 d) (base_15_0 d) (base_23_16 d) (sd_type d) (fit 1 x) (sd_dpl d) (sd_p d)
    (lim_19_16 d) (sd_avl d) (sd_rsv1 d) (sd_db d) (sd_g d) (base_31_24 d).

Definition seg_fields (d : segdesc) : list (Z * Z) :=
  [(16, lim_15_0 d); (16, base_15_0 d); (8, base_23_16 d); (4, sd_type d); (1, sd_s d); (2, sd_dpl d); (1, sd_p d);
   (4, lim_19_16 d); (1, sd_avl d); (1, sd_rsv1 d); (1, sd_db d); (1, sd_g d); (8, base_31_24 d)].
Definition gate_fields (g : gatedesc) : list (Z * Z) :=
  [(16, off_15_0 g); (16, g_cs g); (5, g_args g); (3, g_rsv1 g); (4, g_type g); (1, g_s g); (2, g_dpl g); (1, g_p g);
   (16, off_31_16 g)].

(** What the processor takes from the 64 bits of a segment descriptor. *)
Record segment := mkSegment { sg_base : Z; sg_limit : Z; sg_type : Z; sg_app : bool; sg_dpl : Z; sg_present : bool }.
Definition hw_decode (z : Z) : segment :=
  let limit := bits 0 16 z + 2 ^ 16 * bits 48 4 z in
  mkSegment (bits 16 16 z + 2 ^ 16 * bits 32 8 z + 2 ^ 24 * bits 56 8 z)
    (if bits 55 1 z =? 1 then limit * 4096 + 4095 else limit)
    (bits 40 4 z) (bits 44 1 z =? 1) (bits 45 2 z) (bits 47 1 z =? 1).
Record gate := mkHwGate { gt_off : Z; gt_cs : Z; gt_type : Z; gt_dpl : Z; gt_present : bool }.
Definition hw_gate (z : Z) : gate :=
  mkHwGate (bits 0 16 z + 2 ^ 16 * bits 48 16 z) (bits 16 16 z) (bits 40 4 z + 16 * bits 44 1 z) (bits 45 2 z)
    (bits 47 1 z =? 1).

(** A field at its place in a list of fields. *)
Lemma bits_at l k w v off : fields_ok l → l !! k = Some (w, v) → off = width (take k l) →
  bits off w (fields l) = v.
Proof.
  intros Hok Hk ->. rewrite <-(take_drop_middle l k (w, v) Hk) at 2.
  apply bits_fields. by rewrite (take_drop_middle l k (w, v) Hk).
Qed.

Definition pack_seg (d : segdesc) : Z := fields (seg_fields d).
Definition pack_gate (g : gatedesc) : Z := fields (gate_fields g).

Lemma hw_decode_pack d : fields_ok (seg_fields d) →
  hw_decode (pack_seg d) =
  let limit := lim_15_0 d + 2 ^ 16 * lim_19_16 d in
  mkSegment (base_15_0 d + 2 ^ 16 * base_23_16 d + 2 ^ 24 * base_31_24 d)
    (if sd_g d =? 1 then limit * 4096 + 4095 else limit) (sd_type d) (sd_s d =? 1) (sd_dpl d) (sd_p d =? 1).
Proof.
  intros H. unfold hw_decode, pack_seg.
  rewrite (bits_at _ 0 16 (lim_15_0 d) 0), (bits_at _ 1 16 (base_15_0 d) 16), (bits_at _ 2 8 (base_23_16 d) 32),
    (bits_at _ 3 4 (sd_type d) 40), (bits_at _ 4 1 (sd_s d) 44), (bits_at _ 5 2 (sd_dpl d) 45), (bits_at _ 6 1 (sd_p d) 47),
    (bits_at _ 7 4 (lim_19_16 d) 48), (bits_at _ 11 1 (sd_g d) 55), (bits_at _ 12 8 (base_31_24 d) 56) by done.
  done.
Qed.
Lemma hw_gate_pack g : fields_ok (gate_fields g) →
  hw_gate (pack_gate g) =
  mkHwGate (off_15_0 g + 2 ^ 16 * off_31_16 g) (g_cs g) (g_type g + 16 * g_s g) (g_dpl g) (g_p g =? 1).
Proof.
  intros H. unfold hw_gate, pack_gate.
  rewrite (bits_at _ 0 16 (off_15_0 g) 0), (bits_at _ 1 16 (g_cs g) 16), (bits_at _ 4 4 (g_type g) 40), (bits_at _ 5 1 (g_s g) 44),
    (bits_at _ 6 2 (g_dpl g) 45), (bits_at _ 7 1 (g_p g) 47), (bits_at _ 8 16 (off_31_16 g) 48) by done.
  done.
Qed.

Lemma land_ffff z : Z.land z 0xffff = z `mod` 2 ^ 16.
Proof. change 0xffff with (Z.ones 16). by rewrite Z.land_ones. Qed.
Lemma land_ff z : Z.land z 0xff = z `mod` 2 ^ 8.
Proof. change 0xff with (Z.ones 8). by rewrite Z.land_ones. Qed.

(** A descriptor reads back as it was written; the limit counts pages, up to
    the end of the last one. *)
Lemma SEG_decode type base lim dpl : 0 ≤ type < 16 → 0 ≤ base < 2 ^ 32 → 0 ≤ lim < 2 ^ 32 → 0 ≤ dpl < 4 →
  hw_decode (pack_seg (SEG type base lim dpl)) = mkSegment base (lim / 4096 * 4096 + 4095) type true dpl true.
Proof.
  intros Ht Hb Hl Hd. rewrite hw_decode_pack.
  - unfold SEG, fit. simpl. rewrite !land_ffff, !land_ff, !Z.shiftr_div_pow2 by lia.
    f_equal; Z.to_euclidean_division_equations; lia.
  - unfold SEG, seg_fields, fields_ok, fit. simpl. rewrite !land_ffff, !land_ff.
    repeat constructor; simpl; try lia; apply Z.mod_pos_bound; lia.
Qed.
Lemma SEG16_decode type base lim dpl : 0 ≤ type < 16 → 0 ≤ base < 2 ^ 32 → 0 ≤ lim < 2 ^ 20 → 0 ≤ dpl < 4 →
  hw_decode (pack_seg (set_s 0 (SEG16 type base lim dpl))) = mkSegment base lim type false dpl true.
Proof.
  intros Ht Hb Hl Hd. rewrite hw_decode_pack.
  - unfold SEG16, fit. simpl. rewrite !land_ffff, !land_ff, !Z.shiftr_div_pow2 by lia.
    f_equal; Z.to_euclidean_division_equations; lia.
  - unfold SEG16, set_s, seg_fields, fields_ok, fit. simpl. rewrite !land_ffff, !land_ff.
    repeat constructor; simpl; try lia; apply Z.mod_pos_bound; lia.
Qed.

(** ** The state of a processor *)

(** The parts of [struct cpu] that are used here, and the registers. *)
Record pcpu := mkPcpu {
  pc_cli : cpu;
  pc_gdt : list segdesc; pc_ss0 : Z; pc_esp0 : Z;
  pc_started : Z; pc_cpu : Z; pc_proc : Z;
  r_gdtr : Z * Z; r_idtr : Z * Z; r_tr : Z; r_gs : Z; r_cr3 : Z }.

Definition set_cli x c := mkPcpu x (pc_gdt c) (pc_ss0 c) (pc_esp0 c) (pc_started c) (pc_cpu c) (pc_proc c)
  (r_gdtr c) (r_idtr c) (r_tr c) (r_gs c) (r_cr3 c).
Definition on_gdt f c := mkPcpu (pc_cli c) (f (pc_gdt c)) (pc_ss0 c) (pc_esp0 c) (pc_started c) (pc_cpu c) (pc_proc c)
  (r_gdtr c) (r_idtr c) (r_tr c) (r_gs c) (r_cr3 c).
Definition set_ss0 x c := mkPcpu (pc_cli c) (pc_gdt c) x (pc_esp0 c) (pc_started c) (pc_cpu c) (pc_proc c)
  (r_gdtr c) (r_idtr c) (r_tr c) (r_gs c) (r_cr3 c).
Definition set_esp0 x c := mkPcpu (pc_cli c) (pc_gdt c) (pc_ss0 c) x (pc_started c) (pc_cpu c) (pc_proc c)
  (r_gdtr c) (r_idtr c) (r_tr c) (r_gs c) (r_cr3 c).
Definition set_started x c := mkPcpu (pc_cli c) (pc_gdt c) (pc_ss0 c) (pc_esp0 c) x (pc_cpu c) (pc_proc c)
  (r_gdtr c) (r_idtr c) (r_tr c) (r_gs c) (r_cr3 c).
Definition set_cpu_var x c := mkPcpu (pc_cli c) (pc_gdt c) (pc_ss0 c) (pc_esp0 c) (pc_started c) x (pc_proc c)
  (r_gdtr c) (r_idtr c) (r_tr c) (r_gs c) (r_cr3 c).
Definition set_proc_var x c := mkPcpu (pc_cli c) (pc_gdt c) (pc_ss0 c) (pc_esp0 c) (pc_started c) (pc_cpu c) x
  (r_gdtr c) (r_idtr c) (r_tr c) (r_gs c) (r_cr3 c).
Definition set_gdtr x c := mkPcpu (pc_cli c) (pc_gdt c) (pc_ss0 c) (pc_esp0 c) (pc_started c) (pc_cpu c) (pc_proc c)
  x (r_idtr c) (r_tr c) (r_gs c) (r_cr3 c).
Definition set_idtr x c := mkPcpu (pc_cli c) (pc_gdt c) (pc_ss0 c) (pc_esp0 c) (pc_started c) (pc_cpu c) (pc_proc c)
  (r_gdtr c) x (r_tr c) (r_gs c) (r_cr3 c).
Definition set_tr x c := mkPcpu (pc_cli c) (pc_gdt c) (pc_ss0 c) (pc_esp0 c) (pc_started c) (pc_cpu c) (pc_proc c)
  (r_gdtr c) (r_idtr c) x (r_gs c) (r_cr3 c).
Definition set_gs x c := mkPcpu (pc_cli c) (pc_gdt c) (pc_ss0 c) (pc_esp0 c) (pc_started c) (pc_cpu c) (pc_proc c)
  (r_gdtr c) (r_idtr c) (r_tr c) x (r_cr3 c).
Definition set_cr3 x c := mkPcpu (pc_cli c) (pc_gdt c) (pc_ss0 c) (pc_esp0 c) (pc_started c) (pc_cpu c) (pc_proc c)
  (r_gdtr c) (r_idtr c) (r_tr c) (r_gs c) x.

#[export] Instance cli_pcpu : Layer cpu pcpu := {|
  low := pc_cli; set_low := set_cli; low_set := λ s t, eq_refl; set_set_low := λ s s' t, eq_refl |}.

(** The layouts of [struct taskstate] and [struct cpu], as names and sizes; the
    names that are not fields are for the alignment. *)
Definition taskstate : list (string * Z) :=
  [("link", 4); ("esp0", 4); ("ss0", 2); ("padding1", 2); ("esp1", 4); ("ss1", 2); ("padding2", 2); ("esp2", 4);
   ("ss2", 2); ("padding3", 2); ("cr3", 4); ("eip", 4); ("eflags", 4); ("eax", 4); ("ecx", 4); ("edx", 4); ("ebx", 4);
   ("esp", 4); ("ebp", 4); ("esi", 4); ("edi", 4); ("es", 2); ("padding4", 2); ("cs", 2); ("padding5", 2); ("ss", 2);
   ("padding6", 2); ("ds", 2); ("padding7", 2); ("fs", 2); ("padding8", 2); ("gs", 2); ("padding9", 2); ("ldt", 2);
   ("padding10", 2); ("t", 2); ("iomb", 2)]%string.
Definition size_of (l : list (string * Z)) : Z := foldr (λ f n, f.2 + n) 0 l.
Fixpoint offset_of (f : string) (l : list (string * Z)) : Z :=
  match l with
  | [] => 0
  | (g, n) :: l' => if bool_decide (f = g) then 0 else n + offset_of f l'
  end.
Definition sz_ts : Z := Eval vm_compute in size_of taskstate.
Definition cpu_fields : list (string * Z) :=
  [("id", 1); ("_", 3); ("scheduler", 4); ("ts", sz_ts); ("gdt", 8 * Z.of_nat NSEGS); ("started", 4); ("ncli", 4); ("intena", 4);
   ("cpu", 4); ("proc", 4)]%string.
Definition sz_cpu : Z := Eval vm_compute in size_of cpu_fields.
Definition ts_off : Z := Eval vm_compute in offset_of "ts" cpu_fields.
Definition gdt_off : Z := Eval vm_compute in offset_of "gdt" cpu_fields.
Definition cpu_off : Z := Eval vm_compute in offset_of "cpu" cpu_fields.
Definition proc_off : Z := Eval vm_compute in offset_of "proc" cpu_fields.

(** The processor finds the stack for interrupts at the places that it expects
    in the task state: esp0 at 4 and ss0 at 8. *)
Lemma taskstate_layout : offset_of "esp0" taskstate = 4 ∧ offset_of "ss0" taskstate = 8 ∧ sz_ts = 104.
Proof. done. Qed.

Section cpu.
(** The addresses of the array cpus and of idt, and the processor. *)
Context (cpus_addr idt_addr : Z) (me : nat).

Definition cpu_addr : Z := cpus_addr + sz_cpu * Z.of_nat me.
Definition ts_addr : Z := cpu_addr + ts_off.
Definition gdt_addr : Z := cpu_addr + gdt_off.
Definition cpu_var_addr : Z := cpu_addr + cpu_off.
Definition proc_var_addr : Z := cpu_addr + proc_off.

(** *** The rules of the processor *)

(** The segment of a selector. *)
Definition hw_segment (c : pcpu) (sel : Z) : option segment :=
  let i := sel / 8 in
  if ((r_gdtr c).1 =? gdt_addr) && (0 <? i) && (8 * i + 7 <=? (r_gdtr c).2)
  then (hw_decode ∘ pack_seg) <$> pc_gdt c !! Z.to_nat i else None.
(** The address of [n] bytes at an offset in it. *)
Definition hw_linear (c : pcpu) (sel off n : Z) : option Z :=
  s ← hw_segment c sel;
  if sg_present s && (off + n - 1 <=? sg_limit s) then Some (u32 (sg_base s + off)) else None.

(** What an interrupt does: the new code and stack and whether interrupts are
    turned off; or a general protection fault. *)
Inductive hwev := Enter (cs eip ss esp : Z) (cli : bool) | GP.
Definition hw_interrupt (idt : list gatedesc) (c : pcpu) (cpl : Z) (soft : bool) (n : Z) : option hwev :=
  if negb ((r_idtr c).1 =? idt_addr) || ((r_idtr c).2 <? 8 * n + 7) then None else
  g ← (hw_gate ∘ pack_gate) <$> idt !! Z.to_nat n;
  if soft && (gt_dpl g <? cpl) then Some GP else
  if negb (gt_present g && ((gt_type g =? STS_IG32) || (gt_type g =? STS_TG32))) then None else
  s ← hw_segment c (gt_cs g);
  if negb (sg_present s && sg_app s && Z.testbit (sg_type s) 3 && (sg_dpl s <? cpl)) then None else
  t ← hw_segment c (r_tr c);
  if negb (sg_present t && negb (sg_app t) && (sg_type t =? 0xB) && (sg_base t =? ts_addr) && (sz_ts - 1 <=? sg_limit t))
  then None else
  k ← hw_segment c (pc_ss0 c);
  if negb (sg_present k && sg_app k && negb (Z.testbit (sg_type k) 3) && Z.testbit (sg_type k) 1 && (sg_dpl k =? sg_dpl s))
  then None else
  Some (Enter (gt_cs g) (gt_off g) (pc_ss0 c) (pc_esp0 c) (gt_type g =? STS_IG32)).

(** *** The instructions of x86.h *)

Definition lgdt (p size : Z) : M pcpu unit :=
  let pd0 := u16 (size - 1) in let pd1 := u16 p in let pd2 := u16 (Z.shiftr p 16) in
  modify (set_gdtr (pd1 + 2 ^ 16 * pd2, pd0)).
Definition lidt (p size : Z) : M pcpu unit :=
  let pd0 := u16 (size - 1) in let pd1 := u16 p in let pd2 := u16 (Z.shiftr p 16) in
  modify (set_idtr (pd1 + 2 ^ 16 * pd2, pd0)).
(** The task register takes a descriptor that is available and marks it busy;
    it is a fault otherwise. *)
Definition set_busy (d : segdesc) : segdesc :=
  mkSeg (lim_15_0 d) (base_15_0 d) (base_23_16 d) 0xB (sd_s d) (sd_dpl d) (sd_p d)
    (lim_19_16 d) (sd_avl d) (sd_rsv1 d) (sd_db d) (sd_g d) (base_31_24 d).
Definition ltr (sel : Z) : M pcpu unit :=
  c ← getM;
  t ← deref (hw_segment c sel);
  if sg_present t && negb (sg_app t) && (sg_type t =? STS_T32A) then
    modify (on_gdt (alter set_busy (Z.to_nat (sel / 8))));;
    modify (set_tr (u16 sel))
  else undef.
Definition loadgs (v : Z) : M pcpu unit := modify (set_gs (u16 v)).
Definition lcr3 (v : Z) : M pcpu unit := modify (set_cr3 v).

(** A store to a variable of the processor, at its offset in the segment of gs. *)
Definition gs_store (off v : Z) : M pcpu unit :=
  c ← getM;
  a ← deref (hw_linear c (r_gs c) off 4);
  if a =? cpu_var_addr then modify (set_cpu_var v)
  else if a =? proc_var_addr then modify (set_proc_var v)
  else undef.

(** *** vm.c and trap.c *)

Definition set_desc (i : Z) (d : segdesc) : M pcpu unit := modify (on_gdt (λ l, <[Z.to_nat i := d]> l)).

(** [c] is the element of cpus of this processor. *)
Definition seginit : M pcpu unit :=
  set_desc SEG_KCODE (SEG (Z.lor STA_X STA_R) 0 0xffffffff 0);;
  set_desc SEG_KDATA (SEG STA_W 0 0xffffffff 0);;
  set_desc SEG_UCODE (SEG (Z.lor STA_X STA_R) 0 0xffffffff DPL_USER);;
  set_desc SEG_UDATA (SEG STA_W 0 0xffffffff DPL_USER);;
  set_desc SEG_KCPU (SEG STA_W cpu_var_addr 8 0);;
  lgdt gdt_addr (8 * Z.of_nat NSEGS);;
  loadgs (Z.shiftl SEG_KCPU 3);;
  gs_store 0 cpu_addr;;
  gs_store 4 0.

Definition switchkvm (kpgdir : Z) : M pcpu unit := lcr3 (v2p kpgdir).

(** [kstack] is that of the process that runs on this processor. *)
Definition switchuvm (kstack pgdir : Z) : M pcpu unit :=
  lift pushcli;;
  set_desc SEG_TSS (SEG16 STS_T32A ts_addr (sz_ts - 1) 0);;
  modify (on_gdt (alter (set_s 0) (Z.to_nat SEG_TSS)));;
  modify (set_ss0 (u16 (Z.shiftl SEG_KDATA 3)));;
  modify (set_esp0 (u32 (kstack + KSTACKSIZE)));;
  ltr (Z.shiftl SEG_TSS 3);;
  if pgdir =? 0 then panic "switchuvm: no pgdir" else
  lcr3 (v2p pgdir);;
  lift popcli.

Definition idtinit : M pcpu unit := lidt idt_addr (8 * 256).

(** ** What they do *)

Hypothesis Hcpus : 0 ≤ cpus_addr ∧ cpu_addr + sz_cpu < 2 ^ 32.

Local Arguments Z.mul : simpl never.
Local Arguments Z.add : simpl never.
Local Arguments u16 : simpl never.
Local Arguments u32 : simpl never.
Local Arguments pack_seg : simpl never.
Local Arguments hw_decode : simpl never.

Lemma split_ptr p : 0 ≤ p < 2 ^ 32 → u16 p + 2 ^ 16 * u16 (Z.shiftr p 16) = p.
Proof. intros Hp. unfold u16. rewrite Z.shiftr_div_pow2 by lia. Z.to_euclidean_division_equations; lia. Qed.

Lemma addrs : 0 ≤ cpu_addr ∧ 0 ≤ ts_addr < 2 ^ 32 ∧ 0 ≤ gdt_addr < 2 ^ 32 ∧ 0 ≤ cpu_var_addr < 2 ^ 32 ∧ 0 ≤ proc_var_addr < 2 ^ 32.
Proof using Hcpus. unfold ts_addr, gdt_addr, cpu_var_addr, proc_var_addr, cpu_addr, sz_cpu, ts_off, gdt_off, cpu_off, proc_off in *. lia. Qed.

(** The table of the processor is in use. *)
Definition gdt_on (c : pcpu) : Prop := r_gdtr c = (gdt_addr, 55) ∧ length (pc_gdt c) = NSEGS.

Lemma hw_segment_at c i d : gdt_on c → 0 < i < 7 → pc_gdt c !! Z.to_nat i = Some d →
  hw_segment c (Z.shiftl i 3) = Some (hw_decode (pack_seg d)).
Proof.
  intros [Hg _] Hi Hd. unfold hw_segment. rewrite Hg, Z.shiftl_mul_pow2 by lia. change (2 ^ 3) with 8.
  rewrite Z.div_mul by lia. simpl. rewrite Z.eqb_refl.
  rewrite (proj2 (Z.ltb_lt 0 i)), (proj2 (Z.leb_le (8 * i + 7) 55)) by lia. simpl. by rewrite Hd.
Qed.

(** Flat segments for the kernel and for programs, and the segment of the
    variables cpu and proc of the processor. *)
Definition segs_ok (c : pcpu) : Prop :=
  gdt_on c ∧ r_gs c = 24 ∧
  pc_gdt c !! 1%nat = Some (SEG 0xA 0 0xffffffff 0) ∧ pc_gdt c !! 2%nat = Some (SEG 2 0 0xffffffff 0) ∧
  pc_gdt c !! 3%nat = Some (SEG 2 cpu_var_addr 8 0) ∧
  pc_gdt c !! 4%nat = Some (SEG 0xA 0 0xffffffff 3) ∧ pc_gdt c !! 5%nat = Some (SEG 2 0 0xffffffff 3).

Lemma gs_linear c off : segs_ok c → 0 ≤ off ≤ 4 → hw_linear c (r_gs c) off 4 = Some (cpu_var_addr + off).
Proof using Hcpus.
  intros (Hg & Hgs & _ & _ & H3 & _) Ho. destruct addrs as (? & _ & _ & ? & ?). unfold hw_linear.
  rewrite Hgs. change 24 with (Z.shiftl 3 3). rewrite (hw_segment_at _ 3 _ Hg ltac:(lia) H3), SEG_decode by lia. simpl.
  rewrite (proj2 (Z.leb_le _ _)) by (change (8 / 4096) with 0; lia).
  rewrite u32_small; [done|]. unfold cpu_var_addr, proc_var_addr, cpu_off, proc_off in *. lia.
Qed.

Lemma gs_store_var c off v : segs_ok c → off = 0 ∨ off = 4 →
  gs_store off v c = Ok tt (if off =? 0 then set_cpu_var v c else set_proc_var v c).
Proof using Hcpus.
  intros Hs Ho. unfold gs_store, mbind, M_bind. simpl. rewrite gs_linear by (done || lia). simpl.
  unfold cpu_var_addr, proc_var_addr, cpu_off, proc_off. destruct Ho as [-> | ->]; simpl.
  - by rewrite (proj2 (Z.eqb_eq _ _)) by lia.
  - by rewrite (proj2 (Z.eqb_neq _ _)), (proj2 (Z.eqb_eq _ _)) by lia.
Qed.

Lemma seginit_ok c : length (pc_gdt c) = NSEGS →
  ∃ c', seginit c = Ok tt c' ∧ segs_ok c' ∧ pc_cpu c' = cpu_addr ∧ pc_proc c' = 0 ∧
    pc_cli c' = pc_cli c ∧ r_idtr c' = r_idtr c ∧ r_cr3 c' = r_cr3 c ∧ pc_started c' = pc_started c.
Proof using Hcpus.
  intros Hl. destruct (pc_gdt c) as [|d0 [|d1 [|d2 [|d3 [|d4 [|d5 [|d6 []]]]]]]] eqn:Hg; try done. 
  destruct c as [cli gdt ss0 esp0 st cv pv gr ir tr gs cr]. simpl in Hg. subst gdt.
  set (c1 := mkPcpu cli [d0; SEG 0xA 0 0xffffffff 0; SEG 2 0 0xffffffff 0; SEG 2 cpu_var_addr 8 0;
    SEG 0xA 0 0xffffffff 3; SEG 2 0 0xffffffff 3; d6] ss0 esp0 st cv pv
    (u16 gdt_addr + 2 ^ 16 * u16 (Z.shiftr gdt_addr 16), 55) ir tr 24 cr).
  assert (segs_ok c1) as Hs.
  { split; [split; [|done]|done]. subst c1. cbn [r_gdtr]. rewrite split_ptr; [done|]. apply addrs. }
  change (seginit _) with ((gs_store 0 cpu_addr;; gs_store 4 0) c1).
  unfold mbind, M_bind. rewrite (gs_store_var c1 0) by (done || lia). simpl.
  rewrite gs_store_var by (done || lia). by eexists.
Qed.

(** *** Switching to a process *)

(** The nesting of cli and the interrupt flag agree. *)
Definition cli_fits (c : cpu) : Prop := 0 ≤ ncli c ∧ (0 < ncli c → fl_if c = false).

Lemma push_pop_cli c : cli_fits c → ∃ c', (pushcli;; popcli) c = Ok tt c' ∧ ncli c' = ncli c ∧ fl_if c' = fl_if c.
Proof.
  intros [Hn Hf]. destruct c as [n i f]; simpl in *. unfold mbind, M_bind, pushcli, popcli. simpl.
  replace (n + 1 - 1) with n by lia. rewrite (proj2 (Z.ltb_ge n 0)) by lia.
  destruct (Z.eqb_spec n 0) as [->|]; simpl; [destruct f; by eexists|]. rewrite Hf by lia. by eexists.
Qed.

(** The task register leads to the kernel stack. *)
Definition tss_ok (kstack : Z) (c : pcpu) : Prop :=
  r_tr c = 48 ∧ pc_ss0 c = 16 ∧ pc_esp0 c = u32 (kstack + KSTACKSIZE) ∧
  pc_gdt c !! 6%nat = Some (set_busy (set_s 0 (SEG16 STS_T32A ts_addr 103 0))).

Lemma ltr_ok c : gdt_on c → pc_gdt c !! 6%nat = Some (set_s 0 (SEG16 STS_T32A ts_addr 103 0)) →
  ltr 48 c = Ok tt (set_tr 48 (on_gdt (alter set_busy 6%nat) c)).
Proof using Hcpus.
  intros Hg H6. unfold ltr, mbind, M_bind. simpl. change 48 with (Z.shiftl 6 3).
  destruct addrs as (_ & ? & _). rewrite (hw_segment_at _ 6 _ Hg ltac:(lia) H6), SEG16_decode by (unfold STS_T32A; lia). done.
Qed.

Lemma switchuvm_ok kstack pgdir c : segs_ok c → cli_fits (pc_cli c) → pgdir ≠ 0 →
  ∃ c', switchuvm kstack pgdir c = Ok tt c' ∧ segs_ok c' ∧ tss_ok kstack c' ∧ r_cr3 c' = v2p pgdir ∧
    ncli (pc_cli c') = ncli (pc_cli c) ∧ fl_if (pc_cli c') = fl_if (pc_cli c) ∧ r_idtr c' = r_idtr c.
Proof using Hcpus.
  intros Hs Hc Hp. destruct (push_pop_cli _ Hc) as (cli' & Hpp & Hn & Hf).
  destruct c as [cli gdt ss0 esp0 st cv pv gr ir tr gs cr]. simpl in *.
  unfold mbind, M_bind in Hpp. destruct (pushcli cli) as [[] cli1|] eqn:E1; [|done].
  destruct Hs as ([Hgr Hl] & Hgs & Hds). simpl in Hgr, Hl, Hgs, Hds.
  destruct gdt as [|d0 [|d1 [|d2 [|d3 [|d4 [|d5 [|d6 []]]]]]]]; try done. simpl in Hds.
  set (T := set_s 0 (SEG16 STS_T32A ts_addr 103 0)).
  set (c1 := mkPcpu cli1 [d0; d1; d2; d3; d4; d5; T] 16 (u32 (kstack + KSTACKSIZE)) st cv pv gr ir tr gs cr).
  assert (∀ d cl, segs_ok (mkPcpu cl [d0; d1; d2; d3; d4; d5; d] 16 (u32 (kstack + KSTACKSIZE)) st cv pv gr ir 48 gs (v2p pgdir))) as Hs by done.
  assert (switchuvm kstack pgdir (mkPcpu cli [d0; d1; d2; d3; d4; d5; d6] ss0 esp0 st cv pv gr ir tr gs cr) =
    (ltr 48;; (if pgdir =? 0 then panic "switchuvm: no pgdir" else lcr3 (v2p pgdir);; lift popcli)) c1) as ->.
  { unfold switchuvm at 1. unfold mbind at 1, M_bind at 1. unfold lift at 1. cbn [low cli_pcpu pc_cli]. by rewrite E1. }
  unfold mbind at 1, M_bind at 1. rewrite ltr_ok by done.
  rewrite (proj2 (Z.eqb_neq pgdir 0)) by done. unfold mbind, M_bind, lift, lcr3. simpl. rewrite Hpp.
  eexists. split; [done|]. split; [apply Hs|]. done.
Qed.

(** *** Interrupts of a program *)

Lemma tvinit_at vectors n : 0 ≤ n < 256 →
  tvinit vectors !! Z.to_nat n =
  Some (SETGATE (n =? T_SYSCALL) 8 (vectors n) (if n =? T_SYSCALL then DPL_USER else 0)).
Proof using.
  intros Hn. unfold tvinit. destruct (Z.eqb_spec n T_SYSCALL) as [->|Hne].
  - by rewrite list_lookup_insert_eq by (rewrite length_fmap, length_seq; unfold T_SYSCALL; lia).
  - rewrite list_lookup_insert_ne by (unfold T_SYSCALL in *; lia).
    rewrite list_lookup_fmap, lookup_seq_lt by lia. cbn [fmap option_fmap option_map].
    by rewrite Nat.add_0_l, Z2Nat.id by lia.
Qed.

Lemma SETGATE_decode t off d : 0 ≤ off < 2 ^ 32 → 0 ≤ d < 4 →
  hw_gate (pack_gate (SETGATE t 8 off d)) = mkHwGate off 8 (if t then STS_TG32 else STS_IG32) d true.
Proof using.
  intros Ho Hd. assert (Hb : 0 ≤ Z.shiftr off 16 < 2 ^ 16).
  { rewrite Z.shiftr_div_pow2 by lia. Z.to_euclidean_division_equations; lia. }
  rewrite hw_gate_pack.
  - unfold SETGATE. cbn [off_15_0 off_31_16 g_cs g_type g_s g_dpl g_p]. rewrite land_ffff.
    f_equal; [|by destruct t]. rewrite Z.shiftr_div_pow2 by lia. Z.to_euclidean_division_equations; lia.
  - unfold gate_fields, SETGATE, fields_ok. cbn [off_15_0 off_31_16 g_cs g_type g_s g_dpl g_p g_args g_rsv1]. rewrite land_ffff.
    pose proof (Z.mod_pos_bound off (2 ^ 16) ltac:(lia)).
    repeat constructor; cbn [fst snd]; try lia; by destruct t.
Qed.

Definition idt_on (c : pcpu) : Prop := r_idtr c = (idt_addr, 2047).

Lemma interrupt_enters vectors c kstack soft n :
  (∀ k, 0 ≤ vectors k < 2 ^ 32) → segs_ok c → tss_ok kstack c → idt_on c → 0 ≤ n < 256 →
  hw_interrupt (tvinit vectors) c 3 soft n =
  Some (if soft && negb (n =? T_SYSCALL) then GP
        else Enter 8 (vectors n) 16 (u32 (kstack + KSTACKSIZE)) (negb (n =? T_SYSCALL))).
Proof using Hcpus.
  intros Hv (Hg & _ & H1 & H2 & _) (Htr & Hss & Hesp & H6) Hid Hn. destruct addrs as (_ & ? & _).
  unfold hw_interrupt. rewrite Hid. cbn [fst snd]. rewrite Z.eqb_refl, (proj2 (Z.ltb_ge 2047 (8 * n + 7))) by lia.
  cbn [negb orb]. rewrite tvinit_at by done. cbn [fmap option_fmap option_map compose mbind option_bind].
  unfold compose. rewrite SETGATE_decode by (done || by case_match). cbn [gt_dpl gt_present gt_type gt_cs gt_off].
  destruct (n =? T_SYSCALL) eqn:En, soft; cbn [andb negb]; try done;
  (change (hw_segment c 8) with (hw_segment c (Z.shiftl 1 3)); rewrite (hw_segment_at _ 1 _ Hg ltac:(lia) H1), SEG_decode by lia;
   rewrite Htr; change (hw_segment c 48) with (hw_segment c (Z.shiftl 6 3)); rewrite (hw_segment_at _ 6 _ Hg ltac:(lia) H6);
   rewrite Hss; change (hw_segment c 16) with (hw_segment c (Z.shiftl 2 3)); rewrite (hw_segment_at _ 2 _ Hg ltac:(lia) H2), SEG_decode by lia).
  all: change (set_busy (set_s 0 (SEG16 STS_T32A ts_addr 103 0))) with (set_s 0 (SEG16 0xB ts_addr 103 0));
    rewrite SEG16_decode by lia; simpl; by rewrite Z.eqb_refl, Hesp.
Qed.

(** Any number of switches, from one process to the next. *)
Lemma switches_ok l c : segs_ok c → cli_fits (pc_cli c) → Forall (λ p, p.2 ≠ 0) l →
  ∃ c', forM l (λ p : Z * Z, switchuvm p.1 p.2) c = Ok tt c' ∧ segs_ok c' ∧ cli_fits (pc_cli c') ∧
    ncli (pc_cli c') = ncli (pc_cli c) ∧ fl_if (pc_cli c') = fl_if (pc_cli c) ∧ r_idtr c' = r_idtr c ∧
    match last l with Some p => tss_ok p.1 c' ∧ r_cr3 c' = v2p p.2 | None => c' = c end.
Proof using Hcpus.
  intros Hs Hc Hl. induction l as [|[k pg] l IH] using rev_ind; [by exists c|].
  apply Forall_app in Hl as [Hl [Hpg _]%Forall_cons]. destruct (IH Hl) as (c1 & H1 & Hs1 & Hc1 & Hn1 & Hf1 & Hi1 & _).
  destruct (switchuvm_ok k pg c1 Hs1 Hc1 Hpg) as (c2 & H2 & Hs2 & Ht2 & Hr2 & Hn2 & Hf2 & Hi2).
  exists c2. rewrite last_snoc. assert (forM (l ++ [(k, pg)]) (λ p : Z * Z, switchuvm p.1 p.2) c = Ok tt c2) as ->.
  { clear -H1 H2. revert c H1. induction l as [|p l IH]; intros c H1; simpl in *.
    - injection H1 as ->. unfold mbind, M_bind. by rewrite H2.
    - unfold mbind, M_bind in *. destruct (switchuvm p.1 p.2 c) as [[] c'|]; [|done]. by apply IH. }
  split_and!; try done; [|congruence..]. unfold cli_fits in *. by rewrite Hn2, Hf2.
Qed.

(** C22: on a processor that has been set up, after any number of switches
    between processes, an interrupt or exception of the program that runs
    enters the kernel: at the entry of its vector, with the code segment of the
    kernel, on the kernel stack of the last process that was switched to, and
    with interrupts off unless it is a system call. A program cannot raise any
    other vector itself: that is a protection fault. Meanwhile the page table
    is that of the process, the variables cpu and proc are those of this
    processor, and the interrupt flag is as it was. *)
Theorem program_interrupts vectors l kstack pgdir c : (∀ k, 0 ≤ vectors k < 2 ^ 32) → 0 ≤ idt_addr < 2 ^ 32 →
  length (pc_gdt c) = NSEGS → cli_fits (pc_cli c) → Forall (λ p, p.2 ≠ 0) (l ++ [(kstack, pgdir)]) →
  ∃ c', (seginit;; idtinit;; forM (l ++ [(kstack, pgdir)]) (λ p, switchuvm p.1 p.2)) c = Ok tt c' ∧
    (∀ n, 0 ≤ n < 256 → hw_interrupt (tvinit vectors) c' 3 false n =
      Some (Enter 8 (vectors n) 16 (u32 (kstack + KSTACKSIZE)) (negb (n =? T_SYSCALL)))) ∧
    (∀ n, 0 ≤ n < 256 → n ≠ T_SYSCALL → hw_interrupt (tvinit vectors) c' 3 true n = Some GP) ∧
    hw_interrupt (tvinit vectors) c' 3 true T_SYSCALL =
      Some (Enter 8 (vectors T_SYSCALL) 16 (u32 (kstack + KSTACKSIZE)) false) ∧
    r_cr3 c' = v2p pgdir ∧
    hw_linear c' (r_gs c') 0 4 = Some cpu_var_addr ∧ hw_linear c' (r_gs c') 4 4 = Some proc_var_addr ∧
    ncli (pc_cli c') = ncli (pc_cli c) ∧ fl_if (pc_cli c') = fl_if (pc_cli c).
Proof using Hcpus.
  intros Hv Hidt Hl Hc Hp. destruct (seginit_ok c Hl) as (c1 & H1 & Hs1 & _ & _ & Hc1 & _).
  set (c2 := set_idtr (u16 idt_addr + 2 ^ 16 * u16 (Z.shiftr idt_addr 16), 2047) c1).
  assert (idt_on c2) as Hi2. { unfold idt_on, c2. simpl. by rewrite split_ptr. }
  destruct (switches_ok (l ++ [(kstack, pgdir)]) c2) as (c3 & H3 & Hs3 & _ & Hn3 & Hf3 & Hi3 & Hlast);
    [done|by unfold c2; simpl; rewrite Hc1|done|].
  rewrite last_snoc in Hlast. destruct Hlast as [Ht3 Hr3]. exists c3.
  assert (idt_on c3) as Hi by (unfold idt_on in *; congruence).
  split.
  { unfold mbind, M_bind. rewrite H1. exact H3. }
  pose proof (λ soft, interrupt_enters vectors c3 kstack soft) as Hin.
  split_and!; [intros n Hn; by apply (Hin false)| |by rewrite (Hin true)|done|..].
  - intros n Hn Hne. rewrite (Hin true) by done. by rewrite (proj2 (Z.eqb_neq _ _)) by done.
  - rewrite gs_linear by (done || lia). by rewrite Z.add_0_r.
  - rewrite gs_linear by (done || lia). f_equal. unfold cpu_var_addr, proc_var_addr, cpu_off, proc_off. lia.
  - simpl in *. congruence.
  - simpl in *. congruence.
Qed.
End cpu.

(** A process without a page table is refused. *)
Lemma switchuvm_no_pgdir cpus_addr me kstack c : 0 ≤ cpus_addr ∧ cpu_addr cpus_addr me + sz_cpu < 2 ^ 32 →
  segs_ok cpus_addr me c → ∃ c', switchuvm cpus_addr me kstack 0 c = Err (Panic "switchuvm: no pgdir") c'.
Proof.
  intros Hcpus Hs. destruct c as [cli gdt ss0 esp0 st cv pv gr ir tr gs cr].
  destruct Hs as ([Hgr Hl] & Hgs & Hds). simpl in Hgr, Hl, Hgs, Hds.
  destruct gdt as [|d0 [|d1 [|d2 [|d3 [|d4 [|d5 [|d6 []]]]]]]]; try done.
  set (T := set_s 0 (SEG16 STS_T32A (ts_addr cpus_addr me) 103 0)).
  change (switchuvm cpus_addr me kstack 0 _) with ((ltr cpus_addr me 48;; panic "switchuvm: no pgdir" : M pcpu unit)
    (mkPcpu (mkCpu (ncli cli + 1) (if ncli cli =? 0 then fl_if cli else intena cli) false)
      [d0; d1; d2; d3; d4; d5; T] 16 (u32 (kstack + KSTACKSIZE)) st cv pv gr ir tr gs cr)).
  unfold mbind, M_bind. rewrite ltr_ok by done. by eexists.
Qed.

Definition desc0 : segdesc := mkSeg 0 0 0 0 0 0 0 0 0 0 0 0 0.
Definition pcpu0 : pcpu :=
  mkPcpu (mkCpu 0 false false) (replicate NSEGS desc0) 0 0 0 0 0 (0, 0) (0, 0) 0 0 0.

Lemma program_interrupts_witness :
  ∃ c', (seginit 0x80112000 1;; idtinit 0x80114000;;
      forM [(0x8df00000, 0x8dff0000); (0x8de00000, 0x8dfe0000)] (λ p, switchuvm 0x80112000 1 p.1 p.2)) pcpu0 = Ok tt c' ∧
    r_cr3 c' = 0xdfe0000 ∧ hw_linear 0x80112000 1 c' (r_gs c') 4 4 = Some 0x80112174.
Proof.
  destruct (program_interrupts 0x80112000 0x80114000 1 ltac:(vm_compute; intuition congruence) (λ n, 0x80106000 + 10 * (n `mod` 256))
    [(0x8df00000, 0x8dff0000)] 0x8de00000 0x8dfe0000 pcpu0) as (c' & H & _ & _ & _ & Hc & _ & Hg & _).
  - intros k. pose proof (Z.mod_pos_bound k 256 ltac:(lia)). lia.
  - lia.
  - done.
  - by split.
  - by repeat constructor.
  - exists c'. split; [exact H|]. split; [exact Hc|exact Hg].
Defined.
