(* ===== verification/Main.v ===== *)
(** * Starting the other processors (main.c)

    The first processor starts the others one after the other. It leaves the
    stack, the entry point and the page table for a processor in three words in
    front of the code at 0x7000, sends it the start-up interrupts and waits until
    it is up. The other processor reads the words at a time of its own
    (entryother.S), so that the run is an interleaving: [ostep] is one step of
    either side. *)

From S2P Require Import Prelude Spinlock Kalloc Vm Proc Intr Mp Trap Seg.

(** ** The page table of the start *)

Definition PTE_PS : Z := 0x080.
Definition PDXSHIFT : Z := 22.
Definition entrypgdir : list Z :=
  let e := Z.lor (Z.lor (Z.lor 0 PTE_P) PTE_W) PTE_PS in
  <[Z.to_nat (Z.shiftr KERNBASE PDXSHIFT) := e]> (<[O := e]> (replicate (Z.to_nat NPDENTRIES) 0)).

(** What the processor makes of a directory with pages of 4 MB. *)
Definition hw_big_page (pd : list Z) (va : Z) : option Z :=
  e ← pd !! Z.to_nat (va / 2 ^ 22);
  if Z.testbit e 0 && Z.testbit e 7 then Some (e / 2 ^ 22 * 2 ^ 22 + va `mod` 2 ^ 22) else None.

Lemma entrypgdir_at i : 0 ≤ i < 1024 → entrypgdir !! Z.to_nat i = Some (if (i =? 0) || (i =? 512) then 0x83 else 0).
Proof.
  intros Hi. unfold entrypgdir. change (Z.to_nat (Z.shiftr KERNBASE PDXSHIFT)) with (Z.to_nat 512).
  change (Z.lor (Z.lor (Z.lor 0 PTE_P) PTE_W) PTE_PS) with 0x83.
  destruct (Z.eqb_spec i 0) as [->|H0]; [rewrite list_lookup_insert_ne by lia; apply list_lookup_insert_eq; rewrite length_replicate; unfold NPDENTRIES; lia|].
  destruct (Z.eqb_spec i 512) as [->|H5]; simpl orb.
  - apply list_lookup_insert_eq. rewrite length_insert, length_replicate. unfold NPDENTRIES. lia.
  - rewrite !list_lookup_insert_ne by lia. apply lookup_replicate. unfold NPDENTRIES. lia.
Qed.

(** The first 4 MB of memory are at 0 and at KERNBASE, and nothing else is. *)
Lemma entrypgdir_maps va : 0 ≤ va < 2 ^ 32 →
  hw_big_page entrypgdir va =
  if va <? 2 ^ 22 then Some va
  else if (KERNBASE <=? va) && (va <? KERNBASE + 2 ^ 22) then Some (va - KERNBASE) else None.
Proof.
  intros Hva. unfold hw_big_page.
  assert (Hd : 0 ≤ va / 2 ^ 22 < 1024) by (Z.to_euclidean_division_equations; lia).
  rewrite entrypgdir_at by done. cbn [mbind option_bind]. pose proof (Z.div_mod va (2 ^ 22) ltac:(lia)) as Hdm.
  pose proof (Z.mod_pos_bound va (2 ^ 22) ltac:(lia)). unfold KERNBASE.
  destruct (Z.ltb_spec va (2 ^ 22)), (Z.leb_spec 0x80000000 va), (Z.ltb_spec va (0x80000000 + 2 ^ 22)),
    (Z.eqb_spec (va / 2 ^ 22) 0), (Z.eqb_spec (va / 2 ^ 22) 512); cbn; try lia;
    change (131 / 2 ^ 22 * 2 ^ 22) with 0; f_equal; lia.
Qed.

(** ** The first processor *)

(** The free pages, the controller of the first processor, and the bytes from
    0x6ff0 on. *)
Record smp := mkSmp { m_kmem : kmem; m_mach : mach; m_low : list Z }.
#[export] Instance kmem_smp : Layer kmem smp := {|
  low := m_kmem; set_low k s := mkSmp k (m_mach s) (m_low s);
  low_set := λ s t, eq_refl; set_set_low := λ s s' t, eq_refl |}.
#[export] Instance mach_smp : Layer mach smp := {|
  low := m_mach; set_low k s := mkSmp (m_kmem s) k (m_low s);
  low_set := λ s t, eq_refl; set_set_low := λ s s' t, eq_refl |}.

Definition LOW : Z := 0x6ff0.
(** [*p = v] for a word in that memory. *)
Definition low_store (a v : Z) : M smp unit :=
  modify (λ s, mkSmp (m_kmem s) (m_mach s) (put_32 (Z.to_nat (a - LOW)) (u32 v) (m_low s))).
Definition low_word (a : Z) (l : list Z) : Z := get_u32 (Z.to_nat (a - LOW)) l.

Section startothers.
(** The code of entryother.S, the addresses of mpenter and entrypgdir, the
    processors that mpinit found, and the answers of the controller. *)
Context (entryother : list Z) (mpenter_addr entrypgdir_addr : Z) (ids : list Z) (dev : nat → src → Z).

Definition CODE : Z := 0x7000.
Definition copy_entry : M smp unit :=
  modify (λ s, mkSmp (m_kmem s) (m_mach s) (splice (Z.to_nat (CODE - LOW)) entryother (m_low s))).

(** The body of the loop, up to where it waits for the processor; false for the
    processor that runs it. *)
Definition startothers_body (i : nat) : M smp bool :=
  n ← lift (cpunum dev false);
  if n =? Z.of_nat i then mret false else
  stack ← lift kalloc;
  low_store (CODE - 4) (stack + KSTACKSIZE);;
  low_store (CODE - 8) mpenter_addr;;
  low_store (CODE - 12) (v2p entrypgdir_addr);;
  id ← deref (ids !! i);
  lift (lapicstartap dev id (v2p (p2v CODE)));;
  mret true.
End startothers.

(** The start-up interrupts among the writes of a controller: the processor and
    the address at which it starts. [hi] is the destination that was set last. *)
Fixpoint hw_startups (hi : Z) (l : list ev) : list (Z * Z) :=
  match l with
  | [] => []
  | LapW i v :: l' =>
      if i =? ICRHI then hw_startups (v / 2 ^ 24) l'
      else if (i =? ICRLO) && (bits 8 3 v =? 6) then (hi, bits 0 8 v * 4096) :: hw_startups hi l'
      else hw_startups hi l'
  | _ :: l' => hw_startups hi l'
  end.

Lemma lapicstartap_starts dev id m : 0 ≤ id < 256 →
  ∃ m' es, lapicstartap dev id 0x7000 m = Ok tt m' ∧ io m' = io m ++ es ∧ lapic m' = lapic m ∧
    ∀ hi, hw_startups hi es = [(id, 0x7000); (id, 0x7000)].
Proof.
  intros Hid. eexists _, _. split; [reflexivity|]. cbn [io lapic on_io set_nin].
  rewrite <-!app_assoc. split; [done|]. split; [done|]. intros hi. simpl.
  rewrite u32_small by (rewrite Z.shiftl_mul_pow2 by lia; lia). rewrite Z.shiftl_mul_pow2, Z.div_mul by lia. done.
Qed.

(** ** The other processors *)

(** The state of a processor that starts: its part of the array cpus with its
    registers, and its controller. *)
Definition apm := (pcpu * mach)%type.
#[export] Instance pcpu_apm : Layer pcpu apm := {|
  low := fst; set_low c s := (c, s.2); low_set := λ s t, eq_refl; set_set_low := λ s s' t, eq_refl |}.
#[export] Instance mach_apm : Layer mach apm := {|
  low := snd; set_low c s := (s.1, c); low_set := λ s t, eq_refl; set_set_low := λ s s' t, eq_refl |}.

(** The first processor with the free pages; [kdata] is the address of data. The
    result is kpgdir. *)
Definition kvm := (pcpu * kmem)%type.
#[export] Instance pcpu_kvm : Layer pcpu kvm := {|
  low := fst; set_low c s := (c, s.2); low_set := λ s t, eq_refl; set_set_low := λ s s' t, eq_refl |}.
#[export] Instance kmem_kvm : Layer kmem kvm := {|
  low := snd; set_low c s := (s.1, c); low_set := λ s t, eq_refl; set_set_low := λ s s' t, eq_refl |}.
Definition kvmalloc (kdata : Z) : M kvm Z :=
  kpgdir ← lift (setupkvm kdata);
  lift (switchkvm kpgdir);;
  mret kpgdir.

(** Its result is not tested: when memory runs out, the page table register is
    loaded with the address that belongs to a null pointer. *)
Lemma kvmalloc_null kdata c k : kalloc k = Ok 0 k → kvmalloc kdata (c, k) = Ok 0 (set_cr3 0x80000000 c, k).
Proof.
  intros H. unfold kvmalloc, setupkvm, mbind, M_bind, lift. simpl. by rewrite H.
Qed.

Section mpenter.
Context (cpus_addr idt_addr kpgdir : Z) (dev : nat → src → Z) (fuel : nat).

(** Up to the call of scheduler. *)
Definition mpmain : M apm unit :=
  lift (idtinit idt_addr);;
  lift (modify (set_started 1)).
(** [k] is the processor that runs it: seginit fills in its own element of the
    array cpus, as the controller says. *)
Definition mpenter (k : nat) : M apm unit :=
  lift (switchkvm kpgdir);;
  n ← lift (cpunum dev false);
  (if n =? Z.of_nat k then lift (seginit cpus_addr k) else undef);;
  lift (lapicinit dev fuel);;
  mpmain.
End mpenter.

(** What entryother.S reads before it calls mpenter. *)
Record apargs := mkArgs { aa_stack : Z; aa_entry : Z; aa_pgdir : Z }.
Definition entry_args (l : list Z) : apargs :=
  mkArgs (low_word (CODE - 4) l) (low_word (CODE - 8) l) (low_word (CODE - 12) l).

Inductive apst := ApOff | ApSent | ApRun (a : apargs) | ApUp (a : apargs).
Record ap := mkAp { a_st : apst; a_m : apm }.
Inductive bsp := BNext (i : nat) | BWait (i : nat) | BDone.
Record sys := mkSys { s_smp : smp; s_bsp : bsp; s_aps : list ap }.

(** A processor that is off is woken by a start-up interrupt for the code. *)
Definition wake (a : ap) : ap := match a_st a with ApOff => mkAp ApSent (a_m a) | _ => a end.
Definition deliver (aps : list ap) (x : Z * Z) : list ap :=
  if x.2 =? CODE then alter wake (Z.to_nat x.1) aps else aps.

Lemma total_bind {S A B} (m : M S A) (f : A → M S B) :
  (∀ s, ∃ a s', m s = Ok a s') → (∀ a s, ∃ b s', f a s = Ok b s') → ∀ s, ∃ b s', (m ≫= f) s = Ok b s'.
Proof. intros Hm Hf s. destruct (Hm s) as (a & s' & E). unfold mbind, M_bind. rewrite E. apply Hf. Qed.

Lemma wait_delivs_total d f j : ∀ m, (j < f)%nat → Z.land (d (nin m + j)%nat (LapReg ICRLO)) DELIVS = 0 →
  ∃ m', wait_delivs d f m = Ok tt m'.
Proof.
  revert f. induction j as [|j IH]; intros [|f] m Hj Hz; try lia; simpl; unfold mbind, M_bind; simpl.
  - rewrite Nat.add_0_r in Hz. rewrite Hz. by eexists.
  - destruct (negb _); [|by eexists]. apply IH; [lia|]. simpl. by rewrite Nat.add_succ_r in Hz.
Qed.

Section system.
Context (cpus_addr idt_addr kpgdir mpenter_addr entrypgdir_addr : Z) (ids : list Z) (ncpu : nat).
(** The controllers of the processors. *)
Context (devs : nat → nat → src → Z) (fuel : nat) (me : nat).

Inductive ostep (s : sys) : sys → Prop :=
| o_self i m' :
    s_bsp s = BNext i → (i < ncpu)%nat →
    startothers_body mpenter_addr entrypgdir_addr ids (devs me) i (s_smp s) = Ok false m' →
    ostep s (mkSys m' (BNext (S i)) (s_aps s))
| o_start i m' es :
    s_bsp s = BNext i → (i < ncpu)%nat →
    startothers_body mpenter_addr entrypgdir_addr ids (devs me) i (s_smp s) = Ok true m' →
    io (m_mach m') = io (m_mach (s_smp s)) ++ es →
    ostep s (mkSys m' (BWait i) (foldl deliver (s_aps s) (hw_startups 0 es)))
| o_up i a :
    s_bsp s = BWait i → s_aps s !! i = Some a → pc_started (a_m a).1 ≠ 0 →
    ostep s (mkSys (s_smp s) (BNext (S i)) (s_aps s))
| o_done :
    s_bsp s = BNext ncpu → ostep s (mkSys (s_smp s) BDone (s_aps s))
| o_read k m :
    s_aps s !! k = Some (mkAp ApSent m) →
    ostep s (mkSys (s_smp s) (s_bsp s) (<[k := mkAp (ApRun (entry_args (m_low (s_smp s)))) m]> (s_aps s)))
| o_enter k args m m' :
    s_aps s !! k = Some (mkAp (ApRun args) m) →
    mpenter cpus_addr idt_addr kpgdir (devs k) fuel k m = Ok tt m' →
    ostep s (mkSys (s_smp s) (s_bsp s) (<[k := mkAp (ApUp args) m']> (s_aps s))).

Inductive osteps (s : sys) : sys → Prop :=
| os_refl : osteps s s
| os_step s1 s2 : osteps s s1 → ostep s1 s2 → osteps s s2.

(** ** Each of them is started once, on a stack of its own *)

Context (kend : Z) (l0 : list Z).
Hypothesis Hcpus : 0 ≤ cpus_addr ∧ cpus_addr + sz_cpu * Z.of_nat (S ncpu) < 2 ^ 32.
Hypothesis Hidt : 0 ≤ idt_addr < 2 ^ 32.
Hypothesis Hentry : 0 ≤ mpenter_addr < 2 ^ 32.
Hypothesis Hids : (ncpu ≤ NCPU)%nat ∧ ∀ i, (i < ncpu)%nat → ids !! i = Some (Z.of_nat i).
Hypothesis Hme : (me < ncpu)%nat.
Hypothesis Hdev : ∀ k n, (k < ncpu)%nat → devs k n (LapReg ID) = Z.shiftl (Z.of_nat k) 24.
Hypothesis Hdeliv : ∀ k n, ∃ j, (j < fuel)%nat ∧ Z.land (devs k (n + j) (LapReg ICRLO)) DELIVS = 0.
Hypothesis Hstacks : (ncpu ≤ S (length l0))%nat.

(** *** A processor enters *)

Lemma lapicinit_total k m : ∃ m', lapicinit (devs k) fuel m = Ok tt m'.
Proof.
  assert (∀ s, ∃ a s', lapicinit (devs k) fuel s = Ok a s') as H.
  { unfold lapicinit. apply total_bind; [by do 2 eexists|]. intros p. destruct (negb p); [by do 2 eexists|].
    do 6 (apply total_bind; [by do 2 eexists|]; intros []).
    apply total_bind; [by do 2 eexists|]. intros v. apply total_bind; [destruct (4 <=? _); by do 2 eexists|]. intros [].
    do 6 (apply total_bind; [by do 2 eexists|]; intros []).
    apply total_bind; [|by do 2 eexists]. intros s. destruct (Hdeliv k (nin s)) as (j & Hj & Hz).
    exists tt. by eapply wait_delivs_total. }
  destruct (H m) as ([] & m' & ->). by eexists.
Qed.

(** A processor that has not started, and one that has. *)
Definition fresh (m : apm) : Prop := length (pc_gdt m.1) = NSEGS ∧ pc_started m.1 = 0 ∧ lapic m.2 = true.
Definition booted (k : nat) (m : apm) : Prop :=
  segs_ok cpus_addr k m.1 ∧ idt_on idt_addr m.1 ∧ pc_cpu m.1 = cpu_addr cpus_addr k ∧
  r_cr3 m.1 = v2p kpgdir ∧ pc_started m.1 = 1.

Lemma cpunum_dev k m : (k < ncpu)%nat → lapic m = true →
  cpunum (devs k) false m = Ok (Z.of_nat k) (set_nin (S (nin m)) m).
Proof.
  intros Hk Hl. unfold cpunum, mbind, M_bind. simpl. rewrite Hl. simpl. rewrite Hdev by done.
  rewrite Z.shiftr_shiftl_l, Z.shiftl_0_r by lia. done.
Qed.

Lemma mpenter_boots k m : (k < ncpu)%nat → fresh m →
  ∃ m', mpenter cpus_addr idt_addr kpgdir (devs k) fuel k m = Ok tt m' ∧ booted k m'.
Proof.
  intros Hk (Hg & Hst & Hl). destruct m as [c mc]. simpl in *.
  assert (Hc : 0 ≤ cpus_addr ∧ cpu_addr cpus_addr k + sz_cpu < 2 ^ 32) by (unfold cpu_addr, sz_cpu in *; lia).
  destruct (seginit_ok cpus_addr k Hc (set_cr3 (v2p kpgdir) c) Hg) as (c1 & H1 & Hs1 & Hv1 & _ & _ & _ & Hr1 & _).
  destruct (lapicinit_total k (set_nin (S (nin mc)) mc)) as [mc2 H2].
  eexists. unfold mpenter, mbind, M_bind, lift. simpl. rewrite cpunum_dev by done. simpl.
  rewrite Z.eqb_refl. simpl. rewrite H1. simpl. rewrite H2. split; [reflexivity|].
  unfold booted, idt_on. simpl. by rewrite split_ptr.
Qed.

(** *** The body of the loop *)

Local Arguments put_32 : simpl never.
Local Arguments get_u32 : simpl never.
Local Opaque lapicstartap.
Local Arguments set_nin : simpl never.

Definition smp_ok (l : list Z) (s : smp) : Prop :=
  krep kend (m_kmem s) l ∧ lapic (m_mach s) = true ∧ (16 ≤ length (m_low s))%nat.

Local Abbreviation body := (startothers_body mpenter_addr entrypgdir_addr ids (devs me)).

Lemma body_self s l : smp_ok l s → ∃ s', body me s = Ok false s' ∧ smp_ok l s'.
Proof.
  intros (Hk & Hl & Hlow). unfold startothers_body, mbind, M_bind, lift. simpl.
  rewrite cpunum_dev, Z.eqb_refl by done. by eexists.
Qed.

Lemma entry_args_stored l a b c : (16 ≤ length l)%nat → 0 ≤ a < 2 ^ 32 → 0 ≤ b < 2 ^ 32 → 0 ≤ c < 2 ^ 32 →
  entry_args (put_32 4 c (put_32 8 b (put_32 12 a l))) = mkArgs a b c.
Proof.
  intros Hl Ha Hb Hc. unfold entry_args, low_word.
  change (Z.to_nat (CODE - 4 - LOW)) with 12%nat. change (Z.to_nat (CODE - 8 - LOW)) with 8%nat.
  change (Z.to_nat (CODE - 12 - LOW)) with 4%nat.
  assert (H1 : length (put_32 12 a l) = length l) by (rewrite length_put_32; lia).
  assert (H2 : length (put_32 8 b (put_32 12 a l)) = length l) by (rewrite length_put_32; lia).
  rewrite (get_put_u32_ne 12 4), (get_put_u32_ne 12 8), (get_put_u32_ne 8 4) by lia.
  by rewrite !get_put_u32, !u32_small by lia.
Qed.

Lemma body_start s l v i : smp_ok (v :: l) s → (i < ncpu)%nat → i ≠ me →
  ∃ s' es, body i s = Ok true s' ∧ smp_ok l s' ∧ io (m_mach s') = io (m_mach s) ++ es ∧
    hw_startups 0 es = [(Z.of_nat i, CODE); (Z.of_nat i, CODE)] ∧
    entry_args (m_low s') = mkArgs (u32 (v + KSTACKSIZE)) mpenter_addr (v2p entrypgdir_addr).
Proof.
  intros (Hk & Hl & Hlow) Hi Hne. destruct Hids as [Hn Hid]. unfold NCPU in Hn.
  destruct (kalloc_spec _ _ _ Hk) as (k' & Ha & Hk' & _).
  destruct (lapicstartap_starts (devs me) (Z.of_nat i) (set_nin (S (nin (m_mach s))) (m_mach s)) ltac:(lia))
    as (m' & es & Hs & Hio & Hlap & Hhw).
  unfold startothers_body, mbind, M_bind, lift. simpl. rewrite cpunum_dev by done.
  rewrite (proj2 (Z.eqb_neq _ _)) by lia. simpl. rewrite Ha. simpl. rewrite (Hid i Hi). simpl.
  change (v2p (p2v CODE)) with 0x7000. rewrite Hs. simpl.
  eexists _, es. split; [reflexivity|]. unfold smp_ok. simpl. rewrite (u32_small mpenter_addr), (u32_small (v2p _)) by (done || apply u32_bound).
  split_and!; [done|by rewrite Hlap| |by rewrite Hio|apply Hhw|apply entry_args_stored; done || apply u32_bound].
  change (Z.to_nat (CODE - 4 - LOW)) with 12%nat. change (Z.to_nat (CODE - 8 - LOW)) with 8%nat.
  change (Z.to_nat (CODE - 12 - LOW)) with 4%nat. rewrite !length_put_32; rewrite ?length_put_32; rewrite ?length_put_32; lia.
Qed.

(** *** The invariant *)

(** The number of stacks that are in use when the loop comes to processor [i],
    and the arguments of processor [k]. *)
Definition cnt (i : nat) : nat := if (i <=? me)%nat then i else (i - 1)%nat.
Definition stack_of (k : nat) : Z := l0 !!! cnt k.
Definition args_of (k : nat) : apargs := mkArgs (u32 (stack_of k + KSTACKSIZE)) mpenter_addr (v2p entrypgdir_addr).

Definition ap_off (a : ap) : Prop := a_st a = ApOff ∧ fresh (a_m a).
Definition ap_up (k : nat) (a : ap) : Prop := a_st a = ApUp (args_of k) ∧ booted k (a_m a).
(** While it is waited for. *)
Definition ap_mid (low : list Z) (k : nat) (a : ap) : Prop :=
  (a_st a = ApSent ∧ fresh (a_m a) ∧ entry_args low = args_of k) ∨
  (a_st a = ApRun (args_of k) ∧ fresh (a_m a)) ∨ ap_up k a.
Definition ap_ok (low : list Z) (b : bsp) (k : nat) (a : ap) : Prop :=
  if (k =? me)%nat then ap_off a else
  match b with
  | BNext i => if (k <? i)%nat then ap_up k a else ap_off a
  | BWait i => if (k <? i)%nat then ap_up k a else if (k =? i)%nat then ap_mid low k a else ap_off a
  | BDone => ap_up k a
  end.

Definition used (b : bsp) : nat := match b with BNext i => cnt i | BWait i => cnt (S i) | BDone => cnt ncpu end.
Definition inv (s : sys) : Prop :=
  smp_ok (drop (used (s_bsp s)) l0) (s_smp s) ∧ length (s_aps s) = ncpu ∧
  match s_bsp s with BNext i => (i ≤ ncpu)%nat | BWait i => (i < ncpu)%nat ∧ i ≠ me | BDone => True end ∧
  ∀ k a, s_aps s !! k = Some a → ap_ok (m_low (s_smp s)) (s_bsp s) k a.

Lemma cnt_S i : cnt (S i) = if (i =? me)%nat then cnt i else S (cnt i).
Proof. unfold cnt. destruct (Nat.leb_spec (S i) me), (Nat.leb_spec i me), (Nat.eqb_spec i me); lia. Qed.
Lemma drop_cnt i : (i < ncpu)%nat → i ≠ me → drop (cnt i) l0 = stack_of i :: drop (cnt (S i)) l0.
Proof.
  intros Hi Hne. rewrite cnt_S, (proj2 (Nat.eqb_neq i me)) by done. unfold stack_of.
  apply drop_S. apply list_lookup_lookup_total_lt. unfold cnt. destruct (Nat.leb_spec i me); lia.
Qed.

Lemma lookup_deliver aps i k : (i < ncpu)%nat →
  foldl deliver aps [(Z.of_nat i, CODE); (Z.of_nat i, CODE)] !! k =
  if decide (i = k) then wake <$> aps !! k else aps !! k.
Proof.
  intros Hi. simpl. unfold deliver. simpl. rewrite Nat2Z.id. destruct (decide (i = k)) as [->|Hne].
  - rewrite !list_lookup_alter_eq. destruct (aps !! k) as [a|]; [|done]. simpl. f_equal. unfold wake. by destruct (a_st a) eqn:E; simpl; rewrite ?E.
  - by rewrite !list_lookup_alter_ne by done.
Qed.

(** A processor on its way is the one that is waited for. *)
Lemma mid_waited s k a : inv s → s_aps s !! k = Some a →
  match a_st a with ApSent | ApRun _ => True | _ => False end →
  s_bsp s = BWait k ∧ k ≠ me ∧ ap_mid (m_low (s_smp s)) k a.
Proof.
  intros (_ & _ & _ & Hap) Hk Ha. specialize (Hap k a Hk). unfold ap_ok in Hap.
  assert (∀ a, a_st a = ApOff ∨ (∃ x, a_st a = ApUp x) → match a_st a with ApSent | ApRun _ => True | _ => False end → False) as Hno.
  { by intros a' [-> |[x ->]]. }
  destruct (Nat.eqb_spec k me); [exfalso; eapply Hno; [|done]; left; apply Hap|].
  destruct (s_bsp s) as [i|i|].
  - exfalso. destruct (k <? i)%nat; (eapply Hno; [|done]); [right; eexists; apply Hap|left; apply Hap].
  - destruct (k <? i)%nat; [exfalso; eapply Hno; [|done]; right; eexists; apply Hap|].
    destruct (Nat.eqb_spec k i) as [->|]; [done|]. exfalso. eapply Hno; [|done]. left. apply Hap.
  - exfalso. eapply Hno; [|done]. right. eexists. apply Hap.
Qed.

(** A step of that processor alone. *)
Lemma inv_ap_step s k a' : inv s → s_bsp s = BWait k → k ≠ me → ap_mid (m_low (s_smp s)) k a' →
  inv (mkSys (s_smp s) (s_bsp s) (<[k := a']> (s_aps s))).
Proof.
  intros (Hm & Hlen & Hb & Hap) Eb Hne Hmid. split_and!; simpl; [done|by rewrite length_insert|done|].
  intros j a Hj. apply list_lookup_insert_Some in Hj as [(<- & <- & _)|[Hjk Hj]]; [|by apply Hap].
  rewrite Eb. unfold ap_ok. rewrite (proj2 (Nat.eqb_neq k me)), Nat.ltb_irrefl, Nat.eqb_refl by done. done.
Qed.

Lemma inv_step s s' : inv s → ostep s s' → inv s'.
Proof.
  intros Hinv Hs. pose proof Hinv as (Hm & Hlen & Hb & Hap).
  destruct Hs as [i m' Eb Hi Hbody|i m' es Eb Hi Hbody Hio|i a Eb Ha Hst|Eb|k m Hk|k args m m' Hk He];
    try rewrite Eb in *; simpl in Hm, Hb, Hap.
  - destruct (decide (i = me)) as [->|Hne].
    + destruct (body_self _ _ Hm) as (s1 & E1 & H1). rewrite Hbody in E1. simplify_eq. split_and!; simpl; [|done|lia|].
      * by rewrite cnt_S, Nat.eqb_refl.
      * intros k a Hk. specialize (Hap k a Hk). unfold ap_ok in *.
        destruct (Nat.eqb_spec k me); [done|]. destruct (Nat.ltb_spec k me), (Nat.ltb_spec k (S me)); try done; lia.
    + rewrite drop_cnt in Hm by done. destruct (body_start _ _ _ i Hm Hi Hne) as (s1 & es & E1 & _). congruence.
  - destruct (decide (i = me)) as [->|Hne]; [destruct (body_self _ _ Hm) as (s1 & E1 & H1); congruence|].
    rewrite drop_cnt in Hm by done. destruct (body_start _ _ _ i Hm Hi Hne) as (s1 & es1 & E1 & Hok & Hio1 & Hhw & Hargs). rewrite Hbody in E1. simplify_eq.
    rewrite Hio1 in Hio. apply app_inv_head in Hio as <-. rewrite Hhw. split_and!; [done| |done|].
    + simpl. unfold deliver. simpl. by rewrite !length_alter.
    + intros k a. cbn [s_aps s_smp s_bsp]. rewrite (lookup_deliver _ _ _ Hi). destruct (decide (i = k)) as [<-|Hik].
      * destruct (s_aps s !! i) as [a0|] eqn:Ea; simpl; [|done]. intros [= <-]. specialize (Hap i a0 Ea).
        unfold ap_ok in *. rewrite (proj2 (Nat.eqb_neq i me)), Nat.ltb_irrefl, ?Nat.eqb_refl in * by done.
        destruct Hap as [Hoff Hf]. left. unfold wake. rewrite Hoff. done.
      * intros Hk. specialize (Hap k a Hk). unfold ap_ok in *. destruct (Nat.eqb_spec k me); [done|].
        destruct (Nat.ltb_spec k i); [done|]. by rewrite (proj2 (Nat.eqb_neq k i)) by lia.
  - destruct Hb as [Hi Hne]. split_and!; simpl; [done|done|lia|]. intros k a' Hk. specialize (Hap k a' Hk) as Hap'.
    unfold ap_ok in *. destruct (Nat.eqb_spec k me); [done|].
    destruct (Nat.ltb_spec k i), (Nat.ltb_spec k (S i)); try done; try lia.
    + assert (k = i) as -> by lia. rewrite Nat.eqb_refl in Hap'. simplify_eq.
      destruct Hap' as [(_ & (_ & ? & _) & _)|[(_ & (_ & ? & _))|?]]; done.
    + by rewrite (proj2 (Nat.eqb_neq k i)) in Hap' by lia.
  - split_and!; simpl; [done..|]. intros k a Hk. specialize (Hap k a Hk). unfold ap_ok in *.
    destruct (Nat.eqb_spec k me); [done|]. apply lookup_lt_Some in Hk. by rewrite (proj2 (Nat.ltb_lt k ncpu)) in Hap by lia.
  - destruct (mid_waited s k _ Hinv Hk I) as (Eb & Hne & Hmid). apply inv_ap_step; [done..|].
    right. left. destruct Hmid as [(_ & Hf & ->)|[[? _]|[? _]]]; done.
  - destruct (mid_waited s k _ Hinv Hk I) as (Eb & Hne & Hmid). apply inv_ap_step; [done..|].
    destruct Hmid as [(? & _)|[[[= ->] Hf]|[? _]]]; try done. right. right. split; [done|]. simpl.
    assert (k < ncpu)%nat as Hk' by (apply lookup_lt_Some in Hk; lia).
    destruct (mpenter_boots k m Hk' Hf) as (m1 & E1 & Hb1). rewrite He in E1. by simplify_eq.
Qed.

(** *** Progress *)

(** The number of steps that are left. *)
Definition steps_left (s : sys) : nat :=
  match s_bsp s with
  | BNext i => 4 * (ncpu - i) + 1
  | BWait i => 4 * (ncpu - i) -
      match s_aps s !! i with
      | Some a => match a_st a with ApSent => 0 | ApRun _ => 1 | _ => 2 end
      | None => 2
      end
  | BDone => 0
  end.

Lemma steps_left_step s s' : inv s → ostep s s' → (steps_left s' < steps_left s)%nat.
Proof.
  intros Hinv Hs. pose proof Hinv as (Hm & Hlen & Hb & Hap).
  destruct Hs as [i m' Eb Hi Hbody|i m' es Eb Hi Hbody Hio|i a Eb Ha Hst|Eb|k m Hk|k args m m' Hk He].
  - unfold steps_left. simpl. rewrite Eb. lia.
  - unfold steps_left. cbn [s_bsp s_aps]. rewrite Eb. repeat case_match; lia.
  - unfold steps_left. simpl. rewrite Eb in *. destruct Hb as [Hi _]. repeat case_match; lia.
  - unfold steps_left. simpl. rewrite Eb. lia.
  - destruct (mid_waited s k _ Hinv Hk I) as (Eb & Hne & _). unfold steps_left. simpl. rewrite Eb in *. destruct Hb as [Hi _].
    rewrite list_lookup_insert_eq by lia. rewrite Hk. simpl. lia.
  - destruct (mid_waited s k _ Hinv Hk I) as (Eb & Hne & _). unfold steps_left. simpl. rewrite Eb in *. destruct Hb as [Hi _].
    rewrite list_lookup_insert_eq by lia. rewrite Hk. simpl. lia.
Qed.

Lemma progress s : inv s → s_bsp s ≠ BDone → ∃ s', ostep s s'.
Proof.
  intros Hinv Hnd. pose proof Hinv as (Hm & Hlen & Hb & Hap). destruct (s_bsp s) as [i|i|] eqn:Eb; [| |done]; simpl in Hm.
  - destruct (decide (i = ncpu)) as [->|Hi]; [eexists; by apply o_done|].
    destruct (decide (i = me)) as [->|Hne].
    + destruct (body_self _ _ Hm) as (s1 & E1 & H1). eexists. eapply o_self; [done|lia|done].
    + rewrite drop_cnt in Hm by lia. destruct (body_start _ _ _ i Hm ltac:(lia) Hne) as (s1 & es1 & E1 & Hok & Hio1 & _).
      eexists. eapply o_start; [done|lia|done..].
  - destruct Hb as [Hi Hne]. destruct (lookup_lt_is_Some_2 (s_aps s) i) as [[st m] Ha]; [lia|].
    specialize (Hap i _ Ha). unfold ap_ok in Hap. rewrite (proj2 (Nat.eqb_neq i me)), Nat.ltb_irrefl, Nat.eqb_refl in Hap by done.
    destruct Hap as [(Hst & Hf & _)|[[Hst Hf]|[Hst Hb]]]; simpl in *; subst st.
    + eexists. by eapply o_read.
    + destruct (mpenter_boots i m Hi Hf) as (m1 & E1 & _). eexists. by eapply o_enter.
    + eexists. eapply o_up; [done..|]. destruct Hb as (_ & _ & _ & _ & Hst). simpl. by rewrite Hst.
Qed.

Lemma inv_steps s s' : inv s → osteps s s' → inv s'.
Proof. induction 2; [done|]. by eapply inv_step. Qed.

(** At the call of startothers, with its loop still to run. *)
Definition starting (s : sys) : Prop :=
  smp_ok l0 (s_smp s) ∧ s_bsp s = BNext 0 ∧ length (s_aps s) = ncpu ∧ Forall ap_off (s_aps s).

Lemma starting_inv s : starting s → inv s.
Proof.
  intros (Hm & Hb & Hl & Ha). unfold inv. rewrite Hb. split_and!; [done|done|lia|].
  intros k a Hk. unfold ap_ok. rewrite Forall_lookup in Ha. destruct (k =? me)%nat; [by eapply Ha|]. by eapply Ha.
Qed.

Lemma stacks_distinct j k : NoDup l0 → (j < ncpu)%nat → (k < ncpu)%nat → j ≠ me → k ≠ me → stack_of j = stack_of k → j = k.
Proof.
  intros Hn Hj Hk Hjm Hkm E. unfold stack_of in E.
  assert (∀ i, (i < ncpu)%nat → i ≠ me → l0 !! cnt i = Some (l0 !!! cnt i)) as Hl.
  { intros i Hi Hi'. apply list_lookup_lookup_total_lt. unfold cnt. destruct (Nat.leb_spec i me); lia. }
  assert (cnt j = cnt k) as Hc by (eapply NoDup_lookup; [done|by apply Hl|rewrite E; by apply Hl]).
  unfold cnt in Hc. destruct (Nat.leb_spec j me), (Nat.leb_spec k me); lia.
Qed.

(** A processor that runs has its arguments, and its stack is in use. *)
Lemma running_args s k a args : inv s → s_aps s !! k = Some a → a_st a = ApRun args ∨ a_st a = ApUp args →
  k ≠ me ∧ args = args_of k ∧ (k < ncpu)%nat ∧ (cnt k < used (s_bsp s))%nat.
Proof.
  intros (_ & Hlen & Hb & Hap) Hk Hst. specialize (Hap k a Hk). apply lookup_lt_Some in Hk as Hlt. unfold ap_ok in Hap.
  assert (∀ a, ap_off a → a_st a = ApRun args ∨ a_st a = ApUp args → False) as Hoff by (by intros ? [-> _] [|]).
  assert (ap_mid (m_low (s_smp s)) k a → args = args_of k) as Hmid.
  { intros [(E & _)|[[E _]|[E _]]]; rewrite E in Hst; naive_solver. }
  destruct (Nat.eqb_spec k me); [by exfalso; eapply Hoff|].
  assert (∀ i, (k < i)%nat → (cnt k < cnt i)%nat) as Hcnt.
  { intros i Hki. unfold cnt. destruct (Nat.leb_spec k me), (Nat.leb_spec i me); lia. }
  assert (ap_mid (m_low (s_smp s)) k a ∧ (cnt k < used (s_bsp s))%nat) as [Hm Hu]; [|by rewrite <-Hlen; auto].
  destruct (s_bsp s) as [i|i|]; simpl in *.
  - destruct (Nat.ltb_spec k i); [|by exfalso; eapply Hoff]. unfold ap_mid. auto.
  - destruct (Nat.ltb_spec k i); [|destruct (Nat.eqb_spec k i); [|by exfalso; eapply Hoff]].
    + split; [unfold ap_mid; auto|]. apply Hcnt. lia.
    + split; [done|]. apply Hcnt. lia.
  - split; [unfold ap_mid; auto|]. apply Hcnt. lia.
Qed.

(** C23: startothers, whatever the speed of the other processors: a processor
    that is up has entered mpenter with the page table of the start, once, on
    the top of a page of its own, which is not free any more and not the stack
    of another one, although all of them read their arguments from the same
    words; the loop always goes on and takes at most four steps for each
    processor; and when it is through, every other processor is up, with its
    segments, its interrupt table and the page table of the kernel. *)
Theorem startothers_correct s s' : starting s → osteps s s' →
  (∀ k a args, s_aps s' !! k = Some a → a_st a = ApRun args ∨ a_st a = ApUp args →
    k ≠ me ∧ args = mkArgs (u32 (stack_of k + KSTACKSIZE)) mpenter_addr (v2p entrypgdir_addr)) ∧
  (∀ j k, (j < ncpu)%nat → (k < ncpu)%nat → j ≠ me → k ≠ me → stack_of j = stack_of k → j = k) ∧
  (∃ l, krep kend (m_kmem (s_smp s')) l ∧
    ∀ k a args, s_aps s' !! k = Some a → a_st a = ApRun args ∨ a_st a = ApUp args → stack_of k ∉ l) ∧
  (s_bsp s' ≠ BDone → ∃ s'', ostep s' s'') ∧
  (∀ s'', ostep s' s'' → (steps_left s'' < steps_left s')%nat) ∧ (steps_left s ≤ 4 * ncpu + 1)%nat ∧
  (s_bsp s' = BDone → ∀ k, (k < ncpu)%nat → k ≠ me →
    ∃ a, s_aps s' !! k = Some a ∧ a_st a = ApUp (args_of k) ∧ booted k (a_m a)).
Proof.
  intros Hs Hss. assert (NoDup l0) as Hnd by apply Hs. pose proof (starting_inv s Hs) as Hinv0.
  pose proof (inv_steps _ _ Hinv0 Hss) as Hinv.
  split_and!.
  - intros k a args Hk Ha. by destruct (running_args _ _ _ _ Hinv Hk Ha) as (? & ? & _).
  - eauto using stacks_distinct.
  - eexists. split; [apply Hinv|]. intros k a args Hk Ha (j & Hj)%list_elem_of_lookup.
    destruct (running_args _ _ _ _ Hinv Hk Ha) as (Hne & _ & Hlt & Hu). rewrite lookup_drop in Hj.
    assert (l0 !! cnt k = Some (stack_of k)) as Hc.
    { apply list_lookup_lookup_total_lt. unfold cnt in *. destruct (Nat.leb_spec k me); lia. }
    pose proof (NoDup_lookup _ _ _ _ Hnd Hj Hc). lia.
  - by apply progress.
  - intros s2. by apply steps_left_step.
  - unfold steps_left. destruct Hs as (_ & -> & _). lia.
  - intros Hd k Hk Hne. destruct Hinv as (_ & Hlen & _ & Hap). rewrite Hd in Hap.
    destruct (lookup_lt_is_Some_2 (s_aps s') k) as [a Ha]; [lia|]. specialize (Hap k a Ha). unfold ap_ok in Hap.
    rewrite (proj2 (Nat.eqb_neq k me)) in Hap by done. destruct Hap as [? ?]. eauto.
Qed.
End system.

(** Two processors, of which the first runs startothers, and two free pages. *)
Definition two_devs (k _ : nat) (r : src) : Z :=
  match r with LapReg i => if i =? ID then Z.shiftl (Z.of_nat k) 24 else 0 | _ => 0 end.
Definition two_sys : sys :=
  mkSys (mkSmp (mkKmem false 0x80400000 {[ 0x80400000 := put_32 0 0x80401000 junk_page; 0x80401000 := put_32 0 0 junk_page ]})
      (mach0 true 0 true) (replicate 64 0))
    (BNext 0) (replicate 2 (mkAp ApOff (pcpu0, mach0 true 0 true))).

Lemma startothers_correct_witness :
  ∃ s'', ostep 0x80112000 0x80114000 0x803ff000 0x80102f00 0x8010a000 [0; 1] 2 two_devs 1 0 two_sys s''.
Proof.
  refine (proj1 (proj2 (proj2 (proj2 (startothers_correct 0x80112000 0x80114000 0x803ff000 0x80102f00 0x8010a000 [0; 1] 2 two_devs 1 0
    0x80115000 [0x80400000; 0x80401000] _ _ _ _ _ _ _ _ two_sys two_sys _ (os_refl _ _ _ _ _ _ _ _ _ _ _))))) _).
  - unfold sz_cpu. lia.
  - lia.
  - lia.
  - split; [unfold NCPU; lia|]. intros [|[|i]] Hi; [done..|lia].
  - lia.
  - intros k n _. done.
  - intros k n. exists O. split; [lia|done].
  - simpl. lia.
  - split; [|split; [done|split; [done|by repeat constructor]]].
    split; [|split; [done|simpl; lia]]. split; [|repeat constructor; set_solver].
    split; [done|]. split; [by repeat split|]. eexists. split; [reflexivity|].
    split; [by vm_compute|]. split; [by repeat split|]. eexists. split; [reflexivity|]. by vm_compute.
  - done.
Defined.
