(* ===== verification/Kernel.v ===== *)
(** * The system call table (syscall.c, syscall.h) and the calls for the path of the prompt

    The state of the kernel is that of the processes with the clock, of the
    console and of the environment variables. The table has every system call at
    its number; the functions of the parts that take their arguments as values
    get them here from the memory of the caller. *)

From S2P Require Import Prelude Cstring EnvVar Buf Bio Log Fs Spinlock Pipe Kalloc Vm VmProps File Proc Exec FsProps Syscall Console Intr Rtc Trap.

Record kst := mkK { k_ts : ts; k_con : con; k_env : enVars }.

#[export] Instance ts_kst : Layer ts kst := {|
  low := k_ts; set_low s t := mkK s (k_con t) (k_env t);
  low_set := λ s t, eq_refl; set_set_low := λ s s' t, eq_refl;
|}.
#[export] Instance ps_kst : Layer ps kst := {|
  low := λ t, tps (k_ts t);
  set_low s t := mkK (mkTs s (ticks (k_ts t)) (calls (k_ts t))) (k_con t) (k_env t);
  low_set := λ s t, eq_refl; set_set_low := λ s s' t, eq_refl;
|}.
#[export] Instance con_kst : Layer con kst := {|
  low := k_con; set_low s t := mkK (k_ts t) s (k_env t);
  low_set := λ s t, eq_refl; set_set_low := λ s s' t, eq_refl;
|}.
#[export] Instance env_kst : Layer enVars kst := {|
  low := k_env; set_low s t := mkK (k_ts t) (k_con t) s;
  low_set := λ s t, eq_refl; set_set_low := λ s s' t, eq_refl;
|}.

Definition SYS_fork : nat := 1.
Definition SYS_exit : nat := 2.
Definition SYS_wait : nat := 3.
Definition SYS_pipe : nat := 4.
Definition SYS_read : nat := 5.
Definition SYS_kill : nat := 6.
Definition SYS_exec : nat := 7.
Definition SYS_fstat : nat := 8.
Definition SYS_chdir : nat := 9.
Definition SYS_dup : nat := 10.
Definition SYS_getpid : nat := 11.
Definition SYS_sbrk : nat := 12.
Definition SYS_sleep : nat := 13.
Definition SYS_uptime : nat := 14.
Definition SYS_open : nat := 15.
Definition SYS_write : nat := 16.
Definition SYS_mknod : nat := 17.
Definition SYS_unlink : nat := 18.
Definition SYS_link : nat := 19.
Definition SYS_mkdir : nat := 20.
Definition SYS_close : nat := 21.
Definition SYS_hlight : nat := 22.
Definition SYS_swpath : nat := 23.
Definition SYS_retprt : nat := 24.
Definition SYS_cmdmod : nat := 25.
Definition SYS_clrscr : nat := 26.
Definition SYS_getpos : nat := 27.
Definition SYS_setcln : nat := 28.
Definition SYS_lstpos : nat := 29.
Definition SYS_hlline : nat := 30.
Definition SYS_delhlt : nat := 31.
Definition SYS_alarm : nat := 32.
Definition SYS_time : nat := 33.
Definition SYS_outexac : nat := 34.
Definition SYS_kbevent : nat := 35.
Definition SYS_gameget : nat := 36.
Definition SYS_date : nat := 37.
Definition SYS_set : nat := 38.
Definition SYS_get : nat := 39.

(** ** The path of the prompt *)

(** The last slash of a path, or its beginning: [npath[i+2]] for [i] down to 0. *)
Fixpoint parent_end (npath : list Z) (i : nat) : nat :=
  match i with
  | O => O
  | S i' => if npath !!! (i + 2)%nat =? 47 then i else parent_end npath i'
  end.

Section kernel.
Context `{BD : BlockDev} (dsw : devsw) (kend kdata : Z).
(** What the clock answers, and what the stack holds where [sys_cmdmod] reads it. *)
Context (rtc : nat → Z → Z) (rtc_fuel : nat) (junk : Z).

(** The path is printed. *)
Definition sys_swpath (me : nat) : M kst Z :=
  p ← lift (getp me);
  l ← deref (until_nul (p_npath p));
  lift (consputs l);;
  mret (if p_npath p !!! 0%nat =? 126 then 1 else 0).

(** [pth] is the path without "~/" and without its last name. A path that is
    "~/" makes the code store in front of [pth]. *)
Definition sys_retprt (me : nat) : M ps Z :=
  p ← getp me;
  let np := p_npath p in
  if np !!! 1%nat =? 0 then mret 0 else
  path ← deref (until_nul (drop 2 np));
  if (length path =? 0)%nat then undef else
  let i := parent_end np (length path - 1) in
  cwd ← cwd_of me;
  r ← lift (namei dsw cwd [47; 0]);
  root ← deref r;
  if (i =? 0)%nat then
    lift (iput cwd);;
    updp me (pset_cwd (Some root));;
    updp me (λ x, pset_npath (<[1%nat := 0]> (p_npath x)) x);;
    mret 1
  else
    let pth := take i path in
    d ← lift (dirlookup dsw root (pth ++ [0]));
    match d with
    | None => mret 0
    | Some (parent, _) =>
        lift (iput cwd);;
        updp me (pset_cwd (Some parent));;
        updp me (λ x, pset_npath (splice 2 (pth ++ [0]) (p_npath x)) x);;
        mret 1
    end.

(** ** Arguments of the other parts *)
Definition int_arg (me : nat) (n : Z) : M kst (option Z) := lift (argint me n).

(** The bytes of the caller's memory from [a] on. *)
Definition bytes_from (me : nat) (a : Z) : M ps (list Z) :=
  p ← getp me; lift (uloads (Z.to_nat (p_sz p - a)) (p_pgdir p) a).

Definition k_sleep (me : nat) : M kst Z :=
  r ← lift (sys_sleep me);
  match r.1 with Some v => mret v | None => stopM (Sleep "ticks" me) end.

Definition k_setcln (me : nat) : M kst Z :=
  l ← lift (argstr me 1);
  match l with
  | None => mret (-1)
  | Some (a, _) =>
      n ← int_arg me 0;
      match n with
      | None => mret (-1)
      | Some n =>
          p ← lift (getp me);
          line ← lift (lift (T := ps) (uloads 80 (p_pgdir p) a));
          lift (sys_setcln (Some n) (Some line))
      end
  end.

Definition k_cmdmod (me : nat) : M kst Z :=
  ty ← int_arg me 0;
  otype ← (match ty with None => int_arg me 1 | Some _ => mret None end);
  lift (sys_cmdmod ty otype junk).

Definition k_outexac (me : nat) : M kst Z :=
  x ← int_arg me 0;
  y ← int_arg me 1;
  w ← int_arg me 2;
  lift (sys_outexac x y w).

(** The table of variables is initialised also when the argument is wrong. *)
Definition k_set (me : nat) : M kst Z :=
  a ← lift (argstr me 0);
  match a with
  | None => lift (modify (λ s : enVars, if initiated s then s else mkVars (contents s) 0 true));; mret (-1)
  | Some (a, n) => l ← lift (bytes_from me a); lift (sys_set l (Z.to_nat n))
  end.

Definition k_get (me : nat) : M kst Z :=
  c ← lift (argptr me 0 1);
  match c with
  | None => mret (-1)
  | Some c =>
      a ← lift (argstr me 1);
      match a with
      | None => mret (-1)
      | Some (a, n) =>
          l ← lift (bytes_from me a);
          r ← lift (sys_get l (Z.to_nat n));
          p ← lift (getp me);
          lift (lift (T := ps) (ustores r.2 (p_pgdir p) c));;
          mret r.1
      end
  end.

(** ** The table *)
Definition designated {A} (n : nat) (des : list (nat * A)) : list (option A) :=
  foldl (λ t p, <[p.1 := Some p.2]> t) (replicate n None) des.

Definition syscalls (me : nat) : list (option (M kst Z)) := designated 40
  [(SYS_fork, lift (sys_fork kend kdata me));
   (SYS_exit, lift (sys_exit kend me));
   (SYS_wait, lift (sys_wait kend me));
   (SYS_pipe, lift (sys_pipe kend me));
   (SYS_read, lift (sys_read dsw me));
   (SYS_kill, lift (sys_kill me));
   (SYS_exec, lift (sys_exec dsw kend kdata me));
   (SYS_fstat, lift (sys_fstat me));
   (SYS_chdir, lift (sys_chdir dsw me));
   (SYS_dup, lift (sys_dup me));
   (SYS_getpid, lift (sys_getpid me));
   (SYS_sbrk, lift (sys_sbrk kend me));
   (SYS_sleep, k_sleep me);
   (SYS_uptime, lift sys_uptime);
   (SYS_open, lift (sys_open dsw kend me));
   (SYS_write, lift (sys_write dsw me));
   (SYS_mknod, lift (sys_mknod dsw me));
   (SYS_unlink, lift (sys_unlink dsw me));
   (SYS_link, lift (sys_link dsw me));
   (SYS_mkdir, lift (sys_mkdir dsw me));
   (SYS_close, lift (sys_close kend me));
   (SYS_hlight, (ty ← int_arg me 0; lift (sys_hlight ty)));
   (SYS_swpath, sys_swpath me);
   (SYS_retprt, lift (sys_retprt me));
   (SYS_cmdmod, k_cmdmod me);
   (SYS_clrscr, lift sys_clrscr);
   (SYS_getpos, lift sys_getpos);
   (SYS_setcln, k_setcln me);
   (SYS_lstpos, lift sys_lstpos);
   (SYS_hlline, (n ← int_arg me 0; lift (sys_hlline n)));
   (SYS_delhlt, (n ← int_arg me 0; lift (sys_delhlt n)));
   (SYS_alarm, lift (sys_alarm me));
   (SYS_time, lift (sys_time me));
   (SYS_outexac, k_outexac me);
   (SYS_kbevent, lift (sys_kbevent me));
   (SYS_gameget, lift sys_gameget);
   (SYS_date, lift (sys_date rtc rtc_fuel me));
   (SYS_set, k_set me);
   (SYS_get, k_get me)].

(** The system call of a process, as [trap] makes it. *)
Definition kernel_syscall (me : nat) : M kst unit := syscall (syscalls me) me.

(** Every number of syscall.h has its function. *)
Lemma syscalls_total me n : (1 <= n < 40)%nat ↔ is_Some (mjoin (syscalls me !! n)).
Proof.
  split.
  - intros Hn. do 40 (destruct n as [|n]; [try lia; by eexists|]). lia.
  - intros [f Hf]. destruct n as [|n]; [done|]. split; [lia|]. apply Nat.nle_gt. intros Hge.
    assert (E : syscalls me !! S n = None) by (apply lookup_ge_None; change (length (syscalls me)) with 40%nat; lia). by rewrite E in Hf.
Qed.

(** A system call of any number leaves the kernel alone and returns -1 to the
    caller when there is no such function; otherwise its result is in eax. *)
Lemma syscall_unknown me k p : procs (tps (k_ts k)) !! me = Some p → (s32 (tf_eax (p_tf p)) ≤ 0 ∨ 40 ≤ s32 (tf_eax (p_tf p))) →
  kernel_syscall me k = lift (updp me (λ x, pset_tf (set_eax (u32 (-1)) (p_tf x)) x)) k.
Proof.
  intros Hp Hn. unfold kernel_syscall, syscall. unfold mbind, M_bind. unfold lift at 1, getp. cbn [low ps_kst]. rewrite Hp. cbn [set_low ps_kst].
  replace (mkK (mkTs (tps (k_ts k)) (ticks (k_ts k)) (calls (k_ts k))) (k_con k) (k_env k)) with k by by destruct k as [[] ? ?].
  change (Z.of_nat (length (syscalls me))) with 40. destruct (Z.ltb_spec 0 (s32 (tf_eax (p_tf p)))), (Z.ltb_spec (s32 (tf_eax (p_tf p))) 40); cbn [andb]; try done. lia.
Qed.

Lemma syscall_known me k p f v k' : procs (tps (k_ts k)) !! me = Some p → 0 < s32 (tf_eax (p_tf p)) < 40 →
  mjoin (syscalls me !! Z.to_nat (s32 (tf_eax (p_tf p)))) = Some f → f k = Ok v k' →
  kernel_syscall me k = lift (updp me (λ x, pset_tf (set_eax (u32 v) (p_tf x)) x)) k'.
Proof.
  intros Hp Hn Hf Hrun. unfold kernel_syscall, syscall. unfold mbind, M_bind. unfold lift at 1, getp. cbn [low ps_kst]. rewrite Hp. cbn [set_low ps_kst].
  replace (mkK (mkTs (tps (k_ts k)) (ticks (k_ts k)) (calls (k_ts k))) (k_con k) (k_env k)) with k by by destruct k as [[] ? ?].
  change (Z.of_nat (length (syscalls me))) with 40. destruct (Z.ltb_spec 0 (s32 (tf_eax (p_tf p)))), (Z.ltb_spec (s32 (tf_eax (p_tf p))) 40); cbn [andb]; try lia.
  unfold M in *. by rewrite Hf, Hrun.
Qed.

End kernel.
