(* ===== verification/Boot.v ===== *)
(** * The boot loader (bootmain.c)

    The loader reads the kernel, an ELF file that starts at sector 1 of the
    disk, into memory and jumps to its entry. The state is the physical memory
    and the number of times the status of the disk was read; [status] is what
    the disk answers and [disk] the bytes of a sector. *)

From S2P Require Import Prelude.

Definition SECTSIZE : Z := 512.
Definition ELF_MAGIC : Z := 0x464C457F.

Record bst := mkBst { bmem : Z → Z; polls : nat }.

(** Bytes stored from address [a] on. *)
Definition wr (a : Z) (l : list Z) (m : Z → Z) : Z → Z :=
  λ x, if (a <=? x) && (x <? a + Z.of_nat (length l)) then l !!! Z.to_nat (x - a) else m x.
Definition rdw16 (m : Z → Z) (a : Z) : Z := m a + 256 * m (a + 1).
Definition rdw32 (m : Z → Z) (a : Z) : Z := rdw16 m a + 65536 * rdw16 m (a + 2).

(** The fields of the headers of elf.h. *)
Definition elf_magic (m : Z → Z) (e : Z) : Z := rdw32 m e.
Definition elf_entry (m : Z → Z) (e : Z) : Z := rdw32 m (e + 24).
Definition elf_phoff (m : Z → Z) (e : Z) : Z := rdw32 m (e + 28).
Definition elf_phnum (m : Z → Z) (e : Z) : Z := rdw16 m (e + 44).
Definition ph_off (m : Z → Z) (p : Z) : Z := rdw32 m (p + 4).
Definition ph_paddr (m : Z → Z) (p : Z) : Z := rdw32 m (p + 12).
Definition ph_filesz (m : Z → Z) (p : Z) : Z := rdw32 m (p + 16).
Definition ph_memsz (m : Z → Z) (p : Z) : Z := rdw32 m (p + 20).

Section boot.
Context (disk : Z → list Z) (status : nat → Z).

Fixpoint waitdisk (fuel : nat) : M bst unit :=
  match fuel with
  | O => stopM NoFuel
  | S fuel' =>
      k ← gets polls;
      modify (λ b, mkBst (bmem b) (S k));;
      if negb (Z.land (status k) 0xC0 =? 0x40) then waitdisk fuel' else mret tt
  end.

(** The sector that the drive reads when the ports 0x1F3 to 0x1F6 have these
    values. *)
Definition lba (p3 p4 p5 p6 : Z) : Z := p3 + 256 * p4 + 65536 * p5 + 16777216 * Z.land p6 0xF.

Definition readsect (fuel : nat) (dst offset : Z) : M bst unit :=
  waitdisk fuel;;
  let s := lba (u8 offset) (u8 (Z.shiftr offset 8)) (u8 (Z.shiftr offset 16)) (u8 (Z.lor (Z.shiftr offset 24) 0xE0)) in
  waitdisk fuel;;
  modify (λ b, mkBst (wr dst (disk s) (bmem b)) (polls b)).

Fixpoint readseg_loop (n : nat) (fuel : nat) (pa epa offset : Z) : M bst unit :=
  match n with
  | O => stopM NoFuel
  | S n' =>
      if negb (pa <? epa) then mret tt else
      readsect fuel pa offset;;
      readseg_loop n' fuel (u32 (pa + SECTSIZE)) epa (u32 (offset + 1))
  end.

(** A sector more than the count needs is the most that is read. *)
Definition readseg (fuel : nat) (pa count offset : Z) : M bst unit :=
  let epa := u32 (pa + count) in
  let pa := u32 (pa - offset `mod` SECTSIZE) in
  let offset := offset / SECTSIZE + 1 in
  readseg_loop (Z.to_nat (count / SECTSIZE) + 3) fuel pa epa offset.

Definition boot_segment (fuel : nat) (ph : Z) : M bst unit :=
  m ← gets bmem;
  let pa := ph_paddr m ph in
  readseg fuel pa (ph_filesz m ph) (ph_off m ph);;
  m ← gets bmem;
  if ph_memsz m ph >? ph_filesz m ph then
    modify (λ b, mkBst (wr (u32 (pa + ph_filesz m ph)) (replicate (Z.to_nat (ph_memsz m ph - ph_filesz m ph)) 0) (bmem b)) (polls b))
  else mret tt.

Definition ELF_SCRATCH : Z := 0x10000.

(** The entry point that is called, or a return when the magic is wrong. *)
Definition bootmain (fuel : nat) : M bst (option Z) :=
  readseg fuel ELF_SCRATCH 4096 0;;
  m ← gets bmem;
  if negb (elf_magic m ELF_SCRATCH =? ELF_MAGIC) then mret None else
  let ph := ELF_SCRATCH + elf_phoff m ELF_SCRATCH in
  forM (seq 0 (Z.to_nat (elf_phnum m ELF_SCRATCH))) (λ i, boot_segment fuel (u32 (ph + 32 * Z.of_nat i)));;
  m ← gets bmem;
  mret (Some (elf_entry m ELF_SCRATCH)).

End boot.

(** ** The sector number *)
Lemma lba_id o : 0 ≤ o < 2 ^ 28 → lba (u8 o) (u8 (Z.shiftr o 8)) (u8 (Z.shiftr o 16)) (u8 (Z.lor (Z.shiftr o 24) 0xE0)) = o.
Proof.
  intros Ho. unfold lba, u8. rewrite !Z.shiftr_div_pow2 by lia.
  assert (E : Z.land (Z.lor (o / 2 ^ 24) 0xE0 `mod` 2 ^ 8) 0xF = o / 2 ^ 24).
  { rewrite <-Z.land_ones by lia. rewrite <-Z.land_assoc. change (Z.land (Z.ones 8) 0xF) with 0xF. rewrite Z.land_lor_distr_l.
    change (Z.land 0xE0 0xF) with 0. rewrite Z.lor_0_r. change 0xF with (Z.ones 4). rewrite Z.land_ones by lia. apply Z.mod_small.
    split; [apply Z.div_pos; lia|apply Z.div_lt_upper_bound; lia]. }
  rewrite E. Z.to_euclidean_division_equations. lia.
Qed.

(** ** Loading *)
Section load.
Context (disk : Z → list Z) (status : nat → Z) (file : Z → Z) (fuel : nat).
(** The file is on the disk from sector 1 on. *)
Context (Hdisk : ∀ s, 1 ≤ s < 2 ^ 28 → length (disk s) = 512%nat ∧ ∀ i, 0 ≤ i < 512 → disk s !!! Z.to_nat i = file ((s - 1) * 512 + i)).
(** The disk becomes ready in time. *)
Context (Hready : ∀ k, ∃ j, (j < fuel)%nat ∧ Z.land (status (k + j)) 0xC0 = 0x40).

Lemma waitdisk_spec b : wp (waitdisk status fuel) (λ _ b', bmem b' = bmem b) b.
Proof.
  destruct (Hready (polls b)) as (j & Hj & Hst). revert b Hst. generalize fuel as f, j, Hj. clear.
  intros f. induction f as [|f IH]; intros j Hj b Hst; [lia|]. cbn [waitdisk]. apply wp_bind, wp_gets, wp_bind, wp_modify.
  destruct j as [|j].
  - rewrite Nat.add_0_r in Hst. rewrite Hst. by apply wp_ret.
  - destruct (negb _); [|by apply wp_ret]. eapply wp_mono; [apply (IH j); [lia|]|done]. cbn [polls]. by rewrite Nat.add_succ_comm.
Qed.

Lemma readsect_spec dst o b : 1 ≤ o < 2 ^ 28 →
  wp (readsect disk status fuel dst o) (λ _ b', ∀ x, bmem b' x = if (dst <=? x) && (x <? dst + 512) then file ((o - 1) * 512 + (x - dst)) else bmem b x) b.
Proof.
  intros Ho. unfold readsect. apply wp_bind. eapply wp_mono; [apply waitdisk_spec|]. intros [] b1 H1.
  apply wp_bind. eapply wp_mono; [apply waitdisk_spec|]. intros [] b2 H2. apply wp_modify. intros x. cbn [bmem]. unfold wr.
  rewrite lba_id by lia. destruct (Hdisk o Ho) as [Hl Hb]. rewrite Hl, H2, H1. change (Z.of_nat 512) with 512.
  destruct (Z.leb_spec dst x), (Z.ltb_spec x (dst + 512)); cbn [andb]; try done. apply Hb. lia.
Qed.

(** What a read leaves: the bytes of the file from [lo] to some [hi]. *)
Definition loaded (lo hi base : Z) (m m' : Z → Z) : Prop :=
  ∀ x, m' x = if (lo <=? x) && (x <? hi) then file (base + (x - lo)) else m x.

Lemma readseg_loop_spec n : ∀ pa epa o b, 0 ≤ pa → 1 ≤ o → epa + 512 ≤ 2 ^ 32 → o + Z.of_nat n < 2 ^ 28 → epa - pa ≤ 512 * (Z.of_nat n - 1) → (0 < n)%nat →
  wp (readseg_loop disk status n fuel pa epa o) (λ _ b', ∃ hi, epa ≤ hi ∧ loaded pa hi ((o - 1) * 512) (bmem b) (bmem b')) b.
Proof.
  induction n as [|n IH]; intros pa epa o b Hpa Ho He Hon Hn Hpos; [lia|]. cbn [readseg_loop].
  destruct (Z.ltb_spec pa epa) as [Hlt|Hge]; cbn [negb].
  - apply wp_bind. eapply wp_mono; [apply readsect_spec; lia|]. intros [] b1 H1. unfold SECTSIZE. rewrite !u32_small by lia.
    eapply wp_mono; [apply IH; lia|]. intros [] b2 (hi & Hhi & H2). exists (Z.max hi (pa + 512)). split; [lia|]. intros x. rewrite H2, H1.
    destruct (Z.leb_spec (pa + 512) x), (Z.ltb_spec x hi), (Z.leb_spec pa x), (Z.ltb_spec x (pa + 512)), (Z.ltb_spec x (Z.max hi (pa + 512)));
      cbn [andb]; try lia; try done; f_equal; lia.
  - apply wp_ret. exists pa. split; [lia|]. intros x. destruct (Z.leb_spec pa x), (Z.ltb_spec x pa); try done. lia.
Qed.

Lemma readseg_spec pa count o b : 0 ≤ o → 0 ≤ count → o `mod` 512 ≤ pa → pa + count + 512 ≤ 2 ^ 32 → o + count < 2 ^ 32 →
  wp (readseg disk status fuel pa count o) (λ _ b', ∃ hi, pa + count ≤ hi ∧ loaded (pa - o `mod` 512) hi (o - o `mod` 512) (bmem b) (bmem b')) b.
Proof.
  intros Ho Hc Hpa Hpc Hoc. unfold readseg, SECTSIZE. pose proof (Z.mod_pos_bound o 512 ltac:(lia)) as Hm. pose proof (Z.div_mod o 512 ltac:(lia)) as Hd.
  pose proof (Z.div_mod count 512 ltac:(lia)) as Hdc. pose proof (Z.mod_pos_bound count 512 ltac:(lia)).
  assert (0 ≤ o / 512) by (apply Z.div_pos; lia). assert (0 ≤ count / 512) by (apply Z.div_pos; lia).
  rewrite !u32_small by lia. eapply wp_mono; [apply readseg_loop_spec; lia|]. intros [] b' (hi & Hhi & Hl). exists hi. split; [done|].
  replace (o - o `mod` 512) with ((o / 512 + 1 - 1) * 512) by lia. done.
Qed.

(** ** Segments *)
Record seg := mkSeg { s_off : Z; s_paddr : Z; s_filesz : Z; s_memsz : Z }.
(** The [i]-th program header of the file. *)
Definition seg_at (m : Z → Z) (p : Z) : seg := mkSeg (ph_off m p) (ph_paddr m p) (ph_filesz m p) (ph_memsz m p).
Definition file_segs : list seg := (λ i, seg_at file (elf_phoff file 0 + 32 * Z.of_nat i)) <$> seq 0 (Z.to_nat (elf_phnum file 0)).

(** The first address that is written for a segment, and its end. *)
Definition seg_lo (s : seg) : Z := s_paddr s - s_off s `mod` 512.
Definition seg_end (s : seg) : Z := s_paddr s + Z.max (s_filesz s) (s_memsz s).
(** Above the scratch space and below the end of the address space. *)
Definition seg_ok (s : seg) : Prop := 0x11000 ≤ seg_lo s ∧ seg_end s + 512 ≤ 2 ^ 32 ∧ s_off s + s_filesz s < 2 ^ 32.

(** The segment is in memory: the bytes of the file and then zeros. *)
Definition in_memory (s : seg) (m : Z → Z) : Prop :=
  ∀ x, 0 ≤ x < Z.max (s_filesz s) (s_memsz s) → m (s_paddr s + x) = if x <? s_filesz s then file (s_off s + x) else 0.

(** The header is in the scratch space. *)
Definition header_ok (m : Z → Z) : Prop := ∀ x, 0 ≤ x < 4096 → m (0x10000 + x) = file x.

Lemma header_rdw32 m a : header_ok m → 0 ≤ a → a + 4 ≤ 4096 → rdw32 m (0x10000 + a) = rdw32 file a.
Proof.
  intros H Ha Hb. unfold rdw32, rdw16. rewrite <-!Z.add_assoc. rewrite !H by lia. done.
Qed.
Lemma header_rdw16 m a : header_ok m → 0 ≤ a → a + 2 ≤ 4096 → rdw16 m (0x10000 + a) = rdw16 file a.
Proof. intros H Ha Hb. unfold rdw16. rewrite <-!Z.add_assoc. rewrite !H by lia. done. Qed.

Lemma seg_at_header m p : header_ok m → 0 ≤ p → p + 32 ≤ 4096 → seg_at m (0x10000 + p) = seg_at file p.
Proof.
  intros H Hp Hq. unfold seg_at, ph_off, ph_paddr, ph_filesz, ph_memsz. rewrite <-!(Z.add_assoc 0x10000). by rewrite !header_rdw32 by (done || lia).
Qed.

Context (Hbyte : ∀ x, 0 ≤ file x < 256).

Lemma rdw32_bound a : 0 ≤ rdw32 file a < 2 ^ 32.
Proof. unfold rdw32, rdw16. pose proof (Hbyte a). pose proof (Hbyte (a + 1)). pose proof (Hbyte (a + 2)). pose proof (Hbyte (a + 2 + 1)). lia. Qed.

Lemma boot_segment_spec p b : header_ok (bmem b) → 0 ≤ p → p + 32 ≤ 4096 → seg_ok (seg_at file p) →
  wp (boot_segment disk status fuel (0x10000 + p)) (λ _ b', in_memory (seg_at file p) (bmem b') ∧ ∀ x, x < seg_lo (seg_at file p) → bmem b' x = bmem b x) b.
Proof.
  intros Hh Hp Hq (Hlo & Hend & Hoff). unfold boot_segment. apply wp_bind, wp_gets. pose proof (seg_at_header _ p Hh Hp Hq) as E.
  assert (Hb : 0 ≤ s_off (seg_at file p) ∧ 0 ≤ s_paddr (seg_at file p) ∧ 0 ≤ s_filesz (seg_at file p) ∧ 0 ≤ s_memsz (seg_at file p))
    by (unfold seg_at; cbn; repeat split; apply rdw32_bound).
  injection E as E1 E2 E3 E4. rewrite E1, E2, E3. set (s := seg_at file p) in *.
  change (ph_off file p) with (s_off s) in *. change (ph_paddr file p) with (s_paddr s) in *. change (ph_filesz file p) with (s_filesz s) in *.
  change (ph_memsz file p) with (s_memsz s) in *. unfold seg_lo, seg_end in *. pose proof (Z.mod_pos_bound (s_off s) 512 ltac:(lia)) as Hmod.
  apply wp_bind. eapply wp_mono; [apply readseg_spec; lia|]. intros [] b1 (hi & Hhi & H1). unfold loaded in H1.
  assert (Hh1 : header_ok (bmem b1)).
  { intros x Hx. rewrite H1. destruct (Z.leb_spec (s_paddr s - s_off s `mod` 512) (0x10000 + x)); [lia|]. by apply Hh. }
  apply wp_bind, wp_gets. pose proof (seg_at_header _ p Hh1 Hp Hq) as F. injection F as _ _ F3 F4. rewrite F3, F4.
  change (ph_filesz file p) with (s_filesz s) in *. change (ph_memsz file p) with (s_memsz s) in *. rewrite Z.gtb_ltb.
  destruct (Z.ltb_spec (s_filesz s) (s_memsz s)) as [Hbss|Hno].
  - apply wp_modify. cbn [bmem]. unfold wr. rewrite length_replicate, Z2Nat.id, u32_small by lia. split.
    + intros x Hx. destruct (Z.ltb_spec x (s_filesz s)).
      * destruct (Z.leb_spec (s_paddr s + s_filesz s) (s_paddr s + x)); [lia|]. cbn [andb]. rewrite H1.
        destruct (Z.leb_spec (s_paddr s - s_off s `mod` 512) (s_paddr s + x)), (Z.ltb_spec (s_paddr s + x) hi); cbn [andb]; try lia. f_equal. lia.
      * destruct (Z.leb_spec (s_paddr s + s_filesz s) (s_paddr s + x)), (Z.ltb_spec (s_paddr s + x) (s_paddr s + s_filesz s + (s_memsz s - s_filesz s))); cbn [andb]; try lia.
        apply list_lookup_total_correct, lookup_replicate_2. lia.
    + intros x Hx. destruct (Z.leb_spec (s_paddr s + s_filesz s) x); [lia|]. cbn [andb]. rewrite H1.
      by destruct (Z.leb_spec (s_paddr s - s_off s `mod` 512) x); [lia|].
  - apply wp_ret. split.
    + intros x Hx. rewrite H1. destruct (Z.leb_spec (s_paddr s - s_off s `mod` 512) (s_paddr s + x)), (Z.ltb_spec (s_paddr s + x) hi), (Z.ltb_spec x (s_filesz s));
        cbn [andb]; try lia. f_equal. lia.
    + intros x Hx. rewrite H1. by destruct (Z.leb_spec (s_paddr s - s_off s `mod` 512) x); [lia|].
Qed.

(** In increasing order, with room for the sector that is read too early. *)
Definition ordered (l : list seg) : Prop :=
  ∀ i j s t, l !! i = Some s → l !! j = Some t → (i < j)%nat → seg_end s ≤ seg_lo t.

Lemma segments_spec n : ∀ k b, let P i := elf_phoff file 0 + 32 * Z.of_nat i in
  header_ok (bmem b) → P (k + n)%nat ≤ 4096 → (k + n = Z.to_nat (elf_phnum file 0))%nat → Forall seg_ok file_segs → ordered file_segs →
  (∀ i s, (i < k)%nat → file_segs !! i = Some s → in_memory s (bmem b)) →
  wp (forM (seq k n) (λ i, boot_segment disk status fuel (u32 (0x10000 + elf_phoff file 0 + 32 * Z.of_nat i))))
    (λ _ b', header_ok (bmem b') ∧ ∀ i s, file_segs !! i = Some s → in_memory s (bmem b')) b.
Proof.
  induction n as [|n IH]; intros k b P Hh Hp Hn Hok Hord Hk; cbn [seq forM].
  - apply wp_ret. split; [done|]. intros i s Hi. apply (Hk i s); [|done]. apply lookup_lt_Some in Hi. unfold file_segs in Hi.
    rewrite length_fmap, length_seq in Hi. lia.
  - pose proof (rdw32_bound (0 + 28)) as Hph. fold (elf_phoff file 0) in Hph.
    assert (Hseg : file_segs !! k = Some (seg_at file (P k))).
    { unfold file_segs. rewrite list_lookup_fmap, lookup_seq_lt by lia. done. }
    assert (Hsk : seg_ok (seg_at file (P k))) by (eapply Forall_lookup_1; done).
    unfold P in *. rewrite u32_small by lia. apply wp_bind. rewrite <-Z.add_assoc.
    eapply wp_mono; [apply boot_segment_spec; [done|lia|lia|done]|]. intros [] b1 [Hin Hlow].
    apply IH; [|lia|lia|done|done|].
    + intros x Hx. rewrite Hlow by (destruct Hsk; lia). by apply Hh.
    + intros i s Hi Hs. destruct (decide (i = k)) as [-> |Hne]; [by simplify_eq|].
      intros x Hx. rewrite Hlow; [apply (Hk i s); [lia|done|done]|].
      pose proof (Hord i k s _ Hs Hseg ltac:(lia)) as Hle. unfold seg_end in Hle. lia.
Qed.

End load.


(** A file with two segments: three bytes and two of bss, and two bytes. *)
Definition sample_ph (off paddr filesz memsz : Z) : list Z :=
  le_split 4 1 ++ le_split 4 off ++ le_split 4 paddr ++ le_split 4 paddr ++ le_split 4 filesz ++ le_split 4 memsz ++ le_split 4 7 ++ le_split 4 0.
Definition sample_file_bytes : list Z :=
  [0x7F; 0x45; 0x4C; 0x46] ++ replicate 20 0 ++ le_split 4 0x10000C ++ le_split 4 52 ++ replicate 12 0 ++ [2; 0] ++ replicate 6 0 ++
  sample_ph 600 0x100058 3 5 ++ sample_ph 700 0x100200 2 2 ++ replicate 484 0 ++ [11; 12; 13] ++ replicate 97 0 ++ [21; 22].
Definition sample_file (x : Z) : Z := if (0 <=? x) && (x <? 702) then sample_file_bytes !!! Z.to_nat x else 0.
Definition sample_disk (s : Z) : list Z := (λ i, sample_file ((s - 1) * 512 + Z.of_nat i)) <$> seq 0 512.

